(* ===== verification/_CoqProject ===== *)
-Q . S2P
Prelude.v
Ids.v
Json.v
JsonText.v
Model.v
Limits.v
PermissionId.v
Catalog.v
Context.v
Prog.v
Cancel.v
SessionState.v
Emission.v
Operations.v
Workflow.v
TurnStream.v
TurnMetadata.v
Sample.v
Lease.v
MetadataProofs.v
ReserveProofs.v
CommitProofs.v
Calm.v
TurnRules.v
StreamProofs.v
WorkflowProofs.v
TurnProofs.v
TurnTheorems.v
TurnStreamProofs.v
StreamTheorems.v
TurnTask.v
TurnMetadataProofs.v
SessionPool.v
Engine.v
EngineProofs.v
EnginePool.v
EngineTheorems.v
Terminal.v
TerminalProofs.v
TerminalAction.v
Invocation.v
Tool.v
Subagent.v
SubagentProofs.v
SubagentTheorems.v
SubagentSample.v
Background.v
BackgroundProofs.v
Patterns.v
PatternProofs.v
Rules.v
RulesProofs.v
Lifecycle.v
Controller.v
ControllerProofs.v
ControllerPool.v
ControllerRules.v
ControllerSample.v
Fallible.v
Schema.v
UnicodeLetter.v
SchemaPattern.v
RegexLang.v
RegexGrammar.v
RegexLex.v
RegexParse.v
RegexClosure.v
RegexCompile.v
RegexSearch.v
RegexTheorems.v
Scheduler.v
SchedulerRules.v
SchedulerOrder.v
SchedulerProofs.v
SchedulerFutures.v
SchedulerFutureProofs.v
SchedulerTheorems.v
