(* ===== verification/Prelude.v ===== *)
(** * A verification of the machine-god engine

    The program is the engine of an agent host ([src/crates/machine-god-core]) and
    the permission authority, the scheduler of managed runs and the schema patterns
    of its native host ([src/crates/machine-god-native]). A
    host builds an engine from a model provider, a session store, a permission
    handler and a set of tools; it opens sessions, edits their metadata and starts
    turns. A turn sends the transcript to the model, reads its stream of events,
    publishes the tool calls the model asks for with result placeholders, prepares,
    authorizes and executes them one by one, stores their results, and repeats
    until the model answers without a call. Each event of a turn is delivered to
    the host before the turn goes on, and a turn can be cancelled or dropped at any
    point at which it waits. A turn hands out editors of single metadata entries to
    the tools it runs. Beside the sessions, a supervisor starts background
    processes whose records are published before they run. The native host answers
    the permission requests of a turn: configured patterns, saved rules, grants, a
    review or a person decide them, and the proof of a decision is checked again
    before every effect. It also schedules the runs of managed agents on a bounded
    number of slots, and matches the patterns of tool schemas with its own engine.

    ** Parts

    - [Ids] is [id.rs]: validated identifiers and their text.
    - [Json] is [json_bounds.rs]: the iterative validator of JSON trees, their
      iterative destruction and the bounded size counter. [JsonText] is [json.rs]:
      the lexical depth check, the depth-bounded decoder and exact zero.
    - [Model] has the data of [model.rs], [tool.rs], [permission.rs], [event.rs],
      [error.rs], [store.rs] and [engine.rs].
    - [Limits] has the failure values and the admission checks of [session.rs]:
      records, options, arguments, results, permission texts, stop reasons.
    - [PermissionId] is [permission_request_id] of [session.rs].
    - [Catalog] is [TurnToolCatalog] of [session.rs].
    - [Context] is [session_context.rs]: provider-only projections of a transcript
      and the closure of tool calls.
    - [Prog] is the language of asynchronous programs, described below.
    - [Cancel] is [cancel.rs]: the token, its waiters and the [Cancelled] future.
    - [SessionState] is the canonical state of a session ([SessionData],
      [SessionInner]): snapshots, reconciliation with the store, the lease.
    - [Emission] is the gate between a turn and its event stream ([EmissionGate],
      [TurnEmitter]) and the scope of [permission_context.rs].
    - [Operations] has the exclusive operations of [session.rs]: revision checks,
      metadata edits, turn reservations and the two transcript commits.
    - [Workflow] is [run_turn] of [session.rs], with every branch of a round.
    - [TurnStream] is [Turn] of [session.rs]: the stream that polls the workflow,
      gives each event to the event sink and yields it, with its drop.
    - [TurnMetadata] is [session/turn_metadata.rs]: the editors of a running turn,
      which read and exchange one metadata entry beside the lease of the turn.
    - [Background] is [background.rs]: requests and records of background processes
      and the supervisor that starts one, with a state of its own.
    - [Tool] has the constructors, defaults and destructors of [tool.rs], and
      [Invocation] is [tool/invocation.rs]: the witnesses of sessions and turns and
      the one-shot claim of an invocation, with its theorem.
    - [Terminal] is [terminal.rs]: the contracts of terminals, from identifiers to
      screens; [TerminalAction] is [terminal_action.rs]: requests, results and the
      check of a reply, with its theorems.
    - [Subagent] is [subagent.rs], [subagent/command.rs] and [subagent/result.rs]: the
      commands of managed agents, their results and the tool.
    - [Patterns] is [permission_patterns.rs]: configured rules, prepared targets, the
      wildcard matcher and the evaluation of a rule list.
    - [Rules] is [permission_rules.rs]: saved exact-action rules, their changes and
      their JSON form.
    - [Lifecycle] is [conversation_lifecycle.rs] and [conversation_routes.rs]: the
      admission gate of a conversation, with its theorems.
    - [Controller] is [permission_controller.rs] and [permission_controller/rules.rs]:
      the owners of sessions, their turns, grants and proofs, authorizations, and the
      publication of saved rules.
    - [Engine] is [engine.rs]: the builder, the registry of canonical sessions, the
      host lease, and creating, reserving and loading sessions. Programs of a session
      run in the world of their engine through [lift].
    - [Fallible] is the monad of synchronous methods that change a state, fail and may
      panic, with its weakest preconditions.
    - [Schema] has the limits of [mcp/schema.rs]; [UnicodeLetter] is
      [mcp/schema/pattern/unicode_letter.rs]; [SchemaPattern] is
      [mcp/schema/pattern.rs] with [pattern/parse.rs] and [pattern/compile.rs]: the
      parser, the compiler and the search.
    - [Scheduler] is [managed/scheduler/state.rs] with the limits and errors of
      [managed/scheduler.rs]: residents, runs, the queue, waits of runs for each other.
      [SchedulerFutures] has the owners of [managed/scheduler.rs] and the futures of
      [managed/scheduler/waiting.rs].
    - [Sample] has the concrete engine and session of the examples.
    - [Lease], [MetadataProofs], [ReserveProofs] and [CommitProofs] prove the
      operations; [Calm], [TurnRules], [StreamProofs], [WorkflowProofs],
      [TurnProofs] and [TurnTheorems] prove the workflow; [TurnStreamProofs] proves
      the stream against the class [TurnWorkflow], which states what it needs of a
      workflow, and [StreamTheorems] gives the instance of [run_turn]; [TurnTask]
      composes the reservation, the polls and the drop of a turn;
      [TurnMetadataProofs] proves the editors; [SessionPool] puts operations, whole
      turns and editors together on one session; [EngineProofs] has the invariant of
      the registry and its rules, [EnginePool] the tasks that open and use sessions,
      [EngineTheorems] the theorems of an engine; [BackgroundProofs] proves the
      supervisor; [TerminalProofs] proves the screens; [SubagentProofs] proves the
      validation of commands, [SubagentTheorems] their limits and execution, and
      [SubagentSample] is a concrete codec; [PatternProofs] and [RulesProofs] prove the rules;
      [ControllerProofs] proves authorizations, [ControllerPool] what holds of any
      number of controller operations together, [ControllerRules] the publication of
      a rule, and [ControllerSample] is a concrete controller. [RegexLang] defines the
      language of a pattern and [RegexGrammar] which texts are patterns; [RegexLex] and
      [RegexParse] prove the parser, [RegexClosure] and [RegexCompile] the program,
      [RegexSearch] the search, and [RegexTheorems] puts them together.
      [SchedulerRules] states the protocol of the scheduler as a step relation with its
      invariant, [SchedulerOrder] the order of its grants; [SchedulerProofs] proves the
      operations, [SchedulerFutureProofs] the futures, and [SchedulerTheorems] has the
      theorems with their examples.

    ** Representation

    A Rust [String] is a [string] of bytes, a [usize] or [u64] an [N] with the
    checked operations of the source, a [NonZeroUsize] a [positive], a [Vec] a
    list, a [BTreeMap] a list sorted by key, a [HashSet] of ids a [gset]. An
    [Arc<dyn Tool>], a store and a stream are numbers: only their identity matters
    to the engine. A fallible function returns [result], and [None] is a panic
    where an arithmetic operation or an index of the source can panic.

    An [async] function is a term of [prog] ([Prog]): it returns, panics, acts
    atomically on the shared state, asks host code, yields, or waits until a test of
    the state holds. [Act] is a critical section of the source: the code under one
    lock. Between two steps the environment may change the state as the [rely] of a
    task allows; where the source waits, the future may be dropped, and the guards of
    the source ([Drop] implementations) run. Host code (the model provider, the
    store, the permission handler, the tools) answers anything of its type, after
    any finite number of polls. A future that never completes is not among the answers:
    the steps its task takes are those of a task that is dropped while it awaits a
    longer future, so the theorems on histories cover it, and a theorem on how a task
    ends supposes that the futures it awaits complete. [stream_cancels] does not: it
    ends a cancelled turn at a poll, however long its futures take. [exec] is the relation of all executions with their
    histories, [run] executes a program under a concrete schedule, and [pool_step]
    interleaves several programs.

    The permission controller has a store of its own: owners, attempts, tokens and
    prompts are cells named by numbers, a step is one critical section of an owner,
    and its theorems on authorizations and publications assume nothing of the other
    tasks. The operations of a core session are calls of the controller that may
    answer anything; [TurnMetadataProofs] and [MetadataProofs] say what they do.

    An engine has the cells of its session states, each a session of
    [SessionState]; a strong reference is written with the task that holds it, and a
    [Weak] upgrades while the list of holders is not empty.

    A schema pattern and the text it searches are lists of characters (Unicode scalar
    values), and a position counts bytes, as in the source. The state of the scheduler
    is behind one mutex, so each operation is one function of it; the wakers to wake,
    the turns to cancel and the slots to drop after the lock is released are collected
    as [Effects]. Each read of a cancellation, of a weak reference or of an observed
    future is answered by an oracle under the number of the read, and wherever a future
    does not hold the lock, any calls of other tasks may happen.

    SHA-256 and [serde_json] are parameters. Its writer is the class [JsonWriter],
    which promises that it writes the same bytes for the same value; managed
    commands also need that it writes compact text, that a value has the shape of
    what it was made from, and that a command is read back from its value
    ([SubagentTheorems]). The hash promises 32 bytes.

    ** Theorems

    - Turns ([TurnTheorems]): what must precede the execution of a tool, what the
      permission handler is asked and shows, that a save replaces only the transcript
      of the record that was found current, extends it and keeps it closed if it was,
      that calls run once and within the limits, and that a turn ends clean.
    - Streams ([StreamTheorems]): the events of a turn are numbered in order and end
      with its terminal event, a poll always returns and tells the truth about the
      turn, the next poll of a cancelled turn ends it, dropping it ends it, and the
      stream of a polled turn ends if the futures it awaits complete.
    - Whole turns ([TurnTask]): a turn that is started, polled any number of times
      and dropped leaves its session as it should.
    - Editors ([TurnMetadataProofs]): what an exchange may save, one entry of the
      record that was found current, and what its answer means while the turn runs on, that a failed or abandoned save re-arms the debt
      of the session, and that candidates are checked exactly.
    - Background processes ([BackgroundProofs]): the order of a start, that nothing
      it is given is lost, what its result means, and which requests and working
      directories are accepted.
    - Permissions ([ControllerProofs], [ControllerPool], [ControllerRules]): why and
      when an execution is bound, which denials each mode honours, that revoked authority stays revoked, and that a
      rule is published whole or leaves its session blocked; on the rules
      themselves ([PatternProofs], [RulesProofs]): the matcher decides its language,
      the last matching rule wins, changes are optimistic and generations identify
      rules; and the gate of a conversation counts, fences and wakes ([Lifecycle]).
    - Operations ([MetadataProofs], [ReserveProofs], [CommitProofs]): what each
      operation may save (an edit of the record that its snapshot and the check after it
      found canonical, [current_at]), and what its result means, under every
      interference; and
      that any number of operations, turns and editors on one session are safe
      together ([SessionPool]).
    - Engines ([EngineTheorems]): any number of tasks that open, use and drop
      sessions share one live state per identifier; loads register only checked
      records; a closed host stays closed; a builder accepts exactly what it should.
    - Tools: an invocation is claimed at most once ([Invocation]); a managed command
      is validated exactly, always fits its limits and executes as it was prepared,
      and its results are validated exactly ([SubagentProofs], [SubagentTheorems]);
      screens and replies of terminals are accepted exactly when consistent
      ([TerminalProofs], [TerminalAction]).
    - Schema patterns ([RegexTheorems]): the parser accepts the grammar and nothing else,
      a compiled pattern is well formed, its search decides the language of the pattern,
      and a budget that is enough is known.
    - Managed runs ([SchedulerTheorems]): every call follows the protocol and keeps its
      invariant; slots are never overbooked and never idle while a run is queued;
      grants are first come, first served; no wake-up is lost; a wait is refused as a
      cycle exactly when it would close one; the futures return whatever others do,
      stay registered with their waker while no other task names their ticket, and
      leave nothing behind when they fail or are dropped.
    - Cancellation ([Cancel]): every waiter that parked is woken.
    - Admission ([Json], [Limits], [Context]): the checks admit exactly the values
      within the limits, and the optimised routines compute what their recursive
      definitions do.
    - Text ([Ids], [JsonText], [Limits], [PermissionId]): identifiers, decoding and
      truncation.

    ** Bounds

    The conflict loops run 32 times, as in the source. The round loop of a turn has
    [S max_model_rounds] steps of fuel and the stream loop [S
    max_model_events_per_turn]; running out is a panic of the model, and
    [turn_ends_clean] proves that no turn panics. A poll of a stream goes around its
    loop at most three times, and [stream_poll_total] proves that this is enough. The iterative JSON routines run on
    fuel computed from the tree, proved sufficient. The wildcard matcher has one step of
    fuel more than its budget, which it spends on every step. The pattern parser has
    fuel from the length of its source, the search from the number of states and the
    text, and [pattern_compile_decides] and [pattern_search_returns] exclude running
    out. Granting slots takes one round more than runs are queued, and the search for a
    cycle follows as many waits as there are runs, as in the source;
    [begin_wait_exact] proves that no cycle is longer.

    ** Not modelled

    - Wakers of turns: a stream may be polled at any time, so that who wakes it is not part
      of its state.
    - Futures of host code that never complete, as described under Representation.
    - The retainer of background processes, which is host code.
    - The JSON schema of the managed-agent tool ([subagent/schema.rs]), a constant.
    - The byte charge of a retained schema pattern, a sum of allocation sizes, and the
      rest of [mcp/schema]: the evaluation of schemas over [serde_json] documents and
      arbitrary-precision numbers of another crate.
    - The rest of the native host ([src/crates/machine-god-native]) and the command
      line: they implement the traits of the engine with operating-system services.
    - The future that notifies the holder of an execution proof of its invalidation,
      which changes no state.
    - The serde visitors that decode tagged enums from raw JSON text, and [Debug]
      output. *)
From Stdlib Require Export Ascii.
From stdpp Require Export prelude strings list numbers sorting.

(** ** Results

    Rust's [Result<T, E>], with the [?] operator as a bind notation. *)
Inductive result (A E : Type) : Type :=
| Ok (a : A)
| Err (e : E).
Arguments Ok {A E} a.
Arguments Err {A E} e.

Definition rbind {A B E} (r : result A E) (k : A -> result B E) : result B E :=
  match r with Ok a => k a | Err e => Err e end.

Definition map_err {A E F} (f : E -> F) (r : result A E) : result A F :=
  match r with Ok a => Ok a | Err e => Err (f e) end.

Definition ok_or {A E} (e : E) (o : option A) : result A E :=
  match o with Some a => Ok a | None => Err e end.

Definition is_ok {A E} (r : result A E) : bool :=
  match r with Ok _ => true | Err _ => false end.

Declare Scope result_scope.
Delimit Scope result_scope with result.
Notation "'let?' x := e 'in' k" := (rbind e (fun x => k))
  (at level 10, x pattern, e at level 100, k at level 200) : result_scope.
Notation "'require' b 'else' e 'in' k" := (if b then k else Err e)
  (at level 10, b at level 100, e at level 100, k at level 200) : result_scope.
Notation "'fail_if' b 'with' e 'in' k" := (if b then Err e else k)
  (at level 10, b at level 100, e at level 100, k at level 200) : result_scope.
Open Scope result_scope.

#[export] Instance result_eq_dec {A E} `{EqDecision A, EqDecision E} : EqDecision (result A E).
Proof. solve_decision. Defined.

(** ** Machine integers

    [usize] and [u64] are both 64 bits wide on the supported targets; a value
    of either type is an [N], and every operation that can overflow is one of
    the checked, saturating or wrapping operations below. *)
Definition U64_MAX : N := 18446744073709551615.
Definition USIZE_MAX : N := U64_MAX.

Definition checked_add (a b : N) : option N :=
  if (a + b <=? U64_MAX)%N then Some (a + b)%N else None.
Definition checked_sub (a b : N) : option N :=
  if (b <=? a)%N then Some (a - b)%N else None.
Definition checked_mul (a b : N) : option N :=
  if (a * b <=? U64_MAX)%N then Some (a * b)%N else None.
Definition saturating_add (a b : N) : N := N.min (a + b) U64_MAX.
Definition saturating_sub (a b : N) : N := (a - b)%N.
Definition wrapping_add (a b : N) : N := ((a + b) mod (U64_MAX + 1))%N.

(** [NonZeroUsize] is a [positive]; [NonZeroUsize::get] is [Npos]. *)
Definition nz_get (p : positive) : N := Npos p.

(** ** Byte strings

    A Rust [String] is its UTF-8 bytes: [str::len] counts bytes. *)
Definition str_len (s : string) : N := N.of_nat (String.length s).
Definition vec_len {A} (l : list A) : N := N.of_nat (length l).

Fixpoint bytes_all (p : ascii -> bool) (s : string) : bool :=
  match s with
  | EmptyString => true
  | String c s => p c && bytes_all p s
  end.

Definition bytes_any (p : ascii -> bool) (s : string) : bool :=
  negb (bytes_all (fun c => negb (p c)) s).

Definition byte_in (lo hi : ascii) (c : ascii) : bool :=
  (N_of_ascii lo <=? N_of_ascii c)%N && (N_of_ascii c <=? N_of_ascii hi)%N.

(** [u8::is_ascii_alphanumeric] *)
Definition is_ascii_alphanumeric (c : ascii) : bool :=
  byte_in "a" "z" c || byte_in "A" "Z" c || byte_in "0" "9" c.

(** ** Hint database and tactics *)
Create HintDb machine.
Create Rewrite HintDb lengths.

(** Splits a successful chain of [let?], [require] and [fail_if] steps into its
    guards. *)
Ltac simpl_result :=
  repeat match goal with
  | H : Ok _ = Err _ |- _ => discriminate H
  | H : Err _ = Ok _ |- _ => discriminate H
  | H : Ok _ = Ok _ |- _ => injection H as H; try subst
  | H : Err _ = Err _ |- _ => injection H as H; try subst
  | H : rbind ?e _ = _ |- _ =>
      let E := fresh "E" in destruct e eqn:E; cbn [rbind] in H
  | H : map_err _ ?e = _ |- _ =>
      let E := fresh "E" in destruct e eqn:E; cbn [map_err] in H
  | H : ok_or _ ?e = _ |- _ =>
      let E := fresh "E" in destruct e eqn:E; cbn [ok_or] in H
  | H : (if ?b then _ else _) = Ok _ |- _ =>
      let E := fresh "E" in destruct b eqn:E
  end.

(** Turns boolean tests on [N] into propositions. *)
Ltac bool_to_prop :=
  repeat match goal with
  | H : (_ <=? _)%N = true |- _ => apply N.leb_le in H
  | H : (_ <=? _)%N = false |- _ => apply N.leb_gt in H
  | H : (_ <? _)%N = true |- _ => apply N.ltb_lt in H
  | H : (_ <? _)%N = false |- _ => apply N.ltb_ge in H
  | H : (_ =? _)%N = true |- _ => apply N.eqb_eq in H
  | H : (_ =? _)%N = false |- _ => apply N.eqb_neq in H
  | H : _ && _ = true |- _ => apply andb_true_iff in H as [? ?]
  | H : _ || _ = false |- _ => apply orb_false_iff in H as [? ?]
  | H : negb _ = true |- _ => apply negb_true_iff in H
  | H : negb _ = false |- _ => apply negb_false_iff in H
  | H : bool_decide _ = true |- _ => apply bool_decide_eq_true in H
  | H : bool_decide _ = false |- _ => apply bool_decide_eq_false in H
  end.

Lemma checked_add_Some (a b c : N) :
  checked_add a b = Some c <-> c = (a + b)%N /\ (a + b <= U64_MAX)%N.
Proof.
  unfold checked_add. destruct (N.leb_spec (a + b) U64_MAX); split;
    intros; destruct_and?; simplify_eq; auto; lia.
Qed.

Lemma map_err_ok {A E F} (f : E -> F) (r : result A E) a : map_err f r = Ok a -> r = Ok a.
Proof. by destruct r; intros [= ->]. Qed.

Lemma checked_sub_Some (a b c : N) :
  checked_sub a b = Some c <-> c = (a - b)%N /\ (b <= a)%N.
Proof.
  unfold checked_sub. destruct (N.leb_spec b a); split;
    intros; destruct_and?; simplify_eq; auto; lia.
Qed.

Lemma is_ok_true {A E} (r : result A E) : is_ok r = true <-> exists a, r = Ok a.
Proof. destruct r; split; naive_solver. Qed.

Lemma rbind_assoc {A B C E} (r : result A E) (f : A -> result B E) (g : B -> result C E) :
  rbind (rbind r f) g = rbind r (fun a => rbind (f a) g).
Proof. by destruct r. Qed.

Lemma rbind_Ok {A B E} (r : result A E) (f : A -> result B E) (b : B) :
  rbind r f = Ok b <-> exists a, r = Ok a /\ f a = Ok b.
Proof. destruct r; split; naive_solver. Qed.

(** ** Strings *)
Lemma string_length_app (s t : string) :
  String.length (s +:+ t) = (String.length s + String.length t)%nat.
Proof. induction s; simpl; [done | by rewrite IHs]. Qed.

Lemma str_len_app (s t : string) : str_len (s +:+ t) = (str_len s + str_len t)%N.
Proof. unfold str_len. rewrite string_length_app. lia. Qed.

Lemma vec_len_app {A} (l k : list A) : vec_len (l ++ k) = (vec_len l + vec_len k)%N.
Proof. unfold vec_len. rewrite length_app. lia. Qed.

Lemma bytes_all_app (p : ascii -> bool) (s t : string) :
  bytes_all p (s +:+ t) = bytes_all p s && bytes_all p t.
Proof. induction s; simpl; [done | by rewrite IHs, andb_assoc]. Qed.

Lemma string_app_inj_length (s s' t t' : string) :
  String.length s = String.length s' -> s +:+ t = s' +:+ t' -> s = s' /\ t = t'.
Proof.
  revert s'. induction s as [|c s IH]; intros [|c' s'] Hl He; simpl in *; try done.
  injection He as -> He. injection Hl as Hl. by destruct (IH s' Hl He) as [-> ->].
Qed.

#[export] Hint Rewrite @vec_len_app str_len_app : lengths.

(** ** Ordered maps

    [BTreeMap<K, V>] as the association list of its entries in ascending key
    order, which is the order every iterator over it yields. *)
Section BTreeMap.
Context {V : Type}.

(** Byte-wise lexicographic order, the [Ord] of [String]. *)
Fixpoint str_cmp (s t : string) : comparison :=
  match s, t with
  | EmptyString, EmptyString => Eq
  | EmptyString, String _ _ => Lt
  | String _ _, EmptyString => Gt
  | String c s, String d t =>
      match (N_of_ascii c ?= N_of_ascii d)%N with
      | Eq => str_cmp s t
      | o => o
      end
  end.

Fixpoint bt_get (m : list (string * V)) (k : string) : option V :=
  match m with
  | [] => None
  | (k', v) :: m => if bool_decide (k' = k) then Some v else bt_get m k
  end.

Fixpoint bt_insert (m : list (string * V)) (k : string) (v : V) : list (string * V) :=
  match m with
  | [] => [(k, v)]
  | (k', v') :: m' =>
      match str_cmp k k' with
      | Lt => (k, v) :: m
      | Eq => (k, v) :: m'
      | Gt => (k', v') :: bt_insert m' k v
      end
  end.

Fixpoint bt_remove (m : list (string * V)) (k : string) : list (string * V) :=
  match m with
  | [] => []
  | (k', v') :: m' => if bool_decide (k' = k) then m' else (k', v') :: bt_remove m' k
  end.

Definition bt_values (m : list (string * V)) : list V := m.*2.
Definition bt_contains (m : list (string * V)) (k : string) : bool :=
  match bt_get m k with Some _ => true | None => false end.

Definition str_lt (s t : string) : Prop := str_cmp s t = Lt.

(** Entries in strictly ascending key order. *)
Definition bt_wf (m : list (string * V)) : Prop := StronglySorted str_lt (m.*1).
End BTreeMap.

Lemma str_cmp_eq (s t : string) : str_cmp s t = Eq <-> s = t.
Proof.
  revert t. induction s as [|c s IH]; intros [|d t]; simpl; try (split; congruence).
  destruct (N.compare_spec (N_of_ascii c) (N_of_ascii d)) as [E|E|E].
  - rewrite IH. assert (c = d) as ->.
    { rewrite <-(ascii_N_embedding c), <-(ascii_N_embedding d). by rewrite E. }
    split; congruence.
  - split; [done|]. intros [= -> ->]. lia.
  - split; [done|]. intros [= -> ->]. lia.
Qed.

Lemma str_cmp_antisym (s t : string) : str_cmp t s = CompOpp (str_cmp s t).
Proof.
  revert t. induction s as [|c s IH]; intros [|d t]; simpl; try done.
  rewrite (N.compare_antisym (N_of_ascii c)).
  destruct (N_of_ascii c ?= N_of_ascii d)%N; simpl; auto.
Qed.

Lemma str_lt_trans (s t u : string) : str_lt s t -> str_lt t u -> str_lt s u.
Proof.
  unfold str_lt. revert t u.
  induction s as [|c s IH]; intros [|d t] [|e u]; simpl; try done.
  destruct (N.compare_spec (N_of_ascii c) (N_of_ascii d)) as [E|E|E]; try done;
  destruct (N.compare_spec (N_of_ascii d) (N_of_ascii e)) as [E'|E'|E']; try done;
  destruct (N.compare_spec (N_of_ascii c) (N_of_ascii e)) as [E''|E''|E'']; try done; try lia.
  apply IH.
Qed.

Lemma str_lt_irrefl (s : string) : ~ str_lt s s.
Proof. unfold str_lt. pose proof (proj2 (str_cmp_eq s s) eq_refl). congruence. Qed.

Section BTreeMapFacts.
Context {V : Type}.
Implicit Types (m : list (string * V)) (k : string) (v : V).

Lemma bt_wf_cons k v m :
  bt_wf ((k, v) :: m) <-> bt_wf m /\ Forall (str_lt k) (m.*1).
Proof. unfold bt_wf. simpl. split; [by inversion 1|intros []; by constructor]. Qed.

Lemma bt_get_fresh m k : Forall (str_lt k) (m.*1) -> bt_get m k = None.
Proof.
  induction m as [|[k' v'] m IH]; simpl; [done|].
  inversion 1; subst. case_bool_decide; subst; [by exfalso; eapply str_lt_irrefl|auto].
Qed.

Lemma bt_get_insert m k v k' :
  bt_get (bt_insert m k v) k' = if bool_decide (k = k') then Some v else bt_get m k'.
Proof.
  induction m as [|[k0 v0] m IH]; simpl; [done|].
  destruct (str_cmp k k0) eqn:E; simpl.
  - apply str_cmp_eq in E as ->. by repeat case_bool_decide.
  - done.
  - rewrite IH. repeat case_bool_decide; subst; try done.
    pose proof (proj2 (str_cmp_eq k' k') eq_refl). congruence.
Qed.

Lemma bt_get_remove m k k' :
  bt_wf m ->
  bt_get (bt_remove m k) k' = if bool_decide (k = k') then None else bt_get m k'.
Proof.
  induction m as [|[k0 v0] m IH]; intros Hwf; simpl.
  { by case_bool_decide. }
  apply bt_wf_cons in Hwf as [Hwf Hall].
  destruct (bool_decide_reflect (k0 = k)) as [->|E0]; simpl.
  - repeat case_bool_decide; subst; try done; by apply bt_get_fresh.
  - rewrite IH by done. repeat case_bool_decide; by subst.
Qed.

Lemma bt_get_key m k v : bt_get m k = Some v -> k ∈ m.*1.
Proof.
  induction m as [|[k' v'] m IH]; simpl; [done|]. case_bool_decide; [subst; by left|]. intros. right. auto.
Qed.

(** Maps with the same entries are equal. *)
Lemma bt_ext m m' : bt_wf m -> bt_wf m' -> (forall k, bt_get m k = bt_get m' k) -> m = m'.
Proof.
  revert m'. induction m as [|[k v] m IH]; intros [|[k' v'] m'] Hw Hw' Hg; [done|..].
  - specialize (Hg k'). simpl in Hg. by rewrite bool_decide_true in Hg.
  - specialize (Hg k). simpl in Hg. by rewrite bool_decide_true in Hg.
  - apply bt_wf_cons in Hw as [Hw Hf]. apply bt_wf_cons in Hw' as [Hw' Hf'].
    pose proof (Hg k) as Hk. pose proof (Hg k') as Hk'. simpl in Hk, Hk'.
    rewrite (bool_decide_true (k = k)) in Hk by done. rewrite (bool_decide_true (k' = k')) in Hk' by done.
    destruct (decide (k = k')) as [<-|Hne].
    + rewrite bool_decide_true in Hk by done. injection Hk as <-. f_equal. apply IH; [done|done|]. intros x.
      specialize (Hg x). simpl in Hg. case_bool_decide; [|done]. subst. by rewrite !bt_get_fresh.
    + rewrite bool_decide_false in Hk, Hk' by done. symmetry in Hk. apply bt_get_key in Hk, Hk'.
      pose proof (proj1 (Forall_forall _ _) Hf _ Hk') as L1. pose proof (proj1 (Forall_forall _ _) Hf' _ Hk) as L2.
      by destruct (str_lt_irrefl k (str_lt_trans _ _ _ L1 L2)).
Qed.

Lemma bt_insert_fst m k v k' : k' ∈ (bt_insert m k v).*1 -> k' = k \/ k' ∈ m.*1.
Proof.
  induction m as [|[k0 v0] m IH]; simpl; [set_solver|].
  destruct (str_cmp k k0) eqn:E; simpl; set_solver.
Qed.

Lemma bt_insert_wf m k v : bt_wf m -> bt_wf (bt_insert m k v).
Proof.
  induction m as [|[k0 v0] m IH]; intros Hwf; simpl.
  { apply bt_wf_cons. split; [done|constructor]. }
  apply bt_wf_cons in Hwf as [Hwf Hall].
  destruct (str_cmp k k0) eqn:E; apply bt_wf_cons; split; auto.
  - apply str_cmp_eq in E as ->. done.
  - by apply bt_wf_cons.
  - constructor; [done|]. eapply Forall_impl; [exact Hall|].
    intros x. by apply str_lt_trans.
  - apply Forall_forall. intros x [->|Hx]%bt_insert_fst.
    + unfold str_lt. by rewrite str_cmp_antisym, E.
    + by eapply (proj1 (Forall_forall _ _) Hall).
Qed.

Lemma bt_remove_wf m k : bt_wf m -> bt_wf (bt_remove m k).
Proof.
  induction m as [|[k0 v0] m IH]; intros Hwf; simpl; [done|].
  apply bt_wf_cons in Hwf as [Hwf Hall].
  case_bool_decide; [done|]. apply bt_wf_cons; split; [auto|].
  apply Forall_forall. intros x Hx. eapply (proj1 (Forall_forall _ _) Hall).
  clear -Hx. induction m as [|[k1 v1] m IH]; simpl in *; [done|].
  case_bool_decide; set_solver.
Qed.
End BTreeMapFacts.

#[export] Hint Resolve bt_insert_wf bt_remove_wf : machine.

(** ** Stores *)
(** One cell of a store of numbered cells. *)
Definition upd {X} (i : nat) (x : X) (m : nat -> X) : nat -> X := fun j => if decide (j = i) then x else m j.

Lemma upd_same {X} i (x : X) m : upd i x m i = x.
Proof. unfold upd. by rewrite decide_True. Qed.

Lemma upd_other {X} i j (x : X) m : j <> i -> upd i x m j = m j.
Proof. intros. unfold upd. by rewrite decide_False. Qed.

(** ** Splitting text *)
Definition is_byte (n : N) (c : ascii) : bool := (N_of_ascii c =? n)%N.
Definition is_nul : ascii -> bool := is_byte 0.
Definition is_slash : ascii -> bool := is_byte 47.

(** [str::split] at a byte. *)
Fixpoint str_split (p : ascii -> bool) (s : string) : list string :=
  match s with
  | EmptyString => [""]
  | String c s =>
      if p c then "" :: str_split p s
      else match str_split p s with
           | part :: parts => String c part :: parts
           | [] => [String c ""]
           end
  end.

Lemma append_empty (s : string) : s +:+ "" = s.
Proof. induction s as [|a s IH]; [done|]. exact (f_equal (String a) IH). Qed.

Lemma str_split_app p a c s : bytes_all (fun b => negb (p b)) a = true -> p c = true ->
  str_split p (a +:+ String c s) = a :: str_split p s.
Proof.
  intros Ha Hc. induction a as [|b a IH]; simpl in *; [by rewrite Hc|].
  destruct (p b); [done|]. by rewrite IH.
Qed.
Lemma str_split_whole p a : bytes_all (fun b => negb (p b)) a = true -> str_split p a = [a].
Proof. induction a as [|b a IH]; simpl; [done|]. destruct (p b); [done|]. intros H. by rewrite IH. Qed.
Lemma str_split_first p s a rest : str_split p s = a :: rest ->
  bytes_all (fun b => negb (p b)) a = true /\
  match rest with
  | [] => s = a
  | _ => exists c s', p c = true /\ s = a +:+ String c s' /\ str_split p s' = rest
  end.
Proof.
  revert a rest. induction s as [|b s IH]; intros a rest; simpl; [by intros [= <- <-]|].
  destruct (p b) eqn:Hb.
  - intros [= <- <-]. split; [done|]. destruct (str_split p s) as [|x l] eqn:E; [|by exists b, s].
    destruct s as [|c s]; simpl in E; [done|]. destruct (p c); [done|]. by destruct (str_split p s).
  - destruct (str_split p s) as [|x l] eqn:E.
    + exfalso. destruct s as [|c s]; simpl in E; [done|]. destruct (p c); [done|]. by destruct (str_split p s).
    + intros [= <- <-]. destruct (IH x l eq_refl) as [Hx Hl]. split; [simpl; by rewrite Hb|].
      destruct l as [|y l]; [by subst|]. destruct Hl as (c & s' & Hc & -> & Hs). by exists c, s'.
Qed.
