(* ===== verification/Ids.v ===== *)
(** * Identifiers ([id.rs]) and model identifiers ([model_catalog.rs])

    The [identifier!] macro declares six newtypes over [String] whose only
    constructors validate. An identifier is modelled by its text; the
    constructors below are the only way the program obtains one, so
    [valid_id] is the type invariant of every identifier. *)
From S2P Require Import Prelude.
From stdpp Require Import pretty.

(** ** Definitions *)
Definition MAX_ID_BYTES : N := 128.

Record InvalidId := { iid_kind : string; iid_reason : string }.

#[export] Instance InvalidId_eq_dec : EqDecision InvalidId.
Proof. solve_decision. Defined.

(** The portable identifier alphabet. *)
Definition id_byte (c : ascii) : bool :=
  is_ascii_alphanumeric c
  || bool_decide (c = "-"%char) || bool_decide (c = "_"%char)
  || bool_decide (c = "."%char) || bool_decide (c = ":"%char).

Definition validate_identifier (value kind : string) : result unit InvalidId :=
  fail_if bool_decide (value = "")
    with {| iid_kind := kind; iid_reason := "must not be empty" |} in
  fail_if (MAX_ID_BYTES <? str_len value)%N
    with {| iid_kind := kind; iid_reason := "must be at most 128 bytes" |} in
  fail_if negb (bytes_all id_byte value)
    with {| iid_kind := kind;
            iid_reason := "must contain only ASCII letters, digits, '-', '_', '.', or ':'" |} in
  Ok tt.

(** [$name::new]: validates, then owns the text unchanged. *)
Definition identifier_new (kind value : string) : result string InvalidId :=
  let? _ := validate_identifier value kind in
  Ok value.

Definition SessionId_kind := "session ID".
Definition SessionIncarnationId_kind := "session incarnation ID".
Definition TurnId_kind := "turn ID".
Definition ToolCallId_kind := "tool-call ID".
Definition PermissionRequestId_kind := "permission-request ID".
Definition ToolName_kind := "tool name".

(** [fmt::Display for InvalidId] *)
Definition invalid_id_display (e : InvalidId) : string :=
  "invalid " +:+ iid_kind e +:+ ": " +:+ iid_reason e.

(** The text [format!("turn-{sequence}")] of a reserved turn, before it is
    parsed as a [TurnId]. *)
Definition turn_id_text (sequence : N) : string := "turn-" +:+ pretty sequence.

(** The type invariant of every identifier newtype. *)
Definition valid_id (s : string) : Prop :=
  s <> "" /\ (str_len s <= MAX_ID_BYTES)%N /\ bytes_all id_byte s = true.

Definition MAX_MODEL_ID_BYTES : N := 1024.

Inductive InvalidModelIdReason :=
| Empty | TooLong | NotVisibleAscii | ControlCharacter | EdgeWhitespace.

#[export] Instance InvalidModelIdReason_eq_dec : EqDecision InvalidModelIdReason.
Proof. solve_decision. Defined.

(** [[' ', '\t', '\r', '\n']] *)
Definition edge_byte (c : ascii) : bool :=
  existsb (fun n => (N_of_ascii c =? n)%N) [32; 9; 13; 10]%N.

(** [u8::is_ascii_control] *)
Definition is_ascii_control (c : ascii) : bool :=
  (N_of_ascii c <=? 31)%N || (N_of_ascii c =? 127)%N.

Definition starts_with_byte (p : ascii -> bool) (s : string) : bool :=
  match s with EmptyString => false | String c _ => p c end.

Fixpoint ends_with_byte (p : ascii -> bool) (s : string) : bool :=
  match s with
  | EmptyString => false
  | String c EmptyString => p c
  | String _ s => ends_with_byte p s
  end.

Definition validate_model_id (id : string) : result unit InvalidModelIdReason :=
  let reason :=
    if bool_decide (id = "") then Some Empty
    else if (MAX_MODEL_ID_BYTES <? str_len id)%N then Some TooLong
    else if starts_with_byte edge_byte id || ends_with_byte edge_byte id
      then Some EdgeWhitespace
    else if bytes_any is_ascii_control id then Some ControlCharacter
    else None in
  match reason with
  | Some reason => Err reason
  | None => Ok tt
  end.

Definition AvailableModel_new (id : string) : result string InvalidModelIdReason :=
  let? _ := validate_model_id id in
  Ok id.

(** ** Theorems *)
Lemma validate_identifier_ok (value kind : string) :
  validate_identifier value kind = Ok tt <-> valid_id value.
Proof.
  unfold validate_identifier, valid_id. split.
  - intros H. simpl_result; bool_to_prop; try done.
  - intros (H1 & H2 & H3). rewrite bool_decide_false by done.
    replace (MAX_ID_BYTES <? str_len value)%N with false by (symmetry; by apply N.ltb_ge).
    by rewrite H3.
Qed.

Lemma identifier_new_ok (kind value id : string) :
  identifier_new kind value = Ok id <-> id = value /\ valid_id value.
Proof.
  unfold identifier_new. rewrite <-(validate_identifier_ok value kind).
  destruct (validate_identifier value kind) as [[]|e]; simpl; naive_solver.
Qed.

Lemma digit_id_byte (n : N) : id_byte (pretty_N_char n) = true.
Proof. unfold pretty_N_char. by repeat case_match. Qed.

Lemma pretty_go_bytes (n : N) (s : string) :
  bytes_all id_byte s = true -> bytes_all id_byte (pretty_N_go n s) = true.
Proof.
  revert s. induction (N.lt_wf_0 n) as [n _ IH]; intros s Hs.
  assert (n = 0 \/ 0 < n)%N as [->|Hn] by lia; [by rewrite pretty_N_go_0|].
  rewrite pretty_N_go_step by done. apply IH; [by apply N.div_lt|].
  simpl. by rewrite digit_id_byte.
Qed.

Lemma pretty_go_length (d : nat) (n : N) (s : string) :
  (n < 10 ^ N.of_nat d)%N ->
  (String.length (pretty_N_go n s) <= d + String.length s)%nat.
Proof.
  revert n s. induction d as [|d IH]; intros n s Hn.
  { assert (n = 0)%N as -> by (simpl in Hn; lia). by rewrite pretty_N_go_0. }
  assert (n = 0 \/ 0 < n)%N as [->|Hp] by lia; [rewrite pretty_N_go_0; lia|].
  rewrite pretty_N_go_step by done.
  etrans; [apply IH|simpl; lia].
  apply N.Div0.div_lt_upper_bound.
  by rewrite Nat2N.inj_succ, N.pow_succ_r' in Hn.
Qed.

Lemma turn_id_text_valid (sequence : N) :
  (sequence <= U64_MAX)%N -> valid_id (turn_id_text sequence).
Proof.
  intros Hs. unfold valid_id, turn_id_text. split; [done|]. split.
  - rewrite str_len_app. enough (str_len (pretty sequence) <= 20)%N.
    { change (str_len "turn-") with 5%N. unfold MAX_ID_BYTES. lia. }
    unfold pretty, pretty_N, str_len. case_decide; [simpl; lia|].
    assert (String.length (pretty_N_go sequence "") <= 20 + 0)%nat; [|lia].
    apply (pretty_go_length 20). unfold U64_MAX in Hs. simpl. lia.
  - rewrite bytes_all_app. simpl. unfold pretty, pretty_N.
    case_decide; [done|]. by apply pretty_go_bytes.
Qed.

Lemma turn_id_text_inj (m n : N) : turn_id_text m = turn_id_text n -> m = n.
Proof. intros H. unfold turn_id_text in H. simpl in H. simplify_eq. done. Qed.

(** Reserving a turn never fails on its textual identifier: for every [u64]
    sequence number the text parses as a [TurnId], and distinct sequence
    numbers give distinct identifiers. *)
Theorem turn_id_text_roundtrip (m n : N) :
  (m <= U64_MAX)%N -> (n <= U64_MAX)%N ->
  identifier_new TurnId_kind (turn_id_text m) = Ok (turn_id_text m) /\
  (identifier_new TurnId_kind (turn_id_text m) = identifier_new TurnId_kind (turn_id_text n) <-> m = n).
Proof.
  intros Hm Hn.
  assert (forall k, (k <= U64_MAX)%N -> identifier_new TurnId_kind (turn_id_text k) = Ok (turn_id_text k)) as Hok.
  { intros k Hk. apply identifier_new_ok. by split; [|apply turn_id_text_valid]. }
  rewrite !Hok by done. split; [done|]. split; [|naive_solver].
  intros [=]. by simplify_eq.
Qed.

Lemma turn_id_text_roundtrip_witness :
  identifier_new TurnId_kind (turn_id_text 7) = Ok "turn-7" /\
  (identifier_new TurnId_kind (turn_id_text 7) = identifier_new TurnId_kind (turn_id_text 8) <-> (7 = 8)%N).
Proof.
  exact (turn_id_text_roundtrip 7 8 ltac:(vm_compute; discriminate) ltac:(vm_compute; discriminate)).
Defined.

Lemma bytes_any_false (p : ascii -> bool) (s : string) :
  bytes_any p s = false <-> bytes_all (fun c => negb (p c)) s = true.
Proof. unfold bytes_any. by rewrite negb_false_iff. Qed.
