(* ===== verification/Json.v ===== *)
(** * JSON values and their bounds ([json_bounds.rs])

    [serde_json::Value] as a tree, the iterative validator that enforces the
    depth and node limits before any recursive code touches a value, the
    iterative destructor, and the byte counter behind every serialized-size
    limit. [serde_json]'s serializer itself is not part of the repository: it
    is the class [Serialize], the sequence of chunks it hands to the writer. *)
From S2P Require Import Prelude.
From stdpp Require Import pretty.

(** ** Data *)
(** With the [arbitrary_precision] feature a number is its source token. An
    object is its entries in iteration order. *)
Inductive Value :=
| VNull
| VBool (b : bool)
| VNumber (n : string)
| VString (s : string)
| VArray (values : list Value)
| VObject (entries : list (string * Value)).

(** The child iterator of a container ([JsonChildren]); [None] for a scalar. *)
Definition json_children (v : Value) : option (list Value) :=
  match v with
  | VArray values => Some values
  | VObject entries => Some (entries.*2)
  | VNull | VBool _ | VNumber _ | VString _ => None
  end.

Inductive JsonLimitViolation := Depth | Nodes.

#[export] Instance JsonLimitViolation_eq_dec : EqDecision JsonLimitViolation.
Proof. solve_decision. Defined.

(** A container whose children are being visited: its depth and the rest of
    its iterator. *)
Record JsonFrame := { container_depth : N; children : list Value }.

Record JsonValidationBudget := {
  jb_nodes : N;
  jb_max_nodes : N;
  jb_max_container_depth : N;
}.

Definition set_nodes (b : JsonValidationBudget) (n : N) : JsonValidationBudget :=
  {| jb_nodes := n; jb_max_nodes := jb_max_nodes b;
     jb_max_container_depth := jb_max_container_depth b |}.

(** ** The validator *)
(** The first half of the outer loop: account for [current] and open its frame. *)
Definition validate_visit (b : JsonValidationBudget) (frames : list JsonFrame)
    (value : Value) (parent_depth : N)
    : JsonValidationBudget * result (list JsonFrame) JsonLimitViolation :=
  match checked_add (jb_nodes b) 1 with
  | None => (b, Err Nodes)
  | Some n =>
      let b := set_nodes b n in
      if (jb_max_nodes b <? n)%N then (b, Err Nodes)
      else match json_children value with
      | None => (b, Ok frames)
      | Some cs =>
          match checked_add parent_depth 1 with
          | None => (b, Err Depth)
          | Some d =>
              if (jb_max_container_depth b <? d)%N then (b, Err Depth)
              else (b, Ok ({| container_depth := d; children := cs |} :: frames))
          end
      end
  end.

(** The inner loop: advance the innermost frame, popping exhausted ones. *)
Fixpoint next_child (frames : list JsonFrame) : option (Value * N * list JsonFrame) :=
  match frames with
  | [] => None
  | f :: rest =>
      match children f with
      | [] => next_child rest
      | c :: cs =>
          Some (c, container_depth f,
                {| container_depth := container_depth f; children := cs |} :: rest)
      end
  end.

(** The outer loop, with [fuel] iterations. *)
Fixpoint validate_loop (fuel : nat) (b : JsonValidationBudget) (frames : list JsonFrame)
    (value : Value) (parent_depth : N)
    : option (JsonValidationBudget * result unit JsonLimitViolation) :=
  match fuel with
  | O => None
  | S fuel =>
      match validate_visit b frames value parent_depth with
      | (b, Err e) => Some (b, Err e)
      | (b, Ok frames) =>
          match next_child frames with
          | None => Some (b, Ok tt)
          | Some (child, depth, frames) => validate_loop fuel b frames child depth
          end
      end
  end.

(** Number of nodes of a value, scalars and containers alike. *)
Fixpoint node_count (v : Value) : N :=
  match v with
  | VArray values => (1 + foldr (fun v n => node_count v + n) 0 values)%N
  | VObject entries => (1 + foldr (fun e n => node_count (snd e) + n) 0 entries)%N
  | _ => 1%N
  end.

(** Number of containers on the longest path from the root. *)
Fixpoint container_height (v : Value) : N :=
  match v with
  | VArray values => (1 + foldr (fun v n => N.max (container_height v) n) 0 values)%N
  | VObject entries => (1 + foldr (fun e n => N.max (container_height (snd e)) n) 0 entries)%N
  | _ => 0%N
  end.

(** [JsonValidationBudget::validate]; one iteration per node is enough. *)
Definition validate (b : JsonValidationBudget) (root : Value)
    : option (JsonValidationBudget * result unit JsonLimitViolation) :=
  validate_loop (N.to_nat (node_count root)) b [] root 0.

(** The validator as a total function; [validate_total] shows that the default
    is never taken. *)
Definition validate_value (b : JsonValidationBudget) (root : Value)
    : JsonValidationBudget * result unit JsonLimitViolation :=
  default (b, Err Nodes) (validate b root).

(** The [for root in roots] loop of [validate_json_roots] and of every caller
    that shares one budget between several values. *)
Fixpoint validate_roots (b : JsonValidationBudget) (roots : list Value)
    : JsonValidationBudget * result unit JsonLimitViolation :=
  match roots with
  | [] => (b, Ok tt)
  | root :: roots =>
      match validate_value b root with
      | (b, Err e) => (b, Err e)
      | (b, Ok _) => validate_roots b roots
      end
  end.

(** ** The destructor *)
(** [drop_json_value_iterative]: the log lists the nodes in the order their
    shells are dropped, and [high] is the deepest the frame stack has been. *)
Fixpoint drop_next (frames : list (list Value)) : option (Value * list (list Value)) :=
  match frames with
  | [] => None
  | [] :: rest => drop_next rest
  | (c :: cs) :: rest => Some (c, cs :: rest)
  end.

Fixpoint drop_loop (fuel : nat) (frames : list (list Value)) (value : Value)
    (dropped : list Value) (high : nat) : option (list Value * nat) :=
  match fuel with
  | O => None
  | S fuel =>
      let frames := match json_children value with
                    | Some cs => cs :: frames
                    | None => frames
                    end in
      let dropped := dropped ++ [value] in
      let high := Nat.max high (length frames) in
      match drop_next frames with
      | None => Some (dropped, high)
      | Some (child, frames) => drop_loop fuel frames child dropped high
      end
  end.

Definition drop_json_value_iterative (root : Value) : option (list Value * nat) :=
  drop_loop (N.to_nat (node_count root)) [] root [] 0.

(** Every node of a value, in document order. *)
Fixpoint json_nodes (v : Value) : list Value :=
  v :: match v with
       | VArray values => flat_map json_nodes values
       | VObject entries => flat_map (fun e => json_nodes (snd e)) entries
       | _ => []
       end.

(** Hard ceiling for JSON container depth in any constructed engine. *)
Definition MAX_SAFE_JSON_DEPTH : N := 64.

(** ** Serialized size *)
(** What [serde_json::to_writer] does with a value: the chunks it writes, in
    order, and the text of the error a [Serialize] implementation then reports. *)
Record Serialized := { chunks : list string; ser_error : option string }.

Class Serialize (T : Type) := serialize : T -> Serialized.

Record JsonByteCounter := { jc_bytes : N; jc_limit : N; jc_exceeded : bool }.

(** [Write::write]: [None] is the [io::Error]. *)
Definition counter_write (c : JsonByteCounter) (buffer : string)
    : JsonByteCounter * option N :=
  match checked_add (jc_bytes c) (str_len buffer) with
  | None => (c, None)
  | Some next =>
      if (jc_limit c <? next)%N then
        ({| jc_bytes := jc_bytes c; jc_limit := jc_limit c; jc_exceeded := true |}, None)
      else
        ({| jc_bytes := next; jc_limit := jc_limit c; jc_exceeded := jc_exceeded c |},
         Some (str_len buffer))
  end.

(** [Write::write_all] over one chunk: an empty buffer is not written, and one
    [write] accepts the whole of any other. *)
Definition counter_write_all (c : JsonByteCounter) (buffer : string)
    : JsonByteCounter * bool :=
  if bool_decide (buffer = "") then (c, true)
  else match counter_write c buffer with
  | (c, Some _) => (c, true)
  | (c, None) => (c, false)
  end.

Fixpoint counter_write_chunks (c : JsonByteCounter) (l : list string)
    : JsonByteCounter * bool :=
  match l with
  | [] => (c, true)
  | s :: l =>
      match counter_write_all c s with
      | (c, true) => counter_write_chunks c l
      | (c, false) => (c, false)
      end
  end.

(** [serde_json::Error], with the text it displays. *)
Inductive SerError := SerializationFailed (text : string).

Definition serialized_json_size_bounded {T} `{Serialize T} (value : T) (limit : N)
    : result (option N) SerError :=
  let s := serialize value in
  let '(counter, written) :=
    counter_write_chunks {| jc_bytes := 0; jc_limit := limit; jc_exceeded := false |} (chunks s) in
  if jc_exceeded counter then Ok None
  else if written then
    match ser_error s with
    | None => Ok (Some (jc_bytes counter))
    | Some text => Err (SerializationFailed text)
    end
  else Err (SerializationFailed "serialized JSON byte count overflowed").

(** Total number of bytes of a list of chunks. *)
Definition chunk_bytes (l : list string) : N := foldr (fun s n => str_len s + n)%N 0%N l.

(** ** Reference definition of the validator *)
(** Visits the elements of a container in order, sharing the budget and
    stopping at the first violation. *)
Definition check_seq {A} (f : A -> JsonValidationBudget -> JsonValidationBudget * result unit JsonLimitViolation)
    : list A -> JsonValidationBudget -> JsonValidationBudget * result unit JsonLimitViolation :=
  fix go (l : list A) b :=
    match l with
    | [] => (b, Ok tt)
    | x :: l => match f x b with
                | (b, Err e) => (b, Err e)
                | (b, Ok _) => go l b
                end
    end.

(** The limits stated by direct recursion on the tree, in document order. *)
Fixpoint check_value (v : Value) (d : N) (b : JsonValidationBudget)
    : JsonValidationBudget * result unit JsonLimitViolation :=
  let n := (jb_nodes b + 1)%N in
  if (U64_MAX <? n)%N then (b, Err Nodes)
  else
    let b := set_nodes b n in
    if (jb_max_nodes b <? n)%N then (b, Err Nodes)
    else
      let too_deep := ((jb_max_container_depth b <? d + 1) || (U64_MAX <? d + 1))%N in
      match v with
      | VArray values =>
          if too_deep then (b, Err Depth)
          else check_seq (fun v => check_value v (d + 1)%N) values b
      | VObject entries =>
          if too_deep then (b, Err Depth)
          else check_seq (fun e => check_value (snd e) (d + 1)%N) entries b
      | _ => (b, Ok tt)
      end.

Fixpoint check_frames (frames : list JsonFrame) (b : JsonValidationBudget)
    : JsonValidationBudget * result unit JsonLimitViolation :=
  match frames with
  | [] => (b, Ok tt)
  | f :: rest =>
      match check_seq (fun v => check_value v (container_depth f)) (children f) b with
      | (b, Err e) => (b, Err e)
      | (b, Ok _) => check_frames rest b
      end
  end.

(** ** Induction and arithmetic on values *)
Lemma Value_ind' (P : Value -> Prop) :
  P VNull -> (forall b, P (VBool b)) -> (forall n, P (VNumber n)) -> (forall s, P (VString s)) ->
  (forall l, Forall P l -> P (VArray l)) ->
  (forall l, Forall (fun e => P (snd e)) l -> P (VObject l)) ->
  forall v, P v.
Proof.
  intros Hn Hb Hnum Hs Ha Ho. fix IH 1. intros [|b|n|s|l|l]; [exact Hn|apply Hb|apply Hnum|apply Hs|..].
  - apply Ha. induction l as [|v l IHl]; constructor; auto.
  - apply Ho. induction l as [|[k v] l IHl]; constructor; simpl; auto.
Qed.

#[export] Instance Value_eq_dec : EqDecision Value.
Proof.
  refine (fix go (v w : Value) : Decision (v = w) :=
    match v, w with
    | VNull, VNull => left _
    | VBool a, VBool b => cast_if (decide (a = b))
    | VNumber a, VNumber b => cast_if (decide (a = b))
    | VString a, VString b => cast_if (decide (a = b))
    | VArray a, VArray b => cast_if (@list_eq_dec _ go a b)
    | VObject a, VObject b => cast_if (@list_eq_dec _ (@prod_eq_dec _ _ _ go) a b)
    | _, _ => right _
    end); try abstract congruence.
Defined.

(** Sum of a measure over the children of a container. *)
Definition sum_by {A} (f : A -> N) (l : list A) : N := foldr (fun x n => f x + n)%N 0%N l.

Lemma sum_by_map {A B} (f : B -> N) (g : A -> B) (l : list A) :
  sum_by f (g <$> l) = sum_by (fun x => f (g x)) l.
Proof. unfold sum_by. induction l; simpl; auto with f_equal. Qed.

Lemma sum_by_app {A} (f : A -> N) (l k : list A) : sum_by f (l ++ k) = (sum_by f l + sum_by f k)%N.
Proof. induction l; simpl; [done|rewrite IHl; lia]. Qed.

Lemma node_count_children (v : Value) :
  node_count v = (1 + match json_children v with
                      | Some cs => sum_by node_count cs
                      | None => 0
                      end)%N.
Proof. destruct v; simpl; try done. by rewrite sum_by_map. Qed.

Lemma node_count_pos (v : Value) : (1 <= node_count v)%N.
Proof. rewrite node_count_children. lia. Qed.

Lemma check_seq_map {A B} f (g : A -> B) (l : list A) b :
  check_seq f (g <$> l) b = check_seq (fun x => f (g x)) l b.
Proof. revert b. induction l as [|x l IH]; intros b; simpl; [done|]. by destruct (f (g x) b) as [? []]. Qed.

(** ** The machine implements the recursion *)
Definition frames_nodes (frames : list JsonFrame) : N :=
  sum_by (fun f => sum_by node_count (children f)) frames.

Lemma next_child_check (frames : list JsonFrame) (b : JsonValidationBudget) :
  check_frames frames b =
  match next_child frames with
  | None => (b, Ok tt)
  | Some (c, d, frames) =>
      match check_value c d b with
      | (b, Err e) => (b, Err e)
      | (b, Ok _) => check_frames frames b
      end
  end.
Proof.
  induction frames as [|[d [|c cs]] frames IH]; cbn [next_child children check_frames check_seq container_depth]; auto.
  by destruct (check_value c d b) as [? []].
Qed.

Lemma next_child_nodes (frames : list JsonFrame) (c : Value) (d : N) (frames' : list JsonFrame) :
  next_child frames = Some (c, d, frames') ->
  frames_nodes frames = (node_count c + frames_nodes frames')%N.
Proof.
  unfold frames_nodes. induction frames as [|[d0 [|c0 cs]] frames IH]; simpl; intros H; simplify_eq/=; auto.
  lia.
Qed.

Lemma check_value_visit (v : Value) (d : N) (b : JsonValidationBudget) (frames : list JsonFrame) :
  match validate_visit b frames v d with
  | (b', Err e) => check_value v d b = (b', Err e)
  | (b', Ok frames') =>
      exists opened, frames' = opened ++ frames /\
        node_count v = (1 + frames_nodes opened)%N /\
        check_value v d b = check_frames opened b' /\
        (forall b, check_frames frames' b =
           match check_frames opened b with
           | (b, Err e) => (b, Err e)
           | (b, Ok _) => check_frames frames b
           end)
  end.
Proof.
  unfold validate_visit, checked_add.
  destruct (N.leb_spec (jb_nodes b + 1) U64_MAX) as [Hle|Hgt]; cycle 1.
  { destruct v; simpl; by rewrite (proj2 (N.ltb_lt _ _)) by done. }
  assert ((U64_MAX <? jb_nodes b + 1)%N = false) as Hn by (by apply N.ltb_ge).
  rewrite node_count_children.
  destruct (jb_max_nodes (set_nodes b (jb_nodes b + 1)) <? jb_nodes b + 1)%N eqn:Hmax.
  { destruct v; simpl in *; by rewrite Hn, Hmax. }
  destruct (json_children v) as [cs|] eqn:Hc; cycle 1.
  { exists []. split; [done|]. split; [done|]. split; [|done].
    destruct v; simpl in *; simplify_eq; by rewrite Hn, Hmax. }
  assert (check_value v d b =
    if ((jb_max_container_depth (set_nodes b (jb_nodes b + 1)) <? d + 1) || (U64_MAX <? d + 1))%N
    then (set_nodes b (jb_nodes b + 1), Err Depth)
    else check_seq (fun v => check_value v (d + 1)%N) cs (set_nodes b (jb_nodes b + 1))) as Hcv.
  { destruct v; simpl in *; simplify_eq; rewrite Hn, Hmax; [done|].
    by rewrite check_seq_map. }
  rewrite Hcv.
  destruct (N.leb_spec (d + 1) U64_MAX) as [Hd|Hd]; cycle 1.
  { rewrite (proj2 (N.ltb_lt _ _) Hd), orb_true_r. done. }
  rewrite (proj2 (N.ltb_ge _ _) Hd), orb_false_r.
  destruct (jb_max_container_depth _ <? d + 1)%N; [done|].
  exists [{| container_depth := d + 1; children := cs |}]. unfold frames_nodes; simpl.
  split; [done|]. split; [lia|]. split.
  - by destruct (check_seq _ cs _) as [? [[]|]].
  - intros b'. by destruct (check_seq _ cs b') as [? []].
Qed.

Lemma validate_loop_check (fuel : nat) (b : JsonValidationBudget) (frames : list JsonFrame) (v : Value) (d : N) :
  (node_count v + frames_nodes frames <= N.of_nat fuel)%N ->
  validate_loop fuel b frames v d =
  Some match check_value v d b with
       | (b, Err e) => (b, Err e)
       | (b, Ok _) => check_frames frames b
       end.
Proof.
  revert b frames v d. induction fuel as [|fuel IH]; intros b frames v d Hf.
  { pose proof (node_count_pos v). lia. }
  pose proof (check_value_visit v d b frames) as Hv. cbn [validate_loop].
  destruct (validate_visit b frames v d) as [b' [frames'|e]].
  2: { by rewrite Hv. }
  destruct Hv as (opened & -> & Hnc & Hcv & Hall). rewrite Hcv.
  rewrite <-Hall, next_child_check.
  destruct (next_child (opened ++ frames)) as [[[c d'] fs]|] eqn:Hnext; [|done].
  apply next_child_nodes in Hnext.
  unfold frames_nodes in *. rewrite sum_by_app in Hnext. apply IH. unfold frames_nodes. lia.
Qed.

(** The iterative validator terminates on every value and computes exactly
    what the direct recursion computes: the same verdict, the same first
    violation and the same node counter. *)
Lemma validate_total (b : JsonValidationBudget) (root : Value) (fuel : nat) :
  (node_count root <= N.of_nat fuel)%N ->
  validate_loop fuel b [] root 0 = Some (check_value root 0 b).
Proof.
  intros Hf. rewrite validate_loop_check by (unfold frames_nodes; simpl; lia).
  by destruct (check_value root 0 b) as [? [[]|]].
Qed.

Lemma validate_value_check (b : JsonValidationBudget) (root : Value) :
  validate_value b root = check_value root 0 b.
Proof. unfold validate_value, validate. rewrite validate_total by lia. done. Qed.

(** ** Closed form of the limits *)
Definition max_by {A} (f : A -> N) (l : list A) : N := foldr (fun x n => N.max (f x) n) 0%N l.

(** What a run starting with budget [b] at container depth [d] says about a
    value with [n] nodes and container height [h]. *)
Definition verdict (b : JsonValidationBudget) (d n h : N)
    (r : JsonValidationBudget * result unit JsonLimitViolation) : Prop :=
  match r with
  | (b', Ok _) =>
      b' = set_nodes b (jb_nodes b + n) /\ (jb_nodes b + n <= jb_max_nodes b)%N /\
      (h = 0 \/ d + h <= jb_max_container_depth b)%N
  | (_, Err Nodes) => (jb_max_nodes b < jb_nodes b + n)%N
  | (_, Err Depth) => (0 < h /\ jb_max_container_depth b < d + h)%N
  end.

(** The limits of a [JsonValidationBudget] are [usize] values. *)
Definition budget_wf (b : JsonValidationBudget) : Prop :=
  (jb_nodes b <= jb_max_nodes b)%N /\ (jb_max_nodes b <= USIZE_MAX)%N /\
  (jb_max_container_depth b <= USIZE_MAX)%N.

Lemma set_nodes_set (b : JsonValidationBudget) (m n : N) : set_nodes (set_nodes b m) n = set_nodes b n.
Proof. done. Qed.

Lemma set_nodes_id (b : JsonValidationBudget) : set_nodes b (jb_nodes b) = b.
Proof. by destruct b. Qed.

Lemma check_seq_verdict {A} (f : A -> JsonValidationBudget -> _) (cnt ht : A -> N) (d : N) (l : list A) :
  Forall (fun x => forall b, budget_wf b -> verdict b d (cnt x) (ht x) (f x b)) l ->
  forall b, budget_wf b -> verdict b d (sum_by cnt l) (max_by ht l) (check_seq f l b).
Proof.
  induction 1 as [|x l Hx Hl IH]; intros b Hb; simpl.
  { rewrite N.add_0_r, set_nodes_id. unfold budget_wf in Hb. intuition. }
  specialize (Hx b Hb). destruct (f x b) as [b' [u|[]]]; simpl in *; [|lia..].
  destruct Hx as (-> & Hn & Hh). unfold budget_wf in Hb.
  specialize (IH (set_nodes b (jb_nodes b + cnt x)) ltac:(unfold budget_wf; simpl; lia)).
  destruct (check_seq f l _) as [b'' [u'|[]]]; simpl in *; [|lia..].
  destruct IH as (-> & ? & ?). rewrite set_nodes_set, N.add_assoc.
  split; [done|]. split; lia.
Qed.

Lemma verdict_container (b : JsonValidationBudget) (d n h : N) r :
  budget_wf b -> (jb_nodes b + 1 <= jb_max_nodes b)%N ->
  verdict (set_nodes b (jb_nodes b + 1)) (d + 1) n h r ->
  (d + 1 <= jb_max_container_depth b)%N ->
  verdict b d (1 + n) (1 + h) r.
Proof.
  intros Hb Hn Hr Hd. destruct r as [b' [u|[]]]; simpl in *; [|lia..].
  destruct Hr as (-> & ? & ?). rewrite set_nodes_set, N.add_assoc. intuition lia.
Qed.

Lemma check_value_verdict (v : Value) : forall d b, budget_wf b ->
  verdict b d (node_count v) (container_height v) (check_value v d b).
Proof.
  induction v as [|b0|n0|s0|l IH|l IH] using Value_ind'; intros d b Hb;
    pose proof Hb as (H1 & H2 & H3); unfold USIZE_MAX in *; cbn [check_value];
    destruct (N.ltb_spec U64_MAX (jb_nodes b + 1)); try (simpl; lia);
    cbn [jb_max_nodes jb_max_container_depth set_nodes];
    destruct (N.ltb_spec (jb_max_nodes b) (jb_nodes b + 1)); try (simpl; lia).
  1-4: simpl; split; [done|split; lia].
  all: destruct (N.ltb_spec (jb_max_container_depth b) (d + 1)); [simpl; lia|];
    destruct (N.ltb_spec U64_MAX (d + 1)); [lia|]; cbn [orb node_count container_height].
  - apply verdict_container; [done|lia| |done].
    apply (check_seq_verdict _ node_count container_height).
    + eapply Forall_impl; [exact IH|]. intros v Hv b'. apply Hv.
    + unfold budget_wf; simpl; unfold USIZE_MAX; lia.
  - apply verdict_container; [done|lia| |done].
    apply (check_seq_verdict _ (fun e => node_count (snd e)) (fun e => container_height (snd e))).
    + eapply Forall_impl; [exact IH|]. intros e He b'. apply He.
    + unfold budget_wf; simpl; unfold USIZE_MAX; lia.
Qed.

Lemma validate_roots_verdict (roots : list Value) (b : JsonValidationBudget) :
  budget_wf b ->
  verdict b 0 (sum_by node_count roots) (max_by container_height roots) (validate_roots b roots).
Proof.
  intros Hb.
  assert (validate_roots b roots = check_seq (fun v => check_value v 0) roots b) as ->.
  { clear Hb. revert b. induction roots as [|v roots IH]; intros b; simpl; [done|].
    rewrite validate_value_check. by destruct (check_value v 0 b) as [? []]. }
  apply (check_seq_verdict _ node_count container_height); [|done].
  apply Forall_forall. intros v _ b' Hb'. by apply check_value_verdict.
Qed.

Lemma validate_roots_ok (roots : list Value) (b : JsonValidationBudget) :
  budget_wf b ->
  is_ok (snd (validate_roots b roots)) = true <->
  (jb_nodes b + sum_by node_count roots <= jb_max_nodes b)%N /\
  Forall (fun v => container_height v <= jb_max_container_depth b)%N roots.
Proof.
  intros Hb. pose proof (validate_roots_verdict roots b Hb) as Hv.
  assert (forall m, Forall (fun v => container_height v <= m)%N roots <->
    (max_by container_height roots <= m)%N) as Hmax.
  { intros m. clear. induction roots as [|v roots IH]; simpl.
    - split; [lia|constructor].
    - rewrite Forall_cons, IH. lia. }
  rewrite Hmax. destruct (validate_roots b roots) as [b' [u|[]]]; simpl in *.
  - intuition lia.
  - split; [done|lia].
  - split; [done|lia].
Qed.

(** ** The destructor visits every node once, with a bounded stack *)
Fixpoint stack_height (frames : list (list Value)) : N :=
  match frames with
  | [] => 0
  | f :: rest =>
      N.max (if bool_decide (f = []) then 0 else vec_len frames + max_by container_height f)
            (stack_height rest)
  end%N.

Definition stack_nodes (frames : list (list Value)) : list Value := flat_map (flat_map json_nodes) frames.

Lemma container_height_children (v : Value) :
  container_height v = match json_children v with
                       | Some cs => (1 + max_by container_height cs)%N
                       | None => 0%N
                       end.
Proof.
  destruct v; simpl; try done. f_equal. unfold max_by.
  induction entries as [|e l IH]; simpl; [done|by rewrite IH].
Qed.

Lemma json_nodes_children (v : Value) :
  json_nodes v = v :: match json_children v with
                      | Some cs => flat_map json_nodes cs
                      | None => []
                      end.
Proof.
  destruct v; simpl; try done. f_equal.
  induction entries as [|e l IH]; simpl; [done|by rewrite IH].
Qed.

Lemma drop_next_spec (frames : list (list Value)) :
  match drop_next frames with
  | None => stack_nodes frames = [] 
  | Some (c, frames') =>
      stack_nodes frames = json_nodes c ++ stack_nodes frames' /\
      (vec_len frames' + container_height c <= stack_height frames)%N /\
      (stack_height frames' <= stack_height frames)%N /\
      (length frames' <= length frames)%nat
  end.
Proof.
  induction frames as [|[|c cs] rest IH]; cbn [drop_next]; [done| |].
  - unfold stack_nodes in *. destruct (drop_next rest) as [[c frames']|]; simpl; [|done].
    destruct IH as (H1 & H2 & H3 & H4). rewrite H1.
    split; [done|]. split; [lia|]. split; lia.
  - unfold stack_nodes. simpl. rewrite <-app_assoc. split; [done|].
    unfold vec_len. simpl. split; [lia|]. split; [|lia].
    case_bool_decide; lia.
Qed.

Lemma drop_loop_spec (fuel : nat) (frames : list (list Value)) (v : Value) (dropped : list Value) (high : nat) :
  (length (json_nodes v ++ stack_nodes frames) <= fuel)%nat -> (length frames <= high)%nat ->
  exists high', drop_loop fuel frames v dropped high =
      Some (dropped ++ json_nodes v ++ stack_nodes frames, high') /\
    (N.of_nat high' <= N.max (N.of_nat high) (N.max (vec_len frames + container_height v) (stack_height frames)))%N.
Proof.
  revert frames v dropped high. induction fuel as [|fuel IH]; intros frames v dropped high Hf Hh.
  { rewrite json_nodes_children in Hf. simpl in Hf. lia. }
  cbn [drop_loop].
  set (frames1 := match json_children v with Some cs => cs :: frames | None => frames end).
  assert (json_nodes v ++ stack_nodes frames = v :: stack_nodes frames1) as Hnodes.
  { rewrite json_nodes_children. subst frames1. unfold stack_nodes. by destruct (json_children v). }
  assert (stack_height frames1 <= N.max (vec_len frames + container_height v) (stack_height frames))%N as Hs.
  { rewrite container_height_children. subst frames1. destruct (json_children v); [|lia].
    simpl. case_bool_decide; unfold vec_len in *; simpl; lia. }
  assert (N.of_nat (length frames1) <= N.max (N.of_nat high) (vec_len frames + container_height v))%N as Hl.
  { rewrite container_height_children. subst frames1. unfold vec_len. destruct (json_children v); simpl; lia. }
  rewrite Hnodes in *. simpl in Hf.
  pose proof (drop_next_spec frames1) as Hd. destruct (drop_next frames1) as [[c frames2]|].
  - destruct Hd as (Hn & Hc & Hst & Hlen).
    destruct (IH frames2 c (dropped ++ [v]) (Nat.max high (length frames1))) as (h' & -> & Hb).
    + rewrite <-Hn. lia.
    + lia.
    + exists h'. rewrite Hn. simpl. rewrite <-!app_assoc. split; [done|]. lia.
  - exists (Nat.max high (length frames1)). rewrite Hd. split; [done|]. lia.
Qed.

Lemma json_nodes_length (v : Value) : N.of_nat (length (json_nodes v)) = node_count v.
Proof.
  induction v as [|b0|n0|s0|l IH|l IH] using Value_ind'; simpl; try done.
  - induction IH as [|v l Hv Hl IHl]; simpl in *; [done|]. rewrite length_app. lia.
  - induction IH as [|v l Hv Hl IHl]; simpl in *; [done|]. rewrite length_app. lia.
Qed.

(** ** The byte counter *)
Lemma counter_write_chunks_spec (l : list string) (c : JsonByteCounter) :
  (jc_bytes c + chunk_bytes l <= USIZE_MAX)%N -> (jc_bytes c <= jc_limit c)%N ->
  if (jc_bytes c + chunk_bytes l <=? jc_limit c)%N then
    counter_write_chunks c l =
      ({| jc_bytes := jc_bytes c + chunk_bytes l; jc_limit := jc_limit c; jc_exceeded := jc_exceeded c |}, true)
  else
    exists c', counter_write_chunks c l = (c', false) /\ jc_exceeded c' = true.
Proof.
  revert c. induction l as [|s l IH]; intros c Hl Hb; simpl in *.
  { rewrite N.add_0_r. rewrite (proj2 (N.leb_le _ _) Hb). by destruct c. }
  unfold counter_write_all. case_bool_decide as Hs; subst.
  { change (str_len "") with 0%N in *. rewrite N.add_0_l in *. by apply IH. }
  unfold counter_write, checked_add, USIZE_MAX in *.
  destruct (N.leb_spec (jc_bytes c + str_len s) U64_MAX) as [Hu|Hu]; [|lia].
  destruct (N.ltb_spec (jc_limit c) (jc_bytes c + str_len s)) as [Hx|Hx].
  { destruct (N.leb_spec (jc_bytes c + (str_len s + chunk_bytes l)) (jc_limit c)); [lia|]. eauto. }
  set (c1 := {| jc_bytes := jc_bytes c + str_len s; jc_limit := jc_limit c; jc_exceeded := jc_exceeded c |}).
  specialize (IH c1 ltac:(simpl; lia) Hx). simpl in IH. by rewrite !N.add_assoc.
Qed.

(** The size of a value whose serialization fits in memory, in closed form. *)
Lemma serialized_size_closed {T} `{Serialize T} (value : T) (limit : N) :
  (chunk_bytes (chunks (serialize value)) <= USIZE_MAX)%N ->
  serialized_json_size_bounded value limit =
    if (limit <? chunk_bytes (chunks (serialize value)))%N then Ok None
    else match ser_error (serialize value) with
    | Some text => Err (SerializationFailed text)
    | None => Ok (Some (chunk_bytes (chunks (serialize value))))
    end.
Proof.
  intros Hu. unfold serialized_json_size_bounded.
  set (c0 := {| jc_bytes := 0; jc_limit := limit; jc_exceeded := false |}).
  pose proof (counter_write_chunks_spec (chunks (serialize value)) c0 Hu (N.le_0_l _)) as Hc.
  simpl in Hc. rewrite N.leb_antisym in Hc.
  destruct (limit <? _)%N; simpl in Hc.
  - by destruct Hc as (c' & -> & ->).
  - rewrite Hc. simpl. by destruct (ser_error _).
Qed.

(** ** Properties *)
(** The iterative validator of [JsonValidationBudget::validate] returns on every
    value, and admits it exactly when the nodes it adds and its container
    nesting both fit the budget; on success the counter grows by exactly the
    number of nodes. *)
Theorem validate_admits_exactly (b : JsonValidationBudget) (root : Value) :
  budget_wf b ->
  exists b' r, validate b root = Some (b', r) /\
    (r = Ok tt <->
       (jb_nodes b + node_count root <= jb_max_nodes b)%N /\
       (container_height root <= jb_max_container_depth b)%N) /\
    (r = Ok tt -> b' = set_nodes b (jb_nodes b + node_count root)) /\
    (r = Err Depth -> (jb_max_container_depth b < container_height root)%N) /\
    (r = Err Nodes -> (jb_max_nodes b < jb_nodes b + node_count root)%N).
Proof.
  intros Hb. unfold validate. rewrite validate_total by lia.
  pose proof (check_value_verdict root 0 b Hb) as Hv.
  destruct (check_value root 0 b) as [b' r]. exists b', r. split; [done|].
  destruct r as [[]|[]]; simpl in Hv.
  - destruct Hv as (-> & ? & ?). repeat split; try done; try lia.
  - repeat split; try done; intros; try lia; destruct_and?; exfalso; lia.
  - repeat split; try done; intros; try lia; destruct_and?; exfalso; lia.
Qed.

Lemma validate_admits_exactly_witness :
  let b := {| jb_nodes := 0; jb_max_nodes := 3; jb_max_container_depth := 1 |} in
  validate b (VArray [VNull; VBool true]) = Some (set_nodes b 3, Ok tt) /\
  exists b' r, validate b (VArray [VArray []]) = Some (b', r) /\
    (r = Ok tt <->
       (jb_nodes b + node_count (VArray [VArray []]) <= jb_max_nodes b)%N /\
       (container_height (VArray [VArray []]) <= jb_max_container_depth b)%N) /\
    (r = Ok tt -> b' = set_nodes b (jb_nodes b + node_count (VArray [VArray []]))) /\
    (r = Err Depth -> (jb_max_container_depth b < container_height (VArray [VArray []]))%N) /\
    (r = Err Nodes -> (jb_max_nodes b < jb_nodes b + node_count (VArray [VArray []]))%N).
Proof.
  split; [vm_compute; reflexivity|].
  apply validate_admits_exactly. repeat split; vm_compute; discriminate.
Defined.

(** The iterative validator is the direct recursion over the tree: given at
    least one iteration per node it returns the same verdict, the same first
    violation in document order and the same final counter. *)
Theorem validate_refines_recursion (b : JsonValidationBudget) (root : Value) (fuel : nat) :
  (node_count root <= N.of_nat fuel)%N ->
  validate_loop fuel b [] root 0 = Some (check_value root 0 b).
Proof. apply validate_total. Qed.

Lemma validate_refines_recursion_witness :
  validate_loop 3 {| jb_nodes := 0; jb_max_nodes := 2; jb_max_container_depth := 4 |} []
    (VObject [("a", VArray [VNull])]) 0 =
  Some ({| jb_nodes := 3; jb_max_nodes := 2; jb_max_container_depth := 4 |}, Err Nodes).
Proof. rewrite (validate_refines_recursion _ _ 3); vm_compute; [reflexivity|discriminate]. Defined.

(** The iterative destructor terminates, drops every node of the value exactly
    once in document order, and never stacks more frames than the value has
    nested containers. *)
Theorem drop_visits_each_node_once (root : Value) :
  exists high, drop_json_value_iterative root = Some (json_nodes root, high) /\
    (N.of_nat high <= container_height root)%N.
Proof.
  unfold drop_json_value_iterative.
  destruct (drop_loop_spec (N.to_nat (node_count root)) [] root [] 0) as (h & -> & Hh).
  - unfold stack_nodes. simpl. rewrite app_nil_r, <-json_nodes_length. lia.
  - simpl. lia.
  - exists h. unfold stack_nodes, vec_len in *. simpl in *. rewrite app_nil_r. split; [done|lia].
Qed.

(** Every serialized-size limit of the engine: a value is measured exactly when
    all of its bytes fit the limit, over-limit values are reported as such even
    if serialization would later fail, and a serializer error within the limit
    is an error. *)
Theorem serialized_size_spec {T} `{Serialize T} (value : T) (limit : N) :
  (chunk_bytes (chunks (serialize value)) <= USIZE_MAX)%N ->
  let total := chunk_bytes (chunks (serialize value)) in
  (serialized_json_size_bounded value limit = Ok None <-> (limit < total)%N) /\
  (forall n, serialized_json_size_bounded value limit = Ok (Some n) <->
     n = total /\ (total <= limit)%N /\ ser_error (serialize value) = None) /\
  (forall text, serialized_json_size_bounded value limit = Err (SerializationFailed text) <->
     (total <= limit)%N /\ ser_error (serialize value) = Some text).
Proof.
  intros Hu total. rewrite serialized_size_closed by done. fold total.
  destruct (N.ltb_spec limit total); destruct (ser_error _);
    repeat split; intros; destruct_and?; simplify_eq; try done; lia.
Qed.

Lemma serialized_size_spec_witness :
  let ser : Serialize nat := fun n => {| chunks := repeat "ab" n; ser_error := None |} in
  @serialized_json_size_bounded nat ser 3 5 = Ok None /\
  @serialized_json_size_bounded nat ser 2 5 = Ok (Some 4%N).
Proof.
  intros ser. split.
  - apply (@serialized_size_spec nat ser 3 5); vm_compute; [discriminate|reflexivity].
  - apply (@serialized_size_spec nat ser 2 5); [vm_compute; discriminate|].
    repeat split; vm_compute; discriminate.
Defined.

(** ** Numbers *)
(** [Number::from] and [Number::as_u64]. *)
Class JsonNumbers := { number_from : N -> string; number_as_u64 : string -> option N }.
Class JsonNumberLaws `{JsonNumbers} := {
  number_roundtrip : forall n, (n <= U64_MAX)%N -> number_as_u64 (number_from n) = Some n;
  number_bounded : forall token n, number_as_u64 token = Some n -> (n <= U64_MAX)%N;
}.

(** Decimal numbers. *)
Fixpoint decimal_value (value : N) (s : string) : option N :=
  match s with
  | EmptyString => Some value
  | String c s => if byte_in "0" "9" c then decimal_value (value * 10 + (N_of_ascii c - 48)) s else None
  end.
Definition decimal_numbers : JsonNumbers :=
  {| number_from := pretty;
     number_as_u64 := fun s => n ← decimal_value 0 s; if (n <=? U64_MAX)%N then Some n else None |}.

Lemma decimal_pretty_go x s : decimal_value 0 (pretty_N_go x s) = decimal_value x s.
Proof.
  revert s. induction (N.lt_wf_0 x) as [x _ IH]; intros s.
  assert (x = 0 \/ 0 < x)%N as [->|Hx] by lia; [by rewrite pretty_N_go_0|].
  rewrite pretty_N_go_step, IH by (done || by apply N.div_lt). cbn [decimal_value].
  assert (x mod 10 < 10)%N as Hm by (by apply N.mod_lt).
  assert (byte_in "0" "9" (pretty_N_char (x mod 10)) = true /\ (N_of_ascii (pretty_N_char (x mod 10)) - 48 = x mod 10)%N) as [-> ->].
  { generalize dependent (x mod 10)%N. intros d Hd.
    assert (d = 0 \/ d = 1 \/ d = 2 \/ d = 3 \/ d = 4 \/ d = 5 \/ d = 6 \/ d = 7 \/ d = 8 \/ d = 9)%N as Hcases by lia.
    by destruct_or! Hcases; subst d. }
  f_equal. pose proof (N.div_mod x 10). lia.
Qed.

Lemma decimal_number_laws : @JsonNumberLaws decimal_numbers.
Proof.
  split.
  - intros n Hn. simpl. unfold pretty, pretty_N. case_decide as E; [by subst|]. rewrite decimal_pretty_go. simpl.
    destruct (N.leb_spec n U64_MAX); [done|lia].
  - intros token n. simpl. destruct (decimal_value 0 token) as [m|]; simpl; [|done].
    destruct (N.leb_spec m U64_MAX); naive_solver.
Qed.
