(* ===== verification/JsonText.v ===== *)
(** * Lossless JSON decoding ([json.rs])

    The lexical depth preflight that runs before any recursive decoder, the
    exact zero test on number tokens, and the [Seed] visitor that builds a
    [Value] from source text without ever interpreting a number.

    The tokenizer is [serde_json]'s: it is the parameter [parse] of [from_str],
    which returns the document as a [Raw] tree (numbers as their source tokens,
    object members in source order, repetitions included). *)
From S2P Require Import Prelude Json.

(** ** The lexical preflight *)
Record DepthScan := { ds_depth : N; ds_quoted : bool; ds_escaped : bool }.

Inductive JsonError := DepthLimitExceeded | DuplicateKey | Malformed.

#[export] Instance JsonError_eq_dec : EqDecision JsonError.
Proof. solve_decision. Defined.

Definition quote_byte : ascii := ascii_of_N 34.
Definition backslash_byte : ascii := ascii_of_N 92.

(** One byte of the scan. *)
Definition depth_step (maximum : N) (st : DepthScan) (byte : ascii) : result DepthScan JsonError :=
  if ds_quoted st then
    if ds_escaped st then
      Ok {| ds_depth := ds_depth st; ds_quoted := true; ds_escaped := false |}
    else if bool_decide (byte = backslash_byte) then
      Ok {| ds_depth := ds_depth st; ds_quoted := true; ds_escaped := true |}
    else if bool_decide (byte = quote_byte) then
      Ok {| ds_depth := ds_depth st; ds_quoted := false; ds_escaped := false |}
    else Ok st
  else if bool_decide (byte = quote_byte) then
    Ok {| ds_depth := ds_depth st; ds_quoted := true; ds_escaped := ds_escaped st |}
  else if bool_decide (byte = "["%char) || bool_decide (byte = "{"%char) then
    match checked_add (ds_depth st) 1 with
    | Some depth =>
        if (depth <=? maximum)%N then
          Ok {| ds_depth := depth; ds_quoted := false; ds_escaped := ds_escaped st |}
        else Err DepthLimitExceeded
    | None => Err DepthLimitExceeded
    end
  else if bool_decide (byte = "]"%char) || bool_decide (byte = "}"%char) then
    Ok {| ds_depth := saturating_sub (ds_depth st) 1; ds_quoted := false; ds_escaped := ds_escaped st |}
  else Ok st.

Fixpoint depth_scan (maximum : N) (st : DepthScan) (bytes : list ascii) : result DepthScan JsonError :=
  match bytes with
  | [] => Ok st
  | b :: bytes =>
      let? st := depth_step maximum st b in
      depth_scan maximum st bytes
  end.

Definition check_container_depth (bytes : list ascii) (maximum : N) : result unit JsonError :=
  let? _ := depth_scan maximum {| ds_depth := 0; ds_quoted := false; ds_escaped := false |} bytes in
  Ok tt.

(** ** Exact zero *)
(** [number.as_str().split(['e', 'E']).next()]: the text before the first
    exponent marker, the whole text when there is none. *)
Fixpoint mantissa (s : list ascii) : list ascii :=
  match s with
  | [] => []
  | c :: s => if bool_decide (c = "e"%char) || bool_decide (c = "E"%char) then [] else c :: mantissa s
  end.

Definition number_is_zero (number : list ascii) : bool :=
  forallb (fun c => bool_decide (c = "-"%char) || bool_decide (c = "."%char) || bool_decide (c = "0"%char))
    (mantissa number).

(** ** The [Seed] visitor *)
Inductive Raw :=
| RNull
| RBool (b : bool)
| RNumber (token : string)
| RString (s : string)
| RArray (elements : list Raw)
| RObject (members : list (string * Raw)).

(** [visit_seq]: the [next_element_seed] loop. *)
Definition seed_seq (f : Raw -> result Value JsonError) : list Raw -> result (list Value) JsonError :=
  fix go (l : list Raw) :=
    match l with
    | [] => Ok []
    | r :: l => let? v := f r in let? vs := go l in Ok (v :: vs)
    end.

(** [visit_map]: the [next_key]/[next_value_seed] loop over the members. *)
Definition seed_map (reject_duplicates : bool) (f : Raw -> result Value JsonError)
    : list (string * Raw) -> list (string * Value) -> result (list (string * Value)) JsonError :=
  fix go (l : list (string * Raw)) (values : list (string * Value)) :=
    match l with
    | [] => Ok values
    | (key, r) :: l =>
        if reject_duplicates && bt_contains values key then Err DuplicateKey
        else let? v := f r in go l (bt_insert values key v)
    end.

(** [Seed::deserialize] at [depth]. A number consumes its token unchanged. *)
Fixpoint seed_deserialize (max_depth : N) (reject_duplicates : bool) (depth : N) (r : Raw)
    : result Value JsonError :=
  if (max_depth <? depth)%N then Err DepthLimitExceeded
  else match r with
  | RNull => Ok VNull
  | RBool b => Ok (VBool b)
  | RNumber token => Ok (VNumber token)
  | RString s => Ok (VString s)
  | RArray elements =>
      if (max_depth <=? depth)%N then Err DepthLimitExceeded
      else
        let? values := seed_seq (seed_deserialize max_depth reject_duplicates (depth + 1)) elements in
        Ok (VArray values)
  | RObject members =>
      if (max_depth <=? depth)%N then Err DepthLimitExceeded
      else
        let? values := seed_map reject_duplicates
                         (seed_deserialize max_depth reject_duplicates (depth + 1)) members [] in
        Ok (VObject values)
  end.

Definition MAX_DOCUMENT_DEPTH : N := 128.

(** [json::deserialize]: last duplicate wins, at most 64 containers. *)
Definition json_deserialize (r : Raw) : result Value JsonError :=
  seed_deserialize MAX_SAFE_JSON_DEPTH false 0 r.

(** [json::from_str] and [json::from_slice] over the tokenizer [parse], whose
    [None] is a malformed document or one followed by other text. *)
Definition from_slice (parse : list ascii -> option Raw) (bytes : list ascii) : result Value JsonError :=
  let? _ := check_container_depth bytes MAX_DOCUMENT_DEPTH in
  match parse bytes with
  | None => Err Malformed
  | Some raw => seed_deserialize MAX_DOCUMENT_DEPTH true 0 raw
  end.

(** ** Bracket structure of a text *)
(** A character of a string literal: one byte, or an escape pair. *)
Inductive StrUnit := SPlain (c : ascii) | SEscape (c : ascii).

(** A text with balanced brackets: bytes outside literals, string literals, and
    bracketed groups. *)
Inductive LexItem :=
| LByte (c : ascii)
| LString (units : list StrUnit)
| LGroup (square : bool) (items : list LexItem).

Definition render_unit (u : StrUnit) : list ascii :=
  match u with SPlain c => [c] | SEscape c => [backslash_byte; c] end.

Fixpoint render_item (i : LexItem) : list ascii :=
  match i with
  | LByte c => [c]
  | LString units => quote_byte :: flat_map render_unit units ++ [quote_byte]
  | LGroup true items => "["%char :: flat_map render_item items ++ ["]"%char]
  | LGroup false items => "{"%char :: flat_map render_item items ++ ["}"%char]
  end.

Definition render (items : list LexItem) : list ascii := flat_map render_item items.

Fixpoint lex_height (i : LexItem) : N :=
  match i with
  | LByte _ | LString _ => 0
  | LGroup _ items => 1 + foldr (fun i n => N.max (lex_height i) n) 0 items
  end%N.

Definition structural (c : ascii) : bool :=
  bool_decide (c = quote_byte) || bool_decide (c = "["%char) || bool_decide (c = "{"%char)
  || bool_decide (c = "]"%char) || bool_decide (c = "}"%char).

(** A plain byte is not structural, and a plain literal byte is neither a quote
    nor a backslash. *)
Fixpoint lex_wf (i : LexItem) : bool :=
  match i with
  | LByte c => negb (structural c)
  | LString units =>
      forallb (fun u => match u with
                        | SPlain c => negb (bool_decide (c = quote_byte) || bool_decide (c = backslash_byte))
                        | SEscape _ => true
                        end) units
  | LGroup _ items => forallb lex_wf items
  end.

(** ** Lemmas on the preflight *)
Definition outside (d : N) : DepthScan := {| ds_depth := d; ds_quoted := false; ds_escaped := false |}.
Definition inside (d : N) : DepthScan := {| ds_depth := d; ds_quoted := true; ds_escaped := false |}.

Lemma LexItem_ind' (P : LexItem -> Prop) :
  (forall c, P (LByte c)) -> (forall u, P (LString u)) ->
  (forall b l, Forall P l -> P (LGroup b l)) -> forall i, P i.
Proof.
  intros Hb Hs Hg. fix IH 1. intros [c|u|b l]; [apply Hb|apply Hs|].
  apply Hg. induction l as [|i l IHl]; constructor; auto.
Qed.

Lemma depth_scan_string (maximum d : N) (units : list StrUnit) (rest : list ascii) :
  lex_wf (LString units) = true ->
  depth_scan maximum (inside d) (flat_map render_unit units ++ quote_byte :: rest) =
  depth_scan maximum (outside d) rest.
Proof.
  simpl. induction units as [|u units IH]; intros Hwf; simpl in *; [done|].
  apply andb_true_iff in Hwf as [Hu Hwf]. rewrite <-IH by done.
  destruct u as [c|c]; [|done]. bool_to_prop. simpl.
  unfold depth_step. simpl. by rewrite !bool_decide_false.
Qed.

Lemma depth_scan_open (maximum d : N) (square : bool) (rest : list ascii) :
  (d <= maximum)%N -> (maximum <= USIZE_MAX)%N ->
  depth_scan maximum (outside d) ((if square then "["%char else "{"%char) :: rest) =
  if (d + 1 <=? maximum)%N then depth_scan maximum (outside (d + 1)) rest else Err DepthLimitExceeded.
Proof.
  intros Hd Hm. unfold USIZE_MAX in Hm.
  destruct square; simpl; unfold depth_step, checked_add; simpl;
    destruct (N.leb_spec (d + 1) U64_MAX); simpl;
    destruct (N.leb_spec (d + 1) maximum); try done; lia.
Qed.

Lemma depth_scan_close (maximum d : N) (square : bool) (rest : list ascii) :
  depth_scan maximum (outside (d + 1)) ((if square then "]"%char else "}"%char) :: rest) =
  depth_scan maximum (outside d) rest.
Proof.
  destruct square; simpl; unfold depth_step, saturating_sub; simpl; by rewrite N.add_sub.
Qed.

(** Scanning a sequence of items, each of which behaves as its height says. *)
Lemma depth_scan_items (maximum d : N) (items : list LexItem) :
  Forall (fun i => forall d rest, (d <= maximum)%N ->
    depth_scan maximum (outside d) (render_item i ++ rest) =
    if (d + lex_height i <=? maximum)%N then depth_scan maximum (outside d) rest
    else Err DepthLimitExceeded) items ->
  (d <= maximum)%N -> forall rest,
  depth_scan maximum (outside d) (render items ++ rest) =
  if (d + max_by lex_height items <=? maximum)%N then depth_scan maximum (outside d) rest
  else Err DepthLimitExceeded.
Proof.
  intros Hall Hd. induction Hall as [|i items Hi Hall IH]; intros rest; simpl.
  { rewrite N.add_0_r. by rewrite (proj2 (N.leb_le _ _) Hd). }
  unfold render in *. simpl. rewrite <-app_assoc, Hi by done.
  destruct (N.leb_spec (d + lex_height i) maximum).
  - rewrite IH. destruct (N.leb_spec (d + max_by lex_height items) maximum);
      destruct (N.leb_spec (d + N.max (lex_height i) (max_by lex_height items)) maximum); try done; lia.
  - destruct (N.leb_spec (d + N.max (lex_height i) (max_by lex_height items)) maximum); [lia|done].
Qed.

Lemma depth_scan_item (maximum : N) (i : LexItem) :
  (maximum <= USIZE_MAX)%N -> lex_wf i = true -> forall d rest, (d <= maximum)%N ->
  depth_scan maximum (outside d) (render_item i ++ rest) =
  if (d + lex_height i <=? maximum)%N then depth_scan maximum (outside d) rest
  else Err DepthLimitExceeded.
Proof.
  intros Hm. induction i as [c|u|square items IH] using LexItem_ind'; intros Hwf d rest Hd.
  - simpl in *. rewrite N.add_0_r, (proj2 (N.leb_le _ _) Hd).
    unfold structural in Hwf. bool_to_prop. simpl. unfold depth_step; simpl.
    by rewrite !bool_decide_false.
  - simpl lex_height. rewrite N.add_0_r, (proj2 (N.leb_le _ _) Hd). simpl.
    rewrite <-app_assoc. exact (depth_scan_string maximum d u rest Hwf).
  - assert (forall (sq : bool), render_item (LGroup sq items) ++ rest =
        (if sq then "["%char else "{"%char) :: render items ++ (if sq then "]"%char else "}"%char) :: rest) as ->.
    { intros []; unfold render; simpl; by rewrite <-app_assoc. }
    rewrite depth_scan_open by done. cbn [lex_height]. fold (max_by lex_height items).
    rewrite N.add_assoc. destruct (N.leb_spec (d + 1) maximum).
    + rewrite depth_scan_items; [|  |done].
      * destruct (_ <=? maximum)%N; [apply depth_scan_close|done].
      * simpl in Hwf. rewrite forallb_forall in Hwf.
        rewrite Forall_forall in IH |- *. intros i Hi. apply IH; [done|].
        apply Hwf. by apply list_elem_of_In.
    + destruct (N.leb_spec (d + 1 + max_by lex_height items) maximum); [lia|done].
Qed.

(** ** Lemmas on the visitor *)
Fixpoint raw_height (r : Raw) : N :=
  match r with
  | RArray l => 1 + foldr (fun r n => N.max (raw_height r) n) 0 l
  | RObject l => 1 + foldr (fun m n => N.max (raw_height (snd m)) n) 0 l
  | _ => 0
  end%N.

(** No object of the document repeats a member name. *)
Fixpoint raw_unique (r : Raw) : bool :=
  match r with
  | RArray l => forallb raw_unique l
  | RObject l => bool_decide (NoDup (l.*1)) && forallb (fun m => raw_unique (snd m)) l
  | _ => true
  end.

(** Objects of a decoded value have strictly ascending keys. *)
Fixpoint value_sorted (v : Value) : Prop :=
  match v with
  | VArray l => foldr (fun v P => value_sorted v /\ P) True l
  | VObject l => bt_wf l /\ foldr (fun e P => value_sorted (snd e) /\ P) True l
  | _ => True
  end.

Lemma Raw_ind' (P : Raw -> Prop) :
  P RNull -> (forall b, P (RBool b)) -> (forall n, P (RNumber n)) -> (forall s, P (RString s)) ->
  (forall l, Forall P l -> P (RArray l)) ->
  (forall l, Forall (fun e => P (snd e)) l -> P (RObject l)) ->
  forall r, P r.
Proof.
  intros Hn Hb Hnum Hs Ha Ho. fix IH 1.
  intros [|b|n|s|l|l]; [exact Hn|apply Hb|apply Hnum|apply Hs|..].
  - apply Ha. induction l as [|v l IHl]; constructor; auto.
  - apply Ho. induction l as [|[k v] l IHl]; constructor; simpl; auto.
Qed.

(** The last member of an object called [key]. *)
Definition pick (key : string) (o : option Raw) (m : string * Raw) : option Raw :=
  if bool_decide (fst m = key) then Some (snd m) else o.

Definition last_member (l : list (string * Raw)) (key : string) : option Raw :=
  foldl (pick key) None l.

Lemma seed_seq_ok f (l : list Raw) :
  is_ok (seed_seq f l) = true <-> Forall (fun r => is_ok (f r) = true) l.
Proof.
  induction l as [|r l IH]; simpl; [by split; [constructor|]|].
  rewrite Forall_cons, <-IH. destruct (f r); simpl; [|naive_solver].
  destruct (seed_seq f l); simpl; naive_solver.
Qed.

Lemma bt_contains_get {V} (m : list (string * V)) (k : string) :
  bt_contains m k = false <-> bt_get m k = None.
Proof. unfold bt_contains. destruct (bt_get m k); naive_solver. Qed.

Lemma seed_map_ok reject f (l : list (string * Raw)) (acc : list (string * Value)) :
  is_ok (seed_map reject f l acc) = true <->
  Forall (fun m => is_ok (f (snd m)) = true) l /\
  (reject = true -> NoDup (l.*1) /\ Forall (fun k => bt_get acc k = None) (l.*1)).
Proof.
  revert acc. induction l as [|[k r] l IH]; intros acc; cbn [seed_map fst snd fmap list_fmap].
  { split; [|done]. intros _. repeat constructor. }
  rewrite Forall_cons. cbn [snd].
  destruct (reject && bt_contains acc k) eqn:Hdup.
  { apply andb_true_iff in Hdup as [-> Hc]. split; [done|]. intros [_ H].
    destruct (H eq_refl) as [_ Hall]. apply Forall_cons in Hall as [Hk _].
    unfold bt_contains in Hc. by rewrite Hk in Hc. }
  destruct (f r) as [v|e]; cbn [rbind is_ok]; [|naive_solver].
  rewrite IH. split; intros [Hall Hr]; (split; [naive_solver|]); intros ->.
  - specialize (Hr eq_refl) as [Hnd Hacc]. apply bt_contains_get in Hdup.
    rewrite Forall_forall in Hacc. split.
    + constructor; [|done]. intros Hin. specialize (Hacc k Hin).
      rewrite bt_get_insert, bool_decide_true in Hacc by done. done.
    + constructor; [done|]. apply Forall_forall. intros k' Hk'.
      specialize (Hacc k' Hk'). rewrite bt_get_insert in Hacc. by case_bool_decide.
  - specialize (Hr eq_refl) as [Hnd Hacc]. apply NoDup_cons in Hnd as [Hk Hnd].
    apply Forall_cons in Hacc as [_ Hacc]. split; [done|].
    rewrite Forall_forall in Hacc |- *. intros k' Hk'.
    rewrite bt_get_insert. case_bool_decide; [by subst|]. by apply Hacc.
Qed.

Lemma seed_map_get reject f (l : list (string * Raw)) (acc values : list (string * Value)) (key : string) :
  seed_map reject f l acc = Ok values ->
  bt_get values key =
  match last_member l key with
  | Some r => match f r with Ok v => Some v | Err _ => None end
  | None => bt_get acc key
  end.
Proof.
  revert acc. unfold last_member.
  assert (forall l o, foldl (pick key) o l =
    match foldl (pick key) None l with Some r => Some r | None => o end) as Hf.
  { clear. induction l as [|m l IH]; intros o; simpl; [done|].
    rewrite IH, (IH (pick key None m)). unfold pick. by repeat case_match. }
  induction l as [|[k r] l IH]; intros acc; cbn [seed_map foldl]; [by intros [= ->]|].
  destruct (reject && _); [done|]. destruct (f r) as [v|] eqn:Hfr; [|done]. cbn [rbind]. intros H.
  rewrite (IH _ H), (Hf l (pick key None (k, r))).
  destruct (foldl _ None l); [done|]. rewrite bt_get_insert. unfold pick. simpl.
  case_bool_decide; [by rewrite Hfr|done].
Qed.

Lemma seed_map_inv reject f (l : list (string * Raw)) (acc values : list (string * Value)) (P : Value -> Prop) :
  seed_map reject f l acc = Ok values ->
  Forall (fun m => forall v, f (snd m) = Ok v -> P v) l ->
  bt_wf acc -> Forall (fun e => P (snd e)) acc ->
  bt_wf values /\ Forall (fun e => P (snd e)) values.
Proof.
  revert acc. induction l as [|[k r] l IH]; intros acc; cbn [seed_map]; [by intros [= ->]|].
  destruct (reject && _); [done|]. destruct (f r) as [v|] eqn:Hfr; [|done]. cbn [rbind].
  intros H Hall Hwf Hacc. apply Forall_cons in Hall as [Hr Hall].
  eapply IH; [exact H|done|by apply bt_insert_wf|].
  specialize (Hr v Hfr). clear -Hacc Hr.
  induction acc as [|[k' v'] acc IHa]; simpl; [by repeat constructor|].
  apply Forall_cons in Hacc as [? ?]. destruct (str_cmp k k'); repeat constructor; auto.
Qed.

Lemma seed_seq_inv f (l : list Raw) (values : list Value) (P : Value -> Prop) :
  seed_seq f l = Ok values -> Forall (fun r => forall v, f r = Ok v -> P v) l -> Forall P values.
Proof.
  revert values. induction l as [|r l IH]; intros values; cbn [seed_seq]; [by intros [= <-]|].
  intros H Hall. apply Forall_cons in Hall as [Hr Hall]. simpl_result.
  constructor; auto.
Qed.

Lemma heights_le {A} (f : A -> N) (l : list A) (d m : N) :
  (d <= m)%N -> (d + max_by f l <= m)%N <-> Forall (fun x => d + f x <= m)%N l.
Proof.
  intros Hd. unfold max_by. induction l as [|x l IH]; simpl; [split; [constructor|lia]|].
  rewrite Forall_cons, <-IH. lia.
Qed.

Lemma Forall_guarded {A} (f : A -> bool) (reject : bool) (l : list A) :
  Forall (fun x => reject = true -> f x = true) l <-> (reject = true -> forallb f l = true).
Proof.
  rewrite forallb_forall, Forall_forall. setoid_rewrite <-list_elem_of_In. naive_solver.
Qed.

Lemma seed_deserialize_ok (max_depth : N) (reject : bool) (r : Raw) : forall depth,
  is_ok (seed_deserialize max_depth reject depth r) = true <->
  (depth + raw_height r <= max_depth)%N /\ (reject = true -> raw_unique r = true).
Proof.
  induction r as [|b|n|s|l IH|l IH] using Raw_ind'; intros depth; cbn [seed_deserialize].
  1-4: simpl; rewrite N.add_0_r; destruct (N.ltb_spec max_depth depth); simpl; naive_solver lia.
  all: cbn [raw_height raw_unique]; destruct (N.ltb_spec max_depth depth);
    [split; [done|intros [? _]; lia]|];
    destruct (N.leb_spec max_depth depth); [split; [done|intros [? _]; lia]|].
  - fold (max_by raw_height l). rewrite N.add_assoc, heights_le, <-Forall_guarded, <-Forall_and by lia.
    trans (is_ok (seed_seq (seed_deserialize max_depth reject (depth + 1)) l) = true).
    { by destruct (seed_seq _ l). }
    rewrite seed_seq_ok, !Forall_forall. rewrite Forall_forall in IH.
    split; intros H' r Hr; specialize (IH r Hr (depth + 1)%N); specialize (H' r Hr); by apply IH.
  - fold (max_by (fun m => raw_height (snd m)) l). rewrite N.add_assoc, heights_le by lia.
    trans (is_ok (seed_map reject (seed_deserialize max_depth reject (depth + 1)) l []) = true).
    { by destruct (seed_map _ _ l). }
    rewrite seed_map_ok, andb_true_iff, bool_decide_eq_true.
    assert (Forall (fun k : string => bt_get (V:=Value) [] k = None) l.*1) as Hnil.
    { by apply Forall_forall. }
    pose proof (Forall_guarded (fun m : string * Raw => raw_unique (snd m)) reject l) as Hg.
    assert (Forall (fun m => is_ok (seed_deserialize max_depth reject (depth + 1) (snd m)) = true) l <->
      Forall (fun m => depth + 1 + raw_height (snd m) <= max_depth)%N l /\
      Forall (fun m : string * Raw => reject = true -> raw_unique (snd m) = true) l) as ->.
    { rewrite <-Forall_and, !Forall_forall. rewrite Forall_forall in IH.
      split; intros H' r Hr; specialize (IH r Hr (depth + 1)%N); specialize (H' r Hr); by apply IH. }
    tauto.
Qed.

Lemma seed_deserialize_value (max_depth : N) (reject : bool) (r : Raw) : forall depth v,
  seed_deserialize max_depth reject depth r = Ok v ->
  value_sorted v /\ (depth + container_height v <= max_depth)%N.
Proof.
  assert (forall l, Forall value_sorted l -> foldr (fun v P => value_sorted v /\ P) True l) as Hfa.
  { induction 1; simpl; auto. }
  assert (forall l : list (string * Value), Forall (fun e => value_sorted (snd e)) l ->
    foldr (fun e P => value_sorted (snd e) /\ P) True l) as Hfo.
  { induction 1; simpl; auto. }
  induction r as [|b|n|s|l IH|l IH] using Raw_ind'; intros depth v; cbn [seed_deserialize];
    destruct (N.ltb_spec max_depth depth); try done.
  1-4: intros [= <-]; simpl; split; [done|lia].
  all: destruct (N.leb_spec max_depth depth); [done|]; intros Hr; simpl_result.
  - cbn [value_sorted container_height]. fold (max_by container_height a).
    rewrite N.add_assoc, heights_le by lia.
    assert (Forall (fun v => value_sorted v /\ (depth + 1 + container_height v <= max_depth)%N) a) as [? ?]%Forall_and.
    { eapply seed_seq_inv; [exact E|]. eapply Forall_impl; [exact IH|]. intros r Hr v. apply Hr. }
    auto.
  - cbn [value_sorted container_height]. fold (max_by (fun e : string * Value => container_height (snd e)) a).
    rewrite N.add_assoc, heights_le by lia.
    destruct (seed_map_inv reject (seed_deserialize max_depth reject (depth + 1)) l [] a
      (fun v => value_sorted v /\ (depth + 1 + container_height v <= max_depth)%N) E)
      as [Hwf [? ?]%Forall_and].
    + eapply Forall_impl; [exact IH|]. intros r Hr v. apply Hr.
    + constructor.
    + constructor.
    + auto.
Qed.

(** ** Number tokens *)
(** A JSON number: sign, integer digits, fraction digits, exponent text. *)
Record NumberToken := {
  nt_negative : bool;
  nt_integer : list (Fin.t 10);
  nt_fraction : list (Fin.t 10);
  nt_exponent : option (bool * list ascii);
}.

Definition digit_value (d : Fin.t 10) : N := N.of_nat (proj1_sig (Fin.to_nat d)).
Definition digit_ascii (d : Fin.t 10) : ascii := ascii_of_N (48 + digit_value d).

Definition token_text (t : NumberToken) : list ascii :=
  (if nt_negative t then ["-"%char] else []) ++ map digit_ascii (nt_integer t)
  ++ (match nt_fraction t with [] => [] | f => "."%char :: map digit_ascii f end)
  ++ match nt_exponent t with
     | None => []
     | Some (upper, e) => (if upper : bool then "E"%char else "e"%char) :: e
     end.

(** The digits of the mantissa read as one decimal number. *)
Definition token_mantissa (t : NumberToken) : N :=
  foldl (fun n d => 10 * n + digit_value d)%N 0%N (nt_integer t ++ nt_fraction t).

Definition zero_byte (c : ascii) : bool :=
  bool_decide (c = "-"%char) || bool_decide (c = "."%char) || bool_decide (c = "0"%char).

Lemma mantissa_app (l k : list ascii) :
  forallb (fun c => negb (bool_decide (c = "e"%char) || bool_decide (c = "E"%char))) l = true ->
  mantissa (l ++ k) = l ++ mantissa k.
Proof.
  induction l as [|c l IH]; simpl; [done|]. intros [Hc Hl]%andb_true_iff.
  rewrite negb_true_iff in Hc. rewrite Hc. by rewrite IH.
Qed.

Lemma digit_cases (d : Fin.t 10) (P : Fin.t 10 -> Prop) :
  P 0%fin -> P 1%fin -> P 2%fin -> P 3%fin -> P 4%fin -> P 5%fin -> P 6%fin -> P 7%fin -> P 8%fin -> P 9%fin -> P d.
Proof. intros. repeat (apply (Fin.caseS' d); [done|clear d; intros d]). by apply Fin.case0. Qed.

Lemma digit_zero_byte (d : Fin.t 10) : zero_byte (digit_ascii d) = bool_decide (digit_value d = 0%N).
Proof. by apply (digit_cases d). Qed.

Lemma digit_not_exponent (d : Fin.t 10) :
  negb (bool_decide (digit_ascii d = "e"%char) || bool_decide (digit_ascii d = "E"%char)) = true.
Proof. by apply (digit_cases d). Qed.

Lemma mantissa_zero (l : list (Fin.t 10)) (n : N) :
  foldl (fun n d => 10 * n + digit_value d)%N n l = 0%N <->
  n = 0%N /\ forallb zero_byte (map digit_ascii l) = true.
Proof.
  revert n. induction l as [|d l IH]; intros n; cbn [foldl map forallb]; [naive_solver|].
  rewrite IH, andb_true_iff, digit_zero_byte, bool_decide_eq_true.
  rewrite N.eq_add_0, N.eq_mul_0. naive_solver lia.
Qed.

Lemma token_text_mantissa (t : NumberToken) :
  mantissa (token_text t) =
  (if nt_negative t then ["-"%char] else []) ++ map digit_ascii (nt_integer t)
  ++ (match nt_fraction t with [] => [] | f => "."%char :: map digit_ascii f end).
Proof.
  assert (forall l, forallb (fun c => negb (bool_decide (c = "e"%char) || bool_decide (c = "E"%char)))
    (map digit_ascii l) = true) as Hd.
  { induction l; simpl; [done|]. rewrite IHl, andb_true_r. apply digit_not_exponent. }
  unfold token_text. rewrite !app_assoc. rewrite mantissa_app.
  - destruct (nt_exponent t) as [[[] e]|]; simpl; by rewrite app_nil_r.
  - rewrite !forallb_app, Hd, andb_true_r. destruct (nt_negative t); simpl;
      destruct (nt_fraction t) as [|d f]; simpl; try done; by rewrite digit_not_exponent, Hd.
Qed.

(** ** Properties *)
(** The depth preflight accepts a text with balanced brackets exactly when its
    containers nest at most [maximum] deep: brackets inside string literals,
    escaped quotes included, never count. *)
Theorem check_container_depth_exact (items : list LexItem) (maximum : N) :
  (maximum <= USIZE_MAX)%N -> forallb lex_wf items = true ->
  check_container_depth (render items) maximum =
  if (max_by lex_height items <=? maximum)%N then Ok tt else Err DepthLimitExceeded.
Proof.
  intros Hm Hwf. unfold check_container_depth. fold (outside 0).
  pose proof (depth_scan_items maximum 0 items) as Hs. rewrite N.add_0_l in Hs.
  rewrite <-(app_nil_r (render items)), Hs; [| |lia].
  - by destruct (max_by lex_height items <=? maximum)%N.
  - apply Forall_forall. intros i Hi. apply depth_scan_item; [done|].
    rewrite forallb_forall in Hwf. apply Hwf. by apply list_elem_of_In.
Qed.

Lemma check_container_depth_exact_witness :
  check_container_depth
    (render [LGroup false [LString [SPlain "["%char; SEscape quote_byte]; LByte ":"%char; LGroup true []]]) 1
  = Err DepthLimitExceeded.
Proof.
  rewrite check_container_depth_exact; [vm_compute; reflexivity|vm_compute; discriminate|vm_compute; reflexivity].
Defined.

(** Decoding succeeds exactly on documents whose containers nest within the
    limit and, where duplicates are rejected, in which no object repeats a
    member; a decoded value is then within the depth limit and its objects are
    ordered maps. *)
Theorem seed_deserialize_exact (max_depth : N) (reject : bool) (r : Raw) :
  (is_ok (seed_deserialize max_depth reject 0 r) = true <->
     (raw_height r <= max_depth)%N /\ (reject = true -> raw_unique r = true)) /\
  (forall v, seed_deserialize max_depth reject 0 r = Ok v ->
     value_sorted v /\ (container_height v <= max_depth)%N).
Proof.
  split.
  - rewrite seed_deserialize_ok. by rewrite N.add_0_l.
  - intros v Hv. pose proof (seed_deserialize_value _ _ _ _ _ Hv) as [? ?]. by rewrite N.add_0_l in *.
Qed.

(** A typed JSON field keeps, for every member name, the last member of that
    name as it appears in the source. *)
Theorem json_deserialize_last_wins (members : list (string * Raw)) (values : list (string * Value)) (key : string) :
  json_deserialize (RObject members) = Ok (VObject values) ->
  bt_get values key =
  match last_member members key with
  | Some r => match seed_deserialize MAX_SAFE_JSON_DEPTH false 1 r with Ok v => Some v | Err _ => None end
  | None => None
  end.
Proof.
  unfold json_deserialize. cbn [seed_deserialize]. intros H.
  destruct (_ <? _)%N; [done|]. destruct (_ <=? _)%N; [done|]. simpl_result.
  by rewrite (seed_map_get _ _ _ _ _ key E).
Qed.

Lemma json_deserialize_last_wins_witness :
  bt_get [("a", VNumber "1e400")] "a" = Some (VNumber "1e400").
Proof.
  exact (json_deserialize_last_wins [("a", RNumber "1"); ("a", RNumber "1e400")]
           [("a", VNumber "1e400")] "a" ltac:(vm_compute; reflexivity)).
Defined.

(** The zero test on a number token is exact: it holds exactly when the decimal
    digits of the mantissa are zero, whatever the sign and the exponent. *)
Theorem number_is_zero_exact (t : NumberToken) :
  number_is_zero (token_text t) = true <-> token_mantissa t = 0%N.
Proof.
  unfold number_is_zero, token_mantissa. fold zero_byte. rewrite token_text_mantissa, mantissa_zero.
  rewrite map_app, !forallb_app.
  destruct (nt_negative t), (nt_fraction t); simpl; rewrite ?andb_true_r; naive_solver.
Qed.
