(* ===== verification/Model.v ===== *)
(** * The data of the engine

    The records and enums of [model.rs], [tool.rs], [permission.rs], [event.rs],
    [error.rs], [session.rs] and the limits of [engine.rs], with the decidable
    equality the code derives ([PartialEq]) and the serde data-model tree its
    [Serialize] derives produce.

    Identifiers are the text they validate. A handle to host code
    ([Arc<dyn Tool>]) is its allocation identity. *)
From S2P Require Import Prelude Ids Json.

Definition SessionId := string.
Definition SessionIncarnationId := string.
Definition TurnId := string.
Definition ToolCallId := string.
Definition PermissionRequestId := string.
Definition ToolName := string.

(** A [BTreeMap<String, Value>]. *)
Definition Metadata := list (string * Value).

(** ** Messages *)
Inductive Role := Role_System | Role_User | Role_Assistant | Role_Tool.

Record ToolCall := { call_id : ToolCallId; call_name : ToolName; call_arguments : Value }.

Record ToolOutput := { output_content : Value; output_is_error : bool }.

Inductive ContentBlock :=
| ContentText (text : string)
| ContentJson (value : Value)
| ContentToolCall (call : ToolCall)
| ContentToolResult (id : ToolCallId) (output : ToolOutput).

Record Message := { msg_role : Role; msg_content : list ContentBlock }.

(** [Message::text] *)
Definition Message_text (role : Role) (text : string) : Message :=
  {| msg_role := role; msg_content := [ContentText text] |}.

(** ** Model requests and events *)
(** [temperature] is the bit pattern of its [f32]. *)
Record InferenceOptions := {
  opt_model : option string;
  opt_max_output_tokens : option N;
  opt_temperature : option N;
  opt_metadata : Metadata;
}.

Record ToolSpec := { spec_name : ToolName; spec_description : string; spec_input_schema : Value }.

Record ModelRequest := {
  req_session_id : SessionId;
  req_session_incarnation_id : SessionIncarnationId;
  req_turn_id : TurnId;
  req_messages : list Message;
  req_tools : list ToolSpec;
  req_options : InferenceOptions;
}.

Inductive StopReason :=
| Stop_Completed
| Stop_ToolCalls
| Stop_MaxOutputTokens
| Stop_ContentFilter
| Stop_Cancelled
| Stop_Other (detail : string).

Record TokenUsage := { input_tokens : N; output_tokens : N; cached_input_tokens : N }.

Definition TokenUsage_default : TokenUsage :=
  {| input_tokens := 0; output_tokens := 0; cached_input_tokens := 0 |}.

Inductive ModelEvent :=
| TextDelta (text : string)
| ReasoningDelta (text : string)
| ModelToolCall (call : ToolCall)
| ModelUsage (usage : TokenUsage)
| ModelStop (reason : StopReason).

(** ** Errors *)
Inductive ProviderErrorKind :=
| Provider_Authentication | Provider_RateLimited | Provider_InvalidRequest | Provider_Unavailable
| Provider_Transport | Provider_Protocol | Provider_Cancelled | Provider_Other.

Inductive ToolErrorKind :=
| Tool_InvalidInput | Tool_PermissionDenied | Tool_Unavailable | Tool_Execution | Tool_Cancelled | Tool_Other.

Inductive SessionStoreErrorKind :=
| Store_NotFound | Store_Conflict | Store_Corrupt | Store_Unavailable | Store_Other.

(** The macro [component_error!]. *)
Record component_error (Kind : Type) := ComponentError {
  err_kind : Kind;
  err_code : string;
  err_message : string;
  err_retryable : bool;
}.
Arguments ComponentError {Kind}.
Arguments err_kind {Kind}.
Arguments err_code {Kind}.
Arguments err_message {Kind}.
Arguments err_retryable {Kind}.

Definition ProviderError := component_error ProviderErrorKind.
Definition ToolError := component_error ToolErrorKind.
Definition SessionStoreError := component_error SessionStoreErrorKind.

Record PermissionError := { perm_code : string; perm_message : string }.
Record EventSinkError := { sink_code : string; sink_message : string }.

Inductive EngineError :=
| HostClosed
| SessionBusy
| SessionIncarnationConflict
| Engine_Provider (e : ProviderError)
| Engine_Store (e : SessionStoreError)
| Engine_Permission (e : PermissionError)
| Engine_EventSink (e : EventSinkError)
| Engine_Protocol (message : string).

Definition component_error_display {Kind} (e : component_error Kind) : string :=
  err_code e +:+ ": " +:+ err_message e.

(** [Display for EngineError] *)
Definition EngineError_display (e : EngineError) : string :=
  match e with
  | HostClosed => "the engine host is closed"
  | SessionBusy => "the session already has an active turn"
  | SessionIncarnationConflict => "the session ID is already active with a different incarnation"
  | Engine_Provider e => "provider failed: " +:+ component_error_display e
  | Engine_Store e => "session store failed: " +:+ component_error_display e
  | Engine_Permission e => "permission handler failed: " +:+ perm_code e +:+ ": " +:+ perm_message e
  | Engine_EventSink e => "event sink failed: " +:+ sink_code e +:+ ": " +:+ sink_message e
  | Engine_Protocol message => "protocol violation: " +:+ message
  end.

(** ** Permissions *)
Inductive FilesystemAccess :=
| Fs_Read | Fs_Metadata | Fs_Write | Fs_Edit | Fs_Create | Fs_Delete | Fs_Enumerate
| Fs_EnumerateRecursive | Fs_SearchContent.

Record NetworkTarget := { target_scheme : string; target_host : string; target_port : option N }.
Record ProcessEnvironment := { env_profile : string; env_sha256 : string }.
Inductive ProcessInput := Input_Null | Input_Pipe.

Inductive Capability :=
| Cap_Tool (name : ToolName) (id : ToolCallId) (arguments : Value)
| Cap_Filesystem (access : FilesystemAccess) (path : string)
| Cap_FilesystemRename (old_path new_path : string)
| Cap_FilesystemCopy (source destination : string)
| Cap_OpenFile (path : string)
| Cap_Process (program : string) (arguments : list string) (working_directory : string)
    (environment : ProcessEnvironment) (stdin : ProcessInput)
| Cap_Network (target : NetworkTarget)
| Cap_Vision (paths : list string) (target : NetworkTarget)
| Cap_Custom (name : string) (details : Value).

Inductive PermissionRisk := Risk_Low | Risk_Medium | Risk_High | Risk_Critical.

Record PermissionRequest := {
  pr_id : PermissionRequestId;
  pr_session_id : SessionId;
  pr_session_incarnation_id : SessionIncarnationId;
  pr_turn_id : TurnId;
  pr_capability : Capability;
  pr_risk : PermissionRisk;
  pr_reason : string;
}.

Inductive PermissionGrantScope := Scope_Once | Scope_Turn | Scope_Session.

Inductive PermissionDecision :=
| Allow (scope : PermissionGrantScope)
| Deny (reason : string).

(** ** Tools *)
Record ToolContext := {
  tc_session_id : SessionId;
  tc_session_incarnation_id : SessionIncarnationId;
  tc_turn_id : TurnId;
  tc_call_id : ToolCallId;
}.

Inductive ToolExecutionCancellation := Cancellable | CompletionWinsAfterFirstPoll.

Inductive PreparedToolAuthorization :=
| PermissionRequired (capability : Capability)
| NoAuthorityRequired.

Record PreparedToolCall := {
  prepared_authorization : PreparedToolAuthorization;
  prepared_arguments : Value;
  prepared_execution_cancellation : ToolExecutionCancellation;
}.

(** [Arc<dyn Tool>], [Arc<TurnToolRegistration>]: the allocation identity
    decides [Arc::ptr_eq]. *)
Definition ToolRef := N.
Record TurnToolRegistration := { reg_ptr : N; reg_spec : ToolSpec; reg_tool : ToolRef }.

Record ToolExecution := {
  exec_output : ToolOutput;
  exec_persisted_output : option ToolOutput;
  exec_next_round_tool : option TurnToolRegistration;
  exec_finish_turn : bool;
}.

Record ToolOutputLimits := { out_max_serialized_bytes : positive; out_max_json_nodes : positive }.

Record ToolInputLimits := {
  in_max_argument_bytes : positive;
  in_max_argument_nodes : positive;
  in_max_prepared_argument_bytes : positive;
  in_max_prepared_argument_nodes : positive;
}.

(** ** Turn events *)
Inductive TurnEvent :=
| Started
| ModelItem (event : ModelEvent)
| PermissionRequested (request : PermissionRequest)
| PermissionResolved (request_id : PermissionRequestId) (decision : PermissionDecision)
| ToolStarted (call : ToolCall)
| ToolDenied (id : ToolCallId) (tool_name : ToolName)
| ToolFinished (id : ToolCallId) (output : ToolOutput)
| Completed (reason : StopReason) (usage : TokenUsage)
| Failed (component code message : string) (retryable : bool).

Record EngineEvent := {
  ev_session_id : SessionId;
  ev_session_incarnation_id : SessionIncarnationId;
  ev_turn_id : TurnId;
  ev_sequence : N;
  ev_payload : TurnEvent;
}.

(** ** Session records *)
Definition SessionRevision := N.

Record SessionRecord := {
  rec_id : SessionId;
  rec_incarnation_id : SessionIncarnationId;
  rec_revision : SessionRevision;
  rec_next_turn_sequence : N;
  rec_messages : list Message;
  rec_metadata : Metadata;
}.

Definition initial_turn_sequence : N := 1.

(** [SessionRecord::empty] *)
Definition SessionRecord_empty (id : SessionId) (incarnation_id : SessionIncarnationId) : SessionRecord :=
  {| rec_id := id; rec_incarnation_id := incarnation_id; rec_revision := 0%N;
     rec_next_turn_sequence := initial_turn_sequence; rec_messages := []; rec_metadata := [] |}.

Definition with_revision (r : SessionRecord) (n : SessionRevision) : SessionRecord :=
  {| rec_id := rec_id r; rec_incarnation_id := rec_incarnation_id r; rec_revision := n;
     rec_next_turn_sequence := rec_next_turn_sequence r; rec_messages := rec_messages r;
     rec_metadata := rec_metadata r |}.
Definition with_next_turn_sequence (r : SessionRecord) (n : N) : SessionRecord :=
  {| rec_id := rec_id r; rec_incarnation_id := rec_incarnation_id r; rec_revision := rec_revision r;
     rec_next_turn_sequence := n; rec_messages := rec_messages r; rec_metadata := rec_metadata r |}.
Definition with_messages (r : SessionRecord) (m : list Message) : SessionRecord :=
  {| rec_id := rec_id r; rec_incarnation_id := rec_incarnation_id r; rec_revision := rec_revision r;
     rec_next_turn_sequence := rec_next_turn_sequence r; rec_messages := m;
     rec_metadata := rec_metadata r |}.
Definition with_metadata (r : SessionRecord) (m : Metadata) : SessionRecord :=
  {| rec_id := rec_id r; rec_incarnation_id := rec_incarnation_id r; rec_revision := rec_revision r;
     rec_next_turn_sequence := rec_next_turn_sequence r; rec_messages := rec_messages r;
     rec_metadata := m |}.

(** [redact_store_error], [redact_event_sink_error] *)
Definition redact_store_error (e : SessionStoreError) : SessionStoreError :=
  ComponentError (err_kind e) "store_failed" "session store failed" (err_retryable e).
Definition redact_event_sink_error (e : EventSinkError) : EventSinkError :=
  {| sink_code := "event_sink_failed"; sink_message := "event sink failed" |}.

Record Prompt := { prompt_text : string; prompt_options : InferenceOptions }.

(** ** Limits *)
Record EngineLimits := {
  max_model_rounds : positive;
  max_model_events_per_turn : positive;
  max_tool_calls_per_turn : positive;
  max_tool_calls_per_round : positive;
  max_json_depth : positive;
  max_json_nodes : positive;
  max_assistant_text_bytes : positive;
  max_reasoning_bytes : positive;
  max_stop_detail_bytes : positive;
  max_prompt_bytes : positive;
  max_session_metadata_bytes : positive;
  max_inference_options_bytes : positive;
  max_transcript_messages : positive;
  max_transcript_bytes : positive;
  max_tool_catalog_bytes : positive;
  max_tool_argument_bytes : positive;
  max_cumulative_complete_tool_argument_bytes : positive;
  max_cumulative_complete_tool_argument_nodes : positive;
  max_serialized_tool_result_bytes : positive;
  max_cumulative_tool_result_bytes : positive;
  max_cumulative_complete_tool_result_bytes : positive;
  max_permission_denial_reason_bytes : positive;
}.

Definition EngineLimits_default : EngineLimits := {|
  max_model_rounds := 8;
  max_model_events_per_turn := 4096;
  max_tool_calls_per_turn := 16;
  max_tool_calls_per_round := 4;
  max_json_depth := N.succ_pos (MAX_SAFE_JSON_DEPTH - 1);
  max_json_nodes := 65536;
  max_assistant_text_bytes := 1048576;
  max_reasoning_bytes := 1048576;
  max_stop_detail_bytes := 1024;
  max_prompt_bytes := 262144;
  max_session_metadata_bytes := 262144;
  max_inference_options_bytes := 65536;
  max_transcript_messages := 4096;
  max_transcript_bytes := 8388608;
  max_tool_catalog_bytes := 1048576;
  max_tool_argument_bytes := 65536;
  max_cumulative_complete_tool_argument_bytes := 262144;
  max_cumulative_complete_tool_argument_nodes := 65536;
  max_serialized_tool_result_bytes := 65536;
  max_cumulative_tool_result_bytes := 262144;
  max_cumulative_complete_tool_result_bytes := 262144;
  max_permission_denial_reason_bytes := 4096;
|}.

(** The struct updates of the code: the JSON-node limit alone, and the node and
    argument-byte limits of an explicit input policy. *)
Definition with_json_nodes (l : EngineLimits) (nodes : positive) : EngineLimits := {|
  max_model_rounds := max_model_rounds l;
  max_model_events_per_turn := max_model_events_per_turn l;
  max_tool_calls_per_turn := max_tool_calls_per_turn l;
  max_tool_calls_per_round := max_tool_calls_per_round l;
  max_json_depth := max_json_depth l;
  max_json_nodes := nodes;
  max_assistant_text_bytes := max_assistant_text_bytes l;
  max_reasoning_bytes := max_reasoning_bytes l;
  max_stop_detail_bytes := max_stop_detail_bytes l;
  max_prompt_bytes := max_prompt_bytes l;
  max_session_metadata_bytes := max_session_metadata_bytes l;
  max_inference_options_bytes := max_inference_options_bytes l;
  max_transcript_messages := max_transcript_messages l;
  max_transcript_bytes := max_transcript_bytes l;
  max_tool_catalog_bytes := max_tool_catalog_bytes l;
  max_tool_argument_bytes := max_tool_argument_bytes l;
  max_cumulative_complete_tool_argument_bytes := max_cumulative_complete_tool_argument_bytes l;
  max_cumulative_complete_tool_argument_nodes := max_cumulative_complete_tool_argument_nodes l;
  max_serialized_tool_result_bytes := max_serialized_tool_result_bytes l;
  max_cumulative_tool_result_bytes := max_cumulative_tool_result_bytes l;
  max_cumulative_complete_tool_result_bytes := max_cumulative_complete_tool_result_bytes l;
  max_permission_denial_reason_bytes := max_permission_denial_reason_bytes l;
|}.
Definition with_json_depth (l : EngineLimits) (depth : positive) : EngineLimits := {|
  max_model_rounds := max_model_rounds l;
  max_model_events_per_turn := max_model_events_per_turn l;
  max_tool_calls_per_turn := max_tool_calls_per_turn l;
  max_tool_calls_per_round := max_tool_calls_per_round l;
  max_json_depth := depth;
  max_json_nodes := max_json_nodes l;
  max_assistant_text_bytes := max_assistant_text_bytes l;
  max_reasoning_bytes := max_reasoning_bytes l;
  max_stop_detail_bytes := max_stop_detail_bytes l;
  max_prompt_bytes := max_prompt_bytes l;
  max_session_metadata_bytes := max_session_metadata_bytes l;
  max_inference_options_bytes := max_inference_options_bytes l;
  max_transcript_messages := max_transcript_messages l;
  max_transcript_bytes := max_transcript_bytes l;
  max_tool_catalog_bytes := max_tool_catalog_bytes l;
  max_tool_argument_bytes := max_tool_argument_bytes l;
  max_cumulative_complete_tool_argument_bytes := max_cumulative_complete_tool_argument_bytes l;
  max_cumulative_complete_tool_argument_nodes := max_cumulative_complete_tool_argument_nodes l;
  max_serialized_tool_result_bytes := max_serialized_tool_result_bytes l;
  max_cumulative_tool_result_bytes := max_cumulative_tool_result_bytes l;
  max_cumulative_complete_tool_result_bytes := max_cumulative_complete_tool_result_bytes l;
  max_permission_denial_reason_bytes := max_permission_denial_reason_bytes l;
|}.

Definition with_argument_limits (l : EngineLimits) (bytes nodes : positive) : EngineLimits := {|
  max_model_rounds := max_model_rounds l;
  max_model_events_per_turn := max_model_events_per_turn l;
  max_tool_calls_per_turn := max_tool_calls_per_turn l;
  max_tool_calls_per_round := max_tool_calls_per_round l;
  max_json_depth := max_json_depth l;
  max_json_nodes := nodes;
  max_assistant_text_bytes := max_assistant_text_bytes l;
  max_reasoning_bytes := max_reasoning_bytes l;
  max_stop_detail_bytes := max_stop_detail_bytes l;
  max_prompt_bytes := max_prompt_bytes l;
  max_session_metadata_bytes := max_session_metadata_bytes l;
  max_inference_options_bytes := max_inference_options_bytes l;
  max_transcript_messages := max_transcript_messages l;
  max_transcript_bytes := max_transcript_bytes l;
  max_tool_catalog_bytes := max_tool_catalog_bytes l;
  max_tool_argument_bytes := bytes;
  max_cumulative_complete_tool_argument_bytes := max_cumulative_complete_tool_argument_bytes l;
  max_cumulative_complete_tool_argument_nodes := max_cumulative_complete_tool_argument_nodes l;
  max_serialized_tool_result_bytes := max_serialized_tool_result_bytes l;
  max_cumulative_tool_result_bytes := max_cumulative_tool_result_bytes l;
  max_cumulative_complete_tool_result_bytes := max_cumulative_complete_tool_result_bytes l;
  max_permission_denial_reason_bytes := max_permission_denial_reason_bytes l;
|}.

(** ** Decidable equality *)
#[export] Instance Role_eq_dec : EqDecision Role.
Proof. solve_decision. Defined.
#[export] Instance ToolCall_eq_dec : EqDecision ToolCall.
Proof. solve_decision. Defined.
#[export] Instance ToolOutput_eq_dec : EqDecision ToolOutput.
Proof. solve_decision. Defined.
#[export] Instance ContentBlock_eq_dec : EqDecision ContentBlock.
Proof. solve_decision. Defined.
#[export] Instance Message_eq_dec : EqDecision Message.
Proof. solve_decision. Defined.
#[export] Instance StopReason_eq_dec : EqDecision StopReason.
Proof. solve_decision. Defined.
#[export] Instance SessionStoreErrorKind_eq_dec : EqDecision SessionStoreErrorKind.
Proof. solve_decision. Defined.
#[export] Instance SessionRecord_eq_dec : EqDecision SessionRecord.
Proof. solve_decision. Defined.

(** ** Serialization

    The serde data model, without the type names JSON does not write. A
    [Serialize] derive is the tree it visits; [serde_json]'s writer turns the
    tree into chunks and is a parameter. *)
Inductive Ser :=
| Ser_str (s : string)
| Ser_bool (b : bool)
| Ser_u64 (n : N)
| Ser_i64 (n : Z)
| Ser_f32 (bits : N)
| Ser_none
| Ser_seq (elements : list Ser)
| Ser_fields (fields : list (string * Ser))
| Ser_value (v : Value).

Class JsonWriter := write_json : Ser -> Serialized.

Class ToSer (T : Type) := to_ser : T -> Ser.

#[export] Instance ser_serialize `{JsonWriter} {T} `{ToSer T} : Serialize T :=
  fun value => write_json (to_ser value).

#[export] Instance Value_to_ser : ToSer Value := Ser_value.
#[export] Instance option_to_ser {T} `{ToSer T} : ToSer (option T) :=
  fun o => match o with Some x => to_ser x | None => Ser_none end.
#[export] Instance list_to_ser {T} `{ToSer T} : ToSer (list T) := fun l => Ser_seq (map to_ser l).
#[export] Instance Metadata_to_ser : ToSer Metadata :=
  fun m => Ser_fields (map (fun e => (e.1, to_ser e.2)) m).

#[export] Instance Role_to_ser : ToSer Role := fun r =>
  Ser_str match r with
  | Role_System => "system" | Role_User => "user" | Role_Assistant => "assistant" | Role_Tool => "tool"
  end.
#[export] Instance ToolCall_to_ser : ToSer ToolCall := fun c =>
  Ser_fields [("id", Ser_str (call_id c)); ("name", Ser_str (call_name c));
              ("arguments", to_ser (call_arguments c))].
#[export] Instance ToolOutput_to_ser : ToSer ToolOutput := fun o =>
  Ser_fields [("content", to_ser (output_content o)); ("is_error", Ser_bool (output_is_error o))].
#[export] Instance ContentBlock_to_ser : ToSer ContentBlock := fun b =>
  Ser_fields match b with
  | ContentText text => [("type", Ser_str "text"); ("text", Ser_str text)]
  | ContentJson value => [("type", Ser_str "json"); ("value", to_ser value)]
  | ContentToolCall call => [("type", Ser_str "tool_call"); ("call", to_ser call)]
  | ContentToolResult id output =>
      [("type", Ser_str "tool_result"); ("call_id", Ser_str id); ("output", to_ser output)]
  end.
#[export] Instance Message_to_ser : ToSer Message := fun m =>
  Ser_fields [("role", to_ser (msg_role m)); ("content", to_ser (msg_content m))].
#[export] Instance ToolSpec_to_ser : ToSer ToolSpec := fun s =>
  Ser_fields [("name", Ser_str (spec_name s)); ("description", Ser_str (spec_description s));
              ("input_schema", to_ser (spec_input_schema s))].
#[export] Instance InferenceOptions_to_ser : ToSer InferenceOptions := fun o =>
  Ser_fields [("model", match opt_model o with Some m => Ser_str m | None => Ser_none end);
              ("max_output_tokens", match opt_max_output_tokens o with Some n => Ser_u64 n | None => Ser_none end);
              ("temperature", match opt_temperature o with Some t => Ser_f32 t | None => Ser_none end);
              ("metadata", to_ser (opt_metadata o))].

#[export] Instance FilesystemAccess_to_ser : ToSer FilesystemAccess := fun a =>
  Ser_str match a with
  | Fs_Read => "read" | Fs_Metadata => "metadata" | Fs_Write => "write" | Fs_Edit => "edit"
  | Fs_Create => "create" | Fs_Delete => "delete" | Fs_Enumerate => "enumerate"
  | Fs_EnumerateRecursive => "enumerate_recursive" | Fs_SearchContent => "search_content"
  end.
#[export] Instance NetworkTarget_to_ser : ToSer NetworkTarget := fun t =>
  Ser_fields [("scheme", Ser_str (target_scheme t)); ("host", Ser_str (target_host t));
              ("port", match target_port t with Some p => Ser_u64 p | None => Ser_none end)].
#[export] Instance ProcessEnvironment_to_ser : ToSer ProcessEnvironment := fun e =>
  Ser_fields [("profile", Ser_str (env_profile e)); ("sha256", Ser_str (env_sha256 e))].
#[export] Instance ProcessInput_to_ser : ToSer ProcessInput := fun i =>
  Ser_str match i with Input_Null => "null" | Input_Pipe => "pipe" end.
#[export] Instance Capability_to_ser : ToSer Capability := fun c =>
  Ser_fields match c with
  | Cap_Tool name id arguments =>
      [("type", Ser_str "tool"); ("name", Ser_str name); ("call_id", Ser_str id);
       ("arguments", to_ser arguments)]
  | Cap_Filesystem access path =>
      [("type", Ser_str "filesystem"); ("access", to_ser access); ("path", Ser_str path)]
  | Cap_FilesystemRename old_path new_path =>
      [("type", Ser_str "filesystem_rename"); ("old_path", Ser_str old_path); ("new_path", Ser_str new_path)]
  | Cap_FilesystemCopy source destination =>
      [("type", Ser_str "filesystem_copy"); ("source", Ser_str source); ("destination", Ser_str destination)]
  | Cap_OpenFile path => [("type", Ser_str "open_file"); ("path", Ser_str path)]
  | Cap_Process program arguments working_directory environment stdin =>
      [("type", Ser_str "process"); ("program", Ser_str program);
       ("arguments", Ser_seq (map Ser_str arguments)); ("working_directory", Ser_str working_directory);
       ("environment", to_ser environment); ("stdin", to_ser stdin)]
  | Cap_Network target => [("type", Ser_str "network"); ("target", to_ser target)]
  | Cap_Vision paths target =>
      [("type", Ser_str "vision"); ("paths", Ser_seq (map Ser_str paths)); ("target", to_ser target)]
  | Cap_Custom name details =>
      [("type", Ser_str "custom"); ("name", Ser_str name); ("details", to_ser details)]
  end.

(** ** The engine *)
Record RegisteredTool := { registered_spec : ToolSpec; registered_tool : ToolRef }.

(** [EngineInner]; the store is its allocation, the host boundaries are reached
    through their calls. *)
Record EngineInner := {
  session_store : N;
  engine_tools : list (ToolName * RegisteredTool);
  tool_specs : list ToolSpec;
  limits : EngineLimits;
}.
