(* ===== verification/Limits.v ===== *)
(** * Turn failures and admission limits ([session.rs])

    The failure values of a turn and the checks that admit records, inference
    options, tool arguments, prepared calls and tool outputs, each with the exact
    set of values it admits. *)
From S2P Require Import Prelude Ids Json Model.

(** ** Failures *)
Record TurnFailure := {
  tf_component : string;
  tf_code : string;
  tf_message : string;
  tf_retryable : bool;
}.

Definition TurnFailure_protocol (code message : string) : TurnFailure :=
  {| tf_component := "protocol"; tf_code := code; tf_message := message; tf_retryable := false |}.
Definition TurnFailure_limit (code message : string) : TurnFailure :=
  {| tf_component := "limits"; tf_code := code; tf_message := message; tf_retryable := false |}.
Definition TurnFailure_provider (error : ProviderError) : TurnFailure :=
  {| tf_component := "provider"; tf_code := "provider_failed"; tf_message := "model provider failed";
     tf_retryable := err_retryable error |}.
Definition TurnFailure_missing_stop : TurnFailure :=
  {| tf_component := "provider"; tf_code := "missing_stop";
     tf_message := "provider stream ended without a terminal stop"; tf_retryable := false |}.
Definition TurnFailure_store (error : SessionStoreError) : TurnFailure :=
  {| tf_component := "store"; tf_code := "store_failed"; tf_message := "session store failed";
     tf_retryable := err_retryable error |}.
Definition TurnFailure_permission (error : PermissionError) : TurnFailure :=
  {| tf_component := "permission"; tf_code := "permission_failed"; tf_message := "permission policy failed";
     tf_retryable := false |}.
Definition TurnFailure_into_event (f : TurnFailure) : TurnEvent :=
  Failed (tf_component f) (tf_code f) (tf_message f) (tf_retryable f).

Inductive WorkflowAbort :=
| AbortCancelled
| AbortFailed (failure : TurnFailure).

#[export] Instance TurnFailure_eq_dec : EqDecision TurnFailure.
Proof. solve_decision. Defined.
#[export] Instance WorkflowAbort_eq_dec : EqDecision WorkflowAbort.
Proof. solve_decision. Defined.

(** ** JSON limits *)
(** [JsonValidationBudget::new] *)
Definition JsonValidationBudget_new (limits : EngineLimits) : JsonValidationBudget :=
  {| jb_nodes := 0; jb_max_nodes := nz_get (max_json_nodes limits);
     jb_max_container_depth := nz_get (max_json_depth limits) |}.

Definition validate_json_roots (roots : list Value) (limits : EngineLimits)
    : result unit JsonLimitViolation :=
  snd (validate_roots (JsonValidationBudget_new limits) roots).

Definition json_limit_failure (violation : JsonLimitViolation) : TurnFailure :=
  match violation with
  | Depth => TurnFailure_limit "json_depth_limit"
      "JSON value exceeded the configured container depth limit"
  | Nodes => TurnFailure_limit "json_node_limit" "JSON values exceeded the configured node limit"
  end.

Definition validate_json_value (value : Value) (limits : EngineLimits) : result unit TurnFailure :=
  map_err json_limit_failure (validate_json_roots [value] limits).

(** ** Small outputs and messages *)
Definition unknown_tool_result : ToolOutput :=
  {| output_content := VObject [("code", VString "tool_result_unknown");
                                ("message", VString "tool result status is unknown")];
     output_is_error := true |}.

Definition tool_error_output (error : ToolError) : ToolOutput :=
  {| output_content := VObject [("code", VString "tool_error");
                                ("message", VString "tool execution failed");
                                ("retryable", VBool (err_retryable error))];
     output_is_error := true |}.

Definition permission_denied_output : ToolOutput :=
  {| output_content := VObject [("code", VString "permission_denied");
                                ("message", VString "tool execution was denied by policy")];
     output_is_error := true |}.

Definition tool_result_message (id : ToolCallId) (output : ToolOutput) : Message :=
  {| msg_role := Role_Tool; msg_content := [ContentToolResult id output] |}.

Definition assistant_message_content (text : string) (calls : list ToolCall) : list ContentBlock :=
  (if bool_decide (text = "") then [] else [ContentText text]) ++ map ContentToolCall calls.

(** ** Admission checks *)
Section Checks.
Context `{JsonWriter}.

(** A bounded size where both a serialization error and an over-limit value are
    failures. *)
Definition size_or {T} `{ToSer T} (value : T) (limit : N) (failed : string -> TurnFailure)
    (exceeded : TurnFailure) : result N TurnFailure :=
  match serialized_json_size_bounded value limit with
  | Err (SerializationFailed text) => Err (failed text)
  | Ok None => Err exceeded
  | Ok (Some bytes) => Ok bytes
  end.

Definition validate_complete_tool_output (complete persisted : ToolOutput)
    (output_limits : option ToolOutputLimits) (limits : EngineLimits) (cumulative_bytes : N)
    : result N TurnFailure :=
  let? output_limits := ok_or (TurnFailure_protocol "complete_tool_result_not_enabled"
    "tool returned a durable representation without complete-output admission") output_limits in
  fail_if negb (eqb (output_is_error complete) (output_is_error persisted))
    with TurnFailure_protocol "complete_tool_result_status_mismatch"
      "complete and persisted tool results disagree on error status" in
  let? _ := validate_json_value (output_content complete)
              (with_json_nodes limits (out_max_json_nodes output_limits)) in
  let? result_bytes := size_or complete (nz_get (out_max_serialized_bytes output_limits))
    (fun error => TurnFailure_protocol "tool_result_serialization"
       ("complete tool result could not be serialized: " +:+ error))
    (TurnFailure_limit "complete_tool_result_size_limit"
       "complete tool result exceeded its explicit serialized size limit") in
  ok_or (TurnFailure_limit "cumulative_complete_tool_result_size_limit"
           "turn exceeded the complete tool result size limit")
    (match checked_add cumulative_bytes result_bytes with
     | Some total =>
         if (total <=? nz_get (max_cumulative_complete_tool_result_bytes limits))%N then Some total else None
     | None => None
     end).

(** Bytes and nodes of admitted arguments. *)
Definition validate_tool_arguments (arguments : Value) (limits : EngineLimits)
    : result (N * N) TurnFailure :=
  let '(budget, r) := validate_value (JsonValidationBudget_new limits) arguments in
  let? _ := map_err json_limit_failure r in
  let? bytes := size_or arguments (nz_get (max_tool_argument_bytes limits))
    (fun _ => TurnFailure_protocol "tool_argument_serialization" "tool arguments could not be serialized")
    (TurnFailure_limit "tool_argument_size_limit"
       "tool arguments exceeded the configured serialized size limit") in
  Ok (bytes, jb_nodes budget).

Definition add_complete_input_budget (used added limit : N) (code : string) : result N TurnFailure :=
  ok_or (TurnFailure_limit code "complete tool inputs exceeded the configured turn budget")
    (match checked_add used added with
     | Some total => if (total <=? limit)%N then Some total else None
     | None => None
     end).

Definition PREPARED_CAPABILITY_ENVELOPE_BYTES : N := 1024.

Definition capability_json_value (capability : Capability) : option Value :=
  match capability with
  | Cap_Tool _ _ arguments => Some arguments
  | Cap_Custom _ details => Some details
  | Cap_Filesystem _ _ | Cap_FilesystemRename _ _ | Cap_FilesystemCopy _ _ | Cap_OpenFile _
  | Cap_Process _ _ _ _ _ | Cap_Network _ | Cap_Vision _ _ => None
  end.

Definition prepared_limits (limits : EngineLimits) (input_limits : option ToolInputLimits) : EngineLimits :=
  match input_limits with
  | Some input => with_argument_limits limits (in_max_prepared_argument_bytes input)
                    (in_max_prepared_argument_nodes input)
  | None => limits
  end.

Definition capability_limit (limits : EngineLimits) (input_limits : option ToolInputLimits) : N :=
  saturating_add (nz_get (max_tool_argument_bytes (prepared_limits limits input_limits)))
    (match input_limits with Some _ => 0 | None => PREPARED_CAPABILITY_ENVELOPE_BYTES end).

Definition validate_prepared_tool_call (prepared : PreparedToolCall) (limits : EngineLimits)
    (input_limits : option ToolInputLimits) : result unit TurnFailure :=
  let bounds := prepared_limits limits input_limits in
  let? _ := validate_json_value (prepared_arguments prepared) bounds in
  let? _ := size_or (prepared_arguments prepared) (nz_get (max_tool_argument_bytes bounds))
    (fun error => TurnFailure_protocol "tool_argument_serialization"
       ("prepared tool arguments could not be serialized: " +:+ error))
    (TurnFailure_limit "tool_argument_size_limit"
       "prepared tool arguments exceeded the configured serialized size limit") in
  match prepared_authorization prepared with
  | NoAuthorityRequired => Ok tt
  | PermissionRequired capability =>
      let? _ := match capability_json_value capability with
                | Some value => validate_json_value value bounds
                | None => Ok tt
                end in
      let? _ := size_or capability (capability_limit limits input_limits)
        (fun error => TurnFailure_protocol "tool_argument_serialization"
           ("prepared tool capability could not be serialized: " +:+ error))
        (TurnFailure_limit "tool_argument_size_limit"
           "prepared tool capability exceeded the configured serialized size limit") in
      Ok tt
  end.

Definition validate_transcript (messages : list Message) (limits : EngineLimits) : result unit TurnFailure :=
  fail_if (nz_get (max_transcript_messages limits) <? vec_len messages)%N
    with TurnFailure_limit "transcript_message_limit" "transcript exceeded the configured message limit" in
  let? _ := size_or messages (nz_get (max_transcript_bytes limits))
    (fun _ => TurnFailure_protocol "transcript_serialization" "transcript could not be serialized")
    (TurnFailure_limit "transcript_size_limit"
       "transcript exceeded the configured serialized byte limit") in
  Ok tt.

(** The loops of [validate_record] over metadata and content blocks, which share
    one budget. *)
Definition validate_block (b : JsonValidationBudget) (block : ContentBlock)
    : JsonValidationBudget * result unit JsonLimitViolation :=
  match block with
  | ContentJson value => validate_value b value
  | ContentToolCall call => validate_value b (call_arguments call)
  | ContentToolResult _ output => validate_value b (output_content output)
  | ContentText _ => (b, Ok tt)
  end.

Fixpoint validate_blocks (b : JsonValidationBudget) (blocks : list ContentBlock)
    : JsonValidationBudget * result unit JsonLimitViolation :=
  match blocks with
  | [] => (b, Ok tt)
  | block :: blocks =>
      match validate_block b block with
      | (b, Ok _) => validate_blocks b blocks
      | (b, Err e) => (b, Err e)
      end
  end.

Fixpoint validate_messages (b : JsonValidationBudget) (messages : list Message)
    : JsonValidationBudget * result unit JsonLimitViolation :=
  match messages with
  | [] => (b, Ok tt)
  | message :: messages =>
      match validate_blocks b (msg_content message) with
      | (b, Ok _) => validate_messages b messages
      | (b, Err e) => (b, Err e)
      end
  end.

Definition validate_record (record : SessionRecord) (limits : EngineLimits) : result unit TurnFailure :=
  let '(budget, r) := validate_roots (JsonValidationBudget_new limits) (bt_values (rec_metadata record)) in
  let? _ := map_err json_limit_failure r in
  let? _ := map_err json_limit_failure (snd (validate_messages budget (rec_messages record))) in
  let? _ := validate_transcript (rec_messages record) limits in
  let? _ := size_or (rec_metadata record) (nz_get (max_session_metadata_bytes limits))
    (fun _ => TurnFailure_protocol "session_metadata_serialization"
       "session metadata could not be serialized")
    (TurnFailure_limit "session_metadata_size_limit"
       "session metadata exceeded the configured serialized byte limit") in
  Ok tt.

Definition validate_record_limits (record : SessionRecord) (limits : EngineLimits) : result unit EngineError :=
  map_err (fun failure => Engine_Protocol (tf_message failure)) (validate_record record limits).

Definition validate_inference_options (options : InferenceOptions) (limits : EngineLimits)
    : result unit TurnFailure :=
  let? _ := map_err json_limit_failure
    (snd (validate_roots (JsonValidationBudget_new limits) (bt_values (opt_metadata options)))) in
  let? _ := size_or options (nz_get (max_inference_options_bytes limits))
    (fun _ => TurnFailure_protocol "inference_options_serialization"
       "inference options could not be serialized")
    (TurnFailure_limit "inference_options_size_limit"
       "inference options exceeded the configured serialized byte limit") in
  Ok tt.
End Checks.

(** ** Stops, usage and bounded text *)
Definition validate_round_stop (calls : list ToolCall) (stop_reason : StopReason) : result unit WorkflowAbort :=
  fail_if bool_decide (calls = []) && bool_decide (stop_reason = Stop_ToolCalls)
    with AbortFailed (TurnFailure_protocol "tool_stop_without_calls"
      "tool-calls stop requires at least one tool call") in
  fail_if negb (bool_decide (calls = [])) && negb (bool_decide (stop_reason = Stop_ToolCalls))
    with AbortFailed (TurnFailure_protocol "calls_with_incompatible_stop"
      "tool calls require a tool-calls stop reason") in
  Ok tt.

Definition validate_stop_reason (reason : StopReason) (limits : EngineLimits) : result unit WorkflowAbort :=
  match reason with
  | Stop_Other detail =>
      fail_if (nz_get (max_stop_detail_bytes limits) <? str_len detail)%N
        with AbortFailed (TurnFailure_limit "stop_detail_size_limit"
          "provider stop detail exceeded the configured byte limit") in
      Ok tt
  | _ => Ok tt
  end.

Definition checked_usage_add (total round : TokenUsage) : result TokenUsage WorkflowAbort :=
  let add f message := ok_or (AbortFailed (TurnFailure_protocol "usage_overflow" message))
                         (checked_add (f total) (f round)) in
  let? input := add input_tokens "input token usage overflowed" in
  let? output := add output_tokens "output token usage overflowed" in
  let? cached := add cached_input_tokens "cached input token usage overflowed" in
  Ok {| input_tokens := input; output_tokens := output; cached_input_tokens := cached |}.

(** [str::is_char_boundary]: the ends of the text, and any byte that does not
    continue a UTF-8 sequence. *)
Definition continuation_byte (c : ascii) : bool := (128 <=? N_of_ascii c)%N && (N_of_ascii c <? 192)%N.

Definition is_char_boundary (text : string) (index : nat) : bool :=
  bool_decide (index = 0) || bool_decide (index = String.length text) ||
  match String.get index text with Some c => negb (continuation_byte c) | None => false end.

(** [while !text.is_char_boundary(end) { end -= 1; }] *)
Fixpoint floor_boundary (text : string) (index : nat) : nat :=
  if is_char_boundary text index then index
  else match index with O => O | S index => floor_boundary text index end.

Definition bounded_text (text : string) (max_bytes : N) : string :=
  if (str_len text <=? max_bytes)%N then text
  else String.substring 0 (floor_boundary text (N.to_nat max_bytes)) text.

(** ** What the checks admit *)
(** The JSON values of a content block and of a record, in validation order. *)
Definition block_json (block : ContentBlock) : list Value :=
  match block with
  | ContentJson value => [value]
  | ContentToolCall call => [call_arguments call]
  | ContentToolResult _ output => [output_content output]
  | ContentText _ => []
  end.

Definition messages_json (messages : list Message) : list Value :=
  flat_map (fun m => flat_map block_json (msg_content m)) messages.

Definition record_json (record : SessionRecord) : list Value :=
  bt_values (rec_metadata record) ++ messages_json (rec_messages record).

(** [NonZeroUsize] limits. *)
Definition limits_wf (limits : EngineLimits) : Prop :=
  (nz_get (max_json_nodes limits) <= USIZE_MAX)%N /\ (nz_get (max_json_depth limits) <= USIZE_MAX)%N.

Definition json_within (values : list Value) (limits : EngineLimits) : Prop :=
  (sum_by node_count values <= nz_get (max_json_nodes limits))%N /\
  Forall (fun v => container_height v <= nz_get (max_json_depth limits))%N values.

(** The serialized value fits the address space, and a limit. *)
Definition in_memory `{JsonWriter} {T} `{ToSer T} (value : T) : Prop :=
  (chunk_bytes (chunks (serialize value)) <= USIZE_MAX)%N.
Definition serializes_within `{JsonWriter} {T} `{ToSer T} (value : T) (limit : N) : Prop :=
  (chunk_bytes (chunks (serialize value)) <= limit)%N /\ ser_error (serialize value) = None.

Lemma validate_roots_app (b : JsonValidationBudget) (l k : list Value) :
  validate_roots b (l ++ k) =
  match validate_roots b l with (b, Ok _) => validate_roots b k | (b, Err e) => (b, Err e) end.
Proof.
  revert b. induction l as [|v l IH]; intros b; simpl; [done|].
  by destruct (validate_value b v) as [? []].
Qed.

Lemma validate_blocks_roots (b : JsonValidationBudget) (blocks : list ContentBlock) :
  validate_blocks b blocks = validate_roots b (flat_map block_json blocks).
Proof.
  revert b. induction blocks as [|x l IH]; intros b; simpl; [done|].
  rewrite validate_roots_app. destruct x; simpl; [by rewrite IH|..];
    destruct (validate_value b _) as [? [[]|]]; by rewrite ?IH.
Qed.

Lemma validate_messages_roots (b : JsonValidationBudget) (messages : list Message) :
  validate_messages b messages = validate_roots b (messages_json messages).
Proof.
  revert b. induction messages as [|m l IH]; intros b; simpl; [done|].
  rewrite validate_roots_app, validate_blocks_roots.
  by destruct (validate_roots b _) as [? [[]|]].
Qed.

Lemma budget_new_wf (limits : EngineLimits) : limits_wf limits -> budget_wf (JsonValidationBudget_new limits).
Proof.
  intros [? ?]. unfold budget_wf, JsonValidationBudget_new. cbn [jb_nodes jb_max_nodes jb_max_container_depth].
  split_and!; [lia|assumption..].
Qed.

Lemma validate_json_roots_ok (roots : list Value) (limits : EngineLimits) :
  limits_wf limits -> validate_json_roots roots limits = Ok tt <-> json_within roots limits.
Proof.
  intros Hl. unfold validate_json_roots, json_within.
  rewrite <-(validate_roots_ok roots (JsonValidationBudget_new limits)).
  - destruct (snd _) as [[]|]; simpl; naive_solver.
  - apply budget_new_wf, Hl.
Qed.

Lemma validate_json_value_ok (v : Value) (limits : EngineLimits) :
  limits_wf limits -> validate_json_value v limits = Ok tt <-> json_within [v] limits.
Proof.
  intros Hl. rewrite <-validate_json_roots_ok by done. unfold validate_json_value.
  destruct (validate_json_roots _ _) as [[]|]; naive_solver.
Qed.

Section Exact.
Context `{JsonWriter}.

Lemma size_or_ok {T} `{ToSer T} (value : T) (limit : N) failed exceeded (n : N) :
  in_memory value ->
  size_or value limit failed exceeded = Ok n <->
  serializes_within value limit /\ n = chunk_bytes (chunks (serialize value)).
Proof.
  intros Hm. unfold size_or, serializes_within.
  rewrite (serialized_size_closed value limit Hm).
  destruct (N.ltb_spec limit (chunk_bytes (chunks (serialize value)))).
  - split; [done|]. intros [[? _] _]. lia.
  - destruct (ser_error (serialize value)); naive_solver lia.
Qed.

Lemma size_or_is_ok {T} `{ToSer T} (value : T) (limit : N) failed exceeded :
  in_memory value ->
  (exists n, size_or value limit failed exceeded = Ok n) <-> serializes_within value limit.
Proof. intros Hm. setoid_rewrite size_or_ok; [|done..]. naive_solver. Qed.

Lemma validate_transcript_ok (messages : list Message) (limits : EngineLimits) :
  in_memory messages ->
  validate_transcript messages limits = Ok tt <->
  (vec_len messages <= nz_get (max_transcript_messages limits))%N /\
  serializes_within messages (nz_get (max_transcript_bytes limits)).
Proof.
  intros Hm. unfold validate_transcript. destruct (N.ltb_spec (nz_get (max_transcript_messages limits)) (vec_len messages)).
  - split; [done|lia].
  - rewrite <-(size_or_is_ok messages) by done.
    split; [intros ?; simpl_result; eauto|]. intros [? [n ->]]. done.
Qed.

Lemma validate_record_json (record : SessionRecord) (limits : EngineLimits) :
  validate_record record limits =
  (let? _ := map_err json_limit_failure (validate_json_roots (record_json record) limits) in
   let? _ := validate_transcript (rec_messages record) limits in
   let? _ := size_or (rec_metadata record) (nz_get (max_session_metadata_bytes limits))
    (fun _ => TurnFailure_protocol "session_metadata_serialization"
       "session metadata could not be serialized")
    (TurnFailure_limit "session_metadata_size_limit"
       "session metadata exceeded the configured serialized byte limit") in
  Ok tt).
Proof.
  unfold validate_record, validate_json_roots, record_json. rewrite validate_roots_app.
  destruct (validate_roots _ _) as [b [[]|]]; simpl; [|done].
  by rewrite validate_messages_roots.
Qed.
End Exact.

(** ** Properties *)
(** Admission of a session record is exact: a record is admitted precisely when
    the nodes of all its JSON values together, the nesting of each, the number
    of messages, and the serialized transcript and metadata all fit the limits. *)
Theorem validate_record_exact `{JsonWriter} (record : SessionRecord) (limits : EngineLimits) :
  limits_wf limits -> in_memory (rec_messages record) -> in_memory (rec_metadata record) ->
  validate_record record limits = Ok tt <->
  json_within (record_json record) limits /\
  (vec_len (rec_messages record) <= nz_get (max_transcript_messages limits))%N /\
  serializes_within (rec_messages record) (nz_get (max_transcript_bytes limits)) /\
  serializes_within (rec_metadata record) (nz_get (max_session_metadata_bytes limits)).
Proof.
  intros Hl Hm Hd. rewrite validate_record_json, <-validate_json_roots_ok by done.
  rewrite (and_assoc (_ <= _)%N), <-validate_transcript_ok by done.
  rewrite <-(size_or_is_ok (rec_metadata record)) by done. split.
  - intros ?. simpl_result. destruct a, a0. eauto.
  - intros (-> & -> & n & ->). done.
Qed.

(** A small writer used by the concrete instances: every leaf and every bracket
    is one chunk. *)
Fixpoint brief_chunks (s : Ser) : list string :=
  match s with
  | Ser_str s => [s]
  | Ser_bool _ | Ser_u64 _ | Ser_i64 _ | Ser_f32 _ | Ser_none | Ser_value _ => ["0"]
  | Ser_seq l => "[" :: flat_map brief_chunks l ++ ["]"]
  | Ser_fields l => "{" :: flat_map (fun e => e.1 :: brief_chunks e.2) l ++ ["}"]
  end.
Definition brief_writer : JsonWriter := fun s => {| chunks := brief_chunks s; ser_error := None |}.

Lemma validate_record_exact_witness :
  @validate_record brief_writer
    (with_messages (SessionRecord_empty "s" "i") [Message_text Role_User "hello"]) EngineLimits_default = Ok tt.
Proof.
  apply (@validate_record_exact brief_writer); [split; vm_compute; discriminate|vm_compute; discriminate..|].
  split; [split; [vm_compute; discriminate|constructor]|].
  repeat split; vm_compute; discriminate.
Defined.

(** Admitted tool arguments: the check returns the exact serialized size and the
    exact node count of the arguments, and only when both, and the nesting, fit. *)
Theorem validate_tool_arguments_exact `{JsonWriter} (arguments : Value) (limits : EngineLimits) (bytes nodes : N) :
  limits_wf limits -> in_memory arguments ->
  validate_tool_arguments arguments limits = Ok (bytes, nodes) <->
  json_within [arguments] limits /\
  serializes_within arguments (nz_get (max_tool_argument_bytes limits)) /\
  bytes = chunk_bytes (chunks (serialize arguments)) /\ nodes = node_count arguments.
Proof.
  intros Hl Hm. unfold validate_tool_arguments, json_within.
  rewrite validate_value_check.
  pose proof (check_value_verdict arguments 0 _ (budget_new_wf _ Hl)) as Hv.
  destruct (check_value _ _ _) as [b [[]|[]]]; simpl in Hv |- *; rewrite N.add_0_l in Hv.
  - destruct Hv as (-> & ? & ?). rewrite Forall_singleton. split.
    + intros ?. simpl_result. apply size_or_ok in E as [? ->]; [|done]. simpl. split_and!; try done; lia.
    + intros (_ & Hs & -> & ->). erewrite (proj2 (size_or_ok _ _ _ _ _ Hm)); [done|by split].
  - split; [done|]. rewrite Forall_singleton. intros [[_ ?] _]. lia.
  - split; [done|]. intros [[? _] _]. lia.
Qed.

Lemma validate_tool_arguments_exact_witness :
  @validate_tool_arguments brief_writer (VArray [VNull; VBool true]) EngineLimits_default = Ok (1, 3)%N.
Proof.
  apply (@validate_tool_arguments_exact brief_writer); [split; vm_compute; discriminate|vm_compute; discriminate|].
  split; [split; [vm_compute; discriminate|repeat constructor; vm_compute; discriminate]|].
  repeat split; vm_compute; discriminate.
Defined.

(** ** Truncation of text *)
(** A UTF-8 text is a sequence of characters, each a byte that starts a sequence
    followed by the bytes that continue it. *)
Definition utf8_char (s : string) : bool :=
  match s with
  | EmptyString => false
  | String c s => negb (continuation_byte c) && bytes_all continuation_byte s
  end.

Definition text_of (chars : list string) : string := foldr String.app "" chars.

Lemma str_get_app (s t : string) (i : nat) :
  String.get (String.length s + i) (s +:+ t) = String.get i t.
Proof. by induction s. Qed.

Lemma str_get_app_l (s t : string) (i : nat) :
  (i < String.length s)%nat -> String.get i (s +:+ t) = String.get i s.
Proof.
  revert i. induction s as [|c s IH]; intros i Hi; simpl in *; [lia|].
  destruct i; [done|]. apply IH. lia.
Qed.

Lemma bytes_all_get (p : ascii -> bool) (s : string) (i : nat) :
  bytes_all p s = true -> (i < String.length s)%nat -> exists c, String.get i s = Some c /\ p c = true.
Proof.
  revert i. induction s as [|c s IH]; intros i; simpl; [lia|].
  intros [Hc Hs]%andb_true_iff Hi. destruct i; [eauto|]. apply IH; [done|lia].
Qed.

Lemma utf8_char_inside (c t : string) (i : nat) :
  utf8_char c = true -> (0 < i < String.length c)%nat -> is_char_boundary (c +:+ t) i = false.
Proof.
  intros Hc [H0 Hi]. unfold is_char_boundary. rewrite string_length_app.
  rewrite !bool_decide_eq_false_2 by lia. simpl. rewrite str_get_app_l by done.
  destruct c as [|a c]; [done|]. simpl in Hc, Hi. apply andb_true_iff in Hc as [_ Hc].
  destruct i as [|i]; [lia|]. simpl.
  destruct (bytes_all_get _ c i Hc) as (b & -> & ->); [lia|done].
Qed.

Lemma boundary_app (c : string) (chars : list string) (i : nat) :
  Forall (fun c => utf8_char c = true) chars ->
  is_char_boundary (c +:+ text_of chars) (String.length c + i) = true <->
  is_char_boundary (text_of chars) i = true.
Proof.
  intros Hc. unfold is_char_boundary. rewrite string_length_app, str_get_app, !orb_true_iff, !bool_decide_eq_true.
  destruct i as [|i]; [|by intuition lia]. split; [by auto|]. intros _.
  destruct Hc as [|d chars Hd _]; [left; right; simpl; lia|].
  destruct d as [|a d]; [done|]. simpl in *. apply andb_true_iff in Hd as [Hd _]. by right.
Qed.

(** The floor of an index in a text that starts with a whole character. *)
Lemma floor_boundary_inside (c : string) (t : string) (i : nat) :
  utf8_char c = true -> (i < String.length c)%nat -> floor_boundary (c +:+ t) i = 0.
Proof.
  intros Hc. induction i as [|i IH]; intros Hi; simpl; [done|].
  rewrite utf8_char_inside by (done || lia). apply IH. lia.
Qed.

Lemma floor_boundary_app (c : string) (chars : list string) (i : nat) :
  Forall (fun c => utf8_char c = true) chars ->
  (i < String.length (text_of chars))%nat ->
  floor_boundary (c +:+ text_of chars) (String.length c + i) =
  String.length c + floor_boundary (text_of chars) i.
Proof.
  intros Hc Hi. induction i as [|i IH].
  - assert (is_char_boundary (c +:+ text_of chars) (String.length c + 0) = true) as Hb
      by (rewrite boundary_app; done).
    rewrite Nat.add_0_r in *. simpl. destruct (String.length c) as [|n] eqn:En; [done|].
    simpl floor_boundary. by rewrite Hb.
  - pose proof (boundary_app c chars (S i) Hc) as Hb. rewrite Nat.add_succ_r in *. simpl.
    destruct (is_char_boundary (text_of chars) (S i)).
    + by rewrite (proj2 Hb).
    + destruct (is_char_boundary (c +:+ _) _); [by discriminate (proj1 Hb eq_refl)|]. rewrite IH by lia. done.
Qed.

Lemma substring_app (c t : string) (n : nat) :
  String.substring 0 (String.length c + n) (c +:+ t) = c +:+ String.substring 0 n t.
Proof. induction c as [|a c IH]; simpl; [done|]. by rewrite IH. Qed.

(** The leading characters that fit [n] bytes. *)
Fixpoint fitting (chars : list string) (n : nat) : list string :=
  match chars with
  | [] => []
  | c :: chars => if (String.length c <=? n)%nat then c :: fitting chars (n - String.length c) else []
  end.

Lemma floor_boundary_fitting (chars : list string) (n : nat) :
  Forall (fun c => utf8_char c = true) chars -> (n < String.length (text_of chars))%nat ->
  String.substring 0 (floor_boundary (text_of chars) n) (text_of chars) = text_of (fitting chars n).
Proof.
  intros Hc. revert n. induction Hc as [|c chars Hc Hl IH]; intros n Hn; simpl in *; [lia|].
  rewrite string_length_app in Hn. destruct (Nat.leb_spec (String.length c) n) as [Hle|Hlt].
  - replace n with (String.length c + (n - String.length c)) at 1 by lia.
    rewrite floor_boundary_app by (done || lia). rewrite substring_app, IH by lia. done.
  - rewrite floor_boundary_inside by done. by destruct (c +:+ text_of chars).
Qed.

(** A denial reason is truncated to the longest sequence of its leading whole
    characters that fits the byte limit; a text that fits is unchanged. *)
Theorem bounded_text_whole_characters (chars : list string) (max_bytes : N) :
  Forall (fun c => utf8_char c = true) chars ->
  bounded_text (text_of chars) max_bytes =
  if (str_len (text_of chars) <=? max_bytes)%N then text_of chars
  else text_of (fitting chars (N.to_nat max_bytes)).
Proof.
  intros Hc. unfold bounded_text. destruct (N.leb_spec (str_len (text_of chars)) max_bytes); [done|].
  apply floor_boundary_fitting; [done|]. unfold str_len in *. lia.
Qed.

Lemma bounded_text_whole_characters_witness :
  let e := String (ascii_of_N 195) (String (ascii_of_N 169) "") in
  bounded_text (text_of ["a"; e; e]) 4 = text_of ["a"; e].
Proof.
  intros e. rewrite bounded_text_whole_characters by (repeat constructor). vm_compute. reflexivity.
Defined.
