(* ===== verification/PermissionId.v ===== *)
(** * Permission-request identifiers ([session.rs], [permission_request_id])

    The identifier is the hexadecimal SHA-256 digest of a length-prefixed
    encoding of the session, its incarnation, the turn and the call ordinal. The
    hash is code of another package and a parameter here. *)
From S2P Require Import Prelude Ids Json Model Limits.

(** [u64::to_be_bytes] *)
Fixpoint be_bytes (n : nat) (x : N) : string :=
  match n with
  | O => ""
  | S n => be_bytes n (x / 256) +:+ String (ascii_of_N (x mod 256)) ""
  end.
Definition to_be_bytes (x : N) : string := be_bytes 8 x.

Definition HEX (n : N) : ascii :=
  match String.get (N.to_nat n) "0123456789abcdef" with Some c => c | None => "0"%char end.

Fixpoint hex (digest : string) : string :=
  match digest with
  | EmptyString => ""
  | String b digest =>
      String (HEX (N.shiftr (N_of_ascii b) 4)) (String (HEX (N.land (N_of_ascii b) 15)) (hex digest))
  end.

(** One component: its length as eight bytes, and its bytes. *)
Definition hash_component (component : string) : result string WorkflowAbort :=
  fail_if (U64_MAX <? str_len component)%N
    with AbortFailed (TurnFailure_protocol "permission_id" "permission identity length overflowed") in
  Ok (to_be_bytes (str_len component) +:+ component).

Definition permission_domain : string := "machine-god:permission-request:v2" +:+ String (ascii_of_N 0) "".

Definition permission_preimage (session_id : SessionId) (incarnation_id : SessionIncarnationId) (turn_id : TurnId)
    (ordinal : N) : result string WorkflowAbort :=
  let? session := hash_component session_id in
  let? incarnation := hash_component incarnation_id in
  let? turn := hash_component turn_id in
  fail_if (U64_MAX <? ordinal)%N
    with AbortFailed (TurnFailure_protocol "permission_id" "permission ordinal overflowed") in
  Ok (permission_domain +:+ session +:+ incarnation +:+ turn +:+ to_be_bytes ordinal).

Section Digest.
Context (sha256 : string -> string).

Definition permission_request_id (session_id : SessionId) (incarnation_id : SessionIncarnationId) (turn_id : TurnId)
    (ordinal : N) : result PermissionRequestId WorkflowAbort :=
  let? preimage := permission_preimage session_id incarnation_id turn_id ordinal in
  map_err (fun e => AbortFailed (TurnFailure_protocol "permission_id" (invalid_id_display e)))
    (identifier_new PermissionRequestId_kind ("permission-sha256-" +:+ hex (sha256 preimage))).
End Digest.

(** ** Encoding *)
Lemma str_app_assoc (s t u : string) : (s +:+ t) +:+ u = s +:+ t +:+ u.
Proof. induction s as [|c s IH]; [done|]. apply (f_equal (String c)), IH. Qed.

Lemma be_bytes_length n x : String.length (be_bytes n x) = n.
Proof. revert x. induction n as [|n IH]; intros x; simpl; [done|]. rewrite string_length_app, IH. simpl. lia. Qed.

Lemma be_bytes_inj n : forall x y, (x < 256 ^ N.of_nat n)%N -> (y < 256 ^ N.of_nat n)%N ->
  be_bytes n x = be_bytes n y -> x = y.
Proof.
  induction n as [|n IH]; intros x y Hx Hy E; simpl in E.
  { change (256 ^ N.of_nat 0)%N with 1%N in *. lia. }
  rewrite Nat2N.inj_succ, N.pow_succ_r in Hx, Hy by lia.
  apply string_app_inj_length in E as [E1 E2]; [|by rewrite !be_bytes_length].
  apply IH in E1; [|by apply N.Div0.div_lt_upper_bound..]. injection E2 as E2.
  apply (f_equal N_of_ascii) in E2. rewrite !N_ascii_embedding in E2 by (by apply N.mod_lt).
  rewrite (N.div_mod x 256), (N.div_mod y 256) by done. lia.
Qed.

Lemma to_be_bytes_inj x y : (x <= U64_MAX)%N -> (y <= U64_MAX)%N -> to_be_bytes x = to_be_bytes y -> x = y.
Proof.
  intros Hx Hy. apply be_bytes_inj; change (256 ^ N.of_nat 8)%N with (U64_MAX + 1)%N; lia.
Qed.

(** A component and what follows it can be read back. *)
Lemma hash_component_inj a b c d (s t : string) :
  hash_component a = Ok c -> hash_component b = Ok d -> c +:+ s = d +:+ t -> a = b /\ s = t.
Proof.
  unfold hash_component. intros Hc Hd Ha. simpl_result. bool_to_prop.
  rewrite !str_app_assoc in Ha. apply string_app_inj_length in Ha as [Hl Ha]; [|by unfold to_be_bytes; rewrite !be_bytes_length].
  apply to_be_bytes_inj in Hl; [|done..]. apply string_app_inj_length in Ha; [done|]. unfold str_len in Hl. lia.
Qed.

Lemma permission_preimage_inj s1 i1 t1 o1 s2 i2 t2 o2 p :
  permission_preimage s1 i1 t1 o1 = Ok p -> permission_preimage s2 i2 t2 o2 = Ok p ->
  s1 = s2 /\ i1 = i2 /\ t1 = t2 /\ o1 = o2.
Proof.
  unfold permission_preimage. intros H1 H2. simpl_result. bool_to_prop.
  match goal with H : _ +:+ _ = _ +:+ _ |- _ => rename H into Hp end.
  apply string_app_inj_length in Hp as [_ Hp]; [|done].
  destruct (hash_component_inj _ _ _ _ _ _ E2 E Hp) as [-> Hp1].
  destruct (hash_component_inj _ _ _ _ _ _ E3 E0 Hp1) as [-> Hp2].
  destruct (hash_component_inj _ _ _ _ _ _ E4 E1 Hp2) as [-> Hp3].
  by apply to_be_bytes_inj in Hp3 as ->.
Qed.

Lemma hex_length digest : String.length (hex digest) = 2 * String.length digest.
Proof. induction digest as [|b d IH]; simpl; [done|]. rewrite IH. lia. Qed.

(** The sixteen digits. *)
Definition nibbles : list N := N.of_nat <$> seq 0 16.

Lemma nibble_in n : (n < 16)%N -> In n nibbles.
Proof.
  intros Hn. apply list_elem_of_In, list_elem_of_fmap. exists (N.to_nat n). split; [lia|]. apply elem_of_seq. lia.
Qed.

Lemma HEX_inj n m : (n < 16)%N -> (m < 16)%N -> HEX n = HEX m -> n = m.
Proof.
  intros Hn%nibble_in Hm%nibble_in E.
  assert (forallb (fun k => forallb (fun j => negb (bool_decide (HEX k = HEX j)) || (k =? j)%N) nibbles) nibbles = true)
    as Hall by by vm_compute.
  rewrite forallb_forall in Hall. specialize (Hall n Hn). rewrite forallb_forall in Hall. specialize (Hall m Hm).
  rewrite bool_decide_true in Hall by done. by apply N.eqb_eq.
Qed.

Lemma HEX_id_byte n : (n < 16)%N -> id_byte (HEX n) = true.
Proof.
  intros Hn%nibble_in. assert (forallb (fun k => id_byte (HEX k)) nibbles = true) as Hall by by vm_compute.
  rewrite forallb_forall in Hall. by apply Hall.
Qed.

Lemma nibbles_inj a b :
  N.shiftr (N_of_ascii a) 4 = N.shiftr (N_of_ascii b) 4 -> N.land (N_of_ascii a) 15 = N.land (N_of_ascii b) 15 -> a = b.
Proof.
  intros H1 H2. change 15%N with (N.ones 4) in H2. rewrite !N.land_ones in H2. rewrite !N.shiftr_div_pow2 in H1.
  rewrite <-(ascii_N_embedding a), <-(ascii_N_embedding b). f_equal.
  rewrite (N.div_mod (N_of_ascii a) (2 ^ 4)), (N.div_mod (N_of_ascii b) (2 ^ 4)) by done. by rewrite H1, H2.
Qed.

Lemma nibble_bounds a : (N.shiftr (N_of_ascii a) 4 < 16)%N /\ (N.land (N_of_ascii a) 15 < 16)%N.
Proof.
  rewrite N.shiftr_div_pow2. change 15%N with (N.ones 4). rewrite N.land_ones. split.
  - apply N.Div0.div_lt_upper_bound. apply N_ascii_bounded.
  - by apply N.mod_lt.
Qed.

Lemma hex_inj d1 d2 : hex d1 = hex d2 -> d1 = d2.
Proof.
  revert d2. induction d1 as [|a d1 IH]; intros [|b d2] E; simpl in E; try done. injection E as E1 E2 E3.
  destruct (nibble_bounds a) as [? ?], (nibble_bounds b) as [? ?].
  apply HEX_inj in E1; [|done..]. apply HEX_inj in E2; [|done..]. f_equal; [by apply nibbles_inj|by apply IH].
Qed.

Lemma hex_id_bytes digest : bytes_all id_byte (hex digest) = true.
Proof.
  induction digest as [|b d IH]; cbn [hex bytes_all]; [done|]. destruct (nibble_bounds b) as [? ?].
  by rewrite !HEX_id_byte, IH by done.
Qed.

(** Permission identifiers name one call of one turn. Every call with an ordinal
    in range gets a valid identifier; two calls get the same identifier only if
    they are the same call of the same turn of the same session incarnation, or
    the hash maps two different preimages to one digest. *)
Theorem permission_request_id_names_call (sha256 : string -> string)
    (sha256_length : forall preimage, String.length (sha256 preimage) = 32)
    (s1 s2 : SessionId) (i1 i2 : SessionIncarnationId) (t1 t2 : TurnId) (o1 o2 : N) :
  valid_id s1 -> valid_id i1 -> valid_id t1 -> (o1 <= U64_MAX)%N ->
  exists id, permission_request_id sha256 s1 i1 t1 o1 = Ok id /\ valid_id id /\
    (permission_request_id sha256 s2 i2 t2 o2 = Ok id ->
     (s1 = s2 /\ i1 = i2 /\ t1 = t2 /\ o1 = o2) \/
     exists p1 p2, permission_preimage s1 i1 t1 o1 = Ok p1 /\ permission_preimage s2 i2 t2 o2 = Ok p2 /\
       p1 <> p2 /\ sha256 p1 = sha256 p2).
Proof.
  intros Hs Hi Ht Ho.
  assert (forall c, valid_id c -> exists b, hash_component c = Ok b) as Hc.
  { intros c (_ & Hl & _). unfold hash_component. destruct (N.ltb_spec U64_MAX (str_len c)) as [Hu|_]; [|by eauto].
    exfalso. assert (MAX_ID_BYTES < U64_MAX)%N by done. lia. }
  assert (exists p1, permission_preimage s1 i1 t1 o1 = Ok p1) as (p1 & Hp1).
  { unfold permission_preimage. destruct (Hc s1 Hs) as [? ->], (Hc i1 Hi) as [? ->], (Hc t1 Ht) as [? ->]. simpl.
    rewrite (proj2 (N.ltb_ge _ _)) by done. eauto. }
  set (id := "permission-sha256-" +:+ hex (sha256 p1)).
  assert (valid_id id) as Hid.
  { unfold id. split; [done|]. rewrite str_len_app, bytes_all_app, hex_id_bytes. split; [|done].
    unfold str_len at 2. rewrite hex_length, sha256_length. by vm_compute. }
  exists id. unfold permission_request_id. rewrite Hp1. cbn [rbind].
  rewrite (proj2 (identifier_new_ok _ _ id)) by done. split; [done|]. split; [done|].
  intros H2. destruct (permission_preimage s2 i2 t2 o2) as [p2|] eqn:Hp2; [|done]. cbn [rbind] in H2.
  destruct (identifier_new _ _) as [x|] eqn:Ex in H2; [|done]. apply identifier_new_ok in Ex as [-> _].
  injection H2 as H2. apply hex_inj in H2.
  destruct (decide (p1 = p2)) as [->|Hne]; [left; by eapply permission_preimage_inj|]. right. eauto 10.
Qed.

(** The witness hashes to the first 32 bytes of the preimage. *)
Definition prefix_digest (s : string) : string := String.substring 0 32 (s +:+ "01234567890123456789012345678901").

Lemma substring_length n s : n <= String.length s -> String.length (String.substring 0 n s) = n.
Proof. revert n. induction s as [|c s IH]; intros [|n] Hn; simpl in *; try lia. rewrite IH; lia. Qed.

Lemma prefix_digest_length p : String.length (prefix_digest p) = 32.
Proof. apply substring_length. rewrite string_length_app. simpl. lia. Qed.

Lemma permission_request_id_names_call_witness :
  exists id, permission_request_id prefix_digest "session" "incarnation" "turn-1" 1 = Ok id.
Proof.
  destruct (permission_request_id_names_call prefix_digest
    prefix_digest_length
    "session" "session" "incarnation" "incarnation" "turn-1" "turn-2" 1%N 1%N) as (id & Hid & _);
    [by repeat split..|done|by exists id].
Defined.
