(* ===== verification/Catalog.v ===== *)
(** * The tools of a turn ([session.rs], [TurnToolCatalog])

    The catalog of turn-local tools a turn builds on top of the engine's own. *)
From S2P Require Import Prelude Ids Json Model Limits.

Record TurnToolCatalog := {
  catalog_tools : list TurnToolRegistration;
  catalog_indexes : list (ToolName * N);
}.

Definition TurnToolCatalog_default : TurnToolCatalog := {| catalog_tools := []; catalog_indexes := [] |}.

(** [EngineInner::tool] *)
Definition engine_tool (engine : EngineInner) (name : ToolName) : option ToolRef :=
  registered_tool <$> bt_get (engine_tools engine) name.

Definition model_specs (self : TurnToolCatalog) (engine : EngineInner) : list ToolSpec :=
  tool_specs engine ++ map reg_spec (catalog_tools self).

(** [TurnToolCatalog::tool]; [None] is an index out of range. *)
Definition catalog_tool (self : TurnToolCatalog) (engine : EngineInner) (name : ToolName) : option (option ToolRef) :=
  match engine_tool engine name with
  | Some tool => Some (Some tool)
  | None =>
      match bt_get (catalog_indexes self) name with
      | Some index =>
          registration ← catalog_tools self !! N.to_nat index;
          Some (Some (reg_tool registration))
      | None => Some None
      end
  end.

(** [TurnToolCatalog::validate_registration]; [None] is an index out of range. *)
Definition validate_registration `{JsonWriter} (self : TurnToolCatalog) (engine : EngineInner)
    (registration : TurnToolRegistration) (limits : EngineLimits) : option (result bool TurnFailure) :=
  let spec := reg_spec registration in
  match engine_tool engine (spec_name spec) with
  | Some _ => Some (Err (TurnFailure_protocol "turn_tool_name_collision"
                          "turn-local tool duplicated a statically registered tool name"))
  | None =>
      match bt_get (catalog_indexes self) (spec_name spec) with
      | Some index =>
          existing ← catalog_tools self !! N.to_nat index;
          Some (if (reg_ptr existing =? reg_ptr registration)%N then Ok false
                else Err (TurnFailure_protocol "turn_tool_name_collision"
                  "turn-local tool name was registered by a different captured implementation"))
      | None =>
          let specs := tool_specs engine ++ map reg_spec (catalog_tools self) ++ [spec] in
          Some (
            let? _ := map_err json_limit_failure (validate_json_roots (map spec_input_schema specs) limits) in
            let? _ := size_or specs (nz_get (max_tool_catalog_bytes limits))
              (fun error => TurnFailure_protocol "turn_tool_catalog_serialization"
                 ("turn-local tool catalog could not be serialized: " +:+ error))
              (TurnFailure_limit "tool_catalog_size_limit"
                 "turn-local tool registration exceeded the configured catalog size limit") in
            Ok true)
      end
  end.

(** [TurnToolCatalog::insert]; [None] is the failed assertion. *)
Definition catalog_insert (self : TurnToolCatalog) (registration : TurnToolRegistration) : option TurnToolCatalog :=
  let name := spec_name (reg_spec registration) in
  match bt_get (catalog_indexes self) name with
  | Some _ => None
  | None =>
      Some {| catalog_tools := catalog_tools self ++ [registration];
              catalog_indexes := bt_insert (catalog_indexes self) name (vec_len (catalog_tools self)) |}
  end.

(** ** The catalog invariant *)
(** The index names exactly the registrations, by the names of their specs, and
    none of them hides a tool of the engine. *)
Record catalog_wf (engine : EngineInner) (c : TurnToolCatalog) : Prop := {
  cat_index : forall name index, bt_get (catalog_indexes c) name = Some index ->
    exists registration, catalog_tools c !! N.to_nat index = Some registration /\
      spec_name (reg_spec registration) = name;
  cat_complete : forall i registration, catalog_tools c !! i = Some registration ->
    bt_get (catalog_indexes c) (spec_name (reg_spec registration)) = Some (N.of_nat i);
  cat_disjoint : forall registration, registration ∈ catalog_tools c ->
    engine_tool engine (spec_name (reg_spec registration)) = None;
}.

Lemma catalog_default_wf engine : catalog_wf engine TurnToolCatalog_default.
Proof. constructor; [done|by intros [|]|by intros ? ?%elem_of_nil]. Qed.

(** Lookups never leave the catalog, and find the tool of the engine or the one
    registration with the name. *)
Lemma catalog_tool_total engine c name :
  catalog_wf engine c -> exists t, catalog_tool c engine name = Some t.
Proof.
  intros Hc. unfold catalog_tool. destruct (engine_tool engine name); [eauto|].
  destruct (bt_get (catalog_indexes c) name) as [i|] eqn:E; [|eauto].
  destruct (cat_index _ _ Hc _ _ E) as (reg & -> & _). simpl. eauto.
Qed.

Lemma validate_registration_total `{JsonWriter} engine c reg limits :
  catalog_wf engine c -> exists r, validate_registration c engine reg limits = Some r.
Proof.
  intros Hc. unfold validate_registration. destruct (engine_tool engine _); [eauto|].
  destruct (bt_get (catalog_indexes c) _) as [i|] eqn:E; [|eauto].
  destruct (cat_index _ _ Hc _ _ E) as (r & -> & _). simpl. eauto.
Qed.

(** What validation admits can be inserted, and keeps the catalog consistent. *)
Lemma validated_insert `{JsonWriter} engine c reg limits :
  catalog_wf engine c -> validate_registration c engine reg limits = Some (Ok true) ->
  exists c', catalog_insert c reg = Some c' /\ catalog_wf engine c' /\
    catalog_tools c' = catalog_tools c ++ [reg].
Proof.
  intros Hc Hv. unfold validate_registration in Hv.
  destruct (engine_tool engine _) eqn:Ee; [done|].
  destruct (bt_get (catalog_indexes c) (spec_name (reg_spec reg))) as [i|] eqn:E.
  { destruct (cat_index _ _ Hc _ _ E) as (r & Er & _). rewrite Er in Hv. simpl in Hv.
    destruct (_ =? _)%N; by simplify_eq. }
  clear Hv. unfold catalog_insert. rewrite E. eexists. split; [done|]. split; [|done].
  constructor; simpl.
  - intros name index. rewrite bt_get_insert. case_bool_decide as En.
    + intros [= <-]. exists reg. unfold vec_len. rewrite Nat2N.id. by rewrite lookup_app_r, Nat.sub_diag by lia.
    + intros Hi. destruct (cat_index _ _ Hc _ _ Hi) as (r & Hr & Hn). exists r. split; [|done].
      by apply lookup_app_l_Some.
  - intros i r [Hl|(Hlen & Hl)]%lookup_app_Some; rewrite bt_get_insert.
    + pose proof (cat_complete _ _ Hc _ _ Hl) as Hi. case_bool_decide as En; [|done]. congruence.
    + apply list_lookup_singleton_Some in Hl as [Hz ->]. rewrite bool_decide_true by done. unfold vec_len.
      f_equal. f_equal. lia.
  - intros r [Hr| ->%list_elem_of_singleton]%elem_of_app; [by apply Hc|done].
Qed.
