(* ===== verification/Prog.v ===== *)
(** * Asynchronous programs

    The engine's futures share state with other tasks, call host code, can be
    dropped whenever they are pending, and release what they own when they are.
    A [prog] is such a future: atomic actions on the shared state (a mutex
    section, one atomic operation), calls to code outside the engine, and the
    points where a poll returns [Pending], each with what dropping the future
    there does. [Yield] is pending once; [Wait] until the state lets it go on,
    and polls before that change nothing.

    [exec] runs a program while other tasks act between its steps; [run] is the
    same interpreter as a function of a schedule; [pool_step] interleaves several
    programs. [wp] is a rely/guarantee precondition, proved sound for all three. *)
From S2P Require Import Prelude.

Section Programs.
Context {St : Type} {Query : Type} {Ans : Query -> Type}.

Inductive prog (A : Type) : Type :=
| Ret (a : A)
| Panic
| Act (X : Type) (f : St -> X * St) (k : X -> prog A)
| Ask (q : Query) (k : Ans q -> prog A)
| Yield (on_drop : St -> St) (k : prog A)
| Wait (X : Type) (ready : St -> option (X * St)) (on_drop : St -> St) (k : X -> prog A).
Arguments Ret {A} a.
Arguments Panic {A}.
Arguments Act {A X} f k.
Arguments Ask {A} q k.
Arguments Yield {A} on_drop k.
Arguments Wait {A X} ready on_drop k.

Fixpoint bind {A B} (p : prog A) (c : A -> prog B) : prog B :=
  match p with
  | Ret a => c a
  | Panic => Panic
  | Act f k => Act f (fun x => bind (k x) c)
  | Ask q k => Ask q (fun x => bind (k x) c)
  | Yield d k => Yield d (bind k c)
  | Wait r d k => Wait r d (fun x => bind (k x) c)
  end.

(** A value whose destructor is [g] owned while [p] runs: it is dropped when [p]
    returns a result [keep] does not move it into, when [p] panics, and when the
    future is dropped. *)
Fixpoint guarded {A} (g : St -> St) (keep : A -> bool) (p : prog A) : prog A :=
  match p with
  | Ret a => if keep a then Ret a else Act (fun s => (tt, g s)) (fun _ => Ret a)
  | Panic => Act (fun s => (tt, g s)) (fun _ => Panic)
  | Act f k => Act f (fun x => guarded g keep (k x))
  | Ask q k => Ask q (fun x => guarded g keep (k x))
  | Yield d k => Yield (fun s => g (d s)) (guarded g keep k)
  | Wait r d k => Wait r (fun s => g (d s)) (fun x => guarded g keep (k x))
  end.

Definition act {X} (f : St -> X * St) : prog X := Act f Ret.
Definition ask (q : Query) : prog (Ans q) := Ask q Ret.
Definition modify (f : St -> St) : prog unit := act (fun s => (tt, f s)).
Definition get {X} (f : St -> X) : prog X := act (fun s => (f s, s)).
(** [Poll::Pending]; the awaited future owns nothing of the shared state. *)
Definition pending : prog unit := Yield id (Ret tt).

(** Early return of a [Result]. *)
Definition try {A B E} (p : prog (result A E)) (c : A -> prog (result B E)) : prog (result B E) :=
  bind p (fun r => match r with Ok a => c a | Err e => Ret (Err e) end).

(** ** Executions *)
(** What a task does to the shared state and to host code, newest first. *)
Inductive event :=
| EvAct (before after : St)
| EvAsk (at_state : St) (q : Query) (x : Ans q)
| EvDrop (before after : St).
Definition history := list event.

(** [Blocked] is a program left waiting where the run ends. *)
Inductive outcome (A : Type) := Returned (a : A) | Dropped | Panicked | Blocked.
Arguments Returned {A} a.
Arguments Dropped {A}.
Arguments Blocked {A}.
Arguments Panicked {A}.

(** [rely] is what other tasks may do; [admissible] which answers host code may
    give, from the state and the history of the task. *)
Inductive exec (rely : St -> St -> Prop) (admissible : history -> St -> forall q, Ans q -> Prop) {A}
    : prog A -> St -> history -> outcome A -> St -> history -> Prop :=
| exec_ret a s h : exec rely admissible (Ret a) s h (Returned a) s h
| exec_panic s h : exec rely admissible Panic s h Panicked s h
| exec_act X (f : St -> X * St) k s h o s' h' :
    exec rely admissible (k (fst (f s))) (snd (f s)) (EvAct s (snd (f s)) :: h) o s' h' ->
    exec rely admissible (Act f k) s h o s' h'
| exec_ask q k x s h o s' h' :
    admissible h s q x ->
    exec rely admissible (k x) s (EvAsk s q x :: h) o s' h' ->
    exec rely admissible (Ask q k) s h o s' h'
| exec_resume d k s h o s' h' :
    exec rely admissible k s h o s' h' -> exec rely admissible (Yield d k) s h o s' h'
| exec_drop d k s h :
    exec rely admissible (Yield d k) s h Dropped (d s) (EvDrop s (d s) :: h)
| exec_ready X (r : St -> option (X * St)) d k x s s1 h o s' h' :
    r s = Some (x, s1) -> exec rely admissible (k x) s1 (EvAct s s1 :: h) o s' h' ->
    exec rely admissible (Wait r d k) s h o s' h'
| exec_wait_drop X (r : St -> option (X * St)) d k s h :
    exec rely admissible (Wait r d k) s h Dropped (d s) (EvDrop s (d s) :: h)
| exec_blocked X (r : St -> option (X * St)) d k s h :
    r s = None -> exec rely admissible (Wait r d k) s h Blocked s h
| exec_env p s s1 h o s' h' :
    rely s s1 -> exec rely admissible p s1 h o s' h' -> exec rely admissible p s h o s' h'.

(** A dropped program ends with the drop. *)
Lemma exec_dropped rely admissible {A} (p : prog A) s h o s' h' :
  exec rely admissible p s h o s' h' -> o = Dropped -> exists b h1, h' = EvDrop b s' :: h1.
Proof. induction 1; intros E; try done; eauto. Qed.

(** A schedule: what other tasks do before each step, the answers, and the
    pending points at which the future is dropped. *)
Record schedule := {
  sch_env : nat -> St -> St;
  sch_answer : nat -> forall q, Ans q;
  sch_drop : nat -> bool;
}.

Fixpoint run (w : schedule) (n : nat) {A} (p : prog A) (s : St) (h : history)
    : outcome A * St * history :=
  let s := sch_env w n s in
  match p with
  | Ret a => (Returned a, s, h)
  | Panic => (Panicked, s, h)
  | Act f k => let '(x, s') := f s in run w (S n) (k x) s' (EvAct s s' :: h)
  | Ask q k => let x := sch_answer w n q in run w (S n) (k x) s (EvAsk s q x :: h)
  | Yield d k =>
      if sch_drop w n then (Dropped, d s, EvDrop s (d s) :: h) else run w (S n) k s h
  | Wait r d k =>
      if sch_drop w n then (Dropped, d s, EvDrop s (d s) :: h)
      else match r s with
           | Some (x, s') => run w (S n) (k x) s' (EvAct s s' :: h)
           | None => (Blocked, s, h)
           end
  end.

(** ** Rely/guarantee preconditions *)
Section Rely.
Context (rely : St -> St -> Prop).
Context (admissible : history -> St -> forall q, Ans q -> Prop).
(** The guarantee: every event the task adds to its history. *)
Context (allowed : event -> history -> Prop).

Fixpoint wp {A} (p : prog A) (post : outcome A -> St -> history -> Prop) (s : St) (h : history) : Prop :=
  match p with
  | Ret a => forall s', rely s s' -> post (Returned a) s' h
  | Panic => forall s', rely s s' -> post Panicked s' h
  | Act f k => forall s', rely s s' ->
      let e := EvAct s' (snd (f s')) in
      allowed e h /\ wp (k (fst (f s'))) post (snd (f s')) (e :: h)
  | Ask q k => forall s', rely s s' -> forall x, admissible h s' q x ->
      let e := EvAsk s' q x in allowed e h /\ wp (k x) post s' (e :: h)
  | Yield d k => forall s', rely s s' ->
      (let e := EvDrop s' (d s') in allowed e h /\ post Dropped (d s') (e :: h)) /\
      wp k post s' h
  | Wait r d k => forall s', rely s s' ->
      (let e := EvDrop s' (d s') in allowed e h /\ post Dropped (d s') (e :: h)) /\
      (r s' = None -> post Blocked s' h) /\
      (forall x s1, r s' = Some (x, s1) ->
         let e := EvAct s' s1 in allowed e h /\ wp (k x) post s1 (e :: h))
  end.

Context (rely_refl : forall s, rely s s) (rely_trans : forall s1 s2 s3, rely s1 s2 -> rely s2 s3 -> rely s1 s3).

(** Preconditions are stable under what other tasks do. *)
Lemma wp_stable {A} (p : prog A) post s s' h : rely s s' -> wp p post s h -> wp p post s' h.
Proof. destruct p; simpl; intros Hr H; intros; eapply H; eauto. Qed.

Lemma wp_mono {A} (p : prog A) (post post' : outcome A -> St -> history -> Prop) s h :
  (forall o s h, post o s h -> post' o s h) -> wp p post s h -> wp p post' s h.
Proof.
  intros Hp. revert s h. induction p as [a| |X f k IH|q k IH|d k IH|X r d k IH]; simpl; intros s h H s' Hr.
  - auto.
  - auto.
  - destruct (H s' Hr). auto.
  - intros x Hx. destruct (H s' Hr x Hx). auto.
  - destruct (H s' Hr) as [[? Hd] ?]. auto.
  - destruct (H s' Hr) as ([? Hd] & Hb & Hk). split_and!; [auto|auto|auto|].
    intros x s1 Hx. destruct (Hk x s1 Hx). auto.
Qed.

(** The postcondition of a prefix: a drop or a panic ends the whole program. *)
Definition sequel {A B} (c : A -> prog B) (post : outcome B -> St -> history -> Prop)
    (o : outcome A) (s : St) (h : history) : Prop :=
  match o with
  | Returned a => wp (c a) post s h
  | Dropped => post Dropped s h
  | Panicked => post Panicked s h
  | Blocked => post Blocked s h
  end.

Lemma wp_bind {A B} (p : prog A) (c : A -> prog B) post s h :
  wp p (sequel c post) s h -> wp (bind p c) post s h.
Proof.
  revert s h. induction p as [a| |X f k IH|q k IH|d k IH|X r d k IH]; simpl; intros s h H.
  - apply (H s (rely_refl s)).
  - done.
  - intros s' Hr. destruct (H s' Hr) as [? ?]. split; [done|]. by apply IH.
  - intros s' Hr x Hx. destruct (H s' Hr x Hx) as [? ?]. split; [done|]. by apply IH.
  - intros s' Hr. destruct (H s' Hr) as [? ?]. split; [done|]. by apply IH.
  - intros s' Hr. destruct (H s' Hr) as (Hd & Hb & Hk). split; [exact Hd|]. split; [exact Hb|].
    intros x s1 Hx. destruct (Hk x s1 Hx). auto.
Qed.

(** Sequencing is associative, as far as preconditions see. *)
Lemma wp_assoc {A B C} (p : prog A) (k : A -> prog B) (c : B -> prog C) post s h :
  wp (bind p (fun a => bind (k a) c)) post s h -> wp (bind (bind p k) c) post s h.
Proof.
  revert s h. induction p as [a| |X f g IH|q g IH|d g IH|X r d g IH]; simpl; intros s h H; [done|done|..].
  - intros s' Hr. destruct (H s' Hr). auto.
  - intros s' Hr x Hx. destruct (H s' Hr x Hx). auto.
  - intros s' Hr. destruct (H s' Hr). auto.
  - intros s' Hr. destruct (H s' Hr) as (Hd & Hb & Hk). split; [exact Hd|]. split; [exact Hb|].
    intros x s1 Hx. destruct (Hk x s1 Hx). auto.
Qed.

(** Renaming the result. *)
Definition map_outcome {A B} (f : A -> B) (o : outcome A) : outcome B :=
  match o with Returned a => Returned (f a) | Dropped => Dropped | Panicked => Panicked | Blocked => Blocked end.

Lemma wp_map {A B} (f : A -> B) (p : prog A) post s h :
  wp p (fun o => post (map_outcome f o)) s h -> wp (bind p (fun a => Ret (f a))) post s h.
Proof.
  revert s h. induction p as [a| |X g k IH|q k IH|d k IH|X r d k IH]; simpl; intros s h H; [done|done|..].
  - intros s' Hr. destruct (H s' Hr). auto.
  - intros s' Hr x Hx. destruct (H s' Hr x Hx). auto.
  - intros s' Hr. destruct (H s' Hr). auto.
  - intros s' Hr. destruct (H s' Hr) as (Hd & Hb & Hk). split; [exact Hd|]. split; [exact Hb|].
    intros x s1 Hx. destruct (Hk x s1 Hx). auto.
Qed.

(** Soundness for the interleaved execution of one task. *)
Theorem wp_exec {A} (p : prog A) post s h o s' h' :
  exec rely admissible p s h o s' h' -> wp p post s h -> post o s' h'.
Proof.
  induction 1; simpl; intros H'.
  - apply H', rely_refl.
  - apply H', rely_refl.
  - apply IHexec. by destruct (H' s (rely_refl s)).
  - apply IHexec. by destruct (H' s (rely_refl s) x H).
  - apply IHexec. by destruct (H' s (rely_refl s)).
  - by destruct (H' s (rely_refl s)) as [[_ Hd] _].
  - apply IHexec. destruct (H' s (rely_refl s)) as (_ & _ & Hk). by destruct (Hk x s1 H).
  - by destruct (H' s (rely_refl s)) as ([_ Hd] & _).
  - destruct (H' s (rely_refl s)) as (_ & Hb & _). by apply Hb.
  - apply IHexec. by eapply wp_stable.
Qed.

(** Every event of an execution was allowed when it happened. *)
Fixpoint all_allowed (h : history) : Prop :=
  match h with
  | [] => True
  | e :: h => allowed e h /\ all_allowed h
  end.

Theorem wp_exec_allowed {A} (p : prog A) post s h o s' h' :
  exec rely admissible p s h o s' h' -> wp p post s h -> all_allowed h -> all_allowed h'.
Proof.
  induction 1; simpl; intros H' Hh; try done.
  - apply IHexec; destruct (H' s (rely_refl s)); simpl; auto.
  - apply IHexec; destruct (H' s (rely_refl s) x H); simpl; auto.
  - apply IHexec; destruct (H' s (rely_refl s)); simpl; auto.
  - destruct (H' s (rely_refl s)) as [[? _] _]. auto.
  - destruct (H' s (rely_refl s)) as (_ & _ & Hk). destruct (Hk x s1 H). apply IHexec; simpl; auto.
  - destruct (H' s (rely_refl s)) as ([? _] & _). auto.
  - apply IHexec; [|done]. by eapply wp_stable.
Qed.
End Rely.

(** A schedule is one execution, for every rely its environment respects. *)
Lemma run_exec (w : schedule) (rely : St -> St -> Prop) admissible n {A} (p : prog A) s h :
  (forall n s, rely s (sch_env w n s)) ->
  (forall n h s q, admissible h s q (sch_answer w n q)) ->
  exec rely admissible p s h (fst (fst (run w n p s h))) (snd (fst (run w n p s h))) (snd (run w n p s h)).
Proof.
  intros He Ha. revert n s h. induction p as [a| |X f k IH|q k IH|d k IH|X r d k IH]; intros n s h; simpl;
    eapply exec_env; try apply (He n).
  - constructor.
  - constructor.
  - destruct (f _) as [x s1] eqn:E. eapply exec_act. rewrite E. simpl. apply IH.
  - eapply exec_ask; [apply Ha|]. apply IH.
  - destruct (sch_drop w n); simpl; [apply exec_drop|]. apply exec_resume, IH.
  - destruct (sch_drop w n); simpl; [apply exec_wait_drop|].
    destruct (r _) as [[x s1]|] eqn:E; [by eapply exec_ready, IH|by apply exec_blocked].
Qed.

(** A future is dropped only where the schedule drops it. *)
Lemma run_dropped (w : schedule) n {A} (p : prog A) s h :
  fst (fst (run w n p s h)) = Dropped -> exists n, sch_drop w n = true.
Proof.
  revert n s h. induction p as [a| |X f k IH|q k IH|d k IH|X r d k IH]; intros n s h; simpl; [done|done| | | |].
  - destruct (f _). apply IH.
  - apply IH.
  - destruct (sch_drop w n) eqn:E; [by eauto|]. apply IH.
  - destruct (sch_drop w n) eqn:E; [by eauto|]. destruct (r _) as [[x s1]|]; [apply IH|done].
Qed.

Lemma run_not_dropped (w : schedule) n {A} (p : prog A) s h :
  (forall n, sch_drop w n = false) -> fst (fst (run w n p s h)) <> Dropped.
Proof. intros Hd (m & Hm)%run_dropped. by rewrite Hd in Hm. Qed.

(** Two preconditions of one program, proved separately. *)
Lemma wp_combine rely admissible (al1 al2 al : event -> history -> Prop) {A} (p : prog A)
    (post1 post2 post : outcome A -> St -> history -> Prop) s h :
  (forall e h, al1 e h -> al2 e h -> al e h) ->
  (forall o s h, post1 o s h -> post2 o s h -> post o s h) ->
  wp rely admissible al1 p post1 s h -> wp rely admissible al2 p post2 s h -> wp rely admissible al p post s h.
Proof.
  intros Hal Hp. revert s h. induction p as [a| |X f k IH|q k IH|d k IH|X r d k IH]; simpl; intros s h H1 H2 s' Hr.
  - auto.
  - auto.
  - destruct (H1 s' Hr), (H2 s' Hr). auto.
  - intros x Hx. destruct (H1 s' Hr x Hx), (H2 s' Hr x Hx). auto.
  - destruct (H1 s' Hr) as [[??] ?], (H2 s' Hr) as [[??] ?]. auto.
  - destruct (H1 s' Hr) as ([??] & Hb1 & Hk1), (H2 s' Hr) as ([??] & Hb2 & Hk2). split_and!; [auto|auto|auto|].
    intros x s1 Hx. destruct (Hk1 x s1 Hx), (Hk2 x s1 Hx). auto.
Qed.

(** A precondition holds in a calmer environment, and after an earlier part of the
    history. *)
Lemma wp_embed (rely rely' : St -> St -> Prop) (admissible admissible' : history -> St -> forall q, Ans q -> Prop)
    (al al' : event -> history -> Prop) (h1 : history) {A} (p : prog A) post s h :
  (forall s s', rely' s s' -> rely s s') ->
  (forall l s q x, admissible' (l ++ h1) s q x -> admissible l s q x) ->
  (forall e l, al e l -> al' e (l ++ h1)) ->
  wp rely admissible al p post s h ->
  wp rely' admissible' al' p (fun o s' h' => exists l, h' = l ++ h1 /\ post o s' l) s (h ++ h1).
Proof.
  intros Hr Ha Hal. revert s h. induction p as [a| |X f k IH|q k IH|d k IH|X r d k IH]; simpl; intros s h H s' R.
  - eauto.
  - eauto.
  - destruct (H s' (Hr _ _ R)). split; [auto|]. by apply (IH _ _ (_ :: h)).
  - intros x Hx. destruct (H s' (Hr _ _ R) x (Ha _ _ _ _ Hx)). split; [auto|]. by apply (IH _ _ (_ :: h)).
  - destruct (H s' (Hr _ _ R)) as [[? ?] ?]. split; [split; [auto|by eexists (_ :: h)]|auto].
  - destruct (H s' (Hr _ _ R)) as ([? ?] & Hb & Hk). split; [split; [auto|by eexists (_ :: h)]|]. split; [eauto|].
    intros x s1 Hx. destruct (Hk x s1 Hx). split; [auto|]. by apply (IH _ _ (_ :: h)).
Qed.

(** An owned value: while it is held, dropping the future also drops it. *)
Definition drop_allowed (allowed : event -> history -> Prop) (g : St -> St) (e : event) (h : history) : Prop :=
  match e with
  | EvDrop before after => allowed (EvDrop before (g after)) h
  | _ => allowed e h
  end.

Definition guard_post (rely : St -> St -> Prop) (allowed : event -> history -> Prop) (g : St -> St) {A}
    (keep : A -> bool) (post : outcome A -> St -> history -> Prop) (o : outcome A) (s : St) (h : history) : Prop :=
  let release (o : outcome A) :=
    allowed (EvAct s (g s)) h /\ forall s', rely (g s) s' -> post o s' (EvAct s (g s) :: h) in
  match o with
  | Returned a => if keep a then post o s h else release o
  | Panicked => release o
  | Dropped => match h with
               | EvDrop before after :: h => post Dropped (g s) (EvDrop before (g after) :: h)
               | _ => False
               end
  | Blocked => post Blocked s h
  end.

Lemma wp_guarded rely admissible allowed (g : St -> St) {A} (keep : A -> bool) (p : prog A) post s h :
  wp rely admissible (drop_allowed allowed g) p (guard_post rely allowed g keep post) s h ->
  wp rely admissible allowed (guarded g keep p) post s h.
Proof.
  revert s h. induction p as [a| |X f k IH|q k IH|d k IH|X r d k IH]; simpl; intros s h H.
  - destruct (keep a); simpl; exact H.
  - exact H.
  - intros s' Hr. destruct (H s' Hr) as [? ?]. auto.
  - intros s' Hr x Hx. destruct (H s' Hr x Hx) as [? ?]. auto.
  - intros s' Hr. destruct (H s' Hr) as [[? ?] ?]. auto.
  - intros s' Hr. destruct (H s' Hr) as (Hd & Hb & Hk). split; [exact Hd|]. split; [exact Hb|].
    intros x s1 Hx. destruct (Hk x s1 Hx). auto.
Qed.

(** ** Pools of tasks *)
Inductive thread (A : Type) := Live (p : prog A) | Gone.
Arguments Live {A} p.
Arguments Gone {A}.

(** One step of a task, with its new history. *)
Inductive thread_step (admissible : history -> St -> forall q, Ans q -> Prop) {A}
    : prog A -> St -> history -> thread A -> St -> history -> Prop :=
| step_act X (f : St -> X * St) k s h :
    thread_step admissible (Act f k) s h (Live (k (fst (f s)))) (snd (f s)) (EvAct s (snd (f s)) :: h)
| step_ask q k x s h :
    admissible h s q x ->
    thread_step admissible (Ask q k) s h (Live (k x)) s (EvAsk s q x :: h)
| step_resume d k s h : thread_step admissible (Yield d k) s h (Live k) s h
| step_drop d k s h : thread_step admissible (Yield d k) s h Gone (d s) (EvDrop s (d s) :: h)
| step_ready X (r : St -> option (X * St)) d k x s s1 h :
    r s = Some (x, s1) -> thread_step admissible (Wait r d k) s h (Live (k x)) s1 (EvAct s s1 :: h)
| step_wait_drop X (r : St -> option (X * St)) d k s h :
    thread_step admissible (Wait r d k) s h Gone (d s) (EvDrop s (d s) :: h).

Notation pool A := (list (thread A * history)).

Inductive pool_step (admissible : nat -> history -> St -> forall q, Ans q -> Prop) {A}
    : pool A * St -> pool A * St -> Prop :=
| pool_step_at i p h t' h' (ts : pool A) s s' :
    ts !! i = Some (Live p, h) -> thread_step (admissible i) p s h t' s' h' ->
    pool_step admissible (ts, s) (<[i := (t', h')]> ts, s').

(** A schedule of task indices, run as far as it can be. *)
Definition step_thread (answer : forall q, Ans q) {A} (p : prog A) (s : St) (h : history)
    : option (thread A * St * history) :=
  match p with
  | Ret _ | Panic => None
  | Act f k => Some (Live (k (fst (f s))), snd (f s), EvAct s (snd (f s)) :: h)
  | Ask q k => Some (Live (k (answer q)), s, EvAsk s q (answer q) :: h)
  | Yield _ k => Some (Live k, s, h)
  | Wait r _ k =>
      match r s with
      | Some (x, s') => Some (Live (k x), s', EvAct s s' :: h)
      | None => None
      end
  end.

Fixpoint run_pool (answer : forall q, Ans q) {A} (order : list nat) (c : pool A * St) : pool A * St :=
  match order with
  | [] => c
  | i :: order =>
      run_pool answer order
        match fst c !! i with
        | Some (Live p, h) =>
            match step_thread answer p (snd c) h with
            | Some (t', s', h') => (<[i := (t', h')]> (fst c), s')
            | None => c
            end
        | _ => c
        end
  end.

Lemma run_pool_steps admissible (answer : forall q, Ans q) {A} (order : list nat) (c : pool A * St) :
  (forall i h s q, admissible i h s q (answer q)) ->
  rtc (pool_step admissible) c (run_pool answer order c).
Proof.
  intros Ha. revert c. induction order as [|i order IH]; intros [ts s]; simpl; [apply rtc_refl|].
  destruct (ts !! i) as [[[p|] h]|] eqn:Ei; try apply IH.
  destruct (step_thread answer p s h) as [[[t' s'] h']|] eqn:Es; [|apply IH].
  eapply rtc_l; [|apply IH]. eapply pool_step_at; [exact Ei|].
  destruct p as [| | | | |X r d k]; simplify_eq/=; try by constructor.
  destruct (r s) as [[x s1]|] eqn:E; simplify_eq. by constructor.
Qed.

Section Pool.
Context {A : Type}.
Context (rely : nat -> St -> St -> Prop).
Context (admissible : nat -> history -> St -> forall q, Ans q -> Prop).
Context (allowed : nat -> event -> history -> Prop).
Context (post : nat -> outcome A -> St -> history -> Prop).
Context (rely_refl : forall i s, rely i s s).
Context (rely_trans : forall i s1 s2 s3, rely i s1 s2 -> rely i s2 s3 -> rely i s1 s3).
(** What one task is allowed, every other relies on. *)
Context (compatible : forall i j s s' h, i <> j ->
  allowed i (EvAct s s') h \/ allowed i (EvDrop s s') h -> rely j s s').

Definition thread_ok (s : St) (i : nat) (t : thread A * history) : Prop :=
  match t with
  | (Live p, h) => wp (rely i) (admissible i) (allowed i) p (post i) s h
  | (Gone, _) => True
  end /\ all_allowed (allowed i) (snd t).

Definition pool_ok (ts : pool A) (s : St) : Prop :=
  forall i t, ts !! i = Some t -> thread_ok s i t.

Lemma thread_step_ok i p s h t' s' h' :
  thread_step (admissible i) p s h t' s' h' -> thread_ok s i (Live p, h) ->
  thread_ok s' i (t', h') /\ forall j, i <> j -> rely j s s'.
Proof.
  intros Hs [Hw Hh]. destruct Hs; simpl in Hw.
  - destruct (Hw s (rely_refl i s)) as [Ha Hk]. split; [by repeat split|]. intros j Hj.
    eapply compatible; [exact Hj|by left].
  - destruct (Hw s (rely_refl i s) x H) as [Ha Hk]. split; [by repeat split|]. intros j _. apply rely_refl.
  - destruct (Hw s (rely_refl i s)) as [_ Hk]. split; [by split|]. intros j _. apply rely_refl.
  - destruct (Hw s (rely_refl i s)) as [[Ha _] _]. split; [by repeat split|]. intros j Hj.
    eapply compatible; [exact Hj|by right].
  - destruct (Hw s (rely_refl i s)) as (_ & _ & Hk). destruct (Hk x s1 H) as [Ha Hp].
    split; [by repeat split|]. intros j Hj. eapply compatible; [exact Hj|by left].
  - destruct (Hw s (rely_refl i s)) as ([Ha _] & _). split; [by repeat split|]. intros j Hj.
    eapply compatible; [exact Hj|by right].
Qed.

(** Tasks proved against their relies stay correct under every interleaving. *)
Theorem pool_sound (c c' : pool A * St) :
  rtc (pool_step admissible) c c' -> pool_ok (fst c) (snd c) -> pool_ok (fst c') (snd c').
Proof.
  induction 1 as [c|c c1 c' Hs _ IH]; [done|]. intros Hok. apply IH. clear IH.
  destruct Hs as [i p h t' h' ts s s' Hi Hs]. simpl in *.
  destruct (thread_step_ok i p s h t' s' h' Hs (Hok _ _ Hi)) as [Ht Hr].
  intros j t. destruct (decide (i = j)) as [<-|Hj].
  - rewrite list_lookup_insert_eq by (by eapply lookup_lt_Some). by intros [= <-].
  - rewrite list_lookup_insert_ne by done. intros Hjt. destruct (Hok _ _ Hjt) as [Hw Hh]. split; [|done].
    destruct t as [[q|] h0]; [|done]. eapply wp_stable; [apply rely_trans|by apply Hr|done].
Qed.

(** A task outside the pool can rely on all of it. *)
Lemma pool_rely (c c' : pool A * St) j :
  rtc (pool_step admissible) c c' -> pool_ok (fst c) (snd c) -> length (fst c) <= j -> rely j (snd c) (snd c').
Proof.
  induction 1 as [c|c c1 c' Hs Hr IH]; [intros; apply rely_refl|]. intros Hok Hj.
  assert (pool_ok (fst c1) (snd c1)) as Hok1 by (by eapply pool_sound; [apply rtc_once|]).
  destruct Hs as [i p h t' h' ts s s' Hi Hs]. simpl in *. eapply rely_trans; [|apply IH; [done|by rewrite length_insert]].
  eapply thread_step_ok; [done|by apply Hok|]. apply lookup_lt_Some in Hi. lia.
Qed.
End Pool.
End Programs.

Arguments prog St Query Ans A : clear implicits.
Arguments event St Query Ans : clear implicits.
Arguments history St Query Ans : clear implicits.
Arguments schedule St Query Ans : clear implicits.
Arguments Ret {St Query Ans A} a.
Arguments Panic {St Query Ans A}.
Arguments Act {St Query Ans A X} f k.
Arguments Ask {St Query Ans A} q k.
Arguments Yield {St Query Ans A} on_drop k.
Arguments Wait {St Query Ans A X} ready on_drop k.
Arguments Returned {A} a.
Arguments Dropped {A}.
Arguments Panicked {A}.
Arguments Blocked {A}.
Arguments EvAct {St Query Ans} before after.
Arguments EvAsk {St Query Ans} at_state q x.
Arguments EvDrop {St Query Ans} before after.
Arguments Live {St Query Ans A} p.
Arguments Gone {St Query Ans A}.

Declare Scope prog_scope.
Delimit Scope prog_scope with prog.
Notation "'do' x <- e ; k" := (bind e (fun x => k))
  (at level 10, x pattern, e at level 100, k at level 200) : prog_scope.
Notation "'do?' x <- e ; k" := (try e (fun x => k))
  (at level 10, x pattern, e at level 100, k at level 200) : prog_scope.
Notation "'when' b 'return' e ; k" := (if b then Ret e else k)
  (at level 10, b at level 100, e at level 100, k at level 200) : prog_scope.

(** ** Equations of the monad *)
Section Equations.
Context {St Query : Type} {Ans : Query -> Type}.

Lemma bind_ret {A B} (a : A) (c : A -> prog St Query Ans B) : bind (Ret a) c = c a.
Proof. done. Qed.

Lemma try_ok {A B E} (a : A) (c : A -> prog St Query Ans (result B E)) : try (Ret (Ok a)) c = c a.
Proof. done. Qed.

Lemma try_err {A B E} (e : E) (c : A -> prog St Query Ans (result B E)) : try (Ret (Err e)) c = Ret (Err e).
Proof. done. Qed.
End Equations.

(** Runs the returned values of a chain of [do] and [do?]. *)
Ltac simpl_prog := rewrite ?bind_ret, ?try_ok, ?try_err.
