(* ===== verification/Cancel.v ===== *)
(** * Cancellation ([cancel.rs])

    [CancellationToken] and the [Cancelled] future as programs over the shared
    flag and waiter registry: each atomic operation and each critical section is
    one action, so every interleaving of the source is one of the model.

    The state carries three observations the program does not have: the owner of
    a registry entry (the future that inserted it), the call that won the swap
    with the wakers it has taken and not yet woken, and the tasks woken so far. *)
From S2P Require Import Prelude Prog.
From stdpp Require Import gmap.
Open Scope prog_scope.

(** A waker, by the task it wakes; [will_wake] compares more than the task. *)
Record Waker := { waker_task : N; waker_data : N }.

Record WaiterRegistry := { next_id : N; waiters : gmap N (nat * Waker) }.

Record CancellationInner := {
  cancelled : bool;
  registry : WaiterRegistry;
  winner : option nat;
  drained : bool;
  inflight : list N;
  woken : list N;
}.

Definition set_registry (s : CancellationInner) (r : WaiterRegistry) : CancellationInner :=
  {| cancelled := cancelled s; registry := r; winner := winner s; drained := drained s;
     inflight := inflight s; woken := woken s |}.

Definition CancellationInner_default : CancellationInner :=
  {| cancelled := false; registry := {| next_id := 0; waiters := ∅ |}; winner := None; drained := false;
     inflight := []; woken := [] |}.

(** The code of this file calls nothing outside the engine. *)
Definition NoQuery := Empty_set.
Definition NoAns (q : NoQuery) : Type := Empty_set.
Notation cprog := (prog CancellationInner NoQuery NoAns).

(** ** Identifiers *)
(** The [loop] of [vacant_id]: [Some None] is the failed assertion. *)
Fixpoint vacant_loop (fuel : nat) (start : N) (r : WaiterRegistry) : option (option (N * WaiterRegistry)) :=
  match fuel with
  | O => None
  | S fuel =>
      let candidate := next_id r in
      let r := {| next_id := wrapping_add (next_id r) 1; waiters := waiters r |} in
      if bool_decide (waiters r !! candidate = None) then Some (Some (candidate, r))
      else if (next_id r =? start)%N then Some None
      else vacant_loop fuel start r
  end.

(** One iteration more than there are entries always finds a vacancy. *)
Definition vacant_id (r : WaiterRegistry) : option (N * WaiterRegistry) :=
  match vacant_loop (S (size (waiters r))) (next_id r) r with
  | Some found => found
  | None => None
  end.

Section Token.
Context (will_wake : Waker -> Waker -> bool).

Definition is_cancelled : cprog bool := get cancelled.

Definition wake (w : Waker) : cprog unit :=
  modify (fun s => {| cancelled := cancelled s; registry := registry s; winner := winner s;
                      drained := drained s; inflight := inflight s; woken := waker_task w :: woken s |}).

(** [waiters.into_values()], in key order. *)
Definition key_le (a b : N * (nat * Waker)) : Prop := (fst a <= fst b)%N.
#[local] Instance key_le_dec a b : Decision (key_le a b).
Proof. unfold key_le. apply _. Defined.

Definition registry_values (m : gmap N (nat * Waker)) : list Waker :=
  (fun e => snd (snd e)) <$> merge_sort key_le (map_to_list m).

(** [self.inner.cancelled.swap(true, AcqRel)] *)
Definition swap_cancelled (me : nat) (s : CancellationInner) : bool * CancellationInner :=
  (cancelled s,
   {| cancelled := true; registry := registry s;
      winner := if cancelled s then winner s else Some me;
      drained := drained s; inflight := inflight s; woken := woken s |}).

(** [core::mem::take(&mut registry.waiters)] *)
Definition take_waiters (s : CancellationInner) : list Waker * CancellationInner :=
  let taken := registry_values (waiters (registry s)) in
  (taken,
   {| cancelled := cancelled s; registry := {| next_id := next_id (registry s); waiters := ∅ |};
      winner := winner s; drained := true; inflight := waker_task <$> taken; woken := woken s |}).

(** [waiter.wake()] for one of the taken wakers. *)
Definition wake_taken (w : Waker) (s : CancellationInner) : CancellationInner :=
  {| cancelled := cancelled s; registry := registry s; winner := winner s; drained := drained s;
     inflight := tail (inflight s); woken := waker_task w :: woken s |}.

Fixpoint wake_all (ws : list Waker) : cprog unit :=
  match ws with
  | [] => Ret tt
  | w :: ws => do _ <- modify (wake_taken w); wake_all ws
  end.

Definition cancel (me : nat) : cprog bool :=
  do was <- act (swap_cancelled me);
  if was then Ret false
  else
    do taken <- act take_waiters;
    do _ <- wake_all taken;
    Ret true.

Definition remove_waiter (id : N) (s : CancellationInner) : CancellationInner :=
  set_registry s {| next_id := next_id (registry s); waiters := delete id (waiters (registry s)) |}.

Definition deregister (waiter_id : option N) : cprog (option N) :=
  match waiter_id with
  | None => Ret None
  | Some id => do _ <- modify (remove_waiter id); Ret None
  end.

(** [Drop for Cancelled] *)
Definition drop_cancelled (waiter_id : option N) (s : CancellationInner) : CancellationInner :=
  match waiter_id with None => s | Some id => remove_waiter id s end.

(** The critical section of [register]: the identifier, allocated when there is
    none, and the entry inserted, replaced or kept. [None] is the panic. *)
Definition register_section (me : nat) (waiter_id : option N) (waker : Waker) (s : CancellationInner)
    : option N * CancellationInner :=
  match (match waiter_id with
         | Some id => Some (id, registry s)
         | None => vacant_id (registry s)
         end) with
  | None => (None, s)
  | Some (id, r) =>
      match waiters r !! id with
      | Some existing =>
          if will_wake (snd existing) waker then (Some id, set_registry s r)
          else (Some id, set_registry s {| next_id := next_id r; waiters := <[id := (me, waker)]> (waiters r) |})
      | None => (Some id, set_registry s {| next_id := next_id r; waiters := <[id := (me, waker)]> (waiters r) |})
      end
  end.

Definition register (me : nat) (waiter_id : option N) (waker : Waker) : cprog (option N) :=
  do c <- is_cancelled;
  if c then
    do waiter_id <- deregister waiter_id;
    do _ <- wake waker;
    Ret waiter_id
  else
    do id <- act (register_section me waiter_id waker);
    match id with
    | None => Panic
    | Some id =>
        do c <- is_cancelled;
        if c then
          do waiter_id <- deregister (Some id);
          do _ <- wake waker;
          Ret waiter_id
        else Ret (Some id)
    end.

(** [Cancelled::poll]: whether it is ready, and the identifier it then holds. *)
Definition poll (me : nat) (waiter_id : option N) (waker : Waker) : cprog (bool * option N) :=
  do c <- is_cancelled;
  if c then
    do waiter_id <- deregister waiter_id;
    Ret (true, waiter_id)
  else
    do waiter_id <- register me waiter_id waker;
    do c <- is_cancelled;
    if c then
      do waiter_id <- deregister waiter_id;
      Ret (true, waiter_id)
    else Ret (false, waiter_id).

(** A task that polls the future with each waker in turn until it is ready, and
    may drop it whenever it is pending. *)
Fixpoint await_cancelled (me : nat) (waiter_id : option N) (wakers : list Waker) (last : option Waker)
    : cprog (bool * option N * option Waker) :=
  match wakers with
  | [] => Ret (false, waiter_id, last)
  | w :: wakers =>
      do polled <- poll me waiter_id w;
      if fst polled then Ret (true, snd polled, Some w)
      else Yield (drop_cancelled (snd polled)) (await_cancelled me (snd polled) wakers (Some w))
  end.
End Token.

(** ** Rely and guarantee *)
Record token_inv (s : CancellationInner) : Prop := {
  inv_drained : drained s = true -> cancelled s = true;
  inv_winner : cancelled s = false -> winner s = None /\ inflight s = [];
}.

(** What the task [me] relies on: the flag is never reset, wakers that were taken
    are woken, its own entry stays in the registry until it is taken, and the
    wakers it has taken itself are its own. *)
Record token_rely (me : nat) (s s' : CancellationInner) : Prop := {
  rely_inv : token_inv s -> token_inv s';
  rely_cancelled : cancelled s = true -> cancelled s' = true;
  rely_drained : drained s = true -> drained s' = true;
  rely_woken : woken s ⊆ woken s';
  rely_inflight : forall t, t ∈ inflight s -> t ∈ inflight s' \/ t ∈ woken s';
  rely_entry : forall id w, waiters (registry s) !! id = Some (me, w) -> drained s = false ->
    if drained s' then waker_task w ∈ inflight s' \/ waker_task w ∈ woken s'
    else waiters (registry s') !! id = Some (me, w);
  rely_winner : winner s = Some me ->
    winner s' = Some me /\ inflight s' = inflight s /\ drained s' = drained s;
}.

Lemma token_rely_refl (me : nat) (s : CancellationInner) : token_rely me s s.
Proof. constructor; auto. intros id w Hw ->. done. Qed.

Lemma token_rely_trans (me : nat) (s1 s2 s3 : CancellationInner) : token_rely me s1 s2 -> token_rely me s2 s3 -> token_rely me s1 s3.
Proof.
  intros [A1 A2 A3 A4 A5 A6 A7] [B1 B2 B3 B4 B5 B6 B7]. constructor; auto.
  - etrans; eauto.
  - intros t Ht. destruct (A5 t Ht) as [Hi|Hw]; [by apply B5|]. right. by apply B4.
  - intros id w Hw Hd. specialize (A6 id w Hw Hd). destruct (drained s2) eqn:E2.
    + rewrite (B3 eq_refl). destruct A6 as [Hi|Hk]; [by apply B5|]. right. by apply B4.
    + by apply B6.
  - intros Hw. destruct (A7 Hw) as (Hw2 & Hi & Hd). destruct (B7 Hw2) as (? & ? & ?). split_and!; congruence.
Qed.

(** A task may do whatever every other task can rely on. *)
Definition token_allowed (me : nat) (e : event CancellationInner NoQuery NoAns) (h : history CancellationInner NoQuery NoAns) : Prop :=
  match e with
  | EvAct s s' | EvDrop s s' => forall other, other <> me -> token_rely other s s'
  | EvAsk _ q _ => match q with end
  end.

Definition token_any_answer (h : history CancellationInner NoQuery NoAns) (s : CancellationInner)
    (q : NoQuery) (x : NoAns q) : Prop := True.

Notation cwp me := (wp (token_rely me) token_any_answer (token_allowed me)).

(** ** Waiting tasks *)
(** The entry of a held identifier is the holder's own, until it is taken. *)
Definition holds (me : nat) (id : option N) (s : CancellationInner) : Prop :=
  token_inv s /\
  match id with
  | None => True
  | Some id => drained s = true \/ exists w, waiters (registry s) !! id = Some (me, w)
  end.

(** The task of [w] is registered, or will be or has been woken. *)
Definition covered (me : nat) (id : option N) (w : Waker) (s : CancellationInner) : Prop :=
  if drained s then waker_task w ∈ inflight s \/ waker_task w ∈ woken s
  else exists i w', id = Some i /\ waiters (registry s) !! i = Some (me, w') /\ waker_task w' = waker_task w.

(** The weaker form while the flag is still to be read again. *)
Definition entered (me : nat) (i : N) (w : Waker) (s : CancellationInner) : Prop :=
  drained s = true \/
  exists w', waiters (registry s) !! i = Some (me, w') /\ waker_task w' = waker_task w.

Lemma holds_stable me id s s' : token_rely me s s' -> holds me id s -> holds me id s'.
Proof.
  intros [R1 R2 R3 R4 R5 R6 R7] [Hi Hh]. split; [auto|].
  destruct id as [id|]; [|done]. destruct (drained s) eqn:Ed; [auto|].
  destruct Hh as [?|[w Hw]]; [done|]. specialize (R6 id w Hw eq_refl).
  destruct (drained s'); eauto.
Qed.

Lemma covered_stable me id w s s' : token_rely me s s' -> covered me id w s -> covered me id w s'.
Proof.
  intros [R1 R2 R3 R4 R5 R6 R7] Hc. unfold covered in *. destruct (drained s) eqn:Ed.
  - rewrite R3 by done. destruct Hc as [Hi|Hw]; [by apply R5|right; by apply R4].
  - destruct Hc as (i & w' & -> & Hw' & Ht). specialize (R6 i w' Hw' eq_refl).
    rewrite Ht in R6. destruct (drained s'); [done|]. eauto.
Qed.

Lemma entered_stable me i w s s' : token_rely me s s' -> entered me i w s -> entered me i w s'.
Proof.
  intros [R1 R2 R3 R4 R5 R6 R7] He. unfold entered in *. destruct (drained s) eqn:Ed; [auto|].
  destruct He as [?|(w' & Hw' & Ht)]; [done|]. specialize (R6 i w' Hw' eq_refl).
  destruct (drained s'); eauto.
Qed.

(** ** Actions of a waiting task *)
Lemma token_rely_delete me id s other :
  holds me (Some id) s -> other <> me ->
  token_rely other s (remove_waiter id s).
Proof.
  intros [Hi Hh] Ho. constructor; simpl; auto.
  - intros [? ?]. by constructor.
  - intros i w Hw Hd. rewrite Hd in *. destruct Hh as [?|[w' Hw']]; [done|].
    rewrite lookup_delete_ne by congruence. done.
Qed.

Lemma rely_wake (w : Waker) s other :
  token_rely other s {| cancelled := cancelled s; registry := registry s; winner := winner s;
                  drained := drained s; inflight := inflight s; woken := waker_task w :: woken s |}.
Proof.
  constructor; simpl; auto.
  - intros [? ?]. by constructor.
  - set_solver.
  - intros i w' Hw Hd. rewrite Hd. done.
Qed.

(** Only [next_id] and entries that are vacant, the task's own or already taken
    change. *)
Lemma rely_registry me s (r : WaiterRegistry) other :
  other <> me ->
  (drained s = false -> forall i, waiters r !! i = waiters (registry s) !! i \/
     (waiters (registry s) !! i = None \/ exists w, waiters (registry s) !! i = Some (me, w))) ->
  token_rely other s (set_registry s r).
Proof.
  intros Ho Hr. constructor; simpl; auto.
  - intros [? ?]. by constructor.
  - intros i w Hw Hd. rewrite Hd. destruct (Hr Hd i) as [->|[Hn|[w' Hn]]]; congruence.
Qed.

Lemma vacant_loop_spec fuel start r id r' :
  vacant_loop fuel start r = Some (Some (id, r')) -> waiters r' = waiters r /\ waiters r !! id = None.
Proof.
  revert r. induction fuel as [|fuel IH]; intros r; simpl; [done|].
  case_bool_decide as Hb; [by intros [= <- <-]|]. destruct (_ =? _)%N; [done|]. intros [? ?]%IH. done.
Qed.

Lemma vacant_id_spec r id r' :
  vacant_id r = Some (id, r') -> waiters r' = waiters r /\ waiters r !! id = None.
Proof.
  unfold vacant_id. destruct (vacant_loop _ _ r) as [[[? ?]|]|] eqn:E; intros [= <- <-].
  by eapply vacant_loop_spec.
Qed.

Section Proofs.
Context (will_wake : Waker -> Waker -> bool).
(** [Waker::will_wake] only confuses wakers of the same task. *)
Context (will_wake_task : forall a b, will_wake a b = true -> waker_task a = waker_task b).

Lemma register_section_spec me id w s :
  holds me id s ->
  (forall other, other <> me -> token_rely other s (snd (register_section will_wake me id w s))) /\
  match fst (register_section will_wake me id w s) with
  | Some i => holds me (Some i) (snd (register_section will_wake me id w s)) /\
              entered me i w (snd (register_section will_wake me id w s))
  | None => True
  end.
Proof.
  intros Hh. pose proof Hh as [Hi He]. unfold register_section.
  destruct (match id with Some i => Some (i, registry s) | None => _ end) as [[i r]|] eqn:E.
  2:{ split; [|done]. intros. apply token_rely_refl. }
  assert (waiters r = waiters (registry s) /\ (drained s = true \/ waiters (registry s) !! i = None \/
    exists w', waiters (registry s) !! i = Some (me, w'))) as [Hr Hk].
  { destruct id as [j|]; [injection E as <- <-|apply vacant_id_spec in E]; naive_solver. }
  assert (forall s', token_inv s -> cancelled s' = cancelled s -> drained s' = drained s -> winner s' = winner s ->
    inflight s' = inflight s -> token_inv s') as Hinv.
  { intros s' [I1 I2] E1 E2 E3 E4. constructor; rewrite E1, ?E2, ?E3, ?E4; done. }
  destruct (waiters r !! i) as [[o w0]|] eqn:Ew; [destruct (will_wake w0 w) eqn:Eww|]; simpl; rewrite ?Eww; simpl.
  - split; [intros; apply (rely_registry me); [done|]; rewrite Hr; auto|].
    assert (drained s = true \/ o = me) as Ho by (rewrite Hr in Ew; destruct Hk as [?|[?|[w' ?]]]; [by left|congruence|right; congruence]).
    unfold holds, entered. simpl. rewrite Ew.
    split; [split; [by apply Hinv|]|]; destruct Ho as [?| ->]; eauto.
  - split; [intros; apply (rely_registry me); [done|]; simpl; intros Hd j|].
    + destruct (decide (j = i)) as [->|Hj]; [|left; by rewrite lookup_insert_ne, Hr].
      right. destruct Hk as [?|[?|?]]; [congruence|auto..].
    + unfold holds, entered. simpl. rewrite lookup_insert_eq. split; [split; [by apply Hinv|]|]; eauto.
  - split; [intros; apply (rely_registry me); [done|]; simpl; intros Hd j|].
    + destruct (decide (j = i)) as [->|Hj]; [|left; by rewrite lookup_insert_ne, Hr].
      right. rewrite <-Hr. auto.
    + unfold holds, entered. simpl. rewrite lookup_insert_eq. split; [split; [by apply Hinv|]|]; eauto.
Qed.

Lemma wp_deregister me id post s h :
  holds me id s -> (forall s' h', token_inv s' -> post (Returned None) s' h') ->
  cwp me (deregister id) post s h.
Proof.
  intros Hh Hp. destruct id as [id|]; simpl.
  - intros s' Hr. pose proof (holds_stable _ _ _ _ Hr Hh) as Hh'. split.
    + intros other Ho. by apply token_rely_delete with (me := me).
    + intros s'' [R1 _ _ _ _ _ _]. apply Hp, R1. destruct Hh' as [[? ?] _]. by constructor.
  - intros s' [R1 _ _ _ _ _ _]. apply Hp. destruct Hh. auto.
Qed.

Lemma wp_wake me w post s h :
  token_inv s -> (forall s' h', token_inv s' -> post (Returned tt) s' h') -> cwp me (wake w) post s h.
Proof.
  intros Hi Hp s' [R1 _ _ _ _ _ _]. split.
  - intros other Ho. apply rely_wake.
  - simpl. intros s'' [Q1 _ _ _ _ _ _]. apply Hp, Q1. destruct (R1 Hi). by constructor.
Qed.

Lemma rely_self me s other : token_allowed me (EvAct s s) other.
Proof. intros o _. apply token_rely_refl. Qed.

(** After [register], the identifier is held and, unless the flag was seen, its
    task is covered. *)
Lemma wp_register me id w post s h :
  holds me id s ->
  (forall s' h', token_inv s' -> post Panicked s' h') ->
  (forall id' s' h', holds me id' s' -> cancelled s' = true \/ covered me id' w s' ->
     post (Returned id') s' h') ->
  cwp me (register will_wake me id w) post s h.
Proof.
  intros Hh Hpanic Hp.
  assert (forall id s h, holds me id s -> cancelled s = true ->
    cwp me (do waiter_id <- deregister id; do _ <- wake w; Ret waiter_id) post s h) as Hseen.
  { clear id s h Hh. intros id s h Hh Hc. apply wp_bind; [apply token_rely_refl|].
    apply wp_mono with (post := fun o s' _ => exists h', o = Returned None /\ token_inv s' /\ cancelled s' = true /\ h' = h).
    - intros o s' h' (h0 & -> & Hi & Hc' & _). simpl.
      intros s1 R1. split; [intros ? _; apply rely_wake|]. intros s2 R2. apply Hp.
      + split; [|done]. apply R2. destruct (rely_inv _ _ _ R1 Hi). by constructor.
      + left. apply (rely_cancelled _ _ _ R2), (rely_cancelled _ _ _ R1), Hc'.
    - destruct id as [id|]; simpl.
      + intros s' R. pose proof (holds_stable _ _ _ _ R Hh) as Hh'. split.
        * intros other Ho. by apply token_rely_delete with (me := me).
        * intros s'' R'. exists h. split_and!; try done.
          -- apply R'. destruct Hh' as [[? ?] _]. by constructor.
          -- apply (rely_cancelled _ _ _ R'), (rely_cancelled _ _ _ R), Hc.
      + intros s' R. exists h. destruct Hh. split_and!; try done; [by apply R|by apply (rely_cancelled _ _ _ R)]. }
  intros s1 R1. split; [apply rely_self|]. pose proof (holds_stable _ _ _ _ R1 Hh) as Hh1.
  cbn [fst snd bind]. destruct (cancelled s1) eqn:Ec; [by apply Hseen|].
  intros s3 R3. pose proof (holds_stable _ _ _ _ R3 Hh1) as Hh3.
  destruct (register_section_spec me id w s3 Hh3) as [Ha Hs]. split; [done|].
  cbn [bind]. destruct (fst _) as [i|].
  2:{ intros s5 R5. apply Hpanic. apply (rely_inv _ _ _ R5), (rely_inv _ _ _ (Ha (S me) ltac:(lia))). by destruct Hh3. }
  destruct Hs as [Hh4 He4]. intros s5 R5. split; [apply rely_self|].
  pose proof (holds_stable _ _ _ _ R5 Hh4) as Hh5. pose proof (entered_stable _ _ _ _ _ R5 He4) as He5.
  cbn [fst snd bind]. destruct (cancelled s5) eqn:Ec5; [by apply Hseen|].
  intros s7 R7. apply Hp; [by eapply holds_stable|].
  right. eapply covered_stable; [exact R7|]. unfold covered. destruct (drained s5) eqn:Ed.
  { destruct Hh5 as [[I1 _] _]. rewrite I1 in Ec5 by done. done. }
  destruct He5 as [?|(w' & ? & ?)]; [congruence|]. eauto.
Qed.

Lemma wp_poll me id w post s h :
  holds me id s ->
  (forall s' h', token_inv s' -> post Panicked s' h') ->
  (forall id' s' h', token_inv s' -> post (Returned (true, id')) s' h') ->
  (forall id' s' h', holds me id' s' -> covered me id' w s' -> post (Returned (false, id')) s' h') ->
  cwp me (poll will_wake me id w) post s h.
Proof.
  intros Hh Hpanic Hready Hpend. unfold poll.
  assert (forall id s h, holds me id s ->
    cwp me (do waiter_id <- deregister id; Ret (true, waiter_id)) post s h) as Hseen.
  { clear id s h Hh. intros id s h Hh. apply wp_bind; [apply token_rely_refl|].
    apply wp_deregister; [done|]. intros s' h' Hi. simpl. intros s'' R. by apply Hready, R. }
  intros s1 R1. split; [apply rely_self|]. pose proof (holds_stable _ _ _ _ R1 Hh) as Hh1.
  cbn [fst snd bind]. destruct (cancelled s1) eqn:Ec; [by apply Hseen|].
  apply wp_bind; [apply token_rely_refl|]. apply wp_register; [done|done|].
  intros id' s3 h3 Hh3 Hc3. cbn [sequel]. intros s4 R4. split; [apply rely_self|].
  pose proof (holds_stable _ _ _ _ R4 Hh3) as Hh4.
  cbn [fst snd bind]. destruct (cancelled s4) eqn:Ec4; [by apply Hseen|].
  destruct Hc3 as [Hc3|Hc3]; [by rewrite (rely_cancelled _ _ _ R4 Hc3) in Ec4|].
  intros s6 R6. apply Hpend; [by eapply holds_stable|].
  eapply covered_stable; [exact R6|]. by eapply covered_stable.
Qed.

Definition await_post (me : nat) (o : outcome (bool * option N * option Waker)) (s : CancellationInner) : Prop :=
  match o with
  | Returned (false, id, Some w) => covered me id w s
  | _ => True
  end.

Lemma wp_await_cancelled me wakers : forall id last s h,
  holds me id s -> (forall w, last = Some w -> covered me id w s) ->
  cwp me (await_cancelled will_wake me id wakers last) (fun o s _ => await_post me o s) s h.
Proof.
  induction wakers as [|w wakers IH]; intros id last s h Hh Hl; cbn [await_cancelled].
  - intros s' R. destruct last as [w|]; simpl; [|done]. eapply covered_stable; [exact R|auto].
  - apply wp_bind; [apply token_rely_refl|]. apply wp_poll; [done|done| |].
    + intros id' s' h' _ s'' R. done.
    + intros id' s' h' Hh' Hc' s1 R1. pose proof (holds_stable _ _ _ _ R1 Hh') as Hh1. split; [split; [|done]|].
      * intros other Ho. destruct id' as [i|]; [by apply token_rely_delete with (me := me)|apply token_rely_refl].
      * apply IH; [done|]. intros ? [= <-]. by eapply covered_stable.
Qed.

(** ** The cancelling task *)
Lemma registry_values_in (m : gmap N (nat * Waker)) id o w :
  m !! id = Some (o, w) -> w ∈ registry_values m.
Proof.
  intros Hm. unfold registry_values. apply list_elem_of_fmap. exists (id, (o, w)). split; [done|].
  rewrite merge_sort_Permutation. by apply elem_of_map_to_list.
Qed.

Lemma wp_wake_all me ws post : forall s h,
  token_inv s -> winner s = Some me -> drained s = true -> inflight s = waker_task <$> ws ->
  (forall s' h', token_inv s' -> winner s' = Some me -> drained s' = true -> inflight s' = [] ->
     post (Returned tt) s' h') ->
  cwp me (wake_all ws) post s h.
Proof.
  induction ws as [|w ws IH]; intros s h Hi Hw Hd Hf Hp; simpl.
  - intros s' R. destruct (rely_winner _ _ _ R Hw) as (? & E1 & E2). apply Hp; [by apply R|done|congruence|].
    by rewrite E1, Hf.
  - intros s' R. destruct (rely_winner _ _ _ R Hw) as (Hw' & E1 & E2).
    pose proof (rely_inv _ _ _ R Hi) as Hi'. split.
    + intros other Ho. constructor; simpl; auto.
      * intros [I1 I2]. constructor; simpl; [done|]. intros Hc. by destruct (I2 Hc) as [-> ->].
      * set_solver.
      * intros t. rewrite E1, Hf. set_solver.
      * intros i w' Hw1 Hd1. congruence.
      * intros Hw1. congruence.
    + apply IH; simpl; try done; [|congruence|by rewrite E1, Hf].
      destruct Hi' as [I1 I2]. constructor; simpl; [done|]. intros Hc. by destruct (I2 Hc) as [-> ->].
Qed.

Definition cancel_post (me : nat) (o : outcome bool) (s : CancellationInner) : Prop :=
  match o with
  | Returned true => winner s = Some me /\ drained s = true /\ inflight s = []
  | _ => cancelled s = true
  end.

Lemma wp_cancel me s h :
  token_inv s -> winner s <> Some me -> cwp me (cancel me) (fun o s _ => cancel_post me o s) s h.
Proof.
  intros Hi Hw0 s1 R1. cbn [fst snd bind act swap_cancelled].
  pose proof (rely_inv _ _ _ R1 Hi) as Hi1. split.
  { intros other Ho. constructor; simpl; auto.
    - intros [I1 I2]. by constructor.
    - intros i w Hw Hd. by rewrite Hd.
    - intros Hw. destruct (cancelled s1) eqn:Ec; [by rewrite Hw|].
      destruct Hi1 as [_ I2]. destruct (I2 Ec). congruence. }
  destruct (cancelled s1) eqn:Ec.
  { intros s3 R3. by apply (rely_cancelled _ _ _ R3). }
  intros s3 R3. destruct (rely_winner _ _ _ R3 eq_refl) as (Hw3 & Hf3 & _). simpl in Hf3.
  rewrite (proj2 (inv_winner _ Hi1 Ec)) in Hf3.
  pose proof (rely_cancelled _ _ _ R3 eq_refl) as Hc3. split.
  { intros other Ho. constructor; simpl; auto.
    - intros _. by constructor; simpl; rewrite Hc3.
    - intros t. rewrite Hf3. set_solver.
    - intros i w Hw _. left. apply list_elem_of_fmap. exists w. split; [done|]. by eapply registry_values_in.
    - congruence. }
  apply wp_bind; [apply token_rely_refl|]. apply wp_wake_all; simpl; try done.
  - by constructor; simpl; rewrite Hc3.
  - intros s4 h4 Hi4 Hw4 Hd4 Hf4 s5 R5. destruct (rely_winner _ _ _ R5 Hw4) as (-> & -> & ->). done.
Qed.

(** ** Tasks sharing one token *)
Inductive CancelTask := Canceller | Waiter (wakers : list Waker).
Inductive CancelResult :=
| Cancelling (won : bool)
| Waiting (ready : bool) (id : option N) (last : option Waker).

Definition cancel_task (me : nat) (t : CancelTask) : cprog CancelResult :=
  match t with
  | Canceller => do won <- cancel me; Ret (Cancelling won)
  | Waiter wakers =>
      do r <- await_cancelled will_wake me None wakers None;
      Ret (Waiting (fst (fst r)) (snd (fst r)) (snd r))
  end.

Definition cancel_pool (tasks : list CancelTask) : list (thread CancelResult * history CancellationInner NoQuery NoAns) :=
  imap (fun me t => (Live (cancel_task me t), [])) tasks.

Definition task_post (me : nat) (o : outcome CancelResult) (s : CancellationInner)
    (h : history CancellationInner NoQuery NoAns) : Prop :=
  match o with
  | Returned (Cancelling won) => cancel_post me (Returned won) s
  | Returned (Waiting ready id last) => await_post me (Returned (ready, id, last)) s
  | _ => True
  end.

Lemma cancel_task_ok me t : cwp me (cancel_task me t) (task_post me) CancellationInner_default [].
Proof.
  assert (token_inv CancellationInner_default) as Hi by by constructor.
  destruct t as [|wakers]; unfold cancel_task; apply wp_map.
  - eapply wp_mono; [|by apply wp_cancel]. by intros [[]| | |].
  - eapply wp_mono; [|by apply wp_await_cancelled]. by intros [[[] ?]| | |].
Qed.

Lemma cancel_pool_ok tasks :
  pool_ok token_rely (fun _ => token_any_answer) token_allowed task_post (cancel_pool tasks) CancellationInner_default.
Proof.
  intros i t. unfold cancel_pool. rewrite list_lookup_imap. destruct (tasks !! i); simpl; intros [= <-].
  split; [apply cancel_task_ok|done].
Qed.
End Proofs.

(** ** Vacant identifiers *)
Definition registry_wf (r : WaiterRegistry) : Prop :=
  (next_id r <= U64_MAX)%N /\ (N.of_nat (size (waiters r)) <= U64_MAX)%N.

Lemma visited_bound (m : gmap N (nat * Waker)) (start : N) (n : nat) :
  (N.of_nat n <= U64_MAX + 1)%N ->
  (forall k, k < n -> is_Some (m !! ((start + N.of_nat k) mod (U64_MAX + 1))%N)) -> n <= size m.
Proof.
  intros Hn Hall. set (f := fun k => ((start + N.of_nat k) mod (U64_MAX + 1))%N).
  rewrite <-size_dom. rewrite <-(length_seq n 0), <-(length_fmap f).
  rewrite <-(size_list_to_set (C := gset N)).
  - apply subseteq_size. intros x. rewrite elem_of_list_to_set, list_elem_of_fmap.
    intros (k & -> & Hk%elem_of_seq). apply elem_of_dom, Hall. lia.
  - apply NoDup_fmap_2_strong; [|apply NoDup_seq].
    intros i j Hi%elem_of_seq Hj%elem_of_seq. unfold f. intros E.
    assert (forall a b, a < b -> b < n ->
      ((start + N.of_nat a) mod (U64_MAX + 1))%N <> ((start + N.of_nat b) mod (U64_MAX + 1))%N) as Hne.
    { intros a b Hab Hb Heq.
      pose proof (N.div_mod (start + N.of_nat a) (U64_MAX + 1) ltac:(done)) as Ha.
      pose proof (N.div_mod (start + N.of_nat b) (U64_MAX + 1) ltac:(done)) as Hb'.
      rewrite <-Heq in Hb'. set (M := (U64_MAX + 1)%N) in *. clearbody M.
      set (qa := ((start + N.of_nat a) / M)%N) in *. set (qb := ((start + N.of_nat b) / M)%N) in *.
      assert (qa < qb \/ qb <= qa)%N as [?|?] by lia; nia. }
    destruct (decide (i = j)) as [|Hd]; [done|]. exfalso.
    assert (i < j \/ j < i) as [?|?] by lia; [apply (Hne i j)|apply (Hne j i)]; lia || done.
Qed.

Lemma vacant_loop_total fuel : forall n start r,
  (start <= U64_MAX)%N -> next_id r = ((start + N.of_nat n) mod (U64_MAX + 1))%N ->
  (N.of_nat (size (waiters r)) <= U64_MAX)%N -> n + fuel = S (size (waiters r)) ->
  (forall k, k < n -> is_Some (waiters r !! ((start + N.of_nat k) mod (U64_MAX + 1))%N)) ->
  exists id r', vacant_loop fuel start r = Some (Some (id, r')) /\ (next_id r' <= U64_MAX)%N.
Proof.
  induction fuel as [|fuel IH]; intros n start r Hs Hn Hsz Hf Hall.
  { pose proof (visited_bound (waiters r) start n ltac:(lia) Hall). lia. }
  simpl. case_bool_decide as Hb; [eexists _, _; split; [done|]|].
  { simpl. unfold wrapping_add. pose proof (N.mod_lt (next_id r + 1) (U64_MAX + 1) ltac:(done)). lia. }
  assert (forall k, k < S n -> is_Some (waiters r !! ((start + N.of_nat k) mod (U64_MAX + 1))%N)) as Hall'.
  { intros k Hk. destruct (decide (k = n)) as [->|]; [|apply Hall; lia].
    rewrite <-Hn. by apply not_eq_None_Some. }
  pose proof (visited_bound (waiters r) start (S n) ltac:(lia) Hall').
  assert (wrapping_add (next_id r) 1 = ((start + N.of_nat (S n)) mod (U64_MAX + 1))%N) as Hw.
  { unfold wrapping_add. rewrite Hn, N.Div0.add_mod_idemp_l. f_equal. lia. }
  rewrite Hw. destruct (N.eqb_spec ((start + N.of_nat (S n)) mod (U64_MAX + 1)) start) as [E|_].
  - pose proof (N.div_mod (start + N.of_nat (S n)) (U64_MAX + 1) ltac:(done)) as Hd. rewrite E in Hd.
    set (M := (U64_MAX + 1)%N) in *. assert (M = U64_MAX + 1)%N by done. clearbody M.
    set (q := ((start + N.of_nat (S n)) / M)%N) in *.
    assert (q = 0 \/ 1 <= q)%N as [?|?] by lia; nia.
  - apply (IH (S n)); simpl; try done. lia.
Qed.

(** ** Properties *)
(** C32. No lost wakeup: whatever the interleaving of any number of cancelling and
    waiting tasks (futures dropped at any pending point included), once the
    [cancel] call that changed the state has returned, the task of every future
    whose last poll was pending has been woken; and only one call can have
    changed the state. *)
Theorem cancel_wakes_every_waiter (will_wake : Waker -> Waker -> bool) (tasks : list CancelTask)
    (p : list (thread CancelResult * history CancellationInner NoQuery NoAns)) (s : CancellationInner)
    (i : nat) (h : history CancellationInner NoQuery NoAns) :
  (forall a b, will_wake a b = true -> waker_task a = waker_task b) ->
  rtc (pool_step (fun _ => token_any_answer)) (cancel_pool will_wake tasks, CancellationInner_default) (p, s) ->
  p !! i = Some (Live (Ret (Cancelling true)), h) ->
  (forall j id w h', p !! j = Some (Live (Ret (Waiting false id (Some w))), h') -> waker_task w ∈ woken s) /\
  (forall j h', p !! j = Some (Live (Ret (Cancelling true)), h') -> j = i).
Proof.
  intros Hww Hsteps Hi.
  pose proof (pool_sound token_rely (fun _ => token_any_answer) token_allowed task_post token_rely_refl token_rely_trans) as Hsound.
  specialize (Hsound ltac:(intros a b s1 s2 h0 Hab [Hal|Hal]; by apply Hal) _ _ Hsteps (cancel_pool_ok _ Hww tasks)).
  simpl in Hsound. pose proof (Hsound _ _ Hi) as [Hpi _]. simpl in Hpi.
  destruct (Hpi s (token_rely_refl i s)) as (Hw & Hd & Hf). split.
  - intros j id w h' Hj. pose proof (Hsound _ _ Hj) as [Hpj _]. simpl in Hpj.
    specialize (Hpj s (token_rely_refl j s)). unfold covered in Hpj. rewrite Hd, Hf in Hpj.
    destruct Hpj as [?%elem_of_nil|?]; done.
  - intros j h' Hj. pose proof (Hsound _ _ Hj) as [Hpj _]. simpl in Hpj.
    destruct (Hpj s (token_rely_refl j s)) as (Hw' & _). congruence.
Qed.

(** The waiter registers between the two reads of the flag around the swap. *)
Lemma cancel_wakes_every_waiter_witness :
  let tasks := [Canceller; Waiter [{| waker_task := 7; waker_data := 0 |}]] in
  let order := [1; 1; 1; 1; 1; 1; 0; 0; 0; 0] in
  let final := run_pool (fun q : NoQuery => match q return NoAns q with end) order
    (cancel_pool (fun a b => bool_decide (waker_task a = waker_task b)) tasks, CancellationInner_default) in
  7%N ∈ woken (snd final).
Proof.
  intros tasks order final.
  refine (proj1 (cancel_wakes_every_waiter (fun a b => bool_decide (waker_task a = waker_task b)) tasks
    (fst final) (snd final) 0 _ _ _ _) 1 (Some 0%N) {| waker_task := 7; waker_data := 0 |} _ _).
  - intros a b. by rewrite bool_decide_eq_true.
  - rewrite <-surjective_pairing. apply run_pool_steps. done.
  - vm_compute. reflexivity.
  - vm_compute. reflexivity.
Defined.

(** Identifier allocation always succeeds while the identifier space is not
    full: the loop returns an identifier no live waiter holds, in at most one
    iteration more than there are waiters, and its assertion never fails. *)
Theorem vacant_id_total (r : WaiterRegistry) :
  registry_wf r ->
  exists id r', vacant_id r = Some (id, r') /\ waiters r !! id = None /\ waiters r' = waiters r /\
    registry_wf r'.
Proof.
  intros [Hn Hs]. destruct (vacant_loop_total (S (size (waiters r))) 0 (next_id r) r) as (id & r' & E & Hr');
    [done| |done|done|lia|].
  { rewrite N.add_0_r, N.mod_small; [done|lia]. }
  destruct (vacant_loop_spec _ _ _ _ _ E) as [E1 E2].
  exists id, r'. unfold vacant_id. rewrite E. split_and!; try done. unfold registry_wf. by rewrite E1.
Qed.

Lemma vacant_id_total_witness :
  vacant_id {| next_id := U64_MAX; waiters := {[ U64_MAX := (0, {| waker_task := 1; waker_data := 0 |}) ]} |}
  = Some (0%N, {| next_id := 1; waiters := {[ U64_MAX := (0, {| waker_task := 1; waker_data := 0 |}) ]} |}).
Proof.
  destruct (vacant_id_total {| next_id := U64_MAX;
    waiters := {[ U64_MAX := (0, {| waker_task := 1; waker_data := 0 |}) ]} |}) as (id & r' & E & _).
  - split; vm_compute; discriminate.
  - rewrite E. vm_compute in E. by rewrite <-E.
Defined.
