(* ===== verification/SessionState.v ===== *)
(** * Canonical session state ([session.rs])

    The state behind every handle of one session, the host code its futures
    call, and the operations on the canonical record: snapshots, the bounded
    reconciliation loops, and the ways a future awaits host work.

    [Arc] identity is an allocation number, so [Arc::ptr_eq] compares numbers: the
    records allocated so far are a list that only grows, and an allocation made
    while a snapshot is alive never has the snapshot's number.
    A future of host code answers when it is created with the number of polls
    that are [Pending] and the value the next poll returns. *)
From S2P Require Import Prelude Ids Json Model Limits Context Prog.
From stdpp Require Import pretty.
Open Scope prog_scope.

(** ** Shared state *)
Record ArcRecord := { arc_ptr : nat; arc_val : SessionRecord }.
Record SessionData := { data_record : ArcRecord; data_persisted : bool }.

Record StagedTurnEvent := { staged_payload : TurnEvent; establishes_terminal : bool }.

(** [em_outstanding] is whether an [EmitFuture] has staged its event and has not
    seen it acknowledged; the program knows it from where its futures are. *)
Record EmissionState := {
  em_pending : option StagedTurnEvent;
  em_acknowledged : bool;
  em_usage : TokenUsage;
  em_terminal_established : bool;
  em_cancellation_deferrals : N;
  em_outstanding : bool;
}.

Definition EmissionState_default : EmissionState :=
  {| em_pending := None; em_acknowledged := false; em_usage := TokenUsage_default;
     em_terminal_established := false; em_cancellation_deferrals := 0; em_outstanding := false |}.

(** [ActivePermissionContext]; [pc_ptr] is its allocation, and it is open as long
    as its scope is alive. *)
Record ActivePermissionContext := {
  pc_ptr : nat;
  pc_request_id : PermissionRequestId;
  pc_session_id : SessionId;
  pc_incarnation_id : SessionIncarnationId;
  pc_turn_id : TurnId;
  pc_cursor : N * N;
  pc_pending : Message;
}.

(** What a turn shares with its handles, its stream, its tools and its metadata
    editors: the token, the gate, [InvocationTurnScope] and [TurnMetadataScope], with
    the number of its owners: the turn and the editor operations that run. *)
Record TurnShared := {
  ts_cancelled : bool;
  ts_emission : EmissionState;
  ts_invocation_open : bool;
  ts_admission_closed : bool;
  ts_operation_active : bool;
  ts_closed : bool;
  ts_scope_strong : N;
}.

Definition TurnShared_default : TurnShared :=
  {| ts_cancelled := false; ts_emission := EmissionState_default; ts_invocation_open := true;
     ts_admission_closed := false; ts_operation_active := false; ts_closed := false; ts_scope_strong := 1 |}.

(** [lease_holder] is the task that acquired [active_turn]; the program has only
    the flag. [turn] is what the running turn shares, and [past_turns] what the
    turns that gave up the lease did, oldest first: their streams and editors may
    outlive them. *)
Record World := {
  data : SessionData;
  active_turn : bool;
  metadata_reconciliation_required : bool;
  lease_holder : option nat;
  heap : list SessionRecord;
  host_strong_count : N;
  turn : TurnShared;
  permission_context : option ActivePermissionContext;
  permission_contexts : nat;
  past_turns : list TurnShared;
}.

Definition set_data (s : World) (d : SessionData) : World :=
  {| data := d; active_turn := active_turn s;
     metadata_reconciliation_required := metadata_reconciliation_required s; lease_holder := lease_holder s;
     heap := heap s; host_strong_count := host_strong_count s; turn := turn s;
     permission_context := permission_context s; permission_contexts := permission_contexts s;
     past_turns := past_turns s |}.
Definition set_lease (s : World) (b : bool) (holder : option nat) : World :=
  {| data := data s; active_turn := b;
     metadata_reconciliation_required := metadata_reconciliation_required s; lease_holder := holder;
     heap := heap s; host_strong_count := host_strong_count s; turn := turn s;
     permission_context := permission_context s; permission_contexts := permission_contexts s;
     past_turns := past_turns s |}.
Definition set_reconciliation_required (s : World) (b : bool) : World :=
  {| data := data s; active_turn := active_turn s; metadata_reconciliation_required := b;
     lease_holder := lease_holder s; heap := heap s; host_strong_count := host_strong_count s; turn := turn s;
     permission_context := permission_context s; permission_contexts := permission_contexts s;
     past_turns := past_turns s |}.
Definition set_heap (s : World) (l : list SessionRecord) : World :=
  {| data := data s; active_turn := active_turn s;
     metadata_reconciliation_required := metadata_reconciliation_required s; lease_holder := lease_holder s;
     heap := l; host_strong_count := host_strong_count s; turn := turn s;
     permission_context := permission_context s; permission_contexts := permission_contexts s;
     past_turns := past_turns s |}.
Definition set_turn (s : World) (t : TurnShared) : World :=
  {| data := data s; active_turn := active_turn s;
     metadata_reconciliation_required := metadata_reconciliation_required s; lease_holder := lease_holder s;
     heap := heap s; host_strong_count := host_strong_count s; turn := t;
     permission_context := permission_context s; permission_contexts := permission_contexts s;
     past_turns := past_turns s |}.
Definition set_permission_context (s : World) (c : option ActivePermissionContext) (n : nat) : World :=
  {| data := data s; active_turn := active_turn s;
     metadata_reconciliation_required := metadata_reconciliation_required s; lease_holder := lease_holder s;
     heap := heap s; host_strong_count := host_strong_count s; turn := turn s;
     permission_context := c; permission_contexts := n; past_turns := past_turns s |}.

Definition turn_cancelled (s : World) : bool := ts_cancelled (turn s).
Definition emission (s : World) : EmissionState := ts_emission (turn s).

Definition canonical (s : World) : SessionRecord := arc_val (data_record (data s)).

(** ** Host code *)
Record PermissionInvocation := {
  inv_tool_name : ToolName;
  inv_call_id : ToolCallId;
  inv_arguments : Value;
}.

(** [PermissionAuthorization]; an admission is named by its allocation. *)
Record PermissionAuthorization := {
  auth_decision : PermissionDecision;
  auth_admission : option N;
}.

Inductive Query :=
| Q_load (store : N) (id : SessionId)
| Q_save (store : N) (record : SessionRecord) (expected : option SessionRevision)
| Q_stream (request : ModelRequest)
| Q_next_item (stream : N)
| Q_complete_input_limits (tool : ToolRef)
| Q_complete_output_limits (tool : ToolRef)
| Q_persist_arguments (tool : ToolRef) (context : ToolContext) (arguments : Value)
| Q_prepare (tool : ToolRef) (context : ToolContext) (call : ToolCall)
| Q_authorize (request : PermissionRequest) (invocation : PermissionInvocation)
| Q_admit (admission : N)
| Q_execute (tool : ToolRef) (context : ToolContext) (name : ToolName) (arguments : Value)
| Q_emit (event : EngineEvent).

(** The polls of a future that are [Pending], and its output. A future that never
    completes has no value here: a task that awaits it goes no further than one that
    is dropped while it awaits a longer future, so what holds of every history covers
    it, and only the end of a task supposes that what it awaits completes. *)
Definition Fut (X : Type) : Type := nat * X.

Definition Ans (q : Query) : Type :=
  match q with
  | Q_load _ _ => Fut (result (option SessionRecord) SessionStoreError)
  | Q_save _ _ _ => Fut (result SessionRevision SessionStoreError)
  | Q_stream _ => Fut (result N ProviderError)
  | Q_next_item _ => Fut (option (result ModelEvent ProviderError))
  | Q_complete_input_limits _ => option ToolInputLimits
  | Q_complete_output_limits _ => option ToolOutputLimits
  | Q_persist_arguments _ _ _ => Fut (result (option Value) ToolError)
  | Q_prepare _ _ _ => result PreparedToolCall ToolError
  | Q_authorize _ _ => Fut (result PermissionAuthorization PermissionError)
  | Q_admit _ => result unit PermissionError
  | Q_execute _ _ _ _ => Fut (result ToolExecution ToolError)
  | Q_emit _ => Fut (result unit EventSinkError)
  end.

Notation sprog := (prog World Query Ans).
Notation Events := (history World Query Ans).

(** ** The canonical record *)
Definition snapshot : sprog (ArcRecord * bool) :=
  get (fun s => (data_record (data s), data_persisted (data s))).

Definition snapshot_is_current (record : ArcRecord) (persisted : bool) : sprog bool :=
  get (fun s => (arc_ptr (data_record (data s)) =? arc_ptr record)%nat &&
                eqb (data_persisted (data s)) persisted).

Definition mark_missing_if_current (record : ArcRecord) (persisted : bool) : sprog unit :=
  modify (fun s =>
    if (arc_ptr (data_record (data s)) =? arc_ptr record)%nat && eqb (data_persisted (data s)) persisted
    then set_data s {| data_record := data_record (data s); data_persisted := false |}
    else s).

(** [Arc::new] *)
Definition arc_new (record : SessionRecord) : sprog ArcRecord :=
  act (fun s => ({| arc_ptr := length (heap s); arc_val := record |}, set_heap s (heap s ++ [record]))).

Definition validate_loaded (record : SessionRecord) : result unit EngineError :=
  fail_if (rec_revision record =? 0)%N with Engine_Protocol "stored session revision must be positive" in
  fail_if (rec_next_turn_sequence record =? 0)%N
    with Engine_Protocol "stored next turn sequence must be positive" in
  Ok tt.

Definition validate_record_identity (canonical candidate : SessionRecord) : result unit EngineError :=
  fail_if negb (bool_decide (rec_id candidate = rec_id canonical))
    with Engine_Protocol ("session store returned ID " +:+ rec_id candidate +:+ " for requested ID "
                          +:+ rec_id canonical) in
  fail_if negb (bool_decide (rec_incarnation_id candidate = rec_incarnation_id canonical))
    with SessionIncarnationConflict in
  Ok tt.

Definition validate_sequence_progress (canonical candidate : SessionRecord) : result unit EngineError :=
  fail_if (rec_next_turn_sequence candidate <? rec_next_turn_sequence canonical)%N
    with Engine_Protocol ("session turn sequence regressed from " +:+ pretty (rec_next_turn_sequence canonical)
                          +:+ " to " +:+ pretty (rec_next_turn_sequence candidate)) in
  Ok tt.

Definition MAX_RECONCILE_RETRIES : nat := 32.

(** The checks of one iteration of [reconcile_loaded]. *)
Definition check_loaded (canonical record : SessionRecord) : result unit EngineError :=
  let? _ := validate_record_identity canonical record in
  let? _ := validate_sequence_progress canonical record in
  fail_if (rec_revision record <? rec_revision canonical)%N
    with Engine_Protocol ("session store returned stale revision " +:+ pretty (rec_revision record)
                          +:+ " behind canonical revision " +:+ pretty (rec_revision canonical)) in
  fail_if (rec_revision record =? rec_revision canonical)%N && negb (bool_decide (record = canonical))
    with Engine_Protocol "session store returned different records at the same revision" in
  Ok tt.

(** The second critical section: [None] is the [continue]. *)
Definition install_loaded (canonical record : ArcRecord) (s : World) : option unit * World :=
  if negb (arc_ptr (data_record (data s)) =? arc_ptr canonical)%nat then (None, s)
  else
    (Some tt,
     set_data s
       {| data_record := if (rec_revision (arc_val canonical) <? rec_revision (arc_val record))%N
                         then record else data_record (data s);
          data_persisted := true |}).

Fixpoint reconcile_loaded_loop (n : nat) (record : ArcRecord) : sprog (result unit EngineError) :=
  match n with
  | O => Ret (Err (Engine_Protocol "session load reconciliation exceeded its retry bound"))
  | S n =>
      do snap <- snapshot;
      match check_loaded (arc_val (fst snap)) (arc_val record) with
      | Err e => Ret (Err e)
      | Ok _ =>
          do installed <- act (install_loaded (fst snap) record);
          match installed with
          | Some _ => Ret (Ok tt)
          | None => reconcile_loaded_loop n record
          end
      end
  end.

Definition reconcile_loaded (record : SessionRecord) : sprog (result unit EngineError) :=
  match validate_loaded record with
  | Err e => Ret (Err e)
  | Ok _ =>
      do record <- arc_new record;
      reconcile_loaded_loop MAX_RECONCILE_RETRIES record
  end.

Definition check_saved (canonical record : SessionRecord) : result unit EngineError :=
  let? _ := validate_record_identity canonical record in
  let? _ := validate_sequence_progress canonical record in
  fail_if (rec_revision canonical =? rec_revision record)%N && negb (bool_decide (canonical = record))
    with Engine_Protocol "successful save diverged from canonical record at the same revision" in
  Ok tt.

Definition install_saved (canonical record : ArcRecord) (s : World) : option unit * World :=
  if negb (arc_ptr (data_record (data s)) =? arc_ptr canonical)%nat then (None, s)
  else
    (Some tt,
     if (rec_revision (arc_val canonical) <? rec_revision (arc_val record))%N then
       set_data s {| data_record := record; data_persisted := true |}
     else if (rec_revision (arc_val canonical) =? rec_revision (arc_val record))%N then
       set_data s {| data_record := data_record (data s); data_persisted := true |}
     else s).

Fixpoint reconcile_saved_loop (n : nat) (record : ArcRecord) : sprog (result unit EngineError) :=
  match n with
  | O => Ret (Err (Engine_Protocol "session save reconciliation exceeded its retry bound"))
  | S n =>
      do snap <- snapshot;
      match check_saved (arc_val (fst snap)) (arc_val record) with
      | Err e => Ret (Err e)
      | Ok _ =>
          do installed <- act (install_saved (fst snap) record);
          match installed with
          | Some _ => Ret (Ok tt)
          | None => reconcile_saved_loop n record
          end
      end
  end.

Definition reconcile_saved (record : ArcRecord) : sprog (result unit EngineError) :=
  reconcile_saved_loop MAX_RECONCILE_RETRIES record.

(** [SessionState::validate_identity] *)
Definition validate_identity (record : SessionRecord) : sprog (result unit EngineError) :=
  do canonical <- get canonical;
  Ret (validate_record_identity canonical record).

(** ** The exclusive lease *)
(** [active_turn.compare_exchange(false, true)] *)
Definition acquire_lease (me : nat) : sprog bool :=
  act (fun s => if active_turn s then (false, s) else (true, set_lease s true (Some me))).

(** [Drop for TurnLease] *)
Definition release_lease (s : World) : World := set_lease s false None.

(** [reconcile_loaded_idle] *)
Definition reconcile_loaded_idle (me : nat) (record : SessionRecord) : sprog (result unit EngineError) :=
  do acquired <- acquire_lease me;
  if negb acquired then Ret (Err SessionBusy)
  else guarded release_lease (fun _ => false) (reconcile_loaded record).

(** ** Host leases and store access *)
(** [HostLease::ensure_open]: [has_host] is whether the engine has a host
    resource at all. *)
Definition ensure_open (has_host : bool) : sprog (result unit EngineError) :=
  do count <- get host_strong_count;
  Ret (if has_host && (count =? 0)%N then Err HostClosed else Ok tt).

Definition validate_store_access (store underlying : N) : result unit EngineError :=
  fail_if negb (store =? underlying)%N with Engine_Protocol "session store access identity mismatch" in
  Ok tt.

(** ** Awaiting host work *)
(** [future.await] *)
Fixpoint await_pending {X} (n : nat) (x : X) : sprog X :=
  match n with
  | O => Ret x
  | S n => Yield id (await_pending n x)
  end.
Definition await {X} (f : Fut X) : sprog X := await_pending (fst f) (snd f).

Definition is_cancelled : sprog bool := get turn_cancelled.

Definition check_cancelled : sprog (result unit WorkflowAbort) :=
  do c <- is_cancelled; Ret (if c then Err AbortCancelled else Ok tt).

(** [await_cancellable], one level per poll; [await_record_load] with
    cancellation honoured and [next_model_item] are the same polls. *)
Fixpoint await_cancellable_polls {X} (n : nat) (x : X) : sprog (result X WorkflowAbort) :=
  do c <- is_cancelled;
  if c then Ret (Err AbortCancelled)
  else
    do c <- is_cancelled;
    if c then Ret (Err AbortCancelled)
    else match n with
         | O => Ret (Ok x)
         | S n => Yield id (await_cancellable_polls n x)
         end.
Definition await_cancellable {X} (f : Fut X) : sprog (result X WorkflowAbort) :=
  await_cancellable_polls (fst f) (snd f).

Definition await_operation {X} (f : Fut X) (honor_cancellation : bool) : sprog (result X WorkflowAbort) :=
  if honor_cancellation then await_cancellable f else do x <- await f; Ret (Ok x).

Definition await_record_load (f : Fut (result (option SessionRecord) SessionStoreError))
    (honor_cancellation : bool)
    : sprog (result (result (option SessionRecord) SessionStoreError) WorkflowAbort) :=
  if negb honor_cancellation then do x <- await f; Ret (Ok x) else await_cancellable f.

(** The polls of [await_final_save]: a revision wins over cancellation. *)
Fixpoint await_final_polls (first_poll : bool) (n : nat) (x : result SessionRevision SessionStoreError)
    : sprog (result (result SessionRevision SessionStoreError) WorkflowAbort) :=
  do c <- (if first_poll then Ret false else is_cancelled);
  if c then Ret (Err AbortCancelled)
  else match n with
       | O =>
           match x with
           | Ok revision => Ret (Ok (Ok revision))
           | Err error =>
               do c <- is_cancelled;
               Ret (if c then Err AbortCancelled else Ok (Err error))
           end
       | S n =>
           do c <- is_cancelled;
           if c then Ret (Err AbortCancelled) else Yield id (await_final_polls false n x)
       end.

Definition await_final_save (store : N) (record : SessionRecord) (expected_revision : option SessionRevision)
    : sprog (result (result SessionRevision SessionStoreError) WorkflowAbort) :=
  do? _ <- check_cancelled;
  do f <- ask (Q_save store record expected_revision);
  await_final_polls true (fst f) (snd f).

(** ** What other tasks do *)
(** The shared state is consistent: the canonical record is allocated, the flag
    is set exactly while some task holds the lease, and no call is shown for
    authorization while no one holds it. *)
Definition valid_arc (s : World) (a : ArcRecord) : Prop := heap s !! arc_ptr a = Some (arc_val a).

Record inv (s : World) : Prop := {
  inv_arc : valid_arc s (data_record (data s));
  inv_lease : active_turn s = match lease_holder s with Some _ => true | None => false end;
  inv_context : lease_holder s = None -> permission_context s = None;
}.

(** The turns of the past stay, and what of them is closed or cancelled stays so. *)
Record shared_settles (t t' : TurnShared) : Prop := {
  ss_cancelled : ts_cancelled t = true -> ts_cancelled t' = true;
  ss_invocation : ts_invocation_open t = false -> ts_invocation_open t' = false;
  ss_admission : ts_admission_closed t = true -> ts_admission_closed t' = true;
}.

Lemma shared_settles_refl t : shared_settles t t.
Proof. by constructor. Qed.

Lemma shared_settles_trans t1 t2 t3 : shared_settles t1 t2 -> shared_settles t2 t3 -> shared_settles t1 t3.
Proof. intros [A1 A2 A3] [B1 B2 B3]. constructor; auto. Qed.

Definition past_grows (s s' : World) : Prop :=
  forall i t, past_turns s !! i = Some t -> exists t', past_turns s' !! i = Some t' /\ shared_settles t t'.

Lemma past_grows_same s s' : past_turns s' = past_turns s -> past_grows s s'.
Proof. intros E i t Ht. exists t. rewrite E. by split. Qed.

Lemma past_grows_trans s1 s2 s3 : past_grows s1 s2 -> past_grows s2 s3 -> past_grows s1 s3.
Proof.
  intros H1 H2 i t Ht. destruct (H1 i t Ht) as (t2 & Ht2 & S2). destruct (H2 i t2 Ht2) as (t3 & Ht3 & S3).
  exists t3. split; [done|]. by eapply shared_settles_trans.
Qed.

Lemma past_grows_length s s' : past_grows s s' -> length (past_turns s) <= length (past_turns s').
Proof.
  intros H. destruct (decide (length (past_turns s') < length (past_turns s))) as [Hl|]; [|lia].
  destruct (lookup_lt_is_Some_2 _ _ Hl) as [t Ht]. destruct (H _ _ Ht) as (t' & Ht' & _).
  apply lookup_lt_Some in Ht'. lia.
Qed.

(** Progress, by any task: the record keeps its identity, and a different record
    has a higher revision and no lower turn sequence. *)
Record evolves (s s' : World) : Prop := {
  ev_inv : inv s -> inv s';
  ev_heap : heap s `prefix_of` heap s';
  ev_id : rec_id (canonical s') = rec_id (canonical s);
  ev_incarnation : rec_incarnation_id (canonical s') = rec_incarnation_id (canonical s);
  ev_seq : (rec_next_turn_sequence (canonical s) <= rec_next_turn_sequence (canonical s'))%N;
  ev_record : data_record (data s') = data_record (data s) \/
    (rec_revision (canonical s) < rec_revision (canonical s'))%N;
  ev_past : past_grows s s';
}.

(** What the event stream does to the gate between two polls of the workflow: it
    takes a staged event, and acknowledges it once it is delivered. *)
Record delivers (e e' : EmissionState) : Prop := {
  dl_usage : em_usage e' = em_usage e;
  dl_terminal : em_terminal_established e' = em_terminal_established e;
  dl_deferrals : em_cancellation_deferrals e' = em_cancellation_deferrals e;
  dl_outstanding : em_outstanding e' = em_outstanding e;
  dl_idle : em_outstanding e = false -> em_pending e' = em_pending e /\ em_acknowledged e' = em_acknowledged e;
  dl_pending : em_pending e' = em_pending e \/ em_pending e' = None;
  dl_acknowledged : em_acknowledged e' = em_acknowledged e \/ (em_acknowledged e' = true /\ em_pending e' = None);
}.

Lemma delivers_refl e : delivers e e.
Proof. constructor; auto. Qed.

Lemma delivers_trans e1 e2 e3 : delivers e1 e2 -> delivers e2 e3 -> delivers e1 e3.
Proof.
  intros [A1 A2 A3 A4 A5 A6 A7] [B1 B2 B3 B4 B5 B6 B7].
  constructor; [congruence|congruence|congruence|congruence| | |].
  - intros E. destruct (A5 E) as [<- <-]. apply B5. congruence.
  - destruct A6 as [A6|A6], B6 as [B6|B6]; rewrite ?B6, ?A6; auto.
  - destruct B7 as [B7|B7]; [|by right]. rewrite B7.
    destruct A7 as [A7|[A7 A8]]; [left; congruence|right]. split; [done|]. destruct B6; congruence.
Qed.

(** What the task [me] relies on. *)
Record rely (me : nat) (s s' : World) : Prop := {
  rely_evolves : evolves s s';
  rely_lease : lease_holder s = Some me -> lease_holder s' = Some me;
  rely_lease_back : lease_holder s' = Some me -> lease_holder s = Some me;
  rely_debt : lease_holder s = Some me ->
    metadata_reconciliation_required s = true -> metadata_reconciliation_required s' = true;
  rely_cancelled : lease_holder s = Some me -> turn_cancelled s = true -> turn_cancelled s' = true;
  rely_emission : lease_holder s = Some me -> delivers (emission s) (emission s');
  rely_context : lease_holder s = Some me ->
    permission_context s' = permission_context s /\ permission_contexts s' = permission_contexts s;
}.

Lemma evolves_refl s : evolves s s.
Proof. constructor; auto using past_grows_same; lia. Qed.

Lemma evolves_revision s s' : evolves s s' -> (rec_revision (canonical s) <= rec_revision (canonical s'))%N.
Proof. intros [_ _ _ _ _ [E|?] _]; [unfold canonical; rewrite E|]; lia. Qed.

Lemma evolves_trans s1 s2 s3 : evolves s1 s2 -> evolves s2 s3 -> evolves s1 s3.
Proof.
  intros H1 H2. pose proof (evolves_revision _ _ H1). pose proof (evolves_revision _ _ H2).
  destruct H1 as [A1 A2 A3 A4 A5 A6 A7], H2 as [B1 B2 B3 B4 B5 B6 B7].
  constructor; [auto|by etrans|congruence|congruence|lia| |by eapply past_grows_trans].
  destruct A6 as [A6|A6], B6 as [B6|B6]; [left; congruence|right; lia..].
Qed.

#[export] Instance evolves_preorder : PreOrder evolves.
Proof. split; [exact evolves_refl|exact evolves_trans]. Qed.

Lemma rely_refl me s : rely me s s.
Proof. constructor; auto using evolves_refl, delivers_refl. Qed.

Lemma rely_trans me s1 s2 s3 : rely me s1 s2 -> rely me s2 s3 -> rely me s1 s3.
Proof.
  intros [? A1 ? ? ? A5 A6] [? B1 ? ? ? B5 B6]. constructor; auto; [by etrans| |].
  - intros Hl. eapply delivers_trans; auto.
  - intros Hl. destruct (A6 Hl) as [<- <-]. auto.
Qed.

(** A snapshot stays valid, and is the canonical record whenever its pointer is
    the current one. *)
Lemma valid_arc_stable s s' a : evolves s s' -> valid_arc s a -> valid_arc s' a.
Proof. intros [_ Hp _ _ _ _ _] Ha. by eapply prefix_lookup_Some. Qed.

Lemma valid_arc_current s a :
  inv s -> valid_arc s a -> arc_ptr (data_record (data s)) = arc_ptr a -> data_record (data s) = a.
Proof.
  intros [Hc _ _] Ha E. unfold valid_arc in *. rewrite E in Hc.
  destruct (data_record (data s)), a; simpl in *. congruence.
Qed.

(** ** Own actions *)
(** What other tasks do to a turn [me] that holds the lease: [rely] without the
    turn's own stream, which alone acts on the gate. *)
Record others (me : nat) (s s' : World) : Prop := {
  ot_rely : rely me s s';
  ot_emission : lease_holder s = Some me -> emission s' = emission s;
  ot_past : lease_holder s = Some me -> length (past_turns s') = length (past_turns s);
  ot_shared : lease_holder s = Some me -> shared_settles (turn s) (turn s');
}.

Lemma others_refl me s : others me s s.
Proof. constructor; try done. apply rely_refl. Qed.

Lemma others_trans me s1 s2 s3 : others me s1 s2 -> others me s2 s3 -> others me s1 s3.
Proof.
  intros [R1 E1 P1 S1] [R2 E2 P2 S2]. constructor; [by eapply rely_trans|..]; intros Hl;
    pose proof (rely_lease _ _ _ R1 Hl); [rewrite E2|rewrite P2|eapply shared_settles_trans]; eauto.
Qed.

(** What every other task can rely on. *)
Definition own (me : nat) (s s' : World) : Prop := forall other, other <> me -> others other s s'.

(** An action that leaves the lease, the debt and the turn alone. *)
Record quiet (s s' : World) : Prop := {
  quiet_evolves : evolves s s';
  quiet_lease : lease_holder s' = lease_holder s;
  quiet_debt : metadata_reconciliation_required s' = metadata_reconciliation_required s;
  quiet_turn : turn s' = turn s;
  quiet_context : permission_context s' = permission_context s /\ permission_contexts s' = permission_contexts s;
  quiet_past : past_turns s' = past_turns s;
}.

Lemma quiet_refl s : quiet s s.
Proof. constructor; auto. apply evolves_refl. Qed.

Lemma quiet_rely me s s' : quiet s s' -> rely me s s'.
Proof.
  intros [? E1 E2 E3 E4 _]. unfold emission. constructor; unfold turn_cancelled, emission; rewrite ?E1, ?E2, ?E3; try done.
  intros _. apply delivers_refl.
Qed.

Lemma quiet_others me s s' : quiet s s' -> others me s s'.
Proof.
  intros Hq. pose proof Hq as [_ _ _ E _ P]. constructor; [by apply quiet_rely|..]; intros _; [|by rewrite P|].
  - unfold emission. by rewrite E.
  - rewrite E. apply shared_settles_refl.
Qed.

Lemma quiet_own me s s' : quiet s s' -> own me s s'.
Proof. intros Hq other _. by apply quiet_others. Qed.

(** An action of the lease holder. *)
Lemma held_own me s s' :
  evolves s s' -> lease_holder s = Some me -> lease_holder s' = Some me \/ lease_holder s' = None ->
  own me s s'.
Proof.
  intros He Hl Hl' other Ho. constructor; [constructor; [done|..]|..]; intros; destruct Hl' as [Hl'|Hl']; congruence.
Qed.

Lemma evolves_same_data s s' :
  data s' = data s -> heap s' = heap s -> past_turns s' = past_turns s ->
  active_turn s' = match lease_holder s' with Some _ => true | None => false end ->
  (lease_holder s' = None -> permission_context s' = None) ->
  evolves s s'.
Proof.
  intros E1 E2 E3 E4 E5. unfold canonical. constructor; unfold canonical; rewrite ?E1, ?E2; auto using past_grows_same; try lia.
  intros [Ha _ _]. constructor; [|done..]. unfold valid_arc in *. by rewrite E1, E2.
Qed.

Lemma quiet_set_data s d :
  (inv s -> valid_arc s (data_record d)) ->
  rec_id (arc_val (data_record d)) = rec_id (canonical s) ->
  rec_incarnation_id (arc_val (data_record d)) = rec_incarnation_id (canonical s) ->
  (rec_next_turn_sequence (canonical s) <= rec_next_turn_sequence (arc_val (data_record d)))%N ->
  data_record d = data_record (data s) \/ (rec_revision (canonical s) < rec_revision (arc_val (data_record d)))%N ->
  quiet s (set_data s d).
Proof.
  intros Hv H1 H2 H3 H4. constructor; try done. constructor; try done; [|by apply past_grows_same].
  intros Hi. constructor; [by apply Hv|apply Hi|apply Hi].
Qed.

Lemma quiet_persisted s b :
  quiet s (set_data s {| data_record := data_record (data s); data_persisted := b |}).
Proof. apply quiet_set_data; simpl; auto using inv_arc; unfold canonical; lia. Qed.

Lemma quiet_arc_new s r : quiet s (set_heap s (heap s ++ [r])).
Proof.
  constructor; try done. constructor; try done; [|by apply prefix_app_r|by left|by apply past_grows_same].
  intros [Ha Hl Hc]. constructor; [|done..]. unfold valid_arc in *. simpl. by apply lookup_app_l_Some.
Qed.

(** The checks of the two reconciliations. *)
Lemma identity_ok c r :
  validate_record_identity c r = Ok tt -> rec_id r = rec_id c /\ rec_incarnation_id r = rec_incarnation_id c.
Proof. unfold validate_record_identity. intros. simpl_result. by bool_to_prop. Qed.

Lemma sequence_ok c r :
  validate_sequence_progress c r = Ok tt -> (rec_next_turn_sequence c <= rec_next_turn_sequence r)%N.
Proof. unfold validate_sequence_progress. intros. simpl_result. by bool_to_prop. Qed.

Lemma check_loaded_ok c r :
  check_loaded c r = Ok tt ->
  rec_id r = rec_id c /\ rec_incarnation_id r = rec_incarnation_id c /\
  (rec_next_turn_sequence c <= rec_next_turn_sequence r)%N /\
  (r = c \/ (rec_revision c < rec_revision r)%N).
Proof.
  unfold check_loaded. intros H. simpl_result. destruct a, a0.
  apply identity_ok in E as [? ?]. apply sequence_ok in E0. bool_to_prop.
  split_and!; try done. apply andb_false_iff in E2 as [E2|E2]; bool_to_prop; [right; lia|by left].
Qed.

Lemma check_saved_ok c r :
  check_saved c r = Ok tt ->
  rec_id r = rec_id c /\ rec_incarnation_id r = rec_incarnation_id c /\
  (rec_next_turn_sequence c <= rec_next_turn_sequence r)%N /\
  (r = c \/ rec_revision c <> rec_revision r).
Proof.
  unfold check_saved. intros H. simpl_result. destruct a, a0.
  apply identity_ok in E as [? ?]. apply sequence_ok in E0.
  split_and!; try done. apply andb_false_iff in E1 as [E1|E1]; bool_to_prop; [by right|by left].
Qed.

(** The record [r] is reflected by the state: installed, or overtaken. *)
Definition reflects (r : SessionRecord) (s : World) : Prop :=
  canonical s = r \/ (rec_revision r < rec_revision (canonical s))%N.

Lemma reflects_revision r s : reflects r s -> (rec_revision r <= rec_revision (canonical s))%N.
Proof. intros [<-|?]; lia. Qed.

Lemma reflects_evolves r s s' : evolves s s' -> reflects r s -> reflects r s'.
Proof.
  intros He. pose proof (evolves_revision _ _ He). destruct He as [_ _ _ _ _ Hd _].
  intros [<-|?]; [|right; lia]. destruct Hd as [Hd|?]; [left; unfold canonical; by rewrite Hd|by right].
Qed.

Lemma install_loaded_spec c r s :
  inv s -> valid_arc s c -> valid_arc s r -> check_loaded (arc_val c) (arc_val r) = Ok tt ->
  quiet s (snd (install_loaded c r s)) /\
  (fst (install_loaded c r s) = Some tt -> reflects (arc_val r) (snd (install_loaded c r s))).
Proof.
  intros Hi Hc Hr Hk. apply check_loaded_ok in Hk as (H1 & H2 & H3 & H4). unfold install_loaded.
  destruct (Nat.eqb_spec (arc_ptr (data_record (data s))) (arc_ptr c)) as [E|E]; simpl; [|by split; [apply quiet_refl|]].
  apply valid_arc_current in E; [|done..]. subst c. fold (canonical s) in *.
  destruct (N.ltb_spec (rec_revision (canonical s)) (rec_revision (arc_val r))) as [Hl|Hl]; split.
  - apply quiet_set_data; simpl; auto.
  - intros _. by left.
  - apply quiet_persisted.
  - intros _. destruct H4 as [H4|H4]; [by left|lia].
Qed.

Lemma install_saved_spec c r s :
  inv s -> valid_arc s c -> valid_arc s r -> check_saved (arc_val c) (arc_val r) = Ok tt ->
  quiet s (snd (install_saved c r s)) /\
  (fst (install_saved c r s) = Some tt -> reflects (arc_val r) (snd (install_saved c r s))).
Proof.
  intros Hi Hc Hr Hk. apply check_saved_ok in Hk as (H1 & H2 & H3 & H4). unfold install_saved.
  destruct (Nat.eqb_spec (arc_ptr (data_record (data s))) (arc_ptr c)) as [E|E]; simpl; [|by split; [apply quiet_refl|]].
  apply valid_arc_current in E; [|done..]. subst c. fold (canonical s) in *.
  destruct (N.ltb_spec (rec_revision (canonical s)) (rec_revision (arc_val r))) as [Hl|Hl].
  { split; [apply quiet_set_data; simpl; auto|]. intros _. by left. }
  destruct (N.eqb_spec (rec_revision (canonical s)) (rec_revision (arc_val r))) as [Hq|Hq]; split.
  - apply quiet_persisted.
  - intros _. destruct H4 as [H4|H4]; [by left|lia].
  - apply quiet_refl.
  - intros _. right. unfold canonical in *. lia.
Qed.

(** ** Reconciliation under interference *)
Definition quiet_event (e : event World Query Ans) : Prop :=
  match e with EvAct s s' => quiet s s' | _ => False end.

(** The task only added quiet actions to its history. *)
Definition adds_quiet (h h' : Events) : Prop := exists l, h' = l ++ h /\ Forall quiet_event l.

Lemma adds_quiet_refl h : adds_quiet h h.
Proof. by exists []. Qed.

Lemma adds_quiet_trans h1 h2 h3 : adds_quiet h1 h2 -> adds_quiet h2 h3 -> adds_quiet h1 h3.
Proof.
  intros (l & -> & Hl) (k & -> & Hk). exists (k ++ l). rewrite <-app_assoc. split; [done|].
  by apply Forall_app.
Qed.

Lemma adds_quiet_cons s s' h h' : quiet s s' -> adds_quiet (EvAct s s' :: h) h' -> adds_quiet h h'.
Proof. intros Hq. apply adds_quiet_trans. exists [EvAct s s']. split; [done|]. by apply Forall_singleton. Qed.

Lemma adds_quiet_one s s' h : quiet s s' -> adds_quiet h (EvAct s s' :: h).
Proof. intros Hq. by eapply adds_quiet_cons, adds_quiet_refl. Qed.

Section Contract.
Context (me : nat).
Context (admissible : Events -> World -> forall q, Ans q -> Prop).
Context (al : event World Query Ans -> Events -> Prop).
Context (al_quiet : forall s s' h, quiet s s' -> al (EvAct s s') h).
Notation swp := (wp (rely me) admissible al).

Lemma inv_rely s s' : rely me s s' -> inv s -> inv s'.
Proof. intros [[? _ _ _ _ _ _] _ _ _ _ _ _]. auto. Qed.

Lemma arc_rely s s' a : rely me s s' -> valid_arc s a -> valid_arc s' a.
Proof. intros [He _ _ _ _ _ _]. by apply valid_arc_stable. Qed.

(** Reading a component of the state. *)
Lemma wp_get {X B} (f : World -> X) (c : X -> sprog B) post s h :
  (forall s', rely me s s' -> swp (c (f s')) post s' (EvAct s' s' :: h)) ->
  swp (bind (get f) c) post s h.
Proof. intros H s' R. split; [apply al_quiet, quiet_refl|]. by apply H. Qed.

(** A quiet action. *)
Lemma wp_act_quiet {X B} (f : World -> X * World) (c : X -> sprog B) post s h :
  (forall s', rely me s s' -> quiet s' (snd (f s')) /\
     swp (c (fst (f s'))) post (snd (f s')) (EvAct s' (snd (f s')) :: h)) ->
  swp (bind (act f) c) post s h.
Proof. intros H s' R. destruct (H s' R) as [? ?]. split; [by apply al_quiet|done]. Qed.

Lemma wp_reconcile_loaded_loop n r post : forall s h,
  inv s -> valid_arc s r ->
  (forall res s' h', rely me s s' -> adds_quiet h h' -> (res = Ok tt -> reflects (arc_val r) s') ->
     post (Returned res) s' h') ->
  swp (reconcile_loaded_loop n r) post s h.
Proof.
  induction n as [|n IH]; intros s h Hi Hr Hp; cbn [reconcile_loaded_loop].
  { intros s' R. apply Hp; [done|apply adds_quiet_refl|done]. }
  apply wp_get. intros s1 R1. cbn [fst]. destruct (check_loaded _ _) as [[]|e] eqn:Ec.
  2:{ intros s2 R2. apply Hp; [by eapply rely_trans|apply adds_quiet_one, quiet_refl|done]. }
  pose proof (inv_rely _ _ R1 Hi) as Hi1. apply wp_act_quiet. intros s2 R2.
  assert (valid_arc s2 (data_record (data s1))) as Hc2 by (eapply arc_rely; [exact R2|apply Hi1]).
  assert (valid_arc s2 r) as Hr2 by (eapply arc_rely; [exact R2|by eapply arc_rely]).
  pose proof (inv_rely _ _ R2 Hi1) as Hi2.
  destruct (install_loaded_spec _ r s2 Hi2 Hc2 Hr2 Ec) as [Hq Hf]. split; [done|].
  pose proof (quiet_rely me _ _ Hq) as Rq.
  destruct (fst (install_loaded _ _ _)) as [[]|].
  - intros s3 R3. apply Hp.
    + eapply rely_trans; [exact R1|]. eapply rely_trans; [exact R2|]. by eapply rely_trans.
    + eapply adds_quiet_cons; [apply quiet_refl|]. by apply adds_quiet_one.
    + intros _. eapply reflects_evolves; [apply R3|auto].
  - apply IH; [by eapply inv_rely|by eapply arc_rely|]. intros res s' h' R' Hh' Hres. apply Hp; [| |done].
    + eapply rely_trans; [exact R1|]. eapply rely_trans; [exact R2|]. by eapply rely_trans.
    + eapply adds_quiet_cons; [apply quiet_refl|]. by eapply adds_quiet_cons.
Qed.

Lemma wp_reconcile_saved_loop n r post : forall s h,
  inv s -> valid_arc s r ->
  (forall res s' h', rely me s s' -> adds_quiet h h' -> (res = Ok tt -> reflects (arc_val r) s') ->
     post (Returned res) s' h') ->
  swp (reconcile_saved_loop n r) post s h.
Proof.
  induction n as [|n IH]; intros s h Hi Hr Hp; cbn [reconcile_saved_loop].
  { intros s' R. apply Hp; [done|apply adds_quiet_refl|done]. }
  apply wp_get. intros s1 R1. cbn [fst]. destruct (check_saved _ _) as [[]|e] eqn:Ec.
  2:{ intros s2 R2. apply Hp; [by eapply rely_trans|apply adds_quiet_one, quiet_refl|done]. }
  pose proof (inv_rely _ _ R1 Hi) as Hi1. apply wp_act_quiet. intros s2 R2.
  assert (valid_arc s2 (data_record (data s1))) as Hc2 by (eapply arc_rely; [exact R2|apply Hi1]).
  assert (valid_arc s2 r) as Hr2 by (eapply arc_rely; [exact R2|by eapply arc_rely]).
  pose proof (inv_rely _ _ R2 Hi1) as Hi2.
  destruct (install_saved_spec _ r s2 Hi2 Hc2 Hr2 Ec) as [Hq Hf]. split; [done|].
  pose proof (quiet_rely me _ _ Hq) as Rq.
  destruct (fst (install_saved _ _ _)) as [[]|].
  - intros s3 R3. apply Hp.
    + eapply rely_trans; [exact R1|]. eapply rely_trans; [exact R2|]. by eapply rely_trans.
    + eapply adds_quiet_cons; [apply quiet_refl|]. by apply adds_quiet_one.
    + intros _. eapply reflects_evolves; [apply R3|auto].
  - apply IH; [by eapply inv_rely|by eapply arc_rely|]. intros res s' h' R' Hh' Hres. apply Hp; [| |done].
    + eapply rely_trans; [exact R1|]. eapply rely_trans; [exact R2|]. by eapply rely_trans.
    + eapply adds_quiet_cons; [apply quiet_refl|]. by eapply adds_quiet_cons.
Qed.

Lemma arc_new_valid s r : valid_arc (set_heap s (heap s ++ [r])) {| arc_ptr := length (heap s); arc_val := r |}.
Proof. unfold valid_arc. simpl. by rewrite lookup_app_r, Nat.sub_diag by lia. Qed.

Lemma wp_reconcile_loaded r post s h :
  inv s ->
  (forall res s' h', rely me s s' -> adds_quiet h h' ->
     (res = Ok tt -> reflects r s' /\ (0 < rec_revision r)%N /\ (0 < rec_next_turn_sequence r)%N) ->
     post (Returned res) s' h') ->
  swp (reconcile_loaded r) post s h.
Proof.
  intros Hi Hp. unfold reconcile_loaded. destruct (validate_loaded r) as [[]|e] eqn:Ev.
  2:{ intros s' R. apply Hp; [done|apply adds_quiet_refl|done]. }
  unfold validate_loaded in Ev. simpl_result. bool_to_prop.
  apply wp_act_quiet. intros s1 R1. pose proof (quiet_arc_new s1 r) as Hq. split; [done|].
  pose proof (quiet_rely me _ _ Hq) as Rq.
  apply wp_reconcile_loaded_loop; [eapply inv_rely; [exact Rq|by eapply inv_rely]|apply arc_new_valid|].
  intros res s' h' R' Hh' Hres. apply Hp.
  - eapply rely_trans; [exact R1|]. by eapply rely_trans.
  - by eapply adds_quiet_cons.
  - intros ->. split_and!; [by apply Hres|lia|lia].
Qed.

(** Saving and reconciling a record the caller has just allocated. *)
Lemma wp_reconcile_saved r post s h :
  inv s -> valid_arc s r ->
  (forall res s' h', rely me s s' -> adds_quiet h h' -> (res = Ok tt -> reflects (arc_val r) s') ->
     post (Returned res) s' h') ->
  swp (reconcile_saved r) post s h.
Proof. apply wp_reconcile_saved_loop. Qed.
End Contract.
