(* ===== verification/Emission.v ===== *)
(** * The emission gate ([session.rs], [EmissionGate] and [TurnEmitter])

    The one-event gate between the workflow of a turn and its event stream, and
    the scope that marks the request being authorized. *)
From S2P Require Import Prelude Ids Json Model Limits Prog SessionState.
Open Scope prog_scope.

Definition set_emission (s : World) (e : EmissionState) : World :=
  set_turn s {| ts_cancelled := ts_cancelled (turn s); ts_emission := e;
                ts_invocation_open := ts_invocation_open (turn s);
                ts_admission_closed := ts_admission_closed (turn s);
                ts_operation_active := ts_operation_active (turn s); ts_closed := ts_closed (turn s);
                ts_scope_strong := ts_scope_strong (turn s) |}.

(** ** The workflow's side *)
(** [checked_add(1).expect(..)]: the boolean is [false] for the panic. *)
Definition defer_cancellation (s : World) : bool * World :=
  let e := emission s in
  match checked_add (em_cancellation_deferrals e) 1 with
  | Some n =>
      (true, set_emission s {| em_pending := em_pending e; em_acknowledged := em_acknowledged e;
                               em_usage := em_usage e; em_terminal_established := em_terminal_established e;
                               em_cancellation_deferrals := n; em_outstanding := em_outstanding e |})
  | None => (false, s)
  end.

(** [Drop for TurnCancellationDeferral]; a deferral is released once. *)
Definition release_deferral (s : World) : World :=
  let e := emission s in
  set_emission s {| em_pending := em_pending e; em_acknowledged := em_acknowledged e; em_usage := em_usage e;
                    em_terminal_established := em_terminal_established e;
                    em_cancellation_deferrals := em_cancellation_deferrals e - 1;
                    em_outstanding := em_outstanding e |}.

Definition set_usage (usage : TokenUsage) (s : World) : World :=
  let e := emission s in
  set_emission s {| em_pending := em_pending e; em_acknowledged := em_acknowledged e; em_usage := usage;
                    em_terminal_established := em_terminal_established e;
                    em_cancellation_deferrals := em_cancellation_deferrals e; em_outstanding := em_outstanding e |}.

Definition establish_terminal_state (s : World) : World :=
  let e := emission s in
  set_emission s {| em_pending := em_pending e; em_acknowledged := em_acknowledged e; em_usage := em_usage e;
                    em_terminal_established := true;
                    em_cancellation_deferrals := em_cancellation_deferrals e; em_outstanding := em_outstanding e |}.
Definition establish_terminal : sprog unit := modify establish_terminal_state.

(** The first poll of an [EmitFuture]: [false] when one of its assertions fails. *)
Definition stage_event (event : StagedTurnEvent) (s : World) : bool * World :=
  let e := emission s in
  match em_pending e, em_acknowledged e with
  | None, false =>
      (true, set_emission s {| em_pending := Some event; em_acknowledged := false; em_usage := em_usage e;
                               em_terminal_established := em_terminal_established e;
                               em_cancellation_deferrals := em_cancellation_deferrals e; em_outstanding := true |})
  | _, _ => (false, s)
  end.

(** The later polls. *)
Definition acknowledged_event (s : World) : option (unit * World) :=
  let e := emission s in
  if em_acknowledged e then
    Some (tt, set_emission s {| em_pending := em_pending e; em_acknowledged := false; em_usage := em_usage e;
                                em_terminal_established := em_terminal_established e;
                                em_cancellation_deferrals := em_cancellation_deferrals e; em_outstanding := false |})
  else None.

Definition emit_future (event : StagedTurnEvent) : sprog unit :=
  do staged <- act (stage_event event);
  if negb staged then Panic else Wait acknowledged_event id Ret.

Definition emit (payload : TurnEvent) : sprog unit :=
  emit_future {| staged_payload := payload; establishes_terminal := false |}.
Definition emit_established_terminal (payload : TurnEvent) : sprog unit :=
  emit_future {| staged_payload := payload; establishes_terminal := true |}.

(** ** The stream's side *)
(** The events that end a turn. *)
Definition is_terminal (event : TurnEvent) : bool :=
  match event with Completed _ _ | Failed _ _ _ _ => true | _ => false end.

(** The stream of a turn acts on the gate of its own turn, so these are functions
    of a gate. *)
Definition take_pending (e : EmissionState) : option StagedTurnEvent * EmissionState :=
  (em_pending e,
   {| em_pending := None; em_acknowledged := em_acknowledged e; em_usage := em_usage e;
      em_terminal_established := em_terminal_established e;
      em_cancellation_deferrals := em_cancellation_deferrals e; em_outstanding := em_outstanding e |}).

Definition acknowledge (e : EmissionState) : EmissionState :=
  {| em_pending := em_pending e; em_acknowledged := true; em_usage := em_usage e;
     em_terminal_established := em_terminal_established e;
     em_cancellation_deferrals := em_cancellation_deferrals e; em_outstanding := em_outstanding e |}.

Definition clear_gate (e : EmissionState) : EmissionState :=
  {| em_pending := None; em_acknowledged := false; em_usage := em_usage e; em_terminal_established := false;
     em_cancellation_deferrals := em_cancellation_deferrals e; em_outstanding := em_outstanding e |}.

Definition cancellation_deferred (e : EmissionState) : bool := negb (em_cancellation_deferrals e =? 0)%N.

(** ** The permission context ([permission_context.rs]) *)
(** [PermissionContextScope::open] *)
Definition open_context (request : PermissionRequest) (cursor : N * N) (pending : Message) (s : World) : nat * World :=
  let ptr := permission_contexts s in
  (ptr,
   set_permission_context s
     (Some {| pc_ptr := ptr; pc_request_id := pr_id request; pc_session_id := pr_session_id request;
              pc_incarnation_id := pr_session_incarnation_id request; pc_turn_id := pr_turn_id request;
              pc_cursor := cursor; pc_pending := pending |}) (S ptr)).

(** [Drop for PermissionContextScope] *)
Definition close_context (ptr : nat) (s : World) : World :=
  match permission_context s with
  | Some active =>
      if (pc_ptr active =? ptr)%nat then set_permission_context s None (permission_contexts s) else s
  | None => s
  end.

(** [Session::permission_invocation_snapshot]: the pending call and its cursor. *)
Definition permission_invocation_snapshot (request : PermissionRequest) (s : World) : option (Message * (N * N)) :=
  active ← permission_context s;
  if negb (bool_decide (pc_request_id active = pr_id request)) ||
     negb (bool_decide (pc_session_id active = pr_session_id request)) ||
     negb (bool_decide (pc_incarnation_id active = pr_session_incarnation_id request)) ||
     negb (bool_decide (pc_turn_id active = pr_turn_id request)) || turn_cancelled s
  then None else Some (pc_pending active, pc_cursor active).
