(* ===== verification/Operations.v ===== *)
(** * Session operations ([session.rs])

    The exclusive operations of a session as programs: checking a revision,
    editing metadata, reserving a turn with and without a preparation, and the
    transcript commits of a running turn, each with its conflict retries, its
    lease and its publication debt. *)
From S2P Require Import Prelude Ids Json Model Limits Context Prog SessionState.
From stdpp Require Import pretty.
Open Scope prog_scope.

Definition metadata_revision_conflict : EngineError :=
  Engine_Store (ComponentError Store_Conflict "metadata_revision_conflict" "session metadata revision changed" true).

Definition preparation_revision_conflict : EngineError :=
  Engine_Store (ComponentError Store_Conflict "turn_preparation_conflict"
    "session turn preparation revision changed" true).

Definition non_increasing_revision : EngineError :=
  Engine_Protocol "session store returned a non-increasing revision".

Definition set_debt (b : bool) : sprog unit := modify (fun s => set_reconciliation_required s b).

(** [persisted.then_some(revision)] *)
Definition then_some (persisted : bool) (revision : SessionRevision) : option SessionRevision :=
  if persisted then Some revision else None.

Definition store_result {A} (r : result A SessionStoreError) : result A EngineError :=
  map_err (fun e => Engine_Store (redact_store_error e)) r.

Section Operations.
Context `{JsonWriter}.
Context (engine : EngineInner) (has_host : bool) (me : nat).

(** [reconcile_uncertain_metadata_with_store] *)
Definition reconcile_uncertain_metadata_with_store (store : N) : sprog (result unit EngineError) :=
  do required <- get metadata_reconciliation_required;
  if negb required then Ret (Ok tt)
  else
    do snap <- snapshot;
    let '(record, persisted) := snap in
    do f <- ask (Q_load store (rec_id (arc_val record)));
    do loaded <- await f;
    do? loaded <- Ret (store_result loaded);
    do? _ <-
      match loaded with
      | Some current =>
          do? _ <- Ret (validate_record_limits current (limits engine));
          reconcile_loaded current
      | None =>
          do current <-
            (if persisted || negb (rec_revision (arc_val record) =? 0)%N then Ret false
             else snapshot_is_current record persisted);
          Ret (if negb current
               then Err (Engine_Protocol "session disappeared after an uncertain metadata save")
               else Ok tt)
      end;
    do _ <- set_debt false;
    Ret (Ok tt).

Definition reconcile_uncertain_metadata : sprog (result unit EngineError) :=
  reconcile_uncertain_metadata_with_store (session_store engine).

(** [active_turn.compare_exchange(..)] and the lease it creates: held by [body],
    and moved into the results [keep] accepts. *)
Definition with_lease {A} (keep : result A EngineError -> bool) (body : sprog (result A EngineError))
    : sprog (result A EngineError) :=
  do acquired <- acquire_lease me;
  if negb acquired then Ret (Err SessionBusy) else guarded release_lease keep body.

Definition check_metadata_revision (expected_revision : SessionRevision) (access : option N)
    : sprog (result SessionRevision EngineError) :=
  do? _ <- ensure_open has_host;
  with_lease (fun _ => false) (
    do? _ <- reconcile_uncertain_metadata_with_store (default (session_store engine) access);
    do? _ <- ensure_open has_host;
    do snap <- snapshot;
    let '(record, persisted) := snap in
    when negb (rec_revision (arc_val record) =? expected_revision)%N return Err metadata_revision_conflict;
    do? _ <- Ret (validate_record_limits (arc_val record) (limits engine));
    do current <- snapshot_is_current record persisted;
    when negb current return Err metadata_revision_conflict;
    Ret (Ok (rec_revision (arc_val record)))).

(** The end of a save made under publication debt: the revision must increase,
    and only a reconciled record settles the debt. *)
Definition settle_save (store : N) (candidate : SessionRecord) (expected : option SessionRevision)
    (previous : SessionRevision) : sprog (result SessionRecord EngineError) :=
  do _ <- set_debt true;
  do f <- ask (Q_save store candidate expected);
  do saved <- await f;
  do? revision <- Ret (store_result saved);
  when (revision <=? previous)%N return Err non_increasing_revision;
  do arc <- arc_new (with_revision candidate revision);
  do? _ <- reconcile_saved arc;
  do _ <- set_debt false;
  Ret (Ok (with_revision candidate revision)).

Definition update_metadata (expected_revision : SessionRevision) (metadata : Metadata) (access : option N)
    : sprog (result SessionRevision EngineError) :=
  do? _ <- ensure_open has_host;
  with_lease (fun _ => false) (
    let store := default (session_store engine) access in
    do? _ <- reconcile_uncertain_metadata_with_store store;
    do snap <- snapshot;
    let '(record, persisted) := snap in
    when negb (rec_revision (arc_val record) =? expected_revision)%N return Err metadata_revision_conflict;
    do? _ <- Ret (validate_record_limits (arc_val record) (limits engine));
    let candidate := with_metadata (arc_val record) metadata in
    do? _ <- Ret (validate_record_limits candidate (limits engine));
    do current <- snapshot_is_current record persisted;
    when negb current return Err metadata_revision_conflict;
    do? saved <- settle_save store candidate (then_some persisted expected_revision) expected_revision;
    Ret (Ok (rec_revision saved))).

(** [Session::update_metadata_with_access] and its counterpart for checks. *)
Definition update_metadata_with_access (expected_revision : SessionRevision) (metadata : Metadata)
    (access underlying : N) : sprog (result SessionRevision EngineError) :=
  do? _ <- Ret (validate_store_access (session_store engine) underlying);
  update_metadata expected_revision metadata (Some access).

Definition check_metadata_revision_with_access (expected_revision : SessionRevision) (access underlying : N)
    : sprog (result SessionRevision EngineError) :=
  do? _ <- Ret (validate_store_access (session_store engine) underlying);
  check_metadata_revision expected_revision (Some access).

(** ** Reserving a turn *)
Definition empty_history : EngineError := Engine_Protocol "cannot continue a session with empty history".

Definition next_turn (record : SessionRecord) : result (TurnId * SessionRecord) EngineError :=
  let sequence := rec_next_turn_sequence record in
  let? next := ok_or (Engine_Protocol "session turn sequence is exhausted") (checked_add sequence 1) in
  let? turn_id := map_err (fun e => Engine_Protocol (invalid_id_display e))
                    (identifier_new TurnId_kind (turn_id_text sequence)) in
  Ok (turn_id, with_next_turn_sequence record next).

Definition push_prompt (prompt_text : option string) (record : SessionRecord) : SessionRecord :=
  match prompt_text with
  | Some text => with_messages record (rec_messages record ++ [Message_text Role_User text])
  | None => record
  end.

(** The context after the optional input was appended. *)
Definition prepared_context (preparation : SessionTurnPreparation) (context : option ValidatedSessionContext)
    (messages : list Message) (limits : EngineLimits)
    : option (result (option ValidatedSessionContext) EngineError) :=
  let context :=
    match prep_user_context preparation with
    | None => Ok context
    | Some user_context =>
        let? context := ok_or (Engine_Protocol "user context requires a projection") context in
        let? context := with_user_context context user_context messages in
        Ok (Some context)
    end in
  match context with
  | Ok (Some c) =>
      checked ← context_validate_limits c messages limits;
      Some (let? _ := checked in Ok (Some c))
  | Ok None => Some (Ok None)
  | Err e => Some (Err e)
  end.

Definition reserve_prepared_turn (prompt_text : option string) (preparation : SessionTurnPreparation)
    : sprog (result (TurnId * SessionRecord * option ValidatedSessionContext) EngineError) :=
  do snap <- snapshot;
  let '(snapshot, persisted) := snap in
  let record := arc_val snapshot in
  when negb (rec_revision record =? prep_expected_revision preparation)%N
    return Err preparation_revision_conflict;
  do? _ <- Ret (validate_record_limits record (limits engine));
  when bool_decide (prompt_text = None) && bool_decide (rec_messages record = []) return Err empty_history;
  do? context <- Ret (take_context preparation (rec_messages record));
  let candidate := with_metadata record (default (rec_metadata record) (prep_metadata preparation)) in
  do? _ <- Ret (validate_record_limits candidate (limits engine));
  do? reserved <- Ret (next_turn candidate);
  let '(turn_id, reserved) := reserved in
  let reserved := push_prompt prompt_text reserved in
  do? _ <- Ret (validate_record_limits reserved (limits engine));
  match prepared_context preparation context (rec_messages reserved) (limits engine) with
  | None => Panic
  | Some context =>
      do? context <- Ret context;
      do current <- snapshot_is_current snapshot persisted;
      when negb current return Err preparation_revision_conflict;
      do? saved <- settle_save (session_store engine) reserved (then_some persisted (rec_revision record))
                     (rec_revision record);
      Ret (Ok (turn_id, saved, context))
  end.

Definition MAX_CONFLICT_RETRIES : nat := 32.

Definition turn_reservation_contended : EngineError :=
  Engine_Store (ComponentError Store_Conflict "turn_reservation_contended"
    "turn reservation exceeded its conflict retry bound" true).

Definition is_conflict (e : SessionStoreError) : bool := bool_decide (err_kind e = Store_Conflict).

Fixpoint reserve_turn_loop (n : nat) (prompt_text : option string)
    : sprog (result (TurnId * SessionRecord) EngineError) :=
  match n with
  | O => Ret (Err turn_reservation_contended)
  | S n =>
      do snap <- snapshot;
      let '(snapshot, persisted) := snap in
      let record := arc_val snapshot in
      do? _ <- Ret (validate_record_limits record (limits engine));
      when bool_decide (prompt_text = None) && bool_decide (rec_messages record = []) return Err empty_history;
      do? reserved <- Ret (next_turn record);
      let '(turn_id, candidate) := reserved in
      let candidate := push_prompt prompt_text candidate in
      do? _ <- Ret (validate_record_limits candidate (limits engine));
      do current <- snapshot_is_current snapshot persisted;
      if negb current then reserve_turn_loop n prompt_text
      else
        do f <- ask (Q_save (session_store engine) candidate (then_some persisted (rec_revision record)));
        do saved <- await f;
        match saved with
        | Ok revision =>
            when negb (rec_revision candidate <? revision)%N return Err non_increasing_revision;
            do arc <- arc_new (with_revision candidate revision);
            do? _ <- reconcile_saved arc;
            Ret (Ok (turn_id, arc_val arc))
        | Err error =>
            if is_conflict error then
              do f <- ask (Q_load (session_store engine) (rec_id candidate));
              do loaded <- await f;
              do? loaded <- Ret (store_result loaded);
              match loaded with
              | None =>
                  when negb (bool_decide (rec_id record = rec_id candidate))
                    return Err (Engine_Protocol "session identity changed during turn reservation");
                  do _ <- mark_missing_if_current snapshot persisted;
                  reserve_turn_loop n prompt_text
              | Some current =>
                  when negb (bool_decide (rec_id current = rec_id candidate))
                    return Err (Engine_Protocol ("session store returned ID " +:+ rec_id current
                                                 +:+ " for requested ID " +:+ rec_id candidate));
                  when negb (bool_decide (rec_incarnation_id current = rec_incarnation_id record))
                    return Err SessionIncarnationConflict;
                  do? _ <- Ret (validate_record_limits current (limits engine));
                  do? _ <- reconcile_loaded current;
                  reserve_turn_loop n prompt_text
              end
            else Ret (Err (Engine_Store (redact_store_error error)))
        end
  end.

Definition reserve_turn_and_prompt (prompt_text : option string)
    : sprog (result (TurnId * SessionRecord) EngineError) :=
  reserve_turn_loop MAX_CONFLICT_RETRIES prompt_text.

(** What [start_turn] builds its [Turn] from. *)
Record StartedTurn := {
  st_turn_id : TurnId;
  st_record : SessionRecord;
  st_options : InferenceOptions;
  st_context : option ValidatedSessionContext;
}.

(** The fresh token, gate and scopes of a turn. *)
Definition fresh_turn (s : World) : World := set_turn s TurnShared_default.

Definition start_turn (prompt_text : option string) (options : InferenceOptions)
    (preparation : option SessionTurnPreparation) : sprog (result StartedTurn EngineError) :=
  do? _ <- ensure_open has_host;
  when match prompt_text with
       | Some text => (nz_get (max_prompt_bytes (limits engine)) <? str_len text)%N
       | None => false
       end
    return Err (Engine_Protocol "prompt exceeded the configured byte limit");
  do? _ <- Ret (map_err (fun failure => Engine_Protocol (tf_message failure))
                  (validate_inference_options options (limits engine)));
  with_lease is_ok (
    do? _ <- reconcile_uncertain_metadata;
    do? reserved <-
      match preparation with
      | Some preparation => reserve_prepared_turn prompt_text preparation
      | None =>
          do? reserved <- reserve_turn_and_prompt prompt_text;
          Ret (Ok (reserved, None))
      end;
    let '(turn_id, record, context) := reserved in
    do _ <- modify fresh_turn;
    Ret (Ok {| st_turn_id := turn_id; st_record := record; st_options := options; st_context := context |})).

(** [Session::prompt] and the other entry points. *)
Definition start_prompt (prompt : Prompt) (preparation : option SessionTurnPreparation)
    : sprog (result StartedTurn EngineError) :=
  start_turn (Some (prompt_text prompt)) (prompt_options prompt) preparation.

Definition continue_turn (options : InferenceOptions) (preparation : option SessionTurnPreparation)
    : sprog (result StartedTurn EngineError) :=
  start_turn None options preparation.
End Operations.

(** ** Transcript commits *)
Inductive CommitCancellation := CommitCancellable | FinalSaveSuccessWins.

Definition abort_protocol (code message : string) : WorkflowAbort := AbortFailed (TurnFailure_protocol code message).
Definition abort_limit (code message : string) : WorkflowAbort := AbortFailed (TurnFailure_limit code message).

Section Commits.
Context `{JsonWriter}.
Context (engine : EngineInner).

(** [validate_record(..)?] in the workflow. *)
Definition check_record (record : SessionRecord) : sprog (result unit WorkflowAbort) :=
  Ret (map_err AbortFailed (validate_record record (limits engine))).

(** The checks of a snapshot against the record the turn last committed. *)
Definition check_base (base record : SessionRecord) (phase : string) : result unit WorkflowAbort :=
  fail_if negb (bool_decide (rec_id record = rec_id base))
    with abort_protocol "session_identity_changed" ("session identity changed during " +:+ phase) in
  fail_if negb (bool_decide (rec_incarnation_id record = rec_incarnation_id base))
    with abort_protocol "session_incarnation_changed" ("session incarnation changed during " +:+ phase) in
  Ok tt.

Definition reconcile_conflict (current : SessionRecord) : sprog (result unit WorkflowAbort) :=
  do r <- reconcile_loaded current;
  Ret (map_err (fun e => abort_protocol "conflict_reconciliation" (EngineError_display e)) r).

Definition install_commit (candidate : SessionRecord) (revision : SessionRevision)
    : sprog (result SessionRecord WorkflowAbort) :=
  when negb (rec_revision candidate <? revision)%N
    return Err (abort_protocol "non_increasing_revision" "session store returned a non-increasing revision");
  do arc <- arc_new (with_revision candidate revision);
  do r <- reconcile_saved arc;
  do? _ <- Ret (map_err (fun e => abort_protocol "save_reconciliation" (EngineError_display e)) r);
  Ret (Ok (arc_val arc)).

(** The record loaded after a conflict must still be the base of this commit. *)
Definition check_conflict_record (base current : SessionRecord) (identity_message : string) (phase : string)
    : result unit WorkflowAbort :=
  fail_if negb (bool_decide (rec_id current = rec_id base))
    with abort_protocol "session_identity_changed" identity_message in
  fail_if negb (bool_decide (rec_incarnation_id current = rec_incarnation_id base))
    with abort_protocol "session_incarnation_changed" ("session incarnation changed during " +:+ phase) in
  let? _ := map_err (fun e => abort_protocol "invalid_conflict_record" (EngineError_display e))
              (validate_loaded current) in
  let? _ := map_err AbortFailed (validate_record current (limits engine)) in
  fail_if negb (bool_decide (rec_messages current = rec_messages base))
    with abort_protocol "transcript_diverged" ("durable transcript diverged during " +:+ phase) in
  Ok tt.

Fixpoint commit_messages_loop (n : nat) (base : SessionRecord) (messages : list Message)
    (mode : CommitCancellation) : sprog (result SessionRecord WorkflowAbort) :=
  match n with
  | O =>
      Ret (Err (AbortFailed (TurnFailure_store (ComponentError Store_Conflict "message_commit_contended"
        "message commit exceeded its conflict retry bound" true))))
  | S n =>
      do? _ <- check_cancelled;
      do snap <- snapshot;
      let '(snapshot, persisted) := snap in
      let record := arc_val snapshot in
      do? _ <- Ret (check_base base record "transcript commit");
      when negb (bool_decide (rec_messages record = rec_messages base))
        return Err (abort_protocol "transcript_diverged" "durable transcript diverged before message commit");
      do? _ <- check_record record;
      let candidate := with_messages record (rec_messages record ++ messages) in
      do? _ <- check_record candidate;
      do current <- snapshot_is_current snapshot persisted;
      if negb current then commit_messages_loop n base messages mode
      else
        let expected := then_some persisted (rec_revision record) in
        do? save_result <-
          match mode with
          | CommitCancellable =>
              do f <- ask (Q_save (session_store engine) candidate expected);
              await_cancellable f
          | FinalSaveSuccessWins => await_final_save (session_store engine) candidate expected
          end;
        match save_result with
        | Ok revision => install_commit candidate revision
        | Err error =>
            if is_conflict error then
              do f <- ask (Q_load (session_store engine) (rec_id base));
              do? loaded <- await_record_load f true;
              do? loaded <- Ret (map_err (fun e => AbortFailed (TurnFailure_store e)) loaded);
              match loaded with
              | None =>
                  Ret (Err (abort_protocol "transcript_missing_after_conflict"
                    "durable transcript disappeared after a commit conflict"))
              | Some current =>
                  do? _ <- Ret (check_conflict_record base current
                    ("session store returned ID " +:+ rec_id current +:+ " for requested ID " +:+ rec_id base)
                    "message commit");
                  do? _ <- reconcile_conflict current;
                  commit_messages_loop n base messages mode
              end
            else Ret (Err (AbortFailed (TurnFailure_store error)))
        end
  end.

Definition commit_messages (base : SessionRecord) (messages : list Message) (mode : CommitCancellation)
    : sprog (result SessionRecord WorkflowAbort) :=
  commit_messages_loop MAX_CONFLICT_RETRIES base messages mode.

Definition commit_message (base : SessionRecord) (message : Message) (mode : CommitCancellation)
    : sprog (result SessionRecord WorkflowAbort) :=
  commit_messages base [message] mode.

Fixpoint replace_message_loop (n : nat) (base : SessionRecord) (index : N) (replacement : Message)
    (honor_cancellation : bool) : sprog (result SessionRecord WorkflowAbort) :=
  match n with
  | O =>
      Ret (Err (AbortFailed (TurnFailure_store (ComponentError Store_Conflict "message_replace_contended"
        "message replacement exceeded its conflict retry bound" true))))
  | S n =>
      do? _ <- (if honor_cancellation then check_cancelled else Ret (Ok tt));
      do snap <- snapshot;
      let '(snapshot, persisted) := snap in
      let record := arc_val snapshot in
      do? _ <- Ret (check_base base record "result replacement");
      when negb (bool_decide (rec_messages record = rec_messages base))
        return Err (abort_protocol "transcript_diverged" "durable transcript diverged before result replacement");
      do? _ <- check_record record;
      when negb (index <? vec_len (rec_messages record))%N
        return Err (abort_protocol "placeholder_missing" "tool result placeholder index was missing");
      let candidate := with_messages record (<[N.to_nat index := replacement]> (rec_messages record)) in
      do? _ <- check_record candidate;
      do current <- snapshot_is_current snapshot persisted;
      if negb current then replace_message_loop n base index replacement honor_cancellation
      else
        do f <- ask (Q_save (session_store engine) candidate (then_some persisted (rec_revision record)));
        do? save_result <- await_operation f honor_cancellation;
        match save_result with
        | Ok revision => install_commit candidate revision
        | Err error =>
            if is_conflict error then
              do f <- ask (Q_load (session_store engine) (rec_id base));
              do? loaded <- await_record_load f honor_cancellation;
              do? loaded <- Ret (map_err (fun e => AbortFailed (TurnFailure_store e)) loaded);
              match loaded with
              | None =>
                  Ret (Err (abort_protocol "transcript_missing_after_conflict"
                    "durable transcript disappeared after a result conflict"))
              | Some current =>
                  do? _ <- Ret (check_conflict_record base current
                    "session store returned a different session during result replacement" "result replacement");
                  do? _ <- reconcile_conflict current;
                  replace_message_loop n base index replacement honor_cancellation
              end
            else Ret (Err (AbortFailed (TurnFailure_store error)))
        end
  end.

Definition replace_message (base : SessionRecord) (index : N) (replacement : Message)
    (honor_cancellation : bool) : sprog (result SessionRecord WorkflowAbort) :=
  replace_message_loop MAX_CONFLICT_RETRIES base index replacement honor_cancellation.
End Commits.
