(* ===== verification/Workflow.v ===== *)
(** * The turn workflow ([session.rs], [run_turn])

    One turn as a program: the rounds with the model, the publication and commit
    of the calls of a round, and the preparation, authorization, execution and
    settlement of each call.

    The loops run on fuel, and exhausted fuel is a panic: a round loop needs one
    step more than the rounds the limits admit, a stream loop one more than the
    events. *)
From S2P Require Import Prelude Ids Json Model Limits PermissionId Catalog Context Prog SessionState Emission Operations.
From stdpp Require Import gmap.
Open Scope prog_scope.

(** ** Awaiting *)
(** What [await_cancellable] and its variants do after a poll. *)
Definition polled {X} (f : Fut X) : sprog (result X WorkflowAbort) :=
  do c <- is_cancelled;
  if c then Ret (Err AbortCancelled)
  else match fst f with
       | O => Ret (Ok (snd f))
       | S n => Yield id (await_cancellable_polls n (snd f))
       end.

Definition next_model_item (stream : N) : sprog (result (option (result ModelEvent ProviderError)) WorkflowAbort) :=
  do? _ <- check_cancelled;
  do f <- ask (Q_next_item stream);
  polled f.

(** The poll that starts an execution: the final admission, then the call. *)
Definition execution_start (admission : option N) (tool : ToolRef) (context : ToolContext) (name : ToolName)
    (arguments : Value) : sprog (result (Fut (result ToolExecution ToolError)) WorkflowAbort) :=
  do? _ <-
    match admission with
    | None => Ret (Ok tt)
    | Some admission =>
        do? _ <- check_cancelled;
        do admitted <- ask (Q_admit admission);
        do? _ <- Ret (map_err (fun e => AbortFailed (TurnFailure_permission e)) admitted);
        check_cancelled
    end;
  do f <- ask (Q_execute tool context name arguments);
  Ret (Ok f).

(** [await_tool_execution] in the mode [Cancellable]. *)
Definition await_cancellable_execution (start : sprog (result (Fut (result ToolExecution ToolError)) WorkflowAbort))
    : sprog (result (result ToolExecution ToolError) WorkflowAbort) :=
  do? _ <- check_cancelled;
  do started <- start;
  match started with
  | Err e => do? _ <- check_cancelled; Ret (Err e)
  | Ok f => polled f
  end.

(** [await_tool_execution] in the mode [CompletionWinsAfterFirstPoll], once
    cancellation is deferred. *)
Definition await_deferred_execution (start : sprog (result (Fut (result ToolExecution ToolError)) WorkflowAbort))
    : sprog (result (result ToolExecution ToolError) WorkflowAbort) :=
  do? f <- start;
  do result <- await f;
  Ret (Ok result).

(** ** Variables *)
Record TurnVars := {
  tv_record : SessionRecord;
  tv_model_rounds : N;
  tv_model_events : N;
  tv_tool_calls : N;
  tv_result_bytes : N;
  tv_complete_result_bytes : N;
  tv_complete_argument_bytes : N;
  tv_complete_argument_nodes : N;
  tv_seen_call_ids : gset ToolCallId;
  tv_usage : TokenUsage;
  tv_assistant_bytes : N;
  tv_reasoning_bytes : N;
  tv_turn_tools : TurnToolCatalog;
}.

Definition TurnVars_new (record : SessionRecord) : TurnVars :=
  Build_TurnVars record 0 0 0 0 0 0 0 ∅ TokenUsage_default 0 0 TurnToolCatalog_default.

Definition set_tv_rounds (t : TurnVars) (n : N) : TurnVars :=
  Build_TurnVars (tv_record t) n (tv_model_events t) (tv_tool_calls t) (tv_result_bytes t) (tv_complete_result_bytes t)
    (tv_complete_argument_bytes t) (tv_complete_argument_nodes t) (tv_seen_call_ids t) (tv_usage t)
    (tv_assistant_bytes t) (tv_reasoning_bytes t) (tv_turn_tools t).
(** What the stream of a round counts. *)
Definition set_tv_stream (t : TurnVars) (events argument_bytes argument_nodes assistant reasoning : N) : TurnVars :=
  Build_TurnVars (tv_record t) (tv_model_rounds t) events (tv_tool_calls t) (tv_result_bytes t)
    (tv_complete_result_bytes t) argument_bytes argument_nodes (tv_seen_call_ids t) (tv_usage t)
    assistant reasoning (tv_turn_tools t).
Definition set_tv_usage (t : TurnVars) (usage : TokenUsage) : TurnVars :=
  Build_TurnVars (tv_record t) (tv_model_rounds t) (tv_model_events t) (tv_tool_calls t) (tv_result_bytes t)
    (tv_complete_result_bytes t) (tv_complete_argument_bytes t) (tv_complete_argument_nodes t) (tv_seen_call_ids t)
    usage (tv_assistant_bytes t) (tv_reasoning_bytes t) (tv_turn_tools t).
Definition set_tv_seen (t : TurnVars) (ids : gset ToolCallId) : TurnVars :=
  Build_TurnVars (tv_record t) (tv_model_rounds t) (tv_model_events t) (tv_tool_calls t) (tv_result_bytes t)
    (tv_complete_result_bytes t) (tv_complete_argument_bytes t) (tv_complete_argument_nodes t) ids
    (tv_usage t) (tv_assistant_bytes t) (tv_reasoning_bytes t) (tv_turn_tools t).
(** A committed record and what its results occupy. *)
Definition set_tv_record (t : TurnVars) (record : SessionRecord) (result_bytes complete_bytes : N)
    (tools : TurnToolCatalog) : TurnVars :=
  Build_TurnVars record (tv_model_rounds t) (tv_model_events t) (tv_tool_calls t) result_bytes
    complete_bytes (tv_complete_argument_bytes t) (tv_complete_argument_nodes t) (tv_seen_call_ids t)
    (tv_usage t) (tv_assistant_bytes t) (tv_reasoning_bytes t) tools.
Definition set_tv_tool_calls (t : TurnVars) (n : N) : TurnVars :=
  Build_TurnVars (tv_record t) (tv_model_rounds t) (tv_model_events t) n (tv_result_bytes t) (tv_complete_result_bytes t)
    (tv_complete_argument_bytes t) (tv_complete_argument_nodes t) (tv_seen_call_ids t) (tv_usage t)
    (tv_assistant_bytes t) (tv_reasoning_bytes t) (tv_turn_tools t).

(** The variables of one round's stream; a call and its input limits are pushed
    together. *)
Record RoundVars := {
  rv_turn : TurnVars;
  rv_text : string;
  rv_calls : list (ToolCall * option ToolInputLimits);
  rv_call_ids : gset ToolCallId;
  rv_usage : TokenUsage;
}.

Record CompletedTurn := { completed_reason : StopReason; completed_usage : TokenUsage }.

(** ** One turn *)
Section Turn.
Context `{JsonWriter}.
Context (sha256 : string -> string) (engine : EngineInner).
Context (session_id : SessionId) (incarnation_id : SessionIncarnationId) (turn_id : TurnId).
Context (options : InferenceOptions) (context : option ValidatedSessionContext).

Definition tool_context (id : ToolCallId) : ToolContext :=
  {| tc_session_id := session_id; tc_session_incarnation_id := incarnation_id; tc_turn_id := turn_id;
     tc_call_id := id |}.

Definition failed {A} (r : result A TurnFailure) : result A WorkflowAbort := map_err AbortFailed r.

(** [turn_tools.tool(..).ok_or_else(..)?] *)
Definition lookup_tool (tools : TurnToolCatalog) (name : ToolName) (missing : string)
    : sprog (result ToolRef WorkflowAbort) :=
  match catalog_tool tools engine name with
  | None => Panic
  | Some tool => Ret (ok_or (abort_protocol "unknown_tool" missing) tool)
  end.

(** [checked_add(..)] against a limit. *)
Definition add_within (used added limit : N) (code overflow exceeded : string) : result N WorkflowAbort :=
  let? total := ok_or (abort_limit code overflow) (checked_add used added) in
  fail_if (limit <? total)%N with abort_limit code exceeded in
  Ok total.

(** *** The stream of a round *)
Definition admit_call (r : RoundVars) (call : ToolCall) : sprog (result RoundVars WorkflowAbort) :=
  let t := rv_turn r in
  do? round_count <- Ret (add_within (vec_len (rv_calls r)) 1 (nz_get (max_tool_calls_per_round (limits engine)))
    "tool_calls_per_round_limit" "model-round tool call count overflowed"
    "model round exceeded the configured tool-call limit");
  do? _ <- Ret (add_within (tv_tool_calls t) round_count (nz_get (max_tool_calls_per_turn (limits engine)))
    "tool_call_limit" "turn tool call count overflowed" "turn exceeded the configured tool call limit");
  when bool_decide (call_id call ∈ tv_seen_call_ids t) || bool_decide (call_id call ∈ rv_call_ids r)
    return Err (abort_protocol "duplicate_tool_call_id"
                  ("tool-call ID " +:+ call_id call +:+ " was repeated in one turn"));
  do? tool <- lookup_tool (tv_turn_tools t) (call_name call)
    ("provider requested unregistered tool " +:+ call_name call);
  do input_limits <- ask (Q_complete_input_limits tool);
  let argument_limits :=
    match input_limits with
    | Some input => with_argument_limits (limits engine) (in_max_argument_bytes input) (in_max_argument_nodes input)
    | None => limits engine
    end in
  do? admitted <- Ret (failed (validate_tool_arguments (call_arguments call) argument_limits));
  let '(argument_bytes, argument_nodes) := admitted in
  do? totals <- Ret (failed
    match input_limits with
    | Some _ =>
        let? bytes := add_complete_input_budget (tv_complete_argument_bytes t) argument_bytes
          (nz_get (max_cumulative_complete_tool_argument_bytes (limits engine)))
          "cumulative_complete_tool_argument_size_limit" in
        let? nodes := add_complete_input_budget (tv_complete_argument_nodes t) argument_nodes
          (nz_get (max_cumulative_complete_tool_argument_nodes (limits engine)))
          "cumulative_complete_tool_argument_node_limit" in
        Ok (bytes, nodes)
    | None => Ok (tv_complete_argument_bytes t, tv_complete_argument_nodes t)
    end);
  Ret (Ok {| rv_turn := set_tv_stream t (tv_model_events t) (fst totals) (snd totals) (tv_assistant_bytes t)
                          (tv_reasoning_bytes t);
             rv_text := rv_text r; rv_calls := rv_calls r ++ [(call, input_limits)];
             rv_call_ids := {[ call_id call ]} ∪ rv_call_ids r; rv_usage := rv_usage r |}).

(** The arms of the match on an event other than a stop. *)
Definition stream_event (r : RoundVars) (event : ModelEvent) : sprog (result RoundVars WorkflowAbort) :=
  let t := rv_turn r in
  match event with
  | TextDelta text =>
      do? bytes <- Ret (add_within (tv_assistant_bytes t) (str_len text)
        (nz_get (max_assistant_text_bytes (limits engine))) "assistant_text_size_limit"
        "assistant text size overflowed" "turn exceeded the configured assistant text size limit");
      Ret (Ok {| rv_turn := set_tv_stream t (tv_model_events t) (tv_complete_argument_bytes t)
                              (tv_complete_argument_nodes t) bytes (tv_reasoning_bytes t);
                 rv_text := rv_text r +:+ text; rv_calls := rv_calls r; rv_call_ids := rv_call_ids r;
                 rv_usage := rv_usage r |})
  | ReasoningDelta text =>
      do? bytes <- Ret (add_within (tv_reasoning_bytes t) (str_len text)
        (nz_get (max_reasoning_bytes (limits engine))) "reasoning_size_limit"
        "reasoning byte count overflowed" "turn exceeded the configured reasoning size limit");
      Ret (Ok {| rv_turn := set_tv_stream t (tv_model_events t) (tv_complete_argument_bytes t)
                              (tv_complete_argument_nodes t) (tv_assistant_bytes t) bytes;
                 rv_text := rv_text r; rv_calls := rv_calls r; rv_call_ids := rv_call_ids r;
                 rv_usage := rv_usage r |})
  | ModelToolCall call => admit_call r call
  | ModelUsage reported =>
      do? usage <- Ret (checked_usage_add (tv_usage t) reported);
      do _ <- modify (set_usage usage);
      Ret (Ok {| rv_turn := t; rv_text := rv_text r; rv_calls := rv_calls r; rv_call_ids := rv_call_ids r;
                 rv_usage := reported |})
  | ModelStop _ => Panic
  end.

Fixpoint stream_loop (n : nat) (stream : N) (r : RoundVars) : sprog (result (StopReason * RoundVars) WorkflowAbort) :=
  match n with
  | O => Panic
  | S n =>
      do? item <- next_model_item stream;
      match item with
      | None => Ret (Err (AbortFailed TurnFailure_missing_stop))
      | Some item =>
          do? events <- Ret (add_within (tv_model_events (rv_turn r)) 1
            (nz_get (max_model_events_per_turn (limits engine))) "model_event_limit"
            "model event count overflowed" "turn exceeded the configured model event limit");
          let t := rv_turn r in
          let r :=
            {| rv_turn := set_tv_stream t events (tv_complete_argument_bytes t) (tv_complete_argument_nodes t)
                            (tv_assistant_bytes t) (tv_reasoning_bytes t);
               rv_text := rv_text r; rv_calls := rv_calls r; rv_call_ids := rv_call_ids r; rv_usage := rv_usage r |} in
          match item with
          | Err error => Ret (Err (AbortFailed (TurnFailure_provider error)))
          | Ok (ModelStop reason) =>
              do? _ <- Ret (validate_stop_reason reason (limits engine));
              Ret (Ok (reason, r))
          | Ok event =>
              do? r <- stream_event r event;
              do _ <- emit (ModelItem event);
              stream_loop n stream r
          end
      end
  end.

(** *** Publication of a round's calls *)
Fixpoint persist_calls (tools : TurnToolCatalog) (calls : list (ToolCall * option ToolInputLimits))
    : sprog (result (list ToolCall) WorkflowAbort) :=
  match calls with
  | [] => Ret (Ok [])
  | (call, input_limits) :: calls =>
      do? _ <- check_cancelled;
      do? tool <- lookup_tool tools (call_name call) "tool disappeared before publication";
      do f <- ask (Q_persist_arguments tool (tool_context (call_id call)) (call_arguments call));
      do? publication <- await_cancellable f;
      do? projection <- Ret (map_err (fun _ => abort_protocol "tool_argument_publication_failed"
        "tool argument publication failed") publication);
      do? arguments <- Ret
        match projection with
        | Some projection =>
            fail_if bool_decide (input_limits = None) with abort_protocol "unexpected_persisted_tool_arguments"
              "tool supplied persisted arguments without an explicit input policy" in
            let? _ := failed (validate_tool_arguments projection (limits engine)) in
            Ok projection
        | None =>
            let? _ := failed (validate_tool_arguments (call_arguments call) (limits engine)) in
            Ok (call_arguments call)
        end;
      do? persisted <- persist_calls tools calls;
      Ret (Ok ({| call_id := call_id call; call_name := call_name call; call_arguments := arguments |} :: persisted))
  end.

(** The bytes of one placeholder, and of all results once the round has its
    placeholders. *)
Definition reserve_placeholders (result_bytes calls : N) : result (N * N) WorkflowAbort :=
  let? placeholder_bytes := failed (size_or unknown_tool_result
    (nz_get (max_serialized_tool_result_bytes (limits engine)))
    (fun _ => TurnFailure_protocol "tool_result_serialization" "tool result placeholder could not be serialized")
    (TurnFailure_limit "tool_result_size_limit"
       "configured result limit cannot hold the required result placeholder")) in
  let? placeholder_total := ok_or (abort_limit "cumulative_tool_result_size_limit"
    "placeholder result byte count overflowed") (checked_mul placeholder_bytes calls) in
  let? cumulative := add_within result_bytes placeholder_total
    (nz_get (max_cumulative_tool_result_bytes (limits engine))) "cumulative_tool_result_size_limit"
    "cumulative placeholder result byte count overflowed"
    "configured cumulative result limit cannot hold required result placeholders" in
  Ok (placeholder_bytes, cumulative).

(** *** One call *)
(** Where a round's calls are in the committed transcript. *)
Record RoundPlace := {
  placeholder_start : N;
  placeholder_bytes : N;
  source_message : N;
  source_block_start : N;
}.

Definition pending_assistant (call : ToolCall) : Message :=
  {| msg_role := Role_Assistant; msg_content := [ContentToolCall call] |}.

Definition bounded_decision (decision : PermissionDecision) : PermissionDecision :=
  match decision with
  | Allow scope => Allow scope
  | Deny reason => Deny (bounded_text reason (nz_get (max_permission_denial_reason_bytes (limits engine))))
  end.

Definition is_denial (decision : PermissionDecision) : bool :=
  match decision with Deny _ => true | Allow _ => false end.

(** Whether the call is denied, and the admission of its execution. *)
Definition authorize (tool_calls : N) (place : RoundPlace) (round_index : N) (call : ToolCall)
    (prepared : PreparedToolCall) : sprog (result (bool * option N) WorkflowAbort) :=
  match prepared_authorization prepared with
  | NoAuthorityRequired => Ret (Ok (false, None))
  | PermissionRequired capability =>
      do? ordinal <- Ret (ok_or (abort_limit "tool_call_limit" "tool call count overflowed")
        (index ← checked_add tool_calls round_index; checked_add index 1));
      do? permission_id <- Ret (permission_request_id sha256 session_id incarnation_id turn_id ordinal);
      let request :=
        {| pr_id := permission_id; pr_session_id := session_id; pr_session_incarnation_id := incarnation_id;
           pr_turn_id := turn_id; pr_capability := capability; pr_risk := Risk_Critical;
           pr_reason := "model requested this registered tool" |} in
      do _ <- emit (PermissionRequested request);
      match checked_add (source_block_start place) round_index with
      | None => Panic
      | Some block =>
          do ptr <- act (open_context request (source_message place, block) (pending_assistant call));
          do? authorization <- guarded (close_context ptr) (fun _ => false) (
            do f <- ask (Q_authorize request {| inv_tool_name := call_name call; inv_call_id := call_id call;
                                                inv_arguments := prepared_arguments prepared |});
            do? answer <- await_cancellable f;
            Ret (map_err (fun e => AbortFailed (TurnFailure_permission e)) answer));
          let decision := bounded_decision (auth_decision authorization) in
          do _ <- emit (PermissionResolved permission_id decision);
          Ret (Ok (is_denial decision, auth_admission authorization))
      end
  end.

(** What a call leaves to be stored and shown. *)
Record CallResult := {
  cr_output : ToolOutput;
  cr_complete_output : option ToolOutput;
  cr_next_round_tool : option TurnToolRegistration;
  cr_emit_finished : bool;
  cr_finish_turn : bool;
}.

Definition plain_result (output : ToolOutput) : CallResult :=
  {| cr_output := output; cr_complete_output := None; cr_next_round_tool := None; cr_emit_finished := false;
     cr_finish_turn := false |}.

Definition execution_result (result : result ToolExecution ToolError) : CallResult :=
  match result with
  | Ok execution =>
      {| cr_output := default (exec_output execution) (exec_persisted_output execution);
         cr_complete_output := match exec_persisted_output execution with
                               | Some _ => Some (exec_output execution)
                               | None => None
                               end;
         cr_next_round_tool := exec_next_round_tool execution; cr_emit_finished := true;
         cr_finish_turn := exec_finish_turn execution |}
  | Err error =>
      {| cr_output := tool_error_output error; cr_complete_output := None; cr_next_round_tool := None;
         cr_emit_finished := true; cr_finish_turn := false |}
  end.

(** An error of the settlement that first establishes the terminal event. *)
Definition establish_and_fail {A} (e : WorkflowAbort) : sprog (result A WorkflowAbort) :=
  do _ <- establish_terminal;
  Ret (Err e).

Definition or_establish {A} (r : result A TurnFailure) : sprog (result A WorkflowAbort) :=
  match r with
  | Ok a => Ret (Ok a)
  | Err failure => establish_and_fail (AbortFailed failure)
  end.

(** [if cancellation_deferral.is_some() { emitter.establish_terminal(); }] *)
Definition establish_if_deferred {A} (deferred : bool) (e : WorkflowAbort) : sprog (result A WorkflowAbort) :=
  if deferred then establish_and_fail e else Ret (Err e).

(** All results with this result in place of its placeholder. *)
Definition settled_bytes (result_bytes placeholder_bytes : N) (size : option N) : result N TurnFailure :=
  match size with
  | None => Err (TurnFailure_limit "tool_result_size_limit"
                   "tool result exceeded the configured serialized size limit")
  | Some bytes =>
      ok_or (TurnFailure_limit "cumulative_tool_result_size_limit"
               "turn exceeded the cumulative tool result size limit")
        (without_placeholder ← checked_sub result_bytes placeholder_bytes;
         total ← checked_add without_placeholder bytes;
         if (total <=? nz_get (max_cumulative_tool_result_bytes (limits engine)))%N then Some total else None)
  end.

(** The checks of a result before it is stored: the cumulative sizes, and whether
    its registration is new. *)
Definition check_result (deferred : bool) (t : TurnVars) (place : RoundPlace) (tool : ToolRef) (c : CallResult)
    : sprog (result (N * N * bool) WorkflowAbort) :=
  do? complete_bytes <-
    match cr_complete_output c with
    | Some complete =>
        do output_limits <- ask (Q_complete_output_limits tool);
        or_establish (validate_complete_tool_output complete (cr_output c) output_limits (limits engine)
                        (tv_complete_result_bytes t))
    | None => Ret (Ok (tv_complete_result_bytes t))
    end;
  do? _ <- or_establish (validate_json_value (output_content (cr_output c)) (limits engine));
  do? size <- Ret (map_err (fun e => match e with SerializationFailed text =>
      abort_protocol "tool_result_serialization" ("tool result could not be serialized: " +:+ text) end)
    (serialized_json_size_bounded (cr_output c) (nz_get (max_serialized_tool_result_bytes (limits engine)))));
  do? result_bytes <- or_establish (settled_bytes (tv_result_bytes t) (placeholder_bytes place) size);
  do? insert <-
    match cr_next_round_tool c with
    | None => Ret (Ok false)
    | Some registration =>
        if output_is_error (cr_output c) then
          establish_and_fail (abort_protocol "turn_tool_registration_on_error"
            "an error tool output cannot register a turn-local tool")
        else
          match validate_registration (tv_turn_tools t) engine registration (limits engine) with
          | None => Panic
          | Some (Ok insert) => Ret (Ok insert)
          | Some (Err failure) => establish_if_deferred deferred (AbortFailed failure)
          end
    end;
  Ret (Ok (result_bytes, complete_bytes, insert)).

(** From the result of a call to its [ToolFinished] event. *)
Definition settle_call (deferred : bool) (t : TurnVars) (place : RoundPlace) (round_index : N) (tool : ToolRef)
    (id : ToolCallId) (c : CallResult) : sprog (result TurnVars WorkflowAbort) :=
  do? checked <- check_result deferred t place tool c;
  let '(result_bytes, complete_bytes, insert) := checked in
  do? placeholder_index <- Ret (ok_or (abort_limit "transcript_message_limit" "placeholder message index overflowed")
    (checked_add (placeholder_start place) round_index));
  do replacement <- replace_message engine (tv_record t) placeholder_index (tool_result_message id (cr_output c))
    (negb deferred);
  match replacement with
  | Err error => establish_if_deferred deferred error
  | Ok record =>
      match (if insert then registration ← cr_next_round_tool c; catalog_insert (tv_turn_tools t) registration
             else Some (tv_turn_tools t)) with
      | None => Panic
      | Some tools =>
          do _ <- (if cr_emit_finished c
                   then emit (ToolFinished id (default (cr_output c) (cr_complete_output c)))
                   else Ret tt);
          Ret (Ok (set_tv_record t record result_bytes complete_bytes tools))
      end
  end.

(** An admitted call: execution and settlement, the latter inside the deferral
    of cancellation when the tool asked for one. *)
Definition execute_call (t : TurnVars) (place : RoundPlace) (round_index : N) (tool : ToolRef) (call : ToolCall)
    (prepared : PreparedToolCall) (admission : option N) : sprog (result (TurnVars * bool) WorkflowAbort) :=
  let start := execution_start admission tool (tool_context (call_id call)) (call_name call)
                 (prepared_arguments prepared) in
  let settle deferred result :=
    do? t <- settle_call deferred t place round_index tool (call_id call) (execution_result result);
    Ret (Ok (t, cr_finish_turn (execution_result result))) in
  match prepared_execution_cancellation prepared with
  | Cancellable =>
      do? result <- await_cancellable_execution start;
      settle false result
  | CompletionWinsAfterFirstPoll =>
      do? _ <- check_cancelled;
      do deferred <- act defer_cancellation;
      if negb deferred then Panic
      else guarded release_deferral (fun _ => false) (
        do? result <- await_deferred_execution start;
        settle true result)
  end.

(** Whether the turn ends with this call, and its variables. *)
Definition perform_call (t : TurnVars) (place : RoundPlace) (round_index : N)
    (call : ToolCall) (input_limits : option ToolInputLimits) : sprog (result (TurnVars * bool) WorkflowAbort) :=
  do? _ <- check_cancelled;
  do? tool <- lookup_tool (tv_turn_tools t) (call_name call)
    ("tool " +:+ call_name call +:+ " disappeared after round validation");
  do preparation <- ask (Q_prepare tool (tool_context (call_id call)) call);
  do? _ <- check_cancelled;
  let settle output :=
    do? t <- settle_call false t place round_index tool (call_id call) (plain_result output);
    Ret (Ok (t, false)) in
  match preparation with
  | Err error => settle (tool_error_output error)
  | Ok prepared =>
      do? _ <- Ret (failed (validate_prepared_tool_call prepared (limits engine) input_limits));
      do? authorization <- authorize (tv_tool_calls t) place round_index call prepared;
      let '(denied, admission) := authorization in
      if denied then
        do _ <- emit (ToolDenied (call_id call) (call_name call));
        settle permission_denied_output
      else
        do _ <- emit (ToolStarted call);
        execute_call t place round_index tool call prepared admission
  end.

(** The calls of a round; [Some] is a turn completed by a stop directive. *)
Fixpoint call_loop (t : TurnVars) (place : RoundPlace) (round_index : N)
    (calls : list (ToolCall * option ToolInputLimits)) : sprog (result (TurnVars * option CompletedTurn) WorkflowAbort) :=
  match calls with
  | [] => Ret (Ok (t, None))
  | (call, input_limits) :: calls =>
      do? performed <- perform_call t place round_index call input_limits;
      let '(t, finish_turn) := performed in
      if (finish_turn : bool) then
        do? _ <- check_cancelled;
        do _ <- establish_terminal;
        Ret (Ok (t, Some {| completed_reason := Stop_Completed; completed_usage := tv_usage t |}))
      else call_loop t place (round_index + 1) calls
  end.

(** *** Rounds *)
Definition model_messages (record : SessionRecord) : sprog (result (list Message) WorkflowAbort) :=
  match context with
  | None => Ret (Ok (rec_messages record))
  | Some context =>
      match context_messages context (rec_messages record) (limits engine) with
      | None => Panic
      | Some messages =>
          Ret (map_err (fun _ => abort_protocol "context_projection_failed" "projected context exceeded its limits")
                 messages)
      end
  end.

(** The request of a round, up to the opened stream. *)
Definition open_stream (t : TurnVars) : sprog (result N WorkflowAbort) :=
  do? _ <- check_record engine (tv_record t);
  do? _ <- Ret (failed (validate_inference_options options (limits engine)));
  do? messages <- model_messages (tv_record t);
  do? _ <- check_cancelled;
  do f <- ask (Q_stream {| req_session_id := session_id; req_session_incarnation_id := incarnation_id;
                           req_turn_id := turn_id; req_messages := messages;
                           req_tools := model_specs (tv_turn_tools t) engine; req_options := options |});
  do? started <- await_cancellable f;
  Ret (map_err (fun e => AbortFailed (TurnFailure_provider e)) started).

(** A round without calls: the final answer. *)
Definition finish_answer (t : TurnVars) (text : string) (stop_reason : StopReason)
    : sprog (result CompletedTurn WorkflowAbort) :=
  do? _ <- commit_message engine (tv_record t)
    {| msg_role := Role_Assistant; msg_content := assistant_message_content text [] |} FinalSaveSuccessWins;
  do _ <- establish_terminal;
  do _ <- emit_established_terminal (ModelItem (ModelStop stop_reason));
  Ret (Ok {| completed_reason := stop_reason; completed_usage := tv_usage t |}).

(** The calls of a round and their placeholders, committed together. *)
Definition round_messages (text : string) (persisted : list ToolCall) (calls : list (ToolCall * option ToolInputLimits))
    : list Message :=
  {| msg_role := Role_Assistant; msg_content := assistant_message_content text persisted |} ::
  map (fun c => tool_result_message (call_id (fst c)) unknown_tool_result) calls.

Definition round_place (record : SessionRecord) (start bytes calls : N) : option RoundPlace :=
  message ← rec_messages record !! N.to_nat (start - 1);
  block ← checked_sub (vec_len (msg_content message)) calls;
  Some {| placeholder_start := start; placeholder_bytes := bytes; source_message := start - 1;
          source_block_start := block |}.

Definition publish_round (t : TurnVars) (text : string) (calls : list (ToolCall * option ToolInputLimits))
    (stop_reason : StopReason) : sprog (result (TurnVars * RoundPlace) WorkflowAbort) :=
  do? reserved <- Ret (reserve_placeholders (tv_result_bytes t) (vec_len calls));
  let '(bytes, cumulative) := reserved in
  do _ <- emit (ModelItem (ModelStop stop_reason));
  do? persisted <- persist_calls (tv_turn_tools t) calls;
  do? start <- Ret (ok_or (abort_limit "transcript_message_limit" "placeholder message index overflowed")
    (checked_add (vec_len (rec_messages (tv_record t))) 1));
  do? record <- commit_messages engine (tv_record t) (round_messages text persisted calls) CommitCancellable;
  match round_place record start bytes (vec_len calls) with
  | None => Panic
  | Some place => Ret (Ok (set_tv_record t record cumulative (tv_complete_result_bytes t) (tv_turn_tools t), place))
  end.

(** One iteration of the outer loop. *)
Definition turn_round (t : TurnVars) : sprog (result (TurnVars * option CompletedTurn) WorkflowAbort) :=
  do? _ <- check_cancelled;
  do? rounds <- Ret (add_within (tv_model_rounds t) 1 (nz_get (max_model_rounds (limits engine)))
    "model_round_limit" "model round count overflowed" "turn exceeded the configured model round limit");
  let t := set_tv_rounds t rounds in
  do? stream <- open_stream t;
  do? streamed <- stream_loop (S (N.to_nat (nz_get (max_model_events_per_turn (limits engine))))) stream
    {| rv_turn := t; rv_text := ""; rv_calls := []; rv_call_ids := ∅; rv_usage := TokenUsage_default |};
  let '(stop_reason, r) := streamed in
  let calls := rv_calls r in
  do? usage <- Ret (checked_usage_add (tv_usage (rv_turn r)) (rv_usage r));
  let t := set_tv_usage (rv_turn r) usage in
  do? _ <- Ret (validate_round_stop (map fst calls) stop_reason);
  match calls with
  | [] =>
      do? completed <- finish_answer t (rv_text r) stop_reason;
      Ret (Ok (t, Some completed))
  | _ :: _ =>
      do? new_total <- Ret (add_within (tv_tool_calls t) (vec_len calls)
        (nz_get (max_tool_calls_per_turn (limits engine))) "tool_call_limit" "tool call count overflowed"
        "turn exceeded the configured tool call limit");
      let t := set_tv_seen t (list_to_set (map (fun c => call_id (fst c)) calls) ∪ tv_seen_call_ids t) in
      do? published <- publish_round t (rv_text r) calls stop_reason;
      let '(t, place) := published in
      do? performed <- call_loop t place 0 calls;
      let '(t, completed) := performed in
      Ret (Ok (match completed with Some _ => t | None => set_tv_tool_calls t new_total end, completed))
  end.

Fixpoint turn_loop (n : nat) (t : TurnVars) : sprog (result CompletedTurn WorkflowAbort) :=
  match n with
  | O => Panic
  | S n =>
      do? round <- turn_round t;
      match round with
      | (_, Some completed) => Ret (Ok completed)
      | (t, None) => turn_loop n t
      end
  end.

Definition run_turn_inner (record : SessionRecord) : sprog (result CompletedTurn WorkflowAbort) :=
  do _ <- emit Started;
  turn_loop (S (N.to_nat (nz_get (max_model_rounds (limits engine))))) (TurnVars_new record).
End Turn.

(** What the stream of a turn learns from its workflow. *)
Inductive WorkflowExit :=
| ExitCompleted (reason : StopReason) (usage : TokenUsage)
| ExitCancelled
| ExitFailed (failure : TurnFailure).

Definition workflow_exit (r : result CompletedTurn WorkflowAbort) : WorkflowExit :=
  match r with
  | Ok completed => ExitCompleted (completed_reason completed) (completed_usage completed)
  | Err AbortCancelled => ExitCancelled
  | Err (AbortFailed failure) => ExitFailed failure
  end.

Definition run_turn `{JsonWriter} (sha256 : string -> string) (engine : EngineInner) (session_id : SessionId)
    (turn_id : TurnId) (record : SessionRecord) (options : InferenceOptions) (context : option ValidatedSessionContext)
    : sprog WorkflowExit :=
  do completed <- run_turn_inner sha256 engine session_id (rec_incarnation_id record) turn_id options context record;
  Ret (workflow_exit completed).
