(* ===== verification/TurnStream.v ===== *)
(** * The event stream of a turn ([session.rs], [Turn])

    [Turn] owns the workflow of a turn, polls it, gives each event it stages to
    the event sink, yields the event once the sink has taken it, and only then
    lets the workflow go on. One poll is one program: it never waits, and what
    remains of the turn is its result.

    A suspended future is the program that remains, with what dropping it there
    does. Wakers are not part of the state: a poll may happen at any time, and the
    registrations of [update_cancellation_waiter] are those of [Cancel]. *)
From S2P Require Import Prelude Ids Json Model Limits Context Prog SessionState Emission Operations Workflow.
Open Scope prog_scope.

(** ** What a turn shares *)
(** The turn with the number [scope] is running, or has given up the lease. *)
Definition shared (scope : nat) (s : World) : TurnShared :=
  if (scope =? length (past_turns s))%nat then turn s else default TurnShared_default (past_turns s !! scope).

Definition set_past_turns (s : World) (l : list TurnShared) : World :=
  {| data := data s; active_turn := active_turn s;
     metadata_reconciliation_required := metadata_reconciliation_required s; lease_holder := lease_holder s;
     heap := heap s; host_strong_count := host_strong_count s; turn := turn s;
     permission_context := permission_context s; permission_contexts := permission_contexts s; past_turns := l |}.

Definition update_shared (scope : nat) (f : TurnShared -> TurnShared) (s : World) : World :=
  if (scope =? length (past_turns s))%nat then set_turn s (f (turn s))
  else set_past_turns s (alter f scope (past_turns s)).

Definition with_emission (e : EmissionState) (t : TurnShared) : TurnShared :=
  {| ts_cancelled := ts_cancelled t; ts_emission := e; ts_invocation_open := ts_invocation_open t;
     ts_admission_closed := ts_admission_closed t; ts_operation_active := ts_operation_active t;
     ts_closed := ts_closed t; ts_scope_strong := ts_scope_strong t |}.

(** [CancellationToken::cancel] sets the flag. *)
Definition cancel_token (t : TurnShared) : TurnShared :=
  {| ts_cancelled := true; ts_emission := ts_emission t; ts_invocation_open := ts_invocation_open t;
     ts_admission_closed := ts_admission_closed t; ts_operation_active := ts_operation_active t;
     ts_closed := ts_closed t; ts_scope_strong := ts_scope_strong t |}.

(** [InvocationTurnScope::close] *)
Definition close_invocation (t : TurnShared) : TurnShared :=
  {| ts_cancelled := ts_cancelled t; ts_emission := ts_emission t; ts_invocation_open := false;
     ts_admission_closed := ts_admission_closed t; ts_operation_active := ts_operation_active t;
     ts_closed := ts_closed t; ts_scope_strong := ts_scope_strong t |}.

(** [TurnMetadataScope::close_admission] *)
Definition close_admission (t : TurnShared) : TurnShared :=
  {| ts_cancelled := ts_cancelled t; ts_emission := ts_emission t; ts_invocation_open := ts_invocation_open t;
     ts_admission_closed := true; ts_operation_active := ts_operation_active t;
     ts_closed := ts_closed t; ts_scope_strong := ts_scope_strong t |}.

(** [TurnMetadataScope::wake_closed] *)
Definition wake_closed (t : TurnShared) : TurnShared :=
  {| ts_cancelled := ts_cancelled t; ts_emission := ts_emission t; ts_invocation_open := ts_invocation_open t;
     ts_admission_closed := ts_admission_closed t; ts_operation_active := ts_operation_active t;
     ts_closed := true; ts_scope_strong := ts_scope_strong t |}.

(** An [Arc] of the scope is cloned or dropped. *)
Definition with_scope_strong (t : TurnShared) (n : N) : TurnShared :=
  {| ts_cancelled := ts_cancelled t; ts_emission := ts_emission t; ts_invocation_open := ts_invocation_open t;
     ts_admission_closed := ts_admission_closed t; ts_operation_active := ts_operation_active t;
     ts_closed := ts_closed t; ts_scope_strong := n |}.
Definition drop_scope (t : TurnShared) : TurnShared := with_scope_strong t (ts_scope_strong t - 1).

Definition on_shared (scope : nat) (f : TurnShared -> TurnShared) : sprog unit := modify (update_shared scope f).

Definition gate_take_pending (scope : nat) : sprog (option StagedTurnEvent) :=
  act (fun s => let taken := take_pending (ts_emission (shared scope s)) in
                (fst taken, update_shared scope (with_emission (snd taken)) s)).

Definition on_gate (scope : nat) (f : EmissionState -> EmissionState) : sprog unit :=
  on_shared scope (fun t => with_emission (f (ts_emission t)) t).

Definition gate_usage (scope : nat) : sprog TokenUsage := get (fun s => em_usage (ts_emission (shared scope s))).
Definition gate_terminal (scope : nat) : sprog bool :=
  get (fun s => em_terminal_established (ts_emission (shared scope s))).
Definition gate_deferred (scope : nat) : sprog bool :=
  get (fun s => cancellation_deferred (ts_emission (shared scope s))).
Definition token_cancelled (scope : nat) : sprog bool := get (fun s => ts_cancelled (shared scope s)).

(** [Drop for TurnLease]: the lease is free, and the turn is one of the past. *)
Definition end_turn (s : World) : World := set_past_turns (release_lease s) (past_turns s ++ [turn s]).

(** ** Polling *)
Inductive Poll (A : Type) := Ready (a : A) | Pending.
Arguments Ready {A} a.
Arguments Pending {A}.

(** A poll of a future: its output, or what remains and how it is dropped. *)
Inductive Polled (A : Type) := PolledReady (a : A) | PolledPending (on_drop : World -> World) (rest : sprog A).
Arguments PolledReady {A} a.
Arguments PolledPending {A} on_drop rest.

Fixpoint poll_future {A} (p : sprog A) : sprog (Polled A) :=
  match p with
  | Ret a => Ret (PolledReady a)
  | Panic => Panic
  | Act f k => Act f (fun x => poll_future (k x))
  | Ask q k => Ask q (fun x => poll_future (k x))
  | Yield d k => Ret (PolledPending d k)
  | Wait r d k =>
      Act (fun s => match r s with Some (x, s') => (Some x, s') | None => (None, s) end)
        (fun x => match x with
                  | Some x => poll_future (k x)
                  | None => Ret (PolledPending d (Wait r d k))
                  end)
  end.

(** The delivery of an event: [sink.emit(observed).await]. *)
Inductive DeliveryFuture :=
| EmitCall (observed : EngineEvent)
| EmitPolls (polls : nat) (result : result unit EventSinkError).

Definition poll_emitted (polls : nat) (result : result unit EventSinkError)
    : Poll (Prelude.result unit EventSinkError) * DeliveryFuture :=
  match polls with
  | O => (Ready result, EmitPolls 0 result)
  | S polls => (Pending, EmitPolls polls result)
  end.

Definition poll_delivery_future (f : DeliveryFuture)
    : sprog (Poll (result unit EventSinkError) * DeliveryFuture) :=
  match f with
  | EmitCall observed => do f <- ask (Q_emit observed); Ret (poll_emitted (fst f) (snd f))
  | EmitPolls polls result => Ret (poll_emitted polls result)
  end.

Record PendingDelivery := { pd_event : EngineEvent; pd_future : DeliveryFuture }.

(** ** The turn *)
Inductive TurnState :=
| Running (on_drop : World -> World) (workflow : sprog WorkflowExit)
| EmitTerminal (event : TurnEvent)
| Done.

Record Turn := {
  t_scope : nat;
  t_session_id : SessionId;
  t_session_incarnation_id : SessionIncarnationId;
  t_id : TurnId;
  t_state : TurnState;
  t_delivery : option PendingDelivery;
  t_sequence : N;
  t_usage : TokenUsage;
  t_terminal_seen : bool;
  t_locally_synthesized_cancellation : bool;
  t_lease : bool;
}.

Definition with_state (t : Turn) (state : TurnState) : Turn :=
  Build_Turn (t_scope t) (t_session_id t) (t_session_incarnation_id t) (t_id t) state (t_delivery t) (t_sequence t)
    (t_usage t) (t_terminal_seen t) (t_locally_synthesized_cancellation t) (t_lease t).
Definition with_delivery (t : Turn) (delivery : option PendingDelivery) (sequence : N) : Turn :=
  Build_Turn (t_scope t) (t_session_id t) (t_session_incarnation_id t) (t_id t) (t_state t) delivery sequence
    (t_usage t) (t_terminal_seen t) (t_locally_synthesized_cancellation t) (t_lease t).
Definition with_flags (t : Turn) (usage : TokenUsage) (terminal_seen synthesized : bool) : Turn :=
  Build_Turn (t_scope t) (t_session_id t) (t_session_incarnation_id t) (t_id t) (t_state t) (t_delivery t) (t_sequence t)
    usage terminal_seen synthesized (t_lease t).
Definition without_lease (t : Turn) : Turn :=
  Build_Turn (t_scope t) (t_session_id t) (t_session_incarnation_id t) (t_id t) (t_state t) (t_delivery t) (t_sequence t)
    (t_usage t) (t_terminal_seen t) (t_locally_synthesized_cancellation t) false.

(** The turn [start_turn] returns. *)
Definition Turn_new (scope : nat) (started : StartedTurn) (workflow : sprog WorkflowExit) : Turn :=
  {| t_scope := scope; t_session_id := rec_id (st_record started);
     t_session_incarnation_id := rec_incarnation_id (st_record started); t_id := st_turn_id started;
     t_state := Running id workflow; t_delivery := None; t_sequence := 0; t_usage := TokenUsage_default;
     t_terminal_seen := false; t_locally_synthesized_cancellation := false; t_lease := true |}.

(** The turn of a reservation, with its workflow. *)
Definition started_turn `{JsonWriter} (sha256 : string -> string) (engine : EngineInner) (scope : nat)
    (started : StartedTurn) : Turn :=
  Turn_new scope started
    (run_turn sha256 engine (rec_id (st_record started)) (st_turn_id started) (st_record started) (st_options started)
       (st_context started)).

(** Assigning to [self.state] drops the workflow it held. *)
Definition drop_state (state : TurnState) : sprog unit :=
  match state with Running on_drop _ => modify on_drop | _ => Ret tt end.

Definition finish (t : Turn) : sprog Turn :=
  do _ <- on_shared (t_scope t) close_invocation;
  do _ <- on_shared (t_scope t) close_admission;
  do _ <- drop_state (t_state t);
  do _ <- on_gate (t_scope t) clear_gate;
  do _ <- (if t_lease t then modify end_turn else Ret tt);
  do _ <- on_shared (t_scope t) wake_closed;
  Ret (without_lease (with_state t Done)).

Definition fail_before_terminal (t : Turn) : sprog Turn :=
  do _ <- (if t_terminal_seen t then Ret tt else on_shared (t_scope t) cancel_token);
  finish (with_flags t (t_usage t) true (t_locally_synthesized_cancellation t)).

(** The next event of the turn. *)
Definition turn_event (t : Turn) (payload : TurnEvent) : EngineEvent :=
  {| ev_session_id := t_session_id t; ev_session_incarnation_id := t_session_incarnation_id t; ev_turn_id := t_id t;
     ev_sequence := t_sequence t; ev_payload := payload |}.

Definition stage (t : Turn) (payload : TurnEvent) : Turn :=
  let event := turn_event t payload in
  with_delivery t (Some {| pd_event := event; pd_future := EmitCall event |}) (saturating_add (t_sequence t) 1).

Definition establish_cancellation (t : Turn) : sprog Turn :=
  do _ <- drop_state (t_state t);
  Ret (with_state (with_flags t (t_usage t) true true) (EmitTerminal (Completed Stop_Cancelled (t_usage t)))).

Definition establish_cancellation_if_observed (t : Turn) : sprog (bool * Turn) :=
  do cancelled <- token_cancelled (t_scope t);
  when negb cancelled || t_terminal_seen t return (false, t);
  do deferred <- gate_deferred (t_scope t);
  when deferred return (false, t);
  do t <- establish_cancellation t;
  Ret (true, t).

Definition is_cancellation (event : TurnEvent) : bool :=
  match event with Completed Stop_Cancelled _ => true | _ => false end.

Definition cancel_pending_delivery (t : Turn) : sprog (option EngineEvent * Turn) :=
  do cancelled <- token_cancelled (t_scope t);
  when negb cancelled return (None, t);
  do deferred <- gate_deferred (t_scope t);
  when deferred return (None, t);
  match t_delivery t with
  | None => Ret (None, t)
  | Some pending =>
      let delivers_cancellation :=
        t_locally_synthesized_cancellation t && is_cancellation (ev_payload (pd_event pending)) in
      when t_terminal_seen t && negb delivers_cancellation return (None, t);
      let t := with_delivery t None (t_sequence t) in
      let event := if delivers_cancellation then pd_event pending
                   else turn_event t (Completed Stop_Cancelled (t_usage t)) in
      let t := if delivers_cancellation then t else with_delivery t None (saturating_add (t_sequence t) 1) in
      do t <- finish (with_flags t (t_usage t) true true);
      Ret (Some event, t)
  end.

Notation TurnItem := (result EngineEvent EngineError).

Definition delivery_lost : EngineError := Engine_Protocol "event delivery state was lost".

(** What happens to an event the sink has taken or refused. *)
Definition settle_delivery (t : Turn) (event : EngineEvent) (result : result unit EventSinkError)
    : sprog (Poll (option TurnItem) * Turn) :=
  let t := with_delivery t None (t_sequence t) in
  match result with
  | Ok _ =>
      do t <- (if is_terminal (ev_payload event) then finish t
               else do _ <- on_gate (t_scope t) acknowledge; Ret t);
      Ret (Ready (Some (Ok event)), t)
  | Err error =>
      do t <- fail_before_terminal t;
      Ret (Ready (Some (Err (Engine_EventSink (redact_event_sink_error error)))), t)
  end.

Definition poll_delivery (t : Turn) : sprog (Poll (option TurnItem) * Turn) :=
  do cancelled <- cancel_pending_delivery t;
  let '(event, t) := cancelled in
  match event with
  | Some event => Ret (Ready (Some (Ok event)), t)
  | None =>
      match t_delivery t with
      | None => do t <- fail_before_terminal t; Ret (Ready (Some (Err delivery_lost)), t)
      | Some delivery =>
          do polled <- poll_delivery_future (pd_future delivery);
          let t := with_delivery t (Some {| pd_event := pd_event delivery; pd_future := snd polled |}) (t_sequence t) in
          do cancelled <- cancel_pending_delivery t;
          let '(event, t) := cancelled in
          match event, fst polled with
          | Some event, _ => Ret (Ready (Some (Ok event)), t)
          | None, Pending => Ret (Pending, t)
          | None, Ready result =>
              match t_delivery t with
              | None => do t <- fail_before_terminal t; Ret (Ready (Some (Err delivery_lost)), t)
              | Some delivery => settle_delivery t (pd_event delivery) result
              end
          end
      end
  end.

(** [self.usage = self.gate.usage(); self.terminal_seen |= ..] *)
Definition read_gate (t : Turn) : sprog Turn :=
  do usage <- gate_usage (t_scope t);
  do terminal <- gate_terminal (t_scope t);
  Ret (with_flags t usage (t_terminal_seen t || terminal) (t_locally_synthesized_cancellation t)).

(** A workflow that has been polled and is dropped. *)
Definition drop_polled (polled : Polled WorkflowExit) : sprog unit :=
  match polled with PolledReady _ => Ret tt | PolledPending on_drop _ => modify on_drop end.

(** The workflow after a poll; a future that has returned panics when it is
    polled again. *)
Definition polled_state (polled : Polled WorkflowExit) : TurnState :=
  match polled with
  | PolledReady _ => Running id Panic
  | PolledPending on_drop rest => Running on_drop rest
  end.

(** The state a result of the workflow leads to. *)
Definition exit_turn (t : Turn) (exit : WorkflowExit) : sprog Turn :=
  match exit with
  | ExitCompleted reason usage =>
      Ret (with_state (with_flags t usage true (t_locally_synthesized_cancellation t))
             (EmitTerminal (Completed reason usage)))
  | ExitFailed failure =>
      Ret (with_state (with_flags t (t_usage t) true (t_locally_synthesized_cancellation t))
             (EmitTerminal (TurnFailure_into_event failure)))
  | ExitCancelled => establish_cancellation t
  end.

(** The arm of a running workflow: whether the loop goes on, or the poll is
    [Pending]. *)
Definition poll_running (t : Turn) (workflow : sprog WorkflowExit) : sprog (bool * Turn) :=
  do polled <- poll_future workflow;
  do t <- read_gate (with_state t Done);
  do staged <- gate_take_pending (t_scope t);
  match staged with
  | Some staged =>
      let t := with_flags t (t_usage t) (t_terminal_seen t || establishes_terminal staged)
                 (t_locally_synthesized_cancellation t) in
      do observed <- establish_cancellation_if_observed (with_state t (polled_state polled));
      let '(established, t) := observed in
      Ret (true, if (established : bool) then t else stage t (staged_payload staged))
  | None =>
      do observed <- establish_cancellation_if_observed t;
      let '(established, t) := observed in
      if (established : bool) then do _ <- drop_polled polled; Ret (true, t)
      else match polled with
           | PolledPending _ _ => Ret (false, with_state t (polled_state polled))
           | PolledReady exit => do t <- exit_turn t exit; Ret (true, t)
           end
  end.

(** The loop of [poll_next]: a workflow, its terminal event and the delivery are
    at most three iterations. *)
Fixpoint poll_loop (n : nat) (t : Turn) : sprog (Poll (option TurnItem) * Turn) :=
  match n with
  | O => Panic
  | S n =>
      do cancelled <- cancel_pending_delivery t;
      let '(event, t) := cancelled in
      match event, t_delivery t with
      | Some event, _ => Ret (Ready (Some (Ok event)), t)
      | None, Some _ => poll_delivery t
      | None, None =>
          do t <- read_gate t;
          do observed <- establish_cancellation_if_observed t;
          let t := snd observed in
          match t_state t with
          | Running _ workflow =>
              do ran <- poll_running t workflow;
              let '(again, t) := ran in
              if (again : bool) then poll_loop n t else Ret (Pending, t)
          | EmitTerminal event => poll_loop n (stage (with_state t Done) event)
          | Done => Ret (Ready None, with_state t Done)
          end
      end
  end.

Definition poll_next (t : Turn) : sprog (Poll (option TurnItem) * Turn) := poll_loop 3 t.

(** [Drop for Turn]; then its fields are dropped. *)
Definition drop_turn (t : Turn) : sprog unit :=
  do _ <- (if t_lease t then on_shared (t_scope t) cancel_token else Ret tt);
  do _ <- finish t;
  do _ <- on_shared (t_scope t) drop_scope;
  Ret tt.
