(* ===== verification/TurnMetadata.v ===== *)
(** * The metadata editor of a turn ([session/turn_metadata.rs])

    [TurnMetadataEditor]: while its turn is open, an editor reads one metadata
    entry from the store and replaces it if it still is what was read. It runs
    beside the turn and never takes the lease of the session.

    A scope is named by the number of its turn; what changes of it is part of
    what the turn shares. The identity of an editor is an allocation number. *)
From S2P Require Import Prelude Ids Json Model Limits Context Prog SessionState Emission Operations Workflow TurnStream.
Open Scope prog_scope.

Definition MAX_EDIT_RETRIES : nat := 32.

(** The fields of [TurnMetadataScope] that never change. *)
Record TurnMetadataScope := {
  ms_turn : nat;
  ms_session : SessionId;
  ms_incarnation : SessionIncarnationId;
  ms_next_sequence : N;
}.

Definition TurnMetadataScope_new (turn : nat) (record : SessionRecord) : TurnMetadataScope :=
  {| ms_turn := turn; ms_session := rec_id record; ms_incarnation := rec_incarnation_id record;
     ms_next_sequence := rec_next_turn_sequence record |}.

(** [EditorIdentity] behind its [Arc]. *)
Record TurnMetadataEditor := {
  ed_ptr : N;
  ed_scope : TurnMetadataScope;
  ed_key : string;
}.

Record TurnMetadataSnapshot := {
  sn_editor : TurnMetadataEditor;
  sn_record : ArcRecord;
}.

Definition entry (snapshot : TurnMetadataSnapshot) : option Value :=
  bt_get (rec_metadata (arc_val (sn_record snapshot))) (ed_key (sn_editor snapshot)).

(** ** Failures *)
Definition closed : EngineError := Engine_Protocol "turn metadata editor is closed".

Definition entry_conflict : EngineError :=
  Engine_Store (ComponentError Store_Conflict "turn_metadata_entry_changed" "turn metadata entry changed" true).

Definition contended : EngineError :=
  Engine_Store (ComponentError Store_Conflict "turn_metadata_contended"
    "turn metadata edit exceeded its conflict retry bound" true).

Definition limit_error (error : JsonLimitViolation) : EngineError :=
  Engine_Protocol (tf_message (json_limit_failure error)).

Definition is_store_conflict (error : EngineError) : bool :=
  match error with Engine_Store (ComponentError Store_Conflict _ _ _) => true | _ => false end.

(** ** Checks *)
Section Checks.
Context `{JsonWriter}.

Definition validate_bytes (metadata : Metadata) (limits : EngineLimits) : result unit EngineError :=
  match serialized_json_size_bounded metadata (nz_get (max_session_metadata_bytes limits)) with
  | Err _ => Err (Engine_Protocol "turn metadata serialization failed")
  | Ok None => Err (Engine_Protocol "turn metadata exceeds the configured byte limit")
  | Ok (Some _) => Ok tt
  end.

Definition validate_entry_bytes (key : string) (value : Value) (limits : EngineLimits) : result unit EngineError :=
  validate_bytes [(key, value)] limits.

(** The entries of the record but the one edited, then the replacement. *)
Definition candidate_metadata (metadata : Metadata) (key : string) (replacement : option Value) : Metadata :=
  let others := List.filter (fun e => negb (bool_decide (fst e = key))) metadata in
  match replacement with Some value => bt_insert others key value | None => others end.

Definition validate_candidate (record : SessionRecord) (key : string) (replacement : option Value)
    (limits : EngineLimits) : result unit EngineError :=
  let metadata := candidate_metadata (rec_metadata record) key replacement in
  let? _ := map_err limit_error
    (validate_json_roots (bt_values metadata ++ messages_json (rec_messages record)) limits) in
  validate_bytes metadata limits.

(** [TurnMetadataScope::validate_identity] *)
Definition scope_validate_identity (scope : TurnMetadataScope) (record : SessionRecord) : result unit EngineError :=
  fail_if negb (bool_decide (rec_id record = ms_session scope)) ||
          negb (bool_decide (rec_incarnation_id record = ms_incarnation scope))
    with SessionIncarnationConflict in
  fail_if negb (rec_next_turn_sequence record =? ms_next_sequence scope)%N with closed in
  Ok tt.
End Checks.

(** The record with the entry replaced or removed. *)
Definition edit_entry (record : SessionRecord) (key : string) (replacement : option Value) : SessionRecord :=
  with_metadata record
    match replacement with
    | Some value => bt_insert (rec_metadata record) key value
    | None => bt_remove (rec_metadata record) key
    end.

(** ** The scope *)
Section Editor.
Context `{JsonWriter}.
Context (engine : EngineInner) (has_host : bool).

(** [TurnMetadataScope::ensure_open] *)
Definition scope_ensure_open (scope : TurnMetadataScope) : sprog (result unit EngineError) :=
  do? _ <- ensure_open has_host;
  do admission_closed <- get (fun s => ts_admission_closed (shared (ms_turn scope) s));
  when admission_closed return Err closed;
  do cancelled <- token_cancelled (ms_turn scope);
  when cancelled return Err closed;
  Ret (Ok tt).

Definition with_operation_active (b : bool) (t : TurnShared) : TurnShared :=
  {| ts_cancelled := ts_cancelled t; ts_emission := ts_emission t; ts_invocation_open := ts_invocation_open t;
     ts_admission_closed := ts_admission_closed t; ts_operation_active := b;
     ts_closed := ts_closed t; ts_scope_strong := ts_scope_strong t |}.

(** [operation_active.compare_exchange(false, true)] *)
Definition acquire_operation (turn : nat) (s : World) : bool * World :=
  if ts_operation_active (shared turn s) then (false, s)
  else (true, update_shared turn (with_operation_active true) s).

(** [Drop for OperationLease] *)
Definition release_operation (turn : nat) (s : World) : World := update_shared turn (with_operation_active false) s.

(** [TurnMetadataScope::acquire], with what the lease it returns covers. *)
Definition with_operation {A} (scope : TurnMetadataScope) (body : sprog (result A EngineError))
    : sprog (result A EngineError) :=
  do? _ <- scope_ensure_open scope;
  do acquired <- act (acquire_operation (ms_turn scope));
  when negb acquired return Err SessionBusy;
  guarded (release_operation (ms_turn scope)) (fun _ => false) (
    do? _ <- scope_ensure_open scope;
    body).

(** [Weak::upgrade], with what the [Arc] it returns covers. The clone inside the
    operation lease lives no longer, so it is not counted. *)
Definition upgrade_scope (turn : nat) (s : World) : bool * World :=
  let strong := ts_scope_strong (shared turn s) in
  if (strong =? 0)%N then (false, s)
  else (true, update_shared turn (fun t => with_scope_strong t (ts_scope_strong t + 1)) s).

Definition with_scope {A} (scope : TurnMetadataScope) (body : sprog (result A EngineError))
    : sprog (result A EngineError) :=
  do upgraded <- act (upgrade_scope (ms_turn scope));
  when negb upgraded return Err closed;
  guarded (update_shared (ms_turn scope) drop_scope) (fun _ => false) body.

(** [TurnMetadataScope::snapshot] *)
Definition scope_snapshot (scope : TurnMetadataScope) : sprog (result ArcRecord EngineError) :=
  do? _ <- scope_ensure_open scope;
  do snap <- snapshot;
  let '(record, persisted) := snap in
  do? _ <- Ret (scope_validate_identity scope (arc_val record));
  when negb persisted || (rec_revision (arc_val record) =? 0)%N
    return Err (Engine_Protocol "turn metadata requires a persisted turn");
  do? _ <- Ret (validate_record_limits (arc_val record) (limits engine));
  Ret (Ok record).

(** [TurnMetadataScope::wait]; one level per poll. *)
Fixpoint wait_polls {T} (scope : TurnMetadataScope) (save_success_wins : bool) (n : nat)
    (r : result T SessionStoreError) : sprog (result T EngineError) :=
  do? _ <- scope_ensure_open scope;
  do cancelled <- token_cancelled (ms_turn scope);
  when cancelled return Err closed;
  do woken <- get (fun s => ts_closed (shared (ms_turn scope) s));
  when woken return Err closed;
  do? _ <- scope_ensure_open scope;
  match n, save_success_wins, r with
  | O, true, Ok value => Ret (Ok value)
  | O, _, _ => do? _ <- scope_ensure_open scope; Ret (store_result r)
  | S n, _, _ => do? _ <- scope_ensure_open scope; Yield id (wait_polls scope save_success_wins n r)
  end.

Definition wait {T} (scope : TurnMetadataScope) (operation : Fut (result T SessionStoreError))
    (save_success_wins : bool) : sprog (result T EngineError) :=
  wait_polls scope save_success_wins (fst operation) (snd operation).

Definition reload (scope : TurnMetadataScope) : sprog (result ArcRecord EngineError) :=
  do? _ <- scope_ensure_open scope;
  do load <- ask (Q_load (session_store engine) (ms_session scope));
  do? loaded <- wait scope load false;
  do? loaded <- Ret (ok_or (Engine_Protocol "session disappeared during turn metadata editing") loaded);
  do? _ <- Ret (scope_validate_identity scope loaded);
  do? _ <- Ret (validate_loaded loaded);
  do? _ <- Ret (validate_record_limits loaded (limits engine));
  do reconciled <- reconcile_loaded loaded;
  do? _ <-
    match reconciled with
    | Ok _ => Ret (Ok tt)
    | Err error =>
        do? current <- scope_snapshot scope;
        Ret (if (rec_revision (arc_val current) <=? rec_revision loaded)%N then Err error else Ok tt)
    end;
  scope_snapshot scope.

(** ** The editor *)
(** [Turn::metadata_editor]; [ptr] is the allocation of the identity. *)
Definition metadata_editor (t : Turn) (record : SessionRecord) (ptr : N) (key : string)
    : sprog (result TurnMetadataEditor EngineError) :=
  let scope := TurnMetadataScope_new (t_scope t) record in
  do? _ <- scope_ensure_open scope;
  do? _ <- Ret (validate_entry_bytes key (VNumber "0") (limits engine));
  Ret (Ok {| ed_ptr := ptr; ed_scope := scope; ed_key := key |}).

Definition is_active (editor : TurnMetadataEditor) : sprog bool :=
  let scope := ed_scope editor in
  do active <- with_scope scope (
    do? _ <- scope_ensure_open scope;
    do snap <- snapshot;
    Ret (scope_validate_identity scope (arc_val (fst snap))));
  Ret (is_ok active).

Definition read_entry (editor : TurnMetadataEditor) : sprog (result TurnMetadataSnapshot EngineError) :=
  let scope := ed_scope editor in
  with_scope scope (with_operation scope (
    do? record <- reload scope;
    Ret (Ok {| sn_editor := editor; sn_record := record |}))).

(** A save under [PublicationDebt], which re-arms the debt unless the save is
    confirmed. [None] is the next iteration. *)
Definition publish (scope : TurnMetadataScope) (current : ArcRecord) (candidate : SessionRecord)
    : sprog (option (result SessionRevision EngineError)) :=
  do _ <- set_debt true;
  guarded (fun s => set_reconciliation_required s true)
    (fun r => match r with Some (Ok _) => true | _ => false end) (
    do save <- ask (Q_save (session_store engine) candidate (Some (rec_revision (arc_val current))));
    do saved <- wait scope save true;
    match saved with
    | Ok revision =>
        if (rec_revision (arc_val current) <? revision)%N then
          do arc <- arc_new (with_revision candidate revision);
          do reconciled <- reconcile_saved arc;
          Ret (Some (let? _ := reconciled in Ok revision))
        else Ret (Some (Err (Engine_Protocol "turn metadata save returned a non-increasing revision")))
    | Err error =>
        if is_store_conflict error then
          do reloaded <- reload scope;
          Ret (match reloaded with Ok _ => None | Err e => Some (Err e) end)
        else Ret (Some (Err error))
    end).

Fixpoint exchange_loop (n : nat) (editor : TurnMetadataEditor) (expected : option Value) (replacement : option Value)
    : sprog (result SessionRevision EngineError) :=
  let scope := ed_scope editor in
  match n with
  | O => Ret (Err contended)
  | S n =>
      do? current <- scope_snapshot scope;
      when negb (bool_decide (bt_get (rec_metadata (arc_val current)) (ed_key editor) = expected))
        return Err entry_conflict;
      do? _ <- Ret (validate_candidate (arc_val current) (ed_key editor) replacement (limits engine));
      let candidate := edit_entry (arc_val current) (ed_key editor) replacement in
      do still_current <- snapshot_is_current current true;
      if negb still_current then exchange_loop n editor expected replacement
      else
        do? _ <- scope_ensure_open scope;
        do published <- publish scope current candidate;
        match published with
        | Some result => Ret result
        | None => exchange_loop n editor expected replacement
        end
  end.

Definition compare_exchange (editor : TurnMetadataEditor) (expected : TurnMetadataSnapshot) (replacement : option Value)
    : sprog (result SessionRevision EngineError) :=
  when negb (ed_ptr (sn_editor expected) =? ed_ptr editor)%N
    return Err (Engine_Protocol "turn metadata snapshot belongs to another editor");
  let scope := ed_scope editor in
  with_scope scope (with_operation scope (
    do? _ <- Ret match replacement with
                 | Some value =>
                     let? _ := map_err limit_error (validate_json_roots [value] (limits engine)) in
                     validate_entry_bytes (ed_key editor) value (limits engine)
                 | None => Ok tt
                 end;
    do required <- get metadata_reconciliation_required;
    do? _ <- (if required then do? _ <- reload scope; Ret (Ok tt) else Ret (Ok tt));
    exchange_loop MAX_EDIT_RETRIES editor (entry expected) replacement)).
End Editor.
