(* ===== verification/Sample.v ===== *)
(** * A sample session

    The concrete engine, session and schedules at which the examples evaluate the
    definitions. *)
From S2P Require Import Prelude Ids Json Model Limits Context Prog SessionState.
Open Scope prog_scope.

#[export] Existing Instance brief_writer.

Definition sample_engine : EngineInner :=
  {| session_store := 7; engine_tools := []; tool_specs := []; limits := EngineLimits_default |}.

Definition sample_record : SessionRecord :=
  with_messages (with_revision (SessionRecord_empty "session" "incarnation") 4%N) [Message_text Role_User "hello"].

Definition world_of (record : SessionRecord) (persisted : bool) : World :=
  {| data := {| data_record := {| arc_ptr := 0; arc_val := record |}; data_persisted := persisted |};
     active_turn := false; metadata_reconciliation_required := false; lease_holder := None;
     heap := [record]; host_strong_count := 1; turn := TurnShared_default;
     permission_context := None; permission_contexts := 0; past_turns := [] |}.

Definition sample_world : World := world_of sample_record true.

(** A host whose store gives each saved record the next revision, after one
    pending poll. *)
Definition sample_answer (q : Query) : Ans q :=
  match q with
  | Q_load _ _ => (0%nat, Ok (Some sample_record))
  | Q_save _ r _ => (1%nat, Ok (rec_revision r + 1)%N)
  | Q_stream _ => (0%nat, Ok 0%N)
  | Q_next_item _ => (0%nat, None)
  | Q_complete_input_limits _ => None
  | Q_complete_output_limits _ => None
  | Q_persist_arguments _ _ _ => (0%nat, Ok None)
  | Q_prepare _ _ _ => Err (ComponentError Tool_InvalidInput "invalid" "invalid" false)
  | Q_authorize _ _ => (0%nat, Ok {| auth_decision := Deny "no"; auth_admission := None |})
  | Q_admit _ => Ok tt
  | Q_execute _ _ _ _ => (0%nat, Err (ComponentError Tool_InvalidInput "invalid" "invalid" false))
  | Q_emit _ => (0%nat, Ok tt)
  end.

(** No other task acts, and the future is polled to its end. *)
Definition sample_schedule : schedule World Query Ans :=
  {| sch_env := fun _ s => s; sch_answer := fun _ q => sample_answer q; sch_drop := fun _ => false |}.

Definition sample_run {A} (p : sprog A) (s : World) := run sample_schedule 0 p s [].

Lemma sample_inv record persisted : inv (world_of record persisted).
Proof. by constructor. Qed.
