(* ===== verification/Lease.v ===== *)
(** * The exclusive lease of a session

    What a task may do to the shared session at each step ([allowed]), and the
    rules for programs that run inside the lease: reading, awaiting host code,
    saving under a publication debt, settling it, and leaving the lease. *)
From S2P Require Import Prelude Ids Json Model Limits Context Prog SessionState Operations Sample.
Open Scope prog_scope.

(** ** The guarantee of a session task *)
(** A save was issued under an armed publication debt, and the debt has not been
    settled since. *)
Fixpoint unsettled (h : Events) : bool :=
  match h with
  | [] => false
  | EvAsk s (Q_save _ _ _) _ :: h => metadata_reconciliation_required s || unsettled h
  | EvAct s s' :: h =>
      if metadata_reconciliation_required s && negb (metadata_reconciliation_required s') then false
      else unsettled h
  | _ :: h => unsettled h
  end.

(** The newest answer of the store, and that the canonical record reflects it. *)
Fixpoint settled_by (h : Events) (s : World) : Prop :=
  match h with
  | [] => False
  | EvAsk _ q x :: h =>
      match q return Ans q -> Prop with
      | Q_save _ r _ => fun x => exists revision, snd x = Ok revision /\ reflects (with_revision r revision) s
      | Q_load _ _ => fun x =>
          match snd x with Ok (Some r) => reflects r s | Ok None => True | Err _ => False end
      | _ => fun _ => settled_by h s
      end x
  | _ :: h => settled_by h s
  end.

(** Number of saves issued. *)
Fixpoint saves (h : Events) : nat :=
  match h with
  | [] => 0
  | EvAsk _ (Q_save _ _ _) _ :: h => S (saves h)
  | _ :: h => saves h
  end.

(** ** What a task has seen *)
(** The session holds [record], stored or not. *)
Definition holds (record : SessionRecord) (persisted : bool) (s : World) : Prop :=
  canonical s = record /\ data_persisted (data s) = persisted.

(** An action that leaves the record alone. *)
Definition keeps_record (e : event World Query Ans) : Prop :=
  match e with EvAct s s' => data s' = data s | _ => False end.

(** Since [h] the task has only taken such actions. *)
Definition keeps (h h' : Events) : Prop := exists l, h' = l ++ h /\ Forall keeps_record l.

(** The task took a snapshot of the record and then found it unchanged: the session
    held [record] at both reads, and since the second the task has touched neither
    the record nor the store. *)
Definition current_at (h : Events) (record : SessionRecord) (persisted : bool) : Prop :=
  exists s2 s1 h0, keeps (EvAct s2 s2 :: EvAct s1 s1 :: h0) h /\
    holds record persisted s1 /\ holds record persisted s2.

(** The store answered a save of [r], issued at [h1], with [revision]. *)
Definition save_accepted (h : Events) (r : SessionRecord) (expected : option SessionRevision) (revision : SessionRevision)
    (h1 : Events) : Prop :=
  exists s store (x : Ans (Q_save store r expected)),
    EvAsk s (Q_save store r expected) x :: h1 `suffix_of` h /\ snd x = Ok revision.

(** The store accepted [r] in place of [base], which was current when the save was
    issued and whose revision the save expected. *)
Definition replaced (h : Events) (base : SessionRecord) (persisted : bool) (r : SessionRecord)
    (revision : SessionRevision) : Prop :=
  exists h1, save_accepted h r (then_some persisted (rec_revision base)) revision h1 /\ current_at h1 base persisted.

Lemma keeps_refl h : keeps h h.
Proof. by exists []. Qed.

Lemma keeps_act h s s' : data s' = data s -> keeps h (EvAct s s' :: h).
Proof. intros E. exists [EvAct s s']. split; [done|]. by apply Forall_singleton. Qed.

Lemma keeps_trans h1 h2 h3 : keeps h1 h2 -> keeps h2 h3 -> keeps h1 h3.
Proof.
  intros (k & -> & Hk) (l & -> & Hl). exists (l ++ k). split; [by rewrite app_assoc|by apply Forall_app].
Qed.

Lemma keeps_suffix h h' : keeps h h' -> h `suffix_of` h'.
Proof. intros (l & -> & _). by exists l. Qed.

Lemma current_keeps h h' record persisted : keeps h h' -> current_at h record persisted -> current_at h' record persisted.
Proof.
  intros Hk (s2 & s1 & h0 & Hl & H1 & H2). exists s2, s1, h0. split_and!; [by eapply keeps_trans|done|done].
Qed.

Lemma current_act h record persisted s s' :
  data s' = data s -> current_at h record persisted -> current_at (EvAct s s' :: h) record persisted.
Proof. intros E. by apply current_keeps, keeps_act. Qed.

Lemma save_accepted_later h h' r expected revision h1 :
  h `suffix_of` h' -> save_accepted h r expected revision h1 -> save_accepted h' r expected revision h1.
Proof. intros Hs (s & store & x & Hx & E). exists s, store, x. split; [by etrans|done]. Qed.

Lemma replaced_later h h' base persisted r revision :
  h `suffix_of` h' -> replaced h base persisted r revision -> replaced h' base persisted r revision.
Proof. intros Hs (h1 & Ha & Hc). exists h1. split; [by eapply save_accepted_later|done]. Qed.

Lemma adds_quiet_suffix h h' : adds_quiet h h' -> h `suffix_of` h'.
Proof. intros (l & -> & _). by exists l. Qed.

(** The check that a snapshot is current, made on the state after the snapshot. *)
Lemma current_checked s1 s2 h :
  inv s1 -> evolves s1 s2 ->
  (arc_ptr (data_record (data s2)) =? arc_ptr (data_record (data s1)))%nat &&
    eqb (data_persisted (data s2)) (data_persisted (data s1)) = true ->
  current_at (EvAct s2 s2 :: EvAct s1 s1 :: h) (canonical s1) (data_persisted (data s1)).
Proof.
  intros Hi He [Hp Hf]%andb_true_iff. apply Nat.eqb_eq in Hp. apply eqb_prop in Hf.
  exists s2, s1, h. split_and!; [apply keeps_refl|done|]. split; [|done]. unfold canonical.
  rewrite (valid_arc_current s2 (data_record (data s1))); [done|by apply He| |done].
  eapply valid_arc_stable; [exact He|apply Hi].
Qed.

(** What a task may do: [armed] is whether it saves only under an armed debt,
    [save_ok] which records it may save. Other tasks can rely on its actions; it
    releases its lease with an unsettled debt still armed; it disarms the debt
    only for a store answer the canonical record reflects; it calls the store only
    while it holds the lease. *)
Definition allowed (armed : bool) (save_ok : Events -> SessionRecord -> option SessionRevision -> Prop)
    (me : nat) (e : event World Query Ans) (h : Events) : Prop :=
  match e with
  | EvAct s s' | EvDrop s s' =>
      own me s s' /\
      (lease_holder s = Some me -> lease_holder s' <> Some me -> unsettled h = true ->
         metadata_reconciliation_required s' = true) /\
      (metadata_reconciliation_required s = true -> metadata_reconciliation_required s' = false ->
         lease_holder s = Some me /\ settled_by h s)
  | EvAsk s (Q_save _ r expected) _ =>
      lease_holder s = Some me /\ (armed = true -> metadata_reconciliation_required s = true) /\
      save_ok h r expected
  | EvAsk s _ _ => lease_holder s = Some me
  end.

Definition any_answer (h : Events) (s : World) (q : Query) (x : Ans q) : Prop := True.

(** No event of the turn is staged. *)
Record idle (s : World) : Prop := {
  idle_outstanding : em_outstanding (emission s) = false;
  idle_pending : em_pending (emission s) = None;
  idle_acknowledged : em_acknowledged (emission s) = false;
}.

Lemma idle_rely me s s' : rely me s s' -> lease_holder s = Some me -> idle s -> idle s'.
Proof.
  intros R Hl [Ho Hp Ha]. destruct (rely_emission _ _ _ R Hl) as [_ _ _ E Hi _ _].
  destruct (Hi Ho) as [E1 E2]. constructor; congruence.
Qed.

(** The state of a task inside its lease. *)
Record leased (me : nat) (s : World) (h : Events) : Prop := {
  leased_inv : inv s;
  leased_holder : lease_holder s = Some me;
  leased_debt : unsettled h = true -> metadata_reconciliation_required s = true;
  leased_context : permission_context s = None;
}.

Lemma leased_stable me s s' h : rely me s s' -> leased me s h -> leased me s' h.
Proof.
  intros R [Hi Hl Hd Hc]. constructor; [by eapply inv_rely|by apply R|by intros; apply R; auto|].
  by destruct (rely_context _ _ _ R Hl) as [-> _].
Qed.

Lemma adds_quiet_unsettled h h' : adds_quiet h h' -> unsettled h' = unsettled h.
Proof.
  intros (l & -> & Hl). induction Hl as [|e l He _ IH]; [done|]. destruct e as [s s'| |]; try done.
  destruct He as [_ _ E _]. simpl. rewrite E, IH. by destruct (metadata_reconciliation_required s).
Qed.

Lemma adds_quiet_settled h h' s : adds_quiet h h' -> settled_by h s -> settled_by h' s.
Proof. intros (l & -> & Hl) Hs. induction Hl as [|e l He _ IH]; [done|]. by destruct e. Qed.

Lemma adds_quiet_saves h h' : adds_quiet h h' -> saves h' = saves h.
Proof. intros (l & -> & Hl). induction Hl as [|e l He _ IH]; [done|]. by destruct e. Qed.

(** [rely] and quiet actions keep the lease. *)
Lemma leased_quiet me s s' h h' : rely me s s' -> adds_quiet h h' -> leased me s h -> leased me s' h'.
Proof.
  intros R Hh Hl. apply (leased_stable _ _ _ _ R) in Hl as [? ? Hd ?]. constructor; [done|done| |done].
  by rewrite (adds_quiet_unsettled _ _ Hh).
Qed.

(** What the code inside a lease needs to be allowed. *)
Record lease_contract (me : nat) (armed : bool)
    (save_ok : Events -> SessionRecord -> option SessionRevision -> Prop)
    (al : event World Query Ans -> Events -> Prop) : Prop := {
  lc_quiet : forall s s' h, quiet s s' -> al (EvAct s s') h;
  lc_drop : forall s h, leased me s h -> al (EvDrop s s) h;
  lc_load : forall s store id x h, leased me s h -> al (EvAsk s (Q_load store id) x) h;
  lc_save : forall s store r expected x h, leased me s h ->
    (armed = true -> metadata_reconciliation_required s = true) -> save_ok h r expected ->
    al (EvAsk s (Q_save store r expected) x) h;
  lc_arm : forall s h, leased me s h -> al (EvAct s (set_reconciliation_required s true)) h;
  lc_settle : forall s h, leased me s h -> settled_by h s ->
    al (EvAct s (set_reconciliation_required s false)) h;
  lc_held : forall s s' h, leased me s h -> evolves s s' -> lease_holder s' = Some me ->
    metadata_reconciliation_required s' = metadata_reconciliation_required s -> al (EvAct s s') h;
}.

(** The debt may be set or settled by the holder of the lease. *)
Lemma evolves_debt s b : inv s -> evolves s (set_reconciliation_required s b).
Proof. intros Hi. apply evolves_same_data; [done..|apply Hi|apply Hi]. Qed.

Lemma inv_debt s b : inv s -> inv (set_reconciliation_required s b).
Proof. intros Hi. by apply (ev_inv _ _ (evolves_debt s b Hi)). Qed.

Lemma allowed_contract armed save_ok me :
  lease_contract me armed save_ok (drop_allowed (allowed armed save_ok me) release_lease).
Proof.
  constructor; simpl.
  - intros s s' h Hq. pose proof Hq as [_ El Ed _]. split_and!; [by apply quiet_own|congruence..].
  - intros s h [Hi Hl Hd Hc]. split_and!; [|auto|simpl; congruence].
    apply held_own; [by apply evolves_same_data|done|by right].
  - by intros s store id x h [].
  - intros s store r expected x h [Hi Hl Hd Hc] Ha Hs. done.
  - intros s h [Hi Hl Hd Hc]. split_and!; [|done|done].
    apply held_own; [by apply evolves_debt|done|by left].
  - intros s h [Hi Hl Hd Hc] Hs. split_and!; [|done|done].
    apply held_own; [by apply evolves_debt|done|by left].
  - intros s s' h [Hi Hl Hd Hc] He Hl' Hd'. split_and!; [|done|congruence]. apply held_own; [done|done|by left].
Qed.

(** A task that since [h0] has only acted and called the store, and saved [n]
    times. *)
Definition store_event (e : event World Query Ans) : Prop :=
  match e with
  | EvAct _ _ | EvAsk _ (Q_load _ _) _ | EvAsk _ (Q_save _ _ _) _ => True
  | _ => False
  end.

Definition extends (h0 h : Events) (n : nat) : Prop :=
  exists l, h = l ++ h0 /\ Forall store_event l /\ saves l = n.

Lemma extends_refl h : extends h h 0.
Proof. by exists []. Qed.

Lemma saves_app l h : saves (l ++ h) = saves l + saves h.
Proof. induction l as [|[|? []|] l IH]; simpl; rewrite ?IH; done. Qed.

Lemma extends_saves h0 h n : extends h0 h n -> saves h = n + saves h0.
Proof. intros (l & -> & _ & <-). apply saves_app. Qed.

Lemma extends_trans h0 h1 h2 n m : extends h0 h1 n -> extends h1 h2 m -> extends h0 h2 (m + n).
Proof.
  intros (l & -> & Hl & <-) (k & -> & Hk & <-). exists (k ++ l). rewrite <-app_assoc, saves_app.
  split_and!; [done|by apply Forall_app|done].
Qed.

Lemma extends_act h0 h n s s' : extends h0 h n -> extends h0 (EvAct s s' :: h) n.
Proof. intros (l & -> & Hl & <-). exists (EvAct s s' :: l). split_and!; [done|by constructor|done]. Qed.

Lemma extends_load h0 h n s store id x : extends h0 h n -> extends h0 (EvAsk s (Q_load store id) x :: h) n.
Proof. intros (l & -> & Hl & <-). exists (EvAsk s (Q_load store id) x :: l). split_and!; [done|by constructor|done]. Qed.

Lemma extends_save h0 h n s store r expected x :
  extends h0 h n -> extends h0 (EvAsk s (Q_save store r expected) x :: h) (S n).
Proof.
  intros (l & -> & Hl & <-). exists (EvAsk s (Q_save store r expected) x :: l). split_and!; [done|by constructor|done].
Qed.

Lemma extends_quiet h0 h h' n : adds_quiet h h' -> extends h0 h n -> extends h0 h' n.
Proof.
  intros (k & -> & Hk) (l & -> & Hl & <-). exists (k ++ l). rewrite app_assoc. split_and!; [done| |].
  - apply Forall_app. split; [|done]. eapply Forall_impl; [exact Hk|]. by intros [].
  - rewrite saves_app. clear Hl. induction Hk as [|[] k ? ? IH]; done.
Qed.
#[export] Hint Resolve extends_refl extends_act extends_load extends_save extends_quiet : machine.

(** Where a leased task is: how far the state is from the start [s0], and what it
    did since [h0]. *)
Record within (me : nat) (s0 : World) (h0 : Events) (n : nat) (s : World) (h : Events) : Prop := {
  within_evolves : evolves s0 s;
  within_leased : leased me s h;
  within_extends : extends h0 h n;
}.

Lemma within_rely me s0 h0 n s s' h : rely me s s' -> within me s0 h0 n s h -> within me s0 h0 n s' h.
Proof. intros R [He Hl Hs]. constructor; [etrans; [exact He|apply R]|by eapply leased_stable|done]. Qed.

Lemma within_quiet me s0 h0 n s s' h h' :
  rely me s s' -> adds_quiet h h' -> within me s0 h0 n s h -> within me s0 h0 n s' h'.
Proof.
  intros R Hh [He Hl Hs]. constructor; [etrans; [exact He|apply R]|by eapply leased_quiet|].
  by eapply extends_quiet.
Qed.

Lemma within_start me s0 s1 h0 n s h : evolves s0 s1 -> within me s1 h0 n s h -> within me s0 h0 n s h.
Proof. intros He [? ? ?]. constructor; [by etrans|done..]. Qed.

Lemma within_base me s0 h0 h1 n m s h : extends h0 h1 n -> within me s0 h1 m s h -> within me s0 h0 (m + n) s h.
Proof. intros He [? ? ?]. constructor; [done|done|by eapply extends_trans]. Qed.

Lemma within_inv me s0 h0 n s h : within me s0 h0 n s h -> inv s.
Proof. by intros [_ [] _]. Qed.
#[export] Hint Resolve within_inv within_rely : machine.

Lemma settled_evolves h s s' : evolves s s' -> settled_by h s -> settled_by h s'.
Proof.
  intros He. induction h as [|[| s0 q x|] h IH]; simpl; [done|exact IH| |exact IH].
  destruct q; simpl; try exact IH.
  - destruct (snd x) as [[r|]|]; [|done..]. by apply reflects_evolves.
  - intros (rev & ? & ?). exists rev. split; [done|]. by eapply reflects_evolves.
Qed.

Section Leased.
Context `{JsonWriter}.
Context {me : nat} {armed : bool} {save_ok : Events -> SessionRecord -> option SessionRevision -> Prop}.
Context {al : event World Query Ans -> Events -> Prop}.
Context (C : lease_contract me armed save_ok al).
Notation swp := (wp (rely me) any_answer al).

Definition drop_ok {B} (post : outcome B -> World -> Events -> Prop) : Prop :=
  forall s h, leased me s h -> post Dropped s (EvDrop s s :: h).

Lemma wp_return {B} (b : B) post s0 h0 n s h :
  within me s0 h0 n s h -> (forall s', rely me s s' -> within me s0 h0 n s' h -> post (Returned b) s' h) ->
  swp (Ret b) post s h.
Proof. intros Hw Hp s' R. apply Hp; [done|]. by eapply within_rely. Qed.

Lemma wp_await {X B} (f : Fut X) (c : X -> sprog B) post s0 h0 n s h :
  within me s0 h0 n s h -> drop_ok post ->
  (forall s', rely me s s' -> within me s0 h0 n s' h -> swp (c (snd f)) post s' h) ->
  swp (bind (await f) c) post s h.
Proof.
  intros Hl Hdrop. destruct f as [k x]. unfold await. simpl. revert s Hl. induction k as [|k IH]; intros s Hl Hc; simpl.
  - apply Hc; [apply rely_refl|done].
  - intros s' R. pose proof (within_rely _ _ _ _ _ _ _ R Hl) as Hl'.
    split; [split; [apply (lc_drop _ _ _ _ C), Hl'|apply Hdrop, Hl']|].
    apply IH; [done|]. intros s'' R'' Hl''. apply Hc; [by eapply rely_trans|done].
Qed.

Lemma wp_read {X B} (f : World -> X) (c : X -> sprog B) post s0 h0 n s h :
  within me s0 h0 n s h ->
  (forall s', rely me s s' -> within me s0 h0 n s' (EvAct s' s' :: h) -> swp (c (f s')) post s' (EvAct s' s' :: h)) ->
  swp (bind (get f) c) post s h.
Proof.
  intros Hl Hc. apply (wp_get me any_answer al (lc_quiet _ _ _ _ C)). intros s' R. apply Hc; [done|].
  eapply within_quiet; [exact R|apply adds_quiet_one, quiet_refl|done].
Qed.

(** An action of the lease holder that leaves the debt alone. *)
Lemma wp_modify_held {B} (f : World -> World) (c : unit -> sprog B) post s0 h0 n s h :
  within me s0 h0 n s h ->
  (forall s', inv s' -> lease_holder s' = Some me -> evolves s' (f s') /\ lease_holder (f s') = Some me /\
     metadata_reconciliation_required (f s') = metadata_reconciliation_required s' /\
     permission_context (f s') = permission_context s') ->
  (forall s', rely me s s' -> within me s0 h0 n (f s') (EvAct s' (f s') :: h) ->
     swp (c tt) post (f s') (EvAct s' (f s') :: h)) ->
  swp (bind (modify f) c) post s h.
Proof.
  intros Hw Hf Hc s' R. pose proof (within_rely _ _ _ _ _ _ _ R Hw) as [He Hl Hn]. pose proof Hl as [Hi Hh Hu Hx].
  destruct (Hf s' Hi Hh) as (Hev & Hh' & Hd' & Hx'). split; [by apply (lc_held _ _ _ _ C)|].
  apply Hc; [done|]. constructor; [by etrans| |by apply extends_act]. constructor; [by apply Hev|done| |congruence].
  simpl. rewrite Hd'.
  by destruct (metadata_reconciliation_required s').
Qed.

(** A quiet action. *)
Lemma wp_quiet {X B} (f : World -> X * World) (c : X -> sprog B) post s0 h0 n s h :
  within me s0 h0 n s h ->
  (forall s', quiet s' (snd (f s'))) ->
  (forall s', rely me s s' -> within me s0 h0 n (snd (f s')) (EvAct s' (snd (f s')) :: h) ->
     swp (c (fst (f s'))) post (snd (f s')) (EvAct s' (snd (f s')) :: h)) ->
  swp (bind (act f) c) post s h.
Proof.
  intros Hw Hf Hc. apply (wp_act_quiet me any_answer al (lc_quiet _ _ _ _ C)). intros s' R. split; [done|].
  apply Hc; [done|]. eapply within_quiet; [|by apply adds_quiet_one|done].
  eapply rely_trans; [exact R|by apply quiet_rely].
Qed.

Lemma wp_ask_load {B} (store : N) (id : SessionId) (c : _ -> sprog B) post s0 h0 n s h :
  within me s0 h0 n s h ->
  (forall s' x, rely me s s' -> within me s0 h0 n s' (EvAsk s' (Q_load store id) x :: h) ->
     swp (c x) post s' (EvAsk s' (Q_load store id) x :: h)) ->
  swp (bind (ask (Q_load store id)) c) post s h.
Proof.
  intros Hl Hc s' R x _. pose proof (within_leased _ _ _ _ _ _ (within_rely _ _ _ _ _ _ _ R Hl)) as Hle.
  split; [by apply (lc_load _ _ _ _ C)|]. apply Hc; [done|].
  destruct (within_rely _ _ _ _ _ _ _ R Hl) as [? [? ? ? ?] ?]. by constructor; [|constructor|apply extends_load].
Qed.

(** Settling: the newest store answer is reflected. *)
Lemma wp_settle {B} (c : unit -> sprog B) post s0 h0 n s h :
  within me s0 h0 n s h -> settled_by h s ->
  (forall s' h', within me s0 h0 n s' h' -> evolves s s' -> h `suffix_of` h' -> swp (c tt) post s' h') ->
  swp (bind (set_debt false) c) post s h.
Proof.
  intros Hw Hs Hc s' R. pose proof (within_rely _ _ _ _ _ _ _ R Hw) as [He Hl Hn].
  pose proof (evolves_debt s' false (leased_inv _ _ _ Hl)) as Hd.
  split; [apply (lc_settle _ _ _ _ C); [done|]; eapply settled_evolves; [apply R|done]|].
  apply Hc; [|etrans; [apply R|done]|by apply suffix_cons_r]. constructor; [by etrans| |by apply extends_act].
  destruct Hl as [Hi Hh Hu Hx]. constructor; [by apply inv_debt|done| |done]. simpl.
  destruct (metadata_reconciliation_required s') eqn:E; simpl; [done|]. intros Hun. specialize (Hu Hun). congruence.
Qed.

(** The checks of a fallible step. *)
Lemma wp_check {A X E} (r : result A E) (c : A -> sprog (result X E)) post s0 h0 n s h :
  within me s0 h0 n s h ->
  (forall e s', within me s0 h0 n s' h -> post (Returned (Err e)) s' h) ->
  (forall a, r = Ok a -> swp (c a) post s h) ->
  swp (try (Ret r) c) post s h.
Proof.
  intros Hw He Hc. destruct r as [a|e]; simpl_prog; [by apply Hc|].
  eapply wp_return; [done|auto].
Qed.

(** A sub-program followed by the [?] operator. *)
Lemma wp_try {A X E} (p : sprog (result A E)) (c : A -> sprog (result X E)) post s h :
  wp (rely me) any_answer al p
    (sequel (rely me) any_answer al (fun r => match r with Ok a => c a | Err e => Ret (Err e) end) post) s h ->
  swp (try p c) post s h.
Proof. intros Hp. apply wp_bind; [apply rely_refl|done]. Qed.

Lemma store_result_ok {A} (r : result A SessionStoreError) (a : A) : store_result r = Ok a -> r = Ok a.
Proof. unfold store_result. by destruct r; intros [= ->]. Qed.

Lemma wp_reconcile_uncertain (engine : EngineInner) (store : N) post s0 h0 n s h :
  within me s0 h0 n s h -> drop_ok post ->
  (forall r s' h', within me s0 h0 n s' h' -> post (Returned r) s' h') ->
  swp (reconcile_uncertain_metadata_with_store engine store) post s h.
Proof.
  intros Hw Hdrop Hp. eapply wp_read; [done|]. intros s1 R1 Hw1.
  destruct (metadata_reconciliation_required s1); cbn [negb]; [|by eapply wp_return; [|eauto]].
  eapply wp_read; [done|]. intros s2 R2 Hw2. eapply wp_ask_load; [done|]. intros s3 x R3 Hw3.
  eapply wp_await; [done|done|]. intros s4 R4 Hw4.
  eapply wp_check; [done|by eauto|]. intros loaded Ex'%store_result_ok.
  apply wp_try. set (h4 := EvAsk s3 _ x :: _) in *. destruct loaded as [current|].
  - eapply wp_check; [done|by intros e s' Hw'; eapply wp_return; [|eauto]|]. intros _ _.
    apply (wp_reconcile_loaded me any_answer al (lc_quiet _ _ _ _ C)); [by eauto with machine|].
    intros res s5 h5 R5 Hh5 Hres. pose proof (within_quiet _ _ _ _ _ _ _ _ R5 Hh5 Hw4) as Hw5.
    destruct res as [[]|e]; [|by eapply wp_return; [|eauto]].
    eapply wp_settle; [done| |by intros s6 h6 Hw6 _ _; eapply wp_return; [|eauto]].
    eapply adds_quiet_settled; [exact Hh5|]. simpl. rewrite Ex'. by apply Hres.
  - assert (settled_by h4 s4) as Hs4 by by simpl; rewrite Ex'.
    destruct (_ || _).
    { simpl_prog. intros s5 R5. eapply wp_return; [by eapply within_rely|eauto]. }
    eapply wp_read; [done|]. intros s5 R5 Hw5. intros s6 R6. pose proof (within_rely _ _ _ _ _ _ _ R6 Hw5) as Hw6.
    destruct (_ && _); [|by eapply wp_return; [|eauto]].
    eapply wp_settle; [done| |by intros s7 h7 Hw7 _ _; eapply wp_return; [|eauto]].
    eapply settled_evolves; [etrans; [apply R5|apply R6]|done].
Qed.

(** ** Saves *)
(** Arming the debt. *)
Lemma wp_arm {B} (c : unit -> sprog B) post s0 h0 n s h :
  within me s0 h0 n s h ->
  (forall s1, let s' := set_reconciliation_required s1 true in
     within me s0 h0 n s' (EvAct s1 s' :: h) -> swp (c tt) post s' (EvAct s1 s' :: h)) ->
  swp (bind (set_debt true) c) post s h.
Proof.
  intros Hw Hc s' R. pose proof (within_rely _ _ _ _ _ _ _ R Hw) as [He Hl Hn].
  split; [by apply (lc_arm _ _ _ _ C)|]. apply Hc. pose proof Hl as [Hi Hh Hu Hx].
  constructor; [etrans; [exact He|by apply evolves_debt]| |by apply extends_act].
  by constructor; [apply inv_debt|..].
Qed.

(** Issuing a save; the debt stays armed if it was. *)
Lemma wp_ask_save {B} (store : N) r expected (c : _ -> sprog B) post s0 h0 n s h :
  within me s0 h0 n s h -> (armed = true -> metadata_reconciliation_required s = true) ->
  save_ok h r expected ->
  (forall s' x, rely me s s' -> within me s0 h0 (S n) s' (EvAsk s' (Q_save store r expected) x :: h) ->
     swp (c x) post s' (EvAsk s' (Q_save store r expected) x :: h)) ->
  swp (bind (ask (Q_save store r expected)) c) post s h.
Proof.
  intros Hw Ha Hs Hc s' R x _. pose proof (within_rely _ _ _ _ _ _ _ R Hw) as [He Hl Hn].
  pose proof Hl as [Hi Hh Hu Hx]. split.
  - apply (lc_save _ _ _ _ C); [done| |done]. intros. apply (rely_debt _ _ _ R); [by destruct Hw as [_ [] _]|auto].
  - apply Hc; [done|]. constructor; [done| |by apply extends_save].
    constructor; [done|done| |done]. simpl. intros [?|?]%orb_true_iff; auto.
Qed.

Lemma wp_arc_new {B} (r : SessionRecord) (c : ArcRecord -> sprog B) post s0 h0 n s h :
  within me s0 h0 n s h ->
  (forall s' a h', within me s0 h0 n s' h' -> adds_quiet h h' -> rely me s s' -> arc_val a = r -> valid_arc s' a ->
     swp (c a) post s' h') ->
  swp (bind (arc_new r) c) post s h.
Proof.
  intros Hw Hc. apply (wp_act_quiet me any_answer al (lc_quiet _ _ _ _ C)). intros s' R.
  pose proof (quiet_arc_new s' r) as Hq. split; [done|].
  assert (rely me s (set_heap s' (heap s' ++ [r]))) by (eapply rely_trans; [exact R|by apply quiet_rely]).
  apply Hc; [by eapply within_quiet; [|apply adds_quiet_one|]|by apply adds_quiet_one|done|done|apply arc_new_valid].
Qed.

(** A save made under debt: when it succeeds the store accepted it, the revision has
    increased and the canonical record reflects what was saved. *)
Lemma wp_settle_save (store : N) r expected previous post s0 h0 n s h :
  within me s0 h0 n s h -> drop_ok post ->
  (forall s1, extends h0 (EvAct s1 (set_reconciliation_required s1 true) :: h) n ->
     save_ok (EvAct s1 (set_reconciliation_required s1 true) :: h) r expected) ->
  (forall e s' h' k, k <= S n -> within me s0 h0 k s' h' -> post (Returned (Err e)) s' h') ->
  (forall revision s1 s' h', within me s0 h0 (S n) s' h' -> (previous < revision)%N ->
     save_accepted h' r expected revision (EvAct s1 (set_reconciliation_required s1 true) :: h) ->
     reflects (with_revision r revision) s' -> post (Returned (Ok (with_revision r revision))) s' h') ->
  swp (settle_save store r expected previous) post s h.
Proof.
  intros Hw Hdrop Hs He Hp. eapply wp_arm; [done|]. intros s1 s1' Hw1.
  eapply wp_ask_save; [done|done|apply Hs, Hw1|]. intros s2 x R2 Hw2.
  eapply wp_await; [done|done|]. intros s3 R3 Hw3.
  eapply wp_check; [done|by eauto|]. intros revision Ex%store_result_ok.
  destruct (N.leb_spec revision previous); [by eapply wp_return; [|eauto]|].
  eapply wp_arc_new; [done|]. intros s4 a h4 Hw4 Hh4 R4 Ha Hv. apply wp_try.
  apply (wp_reconcile_saved me any_answer al (lc_quiet _ _ _ _ C)); [by eauto with machine|done|].
  intros res s5 h5 R5 Hh5 Hres. pose proof (within_quiet _ _ _ _ _ _ _ _ R5 Hh5 Hw4) as Hw5.
  destruct res as [[]|e]; [|by eapply wp_return; [|eauto]].
  specialize (Hres eq_refl). rewrite Ha in Hres. eapply wp_settle; [done| |].
  - eapply adds_quiet_settled; [exact Hh5|]. eapply adds_quiet_settled; [exact Hh4|]. simpl. eauto.
  - intros s6 h6 Hw6 He6 Hh6 s7 R7. apply (Hp _ s1); [by eapply within_rely|done| |].
    { exists s2, store, x. split; [|done]. etrans; [|exact Hh6]. etrans; by eapply adds_quiet_suffix. }
    eapply reflects_evolves; [etrans; [exact He6|apply R7]|done].
Qed.
End Leased.

(** ** The lease *)
Section Lease.
Context `{JsonWriter}.
Context {me : nat} {armed : bool} {save_ok : Events -> SessionRecord -> option SessionRevision -> Prop}.
Notation owp := (wp (rely me) any_answer (allowed armed save_ok me)).
Notation inner := (wp (rely me) any_answer (drop_allowed (allowed armed save_ok me) release_lease)).

(** The lease is released with the debt of an unsettled save armed. *)
Lemma release_allowed s h : leased me s h -> allowed armed save_ok me (EvAct s (release_lease s)) h.
Proof.
  intros [Hi Hl Hd Hc]. split_and!; [|auto|simpl; congruence].
  apply held_own; [by apply evolves_same_data|done|by right].
Qed.

Lemma evolves_release s : permission_context s = None -> evolves s (release_lease s).
Proof. intros. by apply evolves_same_data. Qed.

Lemma acquire_own s : inv s -> active_turn s = false ->
  own me s (set_lease s true (Some me)) /\ evolves s (set_lease s true (Some me)).
Proof.
  intros [Ha Hl Hc] E. rewrite E in Hl. assert (evolves s (set_lease s true (Some me))) as He by by apply evolves_same_data.
  split; [|done]. intros other Ho. constructor; [constructor; [done|..]|..]; simpl; destruct (lease_holder s); congruence.
Qed.

(** Entering the lease: [body] runs as its holder; the lease is released unless
    the result takes it. *)
Lemma wp_with_lease {A} (keep : result A EngineError -> bool) (body : sprog (result A EngineError)) post s h :
  inv s -> lease_holder s <> Some me -> unsettled h = false ->
  (forall s' h', evolves s s' -> lease_holder s' <> Some me -> saves h' = saves h ->
     post (Returned (Err SessionBusy)) s' h') ->
  (forall s1 h1, within me s h 0 s1 h1 -> unsettled h1 = false ->
     inner body (guard_post (rely me) (allowed armed save_ok me) release_lease keep post) s1 h1) ->
  owp (with_lease me keep body) post s h.
Proof.
  intros Hi Hl Hu Hbusy Hbody s1 R1. pose proof (inv_rely _ _ _ R1 Hi) as Hi1.
  assert (lease_holder s1 <> Some me) as Hl1 by (intros E; by apply Hl, (rely_lease_back _ _ _ R1)).
  simpl. destruct (active_turn s1) eqn:Ea; simpl.
  - split; [split_and!; [apply quiet_own, quiet_refl|done|congruence]|]. intros s2 R2. apply Hbusy; [|by intros E; apply Hl1, (rely_lease_back _ _ _ R2)|done].
    etrans; [apply R1|apply R2].
  - destruct (acquire_own s1 Hi1 Ea) as [Ho He]. split; [split_and!; [done|done|simpl; congruence]|].
    apply wp_guarded. apply Hbody; [|simpl; by destruct (metadata_reconciliation_required s1)].
    constructor; [etrans; [apply R1|done]| |apply extends_act, extends_refl]. constructor; [by apply He|done| |apply Hi1].
    + simpl. destruct (metadata_reconciliation_required s1); simpl; congruence.
    + destruct Hi1 as [_ E _]. rewrite Ea in E. by destruct (lease_holder s1).
Qed.

(** Leaving it. *)
Lemma leave_lease {A} (keep : result A EngineError -> bool) (r : result A EngineError) post s0 h0 n s h :
  within me s0 h0 n s h -> keep r = false ->
  (forall s' h', evolves s0 s' -> lease_holder s' <> Some me -> saves h' = n + saves h0 -> evolves s s' ->
     h `suffix_of` h' -> post (Returned r) s' h') ->
  guard_post (rely me) (allowed armed save_ok me) release_lease keep post (Returned r) s h.
Proof.
  intros Hw Hk Hp. pose proof Hw as [He Hl Hn]. unfold guard_post. rewrite Hk.
  split; [by apply release_allowed|]. intros s' R'.
  assert (evolves s s') as Hs by (etrans; [eapply evolves_release, leased_context; exact Hl|apply R']).
  apply Hp; [by etrans| |by apply extends_saves in Hn|done|by apply suffix_cons_r]. intros E. by apply (rely_lease_back _ _ _ R') in E.
Qed.

(** Dropping the future inside the lease. *)
Lemma leave_drop {A} (keep : result A EngineError -> bool) (post : outcome (result A EngineError) -> World -> Events -> Prop) :
  (forall s h, lease_holder s = None -> post Dropped s h) ->
  drop_ok (me := me) (guard_post (rely me) (allowed armed save_ok me) release_lease keep post).
Proof. intros Hp s h Hl. by apply Hp. Qed.

Lemma allowed_quiet s s' h : quiet s s' -> allowed armed save_ok me (EvAct s s') h.
Proof. intros Hq. pose proof Hq as [_ El Ed _]. split_and!; [by apply quiet_own|congruence..]. Qed.

(** [ensure_open] before the lease is taken. *)
Lemma wp_ensure_open {A} (has_host : bool) (c : unit -> sprog (result A EngineError)) post s h :
  (forall e s' h', rely me s s' -> saves h' = saves h -> post (Returned (Err e)) s' h') ->
  (forall s' h', rely me s s' -> adds_quiet h h' -> owp (c tt) post s' h') ->
  owp (try (ensure_open has_host) c) post s h.
Proof.
  intros He Hc. apply wp_assoc. apply (wp_get me any_answer _ allowed_quiet). intros s1 R1. simpl_prog.
  destruct (_ && _).
  - intros s2 R2. apply He; [by eapply rely_trans|done].
  - apply Hc; [done|apply adds_quiet_one, quiet_refl].
Qed.
End Lease.

(** An operation that never keeps the lease: entering, failing and dropping. *)
Section Released.
Context `{JsonWriter}.
Context {me : nat} {armed : bool} {save_ok : Events -> SessionRecord -> option SessionRevision -> Prop}.
Context {A : Type} (s0 s1 : World) (post : outcome (result A EngineError) -> World -> Events -> Prop).
Context (bound : nat).
Context (start : evolves s0 s1).
Context (post_fail : forall e s h, lease_holder s <> Some me -> evolves s0 s -> saves h <= bound ->
  post (Returned (Err e)) s h).
Context (post_drop : forall s h, lease_holder s = None -> post Dropped s h).
Notation gpost := (guard_post (rely me) (allowed armed save_ok me) release_lease (fun _ => false) post).

Lemma released_fail e n s h : n <= bound -> within me s1 [] n s h -> gpost (Returned (Err e)) s h.
Proof.
  intros Hn Hw. eapply leave_lease; [done|done|]. intros s' h' He Hl Hs _ _.
  apply post_fail; [done|by etrans|simpl in Hs; lia].
Qed.

Lemma released_drop : drop_ok (me := me) gpost.
Proof. by apply leave_drop. Qed.
End Released.

(** The prefix of every operation that releases the lease when it is done: open
    host, lease, settled debt. *)
Lemma wp_exclusive `{JsonWriter} {me armed save_ok A} engine has_host store
    (body : sprog (result A EngineError)) (post : outcome (result A EngineError) -> World -> Events -> Prop) s0 bound :
  inv s0 -> lease_holder s0 <> Some me ->
  (forall e s h, lease_holder s <> Some me -> evolves s0 s -> saves h <= bound -> post (Returned (Err e)) s h) ->
  (forall s h, lease_holder s = None -> post Dropped s h) ->
  (forall s1 s h, evolves s0 s1 -> within me s1 [] 0 s h ->
     wp (rely me) any_answer (drop_allowed (allowed armed save_ok me) release_lease) body
       (guard_post (rely me) (allowed armed save_ok me) release_lease (fun _ => false) post) s h) ->
  wp (rely me) any_answer (allowed armed save_ok me)
    (do? _ <- ensure_open has_host;
     with_lease me (fun _ => false) (
       do? _ <- reconcile_uncertain_metadata_with_store engine store;
       body)) post s0 [].
Proof.
  intros Hi Hl Hfail Hdrop Hbody. apply wp_ensure_open.
  { intros e s' h' R Hs. apply Hfail; [|apply R|rewrite Hs; simpl; lia].
    intros E. by apply Hl, (rely_lease_back _ _ _ R). }
  intros s1 h1 R1 Hh1. pose proof (adds_quiet_saves _ _ Hh1) as Hs1. apply wp_with_lease.
  { by eapply inv_rely. }
  { intros E. by apply Hl, (rely_lease_back _ _ _ R1). }
  { by rewrite (adds_quiet_unsettled _ _ Hh1). }
  { intros s2 h2 He2 Hl2 Hs2. apply Hfail; [done|etrans; [apply R1|done]|]. rewrite Hs2, Hs1. simpl. lia. }
  intros s2 h2 Hw2 _. apply wp_try.
  eapply within_base in Hw2; [|eapply extends_quiet; [exact Hh1|apply extends_refl]].
  eapply (wp_reconcile_uncertain (allowed_contract armed save_ok me)); [done|by apply leave_drop|].
  intros [[]|e] s3 h3 Hw3; [by eapply Hbody; [apply R1|]|].
  eapply wp_return; [done|]. intros s4 R4 Hw4. eapply released_fail; [apply R1|exact Hfail| |done]. simpl. lia.
Qed.

(** Every execution of a task, and every schedule that polls it to its end. *)
Lemma session_correct me al {A} (p : sprog A) post s o s' h' :
  wp (rely me) any_answer al p post s [] -> exec (rely me) any_answer p s [] o s' h' ->
  all_allowed al h' /\ post o s' h'.
Proof.
  intros Hw He. split; [by eapply wp_exec_allowed; [apply rely_refl|apply rely_trans|..]|].
  by eapply wp_exec; [apply rely_refl|apply rely_trans|..].
Qed.

Lemma session_returns me al {A} (p : sprog A) post s w :
  wp (rely me) any_answer al p post s [] -> (forall s h, ~ post Panicked s h /\ ~ post Blocked s h) ->
  (forall n s, rely me s (sch_env w n s)) -> (forall n, sch_drop w n = false) ->
  exists a, fst (fst (run w 0 p s [])) = Returned a.
Proof.
  intros Hw Hp He Hd. pose proof (run_exec w (rely me) any_answer 0 p s [] He (fun _ _ _ _ => I)) as Hx.
  pose proof (run_not_dropped w 0 p s [] Hd) as Hnd. apply (session_correct _ _ _ _ _ _ _ _ Hw) in Hx as [_ Hx].
  destruct (fst (fst (run w 0 p s []))); [by eauto|done|by apply Hp in Hx..].
Qed.

Lemma sample_exec {A} (p : sprog A) s me :
  exec (rely me) any_answer p s [] (fst (fst (sample_run p s))) (snd (fst (sample_run p s))) (snd (sample_run p s)).
Proof. by apply run_exec; [intros; apply rely_refl|]. Qed.
