(* ===== verification/MetadataProofs.v ===== *)
(** * Metadata edits are correct

    [check_metadata_revision] and [update_metadata] of [Operations]. *)
From S2P Require Import Prelude Ids Json Model Limits Context Prog SessionState Operations Sample Lease.
Open Scope prog_scope.

(** ** Metadata edits *)
(** An edit saves at most once, and only the record that a snapshot and the check
    after it found canonical, of the expected revision, with its metadata replaced
    and nothing else, within the limits; the save expects that revision exactly when
    the record was stored. *)
Definition metadata_save_ok `{JsonWriter} (engine : EngineInner) (s0 : World) (expected_revision : SessionRevision)
    (metadata : Metadata) (h : Events) (r : SessionRecord) (expected : option SessionRevision) : Prop :=
  saves h = 0 /\ validate_record_limits r (limits engine) = Ok tt /\
  exists base persisted, current_at h base persisted /\ expected = then_some persisted expected_revision /\
    r = with_metadata base metadata /\ rec_revision base = expected_revision /\
    rec_id base = rec_id (canonical s0) /\ rec_incarnation_id base = rec_incarnation_id (canonical s0) /\
    (rec_next_turn_sequence (canonical s0) <= rec_next_turn_sequence base)%N.

(** What is left when the future of an edit returns or is dropped: the lease is
    released; in a successful edit the store accepted the record that was current
    with its metadata replaced, and that is the canonical record of its revision,
    unless a later one has replaced it. *)
Definition metadata_post (me : nat) (s0 : World) (expected_revision : SessionRevision) (metadata : Metadata)
    (o : outcome (result SessionRevision EngineError)) (s : World) (h : Events) : Prop :=
  lease_holder s <> Some me /\
  match o with
  | Returned r => evolves s0 s /\ saves h <= 1 /\
      forall revision, r = Ok revision -> (expected_revision < revision)%N /\
        exists base persisted, rec_revision base = expected_revision /\
          replaced h base persisted (with_metadata base metadata) revision /\
          reflects (with_revision (with_metadata base metadata) revision) s
  | Dropped => True
  | Panicked | Blocked => False
  end.

Section Metadata.
Context `{JsonWriter}.
Context (engine : EngineInner) (me : nat) (s0 : World) (expected_revision : SessionRevision) (metadata : Metadata).
Notation save_ok := (metadata_save_ok engine s0 expected_revision metadata).
Notation post := (metadata_post me s0 expected_revision metadata).
Notation gpost := (guard_post (rely me) (allowed true save_ok me) release_lease (fun _ => false) post).
Notation inner := (wp (rely me) any_answer (drop_allowed (allowed true save_ok me) release_lease)).

Lemma metadata_post_fail e s h : lease_holder s <> Some me -> evolves s0 s -> saves h <= 1 ->
  post (Returned (Err e)) s h.
Proof. intros Hl He Hs. split; [done|]. by split_and!. Qed.

Lemma metadata_post_drop s h : lease_holder s = None -> post Dropped s h.
Proof. intros E. split; [congruence|done]. Qed.

(** From the snapshot on. *)
Lemma wp_update_snapshot store s1 s h :
  evolves s0 s1 -> within me s1 [] 0 s h ->
  inner
    (do snap <- snapshot;
     let '(record, persisted) := snap in
     when negb (rec_revision (arc_val record) =? expected_revision)%N return Err metadata_revision_conflict;
     do? _ <- Ret (validate_record_limits (arc_val record) (limits engine));
     let candidate := with_metadata (arc_val record) metadata in
     do? _ <- Ret (validate_record_limits candidate (limits engine));
     do current <- snapshot_is_current record persisted;
     when negb current return Err metadata_revision_conflict;
     do? saved <- settle_save store candidate (then_some persisted expected_revision) expected_revision;
     Ret (Ok (rec_revision saved))) gpost s h.
Proof.
  intros He1 Hw. pose proof (allowed_contract true save_ok me) as C.
  pose proof (released_fail (armed := true) (save_ok := save_ok) s0 s1 post 1 He1 metadata_post_fail) as Hfail.
  assert (forall e s h, within me s1 [] 0 s h -> gpost (Returned (Err e)) s h) as Hfail0 by (intros; eapply Hfail; [|done]; lia).
  pose proof (released_drop (me := me) (armed := true) (save_ok := save_ok) post metadata_post_drop) as Hdrop.
  eapply (wp_read C); [done|]. intros s2 R2 Hw2. fold (canonical s2). set (base := canonical s2).
  destruct (N.eqb_spec (rec_revision base) expected_revision) as [Hrev|_]; cbn [negb]; [|by eapply wp_return; [|eauto]].
  eapply wp_check; [done|by eauto|]. intros _ _. eapply wp_check; [done|by eauto|]. intros [] Hv.
  eapply (wp_read C); [done|]. intros s3 R3 Hw3. destruct (_ && _) eqn:Ecur; cbn [negb]; [|by eapply wp_return; [|eauto]].
  apply (current_checked s2 s3 h) in Ecur; [|by eauto with machine|apply R3]. fold base in Ecur.
  apply wp_try. eapply (wp_settle_save C); [done|done| | |].
  - intros s4 Hn. destruct (within_evolves _ _ _ _ _ _ Hw2) as [_ _ Hid Hinc Hseq _].
    destruct He1 as [_ _ Hid1 Hinc1 Hseq1 _].
    split_and!; [by apply extends_saves in Hn|done|]. exists base, (data_persisted (data s2)).
    split_and!; [by apply current_act|done|done|done|unfold base; congruence..|unfold base; lia].
  - intros e s4 h4 k Hk Hw4. eapply wp_return; [done|]. by eauto.
  - intros revision s3' s4 h4 Hw4 Hlt Hacc Hr. eapply wp_return; [done|]. intros s5 R5 Hw5.
    eapply leave_lease; [done|done|]. intros s6 h6 He6 Hl6 Hn6 He56 Hh6.
    assert (evolves s4 s6) as Hr6%(fun E => reflects_evolves _ _ _ E Hr) by (etrans; [apply R5|done]).
    split; [done|]. split_and!; [by etrans|simpl in *; lia|]. intros ? [= <-].
    split; [done|]. exists base, (data_persisted (data s2)). split_and!; [done| |done].
    eapply replaced_later; [exact Hh6|]. eexists. rewrite Hrev. split; [exact Hacc|by apply current_act].
Qed.

Lemma wp_update_metadata has_host access :
  inv s0 -> lease_holder s0 <> Some me ->
  wp (rely me) any_answer (allowed true save_ok me)
    (update_metadata engine has_host me expected_revision metadata access) post s0 [].
Proof.
  intros Hi Hl. eapply wp_exclusive; [done|done|apply metadata_post_fail|apply metadata_post_drop|].
  intros s1 s h He Hw. by eapply wp_update_snapshot.
Qed.
End Metadata.

(** ** Revision checks *)
(** A check never saves, releases the lease, and succeeds only with the expected
    revision, which the canonical revision has reached. *)
Definition check_post (me : nat) (s0 : World) (expected_revision : SessionRevision)
    (o : outcome (result SessionRevision EngineError)) (s : World) (h : Events) : Prop :=
  lease_holder s <> Some me /\
  match o with
  | Returned r => evolves s0 s /\ saves h <= 0 /\
      forall revision, r = Ok revision ->
        revision = expected_revision /\ (revision <= rec_revision (canonical s))%N
  | Dropped => True
  | Panicked | Blocked => False
  end.

Lemma wp_check_metadata_revision `{JsonWriter} engine has_host me expected_revision access s0 :
  inv s0 -> lease_holder s0 <> Some me ->
  wp (rely me) any_answer (allowed true (fun _ _ _ => False) me)
    (check_metadata_revision engine has_host me expected_revision access) (check_post me s0 expected_revision) s0 [].
Proof.
  intros Hi Hl. pose proof (allowed_contract true (fun _ _ _ => False) me) as C.
  assert (forall e s h, lease_holder s <> Some me -> evolves s0 s -> saves h <= 0 ->
    check_post me s0 expected_revision (Returned (Err e)) s h) as Hpost by (intros; split; [done|]; by split_and!).
  eapply wp_exclusive; [done|done|exact Hpost|by intros ? ? E; split; [congruence|]|].
  intros s1 s h He1 Hw.
  pose proof (fun e => released_fail (armed := true) (save_ok := fun _ _ _ => False) s0 s1
    (check_post me s0 expected_revision) 0 He1 Hpost e 0) as Hfail.
  apply wp_assoc. eapply (wp_read C); [done|]. intros s2 R2 Hw2. eapply wp_check; [done|by eauto|]. intros _ _.
  eapply (wp_read C); [done|]. intros s3 R3 Hw3.
  destruct (N.eqb_spec (rec_revision (arc_val (data_record (data s3)))) expected_revision) as [Hrev|_]; cbn [negb];
    [|by eapply wp_return; [|eauto]].
  eapply wp_check; [done|by eauto|]. intros _ _. eapply (wp_read C); [done|]. intros s4 R4 Hw4.
  destruct (_ && _); cbn [negb]; [|by eapply wp_return; [|eauto]].
  eapply wp_return; [done|]. intros s5 R5 Hw5. eapply leave_lease; [done|done|]. intros s6 h6 He6 Hl6 Hn6 He56 _.
  split; [done|]. split_and!; [by etrans|simpl in *; lia|]. intros ? [= <-]. split; [done|].
  apply (evolves_revision s3). etrans; [apply R4|]. by etrans; [apply R5|].
Qed.

(** A revision check, under every interleaving, store answer and drop: it saves
    nothing, always releases the lease, never panics, and succeeds only with the
    revision it was asked for, which the canonical record then had. *)
Theorem check_metadata_revision_correct `{JsonWriter} engine has_host me expected_revision access s o s' h' :
  inv s -> lease_holder s <> Some me ->
  exec (rely me) any_answer (check_metadata_revision engine has_host me expected_revision access) s [] o s' h' ->
  all_allowed (allowed true (fun _ _ _ => False) me) h' /\ check_post me s expected_revision o s' h'.
Proof. intros Hi Hl. apply session_correct. by apply wp_check_metadata_revision. Qed.

Definition sample_check : sprog (result SessionRevision EngineError) :=
  check_metadata_revision sample_engine true 0 4%N None.

Lemma check_metadata_revision_correct_witness :
  fst (fst (sample_run sample_check sample_world)) = Returned (Ok 4%N) /\
  check_post 0 sample_world 4%N (Returned (Ok 4%N))
    (snd (fst (sample_run sample_check sample_world))) (snd (sample_run sample_check sample_world)).
Proof.
  split; [by vm_compute|]. change (Returned (Ok 4%N)) with (fst (fst (sample_run sample_check sample_world))).
  apply (check_metadata_revision_correct sample_engine true 0 4%N None); [by constructor|done|apply sample_exec].
Defined.

(** ** Edits *)
(** C26. A metadata edit, under every interleaving with other tasks, every store
    answer, and a drop at any pending point. It saves at most once, only while it
    holds the lease and under an armed publication debt, and only the record that its
    snapshot and the currency check after it both found canonical, at the expected
    revision, with its metadata replaced and every other field, the transcript
    included, as it was; the debt is disarmed only
    when the canonical record reflects a store answer; the lease is always
    released, with the debt of an unsettled save still armed. When it succeeds
    the store accepted that very record, the revision increased, and the saved
    record is canonical or overtaken. *)
Theorem update_metadata_correct `{JsonWriter} engine has_host me expected_revision metadata access s o s' h' :
  inv s -> lease_holder s <> Some me ->
  exec (rely me) any_answer (update_metadata engine has_host me expected_revision metadata access) s [] o s' h' ->
  all_allowed (allowed true (metadata_save_ok engine s expected_revision metadata) me) h' /\
  metadata_post me s expected_revision metadata o s' h'.
Proof. intros Hi Hl. apply session_correct. by apply wp_update_metadata. Qed.

Definition sample_edit : sprog (result SessionRevision EngineError) :=
  update_metadata sample_engine true 0 4%N [("title", VString "hello")] None.

Lemma update_metadata_correct_witness :
  fst (fst (sample_run sample_edit sample_world)) = Returned (Ok 5%N) /\
  metadata_post 0 sample_world 4%N [("title", VString "hello")] (Returned (Ok 5%N))
    (snd (fst (sample_run sample_edit sample_world))) (snd (sample_run sample_edit sample_world)).
Proof.
  split; [by vm_compute|]. change (Returned (Ok 5%N)) with (fst (fst (sample_run sample_edit sample_world))).
  apply (update_metadata_correct sample_engine true 0 4%N [("title", VString "hello")] None);
    [by constructor|done|apply sample_exec].
Defined.

(** A metadata edit that is polled to its end returns, whatever the store answers
    once its futures complete: the reconciliation is bounded and nothing panics. *)
Theorem update_metadata_returns `{JsonWriter} engine has_host me expected_revision metadata access s
    (w : schedule World Query Ans) :
  inv s -> lease_holder s <> Some me -> (forall n s, rely me s (sch_env w n s)) -> (forall n, sch_drop w n = false) ->
  exists r, fst (fst (run w 0 (update_metadata engine has_host me expected_revision metadata access) s [])) = Returned r.
Proof.
  intros Hi Hl He Hd. eapply session_returns; [by apply wp_update_metadata| |done|done]. by split; intros [_ ?].
Qed.

Lemma update_metadata_returns_witness :
  exists r, fst (fst (sample_run sample_edit sample_world)) = Returned r.
Proof.
  apply (update_metadata_returns sample_engine true 0 4%N [("title", VString "hello")] None);
    [by constructor|done|intros; apply rely_refl|done].
Defined.
