(* ===== verification/ReserveProofs.v ===== *)
(** * Turn reservations are correct

    [reserve_turn_and_prompt], [reserve_prepared_turn] and [start_turn] of
    [Operations]. *)
From S2P Require Import Prelude Ids Json Model Limits Context Prog SessionState Operations Sample Lease.
Open Scope prog_scope.

(** A record of the session of [s]. *)
Record same_session (s : World) (r : SessionRecord) : Prop := {
  same_id : rec_id r = rec_id (canonical s);
  same_incarnation : rec_incarnation_id r = rec_incarnation_id (canonical s);
  same_sequence : (rec_next_turn_sequence (canonical s) <= rec_next_turn_sequence r)%N;
}.

Lemma same_session_evolves s s' : evolves s s' -> same_session s (canonical s').
Proof. by intros [_ _ ? ? ? _]. Qed.

Lemma same_session_trans s s' r : evolves s s' -> same_session s' r -> same_session s r.
Proof. intros [_ _ ? ? ? _] []. constructor; [congruence|congruence|lia]. Qed.

(** The record a preparation makes of the canonical one. *)
Definition prepared_base (preparation : option SessionTurnPreparation) (base : SessionRecord) : SessionRecord :=
  match preparation with
  | Some p => with_metadata base (default (rec_metadata base) (prep_metadata p))
  | None => base
  end.

(** The record that reserves the next turn of [base]. *)
Definition reserving (prompt : option string) (preparation : option SessionTurnPreparation)
    (base : SessionRecord) : SessionRecord :=
  push_prompt prompt (with_next_turn_sequence (prepared_base preparation base) (rec_next_turn_sequence base + 1)).

Lemma push_prompt_fields prompt r :
  rec_id (push_prompt prompt r) = rec_id r /\ rec_incarnation_id (push_prompt prompt r) = rec_incarnation_id r /\
  rec_revision (push_prompt prompt r) = rec_revision r /\
  rec_messages (push_prompt prompt r) = rec_messages r ++
    match prompt with Some text => [Message_text Role_User text] | None => [] end.
Proof. destruct prompt; simpl; rewrite ?app_nil_r; done. Qed.

Lemma reserving_revision prompt preparation base : rec_revision (reserving prompt preparation base) = rec_revision base.
Proof.
  unfold reserving. destruct (push_prompt_fields prompt (with_next_turn_sequence (prepared_base preparation base)
    (rec_next_turn_sequence base + 1))) as (_ & _ & -> & _). by destruct preparation.
Qed.

Lemma next_turn_ok record turn_id reserved :
  next_turn record = Ok (turn_id, reserved) ->
  turn_id = turn_id_text (rec_next_turn_sequence record) /\
  reserved = with_next_turn_sequence record (rec_next_turn_sequence record + 1).
Proof.
  unfold next_turn. intros H. simpl_result.
  destruct (checked_add _ _) as [n|] eqn:En; [|done]. apply checked_add_Some in En as [-> _].
  simplify_eq. by apply identifier_new_ok in E1 as [-> _].
Qed.

(** What a reservation may save: the next turn of the record of this session that
    its snapshot and the check after it found canonical, once with a preparation and
    at most once per attempt without. *)
Definition reserve_save_ok `{JsonWriter} (engine : EngineInner) (s0 : World) (prompt : option string)
    (preparation : option SessionTurnPreparation) (h : Events) (r : SessionRecord)
    (expected : option SessionRevision) : Prop :=
  validate_record_limits r (limits engine) = Ok tt /\
  exists base persisted, current_at h base persisted /\ same_session s0 base /\
    r = reserving prompt preparation base /\ expected = then_some persisted (rec_revision base) /\
    match preparation with
    | Some p => saves h = 0 /\ rec_revision base = prep_expected_revision p
    | None => saves h < MAX_CONFLICT_RETRIES
    end.

(** A reserved turn: the canonical record of some revision was extended by
    exactly this turn and prompt, at a higher revision, and that record is
    canonical or overtaken. *)
Record reserved_turn (s0 : World) (prompt : option string) (preparation : option SessionTurnPreparation)
    (turn_id : TurnId) (r : SessionRecord) (base : SessionRecord) (s : World) : Prop := {
  rt_session : same_session s0 base;
  rt_turn_id : turn_id = turn_id_text (rec_next_turn_sequence base);
  rt_record : r = with_revision (reserving prompt preparation base) (rec_revision r);
  rt_revision : (rec_revision base < rec_revision r)%N;
  rt_reflects : reflects r s;
}.

Lemma reserved_turn_evolves s0 prompt preparation turn_id r base s s' :
  evolves s s' -> reserved_turn s0 prompt preparation turn_id r base s ->
  reserved_turn s0 prompt preparation turn_id r base s'.
Proof. intros He []. constructor; try done. by eapply reflects_evolves. Qed.

Lemma mark_missing_quiet record persisted s :
  quiet s (if (arc_ptr (data_record (data s)) =? arc_ptr record)%nat && eqb (data_persisted (data s)) persisted
           then set_data s {| data_record := data_record (data s); data_persisted := false |} else s).
Proof. destruct (_ && _); [apply quiet_persisted|apply quiet_refl]. Qed.

(** The context of a prepared turn was validated against the history it cuts, and
    with the appended prompt against the limits; a projection of a valid history
    never panics. *)
Definition started_context `{JsonWriter} (engine : EngineInner) (preparation : option SessionTurnPreparation)
    (base r : SessionRecord) (context : option ValidatedSessionContext) : Prop :=
  match preparation with
  | None => context = None
  | Some p => exists cut, take_context p (rec_messages base) = Ok cut /\
      prepared_context p cut (rec_messages r) (limits engine) = Some (Ok context)
  end.

Lemma take_context_wf p messages cut c : take_context p messages = Ok cut -> cut = Some c -> context_wf c messages.
Proof.
  unfold take_context. intros Ht ->. destruct (match prep_context p with Some _ => _ | None => _ end); [|done].
  simpl_result. by eapply projection_validate_wf.
Qed.

Lemma prepared_context_total `{JsonWriter} p messages more cut limits :
  take_context p messages = Ok cut -> is_Some (prepared_context p cut (messages ++ more) limits).
Proof.
  intros Ht. unfold prepared_context.
  assert (forall c, context_wf c (messages ++ more) -> is_Some (context_validate_limits c (messages ++ more) limits)) as Hv.
  { intros c Hc. unfold context_validate_limits. rewrite view_wf by done. simpl. eauto. }
  destruct (prep_user_context p) as [u|].
  - destruct cut as [c|]; simpl; [|eauto]. destruct (with_user_context c u (messages ++ more)) as [c'|] eqn:Eu; simpl; [|eauto].
    apply with_user_context_wf in Eu; [|by eapply context_wf_app, take_context_wf].
    destruct (Hv c' Eu) as [x ->]. simpl. eauto.
  - destruct cut as [c|]; simpl; [|eauto].
    destruct (Hv c) as [x ->]; [by eapply context_wf_app, take_context_wf|]. simpl. eauto.
Qed.

Section Reserve.
Context `{JsonWriter}.
Context (engine : EngineInner) (me : nat) (prompt : option string) (s0 : World).
Context {al : event World Query Ans -> Events -> Prop}.
Notation swp := (wp (rely me) any_answer al).

(** ** Without a preparation *)
Section Plain.
Context (C : lease_contract me false (reserve_save_ok engine s0 prompt None) al).
Context (post : outcome (result (TurnId * SessionRecord) EngineError) -> World -> Events -> Prop).
Context (post_drop : drop_ok (me := me) post).
Context (post_fail : forall e s h k, k <= MAX_CONFLICT_RETRIES -> within me s0 [] k s h -> post (Returned (Err e)) s h).
Context (post_ok : forall turn_id r base persisted s h k, k <= MAX_CONFLICT_RETRIES -> within me s0 [] k s h ->
  replaced h base persisted (reserving prompt None base) (rec_revision r) ->
  reserved_turn s0 prompt None turn_id r base s -> post (Returned (Ok (turn_id, r))) s h).

(** Installing the record the store accepted. *)
Lemma wp_install_reserved turn_id base persisted candidate revision n k s h :
  k <= n <= MAX_CONFLICT_RETRIES -> within me s0 [] k s h -> same_session s0 base ->
  replaced h base persisted candidate revision ->
  turn_id = turn_id_text (rec_next_turn_sequence base) -> candidate = reserving prompt None base ->
  swp (when negb (rec_revision candidate <? revision)%N return Err non_increasing_revision;
       do arc <- arc_new (with_revision candidate revision);
       do? _ <- reconcile_saved arc;
       Ret (Ok (turn_id, arc_val arc))) post s h.
Proof.
  intros Hk Hw Hs Hrep Ht Hc. destruct (N.ltb_spec (rec_revision candidate) revision) as [Hlt|_]; cbn [negb].
  2:{ eapply wp_return; [done|]. intros s' _ Hw'. eapply post_fail; [|done]. lia. }
  eapply (wp_arc_new C); [done|]. intros s1 a h1 Hw1 Hh1 R1 Ha Hv. apply wp_try.
  apply (wp_reconcile_saved me any_answer al (lc_quiet _ _ _ _ C)); [by eauto with machine|done|].
  intros res s2 h2 R2 Hh2 Hres. pose proof (within_quiet _ _ _ _ _ _ _ _ R2 Hh2 Hw1) as Hw2.
  destruct res as [[]|e].
  2:{ eapply wp_return; [done|]. intros s' _ Hw'. eapply post_fail; [|done]. lia. }
  eapply wp_return; [done|]. intros s3 R3 Hw3. specialize (Hres eq_refl). rewrite Ha in Hres |- *.
  eapply (post_ok _ _ _ persisted); [|done| |]; [lia| |].
  { rewrite <-Hc. eapply replaced_later; [|exact Hrep]. etrans; by eapply adds_quiet_suffix. }
  constructor; [done|done|by rewrite Hc| |].
  - simpl. by rewrite Hc, reserving_revision in Hlt.
  - eapply reflects_evolves; [apply R3|done].
Qed.

(** What follows a conflict: the record the store has is reconciled, and the
    reservation is tried again. *)
Lemma wp_reserve_conflict n k snapshot persisted candidate s h :
  k + n <= MAX_CONFLICT_RETRIES -> within me s0 [] k s h ->
  (forall s h, within me s0 [] k s h -> swp (reserve_turn_loop engine n prompt) post s h) ->
  swp (do f <- ask (Q_load (session_store engine) (rec_id candidate));
       do loaded <- await f;
       do? loaded <- Ret (store_result loaded);
       match loaded with
       | None =>
           when negb (bool_decide (rec_id (arc_val snapshot) = rec_id candidate))
             return Err (Engine_Protocol "session identity changed during turn reservation");
           do _ <- mark_missing_if_current snapshot persisted;
           reserve_turn_loop engine n prompt
       | Some current =>
           when negb (bool_decide (rec_id current = rec_id candidate))
             return Err (Engine_Protocol ("session store returned ID " +:+ rec_id current
                                          +:+ " for requested ID " +:+ rec_id candidate));
           when negb (bool_decide (rec_incarnation_id current = rec_incarnation_id (arc_val snapshot)))
             return Err SessionIncarnationConflict;
           do? _ <- Ret (validate_record_limits current (limits engine));
           do? _ <- reconcile_loaded current;
           reserve_turn_loop engine n prompt
       end) post s h.
Proof.
  intros Hk Hw IH. assert (forall e s h, within me s0 [] k s h -> post (Returned (Err e)) s h) as Hfail.
  { intros. eapply post_fail; [|done]. lia. }
  eapply (wp_ask_load C); [done|]. intros s1 x R1 Hw1. eapply (wp_await C); [done|done|]. intros s2 R2 Hw2.
  eapply wp_check; [done|by eauto|]. intros loaded _. destruct loaded as [current|].
  - destruct (bool_decide _); cbn [negb]; [|by eapply wp_return; [|eauto]].
    destruct (bool_decide _); cbn [negb]; [|by eapply wp_return; [|eauto]].
    eapply wp_check; [done|by eauto|]. intros _ _. apply wp_try.
    apply (wp_reconcile_loaded me any_answer al (lc_quiet _ _ _ _ C)); [by eauto with machine|].
    intros res s3 h3 R3 Hh3 _. pose proof (within_quiet _ _ _ _ _ _ _ _ R3 Hh3 Hw2) as Hw3.
    destruct res; [by apply IH|by eapply wp_return; [|eauto]].
  - destruct (bool_decide _); cbn [negb]; [|by eapply wp_return; [|eauto]].
    eapply (wp_quiet C); [done|intros; apply mark_missing_quiet|]. intros s3 R3 Hw3. by apply IH.
Qed.

Lemma wp_reserve_turn_loop n : forall k s h,
  k + n <= MAX_CONFLICT_RETRIES -> within me s0 [] k s h -> swp (reserve_turn_loop engine n prompt) post s h.
Proof.
  induction n as [|n IH]; intros k s h Hk Hw; cbn [reserve_turn_loop].
  { eapply wp_return; [done|]. intros s' _ Hw'. eapply post_fail; [|done]. lia. }
  assert (forall e s h, within me s0 [] k s h -> post (Returned (Err e)) s h) as Hfail.
  { intros. eapply post_fail; [|done]. lia. }
  eapply (wp_read C); [done|]. intros s1 R1 Hw1. fold (canonical s1).
  pose proof (same_session_evolves _ _ (within_evolves _ _ _ _ _ _ Hw1)) as Hsame.
  eapply wp_check; [done|by eauto|]. intros _ _. destruct (_ && _); [by eapply wp_return; [|eauto]|].
  eapply wp_check; [done|by eauto|]. intros [turn_id reserved] [Ht Hr]%next_turn_ok.
  assert (push_prompt prompt reserved = reserving prompt None (canonical s1)) as Hc by by rewrite Hr.
  eapply wp_check; [done|by eauto|]. intros [] Hv. eapply (wp_read C); [done|]. intros s2 R2 Hw2.
  destruct (_ && _) eqn:Ecur; cbn [negb]; [|eapply IH; [|done]; lia].
  apply (current_checked s1 s2 h) in Ecur; [|by eauto with machine|apply R2].
  eapply (wp_ask_save C); [done|done| |].
  { split; [done|]. exists (canonical s1), (data_persisted (data s1)). split_and!; [done|done|done|done|].
    rewrite (extends_saves _ _ _ (within_extends _ _ _ _ _ _ Hw2)). simpl. lia. }
  intros s3 [polls saved] R3 Hw3. eapply (wp_await C); [done|done|]. intros s4 R4 Hw4. cbn [snd].
  destruct saved as [revision|error].
  - apply (wp_install_reserved turn_id (canonical s1) (data_persisted (data s1)) _ _ (S k) (S k)); [lia|done|done| |done|done].
    eexists. split; [|exact Ecur]. by eexists s3, _, (polls, Ok revision).
  - destruct (is_conflict error).
    + eapply (wp_reserve_conflict _ (S k) (data_record (data s1))); [lia|done|]. intros s5 h5 Hw5. eapply IH; [|done]. lia.
    + eapply wp_return; [done|]. intros s5 _ Hw5. eapply post_fail; [|done]. lia.
Qed.
End Plain.

(** ** With a preparation *)
Section Prepared.
Context (preparation : SessionTurnPreparation).
Context (C : lease_contract me true (reserve_save_ok engine s0 prompt (Some preparation)) al).
Context (post : outcome (result (TurnId * SessionRecord * option ValidatedSessionContext) EngineError) ->
  World -> Events -> Prop).
Context (post_drop : drop_ok (me := me) post).
Context (post_fail : forall e s h k, k <= 1 -> within me s0 [] k s h -> post (Returned (Err e)) s h).
Context (post_ok : forall turn_id r context base persisted s h k, k <= 1 -> within me s0 [] k s h ->
  replaced h base persisted (reserving prompt (Some preparation) base) (rec_revision r) ->
  reserved_turn s0 prompt (Some preparation) turn_id r base s ->
  started_context engine (Some preparation) base r context -> post (Returned (Ok (turn_id, r, context))) s h).

Lemma wp_reserve_prepared_turn s h :
  within me s0 [] 0 s h -> swp (reserve_prepared_turn engine prompt preparation) post s h.
Proof.
  intros Hw. assert (forall e s h, within me s0 [] 0 s h -> post (Returned (Err e)) s h) as Hfail.
  { intros. eapply post_fail; [|done]. lia. }
  eapply (wp_read C); [done|]. intros s1 R1 Hw1. cbv zeta. fold (canonical s1).
  pose proof (same_session_evolves _ _ (within_evolves _ _ _ _ _ _ Hw1)) as Hsame.
  destruct (N.eqb_spec (rec_revision (canonical s1)) (prep_expected_revision preparation)) as [Hrev|_]; cbn [negb];
    [|by eapply wp_return; [|eauto]].
  eapply wp_check; [done|by eauto|]. intros _ _. destruct (_ && _); [by eapply wp_return; [|eauto]|].
  eapply wp_check; [done|by eauto|]. intros cut Hcut. eapply wp_check; [done|by eauto|]. intros _ _.
  eapply wp_check; [done|by eauto|]. intros [turn_id reserved] [Ht Hr]%next_turn_ok.
  assert (push_prompt prompt reserved = reserving prompt (Some preparation) (canonical s1)) as Hc by by rewrite Hr.
  eapply wp_check; [done|by eauto|]. intros [] Hv.
  destruct (push_prompt_fields prompt reserved) as (_ & _ & _ & Hm). rewrite Hr in Hm at 2. simpl in Hm.
  rewrite Hm. set (more := match prompt with Some _ => _ | None => _ end) in *.
  destruct (prepared_context_total preparation _ more cut (limits engine) Hcut) as [context Ex]. rewrite Ex.
  eapply wp_check; [done|by eauto|]. intros ctx Hctx. eapply (wp_read C); [done|]. intros s2 R2 Hw2.
  destruct (_ && _) eqn:Ecur; cbn [negb]; [|by eapply wp_return; [|eauto]]. rewrite Hc in Hv, Hm |- *.
  apply (current_checked s1 s2 h) in Ecur; [|by eauto with machine|apply R2].
  apply wp_try. eapply (wp_settle_save C); [done|done| | |].
  - intros s3 Hn. split; [done|]. exists (canonical s1), (data_persisted (data s1)).
    split_and!; [by apply current_act|done|done|done| |done]. by apply extends_saves in Hn.
  - intros e s3 h3 k Hk Hw3. eapply wp_return; [done|]. intros. by eapply post_fail.
  - intros revision s2' s3 h3 Hw3 Hlt Hacc Hrefl. eapply wp_return; [done|]. intros s4 R4 Hw4.
    eapply (post_ok _ _ _ _ (data_persisted (data s1))); [|done| | |]; [lia| | |].
    + eexists. split; [exact Hacc|by apply current_act].
    + constructor; [done|done|done|done|]. eapply reflects_evolves; [apply R4|done].
    + exists cut. split; [done|]. simpl. by rewrite Hm, Ex, Hctx.
Qed.
End Prepared.
End Reserve.

(** ** Starting a turn *)
(** Where [start_turn] leaves the session: the turn owns the lease, its gate is
    unused, and no permission scope is open. *)
Record turn_start (me : nat) (record : SessionRecord) (context : option ValidatedSessionContext) (s : World) : Prop := {
  start_inv : inv s;
  start_holder : lease_holder s = Some me;
  start_idle : idle s;
  start_deferrals : em_cancellation_deferrals (emission s) = 0%N;
  start_context : permission_context s = None;
  start_projection : forall c, context = Some c -> context_wf c (rec_messages record);
}.

Lemma prepared_context_wf `{JsonWriter} p messages more cut limits c :
  take_context p messages = Ok cut -> prepared_context p cut (messages ++ more) limits = Some (Ok (Some c)) ->
  context_wf c (messages ++ more).
Proof.
  intros Ht. unfold prepared_context.
  assert (forall c, cut = Some c -> context_wf c (messages ++ more)) as Hc
    by (intros; eapply context_wf_app, take_context_wf; done).
  destruct (prep_user_context p) as [u|].
  - destruct cut as [c0|]; simpl; [|done]. destruct (with_user_context _ _ _) as [c1|] eqn:Eu; simpl; [|done].
    intros E. destruct (context_validate_limits _ _ _) as [[[]|]|]; try done. injection E as <-.
    eapply with_user_context_wf; [exact Eu|by apply Hc].
  - destruct cut as [c0|]; simpl; [|done]. intros E. destruct (context_validate_limits _ _ _) as [[[]|]|]; try done.
    injection E as <-. by apply Hc.
Qed.

Lemma started_projection `{JsonWriter} engine s0 prompt preparation turn_id r base s context :
  reserved_turn s0 prompt preparation turn_id r base s -> started_context engine preparation base r context ->
  forall c, context = Some c -> context_wf c (rec_messages r).
Proof.
  intros [_ _ Hr _ _] Hs c ->. destruct preparation as [p|]; [|done]. destruct Hs as (cut & Ht & Hp).
  assert (exists more, rec_messages r = rec_messages base ++ more) as [more E].
  { rewrite Hr. unfold reserving. destruct (push_prompt_fields prompt (with_next_turn_sequence
      (prepared_base (Some p) base) (rec_next_turn_sequence base + 1))) as (_ & _ & _ & E). by eexists. }
  rewrite E in *. by eapply prepared_context_wf.
Qed.

(** A started turn owns the lease and a fresh token, and the store accepted its
    reservation in place of the record that was current; every other end of the
    future has released the lease. *)
Definition start_post `{JsonWriter} (engine : EngineInner) (me : nat) (s0 : World) (prompt : option string)
    (preparation : option SessionTurnPreparation) (o : outcome (result StartedTurn EngineError))
    (s : World) (h : Events) : Prop :=
  match o with
  | Returned (Ok t) =>
      turn_start me (st_record t) (st_context t) s /\ evolves s0 s /\ saves h <= MAX_CONFLICT_RETRIES /\
      exists base persisted, reserved_turn s0 prompt preparation (st_turn_id t) (st_record t) base s /\
        replaced h base persisted (reserving prompt preparation base) (rec_revision (st_record t)) /\
        started_context engine preparation base (st_record t) (st_context t)
  | Returned (Err _) => lease_holder s <> Some me /\ evolves s0 s /\ saves h <= MAX_CONFLICT_RETRIES
  | Dropped => lease_holder s <> Some me
  | Panicked | Blocked => False
  end.

Definition is_prepared (preparation : option SessionTurnPreparation) : bool :=
  match preparation with Some _ => true | None => false end.

Section Start.
Context `{JsonWriter}.
Context (engine : EngineInner) (has_host : bool) (me : nat) (prompt : option string)
  (options : InferenceOptions) (preparation : option SessionTurnPreparation) (s0 : World).
Notation save_ok s1 := (reserve_save_ok engine s1 prompt preparation).
Notation armed := (is_prepared preparation).
Notation post := (start_post engine me s0 prompt preparation).
Notation gpost := (guard_post (rely me) (allowed armed (save_ok s0) me) release_lease is_ok post).
Notation inner := (wp (rely me) any_answer (drop_allowed (allowed armed (save_ok s0) me) release_lease)).

Lemma started_fail e n s h : n <= MAX_CONFLICT_RETRIES -> within me s0 [] n s h -> gpost (Returned (Err e)) s h.
Proof.
  intros Hn Hw. eapply leave_lease; [done|done|]. intros s' h' He Hl Hs _ _. simpl in Hs. by split_and!; [..|lia].
Qed.

Lemma started_drop : drop_ok (me := me) gpost.
Proof. apply leave_drop. intros s h E. simpl. congruence. Qed.

(** The token and the emission gate of the turn, and the result. *)
Lemma wp_started turn_id r context base persisted n s h :
  replaced h base persisted (reserving prompt preparation base) (rec_revision r) -> n <= MAX_CONFLICT_RETRIES -> within me s0 [] n s h -> reserved_turn s0 prompt preparation turn_id r base s ->
  started_context engine preparation base r context ->
  inner (do _ <- modify fresh_turn;
         Ret (Ok {| st_turn_id := turn_id; st_record := r; st_options := options; st_context := context |})) gpost s h.
Proof.
  intros Hrep Hn Hw Hr Hc. pose proof (allowed_contract armed (save_ok s0) me) as C.
  eapply (wp_modify_held C); [done| |].
  { intros s' Hi Hl. split_and!; [|done..]. apply evolves_same_data; [done..|apply Hi|apply Hi]. }
  intros s1 R1 Hw1. eapply wp_return; [done|]. intros s2 R2 Hw2. pose proof Hw2 as [He2 [Hi2 Hl2 _ Hc2] Hs2%extends_saves].
  simpl in Hs2 |- *. split_and!; [|done|lia|].
  { assert (lease_holder (fresh_turn s1) = Some me) as Hl1 by apply Hw1.
    constructor; try done; [by eapply idle_rely|by rewrite (dl_deferrals _ _ (rely_emission _ _ _ R2 Hl1))|].
    by eapply started_projection. }
  exists base, persisted. split_and!; [|by eapply replaced_later; [apply suffix_cons_r|]|done].
  eapply reserved_turn_evolves; [|done].
  etrans; [apply R1|]. etrans; [|apply R2]. apply within_inv, (inv_rely _ _ _ R1) in Hw as [_ ? ?].
  by apply evolves_same_data.
Qed.

Lemma wp_reserved s h :
  within me s0 [] 0 s h ->
  inner (do? reserved <-
           match preparation with
           | Some preparation => reserve_prepared_turn engine prompt preparation
           | None =>
               do? reserved <- reserve_turn_and_prompt engine prompt;
               Ret (Ok (reserved, None))
           end;
         let '(turn_id, record, context) := reserved in
         do _ <- modify fresh_turn;
         Ret (Ok {| st_turn_id := turn_id; st_record := record; st_options := options; st_context := context |})) gpost s h.
Proof.
  intros Hw. pose proof (allowed_contract armed (save_ok s0) me) as C. pose proof wp_started as Hstarted.
  pose proof started_fail as Hfail. pose proof started_drop as Hdrop. apply wp_try.
  destruct preparation as [p|].
  - eapply (wp_reserve_prepared_turn _ _ _ _ p C); [done| | |done].
    + intros e s1 h1 k Hk Hw1. eapply wp_return; [done|]. intros s2 _ Hw2. eapply Hfail; [|done].
      unfold MAX_CONFLICT_RETRIES. lia.
    + intros turn_id r context base persisted s1 h1 k Hk Hw1 Hrep Hr Hc. eapply Hstarted; [exact Hrep| |done..]. unfold MAX_CONFLICT_RETRIES. lia.
  - apply wp_try. eapply (wp_reserve_turn_loop _ _ _ _ C) with (k := 0); [done| | |done|done].
    + intros e s1 h1 k Hk Hw1. eapply wp_return; [done|]. intros s2 _ Hw2.
      eapply wp_return; [done|]. intros s3 _ Hw3. by eapply Hfail.
    + intros turn_id r base persisted s1 h1 k Hk Hw1 Hrep Hr. eapply wp_return; [done|]. intros s2 R2 Hw2.
      eapply Hstarted; [exact Hrep|exact Hk|done| |done]. eapply reserved_turn_evolves; [apply R2|done].
Qed.

Lemma wp_start_turn :
  inv s0 -> lease_holder s0 <> Some me ->
  wp (rely me) any_answer (allowed armed (save_ok s0) me)
    (start_turn engine has_host me prompt options preparation) post s0 [].
Proof.
  intros Hi Hl. apply wp_ensure_open.
  { intros e s' h' R Hs. split_and!; [|apply R|rewrite Hs; simpl; lia].
    intros E. by apply Hl, (rely_lease_back _ _ _ R). }
  intros s1 h1 R1 Hh1. pose proof (adds_quiet_saves _ _ Hh1) as Hs1. simpl in Hs1.
  assert (lease_holder s1 <> Some me) as Hl1 by (intros E; by apply Hl, (rely_lease_back _ _ _ R1)).
  assert (forall e s' h', evolves s1 s' -> lease_holder s' <> Some me -> saves h' = 0 -> post (Returned (Err e)) s' h') as Hfail.
  { intros e s' h' He Hl' Hs. split_and!; [done|etrans; [apply R1|done]|rewrite Hs; lia]. }
  assert (forall e, wp (rely me) any_answer (allowed armed (save_ok s0) me) (Ret (Err e)) post s1 h1) as Hret.
  { intros e s2 R2. apply Hfail; [apply R2| |done]. intros E. by apply Hl1, (rely_lease_back _ _ _ R2). }
  destruct (match prompt with Some _ => _ | None => _ end); [done|]. destruct (map_err _ _); simpl_prog; [|done].
  apply wp_with_lease; [by eapply inv_rely|done|by rewrite (adds_quiet_unsettled _ _ Hh1)| |].
  { intros s2 h2 He2 Hl2 Hs2. apply Hfail; [done|done|congruence]. }
  intros s2 h2 Hw2 _. apply wp_try.
  eapply within_base in Hw2; [|eapply extends_quiet; [exact Hh1|apply extends_refl]].
  apply (within_start _ s0) in Hw2; [|apply R1].
  eapply (wp_reconcile_uncertain (allowed_contract armed (save_ok s0) me)); [done|apply started_drop|].
  intros [[]|e] s3 h3 Hw3; [by apply wp_reserved|].
  eapply wp_return; [done|]. intros s4 R4 Hw4. eapply started_fail; [|done]. lia.
Qed.
End Start.

(** C28. Starting a turn, under every interleaving, store answer and drop. The future
    saves only as the holder of the lease, only the next turn of the record of this
    session that its snapshot and the check after it found canonical, with the prompt appended and within the limits, at most once per
    attempt and, with a preparation, once and under an armed debt. A started turn
    owns the lease, its gate is unused and its projection fits its record, its identifier is the reserved sequence number, and its record
    is canonical at a higher revision or overtaken; every failure and every drop
    has released the lease, and nothing panics. *)
Theorem start_turn_correct `{JsonWriter} engine has_host me prompt options preparation s o s' h' :
  inv s -> lease_holder s <> Some me ->
  exec (rely me) any_answer (start_turn engine has_host me prompt options preparation) s [] o s' h' ->
  all_allowed (allowed (is_prepared preparation) (reserve_save_ok engine s prompt preparation) me) h' /\
  start_post engine me s prompt preparation o s' h'.
Proof. intros Hi Hl. apply session_correct. by apply wp_start_turn. Qed.

Definition sample_options : InferenceOptions :=
  {| opt_model := None; opt_max_output_tokens := None; opt_temperature := None; opt_metadata := [] |}.

(** A revision-pinned preparation with supplemental user context. *)
Definition sample_preparation : SessionTurnPreparation :=
  {| prep_expected_revision := 4%N; prep_metadata := Some [("mode", VString "plan")]; prep_context := None;
     prep_user_context := Some {| user_message_index := 1; user_context_text := "notes" |} |}.

Definition sample_start : sprog (result StartedTurn EngineError) :=
  start_turn sample_engine true 0 (Some "again") sample_options (Some sample_preparation).

Definition started_outcome : outcome (result StartedTurn EngineError) := fst (fst (sample_run sample_start sample_world)).

Lemma start_turn_correct_witness :
  match started_outcome with
  | Returned (Ok t) => st_turn_id t = "turn-1" /\ rec_revision (st_record t) = 5%N
  | _ => False
  end /\
  start_post sample_engine 0 sample_world (Some "again") (Some sample_preparation) started_outcome
    (snd (fst (sample_run sample_start sample_world))) (snd (sample_run sample_start sample_world)).
Proof.
  split; [by vm_compute|].
  apply (start_turn_correct sample_engine true 0 (Some "again") sample_options (Some sample_preparation));
    [by constructor|done|apply sample_exec].
Defined.
