(* ===== verification/CommitProofs.v ===== *)
(** * Transcript commits are correct

    [commit_messages] and [replace_message] of [Operations], which a running turn
    calls while it owns the lease. *)
From S2P Require Import Prelude Ids Json Model Limits Context Prog SessionState Operations Sample Lease.
From S2P Require Import ReserveProofs.
Open Scope prog_scope.

(** A task whose lease is owned by a value outside the program. *)
Lemma allowed_inside armed save_ok me : lease_contract me armed save_ok (allowed armed save_ok me).
Proof.
  destruct (allowed_contract armed save_ok me) as [? _ ? ? ? ? ?]. constructor; try assumption.
  intros s h [Hi Hl Hd]. split_and!; [apply quiet_own, quiet_refl|done|congruence].
Qed.

(** ** Awaiting host work *)
Section Awaits.
Context {me : nat} {armed : bool} {save_ok : Events -> SessionRecord -> option SessionRevision -> Prop}.
Context {al : event World Query Ans -> Events -> Prop}.
Context (C : lease_contract me armed save_ok al).
Notation swp := (wp (rely me) any_answer al).

Lemma wp_check_cancelled {B} (c : unit -> sprog (result B WorkflowAbort)) post s0 h0 n s h :
  within me s0 h0 n s h ->
  (forall s', within me s0 h0 n s' (EvAct s' s' :: h) -> swp (Ret (Err AbortCancelled)) post s' (EvAct s' s' :: h)) ->
  (forall s', rely me s s' -> within me s0 h0 n s' (EvAct s' s' :: h) -> swp (c tt) post s' (EvAct s' s' :: h)) ->
  swp (try check_cancelled c) post s h.
Proof.
  intros Hw He Hc. apply wp_assoc. eapply (wp_read C); [done|]. intros s' R Hw'. simpl_prog.
  destruct (turn_cancelled s'); [by apply He|by apply Hc].
Qed.

Lemma wp_await_cancellable {X B} (f : Fut X) (c : result X WorkflowAbort -> sprog B) post s0 h0 n s h :
  within me s0 h0 n s h -> drop_ok (me := me) post ->
  (forall s' h', within me s0 h0 n s' h' -> adds_quiet h h' -> swp (c (Err AbortCancelled)) post s' h') ->
  (forall s' h', within me s0 h0 n s' h' -> adds_quiet h h' -> swp (c (Ok (snd f))) post s' h') ->
  swp (bind (await_cancellable f) c) post s h.
Proof.
  destruct f as [k x]. unfold await_cancellable. cbn [fst snd]. revert s h.
  induction k as [|k IH]; intros s h Hw Hdrop He Hc; cbn [await_cancellable_polls]; apply wp_assoc;
    (eapply (wp_read C); [done|]); intros s1 R1 Hw1;
    (destruct (turn_cancelled s1); [by apply He; [|apply adds_quiet_one, quiet_refl]|]); apply wp_assoc;
    (eapply (wp_read C); [done|]); intros s2 R2 Hw2;
    assert (adds_quiet h (EvAct s2 s2 :: EvAct s1 s1 :: h)) as Hh
      by (eapply adds_quiet_cons, adds_quiet_one; apply quiet_refl);
    (destruct (turn_cancelled s2); [by apply He|]).
  - by apply Hc.
  - intros s3 R3. pose proof (within_rely _ _ _ _ _ _ _ R3 Hw2) as Hw3.
    split; [split; [apply (lc_drop _ _ _ _ C), Hw3|apply Hdrop, Hw3]|].
    apply IH; [done|done| |]; intros s' h' Hw' Hh'; [apply He|apply Hc]; try done; by eapply adds_quiet_trans.
Qed.

Lemma wp_await_operation {X B} (f : Fut X) honor (c : result X WorkflowAbort -> sprog B) post s0 h0 n s h :
  within me s0 h0 n s h -> drop_ok (me := me) post ->
  (forall s' h', within me s0 h0 n s' h' -> adds_quiet h h' -> swp (c (Err AbortCancelled)) post s' h') ->
  (forall s' h', within me s0 h0 n s' h' -> adds_quiet h h' -> swp (c (Ok (snd f))) post s' h') ->
  swp (bind (await_operation f honor) c) post s h.
Proof.
  intros Hw Hdrop He Hc. destruct honor; [by eapply wp_await_cancellable|]. unfold await_operation. apply wp_assoc.
  eapply (wp_await C); [done|done|]. intros s' R' Hw'. by apply Hc; [|apply adds_quiet_refl].
Qed.

Lemma wp_await_record_load {B} f honor (c : _ -> sprog B) post s0 h0 n s h :
  within me s0 h0 n s h -> drop_ok (me := me) post ->
  (forall s' h', within me s0 h0 n s' h' -> adds_quiet h h' -> swp (c (Err AbortCancelled)) post s' h') ->
  (forall s' h', within me s0 h0 n s' h' -> adds_quiet h h' -> swp (c (Ok (snd f))) post s' h') ->
  swp (bind (await_record_load f honor) c) post s h.
Proof.
  replace (await_record_load f honor) with (await_operation f honor) by (by destruct honor). apply wp_await_operation.
Qed.

(** The final save of a turn: nothing is saved once the turn is cancelled. *)
Lemma wp_await_final_polls {B} first_poll k x (c : _ -> sprog B) post s0 h0 n s h :
  within me s0 h0 n s h -> drop_ok (me := me) post ->
  (forall s' h', within me s0 h0 n s' h' -> adds_quiet h h' -> swp (c (Err AbortCancelled)) post s' h') ->
  (forall s' h', within me s0 h0 n s' h' -> adds_quiet h h' -> swp (c (Ok x)) post s' h') ->
  swp (bind (await_final_polls first_poll k x) c) post s h.
Proof.
  revert first_poll s h. induction k as [|k IH]; intros first_poll s h Hw Hdrop He Hc; cbn [await_final_polls];
    apply wp_assoc.
  - assert (forall s1 h1, within me s0 h0 n s1 h1 -> adds_quiet h h1 ->
      swp (bind (match x with
                 | Ok revision => Ret (Ok (Ok revision))
                 | Err error => do c <- is_cancelled; Ret (if c then Err AbortCancelled else Ok (Err error))
                 end) c) post s1 h1) as Hready.
    { intros s1 h1 Hw1 Hh1. destruct x as [revision|error]; [by apply Hc|]. apply wp_assoc.
      eapply (wp_read C); [done|]. intros s2 R2 Hw2. simpl_prog.
      assert (adds_quiet h (EvAct s2 s2 :: h1)) by (eapply adds_quiet_trans; [done|apply adds_quiet_one, quiet_refl]).
      destruct (turn_cancelled s2); [by apply He|by apply Hc]. }
    destruct first_poll; [by apply Hready; [|apply adds_quiet_refl]|].
    eapply (wp_read C); [done|]. intros s1 R1 Hw1.
    destruct (turn_cancelled s1); [apply He|apply Hready]; try done; by apply adds_quiet_one, quiet_refl.
  - assert (forall s1 h1, within me s0 h0 n s1 h1 -> adds_quiet h h1 ->
      swp (bind (do c <- is_cancelled;
                 if c then Ret (Err AbortCancelled) else Yield id (await_final_polls false k x)) c) post s1 h1) as Hwait.
    { intros s1 h1 Hw1 Hh1. apply wp_assoc. eapply (wp_read C); [done|]. intros s2 R2 Hw2.
      assert (adds_quiet h (EvAct s2 s2 :: h1)) as Hh2 by (eapply adds_quiet_trans; [done|apply adds_quiet_one, quiet_refl]).
      destruct (turn_cancelled s2); [by apply He|]. intros s3 R3. pose proof (within_rely _ _ _ _ _ _ _ R3 Hw2) as Hw3.
      split; [split; [apply (lc_drop _ _ _ _ C), Hw3|apply Hdrop, Hw3]|].
      apply IH; [done|done| |]; intros s' h' Hw' Hh'; [apply He|apply Hc]; try done; by eapply adds_quiet_trans. }
    destruct first_poll; [by apply Hwait; [|apply adds_quiet_refl]|].
    eapply (wp_read C); [done|]. intros s1 R1 Hw1.
    destruct (turn_cancelled s1); [apply He|apply Hwait]; try done; by apply adds_quiet_one, quiet_refl.
Qed.
End Awaits.

(** ** One attempt *)
(** What a commit may save: the record of this session that its snapshot and the
    check after it found canonical, whose transcript is the base transcript, with
    that transcript changed by [edit] and nothing else. *)
Definition commit_save_ok `{JsonWriter} (engine : EngineInner) (s0 : World) (h0 : Events) (base : SessionRecord)
    (edit : list Message -> list Message) (h : Events) (r : SessionRecord) (expected : option SessionRevision) : Prop :=
  validate_record r (limits engine) = Ok tt /\ (exists n, n < MAX_CONFLICT_RETRIES /\ extends h0 h n) /\
  exists current persisted, current_at h current persisted /\ same_session s0 current /\
    rec_messages current = rec_messages base /\ r = with_messages current (edit (rec_messages base)) /\
    expected = then_some persisted (rec_revision current).

(** The store accepted a record at a revision. *)
Definition accepted (h : Events) (r : SessionRecord) (revision : SessionRevision) : Prop :=
  exists s store expected polls, EvAsk s (Q_save store r expected) (polls, Ok revision) ∈ h.

Lemma replaced_accepted h base persisted r revision : replaced h base persisted r revision -> accepted h r revision.
Proof.
  intros (h1 & (s & store & [polls x] & [l ->] & E) & _). simpl in E. subst x.
  eexists s, store, _, polls. apply elem_of_app. right. left.
Qed.

(** A committed record. *)
Record committed (s0 : World) (base : SessionRecord) (edit : list Message -> list Message) (r current : SessionRecord)
    (s : World) (h : Events) : Prop := {
  cm_session : same_session s0 current;
  cm_base : rec_messages current = rec_messages base;
  cm_record : r = with_revision (with_messages current (edit (rec_messages base))) (rec_revision r);
  cm_revision : (rec_revision current < rec_revision r)%N;
  cm_reflects : reflects r s;
  cm_replaced : exists persisted,
    replaced h current persisted (with_messages current (edit (rec_messages base))) (rec_revision r);
}.

Lemma check_base_ok base record phase :
  check_base base record phase = Ok tt ->
  rec_id record = rec_id base /\ rec_incarnation_id record = rec_incarnation_id base.
Proof. unfold check_base. intros. simpl_result. by bool_to_prop. Qed.

Section Commit.
Context `{JsonWriter}.
Context (engine : EngineInner) (me : nat) (s0 : World) (h0 : Events) (base : SessionRecord) (edit : list Message -> list Message).
Context {al : event World Query Ans -> Events -> Prop}.
Context (C : lease_contract me false (commit_save_ok engine s0 h0 base edit) al).
Context (post : outcome (result SessionRecord WorkflowAbort) -> World -> Events -> Prop).
Context (post_drop : drop_ok (me := me) post).
Context (post_fail : forall e s h k, k <= MAX_CONFLICT_RETRIES -> within me s0 h0 k s h -> post (Returned (Err e)) s h).
Context (post_ok : forall r current s h k, k <= MAX_CONFLICT_RETRIES -> within me s0 h0 k s h ->
  committed s0 base edit r current s h -> post (Returned (Ok r)) s h).
Notation swp := (wp (rely me) any_answer al).

Lemma wp_fail e k s h : k <= MAX_CONFLICT_RETRIES -> within me s0 h0 k s h -> swp (Ret (Err e)) post s h.
Proof. intros Hk Hw. eapply wp_return; [done|]. intros s' _ Hw'. by eapply post_fail. Qed.

Lemma wp_checked {A} (r : result A WorkflowAbort) (c : A -> sprog (result SessionRecord WorkflowAbort)) k s h :
  k <= MAX_CONFLICT_RETRIES -> within me s0 h0 k s h -> (forall a, r = Ok a -> swp (c a) post s h) ->
  swp (try (Ret r) c) post s h.
Proof. intros Hk Hw. eapply wp_check; [done|]. intros. by eapply post_fail. Qed.

Lemma wp_honor_cancelled (honor : bool) (c : unit -> sprog (result SessionRecord WorkflowAbort)) k s h :
  k <= MAX_CONFLICT_RETRIES -> within me s0 h0 k s h ->
  (forall s' h', within me s0 h0 k s' h' -> swp (c tt) post s' h') ->
  swp (try (if honor then check_cancelled else Ret (Ok tt)) c) post s h.
Proof.
  intros Hk Hw Hc. destruct honor; [|by apply Hc].
  eapply (wp_check_cancelled C); [done|by intros; eapply wp_fail|]. intros. by apply Hc.
Qed.

(** Issuing the save of an attempt. *)
Lemma wp_save_cancellable r expected honor (c : _ -> sprog (result SessionRecord WorkflowAbort)) k s h :
  k < MAX_CONFLICT_RETRIES -> within me s0 h0 k s h -> commit_save_ok engine s0 h0 base edit h r expected ->
  (forall x s' h', within me s0 h0 (S k) s' h' ->
     (forall revision, x = Ok revision -> save_accepted h' r expected revision h) ->
     swp (c x) post s' h') ->
  swp (do f <- ask (Q_save (session_store engine) r expected); try (await_operation f honor) c) post s h.
Proof.
  intros Hk Hw Hs Hc. eapply (wp_ask_save C); [done|done|done|]. intros s1 [polls x] R1 Hw1.
  eapply (wp_await_operation C); [done|done| |]; intros s2 h2 Hw2 Hh2; [by eapply wp_fail|]. apply Hc; [done|].
  intros revision E. eapply save_accepted_later; [by apply adds_quiet_suffix|]. by eexists s1, _, (polls, x).
Qed.

Lemma wp_save_mode mode r expected (c : _ -> sprog (result SessionRecord WorkflowAbort)) k s h :
  k < MAX_CONFLICT_RETRIES -> within me s0 h0 k s h ->
  (forall h', keeps h h' -> extends h0 h' k -> commit_save_ok engine s0 h0 base edit h' r expected) ->
  (forall x s' h', within me s0 h0 (S k) s' h' ->
     (forall revision, x = Ok revision -> exists h1, keeps h h1 /\ save_accepted h' r expected revision h1) ->
     swp (c x) post s' h') ->
  swp (try (match mode with
            | CommitCancellable =>
                do f <- ask (Q_save (session_store engine) r expected);
                await_cancellable f
            | FinalSaveSuccessWins => await_final_save (session_store engine) r expected
            end) c) post s h.
Proof.
  intros Hk Hw Hs Hc. destruct mode.
  - apply wp_assoc. apply (wp_save_cancellable r expected true c k); [done|done|apply Hs; [apply keeps_refl|apply Hw]|].
    intros x s1 h1 Hw1 Hacc. apply Hc; [done|]. intros revision E. exists h. split; [apply keeps_refl|by apply Hacc].
  - apply wp_assoc. apply wp_assoc. eapply (wp_read C); [done|]. intros s1 R1 Hw1. simpl_prog.
    destruct (turn_cancelled s1); [eapply wp_fail; [|done]; lia|]. apply wp_assoc.
    eapply (wp_ask_save C); [done|done|by apply Hs; [apply keeps_act|apply Hw1]|]. intros s2 [polls x] R2 Hw2.
    eapply (wp_await_final_polls C); [done|done| |]; intros s3 h3 Hw3 Hh3; [by eapply wp_fail|]. apply Hc; [done|].
      intros revision E. exists (EvAct s1 s1 :: h). split; [by apply keeps_act|].
    eapply save_accepted_later; [by apply adds_quiet_suffix|]. by eexists s2, _, (polls, x).
Qed.

(** Installing what the store accepted. *)
Lemma wp_install_commit current persisted revision k s h :
  k <= MAX_CONFLICT_RETRIES -> within me s0 h0 k s h -> same_session s0 current ->
  rec_messages current = rec_messages base ->
  replaced h current persisted (with_messages current (edit (rec_messages base))) revision ->
  swp (install_commit (with_messages current (edit (rec_messages base))) revision) post s h.
Proof.
  intros Hk Hw Hs Hb Hacc. unfold install_commit.
  destruct (N.ltb_spec (rec_revision (with_messages current (edit (rec_messages base)))) revision) as [Hlt|_]; cbn [negb];
    [|by eapply wp_fail].
  eapply (wp_arc_new C); [done|]. intros s1 a h1 Hw1 Hh1 R1 Ha Hv. apply wp_bind; [apply rely_refl|].
  apply (wp_reconcile_saved me any_answer al (lc_quiet _ _ _ _ C)); [by eauto with machine|done|].
  intros res s2 h2 R2 Hh2 Hres. pose proof (within_quiet _ _ _ _ _ _ _ _ R2 Hh2 Hw1) as Hw2.
  destruct res as [[]|e]; simpl map_err; [|by eapply wp_fail]. specialize (Hres eq_refl). rewrite Ha in Hres.
  eapply wp_return; [done|]. intros s3 R3 Hw3. rewrite Ha. eapply post_ok; [done|done|].
  constructor; [done|done|done|done|eapply reflects_evolves; [apply R3|done]|].
  exists persisted. eapply replaced_later; [|exact Hacc]. etrans; by eapply adds_quiet_suffix.
Qed.

(** Reconciling the record a conflict loaded. *)
Lemma wp_commit_conflict identity_message phase missing honor (next : sprog (result SessionRecord WorkflowAbort)) k s h :
  k <= MAX_CONFLICT_RETRIES -> within me s0 h0 k s h ->
  (forall s' h', within me s0 h0 k s' h' -> swp next post s' h') ->
  swp (do f <- ask (Q_load (session_store engine) (rec_id base));
       do? loaded <- await_record_load f honor;
       do? loaded <- Ret (map_err (fun e => AbortFailed (TurnFailure_store e)) loaded);
       match loaded with
       | None => Ret (Err missing)
       | Some current =>
           do? _ <- Ret (check_conflict_record engine base current (identity_message current) phase);
           do? _ <- reconcile_conflict current;
           next
       end) post s h.
Proof.
  intros Hk Hw Hn. eapply (wp_ask_load C); [done|]. intros s1 x R1 Hw1.
  eapply (wp_await_record_load C); [done|done| |]; intros s2 h2 Hw2 _; [by eapply wp_fail|].
  eapply wp_checked; [done|done|]. intros loaded _. destruct loaded as [current|]; [|by eapply wp_fail].
  eapply wp_checked; [done|done|]. intros _ _. apply wp_assoc. apply wp_bind; [apply rely_refl|].
  apply (wp_reconcile_loaded me any_answer al (lc_quiet _ _ _ _ C)); [by eauto with machine|].
  intros res s3 h3 R3 Hh3 _. pose proof (within_quiet _ _ _ _ _ _ _ _ R3 Hh3 Hw2) as Hw3.
  destruct res; [by apply Hn|by eapply wp_fail].
Qed.

(** A snapshot that passed the checks of an attempt. *)
Lemma commit_snapshot_ok current persisted k h (r : SessionRecord) expected :
  current_at h current persisted -> k < MAX_CONFLICT_RETRIES -> same_session s0 current -> rec_messages current = rec_messages base ->
  validate_record r (limits engine) = Ok tt -> r = with_messages current (edit (rec_messages base)) ->
  expected = then_some persisted (rec_revision current) -> extends h0 h k ->
  commit_save_ok engine s0 h0 base edit h r expected.
Proof. intros Hcur Hk Hs Hb Hv Hr He Hn. split_and!; [done|by exists k|]. by exists current, persisted. Qed.

End Commit.

Section Loops.
Context `{JsonWriter}.
Context (engine : EngineInner) (me : nat) (s0 : World) (h0 : Events) (base : SessionRecord).
Context {al : event World Query Ans -> Events -> Prop}.
Context (post : outcome (result SessionRecord WorkflowAbort) -> World -> Events -> Prop).
Context (post_drop : drop_ok (me := me) post).
Context (post_fail : forall e s h k, k <= MAX_CONFLICT_RETRIES -> within me s0 h0 k s h -> post (Returned (Err e)) s h).
Notation swp := (wp (rely me) any_answer al).

Lemma wp_commit_messages_loop messages mode
    (C : lease_contract me false (commit_save_ok engine s0 h0 base (fun t => t ++ messages)) al)
    (post_ok : forall r current s h k, k <= MAX_CONFLICT_RETRIES -> within me s0 h0 k s h ->
       committed s0 base (fun t => t ++ messages) r current s h -> post (Returned (Ok r)) s h) n : forall k s h,
  k + n <= MAX_CONFLICT_RETRIES -> within me s0 h0 k s h ->
  swp (commit_messages_loop engine n base messages mode) post s h.
Proof.
  induction n as [|n IH]; intros k s h Hk Hw; cbn [commit_messages_loop]; [eapply wp_fail; [done| |done]; lia|].
  assert (k <= MAX_CONFLICT_RETRIES) as Hk0 by lia.
  eapply (wp_check_cancelled C); [done|by intros; eapply wp_fail|]. intros s1 R1 Hw1.
  eapply (wp_read C); [done|]. intros s2 R2 Hw2. cbv zeta. fold (canonical s2).
  pose proof (same_session_evolves _ _ (within_evolves _ _ _ _ _ _ Hw2)) as Hsame.
  eapply wp_checked; [done|done|done|]. intros _ _.
  destruct (bool_decide_reflect (rec_messages (canonical s2) = rec_messages base)) as [Hb|_]; cbn [negb];
    [|by eapply wp_fail].
  eapply wp_checked; [done|done|done|]. intros _ _. eapply wp_checked; [done|done|done|]. intros [] Hv%map_err_ok.
  eapply (wp_read C); [done|]. intros s3 R3 Hw3. rewrite Hb in Hv |- *.
  destruct (_ && _) eqn:Ecur; cbn [negb]; [|eapply IH; [|done]; lia].
  apply (current_checked s2 s3) with (h := EvAct s1 s1 :: h) in Ecur; [|by eauto with machine|apply R3].
  eapply wp_save_mode; [done|done|done|by instantiate (1 := k); lia|done| |].
  { intros h' Hkeep Hn. eapply (commit_snapshot_ok _ _ _ _ _ (canonical s2) _ k); try done; [by eapply current_keeps|lia]. }
  intros x s4 h4 Hw4 Hacc. destruct x as [revision|error].
  - apply (wp_install_commit engine me s0 h0 base (fun t => t ++ messages) C) with (k := S k) (current := canonical s2)
      (persisted := data_persisted (data s2)); try done; [lia|].
    destruct (Hacc revision eq_refl) as (h5 & Hkeep & Ha). exists h5. split; [exact Ha|by eapply current_keeps].
  - destruct (is_conflict error); [|eapply wp_fail; [done| |done]; lia].
    eapply (wp_commit_conflict engine me s0 h0 base (fun t => t ++ messages) C) with (k := S k)
      (identity_message := fun current =>
         "session store returned ID " +:+ rec_id current +:+ " for requested ID " +:+ rec_id base); try done; [lia|].
    intros s5 h5 Hw5. eapply IH; [|done]. lia.
Qed.

Lemma wp_replace_message_loop index replacement honor
    (edit := fun t : list Message => <[N.to_nat index := replacement]> t)
    (C : lease_contract me false (commit_save_ok engine s0 h0 base edit) al)
    (post_ok : forall r current s h k, k <= MAX_CONFLICT_RETRIES -> within me s0 h0 k s h ->
       (index < vec_len (rec_messages base))%N ->
       committed s0 base edit r current s h -> post (Returned (Ok r)) s h) n : forall k s h,
  k + n <= MAX_CONFLICT_RETRIES -> within me s0 h0 k s h ->
  swp (replace_message_loop engine n base index replacement honor) post s h.
Proof.
  induction n as [|n IH]; intros k s h Hk Hw; cbn [replace_message_loop]; [eapply wp_fail; [done| |done]; lia|].
  assert (k <= MAX_CONFLICT_RETRIES) as Hk0 by lia.
  eapply (wp_honor_cancelled _ _ _ _ _ _ C); [done|done|done|]. intros s1 h1 Hw1.
  eapply (wp_read C); [done|]. intros s2 R2 Hw2. cbv zeta. fold (canonical s2).
  pose proof (same_session_evolves _ _ (within_evolves _ _ _ _ _ _ Hw2)) as Hsame.
  eapply wp_checked; [done|done|done|]. intros _ _.
  destruct (bool_decide_reflect (rec_messages (canonical s2) = rec_messages base)) as [Hb|_]; cbn [negb];
    [|by eapply wp_fail].
  eapply wp_checked; [done|done|done|]. intros _ _. rewrite Hb.
  destruct (N.ltb_spec index (vec_len (rec_messages base))) as [Hi|_]; cbn [negb]; [|by eapply wp_fail].
  eapply wp_checked; [done|done|done|]. intros [] Hv%map_err_ok. eapply (wp_read C); [done|]. intros s3 R3 Hw3.
  destruct (_ && _) eqn:Ecur; cbn [negb]; [|eapply IH; [|done]; lia].
  apply (current_checked s2 s3 h1) in Ecur; [|by eauto with machine|apply R3].
  eapply (wp_save_cancellable _ _ _ _ _ edit C); [done|done|by instantiate (1 := k); lia|done| |].
  { eapply (commit_snapshot_ok _ _ _ _ _ (canonical s2) _ k); try done; [lia|apply Hw3]. }
  intros x s4 h4 Hw4 Hacc. destruct x as [revision|error].
  - apply (wp_install_commit engine me s0 h0 base edit C) with (k := S k) (current := canonical s2)
      (persisted := data_persisted (data s2)); try done; [by eauto|lia|].
    eexists. split; [by apply Hacc|exact Ecur].
  - destruct (is_conflict error); [|eapply wp_fail; [done| |done]; lia].
    eapply (wp_commit_conflict engine me s0 h0 base edit C) with (k := S k)
      (identity_message := fun _ => "session store returned a different session during result replacement"); try done; [lia|].
    intros s5 h5 Hw5. eapply IH; [|done]. lia.
Qed.
End Loops.

(** ** Results *)
(** The end of a commit: the turn still owns the lease, and a committed record is
    the session's record with only the transcript edited. *)
Definition commit_post (me : nat) (s0 : World) (base : SessionRecord) (edit : list Message -> list Message)
    (o : outcome (result SessionRecord WorkflowAbort)) (s : World) (h : Events) : Prop :=
  lease_holder s = Some me /\
  match o with
  | Returned r => evolves s0 s /\ saves h <= MAX_CONFLICT_RETRIES /\
      forall record, r = Ok record -> exists current, committed s0 base edit record current s h
  | Dropped => True
  | Panicked | Blocked => False
  end.

Lemma commit_post_fail me s0 base edit e s h k :
  k <= MAX_CONFLICT_RETRIES -> within me s0 [] k s h -> commit_post me s0 base edit (Returned (Err e)) s h.
Proof. intros Hk [He [_ Hl _ _] Hn%extends_saves]. split; [done|]. split_and!; [done|simpl in Hn; lia|done]. Qed.

Lemma commit_post_ok me s0 base edit r current s h k :
  k <= MAX_CONFLICT_RETRIES -> within me s0 [] k s h -> committed s0 base edit r current s h ->
  commit_post me s0 base edit (Returned (Ok r)) s h.
Proof. intros Hk [He [_ Hl _ _] Hn%extends_saves] Hc. split; [done|]. split_and!; [done|simpl in Hn; lia|]. intros ? [= <-]. by exists current. Qed.

Lemma commit_post_drop me s0 base edit : drop_ok (me := me) (commit_post me s0 base edit).
Proof. intros s h [_ Hl _ _]. by split. Qed.

Lemma within_lease me s :
  inv s -> lease_holder s = Some me -> permission_context s = None -> within me s [] 0 s [].
Proof. intros Hi Hl Hc. by constructor; [|constructor|apply extends_refl]. Qed.

(** A commit of a running turn that shows no call for authorization, under every interleaving, store answer, cancellation
    and drop: it saves at most once per attempt, only as the holder of the lease,
    and only the record its snapshot and the check after it found canonical, with
    exactly the new messages appended to the transcript the turn knows; a committed record has that transcript, a
    higher revision, and is canonical or overtaken. *)
Theorem commit_messages_correct `{JsonWriter} engine me base messages mode s o s' h' :
  inv s -> lease_holder s = Some me -> permission_context s = None ->
  exec (rely me) any_answer (commit_messages engine base messages mode) s [] o s' h' ->
  all_allowed (allowed false (commit_save_ok engine s [] base (fun t => t ++ messages)) me) h' /\
  commit_post me s base (fun t => t ++ messages) o s' h'.
Proof.
  intros Hi Hl Hp. apply session_correct.
  apply wp_commit_messages_loop with (s0 := s) (h0 := []) (k := 0);
    [apply commit_post_drop|intros; by eapply commit_post_fail|apply allowed_inside| |done|by apply within_lease].
  intros. by eapply commit_post_ok.
Qed.

Definition held_world : World := set_lease sample_world true (Some 0).
Notation sample_commit :=
  (commit_messages sample_engine sample_record [Message_text Role_Assistant "hi"] FinalSaveSuccessWins).

Lemma commit_messages_correct_witness :
  fst (fst (sample_run sample_commit held_world)) =
    Returned (Ok (with_revision (with_messages sample_record
      [Message_text Role_User "hello"; Message_text Role_Assistant "hi"]) 5%N)) /\
  commit_post 0 held_world sample_record (fun t => t ++ [Message_text Role_Assistant "hi"])
    (fst (fst (sample_run sample_commit held_world))) (snd (fst (sample_run sample_commit held_world)))
    (snd (sample_run sample_commit held_world)).
Proof.
  split; [by vm_compute|].
  refine (proj2 (commit_messages_correct sample_engine 0 sample_record [Message_text Role_Assistant "hi"]
    FinalSaveSuccessWins held_world _ _ _ _ _ _ (sample_exec sample_commit held_world 0))); [by constructor|done|done].
Defined.

(** Replacing a placeholder: the same guarantees, and only the message at the
    index changes, which must exist. *)
Theorem replace_message_correct `{JsonWriter} engine me base index replacement honor s o s' h' :
  inv s -> lease_holder s = Some me -> permission_context s = None ->
  exec (rely me) any_answer (replace_message engine base index replacement honor) s [] o s' h' ->
  all_allowed (allowed false (commit_save_ok engine s [] base (fun t => <[N.to_nat index := replacement]> t)) me) h' /\
  commit_post me s base (fun t => <[N.to_nat index := replacement]> t) o s' h' /\
  forall r, o = Returned (Ok r) ->
    rec_messages r !! N.to_nat index = Some replacement /\ length (rec_messages r) = length (rec_messages base).
Proof.
  intros Hi Hl Hp He.
  eapply (session_correct me _ _ (fun o s' h => commit_post me s base _ o s' h /\
    (is_Some (rec_messages base !! N.to_nat index) \/ forall r, o <> Returned (Ok r)))) in He as (? & ? & Hx);
    [|apply wp_replace_message_loop with (s0 := s) (h0 := []) (k := 0); [| |apply allowed_inside| |done|by apply within_lease]].
  - split_and!; [done|done|]. intros r ->. destruct Hx as [Hx|Hx]; [|by edestruct Hx].
    destruct H1 as (_ & _ & _ & Hok). destruct (Hok r eq_refl) as (c & [_ _ -> _ _ _]). simpl.
    rewrite length_insert, list_lookup_insert_eq by (by apply lookup_lt_is_Some). done.
  - intros s1 h1 Hw. split; [by apply commit_post_drop|by right].
  - intros e s1 h1 k Hk Hw. split; [by eapply commit_post_fail|by right].
  - intros r c s1 h1 k Hk Hw Hix Hc. split; [by eapply commit_post_ok|left].
    apply lookup_lt_is_Some. unfold vec_len in Hix. lia.
Qed.

Notation sample_replace :=
  (replace_message sample_engine sample_record 0 (Message_text Role_User "hello again") true).

Lemma replace_message_correct_witness :
  match fst (fst (sample_run sample_replace held_world)) with
  | Returned (Ok r) => rec_revision r = 5%N
  | _ => False
  end /\
  commit_post 0 held_world sample_record (fun t => <[N.to_nat 0 := Message_text Role_User "hello again"]> t)
    (fst (fst (sample_run sample_replace held_world))) (snd (fst (sample_run sample_replace held_world)))
    (snd (sample_run sample_replace held_world)).
Proof.
  split; [by vm_compute|].
  refine (proj1 (proj2 (replace_message_correct sample_engine 0 sample_record 0 (Message_text Role_User "hello again") true
    held_world _ _ _ _ _ _ (sample_exec sample_replace held_world 0)))); [by constructor|done|done].
Defined.
