(* ===== verification/Calm.v ===== *)
(** * Programs that leave a turn alone

    The store operations a running turn calls, [commit_messages] and
    [replace_message], act on the session record only: whatever the store
    answers, they keep the lease, the debt, the emission gate and the permission
    context, and never panic. *)
From S2P Require Import Prelude Ids Json Model Limits Context Prog SessionState Operations.
Open Scope prog_scope.

Definition is_store (q : Query) : bool :=
  match q with Q_load _ _ | Q_save _ _ _ => true | _ => false end.

(** An action on the session record only. *)
Record same_turn (s s' : World) : Prop := {
  same_lease : lease_holder s' = lease_holder s;
  same_debt : metadata_reconciliation_required s' = metadata_reconciliation_required s;
  same_shared : turn s' = turn s;
  same_context : permission_context s' = permission_context s;
  same_past : past_turns s' = past_turns s;
}.

(** A program that only acts on the record, calls the store, and waits for it. *)
Fixpoint calm {A} (p : sprog A) : Prop :=
  match p with
  | Ret _ => True
  | Panic => False
  | Act f k => (forall s, same_turn s (snd (f s))) /\ forall x, calm (k x)
  | Ask q k => is_store q = true /\ forall x, calm (k x)
  | Yield d k => (forall s, d s = s) /\ calm k
  | Wait _ _ _ => False
  end.

Lemma calm_bind {A B} (p : sprog A) (c : A -> sprog B) : calm p -> (forall a, calm (c a)) -> calm (bind p c).
Proof.
  intros Hp Hc. induction p as [a| |X f k IH|q k IH|d k IH|X r d k IH]; simpl in *; [done|done|..|done];
    destruct Hp as [Hf Hk]; split; auto.
Qed.

Lemma calm_try {A B E} (p : sprog (result A E)) (c : A -> sprog (result B E)) :
  calm p -> (forall a, calm (c a)) -> calm (try p c).
Proof. intros Hp Hc. apply calm_bind; [done|]. by intros []. Qed.

Lemma calm_get {X} (f : World -> X) : calm (get f).
Proof. by split. Qed.

Lemma calm_act {X} (f : World -> X * World) : (forall s, same_turn s (snd (f s))) -> calm (act f).
Proof. by split. Qed.

Lemma calm_ask q : is_store q = true -> calm (ask q).
Proof. by split. Qed.

Lemma calm_cancelled : calm check_cancelled.
Proof. apply calm_bind; [apply calm_get|done]. Qed.

Lemma calm_await {X} (f : Fut X) : calm (await f).
Proof. destruct f as [n x]. unfold await. simpl. by induction n. Qed.

Lemma calm_polls {X} n (x : X) : calm (await_cancellable_polls n x).
Proof.
  induction n as [|n IH]; simpl; split; try done; intros []; try done; split; try done; by intros [].
Qed.

Lemma calm_await_cancellable {X} (f : Fut X) : calm (await_cancellable f).
Proof. apply calm_polls. Qed.

Lemma calm_await_operation {X} (f : Fut X) honor : calm (await_operation f honor).
Proof. destruct honor; [apply calm_polls|]. apply calm_bind; [apply calm_await|done]. Qed.

Lemma calm_await_record_load f honor : calm (await_record_load f honor).
Proof. destruct honor; [apply calm_polls|]. apply calm_bind; [apply calm_await|done]. Qed.

Lemma calm_final_polls first n x : calm (await_final_polls first n x).
Proof.
  revert first. induction n as [|n IH]; intros []; simpl; repeat (destruct x || split || done || intros []); apply IH.
Qed.

Lemma calm_await_final_save store r expected : calm (await_final_save store r expected).
Proof.
  apply calm_try; [apply calm_cancelled|]. intros []. apply calm_bind; [by apply calm_ask|]. intros. apply calm_final_polls.
Qed.

Lemma calm_arc_new r : calm (arc_new r).
Proof. by apply calm_act. Qed.

Lemma calm_reconcile_loaded r : calm (reconcile_loaded r).
Proof.
  unfold reconcile_loaded. destruct (validate_loaded r); [|done]. apply calm_bind; [apply calm_arc_new|]. intros a'.
  generalize MAX_RECONCILE_RETRIES as n. intros n. induction n as [|n IH]; simpl; [done|]. split; [done|]. intros x.
  destruct (check_loaded _ _); [|done]. split; [|by intros []]. intros s. unfold install_loaded. by destruct (negb _).
Qed.

Lemma calm_reconcile_saved r : calm (reconcile_saved r).
Proof.
  unfold reconcile_saved. generalize MAX_RECONCILE_RETRIES as n. intros n. induction n as [|n IH]; simpl; [done|].
  split; [done|]. intros x. destruct (check_saved _ _); [|done]. split; [|by intros []]. intros s. unfold install_saved.
  destruct (negb _); [done|]. destruct (_ <? _)%N; [done|]. by destruct (_ =? _)%N.
Qed.

Lemma calm_install_commit candidate revision : calm (install_commit candidate revision).
Proof.
  unfold install_commit. destruct (negb _); [done|]. apply calm_bind; [apply calm_arc_new|]. intros a.
  apply calm_bind; [apply calm_reconcile_saved|]. by intros [].
Qed.

Lemma calm_conflict `{JsonWriter} engine base message phase missing honor (next : sprog (result SessionRecord WorkflowAbort)) :
  calm next ->
  calm (do f <- ask (Q_load (session_store engine) (rec_id base));
        do? loaded <- await_record_load f honor;
        do? loaded <- Ret (map_err (fun e => AbortFailed (TurnFailure_store e)) loaded);
        match loaded with
        | None => Ret (Err missing)
        | Some current =>
            do? _ <- Ret (check_conflict_record engine base current (message current) phase);
            do? _ <- reconcile_conflict current;
            next
        end).
Proof.
  intros Hn. apply calm_bind; [by apply calm_ask|]. intros f. apply calm_try; [apply calm_await_record_load|]. intros loaded.
  apply calm_try; [done|]. intros [current|]; [|done]. apply calm_try; [done|]. intros _.
  apply calm_try; [|done]. apply calm_bind; [apply calm_reconcile_loaded|done].
Qed.

Lemma calm_commit `{JsonWriter} engine base messages mode : calm (commit_messages engine base messages mode).
Proof.
  unfold commit_messages. generalize MAX_CONFLICT_RETRIES as n. intros n. induction n as [|n IH]; cbn [commit_messages_loop]; [done|].
  apply calm_try; [apply calm_cancelled|]. intros _. apply calm_bind; [apply calm_get|]. intros [snap persisted]. cbv zeta.
  apply calm_try; [done|]. intros _. destruct (negb _); [done|]. apply calm_try; [done|]. intros _.
  apply calm_try; [done|]. intros _. apply calm_bind; [apply calm_get|]. intros []; cbn [negb]; [|done]. apply calm_try.
  { destruct mode; [apply calm_bind; [by apply calm_ask|intros; apply calm_await_cancellable]|apply calm_await_final_save]. }
  intros [revision|error]; [apply calm_install_commit|]. destruct (is_conflict error); [|done].
  by apply calm_conflict with (message := fun current =>
    "session store returned ID " +:+ rec_id current +:+ " for requested ID " +:+ rec_id base).
Qed.

Lemma calm_replace `{JsonWriter} engine base index replacement honor :
  calm (replace_message engine base index replacement honor).
Proof.
  unfold replace_message. generalize MAX_CONFLICT_RETRIES as n. intros n. induction n as [|n IH]; cbn [replace_message_loop]; [done|].
  apply calm_try; [destruct honor; [apply calm_cancelled|done]|]. intros _. apply calm_bind; [apply calm_get|].
  intros [snap persisted]. cbv zeta. apply calm_try; [done|]. intros _. destruct (negb _); [done|]. apply calm_try; [done|].
  intros _. destruct (negb _); [done|]. apply calm_try; [done|]. intros _. apply calm_bind; [apply calm_get|].
  intros []; cbn [negb]; [|done]. apply calm_bind; [by apply calm_ask|]. intros f.
  apply calm_try; [apply calm_await_operation|]. intros [revision|error]; [apply calm_install_commit|].
  destruct (is_conflict error); [|done].
  by apply calm_conflict with (message := fun _ => "session store returned a different session during result replacement").
Qed.

