(* ===== verification/TurnRules.v ===== *)
(** * Rules for a running turn

    What a turn may do at each step ([turn_allowed]), stated over the history of
    its calls to host code, and the proof rules of the workflow's building
    blocks: emitting, checking for cancellation, calling host code, committing,
    and owning a permission scope or a deferral. *)
From S2P Require Import Prelude Ids Json Model Limits PermissionId Catalog Context Prog SessionState Emission Operations.
From S2P Require Import Workflow Sample Lease ReserveProofs CommitProofs Calm.
From stdpp Require Import gmap.
Open Scope prog_scope.

(** ** The calls of a turn *)
Definition host_call (e : event World Query Ans) : bool :=
  match e with EvAsk _ q _ => negb (is_store q) | _ => false end.

(** The calls to host code other than the store, newest first. *)
Definition host (h : Events) : Events := List.filter host_call h.

(** The requests sent, the items received, and the calls prepared and executed. *)
Definition streams (h : Events) : nat :=
  length (omap (fun e => match e with EvAsk _ (Q_stream r) _ => Some r | _ => None end) h).
Definition items (h : Events) : nat :=
  length (omap (fun e : event World Query Ans =>
    match e with
    | EvAsk _ q x =>
        match q return Ans q -> option unit with
        | Q_next_item _ => fun x => match snd x with Some _ => Some tt | None => None end
        | _ => fun _ => None
        end x
    | _ => None
    end) h).
Definition prepared_ids (h : Events) : list ToolCallId :=
  omap (fun e => match e with EvAsk _ (Q_prepare _ c _) _ => Some (tc_call_id c) | _ => None end) h.
Definition executed_ids (h : Events) : list ToolCallId :=
  omap (fun e => match e with EvAsk _ (Q_execute _ c _ _) _ => Some (tc_call_id c) | _ => None end) h.

Lemma omap_host {B} (f : event World Query Ans -> option B) (h : Events) :
  (forall e, host_call e = false -> f e = None) -> omap f (host h) = omap f h.
Proof.
  intros Hf. induction h as [|e h IH]; [done|]. simpl. fold (host h).
  destruct (host_call e) eqn:E; [|rewrite (Hf e E); exact IH]. simpl. destruct (f e); [f_equal|]; exact IH.
Qed.

Ltac solve_host := apply omap_host; intros [| ? [] |]; try done.

Lemma streams_host h : streams (host h) = streams h.
Proof. unfold streams. f_equal. solve_host. Qed.
Lemma items_host h : items (host h) = items h.
Proof. unfold items. f_equal. solve_host. Qed.
Lemma prepared_host h : prepared_ids (host h) = prepared_ids h.
Proof. solve_host. Qed.
Lemma executed_host h : executed_ids (host h) = executed_ids h.
Proof. solve_host. Qed.

Lemma items_item s stream x h :
  items (EvAsk s (Q_next_item stream) x :: h) = match snd x with Some _ => S (items h) | None => items h end.
Proof. unfold items. simpl. by destruct (snd x). Qed.

Lemma host_app l h : host (l ++ h) = host l ++ host h.
Proof. apply List.filter_app. Qed.

Lemma extends_host h0 h n : extends h0 h n -> host h = host h0.
Proof.
  intros (l & -> & Hl & _). rewrite host_app. cut (host l = []); [by intros ->|].
  induction Hl as [|e l He _ IH]; [done|]. unfold host in *. simpl. by destruct e as [|? []|].
Qed.

Lemma quiet_host h h' : adds_quiet h h' -> host h' = host h.
Proof.
  intros (l & -> & Hl). rewrite host_app. cut (host l = []); [by intros ->|].
  induction Hl as [|e l He _ IH]; [done|]. unfold host in *. by destruct e.
Qed.

(** ** What makes a call *)
(** The durable transcript has a call at a message and block, and a result for it
    further on. *)
Definition recorded (messages : list Message) (id : ToolCallId) (cursor : N * N) : Prop :=
  (exists m call, messages !! N.to_nat (fst cursor) = Some m /\ msg_role m = Role_Assistant /\
     msg_content m !! N.to_nat (snd cursor) = Some (ContentToolCall call) /\ call_id call = id) /\
  exists j output, N.to_nat (fst cursor) < j /\ messages !! j = Some (tool_result_message id output).

(** The store accepted such a transcript. *)
Definition published (h : Events) (id : ToolCallId) (cursor : N * N) : Prop :=
  exists r revision, accepted h r revision /\ recorded (rec_messages r) id cursor.

(** The turn was seen not to be cancelled, and has since acted at most once. *)
Definition checked (h : Events) : Prop :=
  exists s h1, turn_cancelled s = false /\
    (h = EvAct s s :: h1 \/ exists s1 s2, h = EvAct s1 s2 :: EvAct s s :: h1).

(** The calls that must precede an execution, newest first: its own preparation,
    and what the preparation asks for. *)
Inductive cleared (tool : ToolRef) (context : ToolContext) (call : ToolCall) (arguments : Value) : Events -> Prop :=
| cleared_free s prepared h :
    prepared_authorization prepared = NoAuthorityRequired -> prepared_arguments prepared = arguments ->
    cleared tool context call arguments (EvAsk s (Q_prepare tool context call) (Ok prepared) :: h)
| cleared_allowed s s' prepared request polls scope h :
    prepared_authorization prepared = PermissionRequired (pr_capability request) ->
    prepared_arguments prepared = arguments ->
    cleared tool context call arguments
      (EvAsk s' (Q_authorize request {| inv_tool_name := call_name call; inv_call_id := call_id call;
                                        inv_arguments := arguments |})
         (polls, Ok {| auth_decision := Allow scope; auth_admission := None |}) ::
       EvAsk s (Q_prepare tool context call) (Ok prepared) :: h)
| cleared_admitted s s' s'' prepared request polls scope admission h :
    prepared_authorization prepared = PermissionRequired (pr_capability request) ->
    prepared_arguments prepared = arguments ->
    cleared tool context call arguments
      (EvAsk s'' (Q_admit admission) (Ok tt) ::
       EvAsk s' (Q_authorize request {| inv_tool_name := call_name call; inv_call_id := call_id call;
                                        inv_arguments := arguments |})
         (polls, Ok {| auth_decision := Allow scope; auth_admission := Some admission |}) ::
       EvAsk s (Q_prepare tool context call) (Ok prepared) :: h).

(** ** The guarantee of a turn *)
Section Turn.
Context `{JsonWriter}.
Context (sha256 : string -> string) (engine : EngineInner).
Context (session_id : SessionId) (incarnation_id : SessionIncarnationId) (turn_id : TurnId).
Context (me : nat) (s0 : World) (base : list Message).

Definition turn_transcript (messages : list Message) : Prop :=
  base `prefix_of` messages /\ (closed_history base -> closed_history messages).

(** A record the turn may save: within the limits, of this session, with the
    transcript of the start extended, and closed if it was; it is the record that a
    snapshot and the check after it found canonical with only its transcript
    replaced, and the save expects the revision of that record if it was stored. *)
Definition turn_save (h : Events) (r : SessionRecord) (expected : option SessionRevision) : Prop :=
  validate_record r (limits engine) = Ok tt /\ same_session s0 r /\ turn_transcript (rec_messages r) /\
  exists current persisted, current_at h current persisted /\ r = with_messages current (rec_messages r) /\
    expected = then_some persisted (rec_revision current).

(** The permission context names the request and shows its pending call. *)
Definition shows (request : PermissionRequest) (call : ToolCall) (cursor : N * N) (s : World) : Prop :=
  exists ptr, permission_context s = Some
    {| pc_ptr := ptr; pc_request_id := pr_id request; pc_session_id := pr_session_id request;
       pc_incarnation_id := pr_session_incarnation_id request; pc_turn_id := pr_turn_id request;
       pc_cursor := cursor; pc_pending := pending_assistant call |}.

(** When a call to host code may be made. *)
Definition ask_ok (s : World) (q : Query) (h : Events) : Prop :=
  match q with
  | Q_authorize request invocation =>
      exists s1 tool context call prepared cursor,
        List.head (host h) = Some (EvAsk s1 (Q_prepare tool context call) (Ok prepared)) /\
        prepared_authorization prepared = PermissionRequired (pr_capability request) /\
        pr_session_id request = session_id /\ pr_session_incarnation_id request = incarnation_id /\
        pr_turn_id request = turn_id /\
        invocation = {| inv_tool_name := call_name call; inv_call_id := call_id call;
                        inv_arguments := prepared_arguments prepared |} /\
        permission_request_id sha256 session_id incarnation_id turn_id (N.of_nat (length (prepared_ids h)))
          = Ok (pr_id request) /\
        published h (call_id call) cursor /\ shows request call cursor s
  | _ => permission_context s = None
  end /\
  match q with
  | Q_save _ r expected => turn_save h r expected
  | Q_stream request =>
      checked h /\ streams h < N.to_nat (nz_get (max_model_rounds (limits engine))) /\
      req_session_id request = session_id /\ req_session_incarnation_id request = incarnation_id /\
      req_turn_id request = turn_id
  | Q_next_item _ => checked h /\ items h <= N.to_nat (nz_get (max_model_events_per_turn (limits engine)))
  | Q_persist_arguments _ _ _ => checked h
  | Q_admit admission =>
      checked h /\ exists s1 request invocation polls scope,
        List.head (host h) = Some (EvAsk s1 (Q_authorize request invocation)
          (polls, Ok {| auth_decision := Allow scope; auth_admission := Some admission |}))
  | Q_prepare _ context call =>
      checked h /\ tc_call_id context = call_id call /\ (call_id call ∉ prepared_ids h) /\
      length (prepared_ids h) < N.to_nat (nz_get (max_tool_calls_per_turn (limits engine))) /\
      exists cursor, published h (call_id call) cursor
  | Q_execute tool context name arguments =>
      checked h /\ (tc_call_id context ∉ executed_ids h) /\
      exists call cursor, call_name call = name /\ call_id call = tc_call_id context /\
        cleared tool context call arguments (host h) /\ published h (call_id call) cursor
  | Q_emit _ => False
  | _ => True
  end.

(** What the workflow does to the gate: nothing, or it stages an event where
    nothing is outstanding, or it consumes the acknowledgement of its event. *)
Definition gate_move (e e' : EmissionState) : Prop :=
  (em_outstanding e' = em_outstanding e /\ em_pending e' = em_pending e /\ em_acknowledged e' = em_acknowledged e) \/
  (em_outstanding e = false /\ em_outstanding e' = true /\ em_acknowledged e' = false /\
   exists event, em_pending e' = Some event /\ is_terminal (staged_payload event) = false) \/
  (em_acknowledged e = true /\ em_outstanding e' = false /\ em_pending e' = em_pending e /\ em_acknowledged e' = false).

(** An action of the workflow. *)
Record turn_step (s s' : World) : Prop := {
  tp_own : own me s s';
  tp_holder : lease_holder s' = Some me;
  tp_debt : metadata_reconciliation_required s' = metadata_reconciliation_required s;
  tp_past : past_turns s' = past_turns s;
  tp_gate : gate_move (emission s) (emission s');
}.

Lemma turn_step_idle s s' :
  evolves s s' -> lease_holder s = Some me -> lease_holder s' = Some me ->
  metadata_reconciliation_required s' = metadata_reconciliation_required s -> past_turns s' = past_turns s ->
  idle s -> idle s' -> turn_step s s'.
Proof.
  intros He Hl Hl' Hd Hp [? ? ?] [? ? ?]. constructor; try done; [by apply held_own; [| |left]|].
  left. split_and!; congruence.
Qed.

(** What the turn may do. It never gives up its lease, and a dropped turn leaves
    no permission scope and no deferral behind. *)
Definition turn_allowed (e : event World Query Ans) (h : Events) : Prop :=
  match e with
  | EvAct s s' => turn_step s s'
  | EvDrop s s' =>
      own me s s' /\ lease_holder s' = Some me /\ permission_context s' = None /\
      em_cancellation_deferrals (emission s') = 0%N /\ past_turns s' = past_turns s /\
      shared_settles (turn s) (turn s')
  | EvAsk s q _ => lease_holder s = Some me /\ ask_ok s q h
  end.

(** ** The state of a turn *)
(** [d] deferrals and the permission context [ctx] are alive. *)
Record framed (d : N) (ctx : option ActivePermissionContext) (s : World) : Prop := {
  fr_holder : lease_holder s = Some me;
  fr_deferrals : em_cancellation_deferrals (emission s) = d;
  fr_context : permission_context s = ctx;
}.

(** What the turn knows of its history: its calls, and records the store accepted. *)
Record view := View { v_host : Events; v_stored : list SessionRecord }.

(** It holds the lease, and an unsettled save is a debt. *)
Record holding (s : World) (h : Events) : Prop := {
  hold_inv : inv s;
  hold_holder : lease_holder s = Some me;
  hold_debt : unsettled h = true -> metadata_reconciliation_required s = true;
}.

Record tinv (d : N) (ctx : option ActivePermissionContext) (v : view) (s : World) (h : Events) : Prop := {
  ti_evolves : evolves s0 s;
  ti_holding : holding s h;
  ti_framed : framed d ctx s;
  ti_idle : idle s;
  ti_host : host h = v_host v;
  ti_stored : forall r, r ∈ v_stored v -> exists revision, accepted h r revision;
}.

(** After an error only this is left to know. *)
Definition resting (d : N) (ctx : option ActivePermissionContext) (s : World) (h : Events) : Prop :=
  exists v, tinv d ctx v s h.

Lemma framed_rely d ctx s s' : rely me s s' -> framed d ctx s -> framed d ctx s'.
Proof.
  intros R [Hl Hd Hc]. destruct (rely_emission _ _ _ R Hl) as [_ _ E _ _ _ _].
  destruct (rely_context _ _ _ R Hl) as [Ec _]. constructor; [by apply R|congruence|congruence].
Qed.

Lemma tinv_rely d ctx v s s' h : rely me s s' -> tinv d ctx v s h -> tinv d ctx v s' h.
Proof.
  intros R [He Hl Hf Hi Hh Hp]. constructor; try done.
  - etrans; [exact He|apply R].
  - destruct Hl as [? Hl ?]. constructor; [by eapply inv_rely|by apply R|]. intros. by apply R; auto.
  - by eapply framed_rely.
  - eapply idle_rely; [exact R|apply Hf|done].
Qed.

Lemma resting_rely d ctx s s' h : rely me s s' -> resting d ctx s h -> resting d ctx s' h.
Proof. intros R [v Hv]. exists v. by eapply tinv_rely. Qed.

Lemma accepted_suffix l h r revision : accepted h r revision -> accepted (l ++ h) r revision.
Proof. intros (s & store & e & polls & Hin). exists s, store, e, polls. apply elem_of_app. by right. Qed.

Lemma stored_suffix l (rs : list SessionRecord) h :
  (forall r, r ∈ rs -> exists revision, accepted h r revision) ->
  forall r, r ∈ rs -> exists revision, accepted (l ++ h) r revision.
Proof. intros Hs r Hr. destruct (Hs r Hr) as [revision ?]. exists revision. by apply accepted_suffix. Qed.

Lemma tinv_published d ctx v s h r id cursor :
  tinv d ctx v s h -> r ∈ v_stored v -> recorded (rec_messages r) id cursor -> published h id cursor.
Proof. intros Hv Hr Hc. destruct (ti_stored _ _ _ _ _ Hv r Hr) as [revision ?]. by exists r, revision. Qed.

(** An action of the turn. *)
Lemma tinv_act d ctx v d' ctx' s s' h :
  tinv d ctx v s h -> evolves s s' -> framed d' ctx' s' -> idle s' ->
  metadata_reconciliation_required s' = metadata_reconciliation_required s ->
  tinv d' ctx' v s' (EvAct s s' :: h).
Proof.
  intros [He [Hi Hl Hd] Hf Hid Hh Hp] Hev Hf' Hi' Hdebt. constructor; try done.
  - by etrans.
  - constructor; [by apply Hev|apply Hf'|]. simpl. rewrite Hdebt. by destruct (metadata_reconciliation_required s).
  - by apply (stored_suffix [_]).
Qed.

(** A record the store accepted. *)
Lemma tinv_stored d ctx v s h r revision :
  tinv d ctx v s h -> accepted h r revision -> tinv d ctx (View (v_host v) (r :: v_stored v)) s h.
Proof.
  intros [He Hl Hf Hid Hh Hp] Ha. constructor; try done. intros r' [->|Hin]%elem_of_cons; [by exists revision|by apply Hp].
Qed.

(** A call to host code. *)
Lemma tinv_ask d ctx v s q x h :
  tinv d ctx v s h -> is_store q = false ->
  tinv d ctx (View (EvAsk s q x :: v_host v) (v_stored v)) s (EvAsk s q x :: h).
Proof.
  intros [He [Hi Hl Hd] Hf Hid Hh Hp] Hq. constructor; try done.
  - constructor; try done. by destruct q.
  - unfold host in *. simpl. rewrite Hq. simpl. by rewrite Hh.
  - by apply (stored_suffix [_]).
Qed.

(** ** Postconditions *)
(** A turn ends by returning, by being dropped, or waiting for its event to be
    delivered; it never panics. *)
Definition ends {A} (Q : A -> World -> Events -> Prop) (o : outcome A) (s : World) (h : Events) : Prop :=
  match o with
  | Returned a => Q a s h
  | Dropped => exists b h1, h = EvDrop b s :: h1
  | Panicked => False
  | Blocked => lease_holder s = Some me /\ em_outstanding (emission s) = true /\ em_acknowledged (emission s) = false
  end.

Definition oks {A} (d : N) (ctx : option ActivePermissionContext) (Q : A -> World -> Events -> Prop)
    (r : result A WorkflowAbort) (s : World) (h : Events) : Prop :=
  match r with Ok a => Q a s h | Err _ => resting d ctx s h end.

(** What the turn's code needs to be allowed while [d] deferrals and the context
    [ctx] are alive. *)
Record turn_contract (al : event World Query Ans -> Events -> Prop) (d : N) (ctx : option ActivePermissionContext)
    : Prop := {
  tk_act : forall s s' h, turn_step s s' -> al (EvAct s s') h;
  tk_drop : forall s h, inv s -> framed d ctx s -> al (EvDrop s s) h;
  tk_ask : forall s q x h, lease_holder s = Some me -> ask_ok s q h -> al (EvAsk s q x) h;
}.

Lemma emission_set s e : emission (set_emission s e) = e.
Proof. done. Qed.

Lemma set_emission_evolves s e : inv s -> evolves s (set_emission s e).
Proof. intros Hi. apply evolves_same_data; [done..|apply Hi|apply Hi]. Qed.

Lemma turn_allowed_contract : turn_contract turn_allowed 0 None.
Proof.
  constructor; simpl; try done. intros s h Hi [Hl Hd Hc]. split_and!; try done. apply quiet_own, quiet_refl.
Qed.

(** Dropping the turn inside a deferral releases it, and inside a permission
    scope closes the scope. *)
Lemma deferral_contract : turn_contract (drop_allowed turn_allowed release_deferral) 1 None.
Proof.
  constructor; simpl; try done. intros s h Hi [Hl Hd Hc]. unfold release_deferral. split_and!; try done.
  - apply held_own; [by apply set_emission_evolves|done|by left].
  - simpl. by rewrite Hd.
Qed.

Lemma close_evolves ptr s : inv s -> evolves s (close_context ptr s).
Proof.
  intros Hi. unfold close_context. destruct (permission_context s); [destruct (_ =? _)|]; [|apply evolves_refl..].
  apply evolves_same_data; [done..|apply Hi|done].
Qed.

Lemma scope_contract ctx : turn_contract (drop_allowed turn_allowed (close_context (pc_ptr ctx))) 0 (Some ctx).
Proof.
  constructor; simpl; try done. intros s h Hi [Hl Hd Hc].
  assert (close_context (pc_ptr ctx) s = set_permission_context s None (permission_contexts s)) as E.
  { unfold close_context. by rewrite Hc, Nat.eqb_refl. }
  rewrite E. split_and!; try done. rewrite <-E. apply held_own; [by apply close_evolves|done|left; by rewrite E].
Qed.

(** ** Sequencing *)
Section Rules.
Context {al : event World Query Ans -> Events -> Prop} {d : N} {ctx : option ActivePermissionContext}.
Context (T : turn_contract al d ctx).
Notation twp := (wp (rely me) any_answer al).

Lemma twp_bind {A B} (p : sprog A) (c : A -> sprog B) Q1 Q2 s h :
  twp p (ends Q1) s h -> (forall a s h, Q1 a s h -> twp (c a) (ends Q2) s h) ->
  twp (bind p c) (ends Q2) s h.
Proof.
  intros Hp Hc. apply wp_bind; [apply rely_refl|]. eapply wp_mono; [|exact Hp].
  intros [] s' h'; simpl; try done. apply Hc.
Qed.

Lemma twp_try {A B} (p : sprog (result A WorkflowAbort)) (c : A -> sprog (result B WorkflowAbort)) Q1 Q2 s h :
  twp p (ends (oks d ctx Q1)) s h -> (forall a s h, Q1 a s h -> twp (c a) (ends (oks d ctx Q2)) s h) ->
  twp (try p c) (ends (oks d ctx Q2)) s h.
Proof.
  intros Hp Hc. eapply twp_bind; [exact Hp|]. intros [a|e] s' h'; simpl; [apply Hc|].
  intros Hr s'' R. by eapply resting_rely.
Qed.

Lemma twp_ret {A} (a : A) (Q : A -> World -> Events -> Prop) v s h :
  tinv d ctx v s h -> (forall s', rely me s s' -> tinv d ctx v s' h -> Q a s' h) -> twp (Ret a) (ends Q) s h.
Proof. intros Hv HQ s' R. apply HQ; [done|]. by eapply tinv_rely. Qed.

Lemma twp_fail {A} (e : WorkflowAbort) (Q : A -> World -> Events -> Prop) v s h :
  tinv d ctx v s h -> twp (Ret (Err e)) (ends (oks d ctx Q)) s h.
Proof. intros Hv s' R. exists v. by eapply tinv_rely. Qed.

Lemma twp_check {A B} (r : result A WorkflowAbort) (c : A -> sprog (result B WorkflowAbort)) Q v s h :
  tinv d ctx v s h -> (forall a, r = Ok a -> twp (c a) (ends (oks d ctx Q)) s h) ->
  twp (try (Ret r) c) (ends (oks d ctx Q)) s h.
Proof. intros Hv Hc. destruct r as [a|e]; [by apply Hc|by eapply twp_fail]. Qed.

(** ** Steps *)
(** An action that keeps the frame. *)
Lemma twp_act {X} (f : World -> X * World) (Q : X -> World -> Events -> Prop) v s h :
  tinv d ctx v s h ->
  (forall s', tinv d ctx v s' h -> let s1 := snd (f s') in
     evolves s' s1 /\ framed d ctx s1 /\ idle s1 /\
     metadata_reconciliation_required s1 = metadata_reconciliation_required s' /\ past_turns s1 = past_turns s' /\
     (tinv d ctx v s1 (EvAct s' s1 :: h) -> forall s2, rely me s1 s2 -> tinv d ctx v s2 (EvAct s' s1 :: h) ->
      Q (fst (f s')) s2 (EvAct s' s1 :: h))) ->
  twp (act f) (ends Q) s h.
Proof.
  intros Hv Hf s' R. pose proof (tinv_rely _ _ _ _ _ _ R Hv) as Hv'.
  destruct (Hf s' Hv') as (He & Hfr & Hi & Hd & Hpt & HQ). split.
  - apply (tk_act _ _ _ T), turn_step_idle; try done; [apply Hv'|apply Hfr|apply Hv'].
  - intros s2 R2. pose proof (tinv_act _ _ _ _ _ _ _ _ Hv' He Hfr Hi Hd). apply HQ; [done|done|]. by eapply tinv_rely.
Qed.

Lemma twp_get {X} (f : World -> X) v s h :
  tinv d ctx v s h ->
  twp (get f) (ends (fun x s2 h2 => exists s1, h2 = EvAct s1 s1 :: h /\ x = f s1 /\ tinv d ctx v s1 h /\
    rely me s1 s2 /\ tinv d ctx v s2 h2)) s h.
Proof.
  intros Hv. eapply twp_act; [done|]. intros s1 Hv1. split_and!; [apply evolves_refl|apply Hv1|apply Hv1|done|done|].
  simpl. intros _ s2 R2 Hv2. exists s1. done.
Qed.

Lemma twp_check_cancelled v s h :
  tinv d ctx v s h ->
  twp check_cancelled (ends (oks d ctx (fun _ s' h' => tinv d ctx v s' h' /\
    exists s1, turn_cancelled s1 = false /\ h' = EvAct s1 s1 :: h))) s h.
Proof.
  intros Hv. eapply twp_bind; [by apply twp_get|]. intros c s2 h2 (s1 & -> & -> & Hv1 & R2 & Hv2).
  eapply twp_ret; [exact Hv2|]. intros s3 R3 Hv3. destruct (turn_cancelled s1) eqn:E; simpl; [by exists v|]. eauto.
Qed.

(** Emitting: the event is staged, and the workflow goes on once the stream has
    delivered it. *)
Lemma twp_emit_future event v s h :
  is_terminal (staged_payload event) = false -> tinv d ctx v s h ->
  twp (emit_future event) (ends (fun _ s' h' => tinv d ctx v s' h' /\
    em_terminal_established (emission s') = em_terminal_established (emission s))) s h.
Proof.
  intros Hnt Hv s1 R1. pose proof (dl_terminal _ _ (rely_emission _ _ _ R1 (fr_holder _ _ _ (ti_framed _ _ _ _ _ Hv)))) as Et1.
  pose proof (tinv_rely _ _ _ _ _ _ R1 Hv) as Hv1. pose proof Hv1 as [_ [Hi1 Hl1 _] Hf1 [Ho Hp Ha] _ _].
  pose proof Hf1 as [_ Hd1 Hc1]. unfold stage_event. rewrite Hp, Ha. cbn [fst snd].
  match goal with |- context [set_emission s1 ?e] => set (s2 := set_emission s1 e) end.
  assert (evolves s1 s2) as He2 by by apply set_emission_evolves.
  split; [apply (tk_act _ _ _ T); constructor; [by apply held_own; [| |left]|done|done|done|right; left; split_and!; [done|done|done|]; by eexists]|].
  intros s3 R3. pose proof (rely_emission _ _ _ R3 Hl1) as De. pose proof De as [_ Dt Dd Do _ _ Da].
  assert (framed d ctx s3) as Hf3 by (eapply framed_rely; [exact R3|]; by constructor).
  assert (inv s3) as Hi3 by (eapply inv_rely; [exact R3|]; by apply He2).
  split; [split; [by apply (tk_drop _ _ _ T)|by eexists _, _]|]. unfold acknowledged_event. split.
  - intros Hn. split_and!; [apply Hf3|by rewrite Do|]. by destruct (em_acknowledged (emission s3)).
  - intros x s4. destruct (em_acknowledged (emission s3)) eqn:Ea3; [|done]. intros [= <- <-].
    destruct Da as [Da|[_ Dp]]; [by rewrite Da in Ea3|].
    match goal with |- context [set_emission s3 ?e] => set (s4 := set_emission s3 e) end.
    assert (evolves s3 s4) as He4 by by apply set_emission_evolves.
    split; [apply (tk_act _ _ _ T); constructor; [by apply held_own; [|apply Hf3|left; apply Hf3]|apply Hf3|done|done|by right; right]|].
    intros s5 R5. split; [eapply tinv_rely; [exact R5|]|].
    2:{ rewrite (dl_terminal _ _ (rely_emission _ _ _ R5 (fr_holder _ _ _ Hf3))), <-Et1. exact Dt. }
    pose proof Hv1 as [Hev [_ _ Hu] _ _ Hh Hpub]. constructor.
    + etrans; [exact Hev|]. etrans; [exact He2|]. etrans; [apply R3|done].
    + constructor; [by apply He4|apply Hf3|]. simpl. intros Hun. apply (rely_debt _ _ _ R3); [done|]. simpl. apply Hu.
      destruct (metadata_reconciliation_required s3), (metadata_reconciliation_required s1); done.
    + destruct Hf3. by constructor.
    + by constructor.
    + done.
    + by apply (stored_suffix [_; _]).
Qed.

Lemma twp_emit event v s h : is_terminal event = false -> tinv d ctx v s h -> twp (emit event) (ends (fun _ => tinv d ctx v)) s h.
Proof. intros Hnt Hv. eapply wp_mono; [|by apply twp_emit_future]. intros [] s' h'; simpl; try done. by intros []. Qed.

(** An action on the usage or the terminal flag. *)
Lemma twp_modify_emission (f : World -> World) (Q : unit -> World -> Events -> Prop) v s h :
  tinv d ctx v s h ->
  (forall s, exists e, f s = set_emission s e /\ em_outstanding e = em_outstanding (emission s) /\
     em_pending e = em_pending (emission s) /\ em_acknowledged e = em_acknowledged (emission s) /\
     em_cancellation_deferrals e = em_cancellation_deferrals (emission s)) ->
  (forall s1 s2 h2, rely me (f s1) s2 -> lease_holder s1 = Some me -> tinv d ctx v s2 h2 -> Q tt s2 h2) ->
  twp (modify f) (ends Q) s h.
Proof.
  intros Hv Hf HQ. eapply twp_act; [done|]. intros s1 [_ [Hi Hl _] [_ Hd Hc] [Ho Hp Ha] _ _]. simpl.
  split_and!; [| | | | |intros _ s2 R2 Hv2; by eapply HQ]; destruct (Hf s1) as (e & -> & E1 & E2 & E3 & E4).
  - by apply set_emission_evolves.
  - constructor; [done|by rewrite emission_set, E4|done].
  - constructor; rewrite emission_set; congruence.
  - done.
  - done.
Qed.

Lemma twp_set_usage usage v s h :
  tinv d ctx v s h -> twp (modify (set_usage usage)) (ends (fun _ => tinv d ctx v)) s h.
Proof. intros Hv. eapply twp_modify_emission; [done|by intros s'; eexists|done]. Qed.

Definition established (s : World) : Prop := em_terminal_established (emission s) = true.

Lemma established_rely s s' : rely me s s' -> lease_holder s = Some me -> established s -> established s'.
Proof. intros R Hl E. unfold established. rewrite (dl_terminal _ _ (rely_emission _ _ _ R Hl)). exact E. Qed.

Lemma twp_establish v s h :
  tinv d ctx v s h -> twp establish_terminal (ends (fun _ s h => tinv d ctx v s h /\ established s)) s h.
Proof.
  intros Hv. eapply twp_modify_emission; [done|by intros s'; eexists|]. intros s1 s2 h2 R Hl Hv2. split; [done|].
  by eapply established_rely.
Qed.

(** Calling host code. *)
Lemma twp_ask q v s h :
  tinv d ctx v s h -> is_store q = false ->
  (forall s', tinv d ctx v s' h -> rely me s s' -> ask_ok s' q h) ->
  twp (ask q) (ends (fun x s2 h2 => exists s1, h2 = EvAsk s1 q x :: h /\ rely me s1 s2 /\
    tinv d ctx (View (EvAsk s1 q x :: v_host v) (v_stored v)) s2 h2)) s h.
Proof.
  intros Hv Hq Hok s1 R1 x _. pose proof (tinv_rely _ _ _ _ _ _ R1 Hv) as Hv1.
  split; [apply (tk_ask _ _ _ T); [apply Hv1|by apply Hok]|]. intros s2 R2.
  exists s1. split_and!; [done|done|]. eapply tinv_rely; [exact R2|]. by apply tinv_ask.
Qed.

(** Awaiting it. *)
Lemma twp_yield {A} (p : sprog A) Q v s h :
  tinv d ctx v s h -> (forall s', tinv d ctx v s' h -> twp p (ends Q) s' h) -> twp (Yield id p) (ends Q) s h.
Proof.
  intros Hv Hp s1 R1. pose proof (tinv_rely _ _ _ _ _ _ R1 Hv) as Hv1.
  pose proof (ti_holding _ _ _ _ _ Hv1) as [Hi1 _ _].
  split; [split; [apply (tk_drop _ _ _ T); [done|apply Hv1]|by eexists _, _]|]. by apply Hp.
Qed.

Lemma twp_await {X} (f : Fut X) v s h :
  tinv d ctx v s h -> twp (await f) (ends (fun x s' h' => x = snd f /\ tinv d ctx v s' h')) s h.
Proof.
  destruct f as [n x]. unfold await. simpl. revert s. induction n as [|n IH]; intros s Hv.
  - by eapply twp_ret.
  - by eapply twp_yield.
Qed.

Lemma twp_await_cancellable {X} (f : Fut X) v s h :
  tinv d ctx v s h ->
  twp (await_cancellable f) (ends (oks d ctx (fun x s' h' => x = snd f /\ tinv d ctx v s' h'))) s h.
Proof.
  destruct f as [n x]. unfold await_cancellable. simpl. revert s h. induction n as [|n IH]; intros s h Hv;
    (eapply twp_bind; [by apply twp_get|]); intros c1 s1 h1 (s1' & -> & -> & _ & _ & Hv1);
    (destruct (turn_cancelled s1'); [by eapply twp_fail|]);
    (eapply twp_bind; [by apply twp_get|]); intros c2 s2 h2 (s2' & -> & -> & _ & _ & Hv2);
    (destruct (turn_cancelled s2'); [by eapply twp_fail|]).
  - by eapply twp_ret.
  - eapply twp_yield; [done|]. intros s3 Hv3. by apply IH.
Qed.

Lemma twp_polled {X} (f : Fut X) v s h :
  tinv d ctx v s h ->
  twp (polled f) (ends (oks d ctx (fun x s' h' => x = snd f /\ tinv d ctx v s' h'))) s h.
Proof.
  intros Hv. eapply twp_bind; [by apply twp_get|]. intros c s1 h1 (s1' & -> & -> & _ & _ & Hv1).
  destruct (turn_cancelled s1'); [by eapply twp_fail|]. destruct f as [[|n] x]; cbn [fst snd].
  - by eapply twp_ret.
  - eapply twp_yield; [done|]. intros s2 Hv2. by apply (twp_await_cancellable (n, x)).
Qed.
End Rules.

(** ** Commits *)
Definition calm_event (d : N) (ctx : option ActivePermissionContext) (e : event World Query Ans) (h : Events) : Prop :=
  match e with
  | EvAct s s' =>
      lease_holder s' = Some me /\ same_turn s s'
  | EvDrop s s' => s' = s /\ framed d ctx s
  | EvAsk s q _ => is_store q = true /\ framed d ctx s
  end.

Definition calm_post {A} (d : N) (ctx : option ActivePermissionContext) (o : outcome A) (s : World) (h : Events) : Prop :=
  framed d ctx s /\ idle s /\ match o with Dropped => exists b h1, h = EvDrop b s :: h1 | Returned _ => True | _ => False end.

Lemma same_turn_framed d ctx s s' : same_turn s s' -> framed d ctx s -> framed d ctx s'.
Proof. intros [E1 _ E2 E3 _] [Hl Hd Hc]. unfold emission in *. constructor; unfold emission; congruence. Qed.

Lemma same_turn_idle s s' : same_turn s s' -> idle s -> idle s'.
Proof. intros [_ _ E _ _] [H1 H2 H3]. unfold emission in *. constructor; unfold emission; congruence. Qed.

Lemma wp_calm {A} (p : sprog A) d ctx s h :
  calm p -> framed d ctx s -> idle s -> wp (rely me) any_answer (calm_event d ctx) p (calm_post d ctx) s h.
Proof.
  revert s h. induction p as [a| |X f k IH|q k IH|dr k IH|X r dr k IH]; intros s h Hc Hf Hi; simpl in Hc; try done;
    intros s1 R1; assert (framed d ctx s1) as Hf1 by (by eapply framed_rely);
    assert (idle s1) as Hi1 by (eapply idle_rely; [exact R1|apply Hf|done]).
  - done.
  - destruct Hc as [Hs Hk]. specialize (Hs s1). pose proof (same_turn_framed _ _ _ _ Hs Hf1) as Hf2. split.
    + by split; [apply Hf2|].
    + apply IH; [done|done|by eapply same_turn_idle].
  - destruct Hc as [Hs Hk]. intros x _. split; [done|by apply IH].
  - destruct Hc as [Hs Hk]. rewrite Hs. split; [split; [done|by split_and!; [| |eexists _, _]]|by apply IH].
Qed.

Section Commits.
Context {al : event World Query Ans -> Events -> Prop} {d : N}.
Context (T : turn_contract al d None).
Notation twp := (wp (rely me) any_answer al).

(** What the lease rules need; a dropped commit leaves a consistent state. *)
Definition commit_allowed (save_ok : Events -> SessionRecord -> option SessionRevision -> Prop)
    (e : event World Query Ans) (h : Events) : Prop :=
  allowed false save_ok me e h /\ match e with EvDrop s _ => inv s | _ => True end.

Lemma commit_contract save_ok : lease_contract me false save_ok (commit_allowed save_ok).
Proof.
  destruct (allowed_inside false save_ok me) as [H1 H2 H3 H4 H5 H6 H7].
  constructor; unfold commit_allowed; intros; (split; [by auto|done || by match goal with Hl : leased _ _ _ |- _ => apply Hl end]).
Qed.

Definition store_post (record : SessionRecord) (edit : list Message -> list Message) (s : World) (h : Events)
    (o : outcome (result SessionRecord WorkflowAbort)) (s' : World) (h' : Events) : Prop :=
  match o with
  | Returned (Ok r) => (exists k, within me s h k s' h') /\ exists current, committed s record edit r current s' h'
  | Returned (Err _) => exists k, within me s h k s' h'
  | Dropped => True
  | _ => False
  end.

Lemma tinv_within v s h k s' h' :
  tinv d None v s h -> within me s h k s' h' -> framed d None s' -> idle s' -> tinv d None v s' h'.
Proof.
  intros [He Hl Hf Hi Hh Hp] [He' [] Hx] Hf' Hi'. constructor; try done.
  - by etrans.
  - by rewrite (extends_host _ _ _ Hx).
  - destruct Hx as (l & -> & _). by apply stored_suffix.
Qed.

Lemma twp_store (p : sprog (result SessionRecord WorkflowAbort)) record edit v s h :
  tinv d None v s h -> calm p -> turn_transcript (edit (rec_messages record)) ->
  wp (rely me) any_answer (commit_allowed (commit_save_ok engine s h record edit)) p (store_post record edit s h) s h ->
  twp p (ends (fun r s' h' => tinv d None v s' h' /\
    forall r', r = Ok r' -> rec_messages r' = edit (rec_messages record) /\
      exists saved, rec_messages saved = rec_messages r' /\
        tinv d None (View (v_host v) (saved :: v_stored v)) s' h')) s h.
Proof.
  intros Hv Hc Ht Hp. pose proof (wp_calm p d None s h Hc (ti_framed _ _ _ _ _ Hv) (ti_idle _ _ _ _ _ Hv)) as Hcalm.
  eapply wp_combine; [| |exact Hp|exact Hcalm].
  - intros e h' [Ha Hi] He. destruct e as [s1 s2|s1 q x|s1 s2]; simpl in Ha, He.
    + apply (tk_act _ _ _ T). destruct He as [Hf [_ Ed Et _ Ep]]. constructor; [apply Ha|done|done|done|].
      left. unfold emission. by rewrite Et.
    + destruct He as [Hq [Hl _ Hctx]]. apply (tk_ask _ _ _ T); [done|]. destruct q; try done.
      destruct Ha as (_ & _ & Hval & _ & current & persisted & Hcur & Hs & Hm & -> & ->). split; [done|].
      split_and!; [done| |done|by exists current, persisted].
      eapply same_session_trans; [apply Hv|]. by destruct Hs.
    + destruct He as [-> Hf]. by apply (tk_drop _ _ _ T).
  - intros [[r|e]| | |] s' h' Hs (Hf & Hi & Hd); simpl in Hs; try done.
    + destruct Hs as ([k Hw] & current & Hcm). pose proof (tinv_within _ _ _ _ _ _ Hv Hw Hf Hi) as Hv'.
      split; [done|]. intros r' [= <-]. destruct Hcm as [_ Hb Hr _ _ [persisted Hacc%replaced_accepted]]. rewrite Hr. split; [done|].
      eexists. split; [|apply (tinv_stored _ _ _ _ _ _ _ Hv' Hacc)]. done.
    + destruct Hs as [k Hw]. split; [by eapply tinv_within|done].
Qed.

Lemma twp_commit record messages mode v s h :
  tinv d None v s h -> turn_transcript (rec_messages record ++ messages) ->
  twp (commit_messages engine record messages mode) (ends (oks d None (fun r s' h' =>
    rec_messages r = rec_messages record ++ messages /\
    exists saved, rec_messages saved = rec_messages r /\
      tinv d None (View (v_host v) (saved :: v_stored v)) s' h'))) s h.
Proof.
  intros Hv Ht. eapply wp_mono; [|eapply (twp_store _ record (fun t => t ++ messages)); [exact Hv|apply calm_commit|done|]].
  - intros [[r|e]| | |] s' h'; simpl; try done; intros [Hv' Hr]; [|by exists v]. by apply Hr.
  - apply wp_commit_messages_loop with (s0 := s) (h0 := h) (k := 0); try done.
    + intros e s' h' k _ Hw. by exists k.
    + apply commit_contract.
    + intros r c s' h' k _ Hw Hc. split; [by exists k|by exists c].
    + destruct Hv as [_ [] [] _ _ _]. by constructor; [apply evolves_refl|constructor|apply extends_refl].
Qed.

Lemma twp_replace record index replacement honor v s h :
  tinv d None v s h -> turn_transcript (<[N.to_nat index := replacement]> (rec_messages record)) ->
  twp (replace_message engine record index replacement honor) (ends (fun r s' h' => tinv d None v s' h' /\
    forall r', r = Ok r' -> rec_messages r' = <[N.to_nat index := replacement]> (rec_messages record))) s h.
Proof.
  intros Hv Ht. eapply wp_mono;
    [|eapply (twp_store _ record (fun t => <[N.to_nat index := replacement]> t)); [exact Hv|apply calm_replace|done|]].
  - intros [r| | |] s' h'; simpl; try done; intros [Hv' Hr]. split; [done|]. intros r' ->. by destruct (Hr r').
  - apply wp_replace_message_loop with (s0 := s) (h0 := h) (k := 0); try done.
    + intros e s' h' k _ Hw. by exists k.
    + apply commit_contract.
    + intros r c s' h' k _ Hw _ Hc. split; [by exists k|by exists c].
    + destruct Hv as [_ [] [] _ _ _]. by constructor; [apply evolves_refl|constructor|apply extends_refl].
Qed.
End Commits.

(** ** Owned values *)
Definition good {A} (d : N) (ctx : option ActivePermissionContext) (R : A -> view -> Prop) (a : A) (s : World) (h : Events)
    : Prop := exists v, tinv d ctx v s h /\ R a v.

(** A value whose destructor [g] ends the frame [d], [ctx]. *)
Lemma twp_guarded {A} (g : World -> World) d ctx (R : A -> view -> Prop) (body : sprog (result A WorkflowAbort)) s h :
  (forall s, framed d ctx s -> inv s -> evolves s (g s) /\ framed 0 None (g s) /\ (idle s -> idle (g s)) /\
     metadata_reconciliation_required (g s) = metadata_reconciliation_required s /\ past_turns (g s) = past_turns s) ->
  wp (rely me) any_answer (drop_allowed turn_allowed g) body (ends (oks d ctx (good d ctx R))) s h ->
  wp (rely me) any_answer turn_allowed (guarded g (fun _ => false) body) (ends (oks 0 None (good 0 None R))) s h.
Proof.
  intros Hg Hb. apply wp_guarded. eapply wp_mono; [|exact Hb]. intros [r| | |] s1 h1; simpl; try done.
  - intros Hr. assert (exists v, tinv d ctx v s1 h1 /\ forall a, r = Ok a -> R a v) as (v & Hv & HR).
    { destruct r as [a|e]; destruct Hr as [v Hv]; exists v; [|done]. destruct Hv as [Hv HR]. split; [done|]. by intros ? [= <-]. }
    destruct (Hg s1 (ti_framed _ _ _ _ _ Hv) (hold_inv _ _ (ti_holding _ _ _ _ _ Hv))) as (He & Hf & Hi & Hd & Hpt).
    split; [apply turn_step_idle; [done|apply Hv|apply Hf|done|done|apply Hv|apply Hi, Hv]|].
    intros s2 R2. assert (tinv 0 None v s2 (EvAct s1 (g s1) :: h1)) as Hv2.
    { eapply tinv_rely; [exact R2|]. eapply tinv_act; [done|done|done|apply Hi, Hv|done]. }
    destruct r; simpl; exists v; [|done]. split; [done|by apply HR].
  - intros (b & h2 & ->). by eexists _, _.
Qed.

Lemma twp_deferral {A} (R : A -> view -> Prop) (body : sprog (result A WorkflowAbort)) s h :
  wp (rely me) any_answer (drop_allowed turn_allowed release_deferral) body (ends (oks 1 None (good 1 None R))) s h ->
  wp (rely me) any_answer turn_allowed (guarded release_deferral (fun _ => false) body)
    (ends (oks 0 None (good 0 None R))) s h.
Proof.
  apply twp_guarded. intros s1 [Hl Hd Hc] Hi. split_and!; [by apply set_emission_evolves| | |done|done].
  - constructor; [done| |done]. unfold release_deferral. by rewrite emission_set, Hd.
  - intros [? ? ?]. by constructor.
Qed.

Lemma twp_scope {A} c (R : A -> view -> Prop) (body : sprog (result A WorkflowAbort)) s h :
  wp (rely me) any_answer (drop_allowed turn_allowed (close_context (pc_ptr c))) body
    (ends (oks 0 (Some c) (good 0 (Some c) R))) s h ->
  wp (rely me) any_answer turn_allowed (guarded (close_context (pc_ptr c)) (fun _ => false) body)
    (ends (oks 0 None (good 0 None R))) s h.
Proof.
  apply twp_guarded. intros s1 [Hl Hd Hc] Hi.
  assert (close_context (pc_ptr c) s1 = set_permission_context s1 None (permission_contexts s1)) as E.
  { unfold close_context. by rewrite Hc, Nat.eqb_refl. }
  split; [by apply close_evolves|]. rewrite E. split_and!; [by constructor| |done|done]. intros [? ? ?]. by constructor.
Qed.

Lemma twp_defer v s h :
  tinv 0 None v s h ->
  wp (rely me) any_answer turn_allowed (act defer_cancellation)
    (ends (fun x s2 h2 => x = true /\ tinv 1 None v s2 h2 /\ exists s1 s1', h2 = EvAct s1 s1' :: h)) s h.
Proof.
  intros Hv s1 R1. pose proof (tinv_rely _ _ _ _ _ _ R1 Hv) as Hv1. pose proof Hv1 as [_ [Hi Hl _] [_ Hd Hc] [Ho Hp Ha] _ _].
  unfold defer_cancellation. rewrite Hd. change (checked_add 0 1) with (Some 1%N). cbn [fst snd].
  match goal with |- context [set_emission s1 ?e] => set (s2 := set_emission s1 e) end.
  assert (evolves s1 s2) as He by by apply set_emission_evolves.
  split; [by apply turn_step_idle|]. intros s3 R3. split; [done|]. split; [|by eexists _, _].
  eapply tinv_rely; [exact R3|]. eapply tinv_act; [done|done|by constructor|by constructor|done].
Qed.

Lemma twp_open request cursor call v s h :
  tinv 0 None v s h ->
  wp (rely me) any_answer turn_allowed (act (open_context request cursor (pending_assistant call)))
    (ends (fun ptr s2 h2 => exists c, pc_ptr c = ptr /\ tinv 0 (Some c) v s2 h2 /\
       forall s', permission_context s' = Some c -> shows request call cursor s')) s h.
Proof.
  intros Hv s1 R1. pose proof (tinv_rely _ _ _ _ _ _ R1 Hv) as Hv1. pose proof Hv1 as [_ [Hi Hl _] [_ Hd Hc] [Ho Hp Ha] _ _].
  unfold open_context. cbn [fst snd].
  match goal with |- context [set_permission_context s1 (Some ?c) ?n] => set (c0 := c); set (s2 := set_permission_context s1 (Some c0) n) end.
  assert (evolves s1 s2) as He by (apply evolves_same_data; [done..|apply Hi|simpl; congruence]).
  split; [by apply turn_step_idle|]. intros s3 R3.
  exists c0. split_and!; [done| |by intros s' Hs; eexists; exact Hs].
  eapply tinv_rely; [exact R3|]. eapply tinv_act; [done|done|by constructor|by constructor|done].
Qed.
End Turn.

#[global] Arguments twp_bind {me al A B} p c Q1 Q2.
#[global] Arguments ends me {A} Q.
#[global] Arguments twp_try {me s0 al d ctx A B} p c Q1 Q2.
#[global] Arguments twp_ret {me s0 al d ctx A} a Q.
#[global] Arguments twp_fail {me s0 al d ctx A} e Q.
#[global] Arguments twp_check {me s0 al d ctx A B} r c Q.
#[global] Arguments twp_act {H sha256 engine session_id incarnation_id turn_id me s0 base al d ctx} T {X}.
#[global] Arguments twp_get {H sha256 engine session_id incarnation_id turn_id me s0 base al d ctx} T {X}.
#[global] Arguments twp_check_cancelled {H sha256 engine session_id incarnation_id turn_id me s0 base al d ctx} T.
#[global] Arguments twp_emit_future {H sha256 engine session_id incarnation_id turn_id me s0 base al d ctx} T.
#[global] Arguments twp_emit {H sha256 engine session_id incarnation_id turn_id me s0 base al d ctx} T.
#[global] Arguments twp_modify_emission {H sha256 engine session_id incarnation_id turn_id me s0 base al d ctx} T.
#[global] Arguments twp_set_usage {H sha256 engine session_id incarnation_id turn_id me s0 base al d ctx} T.
#[global] Arguments twp_establish {H sha256 engine session_id incarnation_id turn_id me s0 base al d ctx} T.
#[global] Arguments twp_ask {H sha256 engine session_id incarnation_id turn_id me s0 base al d ctx} T.
#[global] Arguments twp_yield {H sha256 engine session_id incarnation_id turn_id me s0 base al d ctx} T {A}.
#[global] Arguments twp_await {H sha256 engine session_id incarnation_id turn_id me s0 base al d ctx} T {X}.
#[global] Arguments twp_await_cancellable {H sha256 engine session_id incarnation_id turn_id me s0 base al d ctx} T {X}.
#[global] Arguments twp_polled {H sha256 engine session_id incarnation_id turn_id me s0 base al d ctx} T {X}.
#[global] Arguments twp_commit {H sha256 engine session_id incarnation_id turn_id me s0 base al d} T.
#[global] Arguments twp_replace {H sha256 engine session_id incarnation_id turn_id me s0 base al d} T.
#[global] Arguments twp_deferral {H sha256 engine session_id incarnation_id turn_id me s0 base A} R.
#[global] Arguments twp_scope {H sha256 engine session_id incarnation_id turn_id me s0 base A} c R.
#[global] Arguments twp_defer {H sha256 engine session_id incarnation_id turn_id me s0 base} v.
#[global] Arguments twp_open {H sha256 engine session_id incarnation_id turn_id me s0 base} request cursor call v.
