(* ===== verification/StreamProofs.v ===== *)
(** * The model stream and the publication of a round

    What the variables of a turn say about its history ([turn_ok]), and the parts
    of a round before its calls run: opening the stream, reading it within the
    limits, and publishing the calls with their placeholders. *)
From S2P Require Import Prelude Ids Json Model Limits PermissionId Catalog Context Prog SessionState Emission Operations.
From S2P Require Import Workflow Sample Lease ReserveProofs CommitProofs Calm TurnRules.
From stdpp Require Import gmap.
Open Scope prog_scope.

(** ** Views *)
(** The calls that count are the same. *)
Record same_calls (v v' : view) : Prop := {
  sc_streams : streams (v_host v') = streams (v_host v);
  sc_items : items (v_host v') = items (v_host v);
  sc_prepared : prepared_ids (v_host v') = prepared_ids (v_host v);
  sc_executed : executed_ids (v_host v') = executed_ids (v_host v);
  sc_stored : v_stored v ⊆ v_stored v';
}.

Lemma same_calls_refl v : same_calls v v.
Proof. done. Qed.

Lemma same_calls_trans v1 v2 v3 : same_calls v1 v2 -> same_calls v2 v3 -> same_calls v1 v3.
Proof. intros [? ? ? ? ?] [? ? ? ? ?]. constructor; try congruence. set_solver. Qed.

(** Calls that do not count. *)
Definition neutral (q : Query) : bool :=
  match q with Q_stream _ | Q_next_item _ | Q_prepare _ _ _ | Q_execute _ _ _ _ => false | _ => true end.

Lemma same_calls_ask v s q x : neutral q = true -> same_calls v (View (EvAsk s q x :: v_host v) (v_stored v)).
Proof. intros Hq. by destruct q; constructor. Qed.

Lemma same_calls_stored v r : same_calls v (View (v_host v) (r :: v_stored v)).
Proof. constructor; try done. simpl. set_solver. Qed.
#[export] Hint Resolve same_calls_refl same_calls_ask same_calls_stored : machine.

Lemma add_within_ok used added limit code overflow exceeded total :
  add_within used added limit code overflow exceeded = Ok total ->
  total = (used + added)%N /\ (total <= limit)%N /\ (total <= U64_MAX)%N.
Proof.
  unfold add_within. intros Ha. destruct (checked_add used added) as [n|] eqn:E; [|done]. simpl in Ha.
  destruct (N.ltb_spec limit n); [done|]. simplify_eq. apply checked_add_Some in E as [-> ?]. split_and!; [done|lia|done].
Qed.

Lemma ok_or_checked_add {E} (e : E) a b n : ok_or e (checked_add a b) = Ok n -> n = (a + b)%N /\ (a + b <= U64_MAX)%N.
Proof. destruct (checked_add a b) as [m|] eqn:Em; intros [= ->]. by apply checked_add_Some. Qed.

Lemma failed_ok {A} (r : result A TurnFailure) (a : A) : failed r = Ok a -> r = Ok a.
Proof. apply map_err_ok. Qed.

(** ** The transcript of a round *)
(** The assistant's message, and one result for each call. *)
Definition assistant (text : string) (persisted : list ToolCall) : Message :=
  {| msg_role := Role_Assistant; msg_content := assistant_message_content text persisted |}.

Definition answered (text : string) (persisted : list ToolCall) (outputs : list ToolOutput) : list Message :=
  assistant text persisted :: zip_with tool_result_message (map call_id persisted) outputs.

Lemma content_calls text persisted : call_ids (assistant_message_content text persisted) = map call_id persisted.
Proof.
  unfold assistant_message_content, call_ids. rewrite omap_app. case_bool_decide; simpl;
    (induction persisted as [|c l IH]; simpl; [done|]; by f_equal).
Qed.

Lemma content_no_results text persisted :
  Forall (fun b => result_block b = false) (assistant_message_content text persisted).
Proof.
  apply Forall_app. split; [case_bool_decide; repeat constructor|]. apply Forall_forall. intros b.
  rewrite list_elem_of_fmap. by intros (c & -> & _).
Qed.

Lemma zip_results ids outputs :
  length outputs = length ids ->
  Forall tool_message (zip_with tool_result_message ids outputs) /\ results_of (zip_with tool_result_message ids outputs) = ids.
Proof.
  revert outputs. induction ids as [|id ids IH]; intros [|o outputs] E; simplify_eq/=; [done|].
  destruct (IH outputs E) as [Hf Hr]. split.
  - constructor; [|done]. by split_and!; [| |repeat constructor].
  - by rewrite Hr.
Qed.

Lemma answered_round text persisted outputs :
  persisted <> [] -> NoDup (map call_id persisted) -> length outputs = length persisted ->
  round (answered text persisted outputs).
Proof.
  intros Hne Hnd Hl. assert (length outputs = length (map call_id persisted)) as Hl' by by rewrite length_map.
  destruct (zip_results _ _ Hl') as [Hf Hr]. constructor; simpl; rewrite ?content_calls; try done.
  - apply content_no_results.
  - by destruct persisted.
  - by rewrite Hr.
Qed.

Lemma plain_answer_round text : round [assistant text []].
Proof. apply plain_round; [done|]. simpl. unfold assistant_message_content. case_bool_decide; repeat constructor. Qed.

Lemma transcript_round base prior r : turn_transcript base prior -> round r -> turn_transcript base (prior ++ r).
Proof.
  intros [Hp Hc] Hr. split; [by apply prefix_app_r|]. intros Hb. apply closed_app; [by apply Hc|].
  rewrite <-(app_nil_r r). by apply closed_cons, closed_nil.
Qed.

(** Storing the result of one call. *)
Lemma zip_insert ids outputs i id output :
  ids !! i = Some id -> length outputs = length ids ->
  <[i := tool_result_message id output]> (zip_with tool_result_message ids outputs) =
  zip_with tool_result_message ids (<[i := output]> outputs).
Proof.
  revert outputs i. induction ids as [|x l IH]; intros [|o outputs] [|i] Hi Hl; simplify_eq/=; [done|]. f_equal. by apply IH.
Qed.

Lemma answered_insert prior text persisted outputs i id output :
  map call_id persisted !! i = Some id -> length outputs = length persisted ->
  <[length prior + 1 + i := tool_result_message id output]> (prior ++ answered text persisted outputs) =
  prior ++ answered text persisted (<[i := output]> outputs).
Proof.
  intros Hi Hl. replace (length prior + 1 + i) with (length prior + S i) by lia.
  rewrite insert_app_r. simpl. f_equal. unfold answered. f_equal. apply zip_insert; [done|]. by rewrite length_map.
Qed.

(** Where a call is: after the text, if there is any. *)
Definition text_blocks (text : string) : nat := if bool_decide (text = "") then 0 else 1.

Lemma content_length text persisted :
  length (assistant_message_content text persisted) = text_blocks text + length persisted.
Proof. unfold assistant_message_content, text_blocks. rewrite length_app, length_map. by case_bool_decide. Qed.

Lemma content_lookup text persisted i :
  assistant_message_content text persisted !! (text_blocks text + i) = ContentToolCall <$> persisted !! i.
Proof.
  unfold assistant_message_content, text_blocks.
  rewrite lookup_app_r by (case_bool_decide; simpl; lia). rewrite <-list_lookup_fmap. f_equal. case_bool_decide; simpl; lia.
Qed.

Lemma answered_recorded prior text persisted outputs i call :
  persisted !! i = Some call -> length outputs = length persisted ->
  recorded (prior ++ answered text persisted outputs) (call_id call)
    (vec_len prior, (N.of_nat (text_blocks text) + N.of_nat i)%N).
Proof.
  intros Hi Hl. unfold vec_len. split; cbn [fst snd]; rewrite Nat2N.id.
  - exists (assistant text persisted), call. rewrite lookup_app_r, Nat.sub_diag by lia. split_and!; try done.
    rewrite N2Nat.inj_add, !Nat2N.id. cbn [assistant msg_content]. by rewrite content_lookup, Hi.
  - assert (is_Some (outputs !! i)) as [o Ho] by (apply lookup_lt_is_Some; rewrite Hl; by eapply lookup_lt_Some).
    exists (length prior + S i), o. split; [lia|]. rewrite lookup_app_r by lia.
    replace (length prior + S i - length prior) with (S i) by lia. simpl.
    rewrite lookup_zip_with, Ho. rewrite list_lookup_fmap, Hi. done.
Qed.

Section Stream.
Context `{JsonWriter}.
Context (sha256 : string -> string) (engine : EngineInner).
Context (session_id : SessionId) (incarnation_id : SessionIncarnationId) (turn_id : TurnId).
Context (options : InferenceOptions) (context : option ValidatedSessionContext).
Context (me : nat) (s0 : World) (base : list Message).
Context (context_ok : forall c, context = Some c -> context_wf c base).
Notation tinv := (tinv me s0).
Notation ends := (ends me).
Notation oks := (oks me s0).
Notation good := (good me s0).

(** ** The variables of a turn *)
(** They count the history: [used] are the calls prepared so far, [count] how many. *)
Record turn_ok (used : gset ToolCallId) (count : N) (t : TurnVars) (v : view) : Prop := {
  to_rounds : streams (v_host v) = N.to_nat (tv_model_rounds t);
  to_rounds_le : (tv_model_rounds t <= nz_get (max_model_rounds (limits engine)))%N;
  to_items : items (v_host v) = N.to_nat (tv_model_events t);
  to_items_le : (tv_model_events t <= nz_get (max_model_events_per_turn (limits engine)))%N;
  to_count : length (prepared_ids (v_host v)) = N.to_nat count;
  to_prepared : forall id, id ∈ prepared_ids (v_host v) -> id ∈ used;
  to_executed : forall id, id ∈ executed_ids (v_host v) -> id ∈ used;
  to_transcript : turn_transcript base (rec_messages (tv_record t));
  to_catalog : catalog_wf engine (tv_turn_tools t);
}.

Lemma turn_ok_same used count t v v' : same_calls v v' -> turn_ok used count t v -> turn_ok used count t v'.
Proof. intros [E1 E2 E3 E4 _] [? ? ? ? ? ? ? ? ?]. constructor; rewrite ?E1, ?E2, ?E3, ?E4; done. Qed.

(** The variables a round sets only at its ends. *)
Record same_counts (t t' : TurnVars) : Prop := {
  sm_rounds : tv_model_rounds t' = tv_model_rounds t;
  sm_tool_calls : tv_tool_calls t' = tv_tool_calls t;
  sm_seen : tv_seen_call_ids t' = tv_seen_call_ids t;
}.

Lemma same_counts_trans t1 t2 t3 : same_counts t1 t2 -> same_counts t2 t3 -> same_counts t1 t3.
Proof. intros [? ? ?] [? ? ?]. constructor; congruence. Qed.

(** The ids of a round's calls. *)
Definition ids_of (calls : list (ToolCall * option ToolInputLimits)) : list ToolCallId :=
  map (fun c => call_id (fst c)) calls.

(** A round that is streaming: its calls are new, distinct and within the limits. *)
Record round_ok (r : RoundVars) (v : view) : Prop := {
  ro_turn : turn_ok (tv_seen_call_ids (rv_turn r)) (tv_tool_calls (rv_turn r)) (rv_turn r) v;
  ro_ids : forall id, id ∈ rv_call_ids r <-> id ∈ ids_of (rv_calls r);
  ro_nodup : NoDup (ids_of (rv_calls r));
  ro_new : forall id, id ∈ ids_of (rv_calls r) -> id ∉ tv_seen_call_ids (rv_turn r);
  ro_calls : (vec_len (rv_calls r) <= U64_MAX)%N;
  ro_total : rv_calls r = [] \/
    (tv_tool_calls (rv_turn r) + vec_len (rv_calls r) <= nz_get (max_tool_calls_per_turn (limits engine)))%N;
}.

Lemma round_ok_same r v v' : same_calls v v' -> round_ok r v -> round_ok r v'.
Proof. intros Hs [? ? ? ? ? ?]. constructor; try done. by eapply turn_ok_same. Qed.

Section Rules.
Context {al : event World Query Ans -> Events -> Prop} {d : N}.
Context (T : turn_contract sha256 engine session_id incarnation_id turn_id me s0 base al d None).
Notation twp := (wp (rely me) any_answer al).

Lemma tinv_no_context v s h : tinv d None v s h -> permission_context s = None.
Proof. intros Hv. apply (ti_framed _ _ _ _ _ _ _ Hv). Qed.

(** A call that is always fine. *)
Lemma ask_free s q h :
  permission_context s = None ->
  match q with Q_complete_input_limits _ | Q_complete_output_limits _ => True | _ => False end ->
  ask_ok sha256 engine session_id incarnation_id turn_id s0 base s q h.
Proof. intros Hc Hq. by destruct q. Qed.

Lemma checked_act s s1 h h1 : turn_cancelled s1 = false -> h1 = EvAct s1 s1 :: h -> checked (EvAct s s :: h1) /\ checked h1.
Proof. intros Hs ->. split; exists s1, h; split; eauto. Qed.

Lemma checked_one s1 h h1 : turn_cancelled s1 = false -> h1 = EvAct s1 s1 :: h -> checked h1.
Proof. intros Hs ->. exists s1, h. eauto. Qed.

Lemma twp_lookup {B} tools name missing (c : ToolRef -> sprog (result B WorkflowAbort)) Q v s h :
  tinv d None v s h -> catalog_wf engine tools ->
  (forall tool, catalog_tool tools engine name = Some (Some tool) -> twp (c tool) (ends (oks d None Q)) s h) ->
  twp (try (lookup_tool engine tools name missing) c) (ends (oks d None Q)) s h.
Proof.
  intros Hv Hw Hc. unfold lookup_tool. destruct (catalog_tool_total _ _ name Hw) as [t E]. rewrite E.
  eapply twp_check; [done|]. intros tool Et. destruct t; simplify_eq/=. by apply Hc.
Qed.

(** ** Opening the stream *)
Lemma context_messages_total c messages :
  context_wf c messages -> exists r, context_messages c messages (limits engine) = Some r.
Proof.
  intros Hw. unfold context_messages, context_validate_limits. rewrite (view_wf _ _ Hw). simpl.
  destruct (_ <? _)%N; [simpl; by eauto|]. destruct (serialized_json_size_bounded _ _) as [[n|]|e]; [|simpl; by eauto..].
  pose proof (projected_messages_view _ _ Hw) as E. rewrite (view_wf _ _ Hw) in E.
  simpl in E. rewrite E. simpl. eauto.
Qed.

Lemma transcript_context c messages : context = Some c -> turn_transcript base messages -> context_wf c messages.
Proof. intros E [[more ->] _]. apply context_wf_app. by apply context_ok. Qed.

Lemma twp_open_stream used count t v s h :
  tinv d None v s h -> turn_ok used count t v ->
  (tv_model_rounds t + 1 <= nz_get (max_model_rounds (limits engine)))%N ->
  twp (open_stream engine session_id incarnation_id turn_id options context (set_tv_rounds t (tv_model_rounds t + 1)))
    (ends (oks d None (good d None (fun _ => turn_ok used count (set_tv_rounds t (tv_model_rounds t + 1)))))) s h.
Proof.
  intros Hv Ht Hr. unfold open_stream. eapply twp_check; [done|]. intros _ _. eapply twp_check; [done|]. intros _ _.
  eapply (twp_try _ _ (fun _ => tinv d None v)).
  { pose proof transcript_context as Hctx. unfold model_messages. destruct context as [c|]; [|by eapply twp_ret].
    destruct (context_messages_total c (rec_messages (tv_record t))) as [r Er]; [by eapply Hctx; [|apply Ht]|].
    cbn [tv_record set_tv_rounds]. rewrite Er. destruct r; cbn [map_err]; [by eapply twp_ret|by eapply twp_fail]. }
  intros messages s1 h1 Hv1. eapply twp_try; [by apply (twp_check_cancelled T)|].
  intros [] s2 h2 (Hv2 & s2' & Hc & Eh). eapply twp_bind.
  { apply (twp_ask T); [done|done|]. intros s3 Hv3 _. split; [by eapply tinv_no_context|].
    split_and!; [by eapply checked_one| |done..].
    rewrite <-streams_host, (ti_host _ _ _ _ _ _ _ Hv2), (to_rounds _ _ _ _ Ht). lia. }
  intros f s3 h3 (s3' & -> & _ & Hv3). eapply twp_try; [by apply (twp_await_cancellable T)|].
  intros x s4 h4 (-> & Hv4). destruct (snd f); simpl map_err; [|by eapply twp_fail].
  eapply twp_ret; [done|]. intros s5 _ Hv5. eexists. split; [exact Hv5|].
  destruct Ht as [H1 H2 H3 H4 H5 H6 H7 H8 H9]. constructor; try done.
  - change (S (streams (v_host v)) = N.to_nat (tv_model_rounds t + 1)). rewrite H1. lia.
Qed.

(** ** Reading it *)
Lemma twp_next_item stream v s h :
  tinv d None v s h -> items (v_host v) <= N.to_nat (nz_get (max_model_events_per_turn (limits engine))) ->
  twp (next_model_item stream) (ends (oks d None (fun item s' h' => exists s1 x,
    tinv d None (View (EvAsk s1 (Q_next_item stream) x :: v_host v) (v_stored v)) s' h' /\ item = snd x))) s h.
Proof.
  intros Hv Hi. eapply twp_try; [by apply (twp_check_cancelled T)|]. intros [] s1 h1 (Hv1 & s1' & Hc & Eh). eapply twp_bind.
  { apply (twp_ask T); [done|done|]. intros s2 Hv2 _. split; [by eapply tinv_no_context|].
    split; [by eapply checked_one|]. by rewrite <-items_host, (ti_host _ _ _ _ _ _ _ Hv1). }
  intros f s2 h2 (s2' & -> & _ & Hv2). eapply wp_mono; [|by apply (twp_polled T)].
  intros [[x|e]| | |] s3 h3; simpl; try done. intros [-> Hv3]. eauto.
Qed.

Lemma twp_admit_call r call v s h :
  tinv d None v s h -> round_ok r v ->
  twp (admit_call engine r call) (ends (oks d None (good d None (fun r' v' => round_ok r' v' /\
    tv_model_events (rv_turn r') = tv_model_events (rv_turn r) /\ same_counts (rv_turn r) (rv_turn r'))))) s h.
Proof.
  intros Hv Hr. pose proof Hr as [Ht Hids Hnd Hnew Hlen Htot]. unfold admit_call.
  eapply twp_check; [done|]. intros round_count (-> & _ & Hmax)%add_within_ok.
  eapply twp_check; [done|]. intros turn_count (-> & Hturn & _)%add_within_ok.
  destruct (bool_decide_reflect (call_id call ∈ tv_seen_call_ids (rv_turn r))) as [|Hseen]; [by eapply twp_fail|].
  destruct (bool_decide_reflect (call_id call ∈ rv_call_ids r)) as [|Hround]; cbn [orb]; [by eapply twp_fail|].
  eapply twp_lookup; [done|apply Ht|]. intros tool _. eapply twp_bind.
  { apply (twp_ask T); [done|done|]. intros s1 Hv1 _. apply ask_free; [by eapply tinv_no_context|done]. }
  intros input s1 h1 (s1' & -> & _ & Hv1). eapply twp_check; [done|]. intros [bytes nodes] _.
  eapply twp_check; [done|]. intros totals _. eapply twp_ret; [done|]. intros s2 _ Hv2.
  eexists. split; [exact Hv2|]. split; [|by split].
  assert (ids_of (rv_calls r ++ [(call, input)]) = ids_of (rv_calls r) ++ [call_id call]) as Ei
    by (unfold ids_of; by rewrite map_app).
  constructor; cbn [rv_turn rv_calls rv_call_ids]; rewrite ?Ei, ?vec_len_app.
  - eapply turn_ok_same; [by apply same_calls_ask|]. destruct Ht. by constructor.
  - intros id. rewrite elem_of_union, elem_of_singleton, elem_of_app, list_elem_of_singleton, Hids. tauto.
  - apply NoDup_app. split_and!; [done| |apply NoDup_singleton]. intros id Hin ->%list_elem_of_singleton. by apply Hround, Hids.
  - intros id. simpl. rewrite elem_of_app, list_elem_of_singleton. intros [?| ->]; [by apply Hnew|done].
  - done.
  - right. simpl in *. change (vec_len [(call, input)]) with 1%N. lia.
Qed.

Lemma twp_stream_event r event v s h :
  tinv d None v s h -> round_ok r v -> (forall reason, event <> ModelStop reason) ->
  twp (stream_event engine r event) (ends (oks d None (good d None (fun r' v' => round_ok r' v' /\
    tv_model_events (rv_turn r') = tv_model_events (rv_turn r) /\ same_counts (rv_turn r) (rv_turn r'))))) s h.
Proof.
  intros Hv Hr Hns. pose proof Hr as [Ht ? ? ? ? ?]. destruct event as [text|text|call|usage|reason]; cbn [stream_event].
  - eapply twp_check; [done|]. intros bytes _. eapply twp_ret; [done|]. intros s1 _ Hv1. exists v. split; [done|].
    split; [|by split]. constructor; try done. destruct Ht. by constructor.
  - eapply twp_check; [done|]. intros bytes _. eapply twp_ret; [done|]. intros s1 _ Hv1. exists v. split; [done|].
    split; [|by split]. constructor; try done. destruct Ht. by constructor.
  - by eapply twp_admit_call.
  - eapply twp_check; [done|]. intros total _. eapply twp_bind; [by apply (twp_set_usage T)|]. intros [] s1 h1 Hv1.
    eapply twp_ret; [done|]. intros s2 _ Hv2. exists v. split; [done|]. by split_and!; [constructor|..].
  - by destruct (Hns reason).
Qed.

(** The stream ends within its fuel: every item is counted against the limit. *)
Lemma twp_stream_loop stream n : forall r v s h,
  tinv d None v s h -> round_ok r v ->
  N.to_nat (nz_get (max_model_events_per_turn (limits engine))) < n + N.to_nat (tv_model_events (rv_turn r)) ->
  twp (stream_loop engine n stream r) (ends (oks d None (good d None (fun x v' => round_ok (snd x) v' /\ same_counts (rv_turn r) (rv_turn (snd x)))))) s h.
Proof.
  induction n as [|n IH]; intros r v s h Hv Hr Hn; pose proof Hr as [Ht ? ? ? ? ?]; pose proof (to_items_le _ _ _ _ Ht).
  { exfalso. lia. }
  cbn [stream_loop]. eapply twp_try; [apply twp_next_item; [done|rewrite (to_items _ _ _ _ Ht); lia]|].
  intros item s1 h1 (s1' & x & Hv1 & ->). destruct (snd x) as [item|] eqn:Ex; [|by eapply twp_fail].
  eapply twp_check; [done|]. intros events (-> & Hle & _)%add_within_ok.
  set (t := rv_turn r) in *. cbv zeta.
  set (r1 := Build_RoundVars (set_tv_stream t (tv_model_events t + 1) (tv_complete_argument_bytes t)
    (tv_complete_argument_nodes t) (tv_assistant_bytes t) (tv_reasoning_bytes t)) (rv_text r) (rv_calls r) (rv_call_ids r) (rv_usage r)).
  match type of Hv1 with TurnRules.tinv _ _ _ _ ?w _ _ => set (v1 := w) in * end.
  assert (round_ok r1 v1) as Hr1.
  { constructor; try done. destruct Ht as [G1 G2 G3 G4 G5 G6 G7 G8 G9]. constructor; try done.
    cbn [v_host v1 r1 rv_turn set_tv_stream tv_model_events]. rewrite items_item, Ex, G3. lia. }
  assert (forall event, (forall reason, event <> ModelStop reason) ->
    twp (do? r <- stream_event engine r1 event; do _ <- emit (ModelItem event); stream_loop engine n stream r)
      (ends (oks d None (good d None (fun x v' => round_ok (snd x) v' /\ same_counts (rv_turn r) (rv_turn (snd x)))))) s1 h1) as Hevent.
  { intros event Hns. eapply twp_try; [by eapply twp_stream_event|]. intros r2 s2 h2 (v2 & Hv2 & Hr2 & Ev2 & Hc2).
    eapply twp_bind; [by apply (twp_emit T)|]. intros [] s3 h3 Hv3.
    eapply wp_mono; [|eapply (IH r2); [done|done|rewrite Ev2; simpl; lia]].
    intros [[y|e]| | |] s4 h4; simpl; try done. intros (v4 & Hv4 & Hr4 & Hc4). exists v4. split_and!; try done.
    eapply same_counts_trans; [|exact Hc4]. by destruct Hc2. }
  destruct item as [event|error]; [|by eapply twp_fail].
  destruct event as [text|text|call|usage|reason]; [by apply Hevent..|]. eapply twp_check; [done|]. intros _ _.
  eapply twp_ret; [done|]. intros s2 _ Hv2. by exists v1.
Qed.

(** ** Publishing the calls *)
Lemma twp_persist_calls tools calls : forall v s h,
  tinv d None v s h -> catalog_wf engine tools ->
  twp (persist_calls engine session_id incarnation_id turn_id tools calls)
    (ends (oks d None (good d None (fun persisted v' => same_calls v v' /\ map call_id persisted = ids_of calls)))) s h.
Proof.
  induction calls as [|[call input] calls IH]; intros v s h Hv Hc; cbn [persist_calls].
  { eapply twp_ret; [done|]. intros s1 _ Hv1. by exists v. }
  eapply twp_try; [by apply (twp_check_cancelled T)|]. intros [] s1 h1 (Hv1 & s1' & Hs1 & Eh).
  eapply twp_lookup; [done|done|]. intros tool _. eapply twp_bind.
  { apply (twp_ask T); [done|done|]. intros s2 Hv2 _. split; [by eapply tinv_no_context|]. by eapply checked_one. }
  intros f s2 h2 (s2' & -> & _ & Hv2). eapply twp_try; [by apply (twp_await_cancellable T)|].
  intros x s3 h3 (-> & Hv3). eapply twp_check; [done|]. intros projection _. eapply twp_check; [done|]. intros arguments _.
  eapply twp_try; [by eapply IH|]. intros persisted s4 h4 (v4 & Hv4 & Hs4 & Ep). eapply twp_ret; [done|]. intros s5 _ Hv5.
  exists v4. split; [done|]. split; [|by simpl; rewrite Ep]. eapply same_calls_trans; [|exact Hs4]. by apply same_calls_ask.
Qed.
End Rules.

(** A round whose calls are published: the committed transcript ends with the
    round, its calls are at the place, and the store accepted it. *)
Record round_at (t : TurnVars) (place : RoundPlace) (calls : list (ToolCall * option ToolInputLimits)) (v : view)
    (prior : list Message) (text : string) (persisted : list ToolCall) (outputs : list ToolOutput) : Prop := {
  ra_messages : rec_messages (tv_record t) = prior ++ answered text persisted outputs;
  ra_calls : map call_id persisted = ids_of calls;
  ra_some : persisted <> [];
  ra_outputs : length outputs = length persisted;
  ra_nodup : NoDup (ids_of calls);
  ra_prior : turn_transcript base prior;
  ra_start : placeholder_start place = (vec_len prior + 1)%N;
  ra_message : source_message place = vec_len prior;
  ra_block : source_block_start place = N.of_nat (text_blocks text);
  ra_bound : (vec_len calls <= U64_MAX)%N;
  ra_saved : exists saved outputs', saved ∈ v_stored v /\ length outputs' = length persisted /\
    rec_messages saved = prior ++ answered text persisted outputs';
}.

Lemma round_at_same t place calls v v' prior text persisted outputs :
  v_stored v ⊆ v_stored v' -> round_at t place calls v prior text persisted outputs ->
  round_at t place calls v' prior text persisted outputs.
Proof. intros Hs [? ? ? ? ? ? ? ? ? ? (saved & o & Hin & ?)]. constructor; try done. exists saved, o. split; [by apply Hs|done]. Qed.

(** Every call of the round is published where its place says. *)
Lemma round_at_published d ctx t place calls v prior text persisted outputs i call input s h :
  round_at t place calls v prior text persisted outputs -> tinv d ctx v s h -> calls !! i = Some (call, input) ->
  published h (call_id call) (source_message place, (source_block_start place + N.of_nat i)%N).
Proof.
  intros Hr Hv Hi. destruct (ra_saved _ _ _ _ _ _ _ _ Hr) as (saved & o & Hin & Ho & Em).
  assert (map call_id persisted !! i = Some (call_id call)) as Hp.
  { rewrite (ra_calls _ _ _ _ _ _ _ _ Hr). unfold ids_of. by rewrite list_lookup_fmap, Hi. }
  apply list_lookup_fmap_Some in Hp as (pcall & Ep & Hp).
  eapply tinv_published; [exact Hv|exact Hin|]. rewrite Em, Ep, (ra_message _ _ _ _ _ _ _ _ Hr), (ra_block _ _ _ _ _ _ _ _ Hr).
  by apply answered_recorded.
Qed.

(** Storing a result keeps the transcript closed and the round in place. *)
Lemma round_at_store t place calls v prior text persisted outputs i call input output :
  round_at t place calls v prior text persisted outputs -> calls !! i = Some (call, input) ->
  let messages := <[N.to_nat (placeholder_start place + N.of_nat i) := tool_result_message (call_id call) output]>
    (rec_messages (tv_record t)) in
  turn_transcript base messages /\
  forall record result_bytes complete_bytes tools, rec_messages record = messages ->
    round_at (set_tv_record t record result_bytes complete_bytes tools) place calls v prior text persisted
      (<[i := output]> outputs).
Proof.
  intros Hr Hi. cbv zeta. pose proof Hr as [Em Ec Hne Ho Hnd Hp Hst _ _ _ _].
  assert (map call_id persisted !! i = Some (call_id call)) as Hid.
  { rewrite Ec. unfold ids_of. by rewrite list_lookup_fmap, Hi. }
  rewrite Em, Hst. replace (N.to_nat _) with (length prior + 1 + i) by (unfold vec_len; lia).
  rewrite answered_insert by done.
  assert (length (<[i := output]> outputs) = length persisted) as Hl by by rewrite length_insert.
  split; [apply transcript_round; [done|apply answered_round; [done|by rewrite Ec|done]]|].
  intros record rb cb tools Er. destruct Hr. by constructor.
Qed.

Lemma round_messages_answered text persisted calls :
  map call_id persisted = ids_of calls ->
  round_messages text persisted calls = answered text persisted (replicate (length persisted) unknown_tool_result).
Proof.
  intros E. unfold round_messages, answered, assistant. f_equal. rewrite E.
  replace (length persisted) with (length (ids_of calls)) by (by rewrite <-E, length_map).
  unfold ids_of. clear E. induction calls as [|c l IH]; simpl; [done|]. by f_equal.
Qed.

Lemma round_place_answered record prior text persisted outputs bytes calls :
  rec_messages record = prior ++ answered text persisted outputs -> vec_len persisted = calls ->
  round_place record (vec_len prior + 1) bytes calls = Some
    {| placeholder_start := vec_len prior + 1; placeholder_bytes := bytes; source_message := vec_len prior;
       source_block_start := N.of_nat (text_blocks text) |}.
Proof.
  intros Em <-. unfold round_place. rewrite N.add_sub, Em.
  assert ((prior ++ answered text persisted outputs) !! N.to_nat (vec_len prior) = Some (assistant text persisted)) as ->.
  { unfold vec_len. by rewrite Nat2N.id, lookup_app_r, Nat.sub_diag by lia. }
  cbn [mbind option_bind].
  assert (checked_sub (vec_len (msg_content (assistant text persisted))) (vec_len persisted)
    = Some (N.of_nat (text_blocks text))) as ->; [|done].
  apply checked_sub_Some. unfold vec_len. cbn [assistant msg_content]. rewrite content_length. lia.
Qed.

Section Publish.
Context {al : event World Query Ans -> Events -> Prop} {d : N}.
Context (T : turn_contract sha256 engine session_id incarnation_id turn_id me s0 base al d None).
Notation twp := (wp (rely me) any_answer al).

Lemma twp_publish_round used count t text calls stop_reason v s h :
  tinv d None v s h -> turn_ok used count t v -> calls <> [] -> NoDup (ids_of calls) -> (vec_len calls <= U64_MAX)%N ->
  twp (publish_round engine session_id incarnation_id turn_id t text calls stop_reason)
    (ends (oks d None (good d None (fun x v' => turn_ok used count (fst x) v' /\
       same_counts t (fst x) /\
       exists prior persisted outputs, round_at (fst x) (snd x) calls v' prior text persisted outputs)))) s h.
Proof.
  intros Hv Ht Hne Hnd Hlen. unfold publish_round. eapply twp_check; [done|]. intros [bytes cumulative] _.
  eapply twp_bind; [by apply (twp_emit T)|]. intros [] s1 h1 Hv1.
  eapply twp_try; [apply (twp_persist_calls T); [exact Hv1|apply Ht]|]. intros persisted s2 h2 (v2 & Hv2 & Hs2 & Ep).
  eapply twp_check; [done|]. intros start [-> _]%ok_or_checked_add.
  assert (persisted <> []) as Hpne by (intros ->; by destruct calls).
  pose proof (turn_ok_same _ _ _ _ _ Hs2 Ht) as Ht2. pose proof (to_transcript _ _ _ _ Ht2) as Htr.
  pose proof (round_messages_answered text persisted calls Ep) as Erm. rewrite Erm.
  assert (round (answered text persisted (replicate (length persisted) unknown_tool_result))) as Hround.
  { apply answered_round; [done|by rewrite Ep|by rewrite length_replicate]. }
  eapply twp_try; [apply (twp_commit T); [exact Hv2|by apply transcript_round]|].
  intros record s3 h3 (Em & saved & Esv & Hv3).
  assert (length persisted = length calls) as Elen by (rewrite <-(length_map call_id), Ep; apply length_map).
  rewrite (round_place_answered _ _ _ _ _ bytes (vec_len calls) Em) by (unfold vec_len; by rewrite Elen).
  eapply twp_ret; [exact Hv3|]. intros s4 _ Hv4. eexists. split; [exact Hv4|]. cbn [fst snd]. split_and!; [|done|].
  - destruct Ht2. constructor; try done. cbn [tv_record set_tv_record]. rewrite Em. by apply transcript_round.
  - exists (rec_messages (tv_record t)), persisted, (replicate (length persisted) unknown_tool_result).
    constructor; try done; [by rewrite length_replicate|]. exists saved, (replicate (length persisted) unknown_tool_result).
    split_and!; [by left|by rewrite length_replicate|congruence].
Qed.
End Publish.
End Stream.
