(* ===== verification/WorkflowProofs.v ===== *)
(** * The turn workflow is correct

    The calls of a round, from preparation to settlement, the rounds, and the
    whole turn: every execution is cleared and published, every loop ends within
    its limits, nothing panics, and the transcript stays closed. *)
From S2P Require Import Prelude Ids Json Model Limits PermissionId Catalog Context Prog SessionState Emission Operations.
From S2P Require Import Workflow Sample Lease ReserveProofs CommitProofs Calm TurnRules StreamProofs.
From stdpp Require Import gmap.
Open Scope prog_scope.

Section Calls.
Context `{JsonWriter}.
Context (sha256 : string -> string) (engine : EngineInner).
Context (session_id : SessionId) (incarnation_id : SessionIncarnationId) (turn_id : TurnId).
Context (options : InferenceOptions) (context : option ValidatedSessionContext).
Context (me : nat) (s0 : World) (base : list Message).
Notation tinv := (tinv me s0).
Notation ends := (ends me).
Notation oks := (oks me s0).
Notation good := (good me s0).
Notation contract := (turn_contract sha256 engine session_id incarnation_id turn_id me s0 base).
Notation turn_allowed := (turn_allowed sha256 engine session_id incarnation_id turn_id me s0 base).
Notation turn_ok := (turn_ok engine base).
Notation round_at := (round_at base).
Notation tool_context := (tool_context session_id incarnation_id turn_id).

(** ** Settling a result *)
Section Settle.
Context {al : event World Query Ans -> Events -> Prop} {d : N}.
Context (T : contract al d None).
Notation twp := (wp (rely me) any_answer al).

Lemma twp_establish_and_fail {A} e (Q : A -> World -> Events -> Prop) v s h :
  tinv d None v s h -> twp (establish_and_fail e) (ends (oks d None Q)) s h.
Proof. intros Hv. eapply twp_bind; [by apply (twp_establish T)|]. intros [] s1 h1 [Hv1 _]. by eapply twp_fail. Qed.

Lemma twp_or_establish {A} (r : result A TurnFailure) v s h :
  tinv d None v s h -> twp (or_establish r) (ends (oks d None (fun a s' h' => r = Ok a /\ tinv d None v s' h'))) s h.
Proof. intros Hv. destruct r; simpl or_establish; [by eapply twp_ret|by eapply twp_establish_and_fail]. Qed.

Lemma twp_establish_if_deferred {A} deferred e (Q : A -> World -> Events -> Prop) v s h :
  tinv d None v s h -> twp (establish_if_deferred deferred e) (ends (oks d None Q)) s h.
Proof. intros Hv. destruct deferred; [by eapply twp_establish_and_fail|by eapply twp_fail]. Qed.

(** The checks of a result: a registration they admit can be inserted. *)
Lemma twp_check_result deferred t place tool c v s h :
  tinv d None v s h -> catalog_wf engine (tv_turn_tools t) ->
  twp (check_result engine deferred t place tool c) (ends (oks d None (good d None (fun x v' => same_calls v v' /\
    (snd x = true -> exists registration, cr_next_round_tool c = Some registration /\
       validate_registration (tv_turn_tools t) engine registration (limits engine) = Some (Ok true)))))) s h.
Proof.
  intros Hv Hc. unfold check_result.
  eapply (twp_try _ _ (fun _ s' h' => exists v', tinv d None v' s' h' /\ same_calls v v')).
  { destruct (cr_complete_output c) as [complete|].
    - eapply twp_bind.
      { apply (twp_ask T); [done|done|]. intros s1 Hv1 _. apply ask_free; [by eapply tinv_no_context|done]. }
      intros l s1 h1 (s1' & -> & _ & Hv1). eapply wp_mono; [|by apply twp_or_establish].
      intros [[x|e]| | |] s2 h2; simpl; try done. intros [_ Hv2]. eexists. split; [exact Hv2|by apply same_calls_ask].
    - eapply twp_ret; [done|]. intros s1 _ Hv1. by exists v. }
  intros complete s1 h1 (v1 & Hv1 & Hs1). eapply twp_try; [by apply twp_or_establish|]. intros _ s2 h2 [_ Hv2].
  eapply twp_check; [done|]. intros size _. eapply twp_try; [by apply twp_or_establish|]. intros bytes s3 h3 [_ Hv3].
  eapply (twp_try _ _ (fun insert s' h' => tinv d None v1 s' h' /\ (insert = true ->
    exists registration, cr_next_round_tool c = Some registration /\
      validate_registration (tv_turn_tools t) engine registration (limits engine) = Some (Ok true)))).
  { destruct (cr_next_round_tool c) as [registration|]; [|by eapply twp_ret].
    destruct (output_is_error _); [by eapply twp_establish_and_fail|].
    destruct (validate_registration_total engine (tv_turn_tools t) registration (limits engine) Hc) as [r Er]. rewrite Er.
    destruct r as [insert|failure]; [|by eapply twp_establish_if_deferred].
    eapply twp_ret; [done|]. intros s4 _ Hv4. split; [done|]. intros ->. by exists registration. }
  intros insert s4 h4 [Hv4 Hi]. eapply twp_ret; [done|]. intros s5 _ Hv5. by exists v1.
Qed.

(** A settled call: its result is stored in place of its placeholder. *)
Lemma twp_settle_call deferred used count t place calls i tool call input c v prior text persisted outputs s h :
  tinv d None v s h -> turn_ok used count t v -> round_at t place calls v prior text persisted outputs ->
  calls !! i = Some (call, input) ->
  twp (settle_call engine deferred t place (N.of_nat i) tool (call_id call) c)
    (ends (oks d None (good d None (fun t' v' => turn_ok used count t' v' /\ same_counts t t' /\
       executed_ids (v_host v') = executed_ids (v_host v) /\
       exists outputs', round_at t' place calls v' prior text persisted outputs')))) s h.
Proof.
  intros Hv Ht Hr Hi. unfold settle_call. eapply twp_try; [apply twp_check_result; [done|apply Ht]|].
  intros [[rb cb] insert] s1 h1 (v1 & Hv1 & Hs1 & Hins). cbn [snd] in Hins.
  eapply twp_check; [done|]. intros index [-> _]%ok_or_checked_add.
  pose proof (round_at_same _ _ _ _ _ _ _ _ _ _ (sc_stored _ _ Hs1) Hr) as Hr1.
  destruct (round_at_store _ _ _ _ _ _ _ _ _ _ _ _ (cr_output c) Hr1 Hi) as [Htr Hnext].
  eapply twp_bind; [apply (twp_replace T); [exact Hv1|exact Htr]|]. intros [record|error] s2 h2 [Hv2 Hrec];
    [|by eapply twp_establish_if_deferred].
  specialize (Hrec record eq_refl). pose proof (turn_ok_same _ _ _ _ _ _ _ Hs1 Ht) as Ht1.
  assert (exists tools, (if insert then registration ← cr_next_round_tool c; catalog_insert (tv_turn_tools t) registration
    else Some (tv_turn_tools t)) = Some tools /\ catalog_wf engine tools) as (tools & Etools & Hwf).
  { destruct insert; [|by eexists; split; [|apply Ht]]. destruct (Hins eq_refl) as (reg & -> & Hval).
    destruct (validated_insert _ _ _ _ (to_catalog _ _ _ _ _ _ Ht) Hval) as (tools & E & Hw & _). by exists tools. }
  rewrite Etools. eapply (twp_bind _ _ (fun _ => tinv d None v1)).
  { destruct (cr_emit_finished c); [by apply (twp_emit T)|by eapply twp_ret]. }
  intros _ s3 h3 Hv3. eapply twp_ret; [done|]. intros s4 _ Hv4. exists v1. split; [done|].
  split_and!; [|done|by apply Hs1|by eexists; apply Hnext].
  destruct Ht1. constructor; try done. cbn [tv_record set_tv_record]. by rewrite Hrec.
Qed.

(** ** Starting an execution *)
(** What must be known to execute: the execution is cleared once it is admitted. *)
Definition granted (tool : ToolRef) (call : ToolCall) (arguments : Value) (admission : option N) (v : view) : Prop :=
  match admission with
  | None => cleared tool (tool_context (call_id call)) call arguments (v_host v)
  | Some a =>
      (exists s1 request invocation polls scope, List.head (v_host v) = Some (EvAsk s1 (Q_authorize request invocation)
         (polls, Ok {| auth_decision := Allow scope; auth_admission := Some a |}))) /\
      forall s, cleared tool (tool_context (call_id call)) call arguments (EvAsk s (Q_admit a) (Ok tt) :: v_host v)
  end.

(** What an execution changes in the view. *)
Definition executes (id : ToolCallId) (v v' : view) : Prop :=
  streams (v_host v') = streams (v_host v) /\ items (v_host v') = items (v_host v) /\
  prepared_ids (v_host v') = prepared_ids (v_host v) /\
  executed_ids (v_host v') = id :: executed_ids (v_host v) /\ v_stored v' = v_stored v.

Lemma twp_execute_ask tool call arguments cursor v s h :
  tinv d None v s h -> cleared tool (tool_context (call_id call)) call arguments (v_host v) -> checked h ->
  call_id call ∉ executed_ids (v_host v) -> published h (call_id call) cursor ->
  twp (do f <- ask (Q_execute tool (tool_context (call_id call)) (call_name call) arguments); Ret (Ok f))
    (ends (oks d None (good d None (fun _ v' => executes (call_id call) v v')))) s h.
Proof.
  intros Hv Hcl Hchk Hnew Hpub. eapply twp_bind.
  - apply (twp_ask T); [done|done|]. intros s1 Hv1 _. split; [by eapply tinv_no_context|]. split_and!; [done| |].
    + by rewrite <-executed_host, (ti_host _ _ _ _ _ _ _ Hv1).
    + exists call, cursor. by rewrite (ti_host _ _ _ _ _ _ _ Hv1).
  - intros f s1 h1 (s1' & -> & _ & Hv1). eapply twp_ret; [done|]. intros s2 _ Hv2. eexists. split; [exact Hv2|].
    by split_and!.
Qed.

Lemma twp_execution_start admission tool call arguments r cursor v s h :
  tinv d None v s h -> granted tool call arguments admission v -> (admission = None -> checked h) ->
  call_id call ∉ executed_ids (v_host v) -> r ∈ v_stored v -> recorded (rec_messages r) (call_id call) cursor ->
  twp (execution_start admission tool (tool_context (call_id call)) (call_name call) arguments)
    (ends (oks d None (good d None (fun _ v' => executes (call_id call) v v')))) s h.
Proof.
  intros Hv Hg Hchk Hnew Hin Hrec. unfold execution_start. destruct admission as [a|].
  2:{ eapply twp_execute_ask; [done|done|by apply Hchk|done|by eapply tinv_published]. }
  destruct Hg as [Hauth Hcl].
  eapply (twp_try _ _ (fun _ s' h' => exists s2, tinv d None (View (EvAsk s2 (Q_admit a) (Ok tt) :: v_host v) (v_stored v)) s' h' /\ checked h')).
  - eapply twp_try; [by apply (twp_check_cancelled T)|]. intros [] s1 h1 (Hv1 & s1' & Hs1 & Eh1). eapply twp_bind.
    { apply (twp_ask T); [done|done|]. intros s2 Hv2 _. split; [by eapply tinv_no_context|].
      split; [by eapply checked_one|]. by rewrite (ti_host _ _ _ _ _ _ _ Hv2). }
    intros admitted s2 h2 (s2' & -> & _ & Hv2). eapply twp_check; [done|]. intros [] ->%map_err_ok.
    eapply wp_mono; [|by apply (twp_check_cancelled T)]. intros [[[]|e]| | |] s3 h3; simpl; try done.
    intros (Hv3 & s3' & Hs3 & Eh3). exists s2'. split; [done|by eapply checked_one].
  - intros _ s3 h3 (s2 & Hv3 & Hchk3). eapply wp_mono;
      [|eapply twp_execute_ask; [exact Hv3|apply Hcl|done|done|by eapply tinv_published; [exact Hv3|..]]].
    by intros [[f|e]| | |] s4 h4.
Qed.

(** The two ways of awaiting it. *)
Lemma twp_cancellable_execution start id v s h :
  tinv d None v s h ->
  (forall s h, tinv d None v s h -> checked h ->
     twp start (ends (oks d None (good d None (fun _ v' => executes id v v')))) s h) ->
  twp (await_cancellable_execution start) (ends (oks d None (good d None (fun _ v' => executes id v v')))) s h.
Proof.
  intros Hv Hst. eapply twp_try; [by apply (twp_check_cancelled T)|]. intros [] s1 h1 (Hv1 & s1' & Hs1 & Eh1).
  eapply twp_bind; [apply Hst; [done|by eapply checked_one]|]. intros [f|e] s2 h2; cbn [TurnRules.oks].
  - intros (v2 & Hv2 & He). eapply wp_mono; [|by apply (twp_polled T)]. intros [[x|e]| | |] s3 h3; simpl; try done.
    intros [_ Hv3]. by exists v2.
  - intros [v2 Hv2]. eapply twp_try; [by apply (twp_check_cancelled T)|]. intros [] s3 h3 [Hv3 _]. by eapply twp_fail.
Qed.

Lemma twp_deferred_execution start id v s h :
  twp start (ends (oks d None (good d None (fun _ v' => executes id v v')))) s h ->
  twp (await_deferred_execution start) (ends (oks d None (good d None (fun _ v' => executes id v v')))) s h.
Proof.
  intros Hst. eapply twp_try; [exact Hst|]. intros f s1 h1 (v1 & Hv1 & He). eapply twp_bind; [by apply (twp_await T)|].
  intros x s2 h2 [_ Hv2]. eapply twp_ret; [done|]. intros s3 _ Hv3. by exists v1.
Qed.
End Settle.

(** ** Authorization *)
Notation T0 := (turn_allowed_contract sha256 engine session_id incarnation_id turn_id me s0 base).
Notation twp := (wp (rely me) any_answer turn_allowed).

Lemma bounded_allowed decision : is_denial (bounded_decision engine decision) = false -> exists scope, decision = Allow scope.
Proof. destruct decision; [by eauto|done]. Qed.

Lemma ordinal_ok (code : WorkflowAbort) a i n :
  ok_or code (index ← checked_add a i; checked_add index 1) = Ok n -> n = (a + i + 1)%N.
Proof.
  destruct (checked_add a i) as [x|] eqn:E; [|done]. apply checked_add_Some in E as [-> _]. simpl.
  intros [-> _]%ok_or_checked_add. done.
Qed.

Lemma block_index_ok t place calls v prior text persisted outputs i call input :
  round_at t place calls v prior text persisted outputs -> calls !! i = Some (call, input) ->
  checked_add (source_block_start place) (N.of_nat i) = Some (source_block_start place + N.of_nat i)%N.
Proof.
  intros Hr Hi%lookup_lt_Some. apply checked_add_Some. split; [done|].
  rewrite (ra_block _ _ _ _ _ _ _ _ _ Hr). pose proof (ra_bound _ _ _ _ _ _ _ _ _ Hr) as Hb. unfold vec_len in Hb.
  unfold text_blocks. case_bool_decide; lia.
Qed.

(** The request shown to the handler, and asked of it. *)
Lemma twp_ask_authorize c tool call prepared capability request v tail s1 cursor s h :
  tinv 0 (Some c) v s h ->
  v_host v = EvAsk s1 (Q_prepare tool (tool_context (call_id call)) call) (Ok prepared) :: tail ->
  prepared_authorization prepared = PermissionRequired capability ->
  permission_request_id sha256 session_id incarnation_id turn_id (N.of_nat (length (prepared_ids (v_host v)))) = Ok (pr_id request) ->
  pr_capability request = capability -> pr_session_id request = session_id ->
  pr_session_incarnation_id request = incarnation_id -> pr_turn_id request = turn_id ->
  published h (call_id call) cursor -> (forall s', permission_context s' = Some c -> shows request call cursor s') ->
  wp (rely me) any_answer (drop_allowed turn_allowed (close_context (pc_ptr c)))
    (do f <- ask (Q_authorize request {| inv_tool_name := call_name call; inv_call_id := call_id call;
                                         inv_arguments := prepared_arguments prepared |});
     do? answer <- await_cancellable f;
     Ret (map_err (fun e => AbortFailed (TurnFailure_permission e)) answer))
    (ends (oks 0 (Some c) (good 0 (Some c) (fun authorization v' => exists s2 polls, v' = View
       (EvAsk s2 (Q_authorize request {| inv_tool_name := call_name call; inv_call_id := call_id call;
          inv_arguments := prepared_arguments prepared |}) (polls, Ok authorization) :: v_host v) (v_stored v))))) s h.
Proof.
  intros Hv Ev Hauth Hid <- E1 E2 E3 Hpub Hshow.
  pose proof (scope_contract sha256 engine session_id incarnation_id turn_id me s0 base c) as T. eapply twp_bind.
  { apply (twp_ask T); [done|done|]. intros s2 Hv2 _. split; [|done].
    exists s1, tool, (tool_context (call_id call)), call, prepared, cursor. rewrite (ti_host _ _ _ _ _ _ _ Hv2).
    split_and!; try done; [by rewrite Ev|rewrite <-prepared_host, (ti_host _ _ _ _ _ _ _ Hv2); done|].
    apply Hshow, Hv2. }
  intros [polls x] s2 h2 (s2' & -> & _ & Hv2). eapply twp_try; [by apply (twp_await_cancellable T)|].
  intros answer s3 h3 (-> & Hv3). cbn [snd]. destruct x as [authorization|e]; cbn [map_err]; [|by eapply twp_fail].
  eapply twp_ret; [done|]. intros s4 _ Hv4. eexists. split; [exact Hv4|]. by exists s2', polls.
Qed.

(** A call that is not denied is cleared, up to its admission. *)
Lemma twp_authorize tool_calls t place calls i call input prepared tool v tail s1 prior text persisted outputs s h :
  tinv 0 None v s h ->
  v_host v = EvAsk s1 (Q_prepare tool (tool_context (call_id call)) call) (Ok prepared) :: tail ->
  length (prepared_ids (v_host v)) = N.to_nat (tool_calls + N.of_nat i + 1) ->
  round_at t place calls v prior text persisted outputs -> calls !! i = Some (call, input) ->
  twp (authorize sha256 engine session_id incarnation_id turn_id tool_calls place (N.of_nat i) call prepared)
    (ends (oks 0 None (good 0 None (fun x v' => same_calls v v' /\
       (fst x = false -> granted tool call (prepared_arguments prepared) (snd x) v'))))) s h.
Proof.
  intros Hv Ev Hn Hr Hi. unfold authorize. destruct (prepared_authorization prepared) as [capability|] eqn:Ea.
  2:{ eapply twp_ret; [done|]. intros s2 _ Hv2. exists v. split_and!; [done|done|]. intros _. simpl. rewrite Ev. by constructor. }
  eapply twp_check; [done|]. intros ordinal ->%ordinal_ok. eapply twp_check; [done|]. intros id Hid.
  eapply twp_bind; [by apply (twp_emit T0)|]. intros [] s2 h2 Hv2. rewrite (block_index_ok _ _ _ _ _ _ _ _ _ _ _ Hr Hi).
  eapply twp_bind; [by apply twp_open|]. intros ptr s3 h3 (c & <- & Hv3 & Hshow).
  eapply twp_try; [apply twp_scope; eapply twp_ask_authorize; try done|].
  { cbn [pr_id]. rewrite Hn, N2Nat.id. done. }
  { by eapply round_at_published. }
  intros [decision admission] s4 h4 (v4 & Hv4 & s4' & polls & Ev4). cbn [auth_decision auth_admission].
  eapply twp_bind; [by apply (twp_emit T0)|]. intros [] s5 h5 Hv5. eapply twp_ret; [done|]. intros s6 _ Hv6.
  exists v4. split; [done|]. subst v4. split; [by apply same_calls_ask|]. cbn [fst snd].
  intros (scope & ->)%bounded_allowed. unfold granted. destruct admission as [a|]; cbn [v_host]; rewrite ?Ev.
  - split; [by repeat eexists|]. intros s7. by apply cleared_admitted.
  - by apply cleared_allowed.
Qed.

(** ** One call *)
Lemma turn_ok_executes used count t v v' id :
  executes id v v' -> id ∈ used -> turn_ok used count t v -> turn_ok used count t v'.
Proof.
  intros (E1 & E2 & E3 & E4 & _) Hid [? ? ? ? ? ? Hex ? ?]. constructor; rewrite ?E1, ?E2, ?E3; try done.
  intros id'. rewrite E4. intros [->|?]%elem_of_cons; [done|by apply Hex].
Qed.

(** A call of a round that has run. *)
Definition performed (used : gset ToolCallId) (count : N) (t : TurnVars) (place : RoundPlace)
    (calls : list (ToolCall * option ToolInputLimits)) prior text persisted (t' : TurnVars) (v' : view) : Prop :=
  turn_ok used count t' v' /\ same_counts t t' /\
  exists outputs', round_at t' place calls v' prior text persisted outputs'.

Section Settled.
Context {al : event World Query Ans -> Events -> Prop} {d : N}.
Context (T : contract al d None).

Lemma twp_execute_settle deferred used count t place calls i call input tool (execution : sprog _) v prior text persisted outputs s h :
  wp (rely me) any_answer al execution (ends (oks d None (good d None (fun _ v' => executes (call_id call) v v')))) s h ->
  turn_ok used count t v -> round_at t place calls v prior text persisted outputs ->
  calls !! i = Some (call, input) -> call_id call ∈ used ->
  wp (rely me) any_answer al
    (do? result <- execution;
     do? t <- settle_call engine deferred t place (N.of_nat i) tool (call_id call) (execution_result result);
     Ret (Ok (t, cr_finish_turn (execution_result result))))
    (ends (oks d None (good d None (fun x v' => performed used count t place calls prior text persisted (fst x) v' /\
       executed_ids (v_host v') <> [])))) s h.
Proof.
  intros Hex Ht Hr Hi Hu. eapply twp_try; [exact Hex|]. intros result s1 h1 (v1 & Hv1 & He).
  pose proof (turn_ok_executes _ _ _ _ _ _ He Hu Ht) as Ht1. destruct He as (_ & _ & _ & Ee & Es).
  assert (round_at t place calls v1 prior text persisted outputs) as Hr1 by (eapply round_at_same; [|exact Hr]; rewrite Es; set_solver).
  eapply twp_try; [by eapply (twp_settle_call T)|]. intros t' s2 h2 (v2 & Hv2 & Ht2 & E1 & E3 & Hr2).
  eapply twp_ret; [done|]. intros s3 _ Hv3. exists v2. split_and!; try done. cbn [fst]. by rewrite E3, Ee.
Qed.
End Settled.

Lemma twp_execute_call used count t place calls i call input tool prepared admission v prior text persisted outputs s h :
  tinv 0 None v s h -> turn_ok used count t v -> round_at t place calls v prior text persisted outputs ->
  calls !! i = Some (call, input) -> call_id call ∈ used -> call_id call ∉ executed_ids (v_host v) ->
  granted tool call (prepared_arguments prepared) admission v ->
  twp (execute_call engine session_id incarnation_id turn_id t place (N.of_nat i) tool call prepared admission)
    (ends (oks 0 None (good 0 None (fun x v' => performed used count t place calls prior text persisted (fst x) v' /\
       executed_ids (v_host v') <> [])))) s h.
Proof.
  intros Hv Ht Hr Hi Hu Hnew Hg. unfold execute_call. cbv zeta.
  assert (forall s h, tinv 0 None v s h -> exists r cursor, r ∈ v_stored v /\ recorded (rec_messages r) (call_id call) cursor) as Hrec.
  { intros _ _ _. destruct (ra_saved _ _ _ _ _ _ _ _ _ Hr) as (saved & o & Hin & Ho & Em). exists saved.
    assert (map call_id persisted !! i = Some (call_id call)) as Hp.
    { rewrite (ra_calls _ _ _ _ _ _ _ _ _ Hr). unfold ids_of. by rewrite list_lookup_fmap, Hi. }
    apply list_lookup_fmap_Some in Hp as (pcall & Ep & Hp). eexists. split; [done|]. rewrite Em, Ep. by apply answered_recorded. }
  destruct (Hrec s h Hv) as (r & cursor & Hin & Hrc). destruct (prepared_execution_cancellation prepared).
  - eapply (twp_execute_settle T0); try done. apply (twp_cancellable_execution T0); [done|]. intros s1 h1 Hv1 Hc1.
    by eapply (twp_execution_start T0).
  - eapply twp_try; [by apply (twp_check_cancelled T0)|]. intros [] s1 h1 (Hv1 & s1' & Hs1 & Eh1).
    eapply twp_bind; [by apply twp_defer|]. intros deferred s2 h2 (-> & Hv2 & s2' & s2'' & Eh2). cbn [negb].
    apply twp_deferral. pose proof (deferral_contract sha256 engine session_id incarnation_id turn_id me s0 base) as T1.
    eapply (twp_execute_settle T1); try done. apply (twp_deferred_execution T1).
    eapply (twp_execution_start T1); try done. intros _. exists s1', h. subst. eauto.
Qed.

Lemma twp_perform_call used count t place calls i call input v prior text persisted outputs s h :
  tinv 0 None v s h -> turn_ok used count t v -> round_at t place calls v prior text persisted outputs ->
  calls !! i = Some (call, input) -> call_id call ∉ used -> count = (tv_tool_calls t + N.of_nat i)%N ->
  (count < nz_get (max_tool_calls_per_turn (limits engine)))%N ->
  twp (perform_call sha256 engine session_id incarnation_id turn_id t place (N.of_nat i) call input)
    (ends (oks 0 None (good 0 None (fun x v' =>
       performed ({[ call_id call ]} ∪ used) (count + 1) t place calls prior text persisted (fst x) v' /\
       (snd x = true -> executed_ids (v_host v') <> []))))) s h.
Proof.
  intros Hv Ht Hr Hi Hu Hc Hmax. unfold perform_call.
  eapply twp_try; [by apply (twp_check_cancelled T0)|]. intros [] s1 h1 (Hv1 & s1' & Hs1 & Eh1).
  eapply twp_lookup; [done|apply Ht|]. intros tool _. eapply twp_bind.
  { apply (twp_ask T0); [done|done|]. intros s2 Hv2 _. split; [by eapply tinv_no_context|].
    rewrite <-prepared_host, (ti_host _ _ _ _ _ _ _ Hv2), (to_count _ _ _ _ _ _ Ht).
    split_and!; [by eapply checked_one|done| |lia|by eexists; eapply round_at_published].
    intros Hin. by apply Hu, (to_prepared _ _ _ _ _ _ Ht). }
  intros preparation s2 h2 (s2' & -> & _ & Hv2). set (v2 := View _ _) in Hv2.
  assert (turn_ok ({[call_id call]} ∪ used) (count + 1) t v2) as Ht2.
  { destruct Ht as [A1 A2 A3 A4 A5 A6 A7 A8 A9]. constructor; try done.
    - change (S (length (prepared_ids (v_host v))) = N.to_nat (count + 1)). rewrite A5. lia.
    - intros id [->|Hin]%elem_of_cons; [set_solver|]. apply elem_of_union_r. by apply A6.
    - intros id Hin. apply elem_of_union_r. by apply A7. }
  assert (round_at t place calls v2 prior text persisted outputs) as Hr2 by (eapply round_at_same; [|exact Hr]; set_solver).
  assert (call_id call ∉ executed_ids (v_host v2)) as Hnew.
  { intros Hin. by apply Hu, (to_executed _ _ _ _ _ _ Ht). }
  eapply twp_try; [by apply (twp_check_cancelled T0)|]. intros [] s3 h3 (Hv3 & _).
  assert (forall v' output s h, tinv 0 None v' s h -> same_calls v2 v' ->
    twp (do? t <- settle_call engine false t place (N.of_nat i) tool (call_id call) (plain_result output); Ret (Ok (t, false)))
      (ends (oks 0 None (good 0 None (fun x v' =>
         performed ({[ call_id call ]} ∪ used) (count + 1) t place calls prior text persisted (fst x) v' /\
         (snd x = true -> executed_ids (v_host v') <> []))))) s h) as Hplain.
  { intros v' output s' h' Hv' Hs'. eapply twp_try.
    { eapply (twp_settle_call T0); [done|by eapply turn_ok_same|eapply round_at_same; [apply Hs'|done]|done]. }
    intros t' s4 h4 (v4 & Hv4 & Ht4 & E1 & _ & Hr4). eapply twp_ret; [done|]. intros s5 _ Hv5. by exists v4. }
  destruct preparation as [prepared|error]; [|by apply (Hplain v2)]. eapply twp_check; [done|]. intros _ _.
  eapply twp_try; [eapply twp_authorize; [done|done| |done|done]|].
  { rewrite (to_count _ _ _ _ _ _ Ht2). lia. }
  intros [denied admission] s4 h4 (v4 & Hv4 & Hs4 & Hg). cbn [fst snd] in Hg. destruct denied.
  { eapply twp_bind; [by apply (twp_emit T0)|]. intros [] s5 h5 Hv5. by apply (Hplain v4). }
  eapply twp_bind; [by apply (twp_emit T0)|]. intros [] s5 h5 Hv5. eapply wp_mono; [|eapply twp_execute_call; [exact Hv5|
    by eapply turn_ok_same|eapply round_at_same; [apply Hs4|done]|done|set_solver| |by apply Hg]].
  - intros [[x|e]| | |] s6 h6; simpl; try done. intros (v6 & Hv6 & Hp & Hex). by exists v6.
  - by rewrite (sc_executed _ _ Hs4).
Qed.
End Calls.
