(* ===== verification/TurnProofs.v ===== *)
(** * Whole turns

    The rounds of a turn and the theorems about [run_turn]: every execution is
    prepared, authorized, published and made once; the loops end within the
    limits; nothing panics; dropped and failed turns leave no permission scope
    and no deferral; the stored transcript stays closed. *)
From S2P Require Import Prelude Ids Json Model Limits PermissionId Catalog Context Prog SessionState Emission Operations.
From S2P Require Import Workflow Sample Lease ReserveProofs CommitProofs Calm TurnRules StreamProofs WorkflowProofs.
From stdpp Require Import gmap.
Open Scope prog_scope.

(** How a turn completes: its final answer is stored, or a tool that ran asked for
    the turn to end. *)
Definition completes (completed : CompletedTurn) (h : Events) : Prop :=
  (exists saved revision text, accepted h saved revision /\ last (rec_messages saved) = Some (assistant text [])) \/
  (completed_reason completed = Stop_Completed /\ executed_ids h <> []).

Section Turns.
Context `{JsonWriter}.
Context (sha256 : string -> string) (engine : EngineInner).
Context (session_id : SessionId) (incarnation_id : SessionIncarnationId) (turn_id : TurnId).
Context (options : InferenceOptions) (context : option ValidatedSessionContext).
Context (me : nat) (s0 : World) (base : list Message).
Context (context_ok : forall c, context = Some c -> context_wf c base).
Notation tinv := (tinv me s0).
Notation ends := (ends me).
Notation oks := (oks me s0).
Notation good := (good me s0).
Notation turn_allowed := (turn_allowed sha256 engine session_id incarnation_id turn_id me s0 base).
Notation turn_ok := (turn_ok engine base).
Notation round_at := (round_at base).
Notation T0 := (turn_allowed_contract sha256 engine session_id incarnation_id turn_id me s0 base).
Notation twp := (wp (rely me) any_answer turn_allowed).

(** The end of a turn that completed. *)
Definition done_post (completed : CompletedTurn) (s : World) (h : Events) : Prop :=
  exists v, tinv 0 None v s h /\ established s /\ completes completed h.

Lemma tinv_executed d ctx v s h : tinv d ctx v s h -> executed_ids h = executed_ids (v_host v).
Proof. intros Hv. by rewrite <-executed_host, (ti_host _ _ _ _ _ _ _ Hv). Qed.

Definition loop_post (used : gset ToolCallId) (count : N) (t : TurnVars)
    (x : TurnVars * option CompletedTurn) (s : World) (h : Events) : Prop :=
  match snd x with
  | Some completed => done_post completed s h
  | None => exists v, tinv 0 None v s h /\ turn_ok used count (fst x) v /\
      same_counts t (fst x)
  end.

Lemma twp_emit_terminal payload v s h :
  is_terminal payload = false -> tinv 0 None v s h -> established s ->
  twp (emit_established_terminal payload) (ends (fun _ s h => tinv 0 None v s h /\ established s)) s h.
Proof.
  intros Hnt Hv He. eapply wp_mono; [|by apply (twp_emit_future T0)]. intros [] s' h'; simpl; try done. intros [Hv' E].
  split; [done|]. unfold established. by rewrite E.
Qed.

Lemma twp_finish_turn (t : TurnVars) v s h (Q : TurnVars * option CompletedTurn -> World -> Events -> Prop) :
  tinv 0 None v s h -> executed_ids (v_host v) <> [] ->
  (forall completed s h, done_post completed s h -> Q (t, Some completed) s h) ->
  twp (do? _ <- check_cancelled;
       do _ <- establish_terminal;
       Ret (Ok (t, Some {| completed_reason := Stop_Completed; completed_usage := tv_usage t |})))
    (ends (oks 0 None Q)) s h.
Proof.
  intros Hv Hex HQ. eapply twp_try; [by apply (twp_check_cancelled T0)|]. intros [] s1 h1 (Hv1 & _).
  eapply twp_bind; [by apply (twp_establish T0)|]. intros [] s2 h2 [Hv2 He2].
  eapply twp_ret; [done|]. intros s3 R3 Hv3. apply HQ. exists v. split_and!; [done| |].
  - eapply established_rely; [exact R3|apply Hv2|done].
  - right. by rewrite (tinv_executed _ _ _ _ _ Hv3).
Qed.

Lemma twp_call_loop rest : forall used count t place calls i v prior text persisted outputs s h,
  tinv 0 None v s h -> turn_ok used count t v -> round_at t place calls v prior text persisted outputs ->
  drop i calls = rest -> count = (tv_tool_calls t + N.of_nat i)%N ->
  (tv_tool_calls t + vec_len calls <= nz_get (max_tool_calls_per_turn (limits engine)))%N ->
  (forall id, id ∈ ids_of rest -> id ∉ used) -> NoDup (ids_of rest) ->
  twp (call_loop sha256 engine session_id incarnation_id turn_id t place (N.of_nat i) rest)
    (ends (oks 0 None (loop_post (list_to_set (ids_of rest) ∪ used) (count + vec_len rest) t))) s h.
Proof.
  induction rest as [|[call input] rest IH]; intros used count t place calls i v prior text persisted outputs s h
    Hv Ht Hr Hrest Hc Hmax Hnew Hnd; cbn [call_loop].
  { eapply twp_ret; [done|]. intros s1 _ Hv1. exists v. split_and!; [done| |done].
    change (vec_len []) with 0%N. rewrite N.add_0_r. simpl. by rewrite union_empty_l_L. }
  assert (calls !! i = Some (call, input)) as Hi.
  { rewrite <-(Nat.add_0_r i), <-lookup_drop, Hrest. done. }
  pose proof (lookup_lt_Some _ _ _ Hi) as Hlt. apply NoDup_cons in Hnd as [Hhd Hnd].
  eapply twp_try; [eapply twp_perform_call; try done; [apply Hnew; left|unfold vec_len in Hmax; lia]|].
  intros [t1 finish] s1 h1 (v1 & Hv1 & (Ht1 & E1 & outputs1 & Hr1) & Hfin). cbn [fst snd] in *. destruct finish.
  { eapply twp_finish_turn; [done|by apply Hfin|done]. }
  replace (N.of_nat i + 1)%N with (N.of_nat (S i)) by lia.
  assert (list_to_set (ids_of ((call, input) :: rest)) ∪ used = list_to_set (ids_of rest) ∪ ({[call_id call]} ∪ used)) as ->
    by (cbn [ids_of map list_to_set fst]; set_solver).
  replace (count + vec_len ((call, input) :: rest))%N with (count + 1 + vec_len rest)%N
    by (unfold vec_len; cbn [length]; lia).
  eapply wp_mono; [|eapply IH with (calls := calls) (t := t1); [done|done|done| |rewrite (sm_tool_calls _ _ E1); lia|by rewrite (sm_tool_calls _ _ E1)| |done]].
  - intros [[x|e]| | |] s2 h2; try done. cbn [TurnRules.ends TurnRules.oks]. unfold loop_post. destruct (snd x); [done|].
    intros (v2 & Hv2 & Ht2 & Hc2). exists v2. split_and!; try done. by eapply same_counts_trans.
  - rewrite <-Nat.add_1_r, <-drop_drop, Hrest. done.
  - intros id Hin. rewrite elem_of_union, elem_of_singleton. intros [->|Hin']; [done|]. by apply (Hnew id); [right|].
Qed.

(** ** Rounds *)
Lemma twp_finish_answer used count t text stop_reason v s h :
  tinv 0 None v s h -> turn_ok used count t v ->
  twp (finish_answer engine t text stop_reason) (ends (oks 0 None done_post)) s h.
Proof.
  intros Hv Ht. unfold finish_answer. eapply twp_try.
  { apply (twp_commit T0); [exact Hv|]. apply transcript_round; [apply Ht|apply plain_answer_round]. }
  intros record s1 h1 (Em & saved & Es & Hv1). eapply twp_bind; [by apply (twp_establish T0)|]. intros [] s2 h2 [Hv2 He2].
  assert (forall s h, tinv 0 None (View (v_host v) (saved :: v_stored v)) s h ->
    completes {| completed_reason := stop_reason; completed_usage := tv_usage t |} h) as Hc.
  { intros s' h' Hv'. left. destruct (ti_stored _ _ _ _ _ _ _ Hv' saved) as [revision Ha]; [by left|].
    exists saved, revision, text. split; [done|]. by rewrite Es, Em, last_snoc. }
  eapply (twp_bind _ _ (fun _ s h => tinv 0 None (View (v_host v) (saved :: v_stored v)) s h /\ established s)).
  { by apply twp_emit_terminal. }
  intros [] s3 h3 [Hv3 He3]. eapply twp_ret; [done|]. intros s4 R4 Hv4. eexists. split_and!; [exact Hv4| |by eapply Hc].
  eapply established_rely; [exact R4|apply Hv3|done].
Qed.

(** Between two rounds. *)
Definition round_post (t : TurnVars) (x : TurnVars * option CompletedTurn) (s : World) (h : Events) : Prop :=
  match snd x with
  | Some completed => done_post completed s h
  | None => exists v, tinv 0 None v s h /\ turn_ok (tv_seen_call_ids (fst x)) (tv_tool_calls (fst x)) (fst x) v /\
      tv_model_rounds (fst x) = (tv_model_rounds t + 1)%N
  end.

Lemma twp_round_calls t r stop_reason v s h :
  tinv 0 None v s h -> round_ok engine base r v -> rv_calls r <> [] -> rv_turn r = t ->
  twp (do? new_total <- Ret (add_within (tv_tool_calls t) (vec_len (rv_calls r))
         (nz_get (max_tool_calls_per_turn (limits engine))) "tool_call_limit" "tool call count overflowed"
         "turn exceeded the configured tool call limit");
       let t := set_tv_seen t (list_to_set (map (fun c => call_id (fst c)) (rv_calls r)) ∪ tv_seen_call_ids t) in
       do? published <- publish_round engine session_id incarnation_id turn_id t (rv_text r) (rv_calls r) stop_reason;
       let '(t, place) := published in
       do? performed <- call_loop sha256 engine session_id incarnation_id turn_id t place 0 (rv_calls r);
       let '(t, completed) := performed in
       Ret (Ok (match completed with Some _ => t | None => set_tv_tool_calls t new_total end, completed)))
    (ends (oks 0 None (fun x s h => match snd x with
       | Some completed => done_post completed s h
       | None => exists v, tinv 0 None v s h /\ turn_ok (tv_seen_call_ids (fst x)) (tv_tool_calls (fst x)) (fst x) v /\
           tv_model_rounds (fst x) = tv_model_rounds t
       end))) s h.
Proof.
  intros Hv [Ht _ Hnd Hnew Hlen _] Hne Er. rewrite Er in *. eapply twp_check; [done|].
  intros new_total (-> & Hmax & _)%add_within_ok. cbv zeta. fold (ids_of (rv_calls r)).
  set (t1 := set_tv_seen t _). assert (turn_ok (tv_seen_call_ids t) (tv_tool_calls t) t1 v) as Ht1 by (destruct Ht; by constructor).
  eapply twp_try; [by eapply (twp_publish_round _ _ _ _ _ _ _ _ T0)|].
  intros [t2 place] s2 h2 (v2 & Hv2 & Ht2 & Hc2 & prior & persisted & outputs & Hr2). cbn [fst snd] in *.
  eapply twp_try; [eapply (twp_call_loop _ _ _ _ _ _ 0); try done|].
  { by rewrite (sm_tool_calls _ _ Hc2), N.add_0_r. }
  { by rewrite (sm_tool_calls _ _ Hc2). }
  intros [t3 completed] s3 h3. unfold loop_post. cbn [fst snd]. destruct completed as [completed|].
  - intros (v3 & Hv3 & He3 & Hc3). intros s4 R4. exists v3. split_and!; [by eapply tinv_rely| |done].
    eapply established_rely; [exact R4|apply Hv3|done].
  - intros (v3 & Hv3 & Ht3 & Hc3). eapply twp_ret; [done|]. intros s4 _ Hv4. exists v3. cbn [fst snd].
    pose proof (same_counts_trans _ _ _ Hc2 Hc3) as [E1 E2 E3].
    split_and!; [done| |exact E1]. cbn [tv_seen_call_ids set_tv_tool_calls tv_tool_calls].
    rewrite E3. destruct Ht3. by constructor.
Qed.

Lemma twp_turn_round t v s h :
  tinv 0 None v s h -> turn_ok (tv_seen_call_ids t) (tv_tool_calls t) t v ->
  twp (turn_round sha256 engine session_id incarnation_id turn_id options context t) (ends (oks 0 None (round_post t))) s h.
Proof.
  intros Hv Ht. unfold turn_round. eapply twp_try; [by apply (twp_check_cancelled T0)|]. intros [] s1 h1 (Hv1 & _).
  eapply twp_check; [done|]. intros rounds (-> & Hr & _)%add_within_ok. cbv zeta. set (t1 := set_tv_rounds t _).
  eapply twp_try; [by eapply (twp_open_stream _ _ _ _ _ _ _ _ _ _ context_ok T0)|]. intros stream s2 h2 (v2 & Hv2 & Ht2).
  eapply twp_try; [eapply (twp_stream_loop _ _ _ _ _ _ _ _ T0); [done| |]|].
  { constructor; try done; [intros id; cbn; set_solver|by apply NoDup_nil_2|by intros id ?%elem_of_nil|by left]. }
  { cbn [rv_turn]. lia. }
  intros [stop_reason r] s3 h3 (v3 & Hv3 & Hr3 & Hc3). cbn [snd rv_turn] in *. eapply twp_check; [done|]. intros usage _.
  set (t4 := set_tv_usage (rv_turn r) usage). eapply twp_check; [done|]. intros _ _.
  pose proof Hr3 as [Ht3 A B C D E].
  assert (turn_ok (tv_seen_call_ids t4) (tv_tool_calls t4) t4 v3) as Ht4 by (destruct Ht3; by constructor).
  destruct (rv_calls r) as [|c calls] eqn:Ec.
  - eapply twp_try; [by eapply twp_finish_answer|]. intros completed s5 h5 (v5 & Hv5 & He5 & Hd5) s6 R6.
    exists v5. split_and!; [by eapply tinv_rely| |done]. eapply established_rely; [exact R6|apply Hv5|done].
  - pose proof (twp_round_calls t4 {| rv_turn := t4; rv_text := rv_text r; rv_calls := rv_calls r;
      rv_call_ids := rv_call_ids r; rv_usage := rv_usage r |} stop_reason v3 s3 h3) as Hcalls. cbn [rv_calls rv_text rv_turn] in Hcalls.
    rewrite Ec in Hcalls. eapply wp_mono; [|apply Hcalls; [done|by constructor|done|done]].
    intros [[x|e]| | |] s5 h5; try done. cbn [TurnRules.ends TurnRules.oks]. unfold round_post. destruct (snd x); [done|].
    intros (v5 & Hv5 & Ht5 & E5). exists v5. split_and!; try done. rewrite E5. exact (sm_rounds _ _ Hc3).
Qed.

(** The rounds end within their fuel: every round is counted against the limit. *)
Lemma twp_turn_loop n : forall t v s h,
  tinv 0 None v s h -> turn_ok (tv_seen_call_ids t) (tv_tool_calls t) t v ->
  N.to_nat (nz_get (max_model_rounds (limits engine))) < n + N.to_nat (tv_model_rounds t) ->
  twp (turn_loop sha256 engine session_id incarnation_id turn_id options context n t) (ends (oks 0 None done_post)) s h.
Proof.
  induction n as [|n IH]; intros t v s h Hv Ht Hn.
  { pose proof (to_rounds_le _ _ _ _ _ _ Ht). exfalso. lia. }
  cbn [turn_loop]. eapply twp_try; [by eapply twp_turn_round|]. intros [t1 [completed|]] s1 h1; unfold round_post; cbn [fst snd].
  - intros (v1 & Hv1 & He1 & Hd1) s2 R2. exists v1. split_and!; [by eapply tinv_rely| |done].
    eapply established_rely; [exact R2|apply Hv1|done].
  - intros (v1 & Hv1 & Ht1 & E1). eapply IH; [done|done|]. rewrite E1. lia.
Qed.

Lemma twp_run_turn record v s h :
  tinv 0 None v s h -> v_host v = [] -> rec_messages record = base ->
  twp (run_turn_inner sha256 engine session_id incarnation_id turn_id options context record)
    (ends (oks 0 None done_post)) s h.
Proof.
  intros Hv Ev Eb. unfold run_turn_inner. eapply twp_bind; [by apply (twp_emit T0)|]. intros [] s1 h1 Hv1.
  eapply twp_turn_loop; [done| |cbn [tv_model_rounds TurnVars_new]; lia].
  subst base. constructor; rewrite ?Ev; try done; try apply N.le_0_l; try (by intros id ?%elem_of_nil).
  apply catalog_default_wf.
Qed.
End Turns.

(** ** Executions of a turn *)
Lemma start_tinv me record context s : turn_start me record context s -> tinv me s 0 None (View [] []) s [].
Proof.
  intros [Hi Hl Hid Hd Hc _]. constructor; try done; try apply evolves_refl; try (by constructor).
  by intros r ?%elem_of_nil.
Qed.

Section Executions.
Context `{JsonWriter}.
Context (sha256 : string -> string) (engine : EngineInner).
Context (session_id : SessionId) (turn_id : TurnId) (record : SessionRecord).
Context (options : InferenceOptions) (context : option ValidatedSessionContext).
Context (me : nat) (s : World).
Notation program := (run_turn sha256 engine session_id turn_id record options context).
Notation turn_allowed := (turn_allowed sha256 engine session_id (rec_incarnation_id record) turn_id me s (rec_messages record)).

(** The end of an execution: the lease is still owned, and a returned or dropped
    turn has closed its scope and released its deferral. *)
Definition turn_end (o : outcome WorkflowExit) (s' : World) (h : Events) : Prop :=
  lease_holder s' = Some me /\
  match o with
  | Returned exit =>
      permission_context s' = None /\ em_cancellation_deferrals (emission s') = 0%N /\ idle s' /\ evolves s s' /\
      match exit with
      | ExitCompleted reason usage =>
          established s' /\ completes {| completed_reason := reason; completed_usage := usage |} h
      | ExitCancelled | ExitFailed _ => True
      end
  | Dropped => permission_context s' = None /\ em_cancellation_deferrals (emission s') = 0%N
  | Blocked => em_outstanding (emission s') = true /\ em_acknowledged (emission s') = false
  | Panicked => False
  end.

(** The precondition of a turn: its steps are allowed, and it ends as promised. *)
Lemma run_turn_wp :
  turn_start me record context s ->
  wp (rely me) any_answer turn_allowed program (fun o s' h => match o with Dropped => True | _ => turn_end o s' h end) s [].
Proof.
  intros Hst. set (incarnation := rec_incarnation_id record) in *. apply wp_map.
  eapply wp_mono; [|apply (twp_run_turn sha256 engine session_id incarnation turn_id options context me s
      (rec_messages record) (start_projection _ _ _ _ Hst) record (View [] [])); [by eapply start_tinv|done|done]].
  intros [r| | |] s1 h1; simpl; try done. intros Hr. unfold turn_end. destruct r as [completed|[|failure]]; simpl in Hr |- *.
  - destruct Hr as (v & [Hev _ [Hl Hd Hc] Hid _ _] & Het & Hcm). by destruct completed.
  - destruct Hr as (v & [Hev _ [Hl Hd Hc] Hid _ _]). by split_and!.
  - destruct Hr as (v & [Hev _ [Hl Hd Hc] Hid _ _]). by split_and!.
Qed.

Lemma run_turn_exec o s' h' :
  turn_start me record context s -> exec (rely me) any_answer program s [] o s' h' ->
  all_allowed turn_allowed h' /\ turn_end o s' h'.
Proof.
  intros Hst He. pose proof (run_turn_wp Hst) as Hwp.
  pose proof (session_correct _ _ _ _ _ _ _ _ Hwp He) as [Hall Hend]. split; [done|]. destruct o as [exit| | |]; try done.
  destruct (exec_dropped _ _ _ _ _ _ _ _ He eq_refl) as (b & h1 & ->). destruct Hall as [(_ & Hl & Hc & Hd & _) _]. done.
Qed.

(** ** The counters of a history *)
Lemma all_allowed_at (l : Events) e h : all_allowed turn_allowed (l ++ e :: h) -> turn_allowed e h.
Proof. induction l as [|e' l IH]; simpl; [by intros []|]. intros [_ ?]. by apply IH. Qed.

Lemma all_allowed_elem e (h : Events) : all_allowed turn_allowed h -> e ∈ h -> exists l h1, h = l ++ e :: h1 /\ turn_allowed e h1.
Proof. intros Ha (l & h1 & ->)%list_elem_of_split. exists l, h1. split; [done|]. by eapply all_allowed_at. Qed.

Lemma allowed_streams h : all_allowed turn_allowed h -> streams h <= N.to_nat (nz_get (max_model_rounds (limits engine))).
Proof.
  induction h as [|e h IH]; intros Ha; [unfold streams; simpl; lia|]. destruct Ha as [He Ha]. specialize (IH Ha).
  destruct e as [|s1 q x|]; [exact IH| |exact IH]. destruct q; try exact IH.
  destruct He as (_ & _ & _ & Hs & _). exact Hs.
Qed.

Lemma allowed_items h :
  all_allowed turn_allowed h -> items h <= S (N.to_nat (nz_get (max_model_events_per_turn (limits engine)))).
Proof.
  induction h as [|e h IH]; intros Ha; [unfold items; simpl; lia|]. destruct Ha as [He Ha]. specialize (IH Ha).
  destruct e as [|s1 q x|]; [exact IH| |exact IH]. destruct q; try exact IH. destruct He as (_ & _ & _ & Hs).
  rewrite items_item. destruct (snd x); lia.
Qed.

Lemma allowed_prepared h : all_allowed turn_allowed h ->
  NoDup (prepared_ids h) /\ length (prepared_ids h) <= N.to_nat (nz_get (max_tool_calls_per_turn (limits engine))).
Proof.
  induction h as [|e h IH]; intros Ha; [split; [constructor|simpl; lia]|]. destruct Ha as [He Ha]. specialize (IH Ha) as [Hn Hl].
  destruct e as [|s1 q x|]; [done| |done]. destruct q; try done. destruct He as (_ & _ & _ & Ec & Hnew & Hlt & _).
  change (prepared_ids (_ :: h)) with (tc_call_id context0 :: prepared_ids h). rewrite Ec. split; [by constructor|exact Hlt].
Qed.

(** An execution follows its own preparation. *)
Lemma cleared_prepared tool c call arguments h : cleared tool c call arguments h -> tc_call_id c ∈ prepared_ids h.
Proof. intros []; simpl; set_solver. Qed.

Lemma allowed_executed h : all_allowed turn_allowed h ->
  NoDup (executed_ids h) /\ forall id, id ∈ executed_ids h -> id ∈ prepared_ids h.
Proof.
  induction h as [|e h IH]; intros Ha; [split; [constructor|done]|]. destruct Ha as [He Ha]. specialize (IH Ha) as [Hn Hs].
  destruct e as [|s1 q x|]; [done| |done]. destruct q; try done.
  - split; [done|]. intros id Hin. change (id ∈ tc_call_id context0 :: prepared_ids h). right. by apply Hs.
  - destruct He as (_ & _ & _ & Hnew & call & cursor & _ & _ & Hcl & _).
    change (executed_ids (_ :: h)) with (tc_call_id context0 :: executed_ids h). split; [by constructor|].
    intros id [->|Hin]%elem_of_cons; [|by apply Hs]. change (tc_call_id context0 ∈ prepared_ids h).
    apply cleared_prepared in Hcl. by rewrite prepared_host in Hcl.
Qed.
End Executions.
