(* ===== verification/TurnTheorems.v ===== *)
(** * Theorems about turns

    The claims of the development about [run_turn], each for every interleaving
    with other tasks, every answer of the host, every cancellation and every
    drop; and a sample turn in which a permitted tool runs. *)
From S2P Require Import Prelude Ids Json Model Limits PermissionId Catalog Context Prog SessionState Emission Operations.
From S2P Require Import Workflow Sample Lease ReserveProofs CommitProofs Calm TurnRules StreamProofs WorkflowProofs TurnProofs.
From stdpp Require Import gmap.
Open Scope prog_scope.

(** ** A sample turn *)
(** A stream that delivers every staged event between two polls. *)
Definition deliver (s : World) : World :=
  let e := emission s in
  if em_outstanding e then
    set_emission s {| em_pending := None; em_acknowledged := true; em_usage := em_usage e;
                      em_terminal_established := em_terminal_established e;
                      em_cancellation_deferrals := em_cancellation_deferrals e; em_outstanding := true |}
  else s.

Lemma deliver_rely me s : rely me s (deliver s).
Proof.
  unfold deliver. destruct (em_outstanding (emission s)) eqn:Eo; [|apply rely_refl]. constructor; try done.
  - constructor; try done; [|by left|by apply past_grows_same]. intros [Ha Hl Hc]. by constructor.
  - intros _. rewrite emission_set. constructor; simpl; try done; [congruence|by right|by right].
Qed.

Definition echo_spec : ToolSpec := {| spec_name := "echo"; spec_description := "echo"; spec_input_schema := VNull |}.

Definition tool_engine : EngineInner :=
  {| session_store := 7; engine_tools := [("echo", {| registered_spec := echo_spec; registered_tool := 1%N |})];
     tool_specs := [echo_spec]; limits := EngineLimits_default |}.

Definition echo_call : ToolCall := {| call_id := "call-1"; call_name := "echo"; call_arguments := VNull |}.

(** One call, a permission granted with an admission, one completion-wins
    execution, and a final answer. *)
Definition tool_answer (n : nat) (q : Query) : Ans q :=
  match q with
  | Q_load _ _ => (0%nat, Ok (Some sample_record))
  | Q_save _ r _ => (1%nat, Ok (rec_revision r + 1)%N)
  | Q_stream r => (1%nat, Ok (vec_len (req_messages r)))
  | Q_next_item stream =>
      (1%nat, Some (Ok (if (stream =? 1)%N
                        then if (n <? 20)%nat then ModelToolCall echo_call else ModelStop Stop_ToolCalls
                        else ModelStop Stop_Completed)))
  | Q_complete_input_limits _ => None
  | Q_complete_output_limits _ => None
  | Q_persist_arguments _ _ _ => (0%nat, Ok None)
  | Q_prepare _ _ call =>
      Ok {| prepared_authorization := PermissionRequired (Cap_Tool (call_name call) (call_id call) (call_arguments call));
            prepared_arguments := call_arguments call;
            prepared_execution_cancellation := CompletionWinsAfterFirstPoll |}
  | Q_authorize _ _ => (1%nat, Ok {| auth_decision := Allow Scope_Once; auth_admission := Some 9%N |})
  | Q_admit _ => Ok tt
  | Q_execute _ _ _ arguments =>
      (1%nat, Ok {| exec_output := {| output_content := arguments; output_is_error := false |};
                    exec_persisted_output := None; exec_next_round_tool := None; exec_finish_turn := false |})
  | Q_emit _ => (0%nat, Ok tt)
  end.

Definition tool_schedule : schedule World Query Ans :=
  {| sch_env := fun _ => deliver; sch_answer := tool_answer; sch_drop := fun _ => false |}.

Definition turn_world : World := set_lease sample_world true (Some 0).

Notation tool_turn :=
  (run_turn prefix_digest tool_engine "session" "turn-1" sample_record
     {| opt_model := None; opt_max_output_tokens := None; opt_temperature := None; opt_metadata := [] |} None).
Notation tool_run := (run tool_schedule 0 tool_turn turn_world []).

Lemma tool_start : turn_start 0 sample_record None turn_world.
Proof. by constructor; [constructor|..]. Qed.

Lemma tool_exec :
  exec (rely 0) any_answer tool_turn turn_world [] (fst (fst tool_run)) (snd (fst tool_run)) (snd tool_run).
Proof. by apply run_exec; [intros; apply deliver_rely|]. Qed.

(** ** Claims *)
(** Every call to host code in a history, with the state and the history it was
    made in. *)
Fixpoint every_call (P : World -> Query -> Events -> Prop) (h : Events) : Prop :=
  match h with
  | [] => True
  | EvAsk s q _ :: h => P s q h /\ every_call P h
  | _ :: h => every_call P h
  end.

(** When a tool may run. *)
Definition execution_rule (s : World) (q : Query) (h : Events) : Prop :=
  match q with
  | Q_execute tool context name arguments =>
      checked h /\ (tc_call_id context ∉ executed_ids h) /\
      exists call cursor, call_name call = name /\ call_id call = tc_call_id context /\
        cleared tool context call arguments (host h) /\ published h (call_id call) cursor
  | _ => True
  end.

(** What the permission handler is asked, and what it can see. *)
Definition authorization_rule (sha256 : string -> string) (session_id : SessionId) (incarnation_id : SessionIncarnationId)
    (turn_id : TurnId) (s : World) (q : Query) (h : Events) : Prop :=
  match q with
  | Q_authorize request invocation =>
      exists s1 tool context call prepared cursor,
        List.head (host h) = Some (EvAsk s1 (Q_prepare tool context call) (Ok prepared)) /\
        prepared_authorization prepared = PermissionRequired (pr_capability request) /\
        invocation = {| inv_tool_name := call_name call; inv_call_id := call_id call;
                        inv_arguments := prepared_arguments prepared |} /\
        permission_request_id sha256 session_id incarnation_id turn_id (N.of_nat (length (prepared_ids h)))
          = Ok (pr_id request) /\
        published h (call_id call) cursor /\
        (turn_cancelled s = false -> permission_invocation_snapshot request s = Some (pending_assistant call, cursor))
  | _ => permission_context s = None
  end.

(** What a turn that started in [s0] with the transcript [base] may save: the record
    that its snapshot and the check after it found canonical, with only the
    transcript replaced, by one that extends [base] and is closed if [base] is. *)
Definition save_rule `{JsonWriter} (engine : EngineInner) (s0 : World) (base : list Message) (s : World) (q : Query) (h : Events)
    : Prop :=
  match q with
  | Q_save _ r expected =>
      validate_record r (limits engine) = Ok tt /\ same_session s0 r /\ base `prefix_of` rec_messages r /\
      (exists current persisted, current_at h current persisted /\ r = with_messages current (rec_messages r) /\
         expected = then_some persisted (rec_revision current)) /\
      (closed_history base -> validate_tool_closure (rec_messages r) = Ok tt)
  | _ => True
  end.

Section Claims.
Context `{JsonWriter}.
Context (sha256 : string -> string) (engine : EngineInner).
Context (session_id : SessionId) (turn_id : TurnId) (record : SessionRecord).
Context (options : InferenceOptions) (context : option ValidatedSessionContext).
Context (me : nat) (s : World).
Notation program := (run_turn sha256 engine session_id turn_id record options context).
Notation turn_allowed := (turn_allowed sha256 engine session_id (rec_incarnation_id record) turn_id me s (rec_messages record)).

Lemma every_call_allowed (P : World -> Query -> Events -> Prop) h :
  (forall s1 q x h, turn_allowed (EvAsk s1 q x) h -> P s1 q h) -> all_allowed turn_allowed h -> every_call P h.
Proof.
  intros HP. induction h as [|e h IH]; [done|]. intros [He Ha]. destruct e; simpl; auto. split; [by eapply HP|auto].
Qed.

(** C1. A tool runs only after the turn was seen not cancelled, only once per call id,
    only directly after its own preparation and what that preparation demands
    (nothing, a grant for exactly its capability and arguments, or such a grant
    and its admission), and only when the store has accepted a transcript with
    the call and a result for it. *)
Theorem execution_cleared o s' h' :
  turn_start me record context s -> exec (rely me) any_answer program s [] o s' h' ->
  every_call execution_rule h'.
Proof.
  intros Hst He. destruct (run_turn_exec _ _ _ _ _ _ _ _ _ _ _ _ Hst He) as [Ha _].
  eapply every_call_allowed; [|exact Ha]. intros s1 q x h (_ & _ & Hq). by destruct q.
Qed.

(** C10. The handler is asked about exactly the prepared call: its capability, its
    arguments and the id of its ordinal; while it decides, the permission context
    shows the original call at its place in a stored transcript. No other host
    call sees a permission context. *)
Theorem authorization_shows_call o s' h' :
  turn_start me record context s -> exec (rely me) any_answer program s [] o s' h' ->
  every_call (authorization_rule sha256 session_id (rec_incarnation_id record) turn_id) h'.
Proof.
  intros Hst He. destruct (run_turn_exec _ _ _ _ _ _ _ _ _ _ _ _ Hst He) as [Ha _].
  eapply every_call_allowed; [|exact Ha]. intros s1 q x h (_ & Hq & _). destruct q; try done.
  destruct Hq as (s2 & tool & c & call & prepared & cursor & H1 & H2 & _ & _ & _ & H3 & H4 & H5 & ptr & Hp).
  exists s2, tool, c, call, prepared, cursor. split_and!; try done. intros Hc.
  unfold permission_invocation_snapshot. rewrite Hp, Hc. simpl. by rewrite !bool_decide_true by done.
Qed.

(** No call is prepared or executed twice, nothing executes that was not prepared,
    and the executions of a turn are bounded by its tool-call limit. *)
Theorem tools_execute_once o s' h' :
  turn_start me record context s -> exec (rely me) any_answer program s [] o s' h' ->
  NoDup (prepared_ids h') /\ NoDup (executed_ids h') /\ executed_ids h' ⊆ prepared_ids h' /\
  length (executed_ids h') <= N.to_nat (nz_get (max_tool_calls_per_turn (limits engine))).
Proof.
  intros Hst He. destruct (run_turn_exec _ _ _ _ _ _ _ _ _ _ _ _ Hst He) as [Ha _].
  destruct (allowed_prepared _ _ _ _ _ _ _ _ Ha) as [Hp Hl]. destruct (allowed_executed _ _ _ _ _ _ _ _ Ha) as [Hn Hs].
  split_and!; try done. etrans; [|exact Hl]. apply submseteq_length, NoDup_submseteq; done.
Qed.

(** C27. A turn sends at most the model requests of its limit, and reads at most one
    stream item more than its limit, the one it rejects. *)
Theorem turn_within_limits o s' h' :
  turn_start me record context s -> exec (rely me) any_answer program s [] o s' h' ->
  streams h' <= N.to_nat (nz_get (max_model_rounds (limits engine))) /\
  items h' <= S (N.to_nat (nz_get (max_model_events_per_turn (limits engine)))) /\
  length (prepared_ids h') <= N.to_nat (nz_get (max_tool_calls_per_turn (limits engine))).
Proof.
  intros Hst He. destruct (run_turn_exec _ _ _ _ _ _ _ _ _ _ _ _ Hst He) as [Ha _].
  split_and!; [by eapply allowed_streams|by eapply allowed_items|by apply (allowed_prepared _ _ _ _ _ _ _ _ Ha)].
Qed.

(** C2. Every record a turn saves is within the limits, of its session, and extends
    the transcript it started from, whether or not that transcript was closed; apart
    from the transcript it is the record the turn's snapshot and currency check found
    canonical, metadata included, and the save expects its revision. If the transcript
    the turn started from was closed, every transcript it saves is closed. *)
Theorem transcript_stays_closed o s' h' :
  turn_start me record context s -> exec (rely me) any_answer program s [] o s' h' ->
  every_call (save_rule engine s (rec_messages record)) h'.
Proof.
  intros Hst He. destruct (run_turn_exec _ _ _ _ _ _ _ _ _ _ _ _ Hst He) as [Ha _].
  eapply every_call_allowed; [|exact Ha]. intros s1 q x h (_ & _ & Hq). destruct q; try done.
  destruct Hq as (Hv & Hs & [Hp Hc] & Hr). split_and!; try done. intros Hcl.
  by apply validate_tool_closure_messages, closure_history, Hc.
Qed.

(** C9. A turn never panics and never gives up its lease; however it ends, returned or
    dropped, it leaves no permission context and no cancellation deferral; a turn
    that completes has established its terminal event, and has its final answer
    stored or was ended by a tool that ran. *)
Theorem turn_ends_clean o s' h' :
  turn_start me record context s -> exec (rely me) any_answer program s [] o s' h' -> turn_end me s o s' h'.
Proof. intros Hst He. by destruct (run_turn_exec _ _ _ _ _ _ _ _ _ _ _ _ Hst He). Qed.
End Claims.

(** ** The claims at the sample turn *)
Notation at_sample claim := (claim prefix_digest tool_engine "session" "turn-1" sample_record
  {| opt_model := None; opt_max_output_tokens := None; opt_temperature := None; opt_metadata := [] |} None 0 turn_world).

Lemma execution_cleared_witness :
  executed_ids (snd tool_run) = ["call-1"] /\ every_call execution_rule (snd tool_run).
Proof. split; [by vm_compute|]. exact (at_sample execution_cleared _ _ _ tool_start tool_exec). Defined.

Lemma authorization_shows_call_witness :
  length (prepared_ids (snd tool_run)) = 1 /\
  every_call (authorization_rule prefix_digest "session" "incarnation" "turn-1") (snd tool_run).
Proof. split; [by vm_compute|]. exact (at_sample authorization_shows_call _ _ _ tool_start tool_exec). Defined.

Lemma tools_execute_once_witness :
  prepared_ids (snd tool_run) = ["call-1"] /\ NoDup (executed_ids (snd tool_run)).
Proof. split; [by vm_compute|]. apply (at_sample tools_execute_once _ _ _ tool_start tool_exec). Defined.

Lemma turn_within_limits_witness :
  streams (snd tool_run) = 2 /\ items (snd tool_run) = 3 /\
  streams (snd tool_run) <= N.to_nat (nz_get (max_model_rounds (limits tool_engine))).
Proof.
  split; [by vm_compute|]. split; [by vm_compute|]. apply (at_sample turn_within_limits _ _ _ tool_start tool_exec).
Defined.

Lemma transcript_stays_closed_witness :
  Lease.saves (snd tool_run) = 3 /\ every_call (save_rule tool_engine turn_world (rec_messages sample_record)) (snd tool_run).
Proof.
  split; [by vm_compute|]. exact (at_sample transcript_stays_closed _ _ _ tool_start tool_exec).
Defined.

Lemma turn_ends_clean_witness :
  fst (fst tool_run) = Returned (ExitCompleted Stop_Completed TokenUsage_default) /\
  turn_end 0 turn_world (fst (fst tool_run)) (snd (fst tool_run)) (snd tool_run).
Proof. split; [by vm_compute|]. exact (at_sample turn_ends_clean _ _ _ tool_start tool_exec). Defined.
