(* ===== verification/TurnStreamProofs.v ===== *)
(** * The event stream of a turn is correct

    What a stream yields and what it leaves, for every workflow that keeps the
    interface [TurnWorkflow]: its steps respect the gate, it never panics, and a
    completed workflow has established its terminal event. *)
From S2P Require Import Prelude Ids Json Model Limits PermissionId Catalog Context Prog SessionState Emission Operations.
From S2P Require Import Workflow TurnStream Lease TurnRules.
Open Scope prog_scope.

Definition is_emit (q : Query) : bool := match q with Q_emit _ => true | _ => false end.

(** What the stream of a turn relies on. *)
Class TurnWorkflow (me : nat) (al : event World Query Ans -> Events -> Prop)
    (post : outcome WorkflowExit -> World -> Events -> Prop) : Prop := {
  wf_act : forall s s' h, al (EvAct s s') h -> turn_step me s s';
  wf_drop : forall s s' h, al (EvDrop s s') h ->
    own me s s' /\ lease_holder s' = Some me /\ past_turns s' = past_turns s /\ shared_settles (turn s) (turn s') /\
    permission_context s' = None /\ em_cancellation_deferrals (emission s') = 0%N;
  wf_ask : forall s q x h, al (EvAsk s q x) h -> lease_holder s = Some me /\ is_emit q = false;
  wf_panic : forall s h, ~ post Panicked s h;
  wf_blocked : forall s h, post Blocked s h ->
    em_outstanding (emission s) = true /\ em_acknowledged (emission s) = false;
  wf_returned : forall exit s h, post (Returned exit) s h ->
    em_pending (emission s) = None /\ permission_context s = None;
  wf_completed : forall reason usage s h, post (Returned (ExitCompleted reason usage)) s h ->
    em_terminal_established (emission s) = true;
}.

(** ** The log of a turn *)
(** The calls of the workflow, and the events offered to the sink. *)
Definition calls (h : Events) : Events :=
  List.filter (fun e => match e with EvAsk _ q _ => negb (is_emit q) | _ => false end) h.

Definition emitted (h : Events) : list EngineEvent :=
  omap (fun e => match e with EvAsk _ (Q_emit event) _ => Some event | _ => None end) h.

(** The sink took an event, or answered otherwise. *)
Definition answered_by_sink (h : Events) (event : EngineEvent) (r : result unit EventSinkError) : Prop :=
  exists s polls, @EvAsk World Query Ans s (Q_emit event) (polls, r) ∈ h.
Notation taken h event := (answered_by_sink h event (Ok tt)).

Lemma answered_cons h e event r : answered_by_sink h event r -> answered_by_sink (e :: h) event r.
Proof. intros (s & polls & H). exists s, polls. by right. Qed.

(** Steps that call neither the workflow's hosts nor the sink. *)
Record same_log (h h' : Events) : Prop := {
  sl_calls : calls h' = calls h;
  sl_emitted : emitted h' = emitted h;
  sl_answered : forall event r, answered_by_sink h event r -> answered_by_sink h' event r;
}.

Lemma same_log_refl h : same_log h h.
Proof. by constructor. Qed.

Lemma same_log_trans h1 h2 h3 : same_log h1 h2 -> same_log h2 h3 -> same_log h1 h3.
Proof. intros [A1 A2 A3] [B1 B2 B3]. constructor; [congruence|congruence|auto]. Qed.

Lemma same_log_act h h' s s' : same_log h h' -> same_log h (EvAct s s' :: h').
Proof. intros [A1 A2 A3]. constructor; try done. intros. by apply answered_cons, A3. Qed.
#[local] Hint Resolve same_log_refl same_log_act : machine.

(** ** The gate between two polls *)
Record gate_ok (e : EmissionState) : Prop := {
  gk_pending : forall event, em_pending e = Some event ->
    em_outstanding e = true /\ em_acknowledged e = false /\ is_terminal (staged_payload event) = false;
  gk_outstanding : em_outstanding e = true -> is_Some (em_pending e) \/ em_acknowledged e = true;
  gk_acknowledged : em_acknowledged e = true -> em_outstanding e = true;
}.

Lemma gate_move_ok e e' : gate_move e e' -> gate_ok e -> gate_ok e'.
Proof.
  intros Hm [Hp Ho Ha]. destruct Hm as [(E1 & E2 & E3)|[(E1 & E2 & E3 & event & E4 & E5)|(E1 & E2 & E3 & E4)]].
  - constructor; rewrite ?E1, ?E2, ?E3; auto.
  - constructor; rewrite ?E2, ?E3, ?E4; eauto. by intros ? [= <-].
  - destruct (em_pending e) as [event|] eqn:Ep; [destruct (Hp event eq_refl) as (_ & ? & _); congruence|].
    constructor; rewrite ?E2, ?E3, ?E4; done.
Qed.

Definition seqno (i : nat) : N := N.min (N.of_nat i) U64_MAX.

Lemma seqno_next i : saturating_add (seqno i) 1 = seqno (S i).
Proof. unfold saturating_add, seqno. lia. Qed.

Lemma own_evolves me s s' : own me s s' -> evolves s s'.
Proof. intros Ho. destruct (Ho (S me)) as [R _ _ _]; [lia|]. apply R. Qed.

(** ** Progress of a workflow *)
(** One step of a program leaves one of its parts; a poll leaves a part of it. *)
Definition child {A} (p' p : sprog A) : Prop :=
  match p with
  | Ret _ | Panic => False
  | Act _ k => exists x, p' = k x
  | Ask _ k => exists x, p' = k x
  | Yield _ k => p' = k
  | Wait _ _ k => exists x, p' = k x
  end.

Lemma child_wf A : well_founded (@child A).
Proof.
  intros p. induction p as [a| |X f k IH|q k IH|d k IH|X r d k IH]; constructor; intros p' Hc; simpl in Hc.
  - done.
  - done.
  - destruct Hc as [x ->]. apply IH.
  - destruct Hc as [x ->]. apply IH.
  - subst p'. apply IH.
  - destruct Hc as [x ->]. apply IH.
Qed.

(** A program is below another if it is what a part of it becomes. *)
Definition below {A} : sprog A -> sprog A -> Prop := tc child.

Lemma below_wf A : well_founded (@below A).
Proof.
  intros p. induction (child_wf A p) as [p _ IH]. constructor. intros q Hq.
  induction Hq as [q p Hc|q q' p Hc _ Hacc]; [by apply IH|]. apply (Acc_inv (Hacc IH)). by apply tc_once.
Qed.

Definition delivery_rank (delivery : option PendingDelivery) : nat * nat :=
  match delivery with
  | None => (0, 0)
  | Some d => match pd_future d with EmitPolls k _ => (0, S k) | EmitCall _ => (1, 0) end
  end.

Definition rank_lt (a b : nat * nat) : Prop := fst a < fst b \/ (fst a = fst b /\ snd a < snd b).

Definition state_below (a b : TurnState) : Prop :=
  match a, b with
  | Running _ p, Running _ q => below p q
  | Done, Running _ _ | Done, EmitTerminal _ => True
  | _, _ => False
  end.

(** A poll that does not end the turn brings it nearer to its end. *)
Definition turn_below (a b : Turn) : Prop :=
  state_below (t_state a) (t_state b) \/
  (t_state a = t_state b /\ rank_lt (delivery_rank (t_delivery a)) (delivery_rank (t_delivery b))).

Lemma rank_lt_wf : well_founded rank_lt.
Proof.
  intros [a b]. revert b. induction (lt_wf a) as [a _ IHa]. intros b. induction (lt_wf b) as [b _ IHb].
  constructor. intros [a' b'] [H|[H1 H2]]; simpl in *; [by apply IHa|]. subst a'. by apply IHb.
Qed.

Lemma state_below_wf : well_founded state_below.
Proof.
  assert (Acc state_below Done) as Hd by (constructor; by intros []).
  intros [d p|e|]; [|constructor; by intros []|done].
  revert d. induction (below_wf _ p) as [p _ IH]. intros d. constructor. intros [d' p'|e|] Hb; [by apply IH|done|done].
Qed.

Lemma turn_below_wf : well_founded turn_below.
Proof.
  intros t. remember (t_state t) as st eqn:Est. revert t Est. induction (state_below_wf st) as [st _ IHs]. intros t Est.
  remember (delivery_rank (t_delivery t)) as rk eqn:Erk. revert t Est Erk. induction (rank_lt_wf rk) as [rk _ IHr].
  intros t Est Erk. constructor. intros t' [Hb|[Hs Hr]].
  - eapply IHs; [|done]. by rewrite Est.
  - eapply IHr; [rewrite Erk; exact Hr|congruence|done].
Qed.

Section Stream.
Context {me : nat} {al : event World Query Ans -> Events -> Prop}.
Context {post : outcome WorkflowExit -> World -> Events -> Prop} `{W : !TurnWorkflow me al post}.
(** The turn: its number and its identifiers. *)
Context (n : nat) (sid : SessionId) (inc : SessionIncarnationId) (tid : TurnId).

(** What the stream may do: it calls host code only while its turn has the lease. *)
Definition stream_allowed (e : event World Query Ans) (h : Events) : Prop :=
  match e with
  | EvAct s s' => own me s s'
  | EvAsk s _ _ => lease_holder s = Some me
  | EvDrop _ _ => False
  end.
Notation swp := (wp (others me) any_answer stream_allowed).
Notation wwp := (wp (rely me) any_answer al).

Record live (s : World) : Prop := {
  lv_holder : lease_holder s = Some me;
  lv_scope : length (past_turns s) = n;
  lv_inv : inv s;
}.

(** The lease is given up, and the scopes of the turn are closed. *)
Definition ended (s : World) : Prop :=
  lease_holder s <> Some me /\
  exists t, past_turns s !! n = Some t /\ ts_invocation_open t = false /\ ts_admission_closed t = true.

Lemma live_others s s' : others me s s' -> live s -> live s'.
Proof.
  intros [R _ P _] [Hl Hs Hi]. constructor; [by apply (rely_lease _ _ _ R)|by rewrite P|by eapply inv_rely].
Qed.

Lemma ended_others s s' : others me s s' -> ended s -> ended s'.
Proof.
  intros [R _ _ _] (Hl & t & Ht & Ho & Ha). split; [by intros E; apply Hl, (rely_lease_back _ _ _ R)|].
  destruct (ev_past _ _ (rely_evolves _ _ _ R) _ _ Ht) as (t' & Ht' & [S1 S2 S3]). exists t'. auto.
Qed.

Lemma shared_live s : live s -> shared n s = turn s.
Proof. intros [_ Hs _]. unfold shared. by rewrite Hs, Nat.eqb_refl. Qed.

Lemma update_live f s : live s -> update_shared n f s = set_turn s (f (turn s)).
Proof. intros [_ Hs _]. unfold update_shared. by rewrite Hs, Nat.eqb_refl. Qed.

Lemma set_turn_evolves s t : inv s -> evolves s (set_turn s t).
Proof. intros Hi. apply evolves_same_data; [done..|apply Hi|apply Hi]. Qed.

Lemma set_turn_live s t : live s -> live (set_turn s t).
Proof. intros [Hl Hs Hi]. constructor; try done. by apply set_turn_evolves. Qed.

Lemma set_turn_own s t : live s -> own me s (set_turn s t).
Proof. intros [Hl _ Hi]. apply held_own; [by apply set_turn_evolves|done|by left]. Qed.

(** What the workflow sees of an action of its stream. *)
Lemma set_turn_rely s t :
  live s -> (turn_cancelled s = true -> ts_cancelled t = true) -> delivers (emission s) (ts_emission t) ->
  rely me s (set_turn s t).
Proof. intros [Hl _ Hi] Hc He. constructor; try done. by apply set_turn_evolves. Qed.

(** A suspended workflow: it may be polled again or dropped. *)
Record suspended (d : World -> World) (p : sprog WorkflowExit) (s : World) (hw : Events) : Prop := {
  su_wp : wwp p post s hw;
  su_drop : forall s', rely me s s' -> al (EvDrop s' (d s')) hw;
  su_allowed : all_allowed al hw;
}.

Lemma suspended_rely d p s s' hw : rely me s s' -> suspended d p s hw -> suspended d p s' hw.
Proof.
  intros R [Hw Hd Ha]. constructor; [eapply wp_stable; [apply rely_trans|done..]| |done].
  intros s2 R2. apply Hd. by eapply rely_trans.
Qed.

Lemma suspended_others d p s s' hw : others me s s' -> suspended d p s hw -> suspended d p s' hw.
Proof. intros [R _ _ _]. by apply suspended_rely. Qed.

(** ** Steps of the stream *)
Lemma swp_get {X B} (f : World -> X) (c : X -> sprog B) Q s h :
  (forall s', others me s s' -> swp (c (f s')) Q s' (EvAct s' s' :: h)) -> swp (bind (get f) c) Q s h.
Proof. intros H s' R. split; [apply quiet_own, quiet_refl|]. by apply H. Qed.

(** An action on what a running turn shares. *)
Lemma swp_shared {B} (f : TurnShared -> TurnShared) (c : unit -> sprog B) Q s h :
  live s ->
  (forall s', others me s s' -> live s' -> swp (c tt) Q (set_turn s' (f (turn s'))) (EvAct s' (set_turn s' (f (turn s'))) :: h)) ->
  swp (bind (on_shared n f) c) Q s h.
Proof.
  intros Hl H s' R. pose proof (live_others _ _ R Hl) as Hl'. cbn [fst snd]. rewrite (update_live _ _ Hl').
  split; [by apply set_turn_own|]. by apply H.
Qed.

(** Between the two critical sections of the stream the gate is its own. *)
Lemma others_gate s s' : others me s s' -> live s -> emission s' = emission s.
Proof. intros [_ E _ _] [Hl _ _]. auto. Qed.

(** ** Polling the workflow *)
(** [p] and [e] are the program and the gate at the start of the poll. *)
Definition polled_post (h : Events) (p : sprog WorkflowExit) (e : EmissionState) (o : outcome (Polled WorkflowExit))
    (s : World) (h' : Events) : Prop :=
  match o with
  | Returned polled => exists hw, live s /\ gate_ok (emission s) /\ calls hw = calls h' /\ all_allowed al hw /\
      emitted h' = emitted h /\ (forall event r, answered_by_sink h event r -> answered_by_sink h' event r) /\
      match polled with
      | PolledReady exit => post (Returned exit) s hw
      | PolledPending d rest => suspended d rest s hw /\
          (below rest p \/ (rest = p /\ emission s = e /\ em_outstanding e = true /\ em_acknowledged e = false))
      end
  | _ => False
  end.

Lemma polled_post_child h p' p e' e o s h' : child p' p -> polled_post h p' e' o s h' -> polled_post h p e o s h'.
Proof.
  intros Hc. destruct o as [polled| | |]; simpl; try done. intros (hw & ? & ? & ? & ? & ? & ? & Hp). exists hw. split_and!; try done.
  destruct polled as [exit|d rest]; [done|]. destruct Hp as [Hs Hb]. split; [done|]. left.
  destruct Hb as [Hb|(-> & _)]; [by eapply tc_r|by apply tc_once].
Qed.

Lemma swp_child h0 p' p e s h :
  child p' p -> swp (poll_future p') (polled_post h0 p' (emission s)) s h -> swp (poll_future p') (polled_post h0 p e) s h.
Proof. intros Hc. apply wp_mono. intros o s1 h1. by apply polled_post_child. Qed.

Lemma swp_poll_future (p : sprog WorkflowExit) s h h0 hw :
  wwp p post s hw -> live s -> gate_ok (emission s) -> calls hw = calls h -> all_allowed al hw ->
  emitted h = emitted h0 -> (forall event r, answered_by_sink h0 event r -> answered_by_sink h event r) ->
  swp (poll_future p) (polled_post h0 p (emission s)) s h.
Proof.
  revert s h hw. induction p as [a| |X f k IH|q k IH|d k IH|X r d k IH]; intros s h hw Hp Hl Hg Hc Ha He Hs s1 R1;
    pose proof (ot_rely _ _ _ R1) as Rr; pose proof (live_others _ _ R1 Hl) as Hl1;
    pose proof (others_gate _ _ R1 Hl) as Eg; pose proof (Hp s1 Rr) as Hp1; cbn [poll_future] in *.
  - exists hw. rewrite Eg. by split_and!.
  - by apply wf_panic in Hp1.
  - destruct Hp1 as [Hal Hk]. destruct (wf_act _ _ _ Hal) as [Ho Hh _ Ep Hm]. split; [done|].
    eapply swp_child; [by eexists|].
    eapply IH; [exact Hk| | |done|by split|done|].
    + destruct Hl1 as [_ Hs1 Hi1]. constructor; [done|by rewrite Ep|]. by apply (own_evolves _ _ _ Ho).
    + eapply gate_move_ok; [exact Hm|]. by rewrite Eg.
    + intros event r Hr. by apply answered_cons, Hs.
  - intros x _. destruct (Hp1 x I) as [Hal Hk]. destruct (wf_ask _ _ _ _ Hal) as [_ Hq]. split; [apply Hl1|].
    eapply swp_child; [by eexists|].
    eapply IH; [exact Hk|done|by rewrite Eg| |by split| |].
    + unfold calls in *. simpl. rewrite Hq. simpl. by rewrite Hc.
    + rewrite <-He. unfold emitted. simpl. by destruct q.
    + intros event r Hr. by apply answered_cons, Hs.
  - destruct Hp1 as [_ Hk]. exists hw. rewrite Eg. split_and!; try done; [|left; by apply tc_once]. constructor; [done| |done].
    intros s2 R2. by destruct (Hp s2 (rely_trans _ _ _ _ Rr R2)) as [[? _] _].
  - destruct Hp1 as (_ & Hb & Hk). destruct (r s1) as [[x s2]|] eqn:Er; cbn [fst snd].
    + destruct (Hk x s2 eq_refl) as [Hal Hn]. destruct (wf_act _ _ _ Hal) as [Ho Hh _ Ep Hm]. split; [done|].
      eapply swp_child; [by eexists|].
      eapply IH; [exact Hn| | |done|by split|done|].
      * destruct Hl1 as [_ Hs1 Hi1]. constructor; [done|by rewrite Ep|]. by apply (own_evolves _ _ _ Ho).
      * eapply gate_move_ok; [exact Hm|]. by rewrite Eg.
      * intros event x' Hr. by apply answered_cons, Hs.
    + split; [apply quiet_own, quiet_refl|]. intros s2 R2. exists hw.
      rewrite (others_gate _ _ R2 Hl1), Eg. split_and!; try done; [by eapply live_others| | |].
      { intros event x Hr. by apply answered_cons, Hs. }
      2:{ destruct (wf_blocked _ _ (Hb eq_refl)) as [Hb1 Hb2]. rewrite Eg in Hb1, Hb2. right. done. }
      pose proof (rely_trans _ _ _ _ Rr (ot_rely _ _ _ R2)) as R02. constructor; [|intros s3 R3|done].
      * by eapply wp_stable; [apply rely_trans| |].
      * by destruct (Hp s3 (rely_trans _ _ _ _ R02 R3)) as [[? _] _].
Qed.

(** ** The end of a turn *)
Definition droppable (state : TurnState) (s : World) (hw : Events) : Prop :=
  match state with
  | Running d _ => forall s', rely me s s' -> al (EvDrop s' (d s')) hw
  | _ => True
  end.

(** No call is shown for authorization once the workflow is dropped. *)
Definition clears (state : TurnState) (s : World) : Prop :=
  match state with Running _ _ => True | _ => permission_context s = None end.

Lemma context_rely s s' : rely me s s' -> live s -> permission_context s = None -> permission_context s' = None.
Proof. intros R [Hl _ _] E. by destruct (rely_context _ _ _ R Hl) as [-> _]. Qed.

Lemma droppable_rely state s s' hw : rely me s s' -> live s -> droppable state s hw -> droppable state s' hw.
Proof.
  intros R Hl. destruct state as [d p| |]; simpl; [|done..].
  intros Hd s2 R2. apply Hd. by eapply rely_trans.
Qed.

Lemma clears_rely state s s' : rely me s s' -> live s -> clears state s -> clears state s'.
Proof. intros R Hl. destruct state; [done|by apply context_rely..]. Qed.

Definition past_cancelled (s : World) : Prop :=
  exists t, past_turns s !! n = Some t /\ ts_cancelled t = true.

Lemma past_cancelled_others s s' : others me s s' -> past_cancelled s -> past_cancelled s'.
Proof.
  intros [R _ _ _] (t & Ht & Hc). destruct (ev_past _ _ (rely_evolves _ _ _ R) _ _ Ht) as (t' & Ht' & [S1 _ _]).
  exists t'. auto.
Qed.

(** What a step leaves of a running turn. *)
Record carries (s s' : World) (h h' : Events) : Prop := {
  ca_live : live s';
  ca_log : same_log h h';
  ca_evolves : evolves s s';
  ca_shared : shared_settles (turn s) (turn s');
}.

Lemma carries_others s s' h : others me s s' -> live s -> carries s s' h h.
Proof.
  intros R Hl. constructor; [by eapply live_others|apply same_log_refl|apply R|]. apply (ot_shared _ _ _ R), Hl.
Qed.

Lemma carries_trans s1 s2 s3 h1 h2 h3 : carries s1 s2 h1 h2 -> carries s2 s3 h2 h3 -> carries s1 s3 h1 h3.
Proof.
  intros [_ A2 A3 A4] [B1 B2 B3 B4]. constructor; [done|by eapply same_log_trans|by etrans|by eapply shared_settles_trans].
Qed.

Lemma carries_act s s' s1 h : others me s s1 -> live s -> live s' -> own me s1 s' -> shared_settles (turn s1) (turn s') ->
  carries s s' h (EvAct s1 s' :: h).
Proof.
  intros R Hl Hl' Ho Hs. eapply carries_trans; [by apply carries_others|].
  constructor; [done|apply same_log_act, same_log_refl|by eapply own_evolves|done].
Qed.

Lemma swp_settle {B} m (f : TurnShared -> TurnShared) (c : unit -> sprog B) Q s h :
  m = n -> live s -> (forall t, shared_settles t (f t)) ->
  (forall s1 s' h', others me s s1 -> carries s s' h h' -> s' = set_turn s1 (f (turn s1)) -> swp (c tt) Q s' h') ->
  swp (bind (on_shared m f) c) Q s h.
Proof.
  intros -> Hl Hf H. apply swp_shared; [done|]. intros s1 R1 Hl1. eapply H; [exact R1| |done].
  by apply carries_act; [|done|apply set_turn_live|apply set_turn_own|apply Hf].
Qed.

Lemma swp_drop_state {B} state (c : unit -> sprog B) Q s h hw :
  live s -> droppable state s hw ->
  (forall s' h', carries s s' h h' -> (state = Done -> s' = s) ->
     (clears state s -> permission_context s' = None) -> swp (c tt) Q s' h') ->
  swp (bind (drop_state state) c) Q s h.
Proof.
  intros Hl Hd H. destruct state as [d p|e|]; [|apply H; try done; by apply carries_others; [apply others_refl|]..].
  intros s1 R1. cbn [fst snd]. destruct (wf_drop _ _ _ (Hd s1 (ot_rely _ _ _ R1))) as (Ho & Hh & Hp & Hs & Hx & _).
  split; [done|]. apply H; [|done|done]. apply carries_act; [done|done| |done|done].
  destruct (live_others _ _ R1 Hl) as [_ Hn Hi]. constructor; [done|by rewrite Hp|]. by apply (own_evolves _ _ _ Ho).
Qed.

Lemma end_turn_own s : live s -> permission_context s = None -> own me s (end_turn s).
Proof.
  intros [Hl _ Hi] Hx. apply held_own; [|done|by right]. constructor; try done; [|by left|].
  - intros [Ha _ _]. by constructor.
  - intros i t Ht. exists t. split; [|apply shared_settles_refl]. simpl. by apply lookup_app_l_Some.
Qed.

Lemma past_own f s t :
  past_turns s !! n = Some t -> (forall t, shared_settles t (f t)) ->
  update_shared n f s = set_past_turns s (alter f n (past_turns s)) /\ own me s (set_past_turns s (alter f n (past_turns s))).
Proof.
  intros Ht Hf. pose proof (lookup_lt_Some _ _ _ Ht) as Hlt. split.
  { unfold update_shared. destruct (Nat.eqb_spec n (length (past_turns s))); [lia|done]. }
  assert (evolves s (set_past_turns s (alter f n (past_turns s)))) as He.
  { constructor; try done; [by intros [? ? ?]; constructor|by left|]. intros i u Hu. simpl. destruct (decide (i = n)) as [->|Hi].
    - rewrite list_lookup_alter_eq, Hu. simpl. eauto.
    - rewrite list_lookup_alter_ne by done. exists u. split; [done|apply shared_settles_refl]. }
  intros other _. constructor; [constructor; try done|..]; try done.
  - intros _. apply delivers_refl.
  - intros _. simpl. by rewrite length_alter.
Qed.

Lemma swp_past {B} m f (c : unit -> sprog B) Q s h :
  m = n -> ended s -> (forall t, shared_settles t (f t)) ->
  (forall s' h', ended s' -> same_log h h' -> evolves s s' -> (past_cancelled s -> past_cancelled s') -> swp (c tt) Q s' h') ->
  swp (bind (on_shared m f) c) Q s h.
Proof.
  intros -> He Hf H s1 R1. pose proof (ended_others _ _ R1 He) as (Hl & t & Ht & Ho & Ha).
  destruct (past_own f s1 t Ht Hf) as [E Hown]. cbn [fst snd]. rewrite E. split; [done|].
  assert (past_turns (set_past_turns s1 (alter f n (past_turns s1))) !! n = Some (f t)) as Hft.
  { simpl. by rewrite list_lookup_alter_eq, Ht. }
  pose proof (Hf t) as [S1 S2 S3]. apply H; [|apply same_log_act, same_log_refl|..].
  - split; [done|]. exists (f t). auto.
  - etrans; [apply R1|by eapply own_evolves].
  - intros (u & Hu & Hc)%(past_cancelled_others _ _ R1). rewrite Ht in Hu. injection Hu as <-. exists (f t). auto.
Qed.

Lemma swp_finish {B} t (c : Turn -> sprog B) Q s h hw :
  t_scope t = n -> t_lease t = true -> live s -> droppable (t_state t) s hw -> clears (t_state t) s ->
  (forall s' h', ended s' -> same_log h h' -> evolves s s' -> (turn_cancelled s = true -> past_cancelled s') ->
     swp (c (without_lease (with_state t Done))) Q s' h') ->
  swp (bind (finish t) c) Q s h.
Proof.
  intros Hn Hle Hl Hd Hcl H. unfold finish. rewrite Hle. apply wp_assoc, swp_settle; [done|done|by intros [] |].
  intros s1 s2 h2 R1 C2 E2. apply wp_assoc, swp_settle; [done|apply C2|by intros []|]. intros s3 s4 h4 R3 C4 E4.
  assert (rely me s s4) as R4.
  { eapply rely_trans; [apply R1|]. eapply rely_trans; [apply (set_turn_rely s1 (close_invocation (turn s1)))|].
    - by eapply live_others.
    - done.
    - apply delivers_refl.
    - rewrite <-E2. eapply rely_trans; [apply R3|]. rewrite E4. apply set_turn_rely; [|done|apply delivers_refl].
      eapply live_others; [exact R3|apply C2]. }
  apply wp_assoc. eapply swp_drop_state with (hw := hw); [apply C4| |].
  { by eapply droppable_rely. }
  intros s5 h5 C5 _ X5. specialize (X5 (clears_rely _ _ _ R4 Hl Hcl)). apply wp_assoc, swp_settle; [done|apply C5|by intros []|]. intros s6 s7 h7 R6 C7 E7.
  intros s8 R8. pose proof (live_others _ _ R8 (ca_live _ _ _ _ C7)) as Hl8.
  assert (permission_context s8 = None) as X8.
  { apply (context_rely s7); [apply R8|apply C7|]. rewrite E7. apply (context_rely s5 s6); [apply R6|apply C5|done]. }
  split; [by apply end_turn_own|]. cbn [fst snd].
  pose proof (carries_trans _ _ _ _ _ _ C2 (carries_trans _ _ _ _ _ _ C4 (carries_trans _ _ _ _ _ _ C5 C7))) as C07.
  assert (shared_settles (turn s4) (turn s8)) as S8.
  { eapply shared_settles_trans; [apply C5|]. eapply shared_settles_trans; [apply C7|]. apply (ot_shared _ _ _ R8), C7. }
  assert (past_turns (end_turn s8) !! n = Some (turn s8)) as Hp.
  { destruct Hl8 as [_ Hs _]. simpl. by rewrite lookup_app_r, Hs, Nat.sub_diag by lia. }
  apply wp_assoc, swp_past; [done| |by intros []|].
  { split; [done|]. exists (turn s8). destruct S8 as [_ S2 S3].
    split_and!; [done|apply S2|apply S3]; rewrite E4; simpl; [|done]. by apply (ss_invocation _ _ (ot_shared _ _ _ R3 (lv_holder _ (ca_live _ _ _ _ C2)))); rewrite E2. }
  intros s9 h9 He9 L9 Ev9 Hpc9. apply H; [done|..].
  - eapply same_log_trans; [|exact L9]. apply same_log_act. apply C07.
  - etrans; [apply C07|]. etrans; [apply R8|]. etrans; [by eapply own_evolves, end_turn_own; [exact Hl8|]|done].
  - intros Hc. apply Hpc9. exists (turn s8). split; [done|]. apply (ss_cancelled _ _ (ot_shared _ _ _ R8 (lv_holder _ (ca_live _ _ _ _ C7)))).
    by apply (ca_shared _ _ _ _ C07).
Qed.
(** ** The invariant of a stream *)
Definition event_at (i : nat) (payload : TurnEvent) : EngineEvent :=
  {| ev_session_id := sid; ev_session_incarnation_id := inc; ev_turn_id := tid; ev_sequence := seqno i;
     ev_payload := payload |}.

Record stamped (t : Turn) : Prop := {
  sp_scope : t_scope t = n;
  sp_session : t_session_id t = sid;
  sp_incarnation : t_session_incarnation_id t = inc;
  sp_turn : t_id t = tid;
}.

Definition exit_event (exit : WorkflowExit) : option TurnEvent :=
  match exit with
  | ExitCompleted reason usage => Some (Completed reason usage)
  | ExitFailed failure => Some (TurnFailure_into_event failure)
  | ExitCancelled => None
  end.

(** A workflow that was given up before it completed. *)
Definition unfinished (hw : Events) : Prop :=
  (exists d p s1, suspended d p s1 hw) \/
  exists exit s1, post (Returned exit) s1 hw /\ match exit with ExitCompleted _ _ => False | _ => True end.

(** The terminal event of the turn: of a cancellation, or of the workflow's result. *)
Definition terminal_event (local : bool) (payload : TurnEvent) (s : World) (hw : Events) : Prop :=
  is_terminal payload = true /\
  if local then (exists usage, payload = Completed Stop_Cancelled usage) /\ unfinished hw /\
                (turn_cancelled s = true \/ exists s1, post (Returned ExitCancelled) s1 hw)
  else exists exit s1, exit_event exit = Some payload /\ post (Returned exit) s1 hw.

Definition delivery_ok (ys : list EngineEvent) (event : EngineEvent) (f : DeliveryFuture) (h : Events) : Prop :=
  match f with
  | EmitCall observed => observed = event /\ emitted h = rev ys
  | EmitPolls _ r => emitted h = event :: rev ys /\ answered_by_sink h event r
  end.

(** A turn that has the lease, after [i] events. *)
Record underway (i : nat) (t : Turn) (s : World) : Prop := {
  uw_lease : t_lease t = true;
  uw_sequence : t_sequence t = seqno i;
  uw_live : live s;
}.

Inductive phase (ys : list EngineEvent) (t : Turn) (s : World) (h hw : Events) : Prop :=
| ph_running d p :
    underway (length ys) t s -> t_state t = Running d p -> t_delivery t = None ->
    t_locally_synthesized_cancellation t = false -> suspended d p s hw -> gate_ok (emission s) ->
    em_pending (emission s) = None -> emitted h = rev ys -> phase ys t s h hw
| ph_delivering d p payload f :
    underway (S (length ys)) t s -> t_state t = Running d p ->
    t_delivery t = Some {| pd_event := event_at (length ys) payload; pd_future := f |} ->
    t_locally_synthesized_cancellation t = false -> suspended d p s hw -> is_terminal payload = false ->
    em_outstanding (emission s) = true -> em_acknowledged (emission s) = false -> em_pending (emission s) = None ->
    delivery_ok ys (event_at (length ys) payload) f h -> phase ys t s h hw
| ph_terminal payload :
    underway (length ys) t s -> t_state t = EmitTerminal payload -> t_delivery t = None -> t_terminal_seen t = true ->
    terminal_event (t_locally_synthesized_cancellation t) payload s hw -> emitted h = rev ys ->
    permission_context s = None -> phase ys t s h hw
| ph_delivering_terminal payload f :
    underway (S (length ys)) t s -> t_state t = Done ->
    t_delivery t = Some {| pd_event := event_at (length ys) payload; pd_future := f |} -> t_terminal_seen t = true ->
    terminal_event (t_locally_synthesized_cancellation t) payload s hw ->
    delivery_ok ys (event_at (length ys) payload) f h -> permission_context s = None -> phase ys t s h hw
| ph_ended :
    t_lease t = false -> t_state t = Done -> t_delivery t = None -> t_terminal_seen t = true -> ended s ->
    phase ys t s h hw.

(** [ys] are the events yielded so far, none of them terminal. *)
Record stream_inv (ys : list EngineEvent) (t : Turn) (s : World) (h hw : Events) : Prop := {
  si_stamped : stamped t;
  si_yielded : forall i event, ys !! i = Some event ->
    event = event_at i (ev_payload event) /\ is_terminal (ev_payload event) = false /\ taken h event;
  si_calls : calls hw = calls h;
  si_allowed : all_allowed al hw;
  si_phase : phase ys t s h hw;
}.

(** The last item: the terminal event, taken by the sink or cancelled. *)
Definition final (ys : list EngineEvent) (event : EngineEvent) (s : World) (h hw : Events) : Prop :=
  (exists exit s1, exit_event exit = Some (ev_payload event) /\ post (Returned exit) s1 hw /\
     event = event_at (length ys) (ev_payload event) /\ taken h event) \/
  ((exists usage, ev_payload event = Completed Stop_Cancelled usage) /\ unfinished hw /\
   (event = event_at (length ys) (ev_payload event) \/ event = event_at (S (length ys)) (ev_payload event)) /\
   (past_cancelled s \/ exists s1, post (Returned ExitCancelled) s1 hw)).

(** The sink refused the event after [ys]. *)
Definition refused (ys : list EngineEvent) (e : EngineError) (h : Events) : Prop :=
  exists event error, emitted h = event :: rev ys /\ answered_by_sink h event (Err error) /\
    e = Engine_EventSink (redact_event_sink_error error).

(** What a poll of a turn that has the lease may do; if the turn goes on, it has
    progressed in the sense of [K]. *)
Definition poll_post (K : Turn -> Prop) (ys : list EngineEvent) (o : outcome (Poll (option TurnItem) * Turn)) (s : World) (h : Events) : Prop :=
  match o with
  | Returned (Pending, t) => t_lease t = true /\ K t /\ exists hw, stream_inv ys t s h hw
  | Returned (Ready (Some (Ok event)), t) =>
      if is_terminal (ev_payload event)
      then t_lease t = false /\ exists hw, stream_inv ys t s h hw /\ final ys event s h hw
      else t_lease t = true /\ K t /\ exists hw, stream_inv (ys ++ [event]) t s h hw
  | Returned (Ready (Some (Err e)), t) => t_lease t = false /\ refused ys e h /\ exists hw, stream_inv ys t s h hw
  | _ => False
  end.

Lemma turn_event_at t i payload : stamped t -> t_sequence t = seqno i -> turn_event t payload = event_at i payload.
Proof. intros [_ E1 E2 E3] E. unfold turn_event, event_at. by rewrite E, E1, E2, E3. Qed.

Lemma underway_others i t s s' : others me s s' -> underway i t s -> underway i t s'.
Proof. intros R [H1 H2 H3]. constructor; [done|done|by eapply live_others]. Qed.

Lemma terminal_event_others local payload s s' hw :
  others me s s' -> live s -> terminal_event local payload s hw -> terminal_event local payload s' hw.
Proof.
  intros [R _ _ _] [Hl _ _] [Ht H]. split; [done|]. destruct local; [|done]. destruct H as (Hu & Hf & [Hc|Hx]); split_and!; auto.
  left. by apply (rely_cancelled _ _ _ R).
Qed.

Lemma delivery_ok_log ys event f h h' : same_log h h' -> delivery_ok ys event f h -> delivery_ok ys event f h'.
Proof. intros [_ E A]. destruct f; simpl; rewrite E; [done|]. intros [? ?]. split; [done|by apply A]. Qed.

(** The invariant is kept by other tasks and by steps that only read. *)
Lemma phase_step ys t s s' h h' hw :
  others me s s' -> same_log h h' -> phase ys t s h hw -> phase ys t s' h' hw.
Proof.
  intros R L. destruct 1 as [d p U|d p payload f U|payload U|payload f U|].
  - eapply ph_running; try done; rewrite ?(others_gate _ _ R (uw_live _ _ _ U)), ?(sl_emitted _ _ L); try done;
      [by eapply underway_others|by eapply suspended_others].
  - eapply ph_delivering; try done; rewrite ?(others_gate _ _ R (uw_live _ _ _ U)); try done;
      [by eapply underway_others|by eapply suspended_others|by eapply delivery_ok_log].
  - eapply ph_terminal; try done; rewrite ?(sl_emitted _ _ L); try done; [by eapply underway_others| |].
    + by eapply terminal_event_others; [|apply U|].
    + by eapply context_rely; [apply R|apply U|].
  - eapply ph_delivering_terminal; try done; [by eapply underway_others| |by eapply delivery_ok_log|].
    + by eapply terminal_event_others; [|apply U|].
    + by eapply context_rely; [apply R|apply U|].
  - eapply ph_ended; try done. by eapply ended_others.
Qed.

Lemma stream_inv_step ys t s s' h h' hw :
  others me s s' -> same_log h h' -> stream_inv ys t s h hw -> stream_inv ys t s' h' hw.
Proof.
  intros R L [H1 H2 H3 H4 H5]. constructor; [done| | |done|by eapply phase_step].
  - intros i event Hi. destruct (H2 i event Hi) as (? & ? & ?). split_and!; try done. by apply (sl_answered _ _ L).
  - by rewrite (sl_calls _ _ L).
Qed.

Lemma stream_inv_read ys t s s' h hw : others me s s' -> stream_inv ys t s h hw -> stream_inv ys t s' (EvAct s' s' :: h) hw.
Proof. intros R. apply stream_inv_step; [done|]. apply same_log_act, same_log_refl. Qed.

(** ** Cancellation *)
Lemma others_cancelled s s' : others me s s' -> live s -> turn_cancelled s = true -> turn_cancelled s' = true.
Proof. intros [R _ _ _] [Hl _ _]. by apply (rely_cancelled _ _ _ R). Qed.

Ltac solve_stamped := match goal with Hi : stream_inv _ _ _ _ _ |- _ => by destruct (si_stamped _ _ _ _ _ Hi) end.

Lemma stream_inv_ended ys t s s' h h' hw :
  stream_inv ys t s h hw -> same_log h h' -> ended s' ->
  forall t', stamped t' -> t_lease t' = false -> t_state t' = Done -> t_delivery t' = None -> t_terminal_seen t' = true ->
  stream_inv ys t' s' h' hw.
Proof.
  intros [H1 H2 H3 H4 _] L He t' Hs Hl Hd Hn Ht. constructor; [done| |by rewrite (sl_calls _ _ L)|done|by apply ph_ended].
  intros i event Hi. destruct (H2 i event Hi) as (? & ? & ?). split_and!; try done. by apply (sl_answered _ _ L).
Qed.

Lemma swp_cancel_pending {B} ys t (c : option EngineEvent * Turn -> sprog B) Q s h hw :
  stream_inv ys t s h hw ->
  (forall s' h', stream_inv ys t s' h' hw -> others me s s' -> same_log h h' -> swp (c (None, t)) Q s' h') ->
  (forall event t' s' h', is_Some (t_delivery t) -> is_terminal (ev_payload event) = true -> t_lease t' = false ->
     stream_inv ys t' s' h' hw -> final ys event s' h' hw -> swp (c (Some event, t')) Q s' h') ->
  swp (bind (cancel_pending_delivery t) c) Q s h.
Proof.
  intros Hi Hnone Hsome. unfold cancel_pending_delivery. apply wp_assoc, swp_get. intros s1 R1.
  pose proof (stream_inv_read _ _ _ _ _ _ R1 Hi) as Hi1.
  destruct (ts_cancelled (shared (t_scope t) s1)) eqn:Ec; cbn [negb]; [|apply Hnone; eauto with machine].
  pose proof (fun s2 R2 => others_trans _ _ _ s2 R1 R2) as R12.
  apply wp_assoc, swp_get. intros s2 R2. pose proof (stream_inv_read _ _ _ _ _ _ R2 Hi1) as Hi2.
  assert (same_log h (EvAct s2 s2 :: EvAct s1 s1 :: h)) as L2 by eauto with machine.
  specialize (R12 s2 R2). destruct (cancellation_deferred _) eqn:Ed; [by apply Hnone|].
  destruct (t_delivery t) as [pending|] eqn:Et; [|by apply Hnone].
  assert (forall i, underway i t s2 -> turn_cancelled s2 = true) as Hcan.
  { intros i U. destruct (si_phase _ _ _ _ _ Hi1) as [? ? U1|? ? ? ? U1|? U1|? ? U1|]; try congruence;
      destruct Hi as [[Hn _ _ _] _ _ _ _]; rewrite Hn in Ec; rewrite (shared_live _ (uw_live _ _ _ U1)) in Ec;
      by apply (others_cancelled _ _ R2 (uw_live _ _ _ U1)). }
  destruct (si_phase _ _ _ _ _ Hi2) as [d p U|d p payload f U Est Edel Eloc Hsu Hnt Ho Ha Hp Hok|payload U|payload f U Est Edel Eseen [Ht Hte] Hok|];
    try congruence; rewrite Et in Edel; injection Edel as ->.
  - rewrite Eloc. cbn [andb negb]. destruct (t_terminal_seen t) eqn:Eseen; cbn [andb negb]; [by apply Hnone|].
    cbv zeta. apply wp_assoc. eapply swp_finish with (hw := hw); [by apply Hi|apply U|apply U| | |].
    { cbn [t_state with_flags with_delivery]. rewrite Est. exact (su_drop _ _ _ _ Hsu). }
    { cbn [t_state with_flags with_delivery]. by rewrite Est. }
    intros s3 h3 He3 L3 _ Hpc. apply Hsome; [done|done|done| |].
    + eapply stream_inv_ended; [exact Hi2|done|done|solve_stamped|done..].
    + right. split; [by eexists|]. split; [left; by eauto|]. split; [right|left; by eapply Hpc, Hcan].
      erewrite turn_event_at; [done|solve_stamped|apply U].
  - cbn [pd_event ev_payload event_at]. rewrite Eseen. cbn [andb].
    destruct (t_locally_synthesized_cancellation t) eqn:Eloc; cbn [andb negb]; [|by apply Hnone].
    destruct Hte as ([usage ->] & Hun & Hcause). cbn [is_cancellation negb].
    apply wp_assoc. eapply swp_finish with (hw := hw); [by apply Hi|apply U|apply U| | |].
    { cbn [t_state with_flags with_delivery]. by rewrite Est. }
    { cbn [t_state with_flags with_delivery]. by rewrite Est. }
    intros s3 h3 He3 L3 _ Hpc. apply Hsome; [done|done|done| |].
    + eapply stream_inv_ended; [exact Hi2|done|done|solve_stamped|done..].
    + right. split; [by eexists|]. split; [done|]. split; [by left|]. left. by eapply Hpc, Hcan.
Qed.

Lemma swp_fail_before_terminal {B} t (c : Turn -> sprog B) Q s h hw :
  stamped t -> t_lease t = true -> live s -> droppable (t_state t) s hw -> clears (t_state t) s -> t_delivery t = None ->
  (forall t' s' h', stamped t' -> t_lease t' = false -> t_state t' = Done -> t_delivery t' = None ->
     t_terminal_seen t' = true -> ended s' -> same_log h h' -> swp (c t') Q s' h') ->
  swp (bind (fail_before_terminal t) c) Q s h.
Proof.
  intros Hst Hle Hl Hd Hcl Hdel H. unfold fail_before_terminal. apply wp_assoc.
  assert (forall s' h', rely me s s' -> live s' -> same_log h h' -> swp (bind (finish
    (with_flags t (t_usage t) true (t_locally_synthesized_cancellation t))) c) Q s' h') as Hf.
  { intros s' h' R Hl' L. eapply swp_finish with (hw := hw); [by destruct Hst|done|done| | |].
    - by eapply droppable_rely.
    - by eapply clears_rely.
    - intros s2 h2 He L2 _ _. apply H; try done; [by destruct Hst|by eapply same_log_trans]. }
  destruct (t_terminal_seen t); [by apply Hf; [apply rely_refl| |apply same_log_refl]|].
  apply swp_settle; [by destruct Hst|done|by intros []|]. intros s1 s2 h2 R1 C2 E2.
  apply Hf; [|apply C2|apply C2]. eapply rely_trans; [apply R1|]. rewrite E2.
  apply set_turn_rely; [by eapply live_others|done|apply delivers_refl].
Qed.

(** ** Deliveries *)
Lemma yielded_snoc ys event h h' :
  (forall i event, ys !! i = Some event ->
     event = event_at i (ev_payload event) /\ is_terminal (ev_payload event) = false /\ taken h event) ->
  event = event_at (length ys) (ev_payload event) -> is_terminal (ev_payload event) = false -> taken h event ->
  same_log h h' ->
  forall i e, (ys ++ [event]) !! i = Some e ->
     e = event_at i (ev_payload e) /\ is_terminal (ev_payload e) = false /\ taken h' e.
Proof.
  intros Hy He Hn Ht L i e Hi. destruct (decide (i < length ys)) as [Hlt|Hge].
  - rewrite lookup_app_l in Hi by done. destruct (Hy i e Hi) as (? & ? & ?). split_and!; try done. by apply (sl_answered _ _ L).
  - pose proof (lookup_lt_Some _ _ _ Hi) as Hle. rewrite length_app in Hle. simpl in Hle. assert (i = length ys) as -> by lia.
    rewrite list_lookup_middle in Hi by done. injection Hi as <-. split_and!; try done. by apply (sl_answered _ _ L).
Qed.

(** An event the sink has taken: the gate is acknowledged, and the workflow may go on. *)
Lemma swp_acknowledge (K : Turn -> Prop) ys t payload f s h hw d p :
  K (with_delivery t None (t_sequence t)) ->
  stream_inv ys t s h hw -> t_delivery t = Some {| pd_event := event_at (length ys) payload; pd_future := f |} ->
  is_terminal payload = false -> taken h (event_at (length ys) payload) ->
  emitted h = event_at (length ys) payload :: rev ys ->
  underway (S (length ys)) t s -> t_state t = Running d p -> t_locally_synthesized_cancellation t = false ->
  suspended d p s hw -> em_outstanding (emission s) = true -> em_pending (emission s) = None ->
  swp (bind (on_gate (t_scope t) acknowledge) (fun _ => Ret (Ready (Some (Ok (event_at (length ys) payload))),
         with_delivery t None (t_sequence t)))) (poll_post K ys) s h.
Proof.
  intros HK Hi Edel Hnt Htk Hem U Est Eloc Hsu Ho Hp.
  apply swp_settle; [by destruct (si_stamped _ _ _ _ _ Hi)|apply U|by intros []|].
  intros s1 s2 h2 R1 C2 E2 s3 R3. cbn [poll_post ev_payload event_at]. rewrite Hnt. split; [apply U|]. split; [exact HK|]. exists hw.
  pose proof (live_others _ _ R1 (uw_live _ _ _ U)) as Hl1. pose proof (others_gate _ _ R1 (uw_live _ _ _ U)) as Eg.
  assert (emission s2 = acknowledge (emission s)) as Eg2 by (rewrite E2, <-Eg; done).
  eapply stream_inv_step; [exact R3|apply same_log_refl|]. destruct Hi as [Hst Hy Hc Hal _]. constructor.
  - by destruct Hst.
  - by eapply yielded_snoc; [exact Hy|done|done|done|apply C2].
  - by rewrite (sl_calls _ _ (ca_log _ _ _ _ C2)).
  - done.
  - eapply ph_running; [|exact Est|done|exact Eloc| | | |].
    + constructor; [apply U| |apply C2]. rewrite length_app, Nat.add_1_r. apply U.
    + eapply suspended_rely; [|exact Hsu]. eapply rely_trans; [apply R1|]. rewrite E2. apply set_turn_rely; [done|done|].
      rewrite <-Eg in Ho, Hp. fold (emission s1). constructor; simpl; try done; [congruence|by left|by right].
    + rewrite Eg2. constructor; simpl; try done; [congruence|by right].
    + by rewrite Eg2.
    + rewrite (sl_emitted _ _ (ca_log _ _ _ _ C2)), Hem. by rewrite rev_unit.
Qed.

(** A delivery of a running turn, whose owner is left when it is settled. *)
Lemma swp_settle_delivery (K : Turn -> Prop) ys t event f r s h hw :
  K (with_delivery t None (t_sequence t)) ->
  stream_inv ys t s h hw -> t_delivery t = Some {| pd_event := event; pd_future := f |} ->
  emitted h = event :: rev ys -> answered_by_sink h event r ->
  swp (settle_delivery t event r) (poll_post K ys) s h.
Proof.
  intros HK Hi Edel Hem Hans. pose proof (si_stamped _ _ _ _ _ Hi) as Hst.
  assert (exists i, underway i t s /\ droppable (t_state t) s hw /\ clears (t_state t) s) as (i & U & Hd & Hcl).
  { destruct (si_phase _ _ _ _ _ Hi) as [? ? ? ? ?|d p ? ? U Est ? ? Hsu|? ? ? ?|? ? U Est|]; try congruence;
      eexists; (split; [exact U|]); rewrite Est; (split; [|done]); [exact (su_drop _ _ _ _ Hsu)|done]. }
  unfold settle_delivery. destruct r as [[]|error]; cbv zeta.
  - destruct (si_phase _ _ _ _ _ Hi) as [? ? ? ? ?|d p payload f' U' Est Edel' Eloc Hsu Hnt Ho Ha Hp Hok|? ? ? ?|payload f' U' Est Edel' Eseen [Hte1 Hte] Hok|];
      try congruence; rewrite Edel in Edel'; injection Edel' as -> ->; cbn [ev_payload event_at].
    + rewrite Hnt. apply wp_assoc. by apply (swp_acknowledge K ys t payload f' s h hw d p).
    + rewrite Hte1. eapply swp_finish with (hw := hw); [apply Hst|apply U|apply U|done|done|].
      intros s1 h1 He L _ Hpc s2 R2. cbn [poll_post ev_payload event_at]. rewrite Hte1. split; [done|]. exists hw.
      split; [eapply stream_inv_step; [exact R2|apply same_log_refl|]; eapply stream_inv_ended; [exact Hi|done|done|by destruct Hst|done..]|].
      destruct (t_locally_synthesized_cancellation t).
      * right. destruct Hte as ([usage ->] & Hun & [Hc|Hx]); split_and!; eauto. left. by eapply past_cancelled_others, Hpc.
      * left. destruct Hte as (exit & s3 & ? & ?). exists exit, s3. split_and!; try done. by apply (sl_answered _ _ L).
  - eapply swp_fail_before_terminal with (hw := hw); [by destruct Hst|apply U|apply U|done|done|done|].
    intros t' s1 h1 Hst' Hle Hs Hd' Hseen He L s2 R2. split; [done|]. split.
    + exists event, error. split_and!; [by rewrite (sl_emitted _ _ L)|by apply (sl_answered _ _ L)|done].
    + exists hw. eapply stream_inv_step; [exact R2|apply same_log_refl|]. by eapply stream_inv_ended.
Qed.

(** The delivery after a poll of the sink's future. *)
Lemma stream_inv_polled ys t event f f' s s' h h' hw :
  stream_inv ys t s h hw -> t_delivery t = Some {| pd_event := event; pd_future := f |} ->
  others me s s' -> calls h' = calls h ->
  (forall e r, answered_by_sink h e r -> answered_by_sink h' e r) ->
  delivery_ok ys event f' h' ->
  stream_inv ys (with_delivery t (Some {| pd_event := event; pd_future := f' |}) (t_sequence t)) s' h' hw.
Proof.
  intros [Hst Hy Hc Hal Hph] Edel R Ec Ha Hok. constructor; [by destruct Hst| |by rewrite Ec|done|].
  - intros i e Hi. destruct (Hy i e Hi) as (? & ? & ?). auto.
  - destruct Hph as [? ? ? ? ?|d p payload f0 U Est Edel' Eloc Hsu Hnt Ho Hk Hp _|? ? ? ?|payload f0 U Est Edel' Eseen Hte _|]; try congruence;
      rewrite Edel in Edel'; injection Edel' as -> ->.
    + eapply ph_delivering; try done; rewrite ?(others_gate _ _ R (uw_live _ _ _ U)); try done; [|by eapply suspended_others].
      destruct (underway_others _ _ _ _ R U). by constructor.
    + eapply ph_delivering_terminal; try done; [|by eapply terminal_event_others; [|apply U|]|by eapply context_rely; [apply R|apply U|]].
      destruct (underway_others _ _ _ _ R U). by constructor.
Qed.

Lemma delivery_phase ys t s h hw event f :
  stream_inv ys t s h hw -> t_delivery t = Some {| pd_event := event; pd_future := f |} ->
  delivery_ok ys event f h /\ live s /\ t_lease t = true.
Proof.
  intros [_ _ _ _ Hph] Edel.
  destruct Hph as [? ? ? ? ?|d p payload f0 U Est Edel' ? ? ? ? ? ? Hok|? ? ? ?|payload f0 U Est Edel' ? ? Hok|]; try congruence;
    rewrite Edel in Edel'; injection Edel' as -> ->; (split; [done|split; apply U]).
Qed.

Lemma swp_final (K : Turn -> Prop) ys event t s h hw :
  is_terminal (ev_payload event) = true -> t_lease t = false -> stream_inv ys t s h hw -> final ys event s h hw ->
  swp (Ret (Ready (Some (Ok event)), t)) (poll_post K ys) s h.
Proof.
  intros Ht Hle Hi Hf s' R. cbn [poll_post]. rewrite Ht. split; [done|]. exists hw.
  split; [by eapply stream_inv_step; [exact R|apply same_log_refl|]|].
  destruct Hf as [?|(? & ? & ? & [?|?])]; [by left|right; split_and!; try done; left; by eapply past_cancelled_others|by right; auto].
Qed.

(** What a poll of the sink's future leads to. *)
Lemma swp_polled (K : Turn -> Prop) ys t event polled s h hw r k :
  K (with_delivery t None (t_sequence t)) ->
  (forall k', k = S k' -> K (with_delivery t (Some {| pd_event := event; pd_future := EmitPolls k' r |}) (t_sequence t))) ->
  polled = poll_emitted k r ->
  stream_inv ys (with_delivery t (Some {| pd_event := event; pd_future := snd polled |}) (t_sequence t)) s h hw ->
  swp (do cancelled <- cancel_pending_delivery (with_delivery t (Some {| pd_event := event; pd_future := snd polled |}) (t_sequence t));
       let '(event, t) := cancelled in
       match event, fst polled with
       | Some event, _ => Ret (Ready (Some (Ok event)), t)
       | None, Pending => Ret (Pending, t)
       | None, Ready result =>
           match t_delivery t with
           | None => do t <- fail_before_terminal t; Ret (Ready (Some (Err delivery_lost)), t)
           | Some delivery => settle_delivery t (pd_event delivery) result
           end
       end) (poll_post K ys) s h.
Proof.
  intros HK1 HK2 -> Hi. eapply swp_cancel_pending; [exact Hi| |intros; by eapply swp_final].
  intros s1 h1 Hi1 _ _. destruct k as [|k]; cbn [poll_emitted fst snd].
  - cbn [t_delivery with_delivery pd_event]. destruct (delivery_phase _ _ _ _ _ _ _ Hi1 eq_refl) as ([Hem Hans] & _).
    by eapply swp_settle_delivery.
  - intros s2 R2. split; [by destruct (delivery_phase _ _ _ _ _ _ _ Hi1 eq_refl) as (_ & _ & ?)|].
    split; [by apply HK2|]. exists hw. by eapply stream_inv_step; [exact R2|apply same_log_refl|].
Qed.

(** A poll of a delivery brings it nearer to its end. *)
Definition delivers_on (t t' : Turn) : Prop :=
  t_state t' = t_state t /\ rank_lt (delivery_rank (t_delivery t')) (delivery_rank (t_delivery t)).

Ltac on_delivery E := split; [done|]; rewrite E; unfold rank_lt; simpl; lia.

Lemma swp_poll_delivery (K : Turn -> Prop) ys t s h hw :
  (forall t', delivers_on t t' -> K t') ->
  stream_inv ys t s h hw -> is_Some (t_delivery t) -> swp (poll_delivery t) (poll_post K ys) s h.
Proof.
  intros HK Hi [[event f] Edel]. unfold poll_delivery.
  eapply swp_cancel_pending; [exact Hi| |intros; by eapply swp_final].
  intros s1 h1 Hi1 _ _. cbv zeta. rewrite Edel. cbn [pd_event pd_future].
  destruct (delivery_phase _ _ _ _ _ _ _ Hi1 Edel) as (Hok & Hl & _). destruct f as [observed|k r]; cbn [poll_delivery_future].
  - destruct Hok as [-> Hem]. apply wp_assoc. intros s2 R2 x _. split; [by apply (live_others _ _ R2)|]. simpl_prog.
    apply (swp_polled K ys t event _ s2 _ hw (snd x) (fst x)); [apply HK; on_delivery Edel|intros k' _; apply HK; on_delivery Edel|done|]. eapply stream_inv_polled; [exact Hi1|exact Edel|done|done| |].
    + intros e r Hr. by apply answered_cons.
    + assert (answered_by_sink (@EvAsk World Query Ans s2 (Q_emit event) x :: h1) event (snd x)) as Ha.
      { exists s2, (fst x). destruct x. by left. }
      assert (emitted (@EvAsk World Query Ans s2 (Q_emit event) x :: h1) = event :: rev ys) as He by (by rewrite <-Hem).
      by destruct x as [[|k] r].
  - simpl_prog. apply (swp_polled K ys t event _ s1 _ hw r k); [apply HK; on_delivery Edel|intros k' ->; apply HK; on_delivery Edel|done|].
    eapply stream_inv_polled; [exact Hi1|exact Edel|apply others_refl|done|done|]. by destruct k.
Qed.

(** ** The loop *)
Lemma stream_inv_flags ys t usage seen s h hw :
  (t_terminal_seen t = true -> seen = true) -> stream_inv ys t s h hw ->
  stream_inv ys (with_flags t usage seen (t_locally_synthesized_cancellation t)) s h hw.
Proof.
  intros Hs [Hst Hy Hc Hal Hph]. constructor; try done; [by destruct Hst|].
  destruct Hph as [d p [? ? ?]|d p payload f [? ? ?]|payload [? ? ?]|payload f [? ? ?]|].
  - by eapply ph_running.
  - by eapply ph_delivering.
  - eapply ph_terminal; first [done|by apply Hs|by constructor].
  - eapply ph_delivering_terminal; first [done|by apply Hs|by constructor].
  - eapply ph_ended; try done. by apply Hs.
Qed.

Lemma swp_read_gate {B} t (c : Turn -> sprog B) Q s h :
  (forall s' h' usage terminal, others me s s' -> same_log h h' ->
     (t_scope t = n -> live s -> em_terminal_established (emission s) = true -> terminal = true) ->
     swp (c (with_flags t usage (t_terminal_seen t || terminal) (t_locally_synthesized_cancellation t))) Q s' h') ->
  swp (bind (read_gate t) c) Q s h.
Proof.
  intros H. unfold read_gate, gate_usage, gate_terminal. apply wp_assoc, swp_get. intros s1 R1. apply wp_assoc, swp_get.
  intros s2 R2. pose proof (others_trans _ _ _ _ R1 R2) as R. apply H; [done|by eauto with machine|].
  intros Hn Hl He. rewrite Hn, shared_live by by eapply live_others. fold (emission s2). by rewrite (others_gate _ _ R Hl).
Qed.

Definition cancelling (t : Turn) : Turn :=
  with_state (with_flags t (t_usage t) true true) (EmitTerminal (Completed Stop_Cancelled (t_usage t))).

(** Observing a cancellation: the workflow is dropped. *)
Lemma swp_observe {B} t (c : bool * Turn -> sprog B) Q s h hw :
  (t_terminal_seen t = false -> t_scope t = n /\ live s /\ droppable (t_state t) s hw) ->
  (forall s' h', others me s s' -> same_log h h' -> swp (c (false, t)) Q s' h') ->
  (forall s' h', carries s s' h h' -> turn_cancelled s' = true -> t_terminal_seen t = false ->
     (t_state t = Done -> others me s s') -> (clears (t_state t) s -> permission_context s' = None) ->
     swp (c (true, cancelling t)) Q s' h') ->
  swp (bind (establish_cancellation_if_observed t) c) Q s h.
Proof.
  intros Hpre Hfalse Htrue. unfold establish_cancellation_if_observed. apply wp_assoc, swp_get. intros s1 R1.
  destruct (t_terminal_seen t) eqn:Es; [rewrite orb_true_r; apply Hfalse; eauto with machine|].
  destruct (Hpre eq_refl) as (Hn & Hl & Hd). pose proof (live_others _ _ R1 Hl) as Hl1. rewrite Hn, (shared_live _ Hl1).
  destruct (ts_cancelled (turn s1)) eqn:Ec; cbn [negb orb]; [|apply Hfalse; eauto with machine].
  apply wp_assoc, swp_get. intros s2 R2. pose proof (others_trans _ _ _ _ R1 R2) as R.
  destruct (cancellation_deferred _); [apply Hfalse; eauto with machine|].
  unfold establish_cancellation. apply wp_assoc, wp_assoc. eapply swp_drop_state with (hw := hw); [by eapply live_others| |].
  { by eapply droppable_rely; [apply R|..]. }
  intros s3 h3 C3 E3 X3. apply Htrue; [|by apply (ca_shared _ _ _ _ C3), (others_cancelled _ _ R2)|done|by intros ->%E3|].
  - eapply carries_trans; [|exact C3]. destruct (carries_others _ _ h R Hl) as [A1 A2 A3 A4].
    constructor; eauto with machine.
  - intros Hcl. apply X3. by eapply clears_rely; [apply R|..].
Qed.

Lemma swp_loop_delivering (K : Turn -> Prop) k ys t s h hw :
  (forall t', delivers_on t t' -> K t') -> stream_inv ys t s h hw -> is_Some (t_delivery t) -> swp (poll_loop (S k) t) (poll_post K ys) s h.
Proof.
  intros HK Hi Hd. cbn [poll_loop]. eapply swp_cancel_pending; [exact Hi| |intros; by eapply swp_final].
  intros s1 h1 Hi1 _ _. cbv zeta. destruct (t_delivery t) eqn:E; [|by destruct Hd]. eapply swp_poll_delivery; [exact HK|exact Hi1|by rewrite E].
Qed.

Lemma stream_inv_stage ys t payload s h hw :
  stream_inv ys t s h hw -> t_state t = EmitTerminal payload ->
  stream_inv ys (stage (with_state t Done) payload) s h hw.
Proof.
  intros [Hst Hy Hc Hal Hph] Est. constructor; try done; [by destruct Hst|].
  destruct Hph as [|? ? ? ? ? ?|payload' U Est' Hd Hseen Hte Hem|? ? ? ?|]; try congruence. rewrite Est in Est'. injection Est' as <-.
  assert (turn_event (with_state t Done) payload = event_at (length ys) payload) as Ev.
  { apply turn_event_at; [by destruct Hst|apply U]. }
  eapply ph_delivering_terminal; [|done|unfold stage; by rewrite Ev|exact Hseen|exact Hte|done|done].
  destruct U as [U1 U2 U3]. constructor; [done| |done]. simpl. by rewrite U2, seqno_next.
Qed.

(** The rest of an iteration of a turn that has its terminal event. *)
Lemma swp_loop_terminal (K : Turn -> Prop) k ys t payload s h hw :
  (forall t', t_state t' = Done -> K t') -> stream_inv ys t s h hw -> t_state t = EmitTerminal payload -> swp (poll_loop (S (S k)) t) (poll_post K ys) s h.
Proof.
  intros HK Hi Est. remember (S k) as k1 eqn:Ek. cbn [poll_loop]. eapply swp_cancel_pending; [exact Hi| |intros; by eapply swp_final].
  intros s1 h1 Hi1 _ _. cbv zeta. assert (t_delivery t = None /\ t_terminal_seen t = true) as [-> Hseen].
  { destruct (si_phase _ _ _ _ _ Hi) as [? ? ? ?|? ? ? ? ? ?| | |]; first [by split|congruence]. }
  apply swp_read_gate. intros s2 h2 usage terminal R2 L2 _. rewrite Hseen. cbn [orb].
  assert (stream_inv ys (with_flags t usage true (t_locally_synthesized_cancellation t)) s2 h2 hw) as Hi2.
  { apply stream_inv_flags; [done|]. by eapply stream_inv_step. }
  eapply swp_observe with (hw := hw); [done| |done]. intros s3 h3 R3 L3. cbn [snd t_state with_flags]. rewrite Est.
  subst k1. eapply swp_loop_delivering; [intros t' [E _]; by apply HK| |done]. apply stream_inv_stage; [by eapply stream_inv_step|done].
Qed.

(** A poll of an ended turn: [None], and nothing changes. *)
Definition ended_post (ys : list EngineEvent) (h0 hw : Events) (s0 : World)
    (o : outcome (Poll (option TurnItem) * Turn)) (s : World) (h : Events) : Prop :=
  exists t, o = Returned (Ready None, t) /\ t_lease t = false /\ stream_inv ys t s h hw /\ others me s0 s /\ same_log h0 h.

Lemma swp_loop_ended k ys t s h hw :
  stream_inv ys t s h hw -> t_lease t = false -> swp (poll_loop (S k) t) (ended_post ys h hw s) s h.
Proof.
  intros Hi Hle. cbn [poll_loop].
  assert (t_delivery t = None /\ t_state t = Done /\ t_terminal_seen t = true) as (Edel & Est & Hseen).
  { destruct (si_phase _ _ _ _ _ Hi) as [? ? [? _ _]|? ? ? ? [? _ _]|? [? _ _]|? ? [? _ _]|]; done || congruence. }
  eapply swp_cancel_pending; [exact Hi| |intros event t' s' h' Hd; rewrite Edel in Hd; by destruct Hd].
  intros s1 h1 Hi1 R1 L1. cbv zeta. rewrite Edel.
  apply swp_read_gate. intros s2 h2 usage terminal R2 L2 _. rewrite Hseen. cbn [orb].
  eapply swp_observe with (hw := hw); [done| |done]. intros s3 h3 R3 L3. cbn [snd t_state with_flags]. rewrite Est.
  intros s4 R4. eexists. split; [done|]. split; [done|].
  assert (others me s s4) as R by (eapply others_trans; [exact R1|]; eapply others_trans; [exact R2|]; by eapply others_trans).
  assert (same_log h h3) as L by (eapply same_log_trans; [exact L1|]; by eapply same_log_trans).
  split_and!; try done. eapply stream_inv_ended; [exact Hi|exact L| |by destruct (si_stamped _ _ _ _ _ Hi)|done..].
  eapply ended_others; [exact R|].
  destruct (si_phase _ _ _ _ _ Hi) as [? ? [? _ _]|? ? ? ? [? _ _]|? [? _ _]|? ? [? _ _]|]; done || congruence.
Qed.

Lemma swp_take_pending {B} m (c : option StagedTurnEvent -> sprog B) Q s h :
  m = n -> live s -> gate_ok (emission s) ->
  (forall s' h', rely me s s' -> carries s s' h h' -> emission s' = snd (take_pending (emission s)) ->
     swp (c (em_pending (emission s))) Q s' h') ->
  swp (bind (gate_take_pending m) c) Q s h.
Proof.
  intros -> Hl Hg H s1 R1. pose proof (live_others _ _ R1 Hl) as Hl1. pose proof (others_gate _ _ R1 Hl) as Eg.
  cbn [fst snd]. rewrite (shared_live _ Hl1), (update_live _ _ Hl1). fold (emission s1). rewrite Eg.
  split; [by apply set_turn_own|]. apply H; [| |done].
  - eapply rely_trans; [apply R1|]. apply set_turn_rely; [done|done|]. rewrite Eg. destruct Hg as [Hp Ho Ha].
    constructor; simpl; try done; [|by right|by left]. intros Ho'. split; [|done].
    destruct (em_pending (emission s)) as [event|] eqn:Ep; [|done]. destruct (Hp event eq_refl). congruence.
  - apply carries_act; [done|done|by apply set_turn_live|by apply set_turn_own|done].
Qed.

(** What a poll of the workflow leaves of the invariant. *)
Record polled_inv (ys : list EngineEvent) (t : Turn) (h hw : Events) : Prop := {
  pi_stamped : stamped t;
  pi_lease : t_lease t = true;
  pi_delivery : t_delivery t = None;
  pi_sequence : t_sequence t = seqno (length ys);
  pi_local : t_locally_synthesized_cancellation t = false;
  pi_yielded : forall i event, ys !! i = Some event ->
    event = event_at i (ev_payload event) /\ is_terminal (ev_payload event) = false /\ taken h event;
  pi_calls : calls hw = calls h;
  pi_allowed : all_allowed al hw;
  pi_emitted : emitted h = rev ys;
}.

Lemma polled_inv_log ys t h h' hw : same_log h h' -> polled_inv ys t h hw -> polled_inv ys t h' hw.
Proof.
  intros L [H1 H2 H3 H4 H5 H6 H7 H8 H9]. constructor; try done.
  - intros i event Hi. destruct (H6 i event Hi) as (? & ? & ?). split_and!; try done. by apply (sl_answered _ _ L).
  - by rewrite (sl_calls _ _ L).
  - by rewrite (sl_emitted _ _ L).
Qed.

(** A cancellation takes the place of the workflow. *)
Lemma polled_cancelling ys t s h hw :
  polled_inv ys t h hw -> live s -> unfinished hw -> permission_context s = None ->
  turn_cancelled s = true \/ (exists s1, post (Returned ExitCancelled) s1 hw) ->
  stream_inv ys (cancelling t) s h hw.
Proof.
  intros [H1 H2 H3 H4 H5 H6 H7 H8 H9] Hl Hu Hx Hc. constructor; try done; [by destruct H1|].
  eapply ph_terminal; [by constructor|done|done|done| |done|done]. split; [done|]. split_and!; [by eexists|done|done].
Qed.

(** An event the workflow has staged is offered to the sink. *)
Lemma polled_staged ys t d p staged s h hw :
  polled_inv ys t h hw -> t_state t = Running d p -> live s -> suspended d p s hw ->
  is_terminal (staged_payload staged) = false -> em_outstanding (emission s) = true ->
  em_acknowledged (emission s) = false -> em_pending (emission s) = None ->
  stream_inv ys (stage t (staged_payload staged)) s h hw.
Proof.
  intros [H1 H2 H3 H4 H5 H6 H7 H8 H9] Est Hl Hsu Hnt Ho Ha Hp. constructor; try done; [by destruct H1|].
  assert (turn_event t (staged_payload staged) = event_at (length ys) (staged_payload staged)) as Ev by by apply turn_event_at.
  eapply ph_delivering; [|exact Est|unfold stage; by rewrite Ev|done|done|done|done|done|done|done].
  constructor; [done| |done]. simpl. by rewrite H4, seqno_next.
Qed.

(** The result of the workflow decides the terminal event. *)
Lemma polled_exit ys t exit s s1 h hw payload :
  polled_inv ys t h hw -> live s -> post (Returned exit) s1 hw -> exit_event exit = Some payload ->
  permission_context s = None -> forall usage, is_terminal payload = true ->
  stream_inv ys (with_state (with_flags t usage true (t_locally_synthesized_cancellation t)) (EmitTerminal payload)) s h hw.
Proof.
  intros [H1 H2 H3 H4 H5 H6 H7 H8 H9] Hl Hp He Hx usage Ht. constructor; try done; [by destruct H1|].
  eapply ph_terminal; [by constructor|done|done|done| |done|done]. cbn [t_locally_synthesized_cancellation with_state with_flags].
  rewrite H5. split; [done|]. eauto.
Qed.

Lemma polled_pending ys t d p s h hw :
  polled_inv ys t h hw -> t_state t = Running d p -> live s -> suspended d p s hw -> gate_ok (emission s) ->
  em_pending (emission s) = None -> stream_inv ys t s h hw.
Proof. intros [H1 H2 H3 H4 H5 H6 H7 H8 H9] Est Hl Hsu Hg Hp. constructor; try done. by eapply ph_running; [constructor|..]. Qed.

(** ** Polling a running turn *)
Section Running.
Context {B : Type} (c : bool * Turn -> sprog B) (Q : outcome B -> World -> Events -> Prop) (ys : list EngineEvent).
Context (p0 : sprog WorkflowExit).
Context (Hdeliver : forall t s h hw, state_below (t_state t) (Running id p0) -> stream_inv ys t s h hw -> is_Some (t_delivery t) -> swp (c (true, t)) Q s h).
Context (Hterminal : forall t s h hw payload,
  stream_inv ys t s h hw -> t_state t = EmitTerminal payload -> swp (c (true, t)) Q s h).
Context (Hpending : forall t s h hw, state_below (t_state t) (Running id p0) -> stream_inv ys t s h hw -> t_lease t = true -> swp (c (false, t)) Q s h).

Lemma swp_cancelling t s h hw :
  polled_inv ys t h hw -> live s -> unfinished hw -> permission_context s = None ->
  turn_cancelled s = true \/ (exists s1, post (Returned ExitCancelled) s1 hw) ->
  swp (c (true, cancelling t)) Q s h.
Proof. intros Hp Hl Hu Hx Hc. by eapply Hterminal; [apply polled_cancelling|]. Qed.

(** The workflow staged an event. *)
Lemma swp_staged t d p staged s h hw :
  below p p0 -> polled_inv ys t h hw -> t_state t = Running d p -> live s -> suspended d p s hw ->
  is_terminal (staged_payload staged) = false -> em_outstanding (emission s) = true ->
  em_acknowledged (emission s) = false -> em_pending (emission s) = None ->
  swp (do observed <- establish_cancellation_if_observed t;
       do ran <- (let '(established, t) := observed in
                  Ret (true, if (established : bool) then t else stage t (staged_payload staged)));
       c ran) Q s h.
Proof.
  intros Hb Hp Est Hl Hsu Hnt Ho Ha Hpe. eapply swp_observe with (hw := hw).
  - intros _. split_and!; [apply Hp|done|]. rewrite Est. exact (su_drop _ _ _ _ Hsu).
  - intros s1 h1 R1 L1. simpl_prog. pose proof (others_gate _ _ R1 Hl) as Eg. eapply Hdeliver; [cbn [t_state stage with_delivery]; by rewrite Est| |done].
    eapply polled_staged; rewrite ?Eg; [by eapply polled_inv_log|exact Est|by eapply live_others|by eapply suspended_others|done..].
  - intros s1 h1 C1 Hc _ _ Hx. simpl_prog.
    eapply swp_cancelling; [eapply polled_inv_log; [apply C1|done]|apply C1|left; by eauto| |by left]. apply Hx. by rewrite Est.
Qed.

(** The workflow waits for host code. *)
Lemma swp_waits t d p s h hw :
  below p p0 -> polled_inv ys t h hw -> live s -> suspended d p s hw -> gate_ok (emission s) -> em_pending (emission s) = None ->
  t_state t = Done ->
  swp (do observed <- establish_cancellation_if_observed t;
       do ran <- (let '(established, t) := observed in
                  if (established : bool) then do _ <- drop_polled (PolledPending d p); Ret (true, t)
                  else Ret (false, with_state t (polled_state (PolledPending d p))));
       c ran) Q s h.
Proof.
  intros Hb Hp Hl Hsu Hg Hpe Est. eapply swp_observe with (hw := hw).
  - intros _. split_and!; [apply Hp|done|]. by rewrite Est.
  - intros s1 h1 R1 L1. simpl_prog. eapply Hpending; [done| |apply Hp]. eapply (polled_pending ys _ d p);
      rewrite ?(others_gate _ _ R1 Hl); [|done|by eapply live_others|by eapply suspended_others|done..].
    destruct (polled_inv_log _ _ _ _ _ L1 Hp) as [H1 ? ? ? ? ? ? ? ?]. by constructor; [destruct H1|..].
  - intros s1 h1 C1 Hc _ R1 _. specialize (R1 Est). apply wp_assoc.
    eapply (swp_drop_state (Running d p)) with (hw := hw); [apply C1|intros s2 R2; apply Hsu; eapply rely_trans; [apply R1|done]|].
    intros s2 h2 C2 _ Hx. simpl_prog. eapply swp_cancelling; [|apply C2|left; by eauto|by apply Hx|].
    + eapply polled_inv_log; [apply C2|]. by eapply polled_inv_log; [apply C1|].
    + left. by apply (ca_shared _ _ _ _ C2).
Qed.

(** The workflow has returned. *)
Lemma swp_returned t exit s s0 h hw :
  polled_inv ys t h hw -> live s -> post (Returned exit) s0 hw -> t_state t = Done -> permission_context s = None ->
  (match exit with ExitCompleted _ _ => t_terminal_seen t = true | _ => True end) ->
  swp (do observed <- establish_cancellation_if_observed t;
       do ran <- (let '(established, t) := observed in
                  if (established : bool) then do _ <- drop_polled (PolledReady exit); Ret (true, t)
                  else do t <- exit_turn t exit; Ret (true, t));
       c ran) Q s h.
Proof.
  intros Hp Hl Hpost Est Hn Hx. eapply swp_observe with (hw := hw).
  - intros _. split_and!; [apply Hp|done|]. by rewrite Est.
  - intros s1 h1 R1 L1. pose proof (live_others _ _ R1 Hl) as Hl1. pose proof (polled_inv_log _ _ _ _ _ L1 Hp) as Hp1.
    pose proof (context_rely _ _ (ot_rely _ _ _ R1) Hl Hn) as Hn1. destruct exit as [reason usage| |failure]; cbn [exit_turn]; simpl_prog.
    + by eapply Hterminal; [eapply polled_exit|].
    + unfold establish_cancellation. rewrite Est. cbn [drop_state]. simpl_prog.
      eapply swp_cancelling; [done|done| |done|right; by eauto]. right. by eexists ExitCancelled, _.
    + by eapply Hterminal; [eapply polled_exit|].
  - intros s1 h1 C1 Hc Hseen _ Hn1. simpl_prog. rewrite Est in Hn1. destruct exit; [congruence|..];
      (eapply swp_cancelling; [eapply polled_inv_log; [apply C1|done]|apply C1| |by apply Hn1|by left]; right; by eexists _, _).
Qed.

Lemma swp_poll_running t d s h hw :
  stream_inv ys t s h hw -> t_state t = Running d p0 -> t_delivery t = None ->
  swp (bind (poll_running t p0) c) Q s h.
Proof.
  intros [Hst Hy Hc Hal Hph] Est Hdel.
  destruct Hph as [d' p' U Est' _ Eloc Hsu Hg Hpe Hem|? ? ? ? ? ? ?|? ? ?|? ? ? ?|]; try congruence.
  rewrite Est in Est'. injection Est' as <- <-. unfold poll_running. apply wp_assoc, wp_bind; [apply others_refl|].
  eapply wp_mono; [|eapply (swp_poll_future p0 s h h hw); [apply Hsu|apply U|done..]].
  intros [polled| | |] s1 h1; try done. intros (hw1 & Hl1 & Hg1 & Hc1 & Ha1 & He1 & Hs1 & Hp1).
  assert (match polled with
          | PolledReady exit => post (Returned exit) s1 hw1
          | PolledPending d rest => suspended d rest s1 hw1 /\ below rest p0
          end) as Hp2.
  { destruct polled; [done|]. destruct Hp1 as [? [?|(_ & _ & Ho & Ha)]]; split; try done.
    destruct (gk_outstanding _ Hg Ho) as [[? ?]|?]; congruence. }
  clear Hp1. rename Hp2 into Hp1.
  cbn [sequel]. apply wp_assoc, swp_read_gate. intros s2 h2 usage terminal R2 L2 Hterm.
  pose proof (live_others _ _ R2 Hl1) as Hl2. pose proof (others_gate _ _ R2 Hl1) as Eg2.
  assert (forall local_seen, polled_inv ys (with_flags (with_state t Done) usage local_seen (t_locally_synthesized_cancellation t)) h2 hw1) as Hpi.
  { intros seen. eapply polled_inv_log; [exact L2|]. constructor; try done; [by destruct Hst|apply U|apply U| |congruence].
    intros i event Hi. destruct (Hy i event Hi) as (? & ? & ?). auto. }
  apply wp_assoc, swp_take_pending; [by destruct Hst|done|by rewrite Eg2|]. intros s3 h3 R3 C3 E3. rewrite Eg2 in E3 |- *.
  destruct (em_pending (emission s1)) as [staged|] eqn:Ep; apply wp_assoc.
  - destruct (gk_pending _ Hg1 _ Ep) as (Ho & Ha & Hnt).
    destruct polled as [exit|d' rest]; [rewrite (proj1 (wf_returned _ _ _ Hp1)) in Ep; congruence|].
    destruct Hp1 as [Hp1 Hbelow]. eapply (swp_staged _ d' rest _ _ _ hw1); [done| |done|apply C3| |done|by rewrite E3..].
    + eapply polled_inv_log; [apply C3|]. destruct (Hpi true) as [H1 ? ? ? ? ? ? ? ?]. by constructor; [destruct H1|..].
    + eapply suspended_rely; [|exact Hp1]. eapply rely_trans; [apply R2|done].
  - destruct polled as [exit|d' rest].
    + eapply swp_returned; [eapply polled_inv_log; [apply C3|apply Hpi]|apply C3|exact Hp1|done| |].
      { eapply context_rely; [eapply rely_trans; [apply R2|exact R3]|done|]. by apply wf_returned in Hp1 as [_ ?]. }
      destruct exit; try done. cbn [t_terminal_seen with_flags]. rewrite Hterm; [by rewrite orb_true_r|apply Hst|done|].
      by eapply wf_completed.
    + destruct Hp1 as [Hp1 Hbelow]. eapply swp_waits; [exact Hbelow|eapply polled_inv_log; [apply C3|apply Hpi]|apply C3| | |by rewrite E3|done].
      * eapply suspended_rely; [|exact Hp1]. eapply rely_trans; [apply R2|done].
      * rewrite E3. destruct Hg1 as [K1 K2 K3]. constructor; simpl; [done| |done]. rewrite Ep in K2. exact K2.
Qed.
End Running.

Lemma running_inv ys t d p s h hw :
  stream_inv ys t s h hw -> t_state t = Running d p -> t_delivery t = None ->
  polled_inv ys t h hw /\ live s /\ suspended d p s hw.
Proof.
  intros [Hst Hy Hc Hal Hph] Est Hdel.
  destruct Hph as [d' p' U Est' _ Eloc Hsu Hg Hpe Hem|? ? ? ? ? ? ?|? ? ?|? ? ? ?|]; try congruence.
  rewrite Est in Est'. injection Est' as <- <-. destruct U. by split_and!.
Qed.

Lemma swp_loop_running (K : Turn -> Prop) ys t d p s h hw :
  (forall t', state_below (t_state t') (Running id p) -> K t') -> stream_inv ys t s h hw -> t_state t = Running d p -> t_delivery t = None -> swp (poll_loop 3 t) (poll_post K ys) s h.
Proof.
  intros HK Hi Est Hdel. remember 2 as k eqn:Ek. cbn [poll_loop]. eapply swp_cancel_pending; [exact Hi| |intros; by eapply swp_final].
  intros s1 h1 Hi1 _ _. cbv zeta. rewrite Hdel. apply swp_read_gate. intros s2 h2 usage terminal R2 L2 _.
  assert (stream_inv ys (with_flags t usage (t_terminal_seen t || terminal) (t_locally_synthesized_cancellation t)) s2 h2 hw) as Hi2.
  { apply stream_inv_flags; [by intros ->|]. by eapply stream_inv_step. }
  destruct (running_inv _ _ d p _ _ _ Hi2 Est Hdel) as (Hpi & Hl2 & Hsu). subst k. eapply swp_observe with (hw := hw).
  - intros _. split_and!; [apply Hpi|done|]. cbn [t_state with_flags]. rewrite Est. exact (su_drop _ _ _ _ Hsu).
  - intros s3 h3 R3 L3. cbn [snd t_state with_flags]. rewrite Est.
    eapply (swp_poll_running _ _ ys p); [| | |by eapply stream_inv_step|exact Est|exact Hdel].
    + intros t' s' h' hw' Hb Hi' Hd. eapply swp_loop_delivering; [intros t1 [E _]; apply HK; by rewrite E|done..].
    + intros t' s' h' hw' payload Hi' Hd. eapply swp_loop_terminal; [intros t1 E; apply HK; by rewrite E|done..].
    + intros t' s' h' hw' Hb Hi' Hle s4 R. split; [done|]. split; [by apply HK|]. exists hw'. by eapply stream_inv_step; [exact R|apply same_log_refl|].
  - intros s3 h3 C3 Hc _ _ Hx. cbn [snd t_state cancelling with_state]. eapply swp_loop_delivering; [intros t1 [E _]; apply HK; by rewrite E| |done].
    apply (stream_inv_stage ys (cancelling _)); [|done].
    apply polled_cancelling; [eapply polled_inv_log; [apply C3|done]|apply C3|left; by eauto| |by left].
    apply Hx. cbn [t_state with_flags]. by rewrite Est.
Qed.

(** One poll keeps the invariant, and yields what it may. *)
Lemma swp_poll_next ys t s h hw :
  stream_inv ys t s h hw -> t_lease t = true -> swp (poll_next t) (poll_post (fun t' => turn_below t' t) ys) s h.
Proof.
  intros Hi Hle. unfold poll_next.
  destruct (si_phase _ _ _ _ _ Hi) as [d p U Est Hd|d p payload f U Est Hd|payload U Est|payload f U Est Hd|Hle']; [..|congruence].
  - eapply swp_loop_running; [|done..]. intros t' Hb. left. rewrite Est. by destruct (t_state t').
  - eapply swp_loop_delivering; [intros t' []; by right|done|by rewrite Hd].
  - eapply swp_loop_terminal; [|done..]. intros t' E. left. by rewrite E, Est.
  - eapply swp_loop_delivering; [intros t' []; by right|done|by rewrite Hd].
Qed.

(** ** Prompt cancellation *)
(** The turn was cancelled, and its workflow neither defers that nor has established
    its terminal event. *)
Record cancel_due (s : World) : Prop := {
  cd_live : live s;
  cd_cancelled : turn_cancelled s = true;
  cd_deferrals : em_cancellation_deferrals (emission s) = 0%N;
}.

Lemma cancel_due_others s s' : others me s s' -> cancel_due s -> cancel_due s'.
Proof.
  intros R [Hl Hc Hd]. constructor; [by eapply live_others|by eapply others_cancelled|by rewrite (others_gate _ _ R Hl)].
Qed.

Lemma due_token s m : m = n -> cancel_due s -> ts_cancelled (shared m s) = true.
Proof. intros -> [Hl Hc _]. by rewrite shared_live. Qed.

Lemma due_deferred s m : m = n -> cancel_due s -> cancellation_deferred (ts_emission (shared m s)) = false.
Proof.
  intros -> [Hl _ Hd]. rewrite shared_live by done. unfold cancellation_deferred. fold (emission s). by rewrite Hd.
Qed.

(** A cancellation that has not been established yet, or is being delivered. *)
Definition cancels (t : Turn) (pending : PendingDelivery) : Prop :=
  t_terminal_seen t = false \/
  (t_locally_synthesized_cancellation t = true /\ is_cancellation (ev_payload (pd_event pending)) = true).

(** The turn has ended with its cancellation; neither host nor sink was called. *)
Definition cancelled_post (h0 : Events) (o : outcome (Poll (option TurnItem) * Turn)) (s : World) (h : Events) : Prop :=
  exists event t, o = Returned (Ready (Some (Ok event)), t) /\ is_cancellation (ev_payload event) = true /\
    t_lease t = false /\ ended s /\ same_log h0 h.

Lemma swp_cancel_delivery {B} t pending (c : option EngineEvent * Turn -> sprog B) Q s h hw :
  stamped t -> t_lease t = true -> cancel_due s -> droppable (t_state t) s hw -> clears (t_state t) s ->
  t_delivery t = Some pending -> cancels t pending ->
  (forall event t' s' h', is_cancellation (ev_payload event) = true -> t_lease t' = false -> ended s' -> same_log h h' ->
     swp (c (Some event, t')) Q s' h') ->
  swp (bind (cancel_pending_delivery t) c) Q s h.
Proof.
  intros [Hn _ _ _] Hle Hdue Hd Hcl Edel Hca H. unfold cancel_pending_delivery. apply wp_assoc, swp_get. intros s1 R1.
  pose proof (cancel_due_others _ _ R1 Hdue) as D1. rewrite (due_token _ _ Hn D1). cbn [negb].
  apply wp_assoc, swp_get. intros s2 R2. pose proof (cancel_due_others _ _ R2 D1) as D2. rewrite (due_deferred _ _ Hn D2), Edel.
  pose proof (others_trans _ _ _ _ R1 R2) as R.
  set (local := t_locally_synthesized_cancellation t && is_cancellation (ev_payload (pd_event pending))).
  assert (t_terminal_seen t && negb local = false) as ->
    by (destruct Hca as [-> | [E1 E2]]; unfold local; rewrite ?E1, ?E2; by destruct (t_terminal_seen t)).
  cbv zeta. apply wp_assoc. destruct local eqn:El.
  - apply andb_true_iff in El as [_ El]. eapply swp_finish with (hw := hw);
      [done|done|apply D2|by eapply droppable_rely; [apply R|apply Hdue|]|by eapply clears_rely; [apply R|apply Hdue|]|].
    intros s3 h3 He L3 _ _. apply H; [done|done|done|]. eapply same_log_trans; [|exact L3]. eauto with machine.
  - eapply swp_finish with (hw := hw);
      [done|done|apply D2|by eapply droppable_rely; [apply R|apply Hdue|]|by eapply clears_rely; [apply R|apply Hdue|]|].
    intros s3 h3 He L3 _ _. apply H; [done|done|done|]. eapply same_log_trans; [|exact L3]. eauto with machine.
Qed.

(** The poll of a turn with a delivery. *)
Lemma swp_cancel_delivering k t pending s h hw :
  stamped t -> t_lease t = true -> cancel_due s -> droppable (t_state t) s hw -> clears (t_state t) s ->
  t_delivery t = Some pending -> cancels t pending -> swp (poll_loop (S k) t) (cancelled_post h) s h.
Proof.
  intros Hst Hle Hdue Hd Hcl Edel Hca. cbn [poll_loop]. eapply swp_cancel_delivery; [done..|].
  intros event t' s' h' Hev Hle' He L s2 R2. exists event, t'. split_and!; try done. by eapply ended_others.
Qed.

(** The poll of a turn whose workflow is suspended: it is dropped. *)
Lemma swp_cancel_running t d p s h hw :
  stamped t -> t_lease t = true -> cancel_due s -> t_state t = Running d p -> droppable (t_state t) s hw ->
  t_delivery t = None -> t_terminal_seen t = false -> em_terminal_established (emission s) = false ->
  swp (poll_loop 3 t) (cancelled_post h) s h.
Proof.
  intros Hst Hle D0 Est Hd Edel Hseen Het. pose proof Hst as [Hn _ _ _]. remember 2 as k eqn:Ek. cbn [poll_loop].
  unfold cancel_pending_delivery. apply wp_assoc, swp_get. intros s1 R1. pose proof (cancel_due_others _ _ R1 D0) as D1.
  rewrite (due_token _ _ Hn D1). cbn [negb]. apply wp_assoc, swp_get. intros s2 R2. pose proof (cancel_due_others _ _ R2 D1) as D2.
  rewrite (due_deferred _ _ Hn D2), Edel. simpl_prog. rewrite Edel. unfold read_gate, gate_usage, gate_terminal.
  apply wp_assoc, swp_get. intros s3 R3. pose proof (cancel_due_others _ _ R3 D2) as D3.
  apply wp_assoc, swp_get. intros s4 R4. pose proof (cancel_due_others _ _ R4 D3) as D4.
  assert (others me s s4) as R04 by (eapply others_trans; [exact R1|]; eapply others_trans; [exact R2|]; by eapply others_trans).
  rewrite Hn, (shared_live _ (cd_live _ D4)). fold (emission s4). rewrite (others_gate _ _ R04 (cd_live _ D0)), Het, Hseen. cbn [orb].
  simpl_prog. set (t1 := with_flags t _ false _). unfold establish_cancellation_if_observed.
  apply wp_assoc, swp_get. intros s5 R5. pose proof (cancel_due_others _ _ R5 D4) as D5.
  change (t_scope t1) with (t_scope t). rewrite (due_token _ _ Hn D5). cbn [negb orb t_terminal_seen t1 with_flags].
  apply wp_assoc, swp_get. intros s6 R6. pose proof (cancel_due_others _ _ R6 D5) as D6.
  rewrite (due_deferred _ _ Hn D6). unfold establish_cancellation. apply wp_assoc, wp_assoc.
  change (t_state t1) with (t_state t). rewrite Est in Hd |- *. cbn [drop_state]. intros s7 R7. cbn [fst snd].
  assert (others me s s7) as R07 by (eapply others_trans; [exact R04|]; eapply others_trans; [exact R5|]; by eapply others_trans).
  destruct (wf_drop _ _ _ (Hd s7 (ot_rely _ _ _ R07))) as (Ho & Hh & Hp & Hs & Hx & Hdf). split; [done|].
  pose proof (cancel_due_others _ _ R07 D0) as [[_ Hsc Hi7] Hc7 _]. cbn [snd t_state with_state]. subst k.
  eapply wp_mono; [|eapply (swp_cancel_delivering 1) with (hw := hw); [by destruct Hst|done| |done|done|done|]].
  - intros o s8 h8 (event & t' & -> & Hev & Hle' & He & L). exists event, t'. split_and!; try done.
    eapply same_log_trans; [|exact L]. eauto 10 with machine.
  - constructor; [constructor; [done|by rewrite Hp|by apply (own_evolves _ _ _ Ho)]|by apply (ss_cancelled _ _ Hs)|done].
  - by right.
Qed.

(** A poll after a cancellation ends the turn. *)
Lemma swp_cancelled_poll ys t s h hw :
  stream_inv ys t s h hw -> t_lease t = true -> t_terminal_seen t = false -> em_terminal_established (emission s) = false ->
  turn_cancelled s = true -> em_cancellation_deferrals (emission s) = 0%N ->
  swp (poll_next t) (cancelled_post h) s h.
Proof.
  intros Hi Hle Hseen Het Hc Hdf. pose proof (si_stamped _ _ _ _ _ Hi) as Hst. unfold poll_next.
  destruct (si_phase _ _ _ _ _ Hi) as [d p U Est Hd _ Hsu|d p payload f U Est Hd _ Hsu|? ? ? ? ?|? ? ? ? ? ?|]; try congruence;
    (assert (cancel_due s) by by constructor; [apply U|..]);
    (assert (droppable (t_state t) s hw) by (rewrite Est; exact (su_drop _ _ _ _ Hsu))).
  - by eapply swp_cancel_running.
  - eapply swp_cancel_delivering; [done|done|done|done|by rewrite Est|exact Hd|by left].
Qed.

(** ** Dropping a turn *)
Lemma swp_drop_scope m s h :
  m = n -> ended s ->
  swp (do _ <- on_shared m drop_scope; Ret tt) (fun o s' h' => o = Returned tt /\ ended s' /\ same_log h h' /\
    (past_cancelled s -> past_cancelled s')) s h.
Proof.
  intros Hm He. apply swp_past; [done|done|by intros []|]. intros s1 h1 He1 L1 _ Hp s2 R2.
  split_and!; [done|by eapply ended_others|done|]. intros Hc. by eapply past_cancelled_others, Hp.
Qed.

(** Dropping the turn at any point cancels it if it still has the lease, and
    leaves it ended. *)
Lemma swp_drop_turn ys t s h hw :
  stream_inv ys t s h hw ->
  swp (drop_turn t) (fun o s' h' => o = Returned tt /\ ended s' /\ same_log h h' /\
    (t_lease t = true -> past_cancelled s')) s h.
Proof.
  intros Hi. unfold drop_turn. pose proof (si_stamped _ _ _ _ _ Hi) as Hst. destruct (t_lease t) eqn:Hle.
  - assert (live s /\ clears (t_state t) s /\ droppable (t_state t) s hw) as (Hl & Hcl & Hd).
    { destruct (si_phase _ _ _ _ _ Hi) as [d p U Est ? ? Hsu|d p ? ? U Est ? ? Hsu|? U Est|? ? U Est|]; try congruence;
        rewrite Est; (split_and!; [apply U|done|]); try done; exact (su_drop _ _ _ _ Hsu). }
    apply swp_settle; [by destruct Hst|done|by intros []|]. intros s1 s2 h2 R1 C2 E2.
    assert (rely me s s2) as R2.
    { eapply rely_trans; [apply R1|]. rewrite E2. apply set_turn_rely; [by eapply live_others|done|apply delivers_refl]. }
    eapply swp_finish with (hw := hw); [by destruct Hst|done|apply C2|by eapply droppable_rely|by eapply clears_rely|].
    intros s3 h3 He L3 _ Hpc. eapply wp_mono; [|apply swp_drop_scope; [by destruct Hst|done]].
    intros o s4 h4 (-> & He4 & L4 & Hp4). split_and!; [done|done| |intros _; apply Hp4, Hpc; by rewrite E2].
    eapply same_log_trans; [apply C2|]. by eapply same_log_trans.
  - assert (t_state t = Done /\ ended s) as [Est He].
    { destruct (si_phase _ _ _ _ _ Hi) as [? ? [? _ _]|? ? ? ? [? _ _]|? [? _ _]|? ? [? _ _]|]; done || congruence. }
    simpl_prog. unfold finish. rewrite Hle, Est. apply wp_assoc, swp_past; [by destruct Hst|done|by intros []|].
    intros s1 h1 He1 L1 _ _. apply wp_assoc, swp_past; [by destruct Hst|done|by intros []|]. intros s2 h2 He2 L2 _ _.
    cbn [drop_state]. simpl_prog. apply wp_assoc, swp_past; [by destruct Hst|done|by intros []|].
    intros s3 h3 He3 L3 _ _. simpl_prog. apply wp_assoc, swp_past; [by destruct Hst|done|by intros []|].
    intros s4 h4 He4 L4 _ _. simpl_prog. eapply wp_mono; [|apply swp_drop_scope; [by destruct Hst|done]].
    intros o s5 h5 (-> & He5 & L5 & _). split_and!; try done.
    eapply same_log_trans; [exact L1|]. eapply same_log_trans; [exact L2|]. eapply same_log_trans; [exact L3|].
    by eapply same_log_trans.
Qed.

(** ** Sequences of polls *)
Definition item_of (r : Poll (option TurnItem)) : list TurnItem :=
  match r with Ready (Some item) => [item] | _ => [] end.

(** The items of the polls so far, with what the turn and the session became; other
    tasks act before and during every poll. *)
Inductive streamed (t0 : Turn) (s0 : World) (h0 : Events) : list TurnItem -> Turn -> World -> Events -> Prop :=
| streamed_start : streamed t0 s0 h0 [] t0 s0 h0
| streamed_poll items t s h r t' s' h' :
    streamed t0 s0 h0 items t s h -> exec (others me) any_answer (poll_next t) s h (Returned (r, t')) s' h' ->
    streamed t0 s0 h0 (items ++ item_of r) t' s' h'.

(** The last item of a stream that has one. *)
Definition concluded (ys : list EngineEvent) (item : TurnItem) (s : World) (h hw : Events) : Prop :=
  match item with
  | Ok event => is_terminal (ev_payload event) = true /\ final ys event s h hw
  | Err e => refused ys e h
  end.

Record stream_log (items : list TurnItem) (ys : list EngineEvent) (last : option TurnItem) (t : Turn) (s : World)
    (h hw : Events) : Prop := {
  sg_items : items = map Ok ys ++ option_list last;
  sg_inv : stream_inv ys t s h hw;
  sg_last : match last with
            | None => t_lease t = true
            | Some item => t_lease t = false /\ concluded ys item s h hw
            end;
}.

Lemma concluded_step ys item s s' h h' hw :
  others me s s' -> same_log h h' -> concluded ys item s h hw -> concluded ys item s' h' hw.
Proof.
  intros R L. destruct item as [event|e]; simpl.
  - intros [Ht Hf]. split; [done|]. destruct Hf as [(exit & s1 & ? & ? & ? & ?)|(? & ? & ? & [?|?])].
    + left. exists exit, s1. split_and!; try done. by apply (sl_answered _ _ L).
    + right. split_and!; try done. left. by eapply past_cancelled_others.
    + right. auto.
  - intros (event & error & ? & ? & ?). exists event, error.
    split_and!; [by rewrite (sl_emitted _ _ L)|by apply (sl_answered _ _ L)|done].
Qed.

(** What a poll makes of a log. *)
Definition log_polled (items : list TurnItem) (last : option TurnItem) (t : Turn)
    (o : outcome (Poll (option TurnItem) * Turn)) (s' : World) (h' : Events) : Prop :=
  exists r t', o = Returned (r, t') /\ (last <> None -> r = Ready None) /\ (last = None -> r <> Ready None) /\
    (t_lease t' = true -> turn_below t' t) /\
    exists ys' last' hw', stream_log (items ++ item_of r) ys' last' t' s' h' hw'.

Lemma swp_log_poll items ys last t s h hw :
  stream_log items ys last t s h hw -> swp (poll_next t) (log_polled items last t) s h.
Proof.
  intros [Hit Hi Hlast]. destruct last as [item|].
  - destruct Hlast as [Hle Hc]. eapply wp_mono; [|exact (swp_loop_ended 2 _ _ _ _ _ Hi Hle)].
    intros o s' h' (t' & -> & Hle' & Hi' & R & L).
    eexists _, _. split; [done|]. split; [done|]. split; [done|]. split; [congruence|]. exists ys, (Some item), hw. rewrite app_nil_r.
    constructor; [done|done|]. split; [done|]. by eapply concluded_step.
  - eapply wp_mono; [|exact (swp_poll_next _ _ _ _ _ Hi Hlast)]. intros o s' h' Hp. simpl in Hit. rewrite app_nil_r in Hit.
    destruct o as [[[[[event|e]|]|] t']| | |]; try done; simpl in Hp; eexists _, _; (split; [done|]); (split; [done|]); (split; [done|]).
    + destruct (is_terminal (ev_payload event)) eqn:Et.
      * destruct Hp as (Hle & hw' & Hi' & Hf). split; [congruence|]. exists ys, (Some (Ok event)), hw'. subst items. by constructor.
      * destruct Hp as (Hle & Hb & hw' & Hi'). split; [done|]. exists (ys ++ [event]), None, hw'. subst items. constructor; [|done|done].
        simpl. by rewrite map_app, app_nil_r.
    + destruct Hp as (Hle & Hr & hw' & Hi'). split; [congruence|]. exists ys, (Some (Err e)), hw'. subst items. by constructor.
    + destruct Hp as (Hle & Hb & hw' & Hi'). split; [done|]. exists ys, None, hw'. subst items. rewrite app_nil_r. constructor; [by rewrite app_nil_r|done|done].
Qed.

Lemma stream_log_poll items ys last t s h hw o s' h' :
  stream_log items ys last t s h hw -> exec (others me) any_answer (poll_next t) s h o s' h' ->
  log_polled items last t o s' h'.
Proof.
  intros Hlog He. eapply wp_exec; [apply others_refl|apply others_trans|exact He|by eapply swp_log_poll].
Qed.

(** Every sequence of polls has such a log. *)
Lemma streamed_log t0 s0 h0 items t s h hw0 :
  stream_inv [] t0 s0 h0 hw0 -> t_lease t0 = true -> streamed t0 s0 h0 items t s h ->
  exists ys last hw, stream_log items ys last t s h hw.
Proof.
  intros Hi Hle. induction 1 as [|items t s h r t' s' h' _ (ys & last & hw & Hlog) He]; [by exists [], None, hw0|].
  destruct (stream_log_poll _ _ _ _ _ _ _ _ _ _ Hlog He) as (r' & t1 & [= <- <-] & _ & _ & _ & ys' & last' & hw' & H). eauto.
Qed.

(** No turn is polled forever without ending. *)
Lemma streamed_ends (f : nat -> Turn * World * Events) items ys last hw :
  stream_log items ys last (fst (fst (f 0))) (snd (fst (f 0))) (snd (f 0)) hw ->
  (forall i, exists r, exec (others me) any_answer (poll_next (fst (fst (f i)))) (snd (fst (f i))) (snd (f i))
     (Returned (r, fst (fst (f (S i))))) (snd (fst (f (S i)))) (snd (f (S i)))) ->
  exists i, t_lease (fst (fst (f i))) = false.
Proof.
  intros Hlog Hf. remember (fst (fst (f 0))) as t eqn:Et. revert f items ys last hw Et Hlog Hf.
  induction (turn_below_wf t) as [t _ IH]. intros f items ys last hw Et Hlog Hf. subst t.
  destruct (t_lease (fst (fst (f 0)))) eqn:Hle; [|by exists 0].
  destruct (Hf 0) as [r He]. destruct (stream_log_poll _ _ _ _ _ _ _ _ _ _ Hlog He) as (r' & t' & [= <- E] & _ & _ & Hb & ys' & last' & hw' & Hlog').
  subst t'. destruct (t_lease (fst (fst (f 1)))) eqn:Hle'; [|by exists 1].
  destruct (IH _ (Hb eq_refl) (fun i => f (S i)) _ _ _ _ eq_refl Hlog' (fun i => Hf (S i))) as [i Hi]. by exists (S i).
Qed.
End Stream.
