(* ===== verification/StreamTheorems.v ===== *)
(** * Theorems about the event stream of a turn

    The stream of [TurnStreamProofs] with the workflow of [Workflow]: what a turn
    yields, what its terminal event reports, how a cancellation ends it, and what it
    leaves. *)
From S2P Require Import Prelude Ids Json Model Limits PermissionId Catalog Context Prog SessionState Emission Operations.
From S2P Require Import Workflow TurnStream Sample Lease ReserveProofs TurnRules TurnProofs TurnTheorems TurnStreamProofs.
From stdpp Require Import gmap.
Open Scope prog_scope.

(** What a workflow promises its stream when it ends. *)
Definition run_post (me : nat) (s : World) (o : outcome WorkflowExit) (s' : World) (h : Events) : Prop :=
  match o with Dropped => True | _ => turn_end me s o s' h end.

#[export] Instance run_turn_workflow `{JsonWriter} sha256 engine session_id incarnation_id turn_id me s base :
  TurnWorkflow me (turn_allowed sha256 engine session_id incarnation_id turn_id me s base) (run_post me s).
Proof.
  constructor.
  - done.
  - intros s1 s2 h (H1 & H2 & H5 & H6 & H3 & H4). done.
  - intros s1 q x h (Hl & Ha). split; [done|]. destruct Ha as [_ Ha]. by destruct q.
  - by intros s1 h [_ Hf].
  - by intros s1 h [_ Hf].
  - by intros exit s1 h (_ & Hc & _ & [_ Hp _] & _).
  - by intros reason usage s1 h (_ & _ & _ & _ & _ & Hf & _).
Qed.

(** The items of a turn: numbered events the sink took, then perhaps a terminal
    event with the next number or the one after, or the error of the sink that
    refused the next event. *)
Definition ordered_items (started : StartedTurn) (items : list TurnItem) (h : Events) : Prop :=
  let event_at := event_at (rec_id (st_record started)) (rec_incarnation_id (st_record started)) (st_turn_id started) in
  exists ys last, items = map Ok ys ++ option_list last /\
    (forall i event, ys !! i = Some event ->
       event = event_at i (ev_payload event) /\ is_terminal (ev_payload event) = false /\ taken h event) /\
    match last with
    | None => True
    | Some (Ok event) => is_terminal (ev_payload event) = true /\
        exists i, event = event_at i (ev_payload event) /\ length ys <= i <= S (length ys)
    | Some (Err e) => refused ys e h
    end.

Section Claims.
Context `{JsonWriter}.
Context (sha256 : string -> string) (engine : EngineInner) (started : StartedTurn) (me : nat) (s : World).
Notation record := (st_record started).
Notation scope := (length (past_turns s)).
Notation the_turn := (started_turn sha256 engine scope started).
Notation event_at := (event_at (rec_id record) (rec_incarnation_id record) (st_turn_id started)).
Notation allowed_here := (turn_allowed sha256 engine (rec_id record) (rec_incarnation_id record) (st_turn_id started)
  me s (rec_messages record)).

Lemma started_inv :
  turn_start me record (st_context started) s ->
  stream_inv (me := me) (al := allowed_here) (post := run_post me s) scope (rec_id record) (rec_incarnation_id record)
    (st_turn_id started) [] the_turn s [] [].
Proof.
  intros Hst. pose proof (run_turn_wp sha256 engine (rec_id record) (st_turn_id started) record (st_options started)
    (st_context started) me s Hst) as Hwp.
  constructor; [done|by intros i event Hi|done|done|]. pose proof Hst as [Hi Hl [Ho Hp Ha] Hd Hc _].
  eapply ph_running; [by constructor; [| |constructor]|done|done|done| | | |done].
  - constructor; [exact Hwp| |done]. intros s' R. pose proof (start_tinv _ _ _ _ Hst) as Hv.
    pose proof (tinv_rely _ _ _ _ _ _ _ _ R Hv) as [_ [Hi' _ _] Hf _ _ _].
    by apply (tk_drop _ _ _ _ _ _ _ _ _ _ _ (turn_allowed_contract sha256 engine _ _ _ me s (rec_messages record))).
  - constructor; congruence.
  - done.
Qed.

Lemma started_log items t s' h' :
  turn_start me record (st_context started) s -> streamed (me := me) the_turn s [] items t s' h' ->
  exists ys last hw, stream_log (me := me) (al := allowed_here) (post := run_post me s) scope (rec_id record)
    (rec_incarnation_id record) (st_turn_id started) items ys last t s' h' hw.
Proof. intros Hst Hs. eapply streamed_log; [by apply started_inv|done|exact Hs]. Qed.

Lemma log_ordered items ys last t s' h' hw :
  stream_log (me := me) (al := allowed_here) (post := run_post me s) scope (rec_id record)
    (rec_incarnation_id record) (st_turn_id started) items ys last t s' h' hw ->
  ordered_items started items h'.
Proof.
  intros [Hit Hi Hl]. exists ys, last.
  split; [done|]. split; [apply Hi|]. destruct last as [[event|e]|]; [|by destruct Hl|done].
  destruct Hl as (_ & Ht & Hf). split; [done|]. destruct Hf as [(exit & s1 & _ & _ & E & _)|(_ & _ & [E|E] & _)]; eauto with lia.
Qed.

(** C21. The items of a turn, under every interleaving, host behaviour and sink
    behaviour: events that are numbered from zero without a gap, carry the turn's
    identifiers, are not terminal and were taken by the sink; then, at most once
    and last, either a terminal event with the next number (or the one after, when
    cancellation took the place of an undelivered event), or the redacted error of
    a sink that refused the next event. *)
Theorem stream_ordered items t s' h' :
  turn_start me record (st_context started) s -> streamed (me := me) the_turn s [] items t s' h' ->
  ordered_items started items h'.
Proof. intros Hst Hs. destruct (started_log _ _ _ _ Hst Hs) as (ys & last & hw & Hlog). by eapply log_ordered. Qed.

(** C22. The terminal event of a turn reports its workflow: it is the event of the
    result the workflow returned, which the sink has taken, or a cancellation of a
    workflow that had not completed, after the turn was cancelled. The workflow
    made exactly the host calls of the turn, each of them allowed. *)
Theorem stream_reports items t s' h' event :
  turn_start me record (st_context started) s -> streamed (me := me) the_turn s [] items t s' h' ->
  Ok event ∈ items -> is_terminal (ev_payload event) = true ->
  exists hw, calls hw = calls h' /\ all_allowed allowed_here hw /\
    ((exists exit s1, exit_event exit = Some (ev_payload event) /\ turn_end me s (Returned exit) s1 hw /\ taken h' event) \/
     ((exists usage, ev_payload event = Completed Stop_Cancelled usage) /\
      unfinished (me := me) (al := allowed_here) (post := run_post me s) hw /\
      (past_cancelled scope s' \/ exists s1, turn_end me s (Returned ExitCancelled) s1 hw))).
Proof.
  intros Hst Hs Hin Ht. destruct (started_log _ _ _ _ Hst Hs) as (ys & last & hw & [Hit Hi Hl]). exists hw.
  split; [apply Hi|]. split; [apply Hi|].
  assert (last = Some (Ok event)) as ->.
  { rewrite Hit in Hin. apply elem_of_app in Hin as [Hin|Hin].
    - apply list_elem_of_fmap in Hin as (e & [= <-] & He). apply list_elem_of_lookup in He as [i He].
      destruct (si_yielded _ _ _ _ _ _ _ _ _ Hi i event He) as (_ & Hn & _). congruence.
    - destruct last as [item|]; simpl in Hin; [|by apply elem_of_nil in Hin]. apply list_elem_of_singleton in Hin. by subst. }
  destruct Hl as (_ & _ & [(exit & s1 & ? & ? & _ & ?)|(? & ? & _ & ?)]); [left; eauto|by right].
Qed.

(** C23. A poll always returns, whatever host, sink and other tasks do: a turn that has
    ended answers [None] and nothing else, a turn that has not ended never answers
    [None], keeps the lease as long as it goes on, and when it ends it has given up
    the lease and closed its scopes. *)
Theorem stream_poll_total items t s' h' o s2 h2 :
  turn_start me record (st_context started) s -> streamed (me := me) the_turn s [] items t s' h' ->
  exec (others me) any_answer (poll_next t) s' h' o s2 h2 ->
  exists r t', o = Returned (r, t') /\ (r = Ready None <-> t_lease t = false) /\
    (t_lease t' = true -> lease_holder s2 = Some me) /\ (t_lease t' = false -> ended (me := me) scope s2).
Proof.
  intros Hst Hs He. destruct (started_log _ _ _ _ Hst Hs) as (ys & last & hw & Hlog).
  destruct (stream_log_poll _ _ _ _ _ _ _ _ _ _ _ _ _ _ Hlog He) as (r & t' & -> & H1 & H2 & _ & ys' & last' & hw' & [_ Hi' _]).
  exists r, t'. split; [done|]. split.
  - destruct Hlog as [_ _ Hl]. destruct last; [destruct Hl; split; by auto|]. split; [by intros E; destruct (H2 eq_refl E)|congruence].
  - destruct (si_phase _ _ _ _ _ _ _ _ _ Hi') as [? ? [E _ [? _ _]]|? ? ? ? [E _ [? _ _]]|? [E _ [? _ _]]|? ? [E _ [? _ _]]|E];
      rewrite E; split; done.
Qed.

(** Dropping a turn at any point returns, cancels a turn that had not ended, gives
    up the lease and closes the scopes, without another call to host code. *)
Theorem stream_drop_ends items t s' h' o s2 h2 :
  turn_start me record (st_context started) s -> streamed (me := me) the_turn s [] items t s' h' ->
  exec (others me) any_answer (drop_turn t) s' h' o s2 h2 ->
  o = Returned tt /\ ended (me := me) scope s2 /\ same_log h' h2 /\ (t_lease t = true -> past_cancelled scope s2).
Proof.
  intros Hst Hs He. destruct (started_log _ _ _ _ Hst Hs) as (ys & last & hw & [_ Hi _]).
  pose proof (swp_drop_turn _ _ _ _ _ _ _ _ _ Hi) as Hw.
  exact (wp_exec _ _ _ (others_refl me) (others_trans me) _ _ _ _ _ _ _ He Hw).
Qed.

(** C24. Cancellation is prompt. Once another task has cancelled a turn that has not
    established a terminal event and does not defer cancellation, the next poll ends
    it: whatever futures of the host or of the sink are pending, however long they
    would be, the poll calls neither, yields the cancellation, gives up the lease
    and closes the scopes of the turn. *)
Theorem stream_cancels items t s1 h' s' o s2 h2 :
  turn_start me record (st_context started) s -> streamed (me := me) the_turn s [] items t s1 h' ->
  others me s1 s' -> t_lease t = true -> t_terminal_seen t = false -> em_terminal_established (emission s') = false ->
  turn_cancelled s' = true -> em_cancellation_deferrals (emission s') = 0%N ->
  exec (others me) any_answer (poll_next t) s' h' o s2 h2 ->
  exists event t', o = Returned (Ready (Some (Ok event)), t') /\ is_cancellation (ev_payload event) = true /\
    t_lease t' = false /\ ended (me := me) scope s2 /\ same_log h' h2.
Proof.
  intros Hst Hs R Hle Hseen Het Hc Hd He. destruct (started_log _ _ _ _ Hst Hs) as (ys & last & hw & [_ Hi _]).
  eapply stream_inv_step in Hi; [|exact R|apply same_log_refl].
  pose proof (swp_cancelled_poll _ _ _ _ _ _ _ _ _ Hi Hle Hseen Het Hc Hd) as Hw.
  exact (wp_exec _ _ _ (others_refl me) (others_trans me) _ _ _ _ _ _ _ He Hw).
Qed.

(** The turn adds no waiting of its own: where every future of the host and of the
    sink completes after finitely many polls, as every [Fut] does, a turn that is
    polled again and again ends. *)
Theorem stream_terminates (f : nat -> Turn * World * Events) :
  turn_start me record (st_context started) s -> f 0 = (the_turn, s, []) ->
  (forall i, exists r, exec (others me) any_answer (poll_next (fst (fst (f i)))) (snd (fst (f i))) (snd (f i))
     (Returned (r, fst (fst (f (S i))))) (snd (fst (f (S i)))) (snd (f (S i)))) ->
  exists i, t_lease (fst (fst (f i))) = false.
Proof.
  intros Hst E0 Hf. destruct (started_log [] the_turn s [] Hst (streamed_start _ _ _)) as (ys & last & hw & Hlog).
  eapply (streamed_ends (me := me) _ _ _ _ f []); [|exact Hf]. by rewrite E0.
Qed.
End Claims.

(** ** A sample stream *)
(** A model that answers at once, and a sink that takes each event after one
    pending poll. *)
Definition brief_answer (q : Query) : Ans q :=
  match q with
  | Q_next_item _ => (0%nat, Some (Ok (ModelStop Stop_Completed)))
  | Q_emit _ => (1%nat, Ok tt)
  | q => sample_answer q
  end.

Definition brief_schedule : schedule World Query Ans :=
  {| sch_env := fun _ s => s; sch_answer := fun _ => brief_answer; sch_drop := fun _ => false |}.

Definition brief_started : StartedTurn :=
  {| st_turn_id := "turn-1"; st_record := sample_record;
     st_options := {| opt_model := None; opt_max_output_tokens := None; opt_temperature := None; opt_metadata := [] |};
     st_context := None |}.

Notation brief_turn := (started_turn prefix_digest sample_engine 0 brief_started).

(** One poll, and the item it yields. *)
Definition poll_once (c : Turn * World * Events) : list TurnItem * (Turn * World * Events) :=
  match run brief_schedule 0 (poll_next (fst (fst c))) (snd (fst c)) (snd c) with
  | (Returned (r, t), s, h) => (item_of r, (t, s, h))
  | _ => ([], c)
  end.

Fixpoint poll_times (k : nat) : list TurnItem * (Turn * World * Events) :=
  match k with
  | O => ([], (brief_turn, turn_world, []))
  | S k => let '(items, c) := poll_times k in let '(more, c') := poll_once c in (items ++ more, c')
  end.
Notation polled k := (snd (poll_times k)).

Lemma brief_start : turn_start 0 sample_record None turn_world.
Proof. by constructor; [constructor|..]. Qed.

Lemma poll_times_streamed k :
  streamed (me := 0) brief_turn turn_world [] (fst (poll_times k)) (fst (fst (polled k))) (snd (fst (polled k))) (snd (polled k)) /\
  exists r, exec (others 0) any_answer (poll_next (fst (fst (polled k)))) (snd (fst (polled k))) (snd (polled k))
    (Returned (r, fst (fst (polled (S k))))) (snd (fst (polled (S k)))) (snd (polled (S k))) /\
    fst (poll_times (S k)) = fst (poll_times k) ++ item_of r.
Proof.
  assert (forall items c, streamed (me := 0) brief_turn turn_world [] items (fst (fst c)) (snd (fst c)) (snd c) ->
    exists r, exec (others 0) any_answer (poll_next (fst (fst c))) (snd (fst c)) (snd c)
      (Returned (r, fst (fst (snd (poll_once c))))) (snd (fst (snd (poll_once c)))) (snd (snd (poll_once c))) /\
      fst (poll_once c) = item_of r) as Hstep.
  { intros items [[t s] h] Hs. cbn [fst snd] in *.
    assert (exec (others 0) any_answer (poll_next t) s h (fst (fst (run brief_schedule 0 (poll_next t) s h)))
      (snd (fst (run brief_schedule 0 (poll_next t) s h))) (snd (run brief_schedule 0 (poll_next t) s h))) as He.
    { apply run_exec; [intros; apply others_refl|done]. }
    destruct (started_log prefix_digest sample_engine brief_started 0 turn_world _ _ _ _ brief_start Hs) as (ys & last & hw & Hlog).
    destruct (stream_log_poll _ _ _ _ _ _ _ _ _ _ _ _ _ _ Hlog He) as (r & t' & E & _).
    unfold poll_once. cbn [fst snd]. destruct (run _ _ _ _ _) as [[o s'] h']. cbn [fst snd] in *. subst o. by exists r. }
  assert (streamed (me := 0) brief_turn turn_world [] (fst (poll_times k)) (fst (fst (polled k))) (snd (fst (polled k))) (snd (polled k))) as Hk.
  { induction k as [|k IH]; [apply streamed_start|]. cbn [poll_times]. destruct (poll_times k) as [items c]. cbn [fst snd] in *.
    destruct (Hstep _ _ IH) as (r & He & Ei). destruct (poll_once c) as [more c']. cbn [fst snd] in *. subst more.
    by eapply streamed_poll. }
  split; [done|]. destruct (Hstep _ _ Hk) as (r & He & Ei). exists r. cbn [poll_times]. destruct (poll_times k) as [items c].
  cbn [fst snd] in *. destruct (poll_once c) as [more c']. cbn [fst snd] in *. by subst more.
Qed.

Notation at_brief claim := (claim prefix_digest sample_engine brief_started 0 turn_world).

Definition item_kind (item : TurnItem) : option (N * bool) :=
  match item with Ok event => Some (ev_sequence event, is_terminal (ev_payload event)) | Err _ => None end.

Lemma stream_ordered_witness :
  map item_kind (fst (poll_times 8)) = [Some (0%N, false); Some (1%N, false); Some (2%N, true)] /\
  exists ys last, fst (poll_times 8) = map Ok ys ++ option_list last.
Proof.
  split; [by vm_compute|].
  destruct (at_brief stream_ordered _ _ _ _ brief_start (proj1 (poll_times_streamed 8))) as (ys & last & E & _). by exists ys, last.
Defined.

Definition brief_end : EngineEvent :=
  {| ev_session_id := "session"; ev_session_incarnation_id := "incarnation"; ev_turn_id := "turn-1"; ev_sequence := 2;
     ev_payload := Completed Stop_Completed TokenUsage_default |}.

Lemma stream_reports_witness :
  fst (poll_times 8) !! 2 = Some (Ok brief_end) /\ exists hw, calls hw = calls (snd (polled 8)).
Proof.
  assert (fst (poll_times 8) !! 2 = Some (Ok brief_end)) as E by (by vm_compute). split; [exact E|].
  destruct (at_brief stream_reports _ _ _ _ brief_end brief_start (proj1 (poll_times_streamed 8))) as (hw & Hc & _);
    [by eapply list_elem_of_lookup_2|done|by exists hw].
Defined.

Lemma stream_poll_total_witness :
  t_lease (fst (fst (polled 3))) = true /\ lease_holder (snd (fst (polled 4))) = Some 0.
Proof.
  split; [by vm_compute|]. assert (t_lease (fst (fst (polled 4))) = true) as Hlease by (by vm_compute).
  destruct (poll_times_streamed 3) as (Hs & r & He & _). revert He Hlease. generalize (polled 4) as c4. intros [[t4 s4] h4] He.
  destruct (at_brief stream_poll_total _ _ _ _ _ _ _ brief_start Hs He) as (r' & t' & [= _ <-] & _ & Hl & _). exact Hl.
Defined.

Definition dropped (c : Turn * World * Events) := run brief_schedule 0 (drop_turn (fst (fst c))) (snd (fst c)) (snd c).

Lemma stream_drop_ends_witness :
  t_lease (fst (fst (polled 3))) = true /\ ended (me := 0) 0 (snd (fst (dropped (polled 3)))).
Proof.
  split; [by vm_compute|].
  refine (proj1 (proj2 (at_brief stream_drop_ends _ _ _ _ _ _ _ brief_start (proj1 (poll_times_streamed 3)) _)));
    apply run_exec; [intros; apply others_refl|done].
Defined.

(** The turn is cancelled while the sink has its first event. *)
Definition cancelled_world : World :=
  set_turn (snd (fst (polled 1))) (cancel_token (turn (snd (fst (polled 1))))).

Lemma cancel_others me s : others me s (set_turn s (cancel_token (turn s))).
Proof.
  assert (evolves s (set_turn s (cancel_token (turn s)))) as He.
  { constructor; try done; [|by left|by apply past_grows_same]. intros [? ? ?]. by constructor. }
  constructor; try done. constructor; try done. intros _. apply delivers_refl.
Qed.

Notation cancelled_run := (run brief_schedule 0 (poll_next (fst (fst (polled 1)))) cancelled_world (snd (polled 1))).

Lemma stream_cancels_witness :
  is_Some (t_delivery (fst (fst (polled 1)))) /\ ended (me := 0) 0 (snd (fst cancelled_run)) /\
  same_log (snd (polled 1)) (snd cancelled_run).
Proof.
  split; [vm_compute; by eexists|].
  destruct (at_brief stream_cancels (fst (poll_times 1)) (fst (fst (polled 1))) (snd (fst (polled 1))) (snd (polled 1))
    cancelled_world (fst (fst cancelled_run)) (snd (fst cancelled_run)) (snd cancelled_run) brief_start
    (proj1 (poll_times_streamed 1)) (cancel_others 0 _)) as (event & t' & _ & _ & _ & He & L);
    [by vm_compute..|apply run_exec; [intros; apply others_refl|done]|]. by split.
Defined.

Lemma stream_terminates_witness : exists i, t_lease (fst (fst (polled i))) = false.
Proof.
  apply (at_brief stream_terminates (fun i => polled i)); [exact brief_start|done|].
  intros i. destruct (poll_times_streamed i) as (_ & r & He & _). by exists r.
Defined.
