(* ===== verification/TurnTask.v ===== *)
(** * A whole turn

    What a host does with a turn: it starts it, polls its stream any number of
    times, and drops it. The reservation of [ReserveProofs], the workflow of
    [TurnProofs] and the stream of [TurnStreamProofs] meet here. *)
From S2P Require Import Prelude Ids Json Model Limits PermissionId Catalog Context Prog SessionState Emission Operations.
From S2P Require Import Workflow TurnStream Sample Lease ReserveProofs TurnRules TurnProofs TurnTheorems TurnStreamProofs.
From S2P Require Import StreamTheorems.
From stdpp Require Import gmap.
Open Scope prog_scope.

Fixpoint drive (polls : nat) (items : list TurnItem) (t : Turn) : sprog (list TurnItem) :=
  match polls with
  | O => do _ <- drop_turn t; Ret items
  | S polls => do polled <- poll_next t; drive polls (items ++ item_of (fst polled)) (snd polled)
  end.

Definition turn_task `{JsonWriter} (sha256 : string -> string) (engine : EngineInner) (has_host : bool) (me : nat)
    (prompt : option string) (options : InferenceOptions) (preparation : option SessionTurnPreparation) (polls : nat)
    : sprog (result (StartedTurn * list TurnItem) EngineError) :=
  do? started <- start_turn engine has_host me prompt options preparation;
  do scope <- get (fun s => length (past_turns s));
  do items <- drive polls [] (started_turn sha256 engine scope started);
  Ret (Ok (started, items)).

(** The task acts as other tasks may rely on, and calls host code only while it
    holds the lease. *)
Definition task_allowed (me : nat) (e : event World Query Ans) (h : Events) : Prop :=
  match e with
  | EvAct s s' | EvDrop s s' => own me s s'
  | EvAsk s _ _ => lease_holder s = Some me
  end.

(** A turn that was started in [s1] and has ended: [l] is the history since. *)
Record turn_done `{JsonWriter} (sha256 : string -> string) (engine : EngineInner) (me : nat) (started : StartedTurn)
    (items : list TurnItem) (s1 s : World) (l : Events) : Prop := {
  td_start : turn_start me (st_record started) (st_context started) s1;
  td_ended : ended (me := me) (length (past_turns s1)) s;
  td_items : ordered_items started items l;
  td_calls : exists hw, calls hw = calls l /\
    all_allowed (turn_allowed sha256 engine (rec_id (st_record started)) (rec_incarnation_id (st_record started))
      (st_turn_id started) me s1 (rec_messages (st_record started))) hw;
}.

Definition turn_task_post `{JsonWriter} (sha256 : string -> string) (engine : EngineInner) (me : nat) (s0 : World)
    (prompt : option string) (preparation : option SessionTurnPreparation)
    (o : outcome (result (StartedTurn * list TurnItem) EngineError)) (s : World) (h : Events) : Prop :=
  lease_holder s <> Some me /\
  match o with
  | Returned (Ok (started, items)) =>
      exists base persisted s1 h1 l, h = l ++ h1 /\
        replaced h1 base persisted (reserving prompt preparation base) (rec_revision (st_record started)) /\
        reserved_turn s0 prompt preparation (st_turn_id started) (st_record started) base s1 /\
        started_context engine preparation base (st_record started) (st_context started) /\
        turn_done sha256 engine me started items s1 s l
  | Returned (Err _) => evolves s0 s /\ saves h <= MAX_CONFLICT_RETRIES
  | Dropped => True
  | Panicked | Blocked => False
  end.

Lemma turn_start_rely me record context s s' :
  rely me s s' -> turn_start me record context s -> turn_start me record context s'.
Proof.
  intros R [Hi Hl Hid Hd Hc Hp]. constructor; try done.
  - by eapply inv_rely.
  - by apply R.
  - by eapply idle_rely.
  - by rewrite (dl_deferrals _ _ (rely_emission _ _ _ R Hl)).
  - by destruct (rely_context _ _ _ R Hl) as [-> _].
Qed.

Lemma ordered_items_log started items h h' :
  same_log h h' -> ordered_items started items h -> ordered_items started items h'.
Proof.
  intros [_ Le La] (ys & last & Hit & Hy & Hl). exists ys, last. split; [done|]. split.
  - intros i event Hi. destruct (Hy i event Hi) as (? & ? & ?). auto.
  - destruct last as [[event|e]|]; [done| |done]. destruct Hl as (event & error & ? & ? & ?).
    exists event, error. rewrite Le. auto.
Qed.

Section Task.
Context `{JsonWriter}.
Context (sha256 : string -> string) (engine : EngineInner) (has_host : bool) (me : nat).

Section Drive.
Context (started : StartedTurn) (s1 : World).
Context (start : turn_start me (st_record started) (st_context started) s1).
Notation record := (st_record started).
Notation scope := (length (past_turns s1)).
Notation log := (stream_log (me := me)
  (al := turn_allowed sha256 engine (rec_id record) (rec_incarnation_id record) (st_turn_id started) me s1 (rec_messages record))
  (post := run_post me s1) scope (rec_id record) (rec_incarnation_id record) (st_turn_id started)).
Notation swp := (wp (others me) any_answer (stream_allowed (me := me))).

Definition drive_post (o : outcome (list TurnItem)) (s : World) (h : Events) : Prop :=
  exists items, o = Returned items /\ turn_done sha256 engine me started items s1 s h.

Lemma swp_drive polls : forall items ys last t s h hw,
  log items ys last t s h hw -> swp (drive polls items t) drive_post s h.
Proof.
  induction polls as [|polls IH]; intros items ys last t s h hw Hlog; cbn [drive]; apply wp_bind; try apply others_refl.
  - eapply wp_mono; [|eapply swp_drop_turn, (sg_inv _ _ _ _ _ _ _ _ _ _ _ Hlog)].
    intros o s' h' (-> & He & L & _) s2 R2. exists items. split; [done|]. constructor; [done|by eapply ended_others| |].
    + eapply ordered_items_log; [exact L|by eapply log_ordered].
    + exists hw. rewrite (sl_calls _ _ L). destruct (sg_inv _ _ _ _ _ _ _ _ _ _ _ Hlog). done.
  - eapply wp_mono; [|by eapply swp_log_poll]. intros o s' h' (r & t' & -> & _ & _ & _ & ys' & last' & hw' & Hlog').
    by eapply IH.
Qed.

Lemma wp_drive polls h1 :
  wp (others me) any_answer (task_allowed me) (drive polls [] (started_turn sha256 engine scope started))
    (fun o s h => exists l, h = l ++ h1 /\ drive_post o s l) s1 h1.
Proof.
  apply (wp_embed (others me) (others me) any_answer any_answer (stream_allowed (me := me)) (task_allowed me) h1 _ _ _ []);
    [done|done|by intros []|].
  eapply (swp_drive polls [] [] None); constructor; [done|by apply started_inv|done].
Qed.
End Drive.

Context (prompt : option string) (options : InferenceOptions) (preparation : option SessionTurnPreparation) (polls : nat).

Lemma wp_turn_task s0 :
  inv s0 -> lease_holder s0 <> Some me ->
  wp (others me) any_answer (task_allowed me) (turn_task sha256 engine has_host me prompt options preparation polls)
    (turn_task_post sha256 engine me s0 prompt preparation) s0 [].
Proof.
  intros Hi Hl. apply wp_bind; [apply others_refl|].
  eapply wp_mono; [|eapply (wp_embed (rely me) (others me) any_answer any_answer _ (task_allowed me) [] _ _ _ []);
    [intros s s' R; apply R|done| |by apply (wp_start_turn engine has_host me prompt options preparation s0)]].
  2:{ by intros [|? [] ?|] l Ha; simpl in *; destruct Ha. }
  intros o s1 h1 (l1 & -> & Ho). rewrite app_nil_r. destruct o as [[started|e]| | |]; try done.
  2:{ destruct Ho as (Hn & He & Hs). intros s2 R2. split; [intros E; by apply Hn, (rely_lease_back _ _ _ (ot_rely _ _ _ R2))|].
      split; [etrans; [exact He|apply R2]|done]. }
  destruct Ho as (Hst & _ & _ & base & persisted & Hr & Hrep & Hctx). intros s2 R2. split; [apply quiet_own, quiet_refl|].
  pose proof (turn_start_rely _ _ _ _ _ (ot_rely _ _ _ R2) Hst) as Hst2. cbn [fst snd].
  apply wp_map. eapply wp_mono; [|by apply (wp_drive started s2 Hst2 polls)].
  intros o s3 h3 (l & -> & items & -> & Hd). split; [apply (td_ended _ _ _ _ _ _ _ _ Hd)|].
  eexists base, persisted, s2, _, l. split_and!; [done|by eapply replaced_later; [apply suffix_cons_r|]| |done|done].
  eapply reserved_turn_evolves; [apply R2|done].
Qed.

(** C25. A whole turn, under every interleaving with other tasks, every behaviour of
    the store, the model, the tools, the permission handler and the sink, and
    however many times it is polled before it is dropped: it never panics, it calls
    host code only while it holds the lease, and in the end it has given the lease
    up. A turn that started was reserved as [start_turn_correct] says, its items
    are ordered, its scopes are closed, and its workflow made exactly the calls of
    the turn, each of them allowed. *)
Theorem turn_lifecycle s o s' h' :
  inv s -> lease_holder s <> Some me ->
  exec (others me) any_answer (turn_task sha256 engine has_host me prompt options preparation polls) s [] o s' h' ->
  all_allowed (task_allowed me) h' /\ turn_task_post sha256 engine me s prompt preparation o s' h'.
Proof.
  intros Hi Hl He. pose proof (wp_turn_task s Hi Hl) as Hw. split.
  - by eapply wp_exec_allowed; [apply others_refl|apply others_trans|..].
  - by eapply wp_exec; [apply others_refl|apply others_trans|..].
Qed.
End Task.

Notation brief_task := (turn_task prefix_digest sample_engine true 0 (Some "again") sample_options (Some sample_preparation) 8).
Notation brief_run := (run brief_schedule 0 brief_task sample_world []).

Lemma turn_lifecycle_witness :
  match fst (fst brief_run) with
  | Returned (Ok (started, items)) => map item_kind items = [Some (0%N, false); Some (1%N, false); Some (2%N, true)]
  | _ => False
  end /\
  lease_holder (snd (fst brief_run)) <> Some 0.
Proof.
  split; [by vm_compute|].
  apply (turn_lifecycle prefix_digest sample_engine true 0 (Some "again") sample_options (Some sample_preparation) 8
    sample_world (fst (fst brief_run)) (snd (fst brief_run)) (snd brief_run)); [by constructor|done|].
  apply run_exec; [intros; apply others_refl|done].
Defined.
