(* ===== verification/TurnMetadataProofs.v ===== *)
(** * The metadata editor of a turn is correct

    [TurnMetadata] under every interleaving: what an editor may do to the session
    although it does not hold the lease, what it may save, and what its results
    mean. *)
From S2P Require Import Prelude Ids Json Model Limits Context Prog SessionState Emission Operations Workflow TurnStream.
From S2P Require Import TurnMetadata Sample Lease ReserveProofs.
Open Scope prog_scope.

(** ** The candidate *)
Lemma filter_fresh {V} (m : list (string * V)) key :
  Forall (str_lt key) (m.*1) -> List.filter (fun e => negb (bool_decide (fst e = key))) m = m.
Proof.
  induction m as [|[k v] m IH]; simpl; [done|]. intros [Hk Hm]%Forall_cons. case_bool_decide as E; simpl.
  - subst. by apply str_lt_irrefl in Hk.
  - by rewrite IH.
Qed.

Lemma filter_remove {V} (m : list (string * V)) key :
  bt_wf m -> List.filter (fun e => negb (bool_decide (fst e = key))) m = bt_remove m key.
Proof.
  induction m as [|[k v] m IH]; simpl; [done|]. intros [Hm Hk]%bt_wf_cons. case_bool_decide as E; simpl.
  - subst. by apply filter_fresh.
  - by rewrite IH.
Qed.

Lemma insert_remove {V} (m : list (string * V)) key v : bt_wf m -> bt_insert (bt_remove m key) key v = bt_insert m key v.
Proof.
  induction m as [|[k w] m IH]; simpl; [done|]. intros [Hm Hk]%bt_wf_cons. case_bool_decide as E; simpl.
  - subst. rewrite (proj2 (str_cmp_eq key key) eq_refl). destruct m as [|[k' w'] m]; simpl; [done|].
    apply Forall_cons in Hk as [Hk _]. simpl in Hk. unfold str_lt in Hk. by rewrite Hk.
  - rewrite IH by done. destruct (str_cmp key k) eqn:Ec; [apply str_cmp_eq in Ec; congruence| |done].
    rewrite <-filter_remove, filter_fresh; [done| |done]. eapply Forall_impl; [exact Hk|]. intros x. by apply str_lt_trans.
Qed.

Lemma candidate_metadata_edit record key replacement :
  bt_wf (rec_metadata record) ->
  candidate_metadata (rec_metadata record) key replacement = rec_metadata (edit_entry record key replacement).
Proof.
  intros Hw. unfold candidate_metadata, edit_entry. rewrite filter_remove by done.
  destruct replacement; simpl; [by apply insert_remove|done].
Qed.

(** The check of a candidate, made on the borrowed entries, admits exactly the
    edits that leave an admitted record. *)
Lemma validate_candidate_iff `{JsonWriter} record key replacement limits :
  bt_wf (rec_metadata record) -> validate_record record limits = Ok tt ->
  validate_candidate record key replacement limits = Ok tt <->
  validate_record (edit_entry record key replacement) limits = Ok tt.
Proof.
  intros Hw Hr. unfold validate_candidate, validate_bytes. rewrite candidate_metadata_edit by done.
  rewrite validate_record_json in Hr |- *. unfold record_json, size_or in *.
  change (rec_messages (edit_entry record key replacement)) with (rec_messages record).
  assert (validate_transcript (rec_messages record) limits = Ok tt) as ->.
  { destruct (validate_json_roots _ _); [|done]. simpl in Hr. by destruct (validate_transcript _ _) as [[]|]. }
  generalize (rec_metadata (edit_entry record key replacement)). intros metadata.
  destruct (validate_json_roots (bt_values metadata ++ _) _) as [[]|]; simpl; [|by split].
  destruct (serialized_json_size_bounded metadata _) as [[]|[]]; by split.
Qed.

(** ** What an editor may do *)
(** A step of a task that leaves the lease alone and never clears the debt. *)
Record free_step (me : nat) (s s' : World) : Prop := {
  fs_own : own me s s';
  fs_lease : lease_holder s' = lease_holder s;
  fs_debt : metadata_reconciliation_required s = true -> metadata_reconciliation_required s' = true;
}.

Lemma free_step_trans me s1 s2 s3 : free_step me s1 s2 -> free_step me s2 s3 -> free_step me s1 s3.
Proof.
  intros [A1 A2 A3] [B1 B2 B3]. constructor; [|congruence|auto].
  intros other Ho. eapply others_trans; [by apply A1|by apply B1].
Qed.

Lemma quiet_free me s s' : quiet s s' -> free_step me s s'.
Proof. intros Hq. pose proof Hq as [_ ? Hd _ _ _]. constructor; [by apply quiet_own|done|congruence]. Qed.

Lemma free_step_refl me s : free_step me s s.
Proof. apply quiet_free, quiet_refl. Qed.

Lemma free_evolves me s s' : free_step me s s' -> evolves s s'.
Proof. intros [Ho _ _]. destruct (Ho (S me)) as [R _ _ _]; [lia|]. apply R. Qed.

(** Changes of the operation flag and of the count of owners. *)
Lemma update_shared_free me n (f : TurnShared -> TurnShared) s :
  (forall t, ts_cancelled (f t) = ts_cancelled t /\ ts_emission (f t) = ts_emission t /\ shared_settles t (f t)) ->
  free_step me s (update_shared n f s).
Proof.
  intros Hf. destruct (Hf (turn s)) as (Ec & Ee & Hs). unfold update_shared. destruct (_ =? _).
  - assert (evolves s (set_turn s (f (turn s)))) as He.
    { constructor; try done; [|by left|by apply past_grows_same]. intros [? ? ?]. by constructor. }
    constructor; try done. intros other _. constructor; [constructor; try done|..]; unfold turn_cancelled, emission; simpl;
      rewrite ?Ec, ?Ee; try done. intros _. apply delivers_refl.
  - assert (evolves s (set_past_turns s (alter f n (past_turns s)))) as He.
    { constructor; try done; [|by left|]; [intros [? ? ?]; by constructor|]. intros i t Ht. simpl.
      destruct (decide (i = n)) as [->|Hi].
      - rewrite list_lookup_alter_eq, Ht. destruct (Hf t) as (_ & _ & ?). by exists (f t).
      - rewrite list_lookup_alter_ne by done. exists t. split; [done|apply shared_settles_refl]. }
    constructor; try done. intros other _. constructor; [constructor; try done|..]; try done.
    + intros _. apply delivers_refl.
    + intros _. simpl. by rewrite length_alter.
Qed.

Lemma arm_free me s : free_step me s (set_reconciliation_required s true).
Proof.
  assert (evolves s (set_reconciliation_required s true)) as He.
  { constructor; try done; [|by left|by apply past_grows_same]. intros [? ? ?]. by constructor. }
  constructor; try done. intros other _. constructor; [constructor; try done|..]; try done. intros _. apply delivers_refl.
Qed.

(** The guarantee of an editor: it saves only what [save_ok] admits. *)
Definition editor_allowed (save_ok : Events -> SessionRecord -> option SessionRevision -> Prop) (me : nat)
    (e : event World Query Ans) (h : Events) : Prop :=
  match e with
  | EvAct s s' | EvDrop s s' => free_step me s s'
  | EvAsk _ (Q_load _ _) _ => True
  | EvAsk _ (Q_save _ r expected) _ => save_ok h r expected
  | EvAsk _ _ _ => False
  end.

Record edit_contract (save_ok : Events -> SessionRecord -> option SessionRevision -> Prop) (me : nat)
    (al : event World Query Ans -> Events -> Prop) : Prop := {
  ec_act : forall s s' h, free_step me s s' -> al (EvAct s s') h;
  ec_drop : forall s s' h, free_step me s s' -> al (EvDrop s s') h;
  ec_load : forall s store id x h, al (EvAsk s (Q_load store id) x) h;
  ec_save : forall s store r expected x h, save_ok h r expected -> al (EvAsk s (Q_save store r expected) x) h;
}.

Lemma editor_contract save_ok me : edit_contract save_ok me (editor_allowed save_ok me).
Proof. by constructor. Qed.

Lemma guarded_contract save_ok me al (g : World -> World) :
  (forall s, free_step me s (g s)) -> edit_contract save_ok me al -> edit_contract save_ok me (drop_allowed al g).
Proof. intros Hg [H1 H2 H3 H4]. constructor; simpl; auto. intros s s' h Hs. apply H2. by eapply free_step_trans. Qed.

(** ** Programs of an editor *)
(** How far the session has come since [s0], with at most [n] saves. *)
Record free (s0 : World) (n : nat) (s : World) (h : Events) : Prop := {
  free_since : evolves s0 s;
  free_inv : inv s;
  free_saves : saves h <= n;
}.

Lemma free_weaken s0 n m s h : n <= m -> free s0 n s h -> free s0 m s h.
Proof. intros Hn [? ? ?]. constructor; [done|done|lia]. Qed.

(** A result, an error or a drop; the program never panics or blocks. *)
Definition fends {A} (s0 : World) (n : nat) (Q : A -> World -> Events -> Prop) (o : outcome (result A EngineError))
    (s : World) (h : Events) : Prop :=
  match o with
  | Returned (Ok a) => free s0 n s h /\ Q a s h
  | Returned (Err _) => free s0 n s h
  | Dropped => exists b h1, h = EvDrop b s :: h1
  | Panicked | Blocked => False
  end.

(** What later actions, of this task and of others, keep. *)
Definition lasting {A} (Q : A -> World -> Events -> Prop) : Prop :=
  forall a s s' h h', evolves s s' -> h `suffix_of` h' -> Q a s h -> Q a s' h'.

Section Free.
Context `{JsonWriter}.
Context {me : nat} {save_ok : Events -> SessionRecord -> option SessionRevision -> Prop}.
Context {al : event World Query Ans -> Events -> Prop}.
Context (C : edit_contract save_ok me al).
Context (s0 : World).
Notation fwp := (wp (rely me) any_answer al).

Lemma free_rely n s s' h : rely me s s' -> free s0 n s h -> free s0 n s' h.
Proof. intros R [He Hi Hs]. constructor; [etrans; [exact He|apply R]|by eapply inv_rely|done]. Qed.

Lemma free_act n s s' h : free_step me s s' -> free s0 n s h -> free s0 n s' (EvAct s s' :: h).
Proof.
  intros F [He Hi Hs]. pose proof (free_evolves _ _ _ F) as Hf. constructor; [by etrans|by apply Hf|done].
Qed.

Lemma free_quiet n s s' h h' : rely me s s' -> adds_quiet h h' -> free s0 n s h -> free s0 n s' h'.
Proof.
  intros R Hh Hf. destruct (free_rely _ _ _ _ R Hf) as [? ? ?]. constructor; try done. by rewrite (adds_quiet_saves _ _ Hh).
Qed.

Lemma fwp_try {A B} (p : sprog (result A EngineError)) (c : A -> sprog (result B EngineError)) n m Q1 Q2 s h :
  n <= m -> fwp p (fends s0 n Q1) s h ->
  (forall a s h, free s0 n s h -> Q1 a s h -> fwp (c a) (fends s0 m Q2) s h) -> fwp (try p c) (fends s0 m Q2) s h.
Proof.
  intros Hn Hp Hc. apply wp_bind; [apply rely_refl|]. eapply wp_mono; [|exact Hp].
  intros [[a|e]| | |] s' h'; simpl; try done; [intros []; by apply Hc|].
  intros Hf s'' R. eapply free_weaken; [exact Hn|]. by eapply free_rely.
Qed.

Lemma fwp_check {A B} (r : result A EngineError) (c : A -> sprog (result B EngineError)) n Q s h :
  free s0 n s h -> (forall a, r = Ok a -> fwp (c a) (fends s0 n Q) s h) -> fwp (try (Ret r) c) (fends s0 n Q) s h.
Proof. intros Hf Hc. destruct r as [a|e]; [by apply Hc|]. intros s' R. by eapply free_rely. Qed.

Lemma fwp_err {A} (e : EngineError) n (Q : A -> World -> Events -> Prop) s h :
  free s0 n s h -> fwp (Ret (Err e)) (fends s0 n Q) s h.
Proof. intros Hf s' R. by eapply free_rely. Qed.

Lemma fwp_ok {A} (a : A) n (Q : A -> World -> Events -> Prop) s h :
  free s0 n s h -> (forall s', rely me s s' -> Q a s' h) -> fwp (Ret (Ok a)) (fends s0 n Q) s h.
Proof. intros Hf HQ s' R. split; [by eapply free_rely|by apply HQ]. Qed.

Lemma fwp_act {X B} (f : World -> X * World) (c : X -> sprog B) post n s h :
  free s0 n s h -> (forall s', free_step me s' (snd (f s'))) ->
  (forall s', rely me s s' -> free s0 n (snd (f s')) (EvAct s' (snd (f s')) :: h) ->
     fwp (c (fst (f s'))) post (snd (f s')) (EvAct s' (snd (f s')) :: h)) ->
  fwp (bind (act f) c) post s h.
Proof.
  intros Hf Hs Hc s' R. split; [apply (ec_act _ _ _ C), Hs|]. apply Hc; [done|]. apply free_act; [done|]. by eapply free_rely.
Qed.

Lemma fwp_read {X B} (f : World -> X) (c : X -> sprog B) post n s h :
  free s0 n s h ->
  (forall s', rely me s s' -> free s0 n s' (EvAct s' s' :: h) -> fwp (c (f s')) post s' (EvAct s' s' :: h)) ->
  fwp (bind (get f) c) post s h.
Proof. intros Hf Hc. eapply (fwp_act (fun s => (f s, s))); [exact Hf|intros; apply free_step_refl|exact Hc]. Qed.

Lemma fwp_yield {B} (p : sprog (result B EngineError)) n Q s h :
  free s0 n s h -> (forall s', free s0 n s' h -> fwp p (fends s0 n Q) s' h) -> fwp (Yield id p) (fends s0 n Q) s h.
Proof.
  intros Hf Hp s' R. split; [split; [apply (ec_drop _ _ _ C), free_step_refl|by eexists _, _]|]. apply Hp. by eapply free_rely.
Qed.

(** An owned value of an editor operation. *)
Lemma fwp_guarded {A} (g : World -> World) (body : sprog (result A EngineError)) n (Q : A -> World -> Events -> Prop) s h :
  (forall s, free_step me s (g s)) -> lasting Q ->
  wp (rely me) any_answer (drop_allowed al g) body (fends s0 n Q) s h ->
  fwp (guarded g (fun _ => false) body) (fends s0 n Q) s h.
Proof.
  intros Hg HQ Hb. apply wp_guarded. eapply wp_mono; [|exact Hb]. intros [[a|e]| | |] s' h'; simpl; try done.
  - intros [Hf Ha]. split; [by apply (ec_act _ _ _ C)|]. intros s'' R.
    split; [eapply free_rely; [exact R|by apply free_act]|]. eapply HQ; [|by apply suffix_cons_r|exact Ha].
    etrans; [by eapply free_evolves, Hg|apply R].
  - intros Hf. split; [by apply (ec_act _ _ _ C)|]. intros s'' R. eapply free_rely; [exact R|by apply free_act].
  - intros (b & h1 & ->). by eexists _, _.
Qed.
End Free.

(** ** The scope *)
(** What a record an editor starts from satisfies: it is of the session and of the
    turn of the scope, stored and admitted. *)
Record edit_base `{JsonWriter} (limits : EngineLimits) (scope : TurnMetadataScope) (s0 : World) (r : SessionRecord) : Prop := {
  eb_session : same_session s0 r;
  eb_scope : scope_validate_identity scope r = Ok tt;
  eb_stored : rec_revision r <> 0%N;
  eb_admitted : validate_record r limits = Ok tt;
}.

Section Scope.
Context `{JsonWriter}.
Context {me : nat} {save_ok : Events -> SessionRecord -> option SessionRevision -> Prop}.
Context {al : event World Query Ans -> Events -> Prop}.
Context (C : edit_contract save_ok me al).
Context (engine : EngineInner) (has_host : bool) (scope : TurnMetadataScope) (s0 : World).
Notation fwp := (wp (rely me) any_answer al).
Notation base := (edit_base (limits engine) scope s0).

Lemma ec_quiet s s' h : quiet s s' -> al (EvAct s s') h.
Proof. intros. by apply (ec_act _ _ _ C), quiet_free. Qed.

Lemma fwp_open n s h :
  free s0 n s h -> fwp (scope_ensure_open has_host scope) (fends s0 n (fun _ _ h' => keeps h h')) s h.
Proof.
  intros Hf. eapply fwp_try with (n := n) (Q1 := fun _ _ h' => keeps h h'); [lia| |].
  { eapply (fwp_read C); [exact Hf|]. intros s1 _ Hf1. destruct (_ && _); [by apply fwp_err|].
    apply fwp_ok; [done|]. intros _ _. by apply keeps_act. }
  intros _ s1 h1 Hf1 Hk. eapply (fwp_read C); [exact Hf1|]. intros s2 _ Hf2. destruct (ts_admission_closed _); [by apply fwp_err|].
  eapply (fwp_read C); [exact Hf2|]. intros s3 _ Hf3. destruct (ts_cancelled _); [by apply fwp_err|].
  apply fwp_ok; [done|]. intros _ _. eapply keeps_trans; [exact Hk|].
  by eapply keeps_trans; apply keeps_act.
Qed.

(** The rest of a program after the scope was found open. *)
Lemma fwp_opened {B} (c : unit -> sprog (result B EngineError)) n m Q s h :
  n <= m -> free s0 n s h -> (forall s' h', free s0 n s' h' -> keeps h h' -> fwp (c tt) (fends s0 m Q) s' h') ->
  fwp (try (scope_ensure_open has_host scope) c) (fends s0 m Q) s h.
Proof.
  intros Hn Hf Hc. eapply fwp_try; [exact Hn|by apply fwp_open|]. intros [] s' h' Hf' Hk. by apply Hc.
Qed.

(** The last action read the record [r], stored, in a state since which the session
    has come to [s]. *)
Definition snapped (r : ArcRecord) (s : World) (h : Events) : Prop :=
  exists s1 h1, h = EvAct s1 s1 :: h1 /\ data_record (data s1) = r /\ data_persisted (data s1) = true /\
    inv s1 /\ evolves s1 s.

Lemma fwp_snapshot n s h :
  free s0 n s h ->
  fwp (scope_snapshot engine has_host scope) (fends s0 n (fun r s h => base (arc_val r) /\ snapped r s h)) s h.
Proof.
  intros Hf. apply (fwp_opened _ n n); [done|done|]. intros s1 h1 Hf1 _. eapply (fwp_read C); [exact Hf1|].
  intros s2 R2 Hf2. cbv zeta. eapply fwp_check; [exact Hf2|]. intros [] Hid.
  destruct (negb _ || _) eqn:Ep; [by apply fwp_err|]. eapply fwp_check; [exact Hf2|]. intros [] Hv.
  apply orb_false_iff in Ep as [Ep%negb_false_iff Er%N.eqb_neq]. apply fwp_ok; [exact Hf2|]. intros s3 R3.
  split; [|exists s2, h1; split_and!; [done|done|done|by eapply free_inv|apply R3]]. constructor; [|done|done|].
  - eapply same_session_evolves, Hf2.
  - unfold validate_record_limits in Hv. by destruct (validate_record _ _) as [[]|].
Qed.

Lemma fwp_wait_polls {T} wins k (r : result T SessionStoreError) n h0 s h :
  free s0 n s h -> h0 `suffix_of` h ->
  fwp (wait_polls has_host scope wins k r) (fends s0 n (fun v _ h' => r = Ok v /\ h0 `suffix_of` h')) s h.
Proof.
  revert s h. induction k as [|k IH]; intros s h Hf Hh; cbn [wait_polls];
    (apply (fwp_opened _ n n); [done|done|]; intros s1 h1 Hf1 K1; eapply (fwp_read C); [exact Hf1|]; intros s2 _ Hf2;
     destruct (ts_cancelled _); [by apply fwp_err|]; eapply (fwp_read C); [exact Hf2|]; intros s3 _ Hf3;
     destruct (ts_closed _); [by apply fwp_err|]; apply (fwp_opened _ n n); [done|done|]; intros s4 h4 Hf4 K4;
     assert (h0 `suffix_of` h4) as Hh4
       by (etrans; [exact Hh|]; etrans; [by apply keeps_suffix|]; etrans; [|by apply keeps_suffix]; by do 2 apply suffix_cons_r)).
  - destruct wins, r as [v|e]; try (by apply fwp_ok);
      (apply (fwp_opened _ n n); [done|done|]; intros s5 h5 Hf5 K5%keeps_suffix);
      [by apply fwp_err| |by apply fwp_err]. apply fwp_ok; [done|]. intros _ _. split; [done|by etrans].
  - apply (fwp_opened _ n n); [done|done|]. intros s5 h5 Hf5 K5%keeps_suffix. eapply (fwp_yield C); [exact Hf5|].
    intros s6 Hf6. apply IH; [done|by etrans].
Qed.

Lemma fwp_reload n s h :
  free s0 n s h -> fwp (reload engine has_host scope) (fends s0 n (fun r s h => base (arc_val r) /\ snapped r s h)) s h.
Proof.
  intros Hf. apply (fwp_opened _ n n); [done|done|]. intros s1 h1 Hf1 _ s2 R2 x _. split; [apply (ec_load _ _ _ C)|].
  assert (free s0 n s2 (EvAsk s2 (Q_load (session_store engine) (ms_session scope)) x :: h1)) as Hf2.
  { destruct (free_rely _ _ _ _ _ R2 Hf1). by constructor. }
  eapply fwp_try; [done|by eapply fwp_wait_polls|]. intros loaded s3 h3 Hf3 _.
  eapply fwp_check; [exact Hf3|]. intros current _. eapply fwp_check; [exact Hf3|]. intros [] _.
  eapply fwp_check; [exact Hf3|]. intros [] _. eapply fwp_check; [exact Hf3|]. intros [] _.
  apply wp_bind; [apply rely_refl|].
  apply (wp_reconcile_loaded me any_answer al ec_quiet); [exact (free_inv _ _ _ _ Hf3)|].
  intros res s4 h4 R4 Hh4 _. pose proof (free_quiet _ _ _ _ _ _ R4 Hh4 Hf3) as Hf4.
  eapply fwp_try with (n := n) (Q1 := fun _ _ _ => True); [done| |intros _ s5 h5 Hf5 _; by apply fwp_snapshot].
  destruct res as [[]|e]; [by apply fwp_ok|]. eapply fwp_try; [done|by apply fwp_snapshot|].
  intros r s5 h5 Hf5 _. destruct (_ <=? _)%N; [by apply fwp_err|by apply fwp_ok].
Qed.
End Scope.

Section Owned.
Context `{JsonWriter}.
Context {me : nat} {save_ok : Events -> SessionRecord -> option SessionRevision -> Prop}.
Context {al : event World Query Ans -> Events -> Prop}.
Context (C : edit_contract save_ok me al).
Context (has_host : bool) (scope : TurnMetadataScope) (s0 : World).
Notation fwp := (wp (rely me) any_answer al).

Lemma fwp_with_operation {A} (body : sprog (result A EngineError)) n m (Q : A -> World -> Events -> Prop) s h :
  n <= m -> free s0 n s h -> lasting Q ->
  (forall s' h', free s0 n s' h' ->
     wp (rely me) any_answer (drop_allowed al (release_operation (ms_turn scope))) body (fends s0 m Q) s' h') ->
  fwp (with_operation has_host scope body) (fends s0 m Q) s h.
Proof.
  intros Hn Hf HQ Hb. assert (forall s, free_step me s (release_operation (ms_turn scope) s)) as Hg.
  { intros s'. by apply update_shared_free. }
  apply (fwp_opened C has_host scope s0 _ n); [done|done|]. intros s1 h1 Hf1 _. eapply (fwp_act C); [exact Hf1| |].
  { intros s'. unfold acquire_operation. destruct (ts_operation_active _); [apply free_step_refl|by apply update_shared_free]. }
  intros s2 _ Hf2. destruct (fst (acquire_operation _ _)); cbn [negb]; [|apply fwp_err; by eapply free_weaken].
  apply (fwp_guarded C); [done|done|].
  apply (fwp_opened (guarded_contract _ _ _ _ Hg C) has_host scope s0 _ n); [done|done|]. intros s3 h3 Hf3 _. by apply Hb.
Qed.

Lemma fwp_with_scope {A} (body : sprog (result A EngineError)) n m (Q : A -> World -> Events -> Prop) s h :
  n <= m -> free s0 n s h -> lasting Q ->
  (forall s' h', free s0 n s' h' ->
     wp (rely me) any_answer (drop_allowed al (update_shared (ms_turn scope) drop_scope)) body (fends s0 m Q) s' h') ->
  fwp (with_scope scope body) (fends s0 m Q) s h.
Proof.
  intros Hn Hf HQ Hb. eapply (fwp_act C); [exact Hf| |].
  { intros s'. unfold upgrade_scope. destruct (_ =? _)%N; [apply free_step_refl|by apply update_shared_free]. }
  intros s2 _ Hf2. destruct (fst (upgrade_scope _ _)); cbn [negb]; [|apply fwp_err; by eapply free_weaken].
  apply (fwp_guarded C); [intros s'; by apply update_shared_free|done|by apply Hb].
Qed.

End Owned.

(** An operation of an editor: what it owns is released however it ends. *)
Lemma fwp_operate `{JsonWriter} {me save_ok} has_host scope s0 {A} (body : sprog (result A EngineError)) m
    (Q : A -> World -> Events -> Prop) :
  inv s0 -> lasting Q ->
  (forall al, edit_contract save_ok me al -> forall s h, free s0 0 s h -> wp (rely me) any_answer al body (fends s0 m Q) s h) ->
  wp (rely me) any_answer (editor_allowed save_ok me) (with_scope scope (with_operation has_host scope body))
    (fends s0 m Q) s0 [].
Proof.
  intros Hi HQ Hb. pose proof (editor_contract save_ok me) as C.
  assert (forall s, free_step me s (update_shared (ms_turn scope) drop_scope s)) as Hg by (intros s; by apply update_shared_free).
  assert (forall s, free_step me s (release_operation (ms_turn scope) s)) as Hr by (intros s; by apply update_shared_free).
  apply (fwp_with_scope C scope s0 _ 0); [lia|by constructor; [apply evolves_refl|..]|done|]. intros s1 h1 Hf1.
  pose proof (guarded_contract _ _ _ _ Hg C) as C1.
  apply (fwp_with_operation C1 has_host scope s0 _ 0); [lia|done|done|]. apply Hb. by apply guarded_contract.
Qed.

(** ** Edits *)
Section Edit.
Context `{JsonWriter}.
Context (engine : EngineInner) (has_host : bool) (editor : TurnMetadataEditor) (expected replacement : option Value).
Context (s0 : World).
Notation scope := (ed_scope editor).
Notation key := (ed_key editor).
Notation base := (edit_base (limits engine) scope s0).

(** The edit of a record whose entry is what was expected. *)
Record edits (b r : SessionRecord) : Prop := {
  ed_base : base b;
  ed_expected : bt_get (rec_metadata b) key = expected;
  ed_checked : validate_candidate b key replacement (limits engine) = Ok tt;
  ed_record : r = edit_entry b key replacement;
}.

(** What the editor may save: such an edit of the record that its snapshot and the
    check after it found canonical, at the revision of that record. *)
Definition edit_save_ok (h : Events) (r : SessionRecord) (revision : option SessionRevision) : Prop :=
  exists b, current_at h b true /\ edits b r /\ revision = Some (rec_revision b).

(** The last action armed the debt. *)
Definition rearmed (h : Events) : Prop :=
  match h with EvAct _ s :: _ | EvDrop _ s :: _ => metadata_reconciliation_required s = true | _ => False end.

(** A save succeeded, and the canonical record reflects it. *)
Definition edited (b r : SessionRecord) (revision : SessionRevision) (s : World) : Prop :=
  (rec_revision b < revision)%N /\ reflects (with_revision r revision) s.

Lemma edited_evolves b r revision s s' : evolves s s' -> edited b r revision s -> edited b r revision s'.
Proof. intros He [? ?]. split; [done|]. by eapply reflects_evolves. Qed.

(** The end of a publication that began at [h0]. *)
Definition publish_post (h0 : Events) (n : nat) (b r : SessionRecord) (o : outcome (option (result SessionRevision EngineError)))
    (s : World) (h : Events) : Prop :=
  match o with
  | Returned (Some (Ok revision)) => free s0 n s h /\ edited b r revision s /\
      exists h1, keeps h0 h1 /\ save_accepted h r (Some (rec_revision b)) revision h1
  | Returned _ => free s0 n s h /\ rearmed h
  | Dropped => rearmed h /\ exists b h1, h = EvDrop b s :: h1
  | Panicked | Blocked => False
  end.

Section Steps.
Context {me : nat} {save_ok : Events -> SessionRecord -> option SessionRevision -> Prop}.
Context {al : event World Query Ans -> Events -> Prop}.
Context (C : edit_contract save_ok me al).
Notation fwp := (wp (rely me) any_answer al).

Notation arm := (fun s => set_reconciliation_required s true).
Notation keep := (fun r : option (result SessionRevision EngineError) => match r with Some (Ok _) => true | _ => false end).

(** Leaving a publication that is not confirmed. *)
Lemma publish_unconfirmed h0 n b r o s h :
  free s0 n s h -> keep o = false -> guard_post (rely me) al arm keep (publish_post h0 n b r) (Returned o) s h.
Proof.
  intros Hf Ho. unfold guard_post. rewrite Ho. split; [apply (ec_act _ _ _ C), arm_free|]. intros s' R.
  assert (free s0 n s' (EvAct s (set_reconciliation_required s true) :: h)) as Hf'.
  { eapply free_rely; [exact R|]. apply (free_act (me := me)); [apply arm_free|done]. }
  destruct o as [[?|?]|]; [done|by split..].
Qed.

Lemma publish_dropped {A} h0 n b r (Q : A -> World -> Events -> Prop) s h :
  @fends A s0 n Q Dropped s h -> guard_post (rely me) al arm keep (publish_post h0 n b r) Dropped s h.
Proof. intros (before & h1 & ->). split; [done|by eexists _, _]. Qed.

Lemma fwp_publish current candidate n s h :
  (forall h', keeps h h' -> save_ok h' candidate (Some (rec_revision (arc_val current)))) -> free s0 n s h ->
  fwp (publish engine has_host scope current candidate) (publish_post h (S n) (arc_val current) candidate) s h.
Proof.
  intros He Hf. eapply (fwp_act C); [exact Hf|intros; apply arm_free|]. intros s1 _ Hf1. apply wp_guarded.
  pose proof (guarded_contract _ _ _ _ (arm_free me) C) as C'. cbn [fst snd] in *.
  set (h1 := EvAct s1 _ :: h) in *. intros s2 R2 x _.
  assert (keeps h h1) as Hk1 by by apply keeps_act.
  split; [by apply (ec_save _ _ _ C'), He|]. set (h2 := EvAsk s2 _ x :: h1).
  assert (free s0 (S n) s2 h2) as Hf2 by (destruct (free_rely _ _ _ _ _ R2 Hf1); constructor; try done; simpl in *; lia).
  assert (wp (rely me) any_answer (drop_allowed al arm) (wait has_host scope x true)
    (fends s0 (S n) (fun v _ h' => snd x = Ok v /\ h2 `suffix_of` h')) s2 h2) as Hw by by apply (fwp_wait_polls C').
  rewrite bind_ret. apply wp_bind; [apply rely_refl|]. eapply wp_mono; [|exact Hw].
  intros [[revision|error]| | |] s3 h3 Ho; try done; cbn [sequel]; [| |by eapply publish_dropped].
  - destruct Ho as (Hf3 & Ex & Hh3). destruct (N.ltb_spec (rec_revision (arc_val current)) revision) as [Hlt|_].
    2:{ intros s4 R4. apply publish_unconfirmed; [by eapply free_rely|done]. }
    apply (wp_act_quiet me any_answer _ (ec_quiet C')). intros s4 R4. split; [apply quiet_arc_new|].
    pose proof (quiet_arc_new s4 (with_revision candidate revision)) as Hq. set (s5 := set_heap s4 _) in *.
    assert (free s0 (S n) s5 (EvAct s4 s5 :: h3)) as Hf5.
    { apply (free_act (me := me)); [by apply quiet_free|by eapply free_rely]. }
    apply wp_bind; [apply rely_refl|].
    apply (wp_reconcile_saved me any_answer _ (ec_quiet C')); [exact (free_inv _ _ _ _ Hf5)|apply arc_new_valid|].
    intros res s6 h6 R6 Hh6 Hres s7 R7. pose proof (free_quiet _ _ _ _ _ _ R6 Hh6 Hf5) as Hf6.
    pose proof (free_rely _ _ _ _ _ R7 Hf6) as Hf7.
    destruct res as [[]|e]; [|by apply publish_unconfirmed]. split; [done|]. split; [split; [done|]|].
    + eapply reflects_evolves; [apply R7|]. by apply Hres.
    + exists h1. split; [done|]. exists s2, (session_store engine), x. split; [|done].
      etrans; [exact Hh3|]. etrans; [|by apply adds_quiet_suffix]. by apply suffix_cons_r.
  - simpl in Ho. destruct (is_store_conflict error); [|by intros s4 R4; apply publish_unconfirmed; [eapply free_rely|]].
    apply wp_bind; [apply rely_refl|]. eapply wp_mono; [|by apply (fwp_reload C')].
    intros [[r|e]| | |] s4 h4 Ho4; try done; cbn [sequel]; [| |by eapply publish_dropped];
      intros s5 R5; (apply publish_unconfirmed; [|done]); eapply free_rely; [exact R5|by destruct Ho4|exact R5|done].
Qed.

End Steps.

(** A successful exchange: the store accepted the edit of the record that was
    current. *)
Definition exchanged (revision : SessionRevision) (s : World) (h : Events) : Prop :=
  exists b r, edits b r /\ edited b r revision s /\ replaced h b true r revision.

Lemma exchanged_lasting : lasting exchanged.
Proof.
  intros revision s s' h h' He Hh (b & r & Hed & H' & Hr). exists b, r.
  split_and!; [done|by eapply edited_evolves|by eapply replaced_later].
Qed.

Section Loop.
Context {me : nat} {al : event World Query Ans -> Events -> Prop}.
Context (C : edit_contract edit_save_ok me al).
Notation fwp := (wp (rely me) any_answer al).

(** The publication of an edit of the current record. *)
Lemma fwp_publish_current current n m s h (c : _ -> sprog (result SessionRevision EngineError)) :
  S n <= m -> current_at h (arc_val current) true ->
  edits (arc_val current) (edit_entry (arc_val current) key replacement) -> free s0 n s h ->
  (forall s' h', free s0 (S n) s' h' -> fwp (c None) (fends s0 m exchanged) s' h') ->
  (forall result, c (Some result) = Ret result) ->
  fwp (do published <- publish engine has_host scope current (edit_entry (arc_val current) key replacement); c published)
    (fends s0 m exchanged) s h.
Proof.
  intros Hm Hcur Hed Hf Hn Hc. apply wp_bind; [apply rely_refl|].
  eapply wp_mono; [|apply (fwp_publish C); [|exact Hf]].
  2:{ intros h' Hk. exists (arc_val current). split_and!; [by eapply current_keeps|done|done]. }
  assert (forall s h, free s0 (S n) s h -> free s0 m s h) as Hw by (intros; by eapply free_weaken).
  intros [[[revision|e]|]| | |] s4 h4; cbn [sequel publish_post]; rewrite ?Hc; try done.
  - intros (Hf4 & He4 & h1 & Hk1 & Ha) s5 R5. split; [eapply free_rely; [exact R5|auto]|].
    eexists (arc_val current), _. split_and!; [done|eapply edited_evolves; [apply R5|done]|].
    exists h1. split; [done|by eapply current_keeps].
  - intros [Hf4 _] s5 R5. eapply free_rely; [exact R5|auto].
  - intros [Hf4 _]. by apply Hn.
  - by intros [_ ?].
Qed.

Lemma fwp_exchange_loop n k s h :
  free s0 k s h ->
  fwp (exchange_loop engine has_host n editor expected replacement) (fends s0 (k + n) exchanged) s h.
Proof.
  revert k s h. induction n as [|n IH]; intros k s h Hf; cbn [exchange_loop].
  { apply fwp_err. by rewrite Nat.add_0_r. }
  eapply fwp_try with (n := k); [lia|by apply (fwp_snapshot C)|].
  intros current s1 h1 Hf1 (Hb & t1 & h0 & -> & <- & Hper & Hit & Het). fold (canonical t1) in *.
  set (h1 := EvAct t1 t1 :: h0) in *.
  assert (forall e, fwp (Ret (Err e)) (fends s0 (k + S n) exchanged) s1 h1) as Herr.
  { intros e. apply fwp_err. eapply free_weaken; [|exact Hf1]. lia. }
  destruct (bool_decide_reflect (bt_get (rec_metadata (canonical t1)) key = expected)) as [Ee|_]; cbn [negb]; [|apply Herr].
  destruct (validate_candidate _ _ _ _) as [[]|e] eqn:Ev; [|apply Herr]. rewrite try_ok. cbv zeta.
  eapply (fwp_read C); [exact Hf1|]. intros s2 R2 Hf2. destruct (_ && _) eqn:Ecur; cbn [negb].
  2:{ eapply wp_mono; [|by apply (IH k)]. intros [[a|e]| | |] s3 h3; simpl; try done.
      - intros [Hf3 ?]. split; [|done]. eapply free_weaken; [|exact Hf3]. lia.
      - intros Hf3. eapply free_weaken; [|exact Hf3]. lia. }
  assert (evolves t1 s2) as Het2 by (etrans; [exact Het|apply R2]).
  pose proof (current_checked t1 s2 h0 Hit Het2) as Hcur. rewrite Hper in Hcur. specialize (Hcur Ecur).
  apply (fwp_opened C has_host scope s0 _ k); [lia|done|]. intros s3 h3 Hf3 Hk3.
  apply (fwp_publish_current (data_record (data t1)) k); [lia|by eapply current_keeps|done|done| |done].
  intros s4 h4 Hf4. replace (k + S n) with (S k + n) by lia. by apply IH.
Qed.
End Loop.
End Edit.

Section Operations.
Context `{JsonWriter}.
Context (engine : EngineInner) (has_host : bool) (me : nat) (editor : TurnMetadataEditor).

Definition exchange_post (expected : TurnMetadataSnapshot) (replacement : option Value) (s0 : World)
    (o : outcome (result SessionRevision EngineError)) (s : World) (h : Events) : Prop :=
  match o with
  | Returned r =>
      evolves s0 s /\ saves h <= MAX_EDIT_RETRIES /\
      forall revision, r = Ok revision -> ed_ptr (sn_editor expected) = ed_ptr editor /\
        exchanged engine editor (entry expected) replacement s0 revision s h
  | Dropped => True
  | Panicked | Blocked => False
  end.

Lemma wp_compare_exchange expected replacement s0 :
  inv s0 ->
  wp (rely me) any_answer (editor_allowed (edit_save_ok engine editor (entry expected) replacement s0) me)
    (compare_exchange engine has_host editor expected replacement) (exchange_post expected replacement s0) s0 [].
Proof.
  intros Hi. unfold compare_exchange. destruct (N.eqb_spec (ed_ptr (sn_editor expected)) (ed_ptr editor)) as [Ep|_]; cbn [negb].
  2:{ intros s' R. split; [apply R|]. by split; [simpl; lia|]. }
  eapply wp_mono with (post := fends s0 MAX_EDIT_RETRIES (exchanged engine editor (entry expected) replacement s0)).
  { intros [[a|e]| | |] s h; simpl; try done; [intros [[? ? ?] ?]|intros [? ? ?]]; split_and!; try done.
    by intros ? [= <-]. }
  apply fwp_operate; [done|apply exchanged_lasting|]. intros al C s2 h2 Hf2.
  eapply fwp_try with (n := 0) (Q1 := fun _ _ _ => True); [lia| |].
  { destruct (match replacement with Some _ => _ | None => _ end); [by apply fwp_ok|by apply fwp_err]. }
  intros _ s3 h3 Hf3 _. eapply (fwp_read C); [exact Hf3|]. intros s4 _ Hf4.
  eapply fwp_try with (n := 0) (Q1 := fun _ _ _ => True); [lia| |].
  { destruct (metadata_reconciliation_required s4); [|by apply fwp_ok].
    eapply fwp_try; [done|by apply (fwp_reload C)|]. intros r s5 h5 Hf5 _. by apply fwp_ok. }
  intros _ s5 h5 Hf5 _. by apply (fwp_exchange_loop engine has_host editor (entry expected) replacement s0 C MAX_EDIT_RETRIES 0).
Qed.

(** What a read returns: an admitted record of the session, of the editor's turn,
    that was canonical when the task read it. *)
Definition read_post (s0 : World) (o : outcome (result TurnMetadataSnapshot EngineError)) (s : World) (h : Events) : Prop :=
  match o with
  | Returned r =>
      evolves s0 s /\
      forall snapshot, r = Ok snapshot -> sn_editor snapshot = editor /\
        edit_base (limits engine) (ed_scope editor) s0 (arc_val (sn_record snapshot)) /\
        exists s1, EvAct s1 s1 ∈ h /\ holds (arc_val (sn_record snapshot)) true s1
  | Dropped => True
  | Panicked | Blocked => False
  end.

Lemma wp_read_entry s0 :
  inv s0 ->
  wp (rely me) any_answer (editor_allowed (fun _ _ _ => False) me) (read_entry engine has_host editor) (read_post s0) s0 [].
Proof.
  intros Hi. set (Q := fun (snapshot : TurnMetadataSnapshot) (_ : World) (h : Events) => sn_editor snapshot = editor /\
    edit_base (limits engine) (ed_scope editor) s0 (arc_val (sn_record snapshot)) /\
    exists s1, EvAct s1 s1 ∈ h /\ holds (arc_val (sn_record snapshot)) true s1).
  eapply wp_mono with (post := fends s0 0 Q).
  { intros [[a|e]| | |] s h; simpl; try done; [intros [[? ? ?] ?]|intros [? ? ?]]; split_and!; try done.
    by intros ? [= <-]. }
  apply fwp_operate; [done| |].
  { intros snapshot s s' h h' _ [l ->] (? & ? & s1 & Hin & ?). split_and!; [done|done|]. exists s1.
    split; [|done]. apply elem_of_app. by right. }
  intros al C s2 h2 Hf2. eapply fwp_try; [done|by apply (fwp_reload C)|].
  intros r s3 h3 Hf3 (Hb & s1 & h1 & -> & Er & Hp & _). apply fwp_ok; [done|]. intros s4 _.
  split_and!; [done|done|]. exists s1. split; [left|]. split; [by subst r|done].
Qed.
End Operations.

(** ** Theorems *)
(** C29. An exchange of a metadata entry, under every interleaving, store answer,
    cancellation and drop, beside the task that holds the lease: the editor never
    touches the lease and never clears the publication debt; it saves at most once
    per attempt, and only the stored and admitted record of this session and turn
    that its snapshot and the currency check after it both found canonical and whose
    entry is the expected one, with exactly that entry edited (the transcript and
    every other entry as they were), at the revision of that record; in a successful
    exchange the store accepted that very record at a higher revision, and the
    canonical record is the edited one or a later one; nothing panics. *)
Theorem compare_exchange_correct `{JsonWriter} engine has_host me editor expected replacement s o s' h' :
  inv s ->
  exec (rely me) any_answer (compare_exchange engine has_host editor expected replacement) s [] o s' h' ->
  all_allowed (editor_allowed (edit_save_ok engine editor (entry expected) replacement s) me) h' /\
  exchange_post engine editor expected replacement s o s' h'.
Proof. intros Hi. apply session_correct. by apply wp_compare_exchange. Qed.

(** The debt of a publication: a save of an editor that fails, conflicts or is
    dropped ends by arming the publication debt, after its store future is gone, so
    that the next operation reconciles with the store. Only a save that succeeded
    and is reflected by the canonical record leaves the debt as it was. *)
Theorem publication_rearms_debt `{JsonWriter} engine has_host me editor current candidate s o s' h' :
  inv s ->
  exec (rely me) any_answer (publish engine has_host (ed_scope editor) current candidate) s [] o s' h' ->
  match o with
  | Returned (Some (Ok revision)) => edited (arc_val current) candidate revision s'
  | Returned _ | Dropped => rearmed h'
  | Panicked | Blocked => False
  end.
Proof.
  intros Hi Hx. pose proof (editor_contract (fun _ _ _ => True) me) as C.
  assert (free s 0 s []) as Hf by (constructor; [apply evolves_refl|done|done]).
  pose proof (fwp_publish engine has_host editor s C current candidate 0 s [] (fun _ _ => I) Hf) as Hw.
  apply (session_correct _ _ _ _ _ _ _ _ Hw) in Hx as [_ Hx]. destruct o as [[[revision|e]|]| | |]; try done; [by destruct Hx as (_ & ? & _)|by destruct Hx..].
Qed.

(** The check of a candidate, which never builds the edited record, admits
    exactly the edits after which the record passes the limits of the session. *)
Theorem validate_candidate_exact `{JsonWriter} record key replacement limits :
  bt_wf (rec_metadata record) -> validate_record record limits = Ok tt ->
  validate_candidate record key replacement limits = Ok tt <->
  validate_record (edit_entry record key replacement) limits = Ok tt.
Proof. apply validate_candidate_iff. Qed.

(** ** A sample exchange *)
Definition sample_editor : TurnMetadataEditor :=
  {| ed_ptr := 3; ed_scope := TurnMetadataScope_new 0 sample_record; ed_key := "mode" |}.
Definition sample_snapshot : TurnMetadataSnapshot :=
  {| sn_editor := sample_editor; sn_record := {| arc_ptr := 0; arc_val := sample_record |} |}.
Notation sample_exchange :=
  (compare_exchange sample_engine true sample_editor sample_snapshot (Some (VString "plan"))).

Lemma compare_exchange_correct_witness :
  fst (fst (sample_run sample_exchange sample_world)) = Returned (Ok 5%N) /\
  exchange_post sample_engine sample_editor sample_snapshot (Some (VString "plan")) sample_world
    (fst (fst (sample_run sample_exchange sample_world))) (snd (fst (sample_run sample_exchange sample_world)))
    (snd (sample_run sample_exchange sample_world)).
Proof.
  split; [by vm_compute|].
  apply (compare_exchange_correct sample_engine true 0 sample_editor sample_snapshot (Some (VString "plan")));
    [by constructor|apply sample_exec].
Defined.

(** A store that refuses the save. *)
Definition refusing_answer (q : Query) : Ans q :=
  match q with
  | Q_save _ _ _ => (1%nat, Err (ComponentError Store_Unavailable "down" "down" true))
  | q => sample_answer q
  end.

Definition refusing_schedule : schedule World Query Ans :=
  {| sch_env := fun _ s => s; sch_answer := fun _ => refusing_answer; sch_drop := fun _ => false |}.

Notation plan_record := (edit_entry sample_record "mode" (Some (VString "plan"))).
Notation refused_run := (run refusing_schedule 0
  (publish sample_engine true (ed_scope sample_editor) {| arc_ptr := 0; arc_val := sample_record |} plan_record) sample_world []).

Lemma publication_rearms_debt_witness :
  match fst (fst refused_run) with Returned (Some (Err _)) => rearmed (snd refused_run) | _ => False end.
Proof.
  pose proof (publication_rearms_debt sample_engine true 0 sample_editor
    {| arc_ptr := 0; arc_val := sample_record |} plan_record sample_world (fst (fst refused_run)) (snd (fst refused_run))
    (snd refused_run)) as Hp.
  assert (exists e, fst (fst refused_run) = Returned (Some (Err e))) as [e E] by (eexists; by vm_compute).
  rewrite E in Hp |- *. apply Hp; [by constructor|].
  rewrite <-E. by apply run_exec; [intros; apply rely_refl|].
Defined.

Lemma validate_candidate_exact_witness :
  validate_record (edit_entry sample_record "mode" (Some (VString "plan"))) EngineLimits_default = Ok tt.
Proof.
  apply (validate_candidate_exact sample_record "mode" (Some (VString "plan")) EngineLimits_default);
    [constructor|by vm_compute|by vm_compute].
Defined.
