(* ===== verification/SessionPool.v ===== *)
(** * Concurrent use of one session

    Any number of tasks that edit metadata, check revisions, load records, start
    turns, run whole turns and use the metadata editors of turns on one session,
    interleaved in every order. *)
From S2P Require Import Prelude Ids Json Model Limits PermissionId Context Prog SessionState Operations TurnStream TurnMetadata Sample.
From S2P Require Import Lease MetadataProofs ReserveProofs TurnTheorems StreamTheorems TurnTask TurnMetadataProofs.
Open Scope prog_scope.

Inductive SessionTask :=
| T_update (expected_revision : SessionRevision) (metadata : Metadata) (access : option N)
| T_check (expected_revision : SessionRevision) (access : option N)
| T_start (prompt : option string) (options : InferenceOptions) (preparation : option SessionTurnPreparation)
| T_turn (prompt : option string) (options : InferenceOptions) (preparation : option SessionTurnPreparation) (polls : nat)
| T_exchange (editor : TurnMetadataEditor) (expected : TurnMetadataSnapshot) (replacement : option Value)
| T_read (editor : TurnMetadataEditor)
| T_load (record : SessionRecord).

Inductive SessionResult :=
| R_revision (r : result SessionRevision EngineError)
| R_turn (r : result StartedTurn EngineError)
| R_items (r : result (StartedTurn * list TurnItem) EngineError)
| R_snapshot (r : result TurnMetadataSnapshot EngineError)
| R_loaded (r : result unit EngineError).

Section Tasks.
Context `{JsonWriter}.
Context (sha256 : string -> string) (engine : EngineInner) (has_host : bool).

Definition session_task (me : nat) (t : SessionTask) : sprog SessionResult :=
  match t with
  | T_update expected metadata access =>
      do r <- update_metadata engine has_host me expected metadata access; Ret (R_revision r)
  | T_check expected access => do r <- check_metadata_revision engine has_host me expected access; Ret (R_revision r)
  | T_start prompt options preparation =>
      do r <- start_turn engine has_host me prompt options preparation; Ret (R_turn r)
  | T_turn prompt options preparation polls =>
      do r <- turn_task sha256 engine has_host me prompt options preparation polls; Ret (R_items r)
  | T_exchange editor expected replacement =>
      do r <- compare_exchange engine has_host editor expected replacement; Ret (R_revision r)
  | T_read editor => do r <- read_entry engine has_host editor; Ret (R_snapshot r)
  | T_load record => do r <- reconcile_loaded_idle me record; Ret (R_loaded r)
  end.

Definition session_pool (tasks : list SessionTask) : list (@thread World Query Ans SessionResult * Events) :=
  imap (fun me t => (Live (session_task me t), [])) tasks.

(** What a task may do from the initial state [s0]. *)
Definition session_allowed (s0 : World) (me : nat) (t : SessionTask) : event World Query Ans -> Events -> Prop :=
  match t with
  | T_update expected metadata _ => allowed true (metadata_save_ok engine s0 expected metadata) me
  | T_check _ _ | T_load _ => allowed true (fun _ _ _ => False) me
  | T_start prompt _ preparation =>
      allowed (is_prepared preparation) (reserve_save_ok engine s0 prompt preparation) me
  | T_turn _ _ _ _ => task_allowed me
  | T_exchange editor expected replacement =>
      editor_allowed (edit_save_ok engine editor (entry expected) replacement s0) me
  | T_read _ => editor_allowed (fun _ _ _ => False) me
  end.

(** A load reconciles the record it was given, as the holder of the lease. *)
Definition load_post (me : nat) (s0 : World) (record : SessionRecord) (o : outcome (result unit EngineError))
    (s : World) (h : Events) : Prop :=
  lease_holder s <> Some me /\
  match o with
  | Returned r => evolves s0 s /\ saves h <= 0 /\ (r = Ok tt -> reflects record s)
  | Dropped => True
  | Panicked | Blocked => False
  end.

Definition session_post (s0 : World) (me : nat) (t : SessionTask) (o : outcome SessionResult)
    (s : World) (h : Events) : Prop :=
  match t with
  | T_update expected metadata _ =>
      exists o', o = map_outcome R_revision o' /\ metadata_post me s0 expected metadata o' s h
  | T_check expected _ => exists o', o = map_outcome R_revision o' /\ check_post me s0 expected o' s h
  | T_start prompt _ preparation =>
      exists o', o = map_outcome R_turn o' /\ start_post engine me s0 prompt preparation o' s h
  | T_turn prompt _ preparation _ =>
      exists o', o = map_outcome R_items o' /\ turn_task_post sha256 engine me s0 prompt preparation o' s h
  | T_exchange editor expected replacement =>
      exists o', o = map_outcome R_revision o' /\ exchange_post engine editor expected replacement s0 o' s h
  | T_read editor => exists o', o = map_outcome R_snapshot o' /\ read_post engine editor s0 o' s h
  | T_load record => exists o', o = map_outcome R_loaded o' /\ load_post me s0 record o' s h
  end.

Lemma wp_load me record s0 :
  inv s0 -> lease_holder s0 <> Some me ->
  wp (rely me) any_answer (allowed true (fun _ _ _ => False) me) (reconcile_loaded_idle me record)
    (load_post me s0 record) s0 [].
Proof.
  intros Hi Hl. pose proof (allowed_contract true (fun _ _ _ => False) me) as C.
  apply wp_with_lease; [done|done|done| |].
  { intros s1 h1 He1 Hl1 Hs1. split; [done|]. split_and!; [done|by rewrite Hs1|done]. }
  intros s1 h1 Hw1 _. simpl in Hw1.
  apply (wp_reconcile_loaded me any_answer _ (lc_quiet _ _ _ _ C)); [by eauto with machine|].
  intros res s2 h2 R2 Hh2 Hres. pose proof (within_quiet _ _ _ _ _ _ _ _ R2 Hh2 Hw1) as Hw2.
  eapply leave_lease; [done|done|]. intros s3 h3 He3 Hl3 Hn3 He23 _. split; [done|]. split_and!; [done|simpl in *; lia|].
  intros Hok. eapply reflects_evolves; [done|by apply Hres].
Qed.

(** [others] is calmer than [rely]. *)
Lemma wp_calmer {A} me al (p : sprog A) post s :
  wp (rely me) any_answer al p post s [] -> wp (others me) any_answer al p post s [].
Proof.
  intros Hw. eapply wp_mono; [|by eapply (wp_embed (rely me) (others me) any_answer any_answer al al [] p _ s []);
    [intros ? ? []|intros|intros e l; rewrite app_nil_r|]].
  intros o s' h (l & -> & Hp). by rewrite app_nil_r.
Qed.

Lemma wp_session_task me t s0 :
  inv s0 -> lease_holder s0 <> Some me ->
  wp (others me) any_answer (session_allowed s0 me t) (session_task me t) (session_post s0 me t) s0 [].
Proof.
  intros Hi Hl. destruct t; apply wp_map; eapply wp_mono;
    [|apply wp_calmer; by apply wp_update_metadata| |apply wp_calmer; by apply wp_check_metadata_revision|
     |apply wp_calmer; by apply wp_start_turn| |by apply wp_turn_task| |apply wp_calmer; by apply wp_compare_exchange|
     |apply wp_calmer; by apply wp_read_entry| |apply wp_calmer; by apply wp_load];
    intros; by eexists.
Qed.
End Tasks.

(** The allowance of the task of a pool at an index; nothing for others. *)
Definition pool_allowed `{JsonWriter} engine (s0 : World) (tasks : list SessionTask) (i : nat)
    (e : event World Query Ans) (h : Events) : Prop :=
  match tasks !! i with Some t => session_allowed engine s0 i t e h | None => False end.

Definition pool_post `{JsonWriter} sha256 engine (s0 : World) (tasks : list SessionTask) (i : nat)
    (o : outcome SessionResult) (s : World) (h : Events) : Prop :=
  match tasks !! i with Some t => session_post sha256 engine s0 i t o s h | None => False end.

Lemma session_allowed_others `{JsonWriter} engine s0 t i j s s' h :
  i <> j ->
  session_allowed engine s0 i t (EvAct s s') h \/ session_allowed engine s0 i t (EvDrop s s') h -> others j s s'.
Proof.
  intros Hij. destruct t; (intros [Ha|Ha];
    (apply Ha, not_eq_sym + (destruct Ha as [Ho _]; apply Ho, not_eq_sym) + (destruct Ha as [Ho _ _]; apply Ho, not_eq_sym)); done).
Qed.

Lemma pool_allowed_rely `{JsonWriter} engine s0 tasks i j s s' h :
  i <> j ->
  pool_allowed engine s0 tasks i (EvAct s s') h \/ pool_allowed engine s0 tasks i (EvDrop s s') h -> others j s s'.
Proof.
  intros Hij. unfold pool_allowed. destruct (tasks !! i) as [t|]; [|by intros [|]].
  by apply session_allowed_others.
Qed.

Lemma session_pool_ok `{JsonWriter} sha256 engine has_host tasks s0 :
  inv s0 -> lease_holder s0 = None ->
  pool_ok others (fun _ => any_answer) (pool_allowed engine s0 tasks) (pool_post sha256 engine s0 tasks)
    (session_pool sha256 engine has_host tasks) s0.
Proof.
  intros Hi Hl i [th h] Hth. unfold session_pool in Hth. rewrite list_lookup_imap in Hth.
  apply fmap_Some in Hth as (t & Ht & [= -> ->]). split; [|done].
  pose proof (wp_session_task sha256 engine has_host i t s0 Hi) as Hw. unfold pool_allowed, pool_post.
  simpl. rewrite Ht. apply Hw. congruence.
Qed.

(** C30. Concurrent tasks on one session. In every interleaving of edits, checks,
    loads, starts, whole turns and operations of metadata editors, with every store
    behaviour and any futures dropped: the canonical record keeps its identity, its
    revision and turn sequence never decrease, and a different record has a higher
    revision; each task did only what it may, so that operations and turns call the
    store only as the one holder of the lease and editors save only edits of their
    entry; and each task that has returned left what its result promises. *)
Theorem session_tasks_safe `{JsonWriter} sha256 engine has_host tasks s c :
  inv s -> lease_holder s = None ->
  rtc (pool_step (fun _ => any_answer)) (session_pool sha256 engine has_host tasks, s) c ->
  inv (snd c) /\ evolves s (snd c) /\
  forall i t th h, tasks !! i = Some t -> fst c !! i = Some (th, h) ->
    all_allowed (session_allowed engine s i t) h /\
    forall r, th = Live (Ret r) -> session_post sha256 engine s i t (Returned r) (snd c) h.
Proof.
  intros Hi Hl Hr. pose proof (session_pool_ok sha256 engine has_host tasks s Hi Hl) as Hok.
  pose proof (pool_rely others (fun _ => any_answer) (pool_allowed engine s tasks) (pool_post sha256 engine s tasks)
    others_refl others_trans (pool_allowed_rely engine s tasks) _ _ _ Hr Hok (le_n _)) as [[He _ _ _ _ _ _] _ _ _].
  split; [by apply He|]. split; [done|]. intros i t th h Ht Hth.
  pose proof (pool_sound others (fun _ => any_answer) (pool_allowed engine s tasks) (pool_post sha256 engine s tasks)
    others_refl others_trans (pool_allowed_rely engine s tasks) _ _ Hr Hok) as Hok'.
  destruct (Hok' _ _ Hth) as [Hw Ha]. unfold pool_allowed in Ha. simpl in Ha. rewrite Ht in Ha. split; [done|].
  intros r ->. specialize (Hw _ (others_refl i _)). unfold pool_post in Hw. by rewrite Ht in Hw.
Qed.

(** Two edits, a turn and a metadata editor of that turn race for the session. *)
Definition racing_editor : TurnMetadataEditor :=
  {| ed_ptr := 3; ed_scope := TurnMetadataScope_new 0 (with_next_turn_sequence sample_record 2); ed_key := "mode" |}.

Definition racing_tasks : list SessionTask :=
  [T_update 4%N [("title", VString "a")] None; T_update 4%N [("title", VString "b")] None;
   T_turn (Some "again") sample_options None 8;
   T_exchange racing_editor {| sn_editor := racing_editor; sn_record := {| arc_ptr := 0; arc_val := sample_record |} |}
     (Some (VString "plan"))].

Definition race_order : list nat := [0; 1; 0; 1] ++ replicate 40 1 ++ replicate 60 0 ++ replicate 60 2 ++ replicate 60 3 ++ replicate 300 2.

Notation raced := (run_pool brief_answer race_order (session_pool prefix_digest sample_engine true racing_tasks, sample_world)).

Lemma session_tasks_safe_witness :
  evolves sample_world (snd raced) /\ length (past_turns (snd raced)) = 1 /\ lease_holder (snd raced) = None.
Proof.
  split; [|by vm_compute].
  refine (proj1 (proj2 (session_tasks_safe prefix_digest sample_engine true racing_tasks sample_world raced _ _ _)));
    [by constructor|done|by apply run_pool_steps].
Defined.
