(* ===== verification/Engine.v ===== *)
(** * Engines and their sessions ([engine.rs])

    Building an engine, the registry of its canonical sessions, the host lease, and
    the ways a session is opened: created, reserved, loaded, loaded at a revision.

    The state behind a session is an [Arc]; its number is its identity, and the
    [Weak] of the registry and of the [SessionRegistration] keep a number from being
    used again, so [Weak::ptr_eq] compares numbers. A strong reference is written
    with the task that holds it; the program has only their count. *)
From S2P Require Import Prelude Ids Json Model Limits Context Prog SessionState Operations.
Open Scope prog_scope.

(** ** Building an engine *)
Inductive BuildError :=
| MissingProvider
| MissingSessionStore
| MissingPermissionHandler
| DuplicateTool (name : string)
| JsonDepthLimitExceedsSafeMaximum
| ToolCatalogTooLarge
| ToolCatalogJsonDepthExceeded
| ToolCatalogJsonNodeLimitExceeded.

(** [EngineBuilder]; host components are their allocations. *)
Record EngineBuilder := {
  eb_provider : option N;
  eb_session_store : option N;
  eb_permission_handler : option N;
  eb_event_sink : option N;
  eb_tools : list (ToolName * RegisteredTool);
  eb_duplicate_tool : option ToolName;
  eb_limits : EngineLimits;
  eb_host_resource : option N;
}.

Definition EngineBuilder_new : EngineBuilder :=
  {| eb_provider := None; eb_session_store := None; eb_permission_handler := None; eb_event_sink := None;
     eb_tools := []; eb_duplicate_tool := None; eb_limits := EngineLimits_default; eb_host_resource := None |}.

(** [provider] and [shared_provider], and so on: the last call wins. *)
Definition builder_provider (self : EngineBuilder) (provider : N) : EngineBuilder :=
  {| eb_provider := Some provider; eb_session_store := eb_session_store self;
     eb_permission_handler := eb_permission_handler self; eb_event_sink := eb_event_sink self;
     eb_tools := eb_tools self; eb_duplicate_tool := eb_duplicate_tool self; eb_limits := eb_limits self;
     eb_host_resource := eb_host_resource self |}.
Definition builder_session_store (self : EngineBuilder) (store : N) : EngineBuilder :=
  {| eb_provider := eb_provider self; eb_session_store := Some store;
     eb_permission_handler := eb_permission_handler self; eb_event_sink := eb_event_sink self;
     eb_tools := eb_tools self; eb_duplicate_tool := eb_duplicate_tool self; eb_limits := eb_limits self;
     eb_host_resource := eb_host_resource self |}.
Definition builder_permission_handler (self : EngineBuilder) (handler : N) : EngineBuilder :=
  {| eb_provider := eb_provider self; eb_session_store := eb_session_store self;
     eb_permission_handler := Some handler; eb_event_sink := eb_event_sink self;
     eb_tools := eb_tools self; eb_duplicate_tool := eb_duplicate_tool self; eb_limits := eb_limits self;
     eb_host_resource := eb_host_resource self |}.
Definition builder_event_sink (self : EngineBuilder) (sink : N) : EngineBuilder :=
  {| eb_provider := eb_provider self; eb_session_store := eb_session_store self;
     eb_permission_handler := eb_permission_handler self; eb_event_sink := Some sink;
     eb_tools := eb_tools self; eb_duplicate_tool := eb_duplicate_tool self; eb_limits := eb_limits self;
     eb_host_resource := eb_host_resource self |}.
Definition builder_limits (self : EngineBuilder) (limits : EngineLimits) : EngineBuilder :=
  {| eb_provider := eb_provider self; eb_session_store := eb_session_store self;
     eb_permission_handler := eb_permission_handler self; eb_event_sink := eb_event_sink self;
     eb_tools := eb_tools self; eb_duplicate_tool := eb_duplicate_tool self; eb_limits := limits;
     eb_host_resource := eb_host_resource self |}.
Definition builder_host_resource (self : EngineBuilder) (resource : N) : EngineBuilder :=
  {| eb_provider := eb_provider self; eb_session_store := eb_session_store self;
     eb_permission_handler := eb_permission_handler self; eb_event_sink := eb_event_sink self;
     eb_tools := eb_tools self; eb_duplicate_tool := eb_duplicate_tool self; eb_limits := eb_limits self;
     eb_host_resource := Some resource |}.

(** [EngineBuilder::tool] and [shared_tool]; [spec] is what [Tool::spec] returned. *)
Definition builder_tool (self : EngineBuilder) (spec : ToolSpec) (tool : ToolRef) : EngineBuilder :=
  let name := spec_name spec in
  {| eb_provider := eb_provider self; eb_session_store := eb_session_store self;
     eb_permission_handler := eb_permission_handler self; eb_event_sink := eb_event_sink self;
     eb_tools := bt_insert (eb_tools self) name {| registered_spec := spec; registered_tool := tool |};
     eb_duplicate_tool := if bt_contains (eb_tools self) name then Some name else eb_duplicate_tool self;
     eb_limits := eb_limits self; eb_host_resource := eb_host_resource self |}.

Definition registered_tool_names (self : EngineBuilder) : list ToolName := (eb_tools self).*1.

(** [Engine]: the components the shared part of an engine reaches through calls,
    and whether it has a host resource. *)
Record Engine := {
  en_provider : N;
  en_permission_handler : N;
  en_event_sink : option N;
  en_host_resource : option N;
  en_inner : EngineInner;
}.

Section Build.
Context `{JsonWriter}.

Definition build (self : EngineBuilder) : result Engine BuildError :=
  let specs := map registered_spec (bt_values (eb_tools self)) in
  fail_if (MAX_SAFE_JSON_DEPTH <? nz_get (max_json_depth (eb_limits self)))%N
    with JsonDepthLimitExceedsSafeMaximum in
  match eb_duplicate_tool self with
  | Some name => Err (DuplicateTool name)
  | None =>
      let? provider := ok_or MissingProvider (eb_provider self) in
      let? store := ok_or MissingSessionStore (eb_session_store self) in
      let? permission_handler := ok_or MissingPermissionHandler (eb_permission_handler self) in
      match validate_json_roots (map spec_input_schema specs) (eb_limits self) with
      | Err Depth => Err ToolCatalogJsonDepthExceeded
      | Err Nodes => Err ToolCatalogJsonNodeLimitExceeded
      | Ok _ =>
          match serialized_json_size_bounded specs (nz_get (max_tool_catalog_bytes (eb_limits self))) with
          | Err _ | Ok None => Err ToolCatalogTooLarge
          | Ok (Some _) =>
              Ok {| en_provider := provider; en_permission_handler := permission_handler;
                    en_event_sink := eb_event_sink self; en_host_resource := eb_host_resource self;
                    en_inner := {| session_store := store; engine_tools := eb_tools self; tool_specs := specs;
                                   limits := eb_limits self |} |}
          end
      end
  end.
End Build.

(** ** The registry and the host lease *)
(** A [SessionState] with its [SessionRegistration]: [cell_owners] are the tasks
    that hold the strong references. *)
Record StateCell := { cell_id : SessionId; cell_world : World; cell_owners : list nat }.

(** [g_entries] is [SessionRegistry::entries], [g_cell] the states allocated so far,
    [g_host] the tasks that hold the strong references to the host resource. *)
Record EngWorld := {
  g_entries : list (SessionId * nat);
  g_cell : nat -> StateCell;
  g_fresh : nat;
  g_host : list nat;
}.

Definition set_entries (s : EngWorld) (entries : list (SessionId * nat)) : EngWorld :=
  {| g_entries := entries; g_cell := g_cell s; g_fresh := g_fresh s; g_host := g_host s |}.
Definition set_cell (s : EngWorld) (i : nat) (c : StateCell) : EngWorld :=
  {| g_entries := g_entries s; g_cell := upd i c (g_cell s); g_fresh := g_fresh s; g_host := g_host s |}.
Definition set_host (s : EngWorld) (owners : list nat) : EngWorld :=
  {| g_entries := g_entries s; g_cell := g_cell s; g_fresh := g_fresh s; g_host := owners |}.

Definition set_owners (c : StateCell) (owners : list nat) : StateCell :=
  {| cell_id := cell_id c; cell_world := cell_world c; cell_owners := owners |}.

Definition with_host_count (w : World) (n : N) : World :=
  {| data := data w; active_turn := active_turn w;
     metadata_reconciliation_required := metadata_reconciliation_required w; lease_holder := lease_holder w;
     heap := heap w; host_strong_count := n; turn := turn w;
     permission_context := permission_context w; permission_contexts := permission_contexts w;
     past_turns := past_turns w |}.

(** The session behind state [i], as its own programs see it. *)
Definition view (s : EngWorld) (i : nat) : World :=
  with_host_count (cell_world (g_cell s i)) (vec_len (g_host s)).
Definition put (s : EngWorld) (i : nat) (w : World) : EngWorld :=
  set_cell s i {| cell_id := cell_id (g_cell s i); cell_world := w; cell_owners := cell_owners (g_cell s i) |}.

Notation eprog := (prog EngWorld Query Ans).
Notation EngEvents := (history EngWorld Query Ans).

(** A program of session [i], in the world of the engine. *)
Fixpoint lift {A} (i : nat) (p : sprog A) : eprog A :=
  match p with
  | Ret a => Ret a
  | Panic => Panic
  | Act f k => Act (fun s => let r := f (view s i) in (fst r, put s i (snd r))) (fun x => lift i (k x))
  | Ask q k => Ask q (fun x => lift i (k x))
  | Yield d k => Yield (fun s => put s i (d (view s i))) (lift i k)
  | Wait r d k =>
      Wait (fun s => match r (view s i) with Some (x, w) => Some (x, put s i w) | None => None end)
        (fun s => put s i (d (view s i))) (fun x => lift i (k x))
  end.

Fixpoint remove_one (me : nat) (l : list nat) : list nat :=
  match l with
  | [] => []
  | x :: l => if (x =? me)%nat then l else x :: remove_one me l
  end.

(** [SessionState::new_registered] *)
Definition new_registered (record : SessionRecord) (persisted : bool) : World :=
  {| data := {| data_record := {| arc_ptr := 0; arc_val := record |}; data_persisted := persisted |};
     active_turn := false; metadata_reconciliation_required := false; lease_holder := None;
     heap := [record]; host_strong_count := 0; turn := TurnShared_default;
     permission_context := None; permission_contexts := 0; past_turns := [] |}.

(** [SessionRegistry::session_state] up to the release of the lock: an upgraded
    entry, or a new state registered in its place. *)
Inductive FoundState := Upgraded (i : nat) | Registered (i : nat).

Definition register_state (me : nat) (record : SessionRecord) (persisted : bool) (s : EngWorld) : FoundState * EngWorld :=
  let i := g_fresh s in
  (Registered i,
   {| g_entries := bt_insert (g_entries s) (rec_id record) i;
      g_cell := upd i {| cell_id := rec_id record; cell_world := new_registered record persisted; cell_owners := [me] |}
                  (g_cell s);
      g_fresh := S i; g_host := g_host s |}).

Definition find_state (me : nat) (record : SessionRecord) (persisted : bool) (s : EngWorld) : FoundState * EngWorld :=
  match bt_get (g_entries s) (rec_id record) with
  | Some i =>
      match cell_owners (g_cell s i) with
      | [] => register_state me record persisted s
      | owners => (Upgraded i, set_cell s i (set_owners (g_cell s i) (me :: owners)))
      end
  | None => register_state me record persisted s
  end.

Definition remove_if_matches (id : SessionId) (i : nat) (s : EngWorld) : EngWorld :=
  match bt_get (g_entries s) id with
  | Some registered => if (registered =? i)%nat then set_entries s (bt_remove (g_entries s) id) else s
  | None => s
  end.

(** [Drop for Arc<SessionState>]: the last owner's drop runs that of the
    [SessionRegistration], after the count is zero. *)
Definition drop_reference (me i : nat) (s : EngWorld) : bool * EngWorld :=
  let owners := remove_one me (cell_owners (g_cell s i)) in
  (bool_decide (owners = []), set_cell s i (set_owners (g_cell s i) owners)).

Definition release_state (me i : nat) : eprog unit :=
  do last <- act (drop_reference me i);
  if last then
    do id <- get (fun s => cell_id (g_cell s i));
    modify (remove_if_matches id i)
  else Ret tt.

(** [?] on a result while the task owns state [i]: the state is dropped with the
    early return. *)
Definition owning (me i : nat) {A B} (p : eprog (result A EngineError)) (k : A -> eprog (result B EngineError))
    : eprog (result B EngineError) :=
  do r <- p;
  match r with
  | Ok a => k a
  | Err e => do _ <- release_state me i; Ret (Err e)
  end.

Definition session_state (me : nat) (record : SessionRecord) (persisted : bool) : eprog (result nat EngineError) :=
  do found <- act (find_state me record persisted);
  match found with
  | Upgraded i => owning me i (lift i (validate_identity record)) (fun _ => Ret (Ok i))
  | Registered i => Ret (Ok i)
  end.

(** [HostLease::ensure_open] and [HostLease::upgrade]; [has_host] is whether the
    engine has a host resource. *)
Definition host_ensure_open (has_host : bool) : eprog (result unit EngineError) :=
  get (fun s => if has_host && bool_decide (g_host s = []) then Err HostClosed else Ok tt).

Definition host_upgrade (has_host : bool) (me : nat) : eprog (result bool EngineError) :=
  if has_host then
    act (fun s => match g_host s with
                  | [] => (Err HostClosed, s)
                  | owners => (Ok true, set_host s (me :: owners))
                  end)
  else Ret (Ok false).

(** [host_resource.clone()] *)
Definition host_clone (has_host : bool) (me : nat) : eprog bool :=
  if has_host then act (fun s => (true, set_host s (me :: g_host s))) else Ret false.

(** ** Opening sessions *)
(** [Session]: its state and whether it holds the host resource. *)
Record Session := { session_ptr : nat; session_host : bool }.

(** The drop of a [Session], field by field. *)
Definition drop_session (me : nat) (self : Session) : eprog unit :=
  do _ <- (if session_host self then modify (fun s => set_host s (remove_one me (g_host s))) else Ret tt);
  release_state me (session_ptr self).

Definition future_ready {X} (f : Fut X) : eprog X :=
  Nat.iter (fst f) (fun p => Yield id p) (Ret (snd f)).

Section Open.
Context `{JsonWriter}.
Context (engine : EngineInner) (has_host : bool) (me : nat).

(** [Engine::create_session] *)
Definition create_session (id : SessionId) (incarnation_id : SessionIncarnationId) : eprog (result Session EngineError) :=
  do? i <- session_state me (SessionRecord_empty id incarnation_id) false;
  do host <- host_clone has_host me;
  Ret (Ok {| session_ptr := i; session_host := host |}).

(** [EngineRequester::create_session] *)
Definition requester_create_session (id : SessionId) (incarnation_id : SessionIncarnationId)
    : eprog (result Session EngineError) :=
  do? _ <- host_ensure_open has_host;
  do? i <- session_state me (SessionRecord_empty id incarnation_id) false;
  owning me i (host_upgrade has_host me) (fun host =>
  Ret (Ok {| session_ptr := i; session_host := host |})).

(** [EngineRequester::reserve_session]; a [SessionReservation] is its state, and has
    no host vote. *)
Definition reserve_session (id : SessionId) (incarnation_id : SessionIncarnationId) : eprog (result nat EngineError) :=
  do? _ <- host_ensure_open has_host;
  do? i <- session_state me (SessionRecord_empty id incarnation_id) false;
  owning me i (host_ensure_open has_host) (fun _ => Ret (Ok i)).

Definition revision_conflict : EngineError :=
  Engine_Store (ComponentError Store_Conflict "store_failed" "session store failed" false).

(** The checks of a loaded record, before it can be registered. *)
Definition check_expected (expected : option (SessionIncarnationId * SessionRevision)) (record : SessionRecord)
    : result unit EngineError :=
  match expected with
  | Some (incarnation, revision) =>
      fail_if negb (bool_decide (rec_incarnation_id record = incarnation)) with SessionIncarnationConflict in
      fail_if negb (rec_revision record =? revision)%N with revision_conflict in
      Ok tt
  | None => Ok tt
  end.

Definition admit_record (id : SessionId) (expected : option (SessionIncarnationId * SessionRevision)) (record : SessionRecord)
    : result unit EngineError :=
  fail_if negb (bool_decide (rec_id record = id))
    with Engine_Protocol ("session store returned ID " +:+ rec_id record +:+ " for requested ID " +:+ id) in
  let? _ := validate_loaded record in
  let? _ := validate_record_limits record (limits engine) in
  check_expected expected record.

(** [EngineRequester::load_session_guarded_with_access]; an access adapter is its
    allocation and that of the store it says it is over. *)
Definition load_session_guarded_with_access (id : SessionId)
    (expected : option (SessionIncarnationId * SessionRevision)) (access : option (N * N))
    : eprog (result (option Session) EngineError) :=
  do? _ <- host_ensure_open has_host;
  do? store <- Ret (match access with
                    | Some (access, underlying) =>
                        let? _ := validate_store_access (session_store engine) underlying in Ok access
                    | None => Ok (session_store engine)
                    end);
  do f <- ask (Q_load store id);
  do loaded <- future_ready f;
  do? record <- Ret (store_result loaded);
  do? _ <- host_ensure_open has_host;
  match record with
  | None => Ret (Ok None)
  | Some record =>
      do? _ <- Ret (admit_record id expected record);
      do? i <- session_state me record true;
      owning me i (lift i (match expected with
                           | Some _ => reconcile_loaded_idle me record
                           | None => reconcile_loaded record
                           end)) (fun _ =>
      owning me i (host_upgrade has_host me) (fun host =>
      Ret (Ok (Some {| session_ptr := i; session_host := host |}))))
  end.

Definition load_session (id : SessionId) : eprog (result (option Session) EngineError) :=
  load_session_guarded_with_access id None None.
Definition load_session_at_revision (id : SessionId) (incarnation : SessionIncarnationId) (revision : SessionRevision)
    : eprog (result (option Session) EngineError) :=
  load_session_guarded_with_access id (Some (incarnation, revision)) None.
End Open.
