(* ===== verification/EngineProofs.v ===== *)
(** * The canonical sessions of an engine

    The invariant of the registry, what the operations of an engine guarantee each
    other, and the programs of one session run inside the engine. *)
From S2P Require Import Prelude Ids Json Model Limits Context Prog SessionState Operations Lease SessionPool Engine.
Open Scope prog_scope.

(** ** The invariant *)
(** How many references to state [i], and to the host, a task holds. *)
Notation count me l := (count_occ Nat.eq_dec l me).
Definition holds (me i : nat) (s : EngWorld) : nat := count me (cell_owners (g_cell s i)).

(** Every state somebody holds is the one registered under its identifier. *)
Record einv (s : EngWorld) : Prop := {
  ei_sorted : bt_wf (g_entries s);
  ei_entry : forall id i, bt_get (g_entries s) id = Some i -> i < g_fresh s /\ cell_id (g_cell s i) = id;
  ei_live : forall i, cell_owners (g_cell s i) <> [] ->
    i < g_fresh s /\ bt_get (g_entries s) (cell_id (g_cell s i)) = Some i;
  ei_cell : forall i, i < g_fresh s -> inv (view s i) /\ rec_id (canonical (view s i)) = cell_id (g_cell s i);
  ei_unused : forall i, g_fresh s <= i -> lease_holder (view s i) = None;
}.

(** What other tasks do, seen by the task [me]. *)
Record estep (me : nat) (s s' : EngWorld) : Prop := {
  es_fresh : g_fresh s <= g_fresh s';
  es_id : forall i, i < g_fresh s -> cell_id (g_cell s' i) = cell_id (g_cell s i);
  es_cells : forall i, i < g_fresh s -> others me (view s i) (view s' i);
  es_holds : forall i, holds me i s' = holds me i s;
  es_host : count me (g_host s') = count me (g_host s);
  es_closed : g_host s = [] -> g_host s' = [];
  es_dead : forall i, i < g_fresh s -> cell_owners (g_cell s i) = [] -> cell_owners (g_cell s' i) = [];
  es_lease : forall i, lease_holder (view s' i) = Some me -> lease_holder (view s i) = Some me;
}.

Definition erely (me : nat) (s s' : EngWorld) : Prop := einv s -> einv s' /\ estep me s s'.

Lemma estep_refl me s : estep me s s.
Proof. split; auto using others_refl. Qed.

Lemma estep_trans me s1 s2 s3 : estep me s1 s2 -> estep me s2 s3 -> estep me s1 s3.
Proof.
  intros [A1 A2 A3 A4 A5 A6 A7 A8] [B1 B2 B3 B4 B5 B6 B7 B8]. split; auto; [lia|..].
  - intros i Hi. rewrite B2 by lia. by apply A2.
  - intros i Hi. eapply others_trans; [by apply A3|apply B3; lia].
  - intros i. by rewrite B4, A4.
  - by rewrite B5, A5.
  - intros i Hi Ho. apply B7; [lia|]. by apply A7.
Qed.

Lemma erely_refl me s : erely me s s.
Proof. intros Hi. split; [done|apply estep_refl]. Qed.

Lemma erely_trans me s1 s2 s3 : erely me s1 s2 -> erely me s2 s3 -> erely me s1 s3.
Proof. intros H1 H2 Hi. destruct (H1 Hi) as [Hi2 E1]. destruct (H2 Hi2) as [Hi3 E2]. split; [done|]. by eapply estep_trans. Qed.

(** ** Seeing one session *)
Lemma quiet_host_count w n : quiet w (with_host_count w n).
Proof.
  constructor; try done. constructor; try done; [|by left|by apply past_grows_same].
  intros [Ha Hl Hc]. by constructor.
Qed.

Lemma host_back w n m : with_host_count (with_host_count w n) m = with_host_count w m.
Proof. by destruct w. Qed.

Lemma view_put s i w : view (put s i w) i = with_host_count w (vec_len (g_host s)).
Proof. unfold view, put, set_cell. simpl. by rewrite upd_same. Qed.

Lemma view_set_cell s i c j :
  cell_world c = cell_world (g_cell s i) -> view (set_cell s i c) j = view s j.
Proof. intros E. unfold view, set_cell, upd. simpl. destruct (decide (j = i)) as [->|]; [by rewrite E|done]. Qed.

Lemma view_put_other s i w j : j <> i -> view (put s i w) j = view s j.
Proof. intros Hj. unfold view, put, set_cell. simpl. by rewrite upd_other. Qed.

Lemma others_view_host me s s' i :
  g_cell s' i = g_cell s i -> others me (view s i) (view s' i).
Proof.
  intros E. unfold view. rewrite E.
  rewrite <-(host_back (cell_world (g_cell s i)) (vec_len (g_host s)) (vec_len (g_host s'))). apply quiet_others, quiet_host_count.
Qed.

Lemma holds_put me s i w j : holds me j (put s i w) = holds me j s.
Proof. unfold holds, put, set_cell, upd. simpl. by destruct (decide (j = i)) as [->|]. Qed.

Lemma put_id s i w j : cell_id (g_cell (put s i w) j) = cell_id (g_cell s j).
Proof. unfold put, set_cell, upd. simpl. by destruct (decide (j = i)) as [->|]. Qed.

Lemma put_owners s i w j : cell_owners (g_cell (put s i w) j) = cell_owners (g_cell s j).
Proof. unfold put, set_cell, upd. simpl. by destruct (decide (j = i)) as [->|]. Qed.

(** An action of session [i] in the engine. *)
Lemma put_view_others me s i w j :
  others me (view s i) w -> others me (view s j) (view (put s i w) j).
Proof.
  intros Ho. destruct (decide (j = i)) as [->|Hj]; [|rewrite view_put_other by done; apply others_refl].
  rewrite view_put. eapply others_trans; [exact Ho|]. apply quiet_others, quiet_host_count.
Qed.

Lemma put_einv s i w : i < g_fresh s -> evolves (view s i) w -> einv s -> einv (put s i w).
Proof.
  intros Hi He [H1 H2 H3 H4 H5]. split; [done|..].
  - intros id j Hj. rewrite put_id. by apply H2.
  - intros j. rewrite put_owners, put_id. apply H3.
  - intros j Hj. rewrite put_id. destruct (H4 j Hj) as [Hv Hc].
    destruct (decide (j = i)) as [->|Hne]; [|by rewrite view_put_other].
    rewrite view_put. destruct (quiet_host_count w (vec_len (g_host s))) as [Q _ _ _ _ _].
    split; [by apply Q, He|]. by rewrite (ev_id _ _ Q), (ev_id _ _ He).
  - intros j Hj. rewrite view_put_other by (simpl in Hj; lia). by apply H5.
Qed.

Lemma put_erely me s i w : i < g_fresh s -> others me (view s i) w -> erely me s (put s i w).
Proof.
  intros Hi Ho Hinv. split; [eapply put_einv; [done|apply Ho|done]|]. split; try done.
  - intros j _. by rewrite put_id.
  - intros j _. by apply put_view_others.
  - intros j. apply holds_put.
  - intros j _. by rewrite put_owners.
  - intros j. pose proof (put_view_others _ _ _ _ j Ho) as Hv. apply Hv.
Qed.

(** ** The critical sections of the registry *)
Lemma count_remove_same me l : count me (remove_one me l) = pred (count me l).
Proof.
  induction l as [|x l IH]; simpl; [done|]. destruct (Nat.eqb_spec x me) as [->|Hx].
  - by destruct (Nat.eq_dec me me).
  - simpl. by destruct (Nat.eq_dec x me).
Qed.

Lemma count_remove_other me other l : other <> me -> count other (remove_one me l) = count other l.
Proof.
  intros Ho. induction l as [|x l IH]; simpl; [done|]. destruct (Nat.eqb_spec x me) as [->|Hx]; simpl.
  - by destruct (Nat.eq_dec me other).
  - by destruct (Nat.eq_dec x other); rewrite IH.
Qed.

Lemma count_cons_other me other l : other <> me -> count other (me :: l) = count other l.
Proof. intros Ho. simpl. by destruct (Nat.eq_dec me other). Qed.

Lemma count_cons_same me l : count me (me :: l) = S (count me l).
Proof. simpl. by destruct (Nat.eq_dec me me). Qed.

Lemma holds_live me i s : 0 < holds me i s -> cell_owners (g_cell s i) <> [].
Proof. unfold holds. intros H E. rewrite E in H. simpl in H. lia. Qed.

Lemma view_world s s' i :
  cell_world (g_cell s' i) = cell_world (g_cell s i) -> g_host s' = g_host s -> view s' i = view s i.
Proof. unfold view. by intros -> ->. Qed.

(** Changing who owns a registered state, and nothing else. *)
Lemma einv_owners s i owners :
  einv s -> (owners <> [] -> i < g_fresh s /\ bt_get (g_entries s) (cell_id (g_cell s i)) = Some i) ->
  einv (set_cell s i (set_owners (g_cell s i) owners)).
Proof.
  intros [H1 H2 H3 H4 H5] Ho.
  assert (forall j, cell_id (g_cell (set_cell s i (set_owners (g_cell s i) owners)) j) = cell_id (g_cell s j)) as Hid.
  { intros j. unfold set_cell, upd. simpl. by destruct (decide (j = i)) as [->|]. }
  split; [done|..].
  - intros id j Hj. rewrite Hid. by apply H2.
  - intros j. rewrite Hid. unfold set_cell, upd. simpl. destruct (decide (j = i)) as [->|]; [done|apply H3].
  - intros j Hj. rewrite Hid, view_set_cell by done. by apply H4.
  - intros j Hj. rewrite view_set_cell by done. by apply H5.
Qed.

Lemma estep_owners me s i owners :
  count me owners = holds me i s -> (i < g_fresh s -> cell_owners (g_cell s i) = [] -> owners = []) ->
  estep me s (set_cell s i (set_owners (g_cell s i) owners)).
Proof.
  intros Hc Hd. split; try done.
  - intros j _. unfold set_cell, upd. simpl. by destruct (decide (j = i)) as [->|].
  - intros j _. rewrite view_set_cell by done. apply others_refl.
  - intros j. unfold holds, set_cell, upd. simpl. by destruct (decide (j = i)) as [->|].
  - intros j Hj. unfold set_cell, upd. simpl. destruct (decide (j = i)) as [->|]; [by apply Hd|done].
  - intros j. by rewrite view_set_cell.
Qed.

(** A new state, where no live state has its identifier. *)
Definition registered (me : nat) (record : SessionRecord) (persisted : bool) (s : EngWorld) : EngWorld :=
  snd (register_state me record persisted s).

Lemma registered_cell me record persisted s j :
  g_cell (registered me record persisted s) j =
    if decide (j = g_fresh s) then {| cell_id := rec_id record; cell_world := new_registered record persisted; cell_owners := [me] |}
    else g_cell s j.
Proof. done. Qed.

Lemma registered_view me record persisted s j :
  j <> g_fresh s -> view (registered me record persisted s) j = view s j.
Proof. intros Hj. apply view_world; [|done]. by rewrite registered_cell, decide_False. Qed.

Lemma einv_registered me record persisted s :
  einv s -> (forall i, bt_get (g_entries s) (rec_id record) = Some i -> cell_owners (g_cell s i) = []) ->
  einv (registered me record persisted s).
Proof.
  intros [H1 H2 H3 H4 H5] Hd. split.
  - by apply bt_insert_wf.
  - intros id j. unfold registered. simpl. rewrite bt_get_insert. fold (registered me record persisted s).
    change (upd _ _ _ j) with (g_cell (registered me record persisted s) j). rewrite registered_cell.
    case_bool_decide as Hb; [intros [= <-]; rewrite decide_True by done; simpl; auto with lia|].
    intros Hj. apply H2 in Hj as [? ?]. rewrite decide_False by lia. split; [lia|done].
  - intros j. rewrite registered_cell. unfold registered. simpl. rewrite bt_get_insert.
    destruct (decide (j = g_fresh s)) as [->|Hj]; simpl; [intros _; split; [lia|by rewrite bool_decide_true]|].
    intros Ho. pose proof (H3 j Ho) as [? Hg]. split; [lia|]. case_bool_decide as Hb; [|done].
    rewrite <-Hb in Hg. by destruct Ho; apply Hd.
  - intros j Hj. simpl in Hj. destruct (decide (j = g_fresh s)) as [->|Hne].
    + unfold view. rewrite registered_cell, decide_True by done. by split.
    + rewrite registered_view, registered_cell, decide_False by done. apply H4. lia.
  - intros j Hj. simpl in Hj. rewrite registered_view by lia. apply H5. lia.
Qed.

Lemma estep_registered me other record persisted s :
  other <> me -> einv s -> estep other s (registered me record persisted s).
Proof.
  intros Hne [H1 H2 H3 H4 H5]. split; try done.
  - simpl. lia.
  - intros i Hi. by rewrite registered_cell, decide_False by lia.
  - intros i Hi. rewrite registered_view by lia. apply others_refl.
  - intros i. unfold holds. rewrite registered_cell. destruct (decide (i = g_fresh s)) as [->|]; [|done].
    simpl. destruct (Nat.eq_dec me other) as [->|]; [done|].
    destruct (cell_owners (g_cell s (g_fresh s))) eqn:E; [done|]. destruct (H3 (g_fresh s)); [by rewrite E|lia].
  - intros i Hi Ho. by rewrite registered_cell, decide_False by lia.
  - intros i. destruct (decide (i = g_fresh s)) as [->|]; [|by rewrite registered_view].
    unfold view. by rewrite registered_cell, decide_True by done.
Qed.

(** The removal of an entry whose state nobody holds: a successor's entry stays. *)
Lemma erely_remove other s id i :
  i < g_fresh s -> cell_owners (g_cell s i) = [] -> erely other s (remove_if_matches id i s).
Proof.
  intros Hi Ho Hinv. pose proof Hinv as [H1 H2 H3 H4 H5]. unfold remove_if_matches.
  destruct (bt_get (g_entries s) id) as [r|] eqn:Eg; [|by split; [|apply estep_refl]].
  destruct (Nat.eqb_spec r i) as [->|]; [|by split; [|apply estep_refl]].
  split; [|split; auto using others_refl]. split; simpl; [by apply bt_remove_wf|..].
  - intros id' j. rewrite bt_get_remove by done. case_bool_decide; [done|]. apply H2.
  - intros j Hj. pose proof (H3 j Hj) as [? Hg]. split; [done|]. rewrite bt_get_remove by done.
    case_bool_decide as Hb; [|done]. rewrite <-Hb, Eg in Hg. by injection Hg as <-.
  - done.
  - done.
Qed.

(** The host's references. *)
Lemma view_set_host s l j : view (set_host s l) j = with_host_count (view s j) (vec_len l).
Proof. unfold view. simpl. by rewrite host_back. Qed.

Lemma erely_host other s l :
  count other l = count other (g_host s) -> (g_host s = [] -> l = []) -> erely other s (set_host s l).
Proof.
  intros Hc Hd [H1 H2 H3 H4 H5]. split; split; try done.
  - intros i Hi. rewrite view_set_host. destruct (H4 i Hi) as [Hv Hr].
    destruct (quiet_host_count (view s i) (vec_len l)) as [Q _ _ _ _ _]. split; [by apply Q|by rewrite (ev_id _ _ Q)].
  - intros i _. rewrite view_set_host. apply quiet_others, quiet_host_count.
Qed.

(** ** Programs of the engine *)
Definition any_reply (h : EngEvents) (s : EngWorld) (q : Query) (x : Ans q) : Prop := True.

(** The store returned [r] for a load of [id]. *)
Definition returned_record (id : SessionId) (r : SessionRecord) (h : EngEvents) : Prop :=
  exists s store n, EvAsk s (Q_load store id) (n, Ok (Some r)) ∈ h.

Lemma returned_later id r h h' : h `suffix_of` h' -> returned_record id r h -> returned_record id r h'.
Proof. intros [l ->] (s & store & n & Hin). exists s, store, n. apply elem_of_app. by right. Qed.

Ltac suffix := repeat first [reflexivity|eassumption|apply suffix_cons_r].

(** The program is one synchronous call. *)
Fixpoint synchronous {A} (p : sprog A) : Prop :=
  match p with
  | Ret _ | Panic => True
  | Act _ k => forall x, synchronous (k x)
  | Ask _ _ => False
  | Yield _ _ => False
  | Wait _ _ _ => False
  end.

(** What a task may do: other tasks can rely on its actions, and it registers only
    records [reg] accepts. *)
Definition eng_allowed (reg : EngEvents -> SessionRecord -> Prop) (me : nat) (e : event EngWorld Query Ans) (h : EngEvents)
    : Prop :=
  match e with
  | EvAct s s' | EvDrop s s' =>
      einv s /\ (forall other, other <> me -> erely other s s') /\
      (g_fresh s' = g_fresh s \/ (g_fresh s' = S (g_fresh s) /\ reg h (canonical (view s' (g_fresh s)))))
  | EvAsk _ _ _ => True
  end.

Definition free (me i : nat) (s : EngWorld) : Prop := lease_holder (view s i) <> Some me.

(** Since [s0] the task has come to hold state [k], with identifier [id], and [b]
    references to the host; it has no lease but possibly that of [k]. *)
Record owns (me : nat) (id : SessionId) (s0 : EngWorld) (k : option nat) (b : nat) (s : EngWorld) : Prop := {
  ow_inv : einv s;
  ow_holds : forall j, holds me j s = holds me j s0 + (if decide (k = Some j) then 1 else 0);
  ow_host : count me (g_host s) = count me (g_host s0) + b;
  ow_closed : g_host s0 = [] -> g_host s = [];
  ow_free : forall j, k <> Some j -> free me j s;
  ow_id : forall i, k = Some i -> cell_id (g_cell s i) = id;
}.

Lemma owns_live me id s0 i b s : owns me id s0 (Some i) b s ->
  i < g_fresh s /\ bt_get (g_entries s) id = Some i.
Proof.
  intros [Hi Hh _ _ _ Hid]. specialize (Hh i). rewrite decide_True in Hh by done.
  destruct (ei_live _ Hi i) as [? Hg]; [apply (holds_live me); lia|]. by rewrite (Hid i) in Hg.
Qed.

Lemma unleased_rely me i s s' : einv s -> erely me s s' -> free me i s -> free me i s'.
Proof. intros Hi R Hf Hl. destruct (R Hi) as [_ E]. by apply Hf, (es_lease _ _ _ E). Qed.

Lemma owns_rely me id s0 k b s s' : erely me s s' -> owns me id s0 k b s -> owns me id s0 k b s'.
Proof.
  intros R Hw. pose proof Hw as [Hi Hh Hb Hc Hf Hid]. pose proof (R Hi) as [Hi' E]. split; [done|..].
  - intros j. by rewrite (es_holds _ _ _ E).
  - by rewrite (es_host _ _ _ E).
  - intros H0. apply (es_closed _ _ _ E). by apply Hc.
  - intros j Hj. eapply unleased_rely; [exact Hi|exact R|by apply Hf].
  - intros i ->. destruct (owns_live _ _ _ _ _ _ Hw). rewrite (es_id _ _ _ E) by done. by apply Hid.
Qed.

Section Rules.
Context (me : nat) (id : SessionId) (s0 : EngWorld) (reg : EngEvents -> SessionRecord -> Prop).
Notation ewp := (wp (erely me) any_reply (eng_allowed reg me)).
Notation owns := (owns me id s0).
Notation free := (free me).

Lemma allowed_rely s s' h :
  einv s -> (forall other, other <> me -> erely other s s') -> g_fresh s' = g_fresh s ->
  eng_allowed reg me (EvAct s s') h.
Proof. intros Hi Hr Hf. split_and!; auto. Qed.

Lemma ewp_read {X B} (f : EngWorld -> X) (c : X -> eprog B) k b post s h :
  owns k b s -> (forall s', erely me s s' -> owns k b s' -> ewp (c (f s')) post s' (EvAct s' s' :: h)) ->
  ewp (bind (get f) c) post s h.
Proof.
  intros Hw H s' R. pose proof (owns_rely _ _ _ _ _ _ _ R Hw) as Hw'. split; [|by apply H].
  apply allowed_rely; [apply Hw'|intros; apply erely_refl|done].
Qed.

Lemma ewp_ret {B} (a : B) k b (post : outcome B -> EngWorld -> EngEvents -> Prop) s h :
  owns k b s -> (forall s', erely me s s' -> owns k b s' -> post (Returned a) s' h) -> ewp (Ret a) post s h.
Proof. intros Hw H s' R. apply H; [done|by eapply owns_rely]. Qed.

(** Dropping the state the task holds. *)
Lemma drop_owns i b s :
  owns (Some i) b s -> free i s ->
  owns None b (snd (drop_reference me i s)) /\ (forall other, other <> me -> erely other s (snd (drop_reference me i s))).
Proof.
  intros Hw Hf. pose proof Hw as [Hi Hh Hb Hc Hfr Hid]. destruct (owns_live _ _ _ _ _ _ Hw) as [Hl Hg].
  assert (einv (snd (drop_reference me i s))) as Hi'.
  { apply einv_owners; [done|]. intros _. split; [done|]. by rewrite (Hid i). }
  split.
  - split; [done|..]; [|done|done| |done].
    + intros j. specialize (Hh j). unfold holds, drop_reference, set_cell, upd in *. simpl.
      destruct (decide (j = i)) as [->|Hj]; simpl.
      * rewrite count_remove_same. rewrite decide_True in Hh by done. lia.
      * rewrite decide_False in Hh by congruence. rewrite Hh. lia.
    + intros j _. unfold EngineProofs.free, drop_reference. cbn [snd]. rewrite view_set_cell by done. destruct (decide (j = i)) as [->|Hj]; [done|].
      apply Hfr. congruence.
  - intros other Ho _. split; [done|]. apply estep_owners; [by apply count_remove_other|]. intros _ ->. done.
Qed.

Lemma ewp_release {B} i b (c : unit -> eprog B) post s h :
  owns (Some i) b s -> free i s ->
  (forall s' h', owns None b s' -> h `suffix_of` h' -> ewp (c tt) post s' h') ->
  ewp (bind (release_state me i) c) post s h.
Proof.
  intros Hw Hf Hc. apply wp_assoc. intros s1 R1. pose proof (owns_rely _ _ _ _ _ _ _ R1 Hw) as Hw1.
  assert (free i s1) as Hf1 by (eapply unleased_rely; [apply Hw|done|done]).
  destruct (drop_owns i b s1 Hw1 Hf1) as [Hw2 Hr2]. destruct (owns_live _ _ _ _ _ _ Hw1) as [Hl1 _].
  split; [apply allowed_rely; [apply Hw1|done|done]|]. cbn [fst snd drop_reference]. set (s2 := set_cell _ _ _) in *.
  case_bool_decide as Hlast; [|apply Hc; [done|suffix]].
  assert (cell_owners (g_cell s2 i) = []) as Ho2 by (unfold s2; simpl; rewrite upd_same; done).
  assert (i < g_fresh s2) as Hl2 by done.
  apply wp_assoc. apply (ewp_read _ _ None b); [done|]. intros s3 R3 Hw3 s4 R4. pose proof (owns_rely _ _ _ _ _ _ _ R4 Hw3) as Hw4.
  destruct (erely_trans _ _ _ _ R3 R4 (ow_inv _ _ _ _ _ _ Hw2)) as [Hi4 E].
  pose proof (fun other => erely_remove other s4 (cell_id (g_cell s3 i)) i ltac:(pose proof (es_fresh _ _ _ E); lia)
    (es_dead _ _ _ E i Hl2 Ho2)) as Hrm.
  split; [apply allowed_rely; [done|auto|]|].
  { simpl. unfold remove_if_matches. destruct (bt_get _ _); [|done]. by destruct (_ =? _). }
  apply Hc; [|suffix]. eapply owns_rely; [apply Hrm|done].
Qed.

(** ** Programs of a session the task holds *)
Lemma own_put i b s w :
  owns (Some i) b s -> own me (view s i) w ->
  owns (Some i) b (put s i w) /\ (forall other, other <> me -> erely other s (put s i w)).
Proof.
  intros Hw Ho. destruct (owns_live _ _ _ _ _ _ Hw) as [Hl _]. pose proof Hw as [Hi Hh Hb Hc Hf Hid]. split.
  - assert (others (S me) (view s i) w) as [[He _ _ _ _ _ _] _ _ _] by (apply Ho; lia).
    split; [by apply put_einv|..]; [intros j; by rewrite holds_put|done|done| |intros j Hj; by rewrite put_id, Hid].
    intros j Hj. unfold EngineProofs.free. rewrite view_put_other by congruence. by apply Hf.
  - intros other Hne. apply put_erely; [done|]. by apply Ho.
Qed.

Lemma others_put s i w : others me w (view (put s i w) i).
Proof. rewrite view_put. apply quiet_others, quiet_host_count. Qed.

Lemma others_rely i b s s' : owns (Some i) b s -> erely me s s' -> others me (view s i) (view s' i).
Proof.
  intros Hw R. destruct (owns_live _ _ _ _ _ _ Hw) as [Hl _]. destruct (R (ow_inv _ _ _ _ _ _ Hw)) as [_ E].
  by apply (es_cells _ _ _ E).
Qed.

Lemma evolves_put s i w : own me (view s i) w -> evolves (view s i) (view (put s i w) i).
Proof.
  intros Ho. assert (others (S me) (view s i) w) as [[He _ _ _ _ _ _] _ _ _] by (apply Ho; lia).
  etransitivity; [exact He|]. apply (others_put s i w).
Qed.

Lemma ewp_lift {A} i b (al : event World Query Ans -> Events -> Prop) (p : sprog A) post Q :
  (forall v w hs, al (EvAct v w) hs \/ al (EvDrop v w) hs -> own me v w) ->
  forall s h hs, owns (Some i) b s -> wp (others me) any_answer al p post (view s i) hs ->
  (forall o s' h' w hs', owns (Some i) b s' -> post o w hs' -> others me w (view s' i) -> h `suffix_of` h' ->
     evolves (view s i) (view s' i) -> (synchronous p -> o <> Dropped /\ o <> Blocked) -> Q o s' h') ->
  ewp (lift i p) Q s h.
Proof.
  intros Hal. induction p as [a| |X f k IH|q k IH|d k IH|X r d k IH]; simpl; intros s h hs Hw Hp HQ s1 R1;
    pose proof (owns_rely _ _ _ _ _ _ _ R1 Hw) as Hw1; pose proof (others_rely _ _ _ _ Hw R1) as O1;
    assert (evolves (view s i) (view s1 i)) as E1 by apply O1.
  - eapply HQ; [done|by apply Hp|apply others_refl|suffix|done|done].
  - eapply HQ; [done|by apply Hp|apply others_refl|suffix|done|done].
  - destruct (Hp _ O1) as [Ha Hk]. assert (own me (view s1 i) (snd (f (view s1 i)))) as Ho1 by (by eapply Hal; left).
    destruct (own_put i b s1 _ Hw1 Ho1) as [Hw2 Hr2]. split; [split_and!; [apply Hw1|done|by left]|].
    eapply IH; [done|eapply wp_stable; [apply others_trans|apply others_put|exact Hk]|].
    intros o s' h' w hs' Hw' Hpost Ho Hs He Hsy. eapply HQ; [done|done|done|by eapply suffix_cons_l| |auto].
    etransitivity; [exact E1|]. etransitivity; [by apply evolves_put|done].
  - intros x _. destruct (Hp _ O1 x I) as [Ha Hk]. split; [done|]. eapply IH; [done|exact Hk|].
    intros o s' h' w hs' Hw' Hpost Ho Hs He _. eapply HQ; [done|done|done|by eapply suffix_cons_l|by etransitivity; [exact E1|]|done].
  - destruct (Hp _ O1) as [[Ha Hd] Hk]. assert (own me (view s1 i) (d (view s1 i))) as Ho1 by (by eapply Hal; right).
    destruct (own_put i b s1 _ Hw1 Ho1) as [Hw2 Hr2]. split; [split; [split_and!; [apply Hw1|done|by left]|]|].
    + eapply HQ; [done|exact Hd|apply others_put|suffix|etransitivity; [exact E1|by apply evolves_put]|done].
    + eapply IH; [done|exact Hk|]. intros o s' h' w hs' Hw' Hpost Ho Hs He _.
      eapply HQ; [done|done|done|done|by etransitivity; [exact E1|]|done].
  - destruct (Hp _ O1) as ([Ha Hd] & Hb & Hk). assert (own me (view s1 i) (d (view s1 i))) as Ho1 by (by eapply Hal; right).
    destruct (own_put i b s1 _ Hw1 Ho1) as [Hw2 Hr2]. split; [split; [split_and!; [apply Hw1|done|by left]|]|split].
    + eapply HQ; [done|exact Hd|apply others_put|suffix|etransitivity; [exact E1|by apply evolves_put]|done].
    + destruct (r (view s1 i)) as [[x w]|] eqn:E; [done|]. intros _.
      eapply HQ; [done|by apply Hb|apply others_refl|suffix|done|done].
    + intros x s2. destruct (r (view s1 i)) as [[y w]|] eqn:E; [|done]. intros [= <- <-].
      destruct (Hk y w eq_refl) as [Ha2 Hk2]. assert (own me (view s1 i) w) as Ho3 by (by eapply Hal; left).
      destruct (own_put i b s1 w Hw1 Ho3) as [Hw3 Hr3]. split; [split_and!; [apply Hw1|done|by left]|].
      eapply IH; [done|eapply wp_stable; [apply others_trans|apply others_put|exact Hk2]|].
      intros o s' h' w' hs' Hw' Hpost Ho Hs He _. eapply HQ; [done|done|done|by eapply suffix_cons_l| |done].
      etransitivity; [exact E1|]. etransitivity; [by apply evolves_put|done].
Qed.

(** [?] while the task holds state [i]. *)
Lemma ewp_owning {A B} i b (p : eprog (result A EngineError)) (c : A -> eprog (result B EngineError)) post s h :
  ewp p (fun o s' h' =>
    match o with
    | Returned (Ok a) => ewp (c a) post s' h'
    | Returned (Err e) => owns (Some i) b s' /\ free i s' /\
        forall s2 h2, owns None b s2 -> h' `suffix_of` h2 -> post (Returned (Err e)) s2 h2
    | Dropped => post Dropped s' h'
    | Panicked => post Panicked s' h'
    | Blocked => post Blocked s' h'
    end) s h ->
  ewp (owning me i p c) post s h.
Proof.
  intros Hp. apply wp_bind; [apply erely_refl|]. eapply wp_mono; [|exact Hp].
  intros o s1 h1 Ho. destruct o as [[a|e]| | |]; cbn [sequel]; try exact Ho.
  destruct Ho as (Hw & Hf & Hk). eapply ewp_release; [done|done|]. intros s2 h2 Hw2 Hh2.
  eapply ewp_ret; [done|]. intros s3 R3 Hw3. by apply Hk.
Qed.

(** Finding or registering the state of the record's identifier. *)
Lemma upgrade_owns i b s :
  owns None b s -> bt_get (g_entries s) id = Some i -> cell_owners (g_cell s i) <> [] ->
  let s' := set_cell s i (set_owners (g_cell s i) (me :: cell_owners (g_cell s i))) in
  owns (Some i) b s' /\ (forall other, other <> me -> erely other s s').
Proof.
  intros [Hi Hh Hb Hc Hf Hid] Hg Ho s'. destruct (ei_entry _ Hi id i Hg) as [Hl Hci].
  assert (einv s') as Hi' by (apply einv_owners; [done|]; intros _; by rewrite Hci).
  split.
  - split; [done|..]; [|done|done| |].
    + intros j. specialize (Hh j). unfold holds, s', set_cell, upd in *. simpl in *.
      destruct (decide (j = i)) as [->|Hj]; [rewrite decide_True by done|rewrite decide_False by congruence; lia].
      cbn [cell_owners set_owners]. rewrite count_cons_same. lia.
    + intros j _. unfold EngineProofs.free, s'. rewrite view_set_cell by done. by apply Hf.
    + intros j [= <-]. unfold s', set_cell. simpl. by rewrite upd_same.
  - intros other Hne _. split; [done|]. apply estep_owners; [by apply count_cons_other|]. by intros _ ?%Ho.
Qed.

Lemma register_owns record persisted b s :
  rec_id record = id ->
  owns None b s -> (forall i, bt_get (g_entries s) id = Some i -> cell_owners (g_cell s i) = []) ->
  owns (Some (g_fresh s)) b (registered me record persisted s) /\
  (forall other, other <> me -> erely other s (registered me record persisted s)).
Proof.
  intros Hr [Hi Hh Hb Hc Hf Hid] Hd. rewrite <-Hr in Hd. pose proof (einv_registered me record persisted s Hi Hd) as Hi'.
  split; [|intros other Hne _; split; [done|by apply estep_registered]].
  assert (cell_owners (g_cell s (g_fresh s)) = []) as Hn.
  { destruct (cell_owners _) eqn:E; [done|]. destruct (ei_live _ Hi (g_fresh s)); [by rewrite E|lia]. }
  split; [done|..]; [|done|done| |].
  - intros j. specialize (Hh j). unfold holds in *. rewrite registered_cell.
    destruct (decide (j = g_fresh s)) as [->|Hj]; [|rewrite decide_False in * by congruence; done].
    rewrite (decide_True (P := Some _ = Some _)) by done. rewrite Hn in Hh. simpl in *. destruct (Nat.eq_dec me me); [lia|done].
  - intros j Hj. unfold EngineProofs.free. rewrite registered_view by congruence. by apply Hf.
  - intros i [= <-]. by rewrite registered_cell, decide_True.
Qed.
End Rules.
