(* ===== verification/EnginePool.v ===== *)
(** * Opening and using the sessions of an engine

    Any number of tasks that create, reserve and load sessions of one engine, use
    them and drop them, interleaved in every order: an identifier has at most one
    live session, a record is checked before it is registered, nothing is retained
    on an error, and a closed host stays closed. *)
From S2P Require Import Prelude Ids Json Model Limits Context Prog SessionState Operations Sample Lease SessionPool.
From S2P Require Import Engine EngineProofs.
Open Scope prog_scope.

(** ** Rules *)
Section Rules.
Context (me : nat) (id : SessionId) (s0 : EngWorld) (reg : EngEvents -> SessionRecord -> Prop).
Notation ewp := (wp (erely me) any_reply (eng_allowed reg me)).
Notation owns := (owns me id s0).
Notation free := (free me).

(** The task's view of the state it holds moved as others let it. *)
Definition later (i : nat) (s s' : EngWorld) : Prop := others me (view s i) (view s' i).

Lemma later_free i s s' : later i s s' -> free i s -> free i s'.
Proof. intros [[_ _ Hb _ _ _ _] _ _ _] Hf Hl. by apply Hf, Hb. Qed.

Lemma later_evolves i s s' : later i s s' -> evolves (view s i) (view s' i).
Proof. by intros [[? _ _ _ _ _ _] _ _ _]. Qed.

Lemma free_after w i s : lease_holder w <> Some me -> others me w (view s i) -> free i s.
Proof. intros Hf [[_ _ Hb _ _ _ _] _ _ _] Hl. by apply Hf, Hb. Qed.

Lemma host_push k b s :
  owns k b s -> g_host s <> [] ->
  owns k (S b) (set_host s (me :: g_host s)) /\
  (forall other, other <> me -> erely other s (set_host s (me :: g_host s))).
Proof.
  intros [Hi Hh Hb Hc Hf Hid] Hn.
  assert (forall other, other <> me -> erely other s (set_host s (me :: g_host s))) as Hr.
  { intros other Ho. apply erely_host; [by apply count_cons_other|done]. }
  split; [|done]. destruct (Hr (S me)) as [Hi' _]; [lia|done|]. split; [done|done| | | |done].
  - cbn [g_host set_host]. rewrite count_cons_same, Hb. lia.
  - intros H0. by destruct Hn; apply Hc.
  - intros j Hj. by apply Hf.
Qed.

Lemma host_pop k b s :
  owns k (S b) s ->
  owns k b (set_host s (remove_one me (g_host s))) /\
  (forall other, other <> me -> erely other s (set_host s (remove_one me (g_host s)))).
Proof.
  intros [Hi Hh Hb Hc Hf Hid].
  assert (forall other, other <> me -> erely other s (set_host s (remove_one me (g_host s)))) as Hr.
  { intros other Ho. apply erely_host; [by apply count_remove_other|by intros ->]. }
  split; [|done]. destruct (Hr (S me)) as [Hi' _]; [lia|done|]. split; [done|done| | | |done].
  - simpl. rewrite count_remove_same, Hb. lia.
  - intros H0. simpl. by rewrite Hc.
  - intros j Hj. by apply Hf.
Qed.

Lemma later_host i s l : later i s (set_host s l).
Proof. by apply others_view_host. Qed.

Lemma later_rely i b s s' : owns (Some i) b s -> erely me s s' -> later i s s'.
Proof. apply others_rely. Qed.

Lemma later_trans i s1 s2 s3 : later i s1 s2 -> later i s2 s3 -> later i s1 s3.
Proof. apply others_trans. Qed.

(** [HostLease::upgrade] of a task that holds state [i]. *)
Lemma ewp_upgrade has_host i (Q : outcome (result bool EngineError) -> EngWorld -> EngEvents -> Prop) s h :
  owns (Some i) 0 s ->
  (forall (r : result bool EngineError) s' h', later i s s' -> h `suffix_of` h' ->
     match r with Ok host => host = has_host /\ owns (Some i) (if host then 1 else 0) s' | Err _ => owns (Some i) 0 s' end ->
     Q (Returned r) s' h') ->
  ewp (host_upgrade has_host me) Q s h.
Proof.
  intros Hw HQ. unfold host_upgrade. destruct has_host.
  2:{ eapply ewp_ret; [done|]. intros s1 R1 Hw1. apply HQ; [by eapply later_rely|suffix|done]. }
  intros s1 R1. pose proof (owns_rely _ _ _ _ _ _ _ R1 Hw) as Hw1. pose proof (later_rely _ _ _ _ Hw R1) as L1.
  destruct (g_host s1) as [|x l] eqn:E; simpl.
  - split; [split_and!; [apply Hw1|intros; apply erely_refl|by left]|]. intros s2 R2.
    apply HQ; [eapply later_trans; [done|by eapply later_rely]|suffix|by eapply owns_rely].
  - destruct (host_push _ _ s1 Hw1) as [Hw2 Hr2]; [by rewrite E|]. rewrite E in Hw2, Hr2.
    split; [split_and!; [apply Hw1|done|by left]|]. intros s2 R2.
    apply HQ; [|suffix|split; [done|by eapply owns_rely]].
    eapply later_trans; [done|]. eapply later_trans; [apply later_host|by eapply later_rely].
Qed.

(** [SessionRegistry::session_state] *)
Lemma wp_validate_identity record w hs :
  lease_holder w <> Some me ->
  wp (others me) any_answer (fun e _ => match e with EvAct v w | EvDrop v w => own me v w | EvAsk _ _ _ => True end)
    (validate_identity record)
    (fun o w' _ => lease_holder w' <> Some me /\ exists r, o = Returned r /\
       (r = Ok tt -> rec_incarnation_id record = rec_incarnation_id (canonical w'))) w hs.
Proof.
  intros Hl w1 O1. split; [intros other _; apply others_refl|]. intros w2 O2.
  pose proof (others_trans _ _ _ _ O1 O2) as [[_ _ Hb _ _ _ _] _ _ _]. destruct O2 as [[He _ _ _ _ _ _] _ _ _].
  split; [auto|]. eexists. split; [done|]. simpl. intros [_ Hi]%identity_ok. by rewrite (ev_incarnation _ _ He).
Qed.

Lemma ewp_session_state {B} record persisted b (c : nat -> eprog (result B EngineError)) post s h :
  rec_id record = id -> reg h record -> owns None b s ->
  (forall i s' h', owns (Some i) b s' -> free i s' -> h `suffix_of` h' ->
     rec_incarnation_id (canonical (view s' i)) = rec_incarnation_id record -> ewp (c i) post s' h') ->
  (forall e s' h', owns None b s' -> h `suffix_of` h' -> post (Returned (Err e)) s' h') ->
  ewp (try (session_state me record persisted) c) post s h.
Proof.
  intros Hid Hreg Hw Hk He. apply wp_assoc. intros s1 R1. pose proof (owns_rely _ _ _ _ _ _ _ R1 Hw) as Hw1.
  assert ((forall i, bt_get (g_entries s1) id = Some i -> cell_owners (g_cell s1 i) = []) ->
    find_state me record persisted s1 = register_state me record persisted s1 ->
    eng_allowed reg me (EvAct s1 (snd (register_state me record persisted s1))) h /\
    ewp (c (g_fresh s1)) post (registered me record persisted s1)
      (EvAct s1 (registered me record persisted s1) :: h)) as Hnew.
  { intros Hd _. destruct (register_owns me id s0 record persisted b s1 Hid Hw1 Hd) as [Hw2 Hr2]. split.
    - split_and!; [apply Hw1|done|right]. split; [done|]. unfold view. fold (registered me record persisted s1).
      by rewrite registered_cell, decide_True.
    - apply Hk; [done| |suffix|]; unfold EngineProofs.free, view; by rewrite registered_cell, decide_True. }
  unfold find_state in *. rewrite Hid in *. destruct (bt_get (g_entries s1) id) as [i|] eqn:Eg; [|by apply Hnew].
  destruct (cell_owners (g_cell s1 i)) as [|x l] eqn:Eo; [by apply Hnew; [intros ? [= <-]|]|].
  destruct (upgrade_owns me id s0 i b s1 Hw1 Eg) as [Hw2 Hr2]; [by rewrite Eo|]. rewrite Eo in Hw2, Hr2.
  split; [split_and!; [apply Hw1|done|by left]|]. cbn [fst snd]. set (s2 := set_cell _ _ _) in *.
  assert (free i s2) as Hf2 by (unfold EngineProofs.free, s2; rewrite view_set_cell by done; by apply Hw1).
  rewrite bind_ret. apply wp_bind; [apply erely_refl|]. apply (ewp_owning me id s0 reg i b).
  eapply (ewp_lift _ _ _ _ i b) with (hs := []); [|done|by apply wp_validate_identity|]; [by intros v w hs [?|?]|].
  intros o s3 h3 w hs Hw3 [Hf [r [-> Hr]]] Ho Hs _ _. pose proof (free_after _ _ _ Hf Ho) as Hf3. destruct r as [[]|e].
  - eapply ewp_ret; [done|]. intros s4 R4 Hw4. cbn [sequel]. pose proof (later_rely _ _ _ _ Hw3 R4) as L4.
    apply Hk; [done|by eapply later_free|eapply suffix_cons_l, Hs|].
    rewrite (ev_incarnation _ _ (later_evolves _ _ _ L4)). destruct Ho as [[Hev _ _ _ _ _ _] _ _ _].
    rewrite (ev_incarnation _ _ Hev). by rewrite Hr.
  - split_and!; [done|done|]. intros s4 h4 Hw4 Hs4. cbn [sequel]. eapply ewp_ret; [done|]. intros s5 R5 Hw5.
    apply He; [done|]. etransitivity; [eapply suffix_cons_l, Hs|done].
Qed.
End Rules.

Section MoreRules.
Context (me : nat) (id : SessionId) (s0 : EngWorld) (reg : EngEvents -> SessionRecord -> Prop).
Notation ewp := (wp (erely me) any_reply (eng_allowed reg me)).
Notation owns := (owns me id s0).

Lemma ewp_future {X B} (f : Fut X) (c : X -> eprog B) k b post s h :
  owns k b s ->
  (forall s', owns k b s' -> post Dropped s' (EvDrop s' s' :: h)) ->
  (forall s', owns k b s' -> ewp (c (snd f)) post s' h) ->
  ewp (bind (future_ready f) c) post s h.
Proof.
  destruct f as [n x]. unfold future_ready. simpl. intros Hw Hd Hc. revert s Hw. induction n as [|n IH]; intros s Hw; simpl; [auto|].
  intros s1 R1. pose proof (owns_rely _ _ _ _ _ _ _ R1 Hw) as Hw1. split; [|by apply IH].
  split; [|by apply Hd]. split_and!; [apply Hw1|intros; apply erely_refl|by left].
Qed.

(** [host.ensure_open()?] *)
Lemma ewp_open_check {B} has_host (c : unit -> eprog (result B EngineError)) k b post s h :
  owns k b s ->
  (forall s' h', owns k b s' -> h `suffix_of` h' -> post (Returned (Err HostClosed)) s' h') ->
  (forall s' h', owns k b s' -> h `suffix_of` h' -> ewp (c tt) post s' h') ->
  ewp (try (host_ensure_open has_host) c) post s h.
Proof.
  intros Hw He Hc. eapply ewp_read; [done|]. intros s1 R1 Hw1. destruct (has_host && _).
  - eapply ewp_ret; [done|]. intros s2 R2 Hw2. apply He; [done|suffix].
  - apply Hc; [done|suffix].
Qed.

Lemma ewp_drop_session {B} x (c : unit -> eprog B) post s h :
  owns (Some (session_ptr x)) (if session_host x then 1 else 0) s -> free me (session_ptr x) s ->
  (forall s' h', owns None 0 s' -> h `suffix_of` h' -> ewp (c tt) post s' h') ->
  ewp (bind (drop_session me x) c) post s h.
Proof.
  intros Hw Hf Hc. apply wp_assoc. destruct (session_host x).
  2:{ rewrite bind_ret. by eapply ewp_release. }
  intros s1 R1. pose proof (owns_rely _ _ _ _ _ _ _ R1 Hw) as Hw1. destruct (host_pop _ _ _ _ _ _ Hw1) as [Hw2 Hr2].
  split; [split_and!; [apply Hw1|done|by left]|]. eapply ewp_release; [done| |].
  - eapply (later_free me _ s); [|done]. eapply later_trans; [by eapply later_rely|apply later_host].
  - intros s3 h3 Hw3 Hs3. apply Hc; [done|by eapply suffix_cons_l].
Qed.
End MoreRules.

(** ** Opening a session *)
Inductive OpenKind :=
| O_engine (id : SessionId) (incarnation_id : SessionIncarnationId)
| O_requester (id : SessionId) (incarnation_id : SessionIncarnationId)
| O_load (id : SessionId) (expected : option (SessionIncarnationId * SessionRevision)) (access : option (N * N)).

Definition open_id (k : OpenKind) : SessionId :=
  match k with O_engine id _ | O_requester id _ | O_load id _ _ => id end.

Section Opening.
Context `{JsonWriter}.
Context (engine : EngineInner) (has_host : bool).

Definition open_session (me : nat) (k : OpenKind) : eprog (result (option Session) EngineError) :=
  match k with
  | O_engine id incarnation => do? x <- create_session has_host me id incarnation; Ret (Ok (Some x))
  | O_requester id incarnation => do? x <- requester_create_session has_host me id incarnation; Ret (Ok (Some x))
  | O_load id expected access => load_session_guarded_with_access engine has_host me id expected access
  end.

(** The records a load lets into the registry. *)
Record admits (id : SessionId) (expected : option (SessionIncarnationId * SessionRevision)) (r : SessionRecord) : Prop := {
  ad_id : rec_id r = id;
  ad_revision : (0 < rec_revision r)%N;
  ad_sequence : (0 < rec_next_turn_sequence r)%N;
  ad_limits : validate_record r (limits engine) = Ok tt;
  ad_expected : forall incarnation revision, expected = Some (incarnation, revision) ->
    rec_incarnation_id r = incarnation /\ rec_revision r = revision;
}.

Lemma admit_record_ok id expected r : admit_record engine id expected r = Ok tt -> admits id expected r.
Proof.
  unfold admit_record, validate_loaded, validate_record_limits. intros Hc. simpl_result. bool_to_prop.
  destruct a0. split; [done|lia|lia|done|]. intros incarnation revision ->.
  unfold check_expected in Hc. simpl_result. by bool_to_prop.
Qed.

(** What may be registered by an operation, and what the session it returns is. *)
Definition open_reg (k : OpenKind) (h : EngEvents) (r : SessionRecord) : Prop :=
  match k with
  | O_engine id incarnation | O_requester id incarnation => r = SessionRecord_empty id incarnation
  | O_load id expected _ => returned_record id r h /\ admits id expected r
  end.

Definition opened (k : OpenKind) (h : EngEvents) (w : World) : Prop :=
  match k with
  | O_engine _ incarnation | O_requester _ incarnation => rec_incarnation_id (canonical w) = incarnation
  | O_load id expected _ => exists r, returned_record id r h /\ admits id expected r /\
      rec_incarnation_id (canonical w) = rec_incarnation_id r /\ reflects r w
  end.

Lemma opened_evolves k h h' w w' : evolves w w' -> h `suffix_of` h' -> opened k h w -> opened k h' w'.
Proof.
  intros He Hs. destruct k; simpl; [by rewrite (ev_incarnation _ _ He)..|].
  intros (r & Hr & Ha & Hi & Hf). exists r. split_and!; [by eapply returned_later|done| |by eapply reflects_evolves].
  by rewrite (ev_incarnation _ _ He).
Qed.

Definition open_post (me : nat) (s0 : EngWorld) (k : OpenKind) (o : outcome (result (option Session) EngineError))
    (s : EngWorld) (h : EngEvents) : Prop :=
  match o with
  | Returned (Ok (Some x)) =>
      owns me (open_id k) s0 (Some (session_ptr x)) (if session_host x then 1 else 0) s /\
      free me (session_ptr x) s /\ session_host x = has_host /\ opened k h (view s (session_ptr x))
  | Returned (Ok None) | Returned (Err _) | Dropped => owns me (open_id k) s0 None 0 s
  | Panicked | Blocked => False
  end.

(** The task owns a real engine handle where the operation needs one. *)
Definition entitled (me : nat) (s0 : EngWorld) (k : OpenKind) : Prop :=
  match k with O_engine _ _ => has_host = true -> 0 < count_occ Nat.eq_dec (g_host s0) me | _ => True end.

Notation ewp k me := (wp (erely me) any_reply (eng_allowed (open_reg k) me)).

Lemma wp_create me s0 id incarnation s h :
  let k := O_engine id incarnation in
  owns me id s0 None 0 s -> entitled me s0 k -> ewp k me (open_session me k) (open_post me s0 k) s h.
Proof.
  intros k Hw Hen. apply wp_bind; [apply erely_refl|].
  apply (ewp_session_state me id s0 _ _ _ 0); [done|done|done| |].
  2:{ intros e s1 h1 Hw1 Hs1. cbn [sequel]. eapply ewp_ret; [done|]. by intros s2 R2 Hw2. }
  intros i s1 h1 Hw1 Hf1 Hs1 Hinc. unfold host_clone. destruct has_host eqn:Eh.
  - intros s2 R2. pose proof (owns_rely _ _ _ _ _ _ _ R2 Hw1) as Hw2. pose proof (later_rely _ _ _ _ _ _ _ Hw1 R2) as L2.
    destruct (host_push _ _ _ _ _ _ Hw2) as [Hw3 Hr3].
    { intros E. pose proof (ow_host _ _ _ _ _ _ Hw2) as Hb. rewrite E in Hb. simpl in Hen, Hb. specialize (Hen Eh). lia. }
    split; [split_and!; [apply Hw2|done|by left]|]. intros s4 R4. cbn [sequel]. intros s5 R5.
    pose proof (erely_trans _ _ _ _ R4 R5) as R45. pose proof (later_rely _ _ _ _ _ _ _ Hw3 R45) as L5.
    pose proof (later_trans _ _ _ _ _ L2 (later_trans _ _ _ _ _ (later_host me i s2 _) L5)) as L.
    split_and!; [by eapply owns_rely|by eapply later_free|done|]. simpl.
    by rewrite (ev_incarnation _ _ (later_evolves _ _ _ _ L)).
  - simpl. intros s2 R2 s3 R3. pose proof (erely_trans _ _ _ _ R2 R3) as R. pose proof (later_rely _ _ _ _ _ _ _ Hw1 R) as L.
    split_and!; [by eapply owns_rely|by eapply later_free|done|].
    by rewrite (ev_incarnation _ _ (later_evolves _ _ _ _ L)).
Qed.

(** The end of a requester's operation: publishing the session it holds. *)
Lemma wp_publish {T} (g : Session -> T) me s0 k i s h :
  owns me (open_id k) s0 (Some i) 0 s -> free me i s -> opened k h (view s i) ->
  forall post : outcome (result T EngineError) -> EngWorld -> EngEvents -> Prop,
  (forall x s' h', open_post me s0 k (Returned (Ok (Some x))) s' h' -> post (Returned (Ok (g x))) s' h') ->
  (forall e s' h', owns me (open_id k) s0 None 0 s' -> post (Returned (Err e)) s' h') ->
  ewp k me (owning me i (host_upgrade has_host me) (fun host => Ret (Ok (g {| session_ptr := i; session_host := host |})))) post s h.
Proof.
  intros Hw Hf Hop post Hok Herr. apply (ewp_owning me (open_id k) s0 _ i 0). apply (ewp_upgrade me (open_id k) s0 _ _ i); [done|].
  intros r s1 h1 L1 Hs1. destruct r as [host|e].
  - intros [-> Hw1]. eapply ewp_ret; [done|]. intros s2 R2 Hw2. apply Hok.
    pose proof (later_trans _ _ _ _ _ L1 (later_rely _ _ _ _ _ _ _ Hw1 R2)) as L.
    split_and!; [done|by eapply later_free|done|]. eapply opened_evolves; [by eapply later_evolves|done|done].
  - intros Hw1. split_and!; [done|by eapply later_free|]. intros s2 h2 Hw2 _. by apply Herr.
Qed.

Lemma wp_requester me s0 id incarnation s h :
  let k := O_requester id incarnation in
  owns me id s0 None 0 s -> ewp k me (open_session me k) (open_post me s0 k) s h.
Proof.
  intros k Hw. apply wp_bind; [apply erely_refl|].
  apply (ewp_open_check me id s0 _ _ _ None 0); [done| |].
  { intros s1 h1 Hw1 _. cbn [sequel]. eapply ewp_ret; [done|]. by intros s2 R2 Hw2. }
  intros s1 h1 Hw1 _. apply (ewp_session_state me id s0 _ _ _ 0); [done|done|done| |].
  - intros i s2 h2 Hw2 Hf2 _ Hinc. apply (wp_publish (fun x => x) me s0 k); [done|done|done| |].
    + intros x s3 h3 Hp s4 R4. destruct Hp as (Hw3 & Hf3 & Hh3 & Ho3).
      pose proof (later_rely _ _ _ _ _ _ _ Hw3 R4) as L. split_and!; [by eapply owns_rely|by eapply later_free|done|].
      eapply opened_evolves; [by eapply later_evolves|reflexivity|done].
    + intros e s3 h3 Hw3. cbn [sequel]. eapply ewp_ret; [done|]. by intros s4 R4 Hw4.
  - intros e s2 h2 Hw2 _. cbn [sequel]. eapply ewp_ret; [done|]. by intros s3 R3 Hw3.
Qed.

Definition reconcile (me : nat) (expected : option (SessionIncarnationId * SessionRevision)) (record : SessionRecord)
    : sprog (result unit EngineError) :=
  match expected with Some _ => reconcile_loaded_idle me record | None => reconcile_loaded record end.

Lemma synchronous_reconcile me expected record : synchronous (reconcile me expected record).
Proof.
  assert (forall n r, synchronous (reconcile_loaded_loop n r)) as Hl.
  { induction n as [|n IH]; intros r; simpl; [done|]. intros x. destruct (check_loaded _ _); simpl; [|done].
    intros y. destruct y; simpl; auto. }
  assert (synchronous (reconcile_loaded record)) as Hr.
  { unfold reconcile_loaded. destruct (validate_loaded record); [|done]. intros x. apply Hl. }
  destruct expected; [|done]. intros x. simpl. destruct x; simpl; [|done].
  revert Hr. generalize (reconcile_loaded record). intros q. induction q; simpl; auto.
Qed.

Lemma wp_reconcile me expected record w :
  inv w -> lease_holder w <> Some me ->
  exists al : event World Query Ans -> Events -> Prop, (forall v w hs, al (EvAct v w) hs \/ al (EvDrop v w) hs -> own me v w) /\
    wp (others me) any_answer al (reconcile me expected record)
      (fun o w' _ => match o with
                     | Returned r => evolves w w' /\ lease_holder w' <> Some me /\ (r = Ok tt -> reflects record w')
                     | Dropped => True
                     | Panicked | Blocked => False
                     end) w [].
Proof.
  intros Hi Hl. destruct expected as [e|]; cbn [reconcile].
  - exists (SessionPool.session_allowed engine w me (T_load record)). split; [intros v w' hs [Ha|Ha]; apply Ha|].
    eapply wp_mono; [|apply wp_calmer, wp_load; done]. intros [r| | |] w' hs [Hf Hp]; try done. by destruct Hp as (? & _ & ?).
  - exists (fun e _ => match e with EvAct v w | EvDrop v w => own me v w | EvAsk _ _ _ => True end).
    split; [by intros v w' hs [?|?]|]. apply wp_calmer, wp_reconcile_loaded; [by intros; apply quiet_own|done|].
    intros res w' hs' [He _ Hb _ _ _ _] _ Hres. split; [done|]. split; [auto|]. intros Hok. by apply Hres.
Qed.

Lemma wp_register_loaded me s0 id expected access record s h :
  let k := O_load id expected access in
  owns me id s0 None 0 s -> returned_record id record h -> admits id expected record ->
  ewp k me
    (do? i <- session_state me record true;
     owning me i (lift i (reconcile me expected record)) (fun _ =>
     owning me i (host_upgrade has_host me) (fun host =>
     Ret (Ok (Some {| session_ptr := i; session_host := host |}))))) (open_post me s0 k) s h.
Proof.
  intros k Hw Hr Ha. apply (ewp_session_state me id s0 _ _ _ 0); [apply Ha|by split|done| |by intros e s1 h1 Hw1 _].
  intros i s1 h1 Hw1 Hf1 Hs1 Hinc. apply (ewp_owning me id s0 _ i 0).
  destruct (owns_live _ _ _ _ _ _ Hw1) as [Hl1 _]. destruct (ei_cell _ (ow_inv _ _ _ _ _ _ Hw1) i Hl1) as [Hi1 _].
  destruct (wp_reconcile me expected record (view s1 i) Hi1 Hf1) as (al & Hal & Hrec).
  eapply (ewp_lift _ _ _ _ i 0) with (hs := []); [exact Hal|done|exact Hrec|].
  intros o s2 h2 w hs Hw2 Hpost Ho Hs2 _ Hsync. destruct (Hsync (synchronous_reconcile me expected record)) as [Hd Hb].
  destruct o as [r| | |]; [|done..]. destruct Hpost as (Hev & Hf & Hrf). pose proof (free_after _ _ _ _ Hf Ho) as Hf2.
  destruct r as [[]|e]; [|by split_and!].
  assert (evolves w (view s2 i)) as He2 by apply Ho.
  apply (wp_publish Some me s0 k); [done|done| |done|done]. exists record.
  split_and!; [eapply returned_later, Hr; by etransitivity|done| |by eapply reflects_evolves, Hrf].
  by rewrite (ev_incarnation _ _ He2), (ev_incarnation _ _ Hev).
Qed.

Lemma wp_load_session me s0 id expected access s h :
  let k := O_load id expected access in
  owns me id s0 None 0 s -> ewp k me (open_session me k) (open_post me s0 k) s h.
Proof.
  intros k Hw. apply (ewp_open_check me id s0 _ _ _ None 0); [done|done|]. intros s1 h1 Hw1 _.
  destruct (match access with Some _ => _ | None => _ end) as [store|e]; simpl_prog.
  2:{ eapply ewp_ret; [done|]. by intros s2 R2 Hw2. }
  intros s2 R2 x _. pose proof (owns_rely _ _ _ _ _ _ _ R2 Hw1) as Hw2. split; [done|].
  eapply (ewp_future me id s0 _ x _ None 0); [done|done|]. intros s3 Hw3.
  destruct x as [n [loaded|e]]; cbn [snd store_result map_err]; simpl_prog.
  2:{ eapply ewp_ret; [done|]. by intros s4 R4 Hw4. }
  apply (ewp_open_check me id s0 _ _ _ None 0); [done|done|]. intros s4 h4 Hw4 Hs4.
  destruct loaded as [record|]; [|by eapply ewp_ret; [done|]; intros s5 R5 Hw5].
  destruct (admit_record engine id expected record) as [[]|e] eqn:Ec; simpl_prog.
  2:{ eapply ewp_ret; [done|]. by intros s5 R5 Hw5. }
  apply (wp_register_loaded me s0 id expected access record); [done| |by apply admit_record_ok].
  eapply returned_later; [exact Hs4|]. exists s2, store, n. apply elem_of_cons. by left.
Qed.

Lemma owns_start me id s0 : einv s0 -> (forall j, free me j s0) -> owns me id s0 None 0 s0.
Proof. intros Hi Hf. split; [done| |lia|done|auto|done]. intros j. rewrite decide_False by done. lia. Qed.

Lemma wp_open me s0 k :
  einv s0 -> (forall j, free me j s0) -> entitled me s0 k -> ewp k me (open_session me k) (open_post me s0 k) s0 [].
Proof.
  intros Hi Hf Hen. pose proof (owns_start me (open_id k) s0 Hi Hf) as Hw.
  destruct k; [by apply wp_create|by apply wp_requester|by apply wp_load_session].
Qed.
End Opening.

(** ** Tasks of an engine *)
(** What a task does with the session it opened. *)
Inductive SessionUse := U_keep | U_drop | U_run (t : SessionTask).

Inductive EngineTask :=
| E_session (k : OpenKind) (use : SessionUse)
| E_reserve (id : SessionId) (incarnation_id : SessionIncarnationId) (dropped : bool).

Inductive EngineResult :=
| ER_session (r : result (option (Session * option SessionResult)) EngineError)
| ER_reservation (r : result (option nat) EngineError).

Definition task_id (t : EngineTask) : SessionId :=
  match t with E_session k _ => open_id k | E_reserve id _ _ => id end.

Section Tasks.
Context `{JsonWriter}.
Context (sha256 : string -> string) (engine : EngineInner) (has_host : bool).

Definition use_session (me : nat) (x : Session) (use : SessionUse) : eprog EngineResult :=
  match use with
  | U_keep => Ret (ER_session (Ok (Some (x, None))))
  | U_drop => do _ <- drop_session me x; Ret (ER_session (Ok None))
  | U_run t =>
      do r <- lift (session_ptr x) (session_task sha256 engine has_host me t);
      Ret (ER_session (Ok (Some (x, Some r))))
  end.

Definition engine_task (me : nat) (t : EngineTask) : eprog EngineResult :=
  match t with
  | E_session k use =>
      do r <- open_session engine has_host me k;
      match r with
      | Ok (Some x) => use_session me x use
      | Ok None => Ret (ER_session (Ok None))
      | Err e => Ret (ER_session (Err e))
      end
  | E_reserve id incarnation dropped =>
      do r <- reserve_session has_host me id incarnation;
      match r with
      | Ok i =>
          if (dropped : bool) then do _ <- release_state me i; Ret (ER_reservation (Ok None))
          else Ret (ER_reservation (Ok (Some i)))
      | Err e => Ret (ER_reservation (Err e))
      end
  end.

Definition task_reg (t : EngineTask) : EngEvents -> SessionRecord -> Prop :=
  match t with
  | E_session k _ => open_reg engine k
  | E_reserve id incarnation _ => fun _ r => r = SessionRecord_empty id incarnation
  end.

(** A returned session is the live one of its identifier, and what was run on it
    did what its result promises; otherwise the task retained nothing. *)
Definition task_post (s0 : EngWorld) (me : nat) (t : EngineTask) (r : EngineResult) (s : EngWorld) (h : EngEvents) : Prop :=
  match t, r with
  | E_session k use, ER_session (Ok (Some (x, used))) =>
      owns me (open_id k) s0 (Some (session_ptr x)) (if session_host x then 1 else 0) s /\ session_host x = has_host /\
      exists w0, inv w0 /\ rec_id (canonical w0) = open_id k /\ opened engine k h w0 /\ evolves w0 (view s (session_ptr x)) /\
        match use, used with
        | U_keep, None => True
        | U_run t, Some r => exists w hs,
            session_post sha256 engine w0 me t (Returned r) w hs /\ others me w (view s (session_ptr x))
        | _, _ => False
        end
  | E_session k _, ER_session _ => owns me (open_id k) s0 None 0 s
  | E_reserve id incarnation dropped, ER_reservation (Ok (Some i)) =>
      dropped = false /\ owns me id s0 (Some i) 0 s /\ rec_incarnation_id (canonical (view s i)) = incarnation
  | E_reserve id _ _, ER_reservation _ => owns me id s0 None 0 s
  | _, _ => False
  end.

Definition ret_post (P : EngineResult -> EngWorld -> EngEvents -> Prop) (o : outcome EngineResult) (s : EngWorld) (h : EngEvents)
    : Prop := match o with Returned r => P r s h | _ => True end.

Notation ewp t me := (wp (erely me) any_reply (eng_allowed (task_reg t) me)).

Lemma wp_use me s0 k use x s h :
  open_post engine has_host me s0 k (Returned (Ok (Some x))) s h ->
  ewp (E_session k use) me (use_session me x use) (ret_post (task_post s0 me (E_session k use))) s h.
Proof.
  intros (Hw & Hf & Hh & Hop). destruct (owns_live _ _ _ _ _ _ Hw) as [Hl _].
  destruct (ei_cell _ (ow_inv _ _ _ _ _ _ Hw) _ Hl) as [Hi Hid]. rewrite (ow_id _ _ _ _ _ _ Hw _ eq_refl) in Hid.
  destruct use as [| |t]; cbn [use_session].
  - eapply ewp_ret; [done|]. intros s1 R1 Hw1. split_and!; [done|done|]. exists (view s (session_ptr x)).
    split_and!; try done. eapply later_evolves. by eapply later_rely.
  - eapply ewp_drop_session; [done|done|]. intros s1 h1 Hw1 _. eapply ewp_ret; [done|]. by intros s2 R2 Hw2.
  - apply wp_bind; [apply erely_refl|]. eapply ewp_lift with (hs := []); [|done|by apply wp_session_task|].
    { intros v w hs Ha other Ho. eapply session_allowed_others; [|exact Ha]. congruence. }
    intros o s1 h1 w hs Hw1 Hpost Ho Hs He _. destruct o as [r| | |]; [|done..]. cbn [sequel].
    eapply ewp_ret; [done|]. intros s2 R2 Hw2. split_and!; [done|done|].
    pose proof (later_rely _ _ _ _ _ _ _ Hw1 R2) as L2.
    exists (view s (session_ptr x)). split_and!; [done|done| | |].
    + by eapply opened_evolves; [apply evolves_refl|exact Hs|].
    + etransitivity; [exact He|]. by eapply later_evolves.
    + exists w, hs. split; [done|]. by eapply others_trans.
Qed.

Lemma wp_reserve me s0 id incarnation dropped s h :
  let t := E_reserve id incarnation dropped in
  owns me id s0 None 0 s -> ewp t me (engine_task me t) (ret_post (task_post s0 me t)) s h.
Proof.
  intros t Hw. apply wp_bind; [apply erely_refl|]. apply (ewp_open_check me id s0 _ _ _ None 0); [done| |].
  { intros s1 h1 Hw1 _. eapply ewp_ret; [done|]. by intros s2 R2 Hw2. }
  intros s1 h1 Hw1 _. apply (ewp_session_state me id s0 _ _ _ 0); [done|done|done| |].
  2:{ intros e s2 h2 Hw2 _. eapply ewp_ret; [done|]. by intros s3 R3 Hw3. }
  intros i s2 h2 Hw2 Hf2 _ Hinc. apply (ewp_owning me id s0 _ i 0). intros s3 R3.
  pose proof (owns_rely _ _ _ _ _ _ _ R3 Hw2) as Hw3. pose proof (later_rely _ _ _ _ _ _ _ Hw2 R3) as L3.
  split; [split_and!; [apply Hw3|intros; apply erely_refl|by left]|]. cbn [fst snd]. intros s4 R4.
  pose proof (owns_rely _ _ _ _ _ _ _ R4 Hw3) as Hw4. pose proof (later_trans _ _ _ _ _ L3 (later_rely _ _ _ _ _ _ _ Hw3 R4)) as L4.
  assert (free me i s4) as Hf4 by (by eapply later_free). destruct (has_host && _).
  { split_and!; [done|done|]. intros s5 h5 Hw5 _. eapply ewp_ret; [done|]. by intros s6 R6 Hw6. }
  eapply ewp_ret; [done|]. intros s5 R5 Hw5. pose proof (later_trans _ _ _ _ _ L4 (later_rely _ _ _ _ _ _ _ Hw4 R5)) as L5.
  cbn [sequel]. destruct dropped.
  - eapply ewp_release; [done|by eapply later_free|]. intros s6 h6 Hw6 _. eapply ewp_ret; [done|]. by intros s7 R7 Hw7.
  - eapply ewp_ret; [done|]. intros s6 R6 Hw6. split_and!; [done|done|].
    by rewrite (ev_incarnation _ _ (later_evolves _ _ _ _ (later_trans _ _ _ _ _ L5 (later_rely _ _ _ _ _ _ _ Hw5 R6)))).
Qed.

(** What a task needs at the start. *)
Definition ready (s0 : EngWorld) (me : nat) (t : EngineTask) : Prop :=
  (forall j, free me j s0) /\ match t with E_session k _ => entitled has_host me s0 k | E_reserve _ _ _ => True end.

Lemma wp_engine_task me t s0 :
  einv s0 -> ready s0 me t -> ewp t me (engine_task me t) (ret_post (task_post s0 me t)) s0 [].
Proof.
  intros Hi [Hf Hen]. pose proof (owns_start me (task_id t) s0 Hi Hf) as Hw.
  destruct t as [k use|id incarnation dropped]; [|by apply wp_reserve].
  apply wp_bind; [apply erely_refl|]. eapply wp_mono; [|by apply wp_open]. intros o s h Hp.
  destruct o as [[[x|]|e]| | |]; cbn [sequel]; try done.
  - by apply wp_use.
  - eapply ewp_ret; [done|]. by intros s1 R1 Hw1.
  - eapply ewp_ret; [done|]. by intros s1 R1 Hw1.
Qed.

Definition engine_pool (tasks : list EngineTask) : list (@thread EngWorld Query Ans EngineResult * EngEvents) :=
  imap (fun me t => (Live (engine_task me t), [])) tasks.
End Tasks.
