(* ===== verification/EngineTheorems.v ===== *)
(** * What an engine promises

    The engine a builder makes, the sessions of concurrent tasks, and checked loads,
    with the examples they are evaluated at. *)
From S2P Require Import Prelude Ids Json Model Limits PermissionId Context Prog SessionState Operations Sample Lease SessionPool.
From S2P Require Import Engine EngineProofs EnginePool.
Open Scope prog_scope.

(** ** Building *)
Definition add_tools (b : EngineBuilder) (tools : list (ToolSpec * ToolRef)) : EngineBuilder :=
  foldl (fun b t => builder_tool b (fst t) (snd t)) b tools.

Definition tool_name (t : ToolSpec * ToolRef) : ToolName := spec_name (fst t).

(** The tools registered on top of a builder's. *)
Record tools_added (b : EngineBuilder) (tools : list (ToolSpec * ToolRef)) (b' : EngineBuilder) : Prop := {
  ta_same : eb_provider b' = eb_provider b /\ eb_session_store b' = eb_session_store b /\
    eb_permission_handler b' = eb_permission_handler b /\ eb_event_sink b' = eb_event_sink b /\
    eb_limits b' = eb_limits b /\ eb_host_resource b' = eb_host_resource b;
  ta_sorted : bt_wf (eb_tools b');
  ta_duplicate : eb_duplicate_tool b' = None <->
    eb_duplicate_tool b = None /\ NoDup (map tool_name tools) /\
    forall t, t ∈ tools -> bt_get (eb_tools b) (tool_name t) = None;
  ta_tools : NoDup (map tool_name tools) -> (forall t, t ∈ tools -> bt_get (eb_tools b) (tool_name t) = None) ->
    forall name r, bt_get (eb_tools b') name = Some r <->
      bt_get (eb_tools b) name = Some r \/
      exists spec tool, (spec, tool) ∈ tools /\ name = spec_name spec /\
        r = {| registered_spec := spec; registered_tool := tool |};
}.

Lemma add_tools_spec tools b : bt_wf (eb_tools b) -> tools_added b tools (add_tools b tools).
Proof.
  revert b. induction tools as [|[spec tool] tools IH]; intros b Hb; simpl.
  { split; [done|done| |].
    - split; [|tauto]. intros E. split_and!; [done|apply NoDup_nil_2|]. intros t Ht. by apply elem_of_nil in Ht.
    - intros _ _ name r. split; [by left|]. intros [?|(? & ? & Ht & _)]; [done|]. by apply elem_of_nil in Ht. }
  destruct (IH (builder_tool b spec tool)) as [Hs Hw Hd Ht]; [by apply bt_insert_wf|]. simpl in *.
  assert (forall t, bt_get (eb_tools (builder_tool b spec tool)) (tool_name t) = None <->
    spec_name spec <> tool_name t /\ bt_get (eb_tools b) (tool_name t) = None) as Hget.
  { intros t. simpl. rewrite bt_get_insert. case_bool_decide; [by split; [|intros []]|]. split; [by split|by intros [_ ?]]. }
  assert (NoDup (map tool_name ((spec, tool) :: tools)) <->
    (forall t, t ∈ tools -> spec_name spec <> tool_name t) /\ NoDup (map tool_name tools)) as Hn.
  { simpl. rewrite NoDup_cons, list_elem_of_fmap. unfold tool_name at 1. simpl. split.
    - intros [Hn ?]. split; [|done]. intros t Hin E. apply Hn. by exists t.
    - intros [Hn ?]. split; [|done]. intros (t & E & Hin). by apply (Hn t). }
  split; [done|done| |].
  - rewrite Hd, Hn. unfold bt_contains. split.
    + intros (D & N & G). destruct (bt_get (eb_tools b) (spec_name spec)) eqn:Eg; [done|].
      split_and!; [done|intros t Hin; by apply Hget, G|done|].
      intros t [->|Hin]%elem_of_cons; [done|]. by apply Hget, G.
    + intros (D & [N1 N2] & G). pose proof (G (spec, tool) ltac:(by left)) as Gs. unfold tool_name in Gs. simpl in Gs.
      rewrite Gs. split_and!; [done|done|]. intros t Hin. apply Hget. split; [by apply N1|]. apply G. by right.
  - intros [N1 N2]%Hn G name r. rewrite Ht; [|done|intros t Hin; apply Hget; split; [by apply N1|apply G; by right]].
    simpl. rewrite bt_get_insert. pose proof (G (spec, tool) ltac:(by left)) as Gs. unfold tool_name in Gs. simpl in Gs.
    case_bool_decide as Hname; [subst name; rewrite Gs|]; split.
    + intros [[= <-]|(s2 & t2 & Hin & E & ->)]; right; [exists spec, tool|exists s2, t2]; set_solver.
    + intros [?|(s2 & t2 & [[= -> ->]|Hin]%elem_of_cons & E & ->)]; [done|by left|]. right. by exists s2, t2.
    + intros [?|(s2 & t2 & Hin & E & ->)]; [by left|]. right. exists s2, t2. set_solver.
    + intros [?|(s2 & t2 & [[= -> ->]|Hin]%elem_of_cons & E & ->)]; [by left|done|]. right. by exists s2, t2.
Qed.

Section Build.
Context `{JsonWriter}.

(** What [build] makes of a builder, in terms of the limits. *)
Lemma build_spec b e :
  limits_wf (eb_limits b) -> in_memory (map registered_spec (bt_values (eb_tools b))) ->
  build b = Ok e <->
  (nz_get (max_json_depth (eb_limits b)) <= MAX_SAFE_JSON_DEPTH)%N /\ eb_duplicate_tool b = None /\
  eb_provider b = Some (en_provider e) /\ eb_session_store b = Some (session_store (en_inner e)) /\
  eb_permission_handler b = Some (en_permission_handler e) /\
  json_within (map spec_input_schema (tool_specs (en_inner e))) (eb_limits b) /\
  serializes_within (tool_specs (en_inner e)) (nz_get (max_tool_catalog_bytes (eb_limits b))) /\
  en_event_sink e = eb_event_sink b /\ en_host_resource e = eb_host_resource b /\
  engine_tools (en_inner e) = eb_tools b /\ limits (en_inner e) = eb_limits b /\
  tool_specs (en_inner e) = map registered_spec (bt_values (eb_tools b)).
Proof.
  intros Hl Hm. unfold build. set (specs := map registered_spec _) in *.
  rewrite <-(N.ltb_ge MAX_SAFE_JSON_DEPTH). destruct (MAX_SAFE_JSON_DEPTH <? _)%N; [naive_solver|].
  destruct (eb_duplicate_tool b) as [d|]; [naive_solver|].
  destruct (eb_provider b) as [p|]; simpl; [|naive_solver]. destruct (eb_session_store b) as [st|]; simpl; [|naive_solver].
  destruct (eb_permission_handler b) as [ph|]; simpl; [|naive_solver].
  pose proof (validate_json_roots_ok (map spec_input_schema specs) (eb_limits b) Hl) as Hj.
  unfold serializes_within. rewrite serialized_size_closed by done.
  destruct (validate_json_roots _ _) as [[]|v].
  2:{ split; [by destruct v|]. intros (_ & _ & _ & _ & _ & Hw & _ & _ & _ & _ & _ & Hs). rewrite Hs in Hw. by apply Hj in Hw. }
  destruct (N.ltb_spec (nz_get (max_tool_catalog_bytes (eb_limits b))) (chunk_bytes (chunks (serialize specs)))) as [Hx|Hx].
  { split; [done|]. intros (_ & _ & _ & _ & _ & _ & [Hw _] & _ & _ & _ & _ & Hs). rewrite Hs in Hw. lia. }
  destruct (ser_error (serialize specs)) as [text|] eqn:Es.
  { split; [done|]. intros (_ & _ & _ & _ & _ & _ & [_ Hw] & _ & _ & _ & _ & Hs). rewrite Hs in Hw. congruence. }
  split.
  - intros [= <-]. simpl. split_and!; try done. by apply Hj.
  - destruct e as [ep eh es er [ei et esp el]]. simpl.
    intros (_ & _ & [= ->] & [= ->] & [= ->] & _ & _ & -> & -> & -> & -> & ->). done.
Qed.

(** The engine of a builder. A build succeeds exactly when the depth limit is safe,
    no two tools share a name, the three required components are given, and the
    schemas and the serialized catalog fit their limits; the engine then has exactly
    the registered tools, each under its own name, and advertises their
    specifications in the order of the names. *)
Theorem build_exact b tools e :
  eb_tools b = [] -> eb_duplicate_tool b = None -> limits_wf (eb_limits b) ->
  in_memory (map registered_spec (bt_values (eb_tools (add_tools b tools)))) ->
  build (add_tools b tools) = Ok e <->
  ((nz_get (max_json_depth (eb_limits b)) <= 64)%N /\ NoDup (map tool_name tools) /\
   eb_provider b = Some (en_provider e) /\ eb_session_store b = Some (session_store (en_inner e)) /\
   eb_permission_handler b = Some (en_permission_handler e)) /\
  (json_within (map spec_input_schema (tool_specs (en_inner e))) (eb_limits b) /\
   serializes_within (tool_specs (en_inner e)) (nz_get (max_tool_catalog_bytes (eb_limits b)))) /\
  (en_event_sink e = eb_event_sink b /\ en_host_resource e = eb_host_resource b /\ limits (en_inner e) = eb_limits b) /\
  bt_wf (engine_tools (en_inner e)) /\
  (forall name r, bt_get (engine_tools (en_inner e)) name = Some r <->
     exists spec tool, (spec, tool) ∈ tools /\ name = spec_name spec /\
       r = {| registered_spec := spec; registered_tool := tool |}) /\
  tool_specs (en_inner e) = map registered_spec (bt_values (engine_tools (en_inner e))).
Proof.
  intros Hb Hn Hl Hm. destruct (add_tools_spec tools b) as [(S1 & S2 & S3 & S4 & S5 & S6) Hw Hd Ht]; [by rewrite Hb; constructor|].
  rewrite build_spec by (rewrite ?S5; done). rewrite S1, S2, S3, S4, S5, S6, Hd. rewrite Hb in Ht |- *. unfold MAX_SAFE_JSON_DEPTH.
  split.
  - intros (A1 & (_ & A2 & _) & A3 & A4 & A5 & A6 & A7 & A8 & A9 & A10 & A11 & A12). rewrite A10 in *. split_and!; try done.
    intros name r. rewrite Ht by done. split; [by intros [?|?]|by right].
  - intros ((A1 & A2 & A3 & A4 & A5) & (A6 & A7) & (A8 & A9 & A11) & B1 & B2 & B3).
    assert (engine_tools (en_inner e) = eb_tools (add_tools b tools)) as Heq.
    { apply bt_ext; [done|done|]. intros name. apply option_eq. intros r. rewrite B2, Ht by done.
      split; [by right|by intros [?|?]]. }
    rewrite B3, Heq in *. split_and!; try done.
Qed.
End Build.

(** ** Concurrent use of an engine *)
Definition engine_pool_allowed `{JsonWriter} engine (tasks : list EngineTask) (i : nat)
    (e : event EngWorld Query Ans) (h : EngEvents) : Prop :=
  match tasks !! i with Some t => eng_allowed (task_reg engine t) i e h | None => False end.

Definition engine_pool_post `{JsonWriter} sha256 engine has_host (s0 : EngWorld) (tasks : list EngineTask) (i : nat)
    (o : outcome EngineResult) (s : EngWorld) (h : EngEvents) : Prop :=
  match tasks !! i with Some t => ret_post (task_post sha256 engine has_host s0 i t) o s h | None => False end.

Lemma engine_pool_compatible `{JsonWriter} engine tasks i j s s' h :
  i <> j ->
  engine_pool_allowed engine tasks i (EvAct s s') h \/ engine_pool_allowed engine tasks i (EvDrop s s') h -> erely j s s'.
Proof.
  intros Hij. unfold engine_pool_allowed. destruct (tasks !! i); [|by intros [|]].
  intros [(_ & Hr & _)|(_ & Hr & _)]; by apply Hr, not_eq_sym.
Qed.

Section Pool.
Context `{JsonWriter}.
Context (sha256 : string -> string) (engine : EngineInner) (has_host : bool) (tasks : list EngineTask) (s0 : EngWorld).
Context (Hinv : einv s0) (Hready : forall i t, tasks !! i = Some t -> ready has_host s0 i t).
Context (c : list (@thread EngWorld Query Ans EngineResult * EngEvents) * EngWorld).
Context (Hrun : rtc (pool_step (fun _ => any_reply)) (engine_pool sha256 engine has_host tasks, s0) c).

Lemma engine_pool_start :
  pool_ok erely (fun _ => any_reply) (engine_pool_allowed engine tasks) (engine_pool_post sha256 engine has_host s0 tasks)
    (engine_pool sha256 engine has_host tasks) s0.
Proof.
  intros i [th h] Hth. unfold engine_pool in Hth. rewrite list_lookup_imap in Hth.
  apply fmap_Some in Hth as (t & Ht & [= -> ->]). split; [|done].
  pose proof (wp_engine_task sha256 engine has_host i t s0 Hinv (Hready i t Ht)) as Hw.
  unfold engine_pool_allowed, engine_pool_post. simpl. by rewrite Ht.
Qed.

Lemma engine_pool_step : einv (snd c) /\ estep (length tasks) s0 (snd c).
Proof.
  apply (pool_rely erely (fun _ => any_reply) (engine_pool_allowed engine tasks) (engine_pool_post sha256 engine has_host s0 tasks)
    erely_refl erely_trans (engine_pool_compatible engine tasks) _ _ _ Hrun engine_pool_start); [|done].
  unfold engine_pool. simpl. by rewrite length_imap.
Qed.

Lemma engine_pool_task i t th h :
  tasks !! i = Some t -> fst c !! i = Some (th, h) ->
  all_allowed (eng_allowed (task_reg engine t) i) h /\
  forall r, th = Live (Ret r) -> task_post sha256 engine has_host s0 i t r (snd c) h.
Proof.
  intros Ht Hth. pose proof (pool_sound erely (fun _ => any_reply) (engine_pool_allowed engine tasks)
    (engine_pool_post sha256 engine has_host s0 tasks) erely_refl erely_trans (engine_pool_compatible engine tasks) _ _ Hrun
    engine_pool_start _ _ Hth) as [Hw Ha].
  unfold engine_pool_allowed, engine_pool_post in *. simpl in *. rewrite Ht in *. split; [done|].
  intros r ->. apply (Hw _ (erely_refl i _)).
Qed.
End Pool.

(** C6. Concurrent tasks of one engine. In every interleaving of tasks that create,
    reserve and load sessions, run whole session operations on them and drop them,
    with every store behaviour and any futures dropped: two live states of one
    identifier are the same state, and it is the registered one; each task registers
    only records it may, and acts on the sessions of other tasks only as those rely
    on; a task that returned a session holds the live state of its identifier, which
    reflects what it opened and what it ran there; a task that returned an error or
    dropped its session retains nothing. *)
Theorem engine_sessions_canonical `{JsonWriter} sha256 engine has_host tasks s0 c :
  einv s0 -> (forall i t, tasks !! i = Some t -> ready has_host s0 i t) ->
  rtc (pool_step (fun _ => any_reply)) (engine_pool sha256 engine has_host tasks, s0) c ->
  einv (snd c) /\
  (forall i j, cell_owners (g_cell (snd c) i) <> [] -> cell_owners (g_cell (snd c) j) <> [] ->
     cell_id (g_cell (snd c) i) = cell_id (g_cell (snd c) j) -> i = j) /\
  forall i t th h, tasks !! i = Some t -> fst c !! i = Some (th, h) ->
    all_allowed (eng_allowed (task_reg engine t) i) h /\
    forall r, th = Live (Ret r) -> task_post sha256 engine has_host s0 i t r (snd c) h.
Proof.
  intros Hi Hr Hrun. destruct (engine_pool_step sha256 engine has_host tasks s0 Hi Hr c Hrun) as [Hi' _].
  split_and!; [done| |intros i t th h; by apply engine_pool_task].
  intros i j Li Lj E. destruct (ei_live _ Hi' i Li) as [_ G1]. destruct (ei_live _ Hi' j Lj) as [_ G2].
  rewrite E, G2 in G1. by injection G1.
Qed.

(** A closed host stays closed: once no engine and no session holds the host
    resource, no operation of a requester returns a session, under any
    interleaving, and the resource is never held again. *)
Theorem closed_host_final `{JsonWriter} sha256 engine tasks s0 c i k use x used h :
  einv s0 -> (forall i t, tasks !! i = Some t -> ready true s0 i t) -> g_host s0 = [] ->
  rtc (pool_step (fun _ => any_reply)) (engine_pool sha256 engine true tasks, s0) c ->
  g_host (snd c) = [] /\
  (tasks !! i = Some (E_session k use) ->
   ~ fst c !! i = Some (Live (Ret (ER_session (Ok (Some (x, used))))), h)).
Proof.
  intros Hi Hr Hc Hrun. destruct (engine_pool_step sha256 engine true tasks s0 Hi Hr c Hrun) as [_ E].
  pose proof (es_closed _ _ _ E Hc) as Hc'. split; [done|]. intros Ht Hth.
  destruct (engine_pool_task sha256 engine true tasks s0 Hi Hr c Hrun i _ _ _ Ht Hth) as [_ Hp].
  destruct (Hp _ eq_refl) as (Hw & Hh & _). pose proof (ow_host _ _ _ _ _ _ Hw) as Hb.
  rewrite Hh, Hc', Hc in Hb. simpl in Hb. lia.
Qed.

(** Loads are checked. Whatever the store answers and other tasks do: a load
    registers a state only for a record the store returned for the identifier, with
    that identifier, a positive revision and turn sequence, within the engine's
    limits, and of exactly the incarnation and revision asked for; a returned
    session is the live one of the identifier, of the loaded incarnation, and
    reflects the loaded record; every other end of the load retains neither a
    session nor the host. *)
Theorem load_session_checked `{JsonWriter} engine has_host me id expected access s0 o s h :
  einv s0 -> (forall j, free me j s0) ->
  exec (erely me) any_reply (load_session_guarded_with_access engine has_host me id expected access) s0 [] o s h ->
  all_allowed (eng_allowed (open_reg engine (O_load id expected access)) me) h /\
  open_post engine has_host me s0 (O_load id expected access) o s h.
Proof.
  intros Hi Hf He. pose proof (wp_open engine has_host me s0 (O_load id expected access) Hi Hf I) as Hw. split.
  - exact (wp_exec_allowed (erely me) any_reply _ (erely_refl me) (erely_trans me) _ _ _ _ _ _ _ He Hw I).
  - exact (wp_exec (erely me) any_reply _ (erely_refl me) (erely_trans me) _ _ _ _ _ _ _ He Hw).
Qed.

(** ** Examples *)
Definition sample_spec (name : string) : ToolSpec :=
  {| spec_name := name; spec_description := ""; spec_input_schema := VObject [] |}.
Definition sample_builder : EngineBuilder :=
  builder_permission_handler (builder_session_store (builder_provider EngineBuilder_new 1) 7) 2.
Definition sample_tools : list (ToolSpec * ToolRef) := [(sample_spec "read", 4%N); (sample_spec "list", 3%N)].
Definition sample_built : Engine :=
  {| en_provider := 1; en_permission_handler := 2; en_event_sink := None; en_host_resource := None;
     en_inner := {| session_store := 7;
                    engine_tools := [("list", {| registered_spec := sample_spec "list"; registered_tool := 3%N |});
                                     ("read", {| registered_spec := sample_spec "read"; registered_tool := 4%N |})];
                    tool_specs := [sample_spec "list"; sample_spec "read"]; limits := EngineLimits_default |} |}.

Lemma build_exact_witness :
  build (add_tools sample_builder sample_tools) = Ok sample_built /\
  bt_get (engine_tools (en_inner sample_built)) "read" = Some {| registered_spec := sample_spec "read"; registered_tool := 4%N |}.
Proof.
  assert (build (add_tools sample_builder sample_tools) = Ok sample_built) as Hb by (vm_compute; reflexivity).
  split; [exact Hb|]. apply (build_exact sample_builder sample_tools sample_built) in Hb.
  - destruct Hb as (_ & _ & _ & _ & Hget & _). apply Hget. exists (sample_spec "read"), 4%N.
    split; [by left|done].
  - done.
  - done.
  - split; vm_compute; discriminate.
  - vm_compute. discriminate.
Defined.

(** An engine with one stored session, which some other holder keeps alive. *)
Definition no_cell : StateCell :=
  {| cell_id := ""; cell_world := world_of (SessionRecord_empty "" "") false; cell_owners := [] |}.
Definition sample_eng : EngWorld :=
  {| g_entries := [("session", 0)];
     g_cell := upd 0 {| cell_id := "session"; cell_world := sample_world; cell_owners := [9] |} (fun _ => no_cell);
     g_fresh := 1; g_host := [9] |}.

Lemma sample_eng_inv : einv sample_eng.
Proof.
  split.
  - repeat constructor.
  - intros id i. simpl. case_bool_decide; [|done]. intros [= <-]. split; [lia|done].
  - intros i. destruct i as [|i]; [|done]. intros _. split; [simpl; lia|done].
  - intros i Hi. simpl in Hi. assert (i = 0) as -> by lia. by repeat split.
  - intros i Hi. destruct i as [|i]; [simpl in Hi; lia|done].
Qed.

Lemma sample_eng_free me j : free me j sample_eng.
Proof. unfold free. by destruct j. Qed.

(** A guarded load that edits the session, two ways to share it, a session that is
    dropped again, and a reservation of another incarnation. *)
Definition sharing_tasks : list EngineTask :=
  [E_session (O_load "session" (Some ("incarnation", 4%N)) None) (U_run (T_update 4%N [("title", VString "a")] None));
   E_session (O_requester "session" "incarnation") U_keep;
   E_session (O_requester "other" "first") U_drop;
   E_reserve "session" "second" false].
Definition sharing_order : list nat := replicate 12 0 ++ [1; 1; 2; 3; 1; 3; 2] ++ replicate 40 0 ++ replicate 12 1 ++ replicate 12 2 ++ replicate 12 3.
Notation shared := (run_pool sample_answer sharing_order (engine_pool prefix_digest sample_engine true sharing_tasks, sample_eng)).

Lemma engine_sessions_canonical_witness :
  (rec_revision (canonical (view (snd shared) 0)) = 5%N /\ cell_owners (g_cell (snd shared) 0) = [1; 0; 9] /\
   g_entries (snd shared) = [("session", 0)]) /\ einv (snd shared).
Proof.
  split; [vm_compute; repeat split|].
  refine (proj1 (engine_sessions_canonical prefix_digest sample_engine true sharing_tasks sample_eng shared _ _ _)).
  - exact sample_eng_inv.
  - intros i t Ht. split; [apply sample_eng_free|].
    destruct i as [|[|[|[|i]]]]; simpl in Ht; [injection Ht as <-; exact I..|done].
  - by apply run_pool_steps.
Defined.

Definition closed_eng : EngWorld := set_host sample_eng [].
Lemma closed_eng_inv : einv closed_eng.
Proof. apply (erely_host 1 sample_eng []); [done|done|exact sample_eng_inv]. Qed.

Definition late_tasks : list EngineTask :=
  [E_session (O_requester "session" "incarnation") U_keep; E_session (O_load "session" None None) U_keep].
Notation late := (run_pool sample_answer (replicate 12 0 ++ replicate 12 1)
  (engine_pool prefix_digest sample_engine true late_tasks, closed_eng)).

Lemma closed_host_final_witness :
  fst <$> fst late !! 1 = Some (Live (Ret (ER_session (Err HostClosed)))) /\ g_host (snd late) = [].
Proof.
  split; [vm_compute; reflexivity|].
  refine (proj1 (closed_host_final prefix_digest sample_engine late_tasks closed_eng late
    0 (O_requester "session" "incarnation") U_keep {| session_ptr := 0; session_host := true |} None [] _ _ _ _)).
  - exact closed_eng_inv.
  - intros i t Ht. split; [intros j; by destruct j|]. destruct i as [|[|i]]; simpl in Ht; [injection Ht as <-; exact I..|done].
  - done.
  - by apply run_pool_steps.
Defined.

Definition eng_schedule : schedule EngWorld Query Ans :=
  {| sch_env := fun _ s => s; sch_answer := fun _ q => sample_answer q; sch_drop := fun _ => false |}.
Notation loaded := (run eng_schedule 0
  (load_session_guarded_with_access sample_engine true 3 "session" (Some ("incarnation", 4%N)) None) sample_eng []).

Lemma load_session_checked_witness :
  fst (fst loaded) = Returned (Ok (Some {| session_ptr := 0; session_host := true |})) /\
  open_post sample_engine true 3 sample_eng (O_load "session" (Some ("incarnation", 4%N)) None)
    (fst (fst loaded)) (snd (fst loaded)) (snd loaded).
Proof.
  split; [vm_compute; reflexivity|].
  apply (load_session_checked sample_engine true 3 "session" (Some ("incarnation", 4%N)) None sample_eng).
  - exact sample_eng_inv.
  - intros j. apply sample_eng_free.
  - apply run_exec; [intros; apply erely_refl|done].
Defined.
