(* ===== verification/Terminal.v ===== *)
(** * Terminal contracts ([terminal.rs])

    The effect-free vocabulary of terminal sessions: identifiers, cursors, attention
    and leases, writes, waits, monitors and rendered screens, each with the validator
    that its constructors and its decoder run. The validators of screens and of
    hyperlink tables are proved against what they mean. *)
From S2P Require Import Prelude.

Inductive TerminalContractError := Contract_error.
Notation checked := (result unit TerminalContractError).

Definition contract (valid : bool) : checked := if valid then Ok tt else Err Contract_error.

Definition nul (c : ascii) : bool := (N_of_ascii c =? 0)%N.

Definition text (value : string) (maximum : N) : checked :=
  contract (negb (bool_decide (value = "")) && (str_len value <=? maximum)%N && negb (bytes_any nul value)).

Definition in_range (low high n : N) : bool := (low <=? n)%N && (n <=? high)%N.

(** ** Bounds *)
Definition MAX_TERMINAL_ID_BYTES : N := 255.
Definition MAX_TERMINAL_MONITOR_ID_BYTES : N := 128.
Definition MAX_TERMINAL_WRITE_BYTES : N := 65536.
Definition MAX_TERMINAL_WRITE_ITEMS : N := 4096.
Definition MAX_TERMINAL_MONITOR_PATTERN_BYTES : N := 256.
Definition MAX_TERMINAL_SCREEN_CELLS : N := 262144.
Definition MAX_TERMINAL_SCREEN_TEXT_BYTES : N := 8388608.
Definition MAX_TERMINAL_HYPERLINKS : N := 65535.
Definition MAX_TERMINAL_HYPERLINK_BYTES : N := 4194304.
Definition MAX_DAY_MS : N := 86400000.
Definition MAX_YEAR_MS : N := 365 * MAX_DAY_MS.
Definition I64_MAX : N := 9223372036854775807.

(** ** Sequences *)
(** The visitor of [bounded_vec]: [elements] are the results of [next_element]. *)
Fixpoint bounded_visit {T} (limit : N) (elements : list (result T TerminalContractError)) (values : list T)
    : result (list T) TerminalContractError :=
  match elements with
  | [] => Ok values
  | Err e :: _ => Err e
  | Ok value :: elements =>
      fail_if (vec_len values =? limit)%N with Contract_error in
      bounded_visit limit elements (values ++ [value])
  end.
Definition bounded_vec {T} (limit : N) (elements : list (result T TerminalContractError))
    : result (list T) TerminalContractError :=
  bounded_visit limit elements [].

(** ** Identifiers *)
Definition terminal_id_byte (c : ascii) : bool :=
  is_ascii_alphanumeric c || bool_decide (c ∈ ["-"%char; "_"%char; "."%char]).

Definition TerminalSessionId := string.
Definition TerminalSessionId_new (value : string) : result TerminalSessionId TerminalContractError :=
  let? _ := contract (negb (bool_decide (value = "")) && (str_len value <=? MAX_TERMINAL_ID_BYTES)%N &&
    (negb (bool_decide (value = ".")) && negb (bool_decide (value = "..")) && bytes_all terminal_id_byte value)) in
  Ok value.

Definition TerminalMonitorId := string.
Definition TerminalMonitorId_new (value : string) : result TerminalMonitorId TerminalContractError :=
  let? _ := contract (negb (bool_decide (value = "")) && (str_len value <=? MAX_TERMINAL_MONITOR_ID_BYTES)%N &&
    negb (bytes_any nul value)) in
  Ok value.

(** ** Dimensions, cursors and gaps *)
Record TerminalDimensions := { dim_rows : N; dim_columns : N }.
Definition dimensions_validate (d : TerminalDimensions) : checked :=
  contract ((0 <? dim_rows d)%N && (0 <? dim_columns d)%N && (dim_rows d <=? 4096)%N && (dim_columns d <=? 4096)%N &&
           (dim_rows d * dim_columns d <=? MAX_TERMINAL_SCREEN_CELLS)%N).
Definition TerminalDimensions_new (rows columns : N) : result TerminalDimensions TerminalContractError :=
  let value := {| dim_rows := rows; dim_columns := columns |} in
  let? _ := dimensions_validate value in
  Ok value.

Record TerminalCursor := { cur_segment : N; cur_offset : N }.
Definition cursor_validate (c : TerminalCursor) : checked := contract (negb (cur_segment c =? 0)%N).
Definition TerminalCursor_new (segment offset : N) : result TerminalCursor TerminalContractError :=
  let value := {| cur_segment := segment; cur_offset := offset |} in
  let? _ := cursor_validate value in
  Ok value.

(** [Ord for TerminalCursor]: lexicographic. *)
Definition cursor_cmp (a b : TerminalCursor) : comparison :=
  match (cur_segment a ?= cur_segment b)%N with
  | Eq => (cur_offset a ?= cur_offset b)%N
  | c => c
  end.
Definition cursor_ltb (a b : TerminalCursor) : bool := match cursor_cmp a b with Lt => true | _ => false end.
Definition cursor_leb (a b : TerminalCursor) : bool := match cursor_cmp a b with Gt => false | _ => true end.

Record TerminalGap := { missing_from : TerminalCursor; available_from : TerminalCursor }.
Definition gap_validate (g : TerminalGap) : checked :=
  let? _ := cursor_validate (missing_from g) in
  let? _ := cursor_validate (available_from g) in
  contract (cursor_ltb (missing_from g) (available_from g)).
Definition TerminalGap_new (missing available : TerminalCursor) : result TerminalGap TerminalContractError :=
  let value := {| missing_from := missing; available_from := available |} in
  let? _ := gap_validate value in
  Ok value.

(** ** Attention *)
Inductive TerminalLifecycle := L_Starting | L_Running | L_Exited | L_Lost | L_Closed.
Inductive TerminalBackend := B_Native | B_Tmux.
Inductive TerminalProfile := P_User | P_Clean.
Inductive TerminalAttention := A_Background | A_AgentWait | A_UserTakeover.
Inductive TerminalActorRole := Actor_Human | Actor_Agent.
Inductive TerminalWriteLease := Lease_None | Lease_Human | Lease_Agent.
#[export] Instance TerminalBackend_eq_dec : EqDecision TerminalBackend.
Proof. solve_decision. Defined.
#[export] Instance TerminalAttention_eq_dec : EqDecision TerminalAttention.
Proof. solve_decision. Defined.
#[export] Instance TerminalWriteLease_eq_dec : EqDecision TerminalWriteLease.
Proof. solve_decision. Defined.

Record TerminalAttentionState := { attention : TerminalAttention; write_lease : TerminalWriteLease }.
Definition TerminalAttentionState_default : TerminalAttentionState :=
  {| attention := A_Background; write_lease := Lease_None |}.
Definition attention_validate (a : TerminalAttentionState) : checked :=
  contract (eqb (bool_decide (attention a = A_UserTakeover)) (bool_decide (write_lease a = Lease_Human))).
Definition TerminalAttentionState_new (attention : TerminalAttention) (lease : TerminalWriteLease)
    : result TerminalAttentionState TerminalContractError :=
  let value := {| attention := attention; write_lease := lease |} in
  let? _ := attention_validate value in
  Ok value.

Definition attention_cancel (self : TerminalAttentionState) (actor : TerminalActorRole) : TerminalAttentionState :=
  match actor with
  | Actor_Human =>
      {| attention := if decide (attention self = A_UserTakeover) then A_Background else attention self;
         write_lease := if decide (write_lease self = Lease_Human) then Lease_None else write_lease self |}
  | Actor_Agent =>
      {| attention := if decide (attention self = A_AgentWait) then A_Background else attention self;
         write_lease := if decide (write_lease self = Lease_Agent) then Lease_None else write_lease self |}
  end.

(** ** Writes and waits *)
Inductive TerminalWriteLeaseIntent := Intent_Acquire | Intent_Use | Intent_Release | Intent_Revoke.
Inductive TerminalSignal := Sig_Hangup | Sig_Interrupt | Sig_Quit | Sig_Terminate | Sig_Kill.
Inductive TerminalClosePolicy := Close_Graceful | Close_Force.
Inductive TerminalNamedKey :=
| Key_Enter | Key_Tab | Key_Escape | Key_Backspace | Key_Delete | Key_Insert | Key_ArrowUp | Key_ArrowDown
| Key_ArrowLeft | Key_ArrowRight | Key_Home | Key_End | Key_PageUp | Key_PageDown.
#[export] Instance TerminalWriteLeaseIntent_eq_dec : EqDecision TerminalWriteLeaseIntent.
Proof. solve_decision. Defined.
#[export] Instance TerminalSignal_eq_dec : EqDecision TerminalSignal.
Proof. solve_decision. Defined.
#[export] Instance TerminalClosePolicy_eq_dec : EqDecision TerminalClosePolicy.
Proof. solve_decision. Defined.

Inductive TerminalWritePayload :=
| Payload_Text (text : string)
| Payload_Paste (text : string)
| Payload_Keys (keys : list TerminalNamedKey)
| Payload_Controls (controls : list ascii).

(** [b'@'..=b'_'], a lower-case letter, or [?] *)
Definition control_byte (c : ascii) : bool :=
  let n := N_of_ascii c in in_range 64 95 n || in_range 97 122 n || (n =? 63)%N.

Definition payload_validate (p : TerminalWritePayload) : checked :=
  match p with
  | Payload_Text text | Payload_Paste text =>
      contract (negb (bool_decide (text = "")) && (str_len text <=? MAX_TERMINAL_WRITE_BYTES)%N)
  | Payload_Keys keys => contract (in_range 1 MAX_TERMINAL_WRITE_ITEMS (vec_len keys))
  | Payload_Controls controls =>
      contract (in_range 1 MAX_TERMINAL_WRITE_ITEMS (vec_len controls) && forallb control_byte controls)
  end.

Record TerminalWriteRequest := { wr_lease : TerminalWriteLeaseIntent; wr_payload : option TerminalWritePayload }.
Definition write_validate (r : TerminalWriteRequest) : checked :=
  let? _ := contract (eqb (bool_decide (wr_lease r = Intent_Use)) (bool_decide (is_Some (wr_payload r)))) in
  match wr_payload r with Some payload => payload_validate payload | None => Ok tt end.

Inductive TerminalReturnCondition :=
| Return_Started
| Return_Exit
| Return_Quiet (duration_ms : N)
| Return_Match (pattern : string).
Definition return_validate (c : TerminalReturnCondition) : checked :=
  match c with
  | Return_Started | Return_Exit => Ok tt
  | Return_Quiet duration_ms => contract (0 <? duration_ms)%N
  | Return_Match pattern => text pattern 4096
  end.

Record TerminalWaitRequest := { wait_condition : TerminalReturnCondition; safety_ceiling_ms : N }.
Definition wait_validate (r : TerminalWaitRequest) : checked :=
  let? _ := return_validate (wait_condition r) in
  contract ((0 <? safety_ceiling_ms r)%N && (safety_ceiling_ms r <=? I64_MAX)%N).

(** ** Monitors *)
Inductive TerminalMonitorCondition :=
| Mon_ProcessExit
| Mon_ExitCode (exit_code : Z)
| Mon_Signal (signal : TerminalSignal)
| Mon_OutputContains (pattern : string)
| Mon_OutputMatches (pattern : string)
| Mon_OutputQuiet (duration_ms : N)
| Mon_ScreenMatches (pattern : string)
| Mon_TcpReady (host : string) (port : N)
| Mon_HttpReady (url : string)
| Mon_PathExists (path : string)
| Mon_PathChanged (path : string)
| Mon_PathSize (path : string) (minimum_bytes : N)
| Mon_CustomProbe (command cwd : string).

Definition requires_polling (c : TerminalMonitorCondition) : bool :=
  match c with
  | Mon_TcpReady _ _ | Mon_HttpReady _ | Mon_PathExists _ | Mon_PathChanged _ | Mon_PathSize _ _
  | Mon_CustomProbe _ _ => true
  | _ => false
  end.

Definition condition_validate (c : TerminalMonitorCondition) : checked :=
  match c with
  | Mon_ProcessExit | Mon_Signal _ => Ok tt
  | Mon_ExitCode exit_code => contract ((0 <=? exit_code)%Z && (exit_code <=? 255)%Z)
  | Mon_OutputContains pattern | Mon_OutputMatches pattern | Mon_ScreenMatches pattern =>
      text pattern MAX_TERMINAL_MONITOR_PATTERN_BYTES
  | Mon_OutputQuiet duration_ms => contract ((0 <? duration_ms)%N && (duration_ms <=? MAX_DAY_MS)%N)
  | Mon_TcpReady host port =>
      let? _ := text host 4096 in
      contract (negb (port =? 0)%N)
  | Mon_HttpReady url => text url 4096
  | Mon_PathExists path | Mon_PathChanged path | Mon_PathSize path _ => text path 4096
  | Mon_CustomProbe command cwd =>
      let? _ := text command 65536 in
      text cwd 4096
  end.

Record TerminalSchedule := { interval_ms : N }.
Definition schedule_validate (s : TerminalSchedule) : checked := contract (in_range 10 MAX_DAY_MS (interval_ms s)).

Inductive TerminalNotifySchedule :=
| Notify_OnMatch
| Notify_OnStateChange
| Notify_OnExit
| Notify_EveryCheck
| Notify_EveryNChecks (count : N)
| Notify_Interval (interval : N).
Definition notify_validate (n : TerminalNotifySchedule) : checked :=
  match n with
  | Notify_EveryNChecks count => contract (0 <? count)%N
  | Notify_Interval interval => schedule_validate {| interval_ms := interval |}
  | _ => Ok tt
  end.

Inductive TerminalMonitorLifetime := Life_UntilMatch | Life_UntilSessionEnd | Life_Duration (duration_ms : N).
Definition lifetime_validate (l : TerminalMonitorLifetime) : checked :=
  match l with
  | Life_Duration duration_ms => contract (in_range 1 MAX_YEAR_MS duration_ms)
  | _ => Ok tt
  end.

Record TerminalMonitorDefinition := {
  md_condition : TerminalMonitorCondition;
  md_check_schedule : option TerminalSchedule;
  md_notify : TerminalNotifySchedule;
  md_lifetime : TerminalMonitorLifetime;
}.
Definition definition_validate (d : TerminalMonitorDefinition) : checked :=
  let? _ := condition_validate (md_condition d) in
  let? _ := notify_validate (md_notify d) in
  let? _ := lifetime_validate (md_lifetime d) in
  let? _ := contract (eqb (requires_polling (md_condition d)) (bool_decide (is_Some (md_check_schedule d)))) in
  match md_check_schedule d with Some schedule => schedule_validate schedule | None => Ok tt end.

Inductive TerminalMonitorOperation :=
| Monitor_Add (definition : TerminalMonitorDefinition)
| Monitor_Update (monitor_id : TerminalMonitorId) (definition : TerminalMonitorDefinition)
| Monitor_Pause (monitor_id : TerminalMonitorId)
| Monitor_Resume (monitor_id : TerminalMonitorId)
| Monitor_Remove (monitor_id : TerminalMonitorId).
Definition operation_validate (o : TerminalMonitorOperation) : checked :=
  match o with
  | Monitor_Add definition | Monitor_Update _ definition => definition_validate definition
  | _ => Ok tt
  end.

Inductive TerminalMonitorState := State_Active | State_Paused | State_Matched | State_Degraded.
Inductive TerminalMonitorEventReason :=
| Reason_Matched | Reason_StateChanged | Reason_SessionExit | Reason_Check | Reason_Interval | Reason_Expired
| Reason_Removed | Reason_Paused | Reason_Resumed | Reason_Updated.

Record TerminalMonitorEvent := {
  ev_event_id : N;
  ev_monitor_id : TerminalMonitorId;
  ev_reason : TerminalMonitorEventReason;
  ev_lifecycle : TerminalLifecycle;
  ev_cursor : TerminalCursor;
  ev_created_at_ms : Z;
}.
Definition monitor_event_validate (e : TerminalMonitorEvent) : checked :=
  let? _ := contract (0 <? ev_event_id e)%N in
  cursor_validate (ev_cursor e).

Record TerminalEventQuery := { after_event_id : N; acknowledge_event_id : option N; max_events : N }.
Definition query_validate (q : TerminalEventQuery) : checked :=
  contract (in_range 1 256 (max_events q) && negb (bool_decide (acknowledge_event_id q = Some 0%N))).

(** ** Screens *)
Inductive TerminalCursorShape := Shape_Block | Shape_Underline | Shape_Bar.
Inductive TerminalCellKind := Cell_Blank | Cell_Single | Cell_Wide | Cell_Continuation.
#[export] Instance TerminalCellKind_eq_dec : EqDecision TerminalCellKind.
Proof. solve_decision. Defined.
Inductive TerminalScreenUnavailableReason :=
| Unavail_Missing | Unavail_Corrupt | Unavail_UnsupportedSchema | Unavail_RetentionEvicted | Unavail_RawGap | Unavail_ResizeUncheckpointed.

Inductive TerminalColor := Color_Default | Color_Indexed (index : N) | Color_Rgb (red green blue : N).
Definition color_validate (c : TerminalColor) : checked := Ok tt.

Record TerminalScreenCursor := {
  sc_row : N;
  sc_column : N;
  sc_visible : bool;
  sc_shape : TerminalCursorShape;
  sc_blinking : bool;
}.
Definition screen_cursor_validate (c : TerminalScreenCursor) : checked :=
  contract ((sc_row c <? 4096)%N && (sc_column c <? 4096)%N).

Record TerminalModes := {
  alternate_screen : bool; origin : bool; autowrap : bool; insert_mode : bool; bracketed_paste : bool;
  mouse_tracking : bool; focus_tracking : bool; application_cursor_keys : bool; application_keypad : bool;
  keyboard_protocol : bool; synchronized_updates : bool;
}.
Definition modes_validate (m : TerminalModes) : checked := Ok tt.
Definition TerminalModes_default : TerminalModes :=
  {| alternate_screen := false; origin := false; autowrap := true; insert_mode := false; bracketed_paste := false;
     mouse_tracking := false; focus_tracking := false; application_cursor_keys := false; application_keypad := false;
     keyboard_protocol := false; synchronized_updates := false |}.

Record TerminalCellStyle := {
  foreground : TerminalColor; background : TerminalColor;
  bold : bool; faint : bool; italic : bool; underline : bool; inverse : bool; strikethrough : bool;
}.
Definition style_validate (s : TerminalCellStyle) : checked :=
  let? _ := color_validate (foreground s) in
  color_validate (background s).
Definition TerminalCellStyle_default : TerminalCellStyle :=
  {| foreground := Color_Default; background := Color_Default; bold := false; faint := false; italic := false;
     underline := false; inverse := false; strikethrough := false |}.

Record TerminalCell := {
  cell_kind : TerminalCellKind;
  cell_text : string;
  cell_style : TerminalCellStyle;
  cell_hyperlink_id : option N;
}.
Definition cell_validate (c : TerminalCell) : checked :=
  let? _ := style_validate (cell_style c) in
  let? _ := contract (negb (bool_decide (cell_hyperlink_id c = Some 0%N))) in
  contract ((str_len (cell_text c) <=? 64)%N &&
           match cell_kind c with
           | Cell_Blank | Cell_Continuation => bool_decide (cell_text c = "")
           | _ => negb (bool_decide (cell_text c = ""))
           end).

(** [uri] is a [Vec<u8>]. *)
Record TerminalHyperlink := { link_id : N; link_uri : list ascii }.
Definition hyperlink_validate (h : TerminalHyperlink) : checked :=
  let? _ := contract (negb (link_id h =? 0)%N) in
  contract (negb (bool_decide (link_uri h = [])) && (vec_len (link_uri h) <=? 4096)%N).

(** The visitor of [hyperlink_table]. *)
Fixpoint table_visit (elements : list (result TerminalHyperlink TerminalContractError)) (values : list TerminalHyperlink)
    (bytes previous_id : N) : result (list TerminalHyperlink) TerminalContractError :=
  match elements with
  | [] => Ok values
  | Err e :: _ => Err e
  | Ok value :: elements =>
      let? bytes := ok_or Contract_error (checked_add bytes (vec_len (link_uri value))) in
      fail_if (vec_len values =? MAX_TERMINAL_HYPERLINKS)%N || (MAX_TERMINAL_HYPERLINK_BYTES <? bytes)%N ||
              (link_id value <=? previous_id)%N with Contract_error in
      table_visit elements (values ++ [value]) bytes (link_id value)
  end.
Definition hyperlink_table (elements : list (result TerminalHyperlink TerminalContractError))
    : result (list TerminalHyperlink) TerminalContractError :=
  table_visit elements [] 0 0.

Record TerminalScreen := {
  scr_dimensions : TerminalDimensions;
  scr_cursor : TerminalScreenCursor;
  scr_modes : TerminalModes;
  scr_cells : list TerminalCell;
  scr_hyperlinks : list TerminalHyperlink;
}.

(** [slice::binary_search_by_key] over the keys of the table; the loop runs while
    more than one candidate is left. *)
Fixpoint search_loop (fuel : nat) (keys : list N) (key : N) (base size : nat) : nat :=
  match fuel with
  | O => base
  | S fuel =>
      if size <=? 1 then base
      else
        let half := Nat.div2 size in
        let mid := base + half in
        let base := match keys !! mid with
                    | Some k => if (key <? k)%N then base else mid
                    | None => base
                    end in
        search_loop fuel keys key base (size - half)
  end.
Definition binary_search (keys : list N) (key : N) : bool :=
  match keys with
  | [] => false
  | _ => bool_decide (keys !! search_loop (length keys) keys key 0 (length keys) = Some key)
  end.

(** The two loops of [TerminalScreen::validate]. *)
Fixpoint validate_links (links : list TerminalHyperlink) (previous_id bytes : N) : checked :=
  match links with
  | [] => Ok tt
  | link :: links =>
      let? _ := hyperlink_validate link in
      let? _ := contract (previous_id <? link_id link)%N in
      let? bytes := ok_or Contract_error (checked_add bytes (vec_len (link_uri link))) in
      let? _ := contract (bytes <=? MAX_TERMINAL_HYPERLINK_BYTES)%N in
      validate_links links (link_id link) bytes
  end.

Definition kind_at (cells : list TerminalCell) (index : nat) : option TerminalCellKind := cell_kind <$> cells !! index.

Definition validate_neighbour (cells : list TerminalCell) (columns index : nat) (kind : TerminalCellKind) : checked :=
  match kind with
  | Cell_Wide =>
      contract ((index mod columns + 1 <? columns) && bool_decide (kind_at cells (index + 1) = Some Cell_Continuation))
  | Cell_Continuation => contract ((0 <? index mod columns) && bool_decide (kind_at cells (index - 1) = Some Cell_Wide))
  | _ => Ok tt
  end.

Fixpoint validate_cells (s : TerminalScreen) (columns index : nat) (rest : list TerminalCell) (bytes : N) : checked :=
  match rest with
  | [] => Ok tt
  | cell :: rest =>
      let? _ := cell_validate cell in
      let? _ := match cell_hyperlink_id cell with
                | Some id => contract (binary_search (map link_id (scr_hyperlinks s)) id)
                | None => Ok tt
                end in
      let? bytes := ok_or Contract_error (checked_add bytes (str_len (cell_text cell))) in
      let? _ := contract (bytes <=? MAX_TERMINAL_SCREEN_TEXT_BYTES)%N in
      let? _ := validate_neighbour (scr_cells s) columns index (cell_kind cell) in
      validate_cells s columns (S index) rest bytes
  end.

Definition screen_validate (s : TerminalScreen) : checked :=
  let? _ := dimensions_validate (scr_dimensions s) in
  let? _ := screen_cursor_validate (scr_cursor s) in
  let? _ := modes_validate (scr_modes s) in
  let? _ := contract (vec_len (scr_hyperlinks s) <=? MAX_TERMINAL_HYPERLINKS)%N in
  let? _ := validate_links (scr_hyperlinks s) 0 0 in
  let? _ := contract ((vec_len (scr_cells s) =? dim_rows (scr_dimensions s) * dim_columns (scr_dimensions s))%N &&
                     (sc_row (scr_cursor s) <? dim_rows (scr_dimensions s))%N &&
                     (sc_column (scr_cursor s) <? dim_columns (scr_dimensions s))%N) in
  validate_cells s (N.to_nat (dim_columns (scr_dimensions s))) 0 (scr_cells s) 0.
