(* ===== verification/TerminalProofs.v ===== *)
(** * What valid terminal contracts are

    Screens, hyperlink tables and attention. *)
From S2P Require Import Prelude Json Terminal.

Lemma contract_ok b : contract b = Ok tt <-> b = true.
Proof. by destruct b. Qed.

Lemma step_ok {A} (r : checked) (k : result A TerminalContractError) a :
  (let? _ := r in k) = Ok a <-> r = Ok tt /\ k = Ok a.
Proof. destruct r as [[]|]; simpl; [by split; [|intros [_ ?]]|by split; [|intros [? _]]]. Qed.

(** Splits a chain of checks. *)
Ltac contract := rewrite ?step_ok, ?contract_ok, ?andb_true_iff, ?negb_true_iff, ?bool_decide_eq_true, ?bool_decide_eq_false,
  ?N.leb_le, ?N.ltb_lt, ?N.eqb_neq, ?N.eqb_eq.

(** ** The hyperlink table *)
Definition uri_ok (h : TerminalHyperlink) : Prop := link_uri h <> [] /\ (vec_len (link_uri h) <= 4096)%N.
Definition uri_bytes (links : list TerminalHyperlink) : N := sum_by (fun h => vec_len (link_uri h)) links.

Lemma uri_bytes_cons h links : uri_bytes (h :: links) = (vec_len (link_uri h) + uri_bytes links)%N.
Proof. done. Qed.

(** Ascending positive identifiers, bounded URIs, and a bounded total. *)
Record links_ok (links : list TerminalHyperlink) : Prop := {
  lo_sorted : StronglySorted N.lt (map link_id links);
  lo_positive : Forall (fun h => 0 < link_id h)%N links;
  lo_uris : Forall uri_ok links;
  lo_count : (vec_len links <= 65535)%N;
  lo_bytes : (uri_bytes links <= 4 * 1024 * 1024)%N;
}.

Lemma checked_add_small a b limit : (limit <= 2 ^ 32)%N -> (a <= limit)%N -> (b <= 4096)%N -> checked_add a b = Some (a + b)%N.
Proof.
  intros Hl Ha Hb. unfold checked_add. destruct (N.leb_spec (a + b) U64_MAX) as [|Hx]; [done|].
  assert (U64_MAX = 2 ^ 64 - 1)%N as Hu by done. assert (2 ^ 32 + 4096 <= 2 ^ 64 - 1)%N by done. lia.
Qed.

Lemma hyperlink_ok h : hyperlink_validate h = Ok tt <-> link_id h <> 0%N /\ uri_ok h.
Proof. unfold hyperlink_validate, uri_ok. by contract. Qed.

Lemma validate_links_ok links prev bytes :
  (bytes <= MAX_TERMINAL_HYPERLINK_BYTES)%N ->
  validate_links links prev bytes = Ok tt <->
  Sorted N.lt (prev :: map link_id links) /\ Forall uri_ok links /\
  (bytes + uri_bytes links <= MAX_TERMINAL_HYPERLINK_BYTES)%N.
Proof.
  revert prev bytes. induction links as [|h links IH]; intros prev bytes Hb; cbn [validate_links map].
  { unfold uri_bytes. simpl. rewrite N.add_0_r. split; [|done]. intros _. split_and!; auto. }
  rewrite step_ok, hyperlink_ok, uri_bytes_cons. split.
  - intros [[Hid Hu] Hk]. rewrite (checked_add_small _ _ MAX_TERMINAL_HYPERLINK_BYTES) in Hk; [|done|done|apply Hu].
    cbn [ok_or rbind] in Hk. rewrite !step_ok, !contract_ok, N.ltb_lt, N.leb_le in Hk. destruct Hk as (Hp & Hle & Hk).
    apply IH in Hk as (Hs & Hf & Hsum); [|done]. split_and!; [by constructor; [|constructor]|by constructor|lia].
  - intros (Hs & Hf & Hsum). apply Forall_cons in Hf as [Hu Hf]. apply Sorted_inv in Hs as [Hs Hd]. inversion Hd; subst.
    split; [split; [lia|done]|]. rewrite (checked_add_small _ _ MAX_TERMINAL_HYPERLINK_BYTES) by (done || apply Hu).
    cbn [ok_or rbind]. rewrite !step_ok, !contract_ok, N.ltb_lt, N.leb_le.
    split_and!; [done|lia|]. apply IH; [lia|]. split_and!; [done|done|lia].
Qed.

Lemma sorted_from_zero links :
  Sorted N.lt (0%N :: map link_id links) <->
  StronglySorted N.lt (map link_id links) /\ Forall (fun h => 0 < link_id h)%N links.
Proof.
  assert (forall l, Sorted N.lt l <-> StronglySorted N.lt l) as He.
  { intros l. split; [apply Sorted_StronglySorted; intros a b c; lia|apply StronglySorted_Sorted]. }
  rewrite He. split.
  - intros Hs. apply StronglySorted_inv in Hs as [Hs Hf]. split; [done|]. exact (proj1 (List.Forall_map _ _ _) Hf).
  - intros [Hs Hf]. constructor; [done|]. exact (proj2 (List.Forall_map _ _ _) Hf).
Qed.

Lemma links_exact links :
  (vec_len links <= MAX_TERMINAL_HYPERLINKS)%N /\ validate_links links 0 0 = Ok tt <-> links_ok links.
Proof.
  rewrite validate_links_ok, sorted_from_zero by done. split.
  - intros (Hn & [Hs Hp] & Hf & Hb). by split.
  - intros [Hs Hp Hf Hn Hb]. split_and!; try done. 
Qed.

(** ** Binary search *)
Lemma sorted_lookup keys i j a b :
  StronglySorted N.lt keys -> keys !! i = Some a -> keys !! j = Some b -> i < j -> (a < b)%N.
Proof.
  intros Hs. revert i j. induction Hs as [|k keys Hs IH Hf]; intros i j Hi Hj Hlt; [done|].
  destruct i as [|i], j as [|j]; simpl in *; simplify_eq; try lia.
  - apply list_elem_of_lookup_2 in Hj. by apply (proj1 (Forall_forall _ _) Hf).
  - eapply IH; [done|done|lia].
Qed.

Lemma search_loop_spec keys key fuel base size i :
  StronglySorted N.lt keys -> size <= S fuel -> base + size <= length keys ->
  keys !! i = Some key -> base <= i < base + size ->
  search_loop fuel keys key base size = i.
Proof.
  intros Hs. revert base size. induction fuel as [|fuel IH]; intros base size Hf Hl Hi Hr; simpl; [lia|].
  destruct (Nat.leb_spec size 1) as [|Hs1]; [lia|].
  assert (0 < Nat.div2 size /\ 2 * Nat.div2 size <= size) as [Hd1 Hd2].
  { rewrite Nat.div2_div. pose proof (Nat.div_mod_eq size 2). pose proof (Nat.mod_upper_bound size 2). lia. }
  destruct (keys !! (base + Nat.div2 size)) as [k|] eqn:Ek; [|apply lookup_ge_None in Ek; lia].
  destruct (decide (i < base + Nat.div2 size)) as [Hlt|Hge].
  - pose proof (sorted_lookup _ _ _ _ _ Hs Hi Ek Hlt). destruct (N.ltb_spec key k); [|lia]. apply IH; lia || done.
  - destruct (N.ltb_spec key k) as [Hk|]; [|apply IH; lia || done].
    destruct (decide (i = base + Nat.div2 size)) as [->|]; [rewrite Hi in Ek; simplify_eq; lia|].
    pose proof (sorted_lookup _ _ _ _ _ Hs Ek Hi ltac:(lia)). lia.
Qed.

(** The search finds a key exactly when the table has it. *)
Lemma binary_search_exact keys key :
  StronglySorted N.lt keys -> binary_search keys key = true <-> key ∈ keys.
Proof.
  intros Hs. unfold binary_search. destruct keys as [|k keys]; [by split; [|intros ?%elem_of_nil]|].
  rewrite bool_decide_eq_true. split; [apply list_elem_of_lookup_2|].
  intros [i Hi]%list_elem_of_lookup_1. pose proof (lookup_lt_Some _ _ _ Hi).
  by rewrite (search_loop_spec _ _ _ _ _ i) by (done || lia).
Qed.

(** ** Screens *)
(** The cell of a row and a column. *)
Definition cell_at (s : TerminalScreen) (row column : nat) : option TerminalCell :=
  scr_cells s !! (row * N.to_nat (dim_columns (scr_dimensions s)) + column).
Definition kind_of (s : TerminalScreen) (row column : nat) : option TerminalCellKind := cell_kind <$> cell_at s row column.

Record cell_ok (s : TerminalScreen) (c : TerminalCell) : Prop := {
  co_text : (str_len (cell_text c) <= 64)%N;
  co_visible : cell_text c = "" <-> cell_kind c = Cell_Blank \/ cell_kind c = Cell_Continuation;
  co_link : forall id, cell_hyperlink_id c = Some id -> exists h, h ∈ scr_hyperlinks s /\ link_id h = id;
}.

(** A grid of the right size whose wide cells are followed, in their row, by their
    continuations, and whose links are all in a well-formed table. *)
Record screen_ok (s : TerminalScreen) : Prop := {
  so_rows : (0 < dim_rows (scr_dimensions s) <= 4096)%N;
  so_columns : (0 < dim_columns (scr_dimensions s) <= 4096)%N;
  so_size : (vec_len (scr_cells s) = dim_rows (scr_dimensions s) * dim_columns (scr_dimensions s))%N;
  so_cells_bound : (vec_len (scr_cells s) <= 262144)%N;
  so_cursor : (sc_row (scr_cursor s) < dim_rows (scr_dimensions s))%N /\
    (sc_column (scr_cursor s) < dim_columns (scr_dimensions s))%N;
  so_links : links_ok (scr_hyperlinks s);
  so_cells : Forall (cell_ok s) (scr_cells s);
  so_text : (sum_by (fun c => str_len (cell_text c)) (scr_cells s) <= 8 * 1024 * 1024)%N;
  so_wide : forall row column, column < N.to_nat (dim_columns (scr_dimensions s)) ->
    kind_of s row column = Some Cell_Wide ->
    S column < N.to_nat (dim_columns (scr_dimensions s)) /\ kind_of s row (S column) = Some Cell_Continuation;
  so_continuation : forall row column, column < N.to_nat (dim_columns (scr_dimensions s)) ->
    kind_of s row column = Some Cell_Continuation ->
    exists before, column = S before /\ kind_of s row before = Some Cell_Wide;
}.

Definition link_check (s : TerminalScreen) (c : TerminalCell) : checked :=
  match cell_hyperlink_id c with
  | Some id => contract (binary_search (map link_id (scr_hyperlinks s)) id)
  | None => Ok tt
  end.

Lemma cell_exact s c :
  links_ok (scr_hyperlinks s) -> cell_validate c = Ok tt /\ link_check s c = Ok tt <-> cell_ok s c.
Proof.
  intros Hl.
  assert (link_check s c = Ok tt <-> forall id, cell_hyperlink_id c = Some id -> exists h, h ∈ scr_hyperlinks s /\ link_id h = id) as ->.
  { unfold link_check. destruct (cell_hyperlink_id c) as [id|]; [|by split].
    rewrite contract_ok, binary_search_exact by apply Hl. split.
    - intros (h & -> & Hin)%list_elem_of_fmap id' [= <-]. by exists h.
    - intros Hall. destruct (Hall id eq_refl) as (h & Hin & <-). apply list_elem_of_fmap. by exists h. }
  unfold cell_validate, style_validate, color_validate. contract. cbn [rbind]. split.
  - intros ((_ & _ & Ht & Hk) & Hlink). split; [done| |done].
    destruct (cell_kind c); rewrite ?negb_true_iff, ?bool_decide_eq_true, ?bool_decide_eq_false in Hk; naive_solver.
  - intros [Ht Hv Hlink]. split; [|done]. split_and!; [done|done| |done|].
    + intros E. destruct (Hlink _ E) as (h & Hin & H0). pose proof (proj1 (Forall_forall _ _) (lo_positive _ Hl) h Hin) as Hp. simpl in Hp. lia.
    + destruct (cell_kind c); rewrite ?negb_true_iff, ?bool_decide_eq_true, ?bool_decide_eq_false; naive_solver.
Qed.

Lemma cell_step s c (k : checked) :
  links_ok (scr_hyperlinks s) ->
  (let? _ := cell_validate c in let? _ := link_check s c in k) = Ok tt <-> cell_ok s c /\ k = Ok tt.
Proof. intros Hl. rewrite !step_ok, <-(cell_exact s c Hl). tauto. Qed.

Lemma validate_cells_ok s columns index rest bytes :
  links_ok (scr_hyperlinks s) -> (bytes <= MAX_TERMINAL_SCREEN_TEXT_BYTES)%N ->
  validate_cells s columns index rest bytes = Ok tt <->
  Forall (cell_ok s) rest /\
  (bytes + sum_by (fun c => str_len (cell_text c)) rest <= MAX_TERMINAL_SCREEN_TEXT_BYTES)%N /\
  forall k c, rest !! k = Some c -> validate_neighbour (scr_cells s) columns (index + k) (cell_kind c) = Ok tt.
Proof.
  intros Hl. revert index bytes. induction rest as [|c rest IH]; intros index bytes Hb; cbn [validate_cells].
  { simpl. rewrite N.add_0_r. split; [|done]. intros _. split_and!; [constructor|done|]. by intros k c. }
  fold (link_check s c). rewrite cell_step by done.
  assert (sum_by (fun c => str_len (cell_text c)) (c :: rest) =
    (str_len (cell_text c) + sum_by (fun c => str_len (cell_text c)) rest)%N) as -> by done. split.
  - intros [Hc Hk]. pose proof (co_text _ _ Hc).
    rewrite (checked_add_small _ _ MAX_TERMINAL_SCREEN_TEXT_BYTES) in Hk by (done || lia).
    cbn [ok_or rbind] in Hk. rewrite !step_ok, contract_ok, N.leb_le in Hk. destruct Hk as (Hle & Hn & Hk).
    apply IH in Hk as (Hf & Hsum & Hall); [|done]. split_and!; [by constructor|lia|].
    intros [|k] c' Hc'; simpl in Hc'; [simplify_eq; by rewrite Nat.add_0_r|].
    rewrite <-Nat.add_succ_comm. by apply Hall.
  - intros (Hf & Hsum & Hall). apply Forall_cons in Hf as [Hc Hf]. split; [done|]. pose proof (co_text _ _ Hc).
    rewrite (checked_add_small _ _ MAX_TERMINAL_SCREEN_TEXT_BYTES) by (done || lia).
    cbn [ok_or rbind]. rewrite !step_ok, contract_ok, N.leb_le. split_and!; [lia| |].
    + specialize (Hall 0 c eq_refl). by rewrite Nat.add_0_r in Hall.
    + apply IH; [lia|]. split_and!; [done|lia|]. intros k c' Hc'. rewrite Nat.add_succ_comm. by apply (Hall (S k)).
Qed.

(** The neighbours of every cell, by rows. *)
Lemma neighbours_exact s :
  let columns := N.to_nat (dim_columns (scr_dimensions s)) in
  0 < columns ->
  (forall k c, scr_cells s !! k = Some c -> validate_neighbour (scr_cells s) columns k (cell_kind c) = Ok tt) <->
  (forall row column, column < columns -> kind_of s row column = Some Cell_Wide ->
     S column < columns /\ kind_of s row (S column) = Some Cell_Continuation) /\
  (forall row column, column < columns -> kind_of s row column = Some Cell_Continuation ->
     exists before, column = S before /\ kind_of s row before = Some Cell_Wide).
Proof.
  intros columns H0. assert (forall row column, column < columns -> (row * columns + column) mod columns = column) as Hmod.
  { intros row column Hc. rewrite Nat.add_comm, Nat.Div0.mod_add. by apply Nat.mod_small. }
  unfold kind_of, cell_at. fold columns. split.
  - intros Hall. split; intros row column Hc (c & Hcell & Hk)%fmap_Some; specialize (Hall _ c Hcell); rewrite <-Hk in Hall; simpl in Hall;
      rewrite contract_ok, andb_true_iff, Nat.ltb_lt, bool_decide_eq_true, Hmod in Hall by done; destruct Hall as [H1 H2].
    + split; [lia|]. unfold kind_at in H2. by replace (row * columns + S column) with (row * columns + column + 1) by lia.
    + destruct column as [|column]; [lia|]. exists column. split; [done|]. unfold kind_at in H2.
      by replace (row * columns + column) with (row * columns + S column - 1) by lia.
  - intros [Hw Hc] k c Hk. pose proof (Nat.div_mod_eq k columns) as Hkd. pose proof (Nat.mod_upper_bound k columns ltac:(lia)) as Hkm.
    set (row := k / columns) in *. set (column := k mod columns) in *.
    assert (k = row * columns + column) as Ek by lia.
    destruct (cell_kind c) eqn:Eck; simpl; try done; rewrite contract_ok, andb_true_iff, Nat.ltb_lt, bool_decide_eq_true; fold column.
    + destruct (Hw row column Hkm) as [H1 H2]; [rewrite <-Ek, Hk; simpl; by rewrite Eck|]. split; [lia|].
      unfold kind_at. by replace (k + 1) with (row * columns + S column) by lia.
    + destruct (Hc row column Hkm) as (before & Hb & H2); [rewrite <-Ek, Hk; simpl; by rewrite Eck|]. split; [lia|].
      unfold kind_at. by replace (k - 1) with (row * columns + before) by lia.
Qed.

(** C18. A screen is accepted exactly when it is a well-formed grid: the right number of
    cells, wide characters with their continuations in one row, visible text exactly
    in the visible cells, links from an ascending table, and bounded totals. *)
Theorem screen_validate_exact s : screen_validate s = Ok tt <-> screen_ok s.
Proof.
  unfold screen_validate, dimensions_validate, screen_cursor_validate, modes_validate. rewrite !step_ok, !contract_ok.
  rewrite !andb_true_iff, !N.ltb_lt, !N.leb_le, N.eqb_eq. split.
  - intros (((((R1 & C1) & R2) & C2) & Hsz) & _ & _ & Hn & Hlinks & ((Hlen & Hr) & Hc) & Hcells).
    assert (links_ok (scr_hyperlinks s)) as Hl by (by apply links_exact).
    apply validate_cells_ok in Hcells as (Hf & Hsum & Hnb); [|done|done].
    apply neighbours_exact in Hnb as [Hw Hct]; [|lia]. split; try done. rewrite Hlen. exact Hsz.
  - intros [[R1 R2] [C1 C2] Hlen Hsz [Hr Hc] Hl Hf Hsum Hw Hct]. apply links_exact in Hl as Hl'. destruct Hl' as [Hn Hv].
    rewrite <-Hlen. split_and!; try done; try lia. apply validate_cells_ok; [done|done|]. split_and!; [done|done|].
    apply neighbours_exact; [lia|done].
Qed.

(** ** Decoding a table *)
Lemma table_visit_ok links values bytes prev out :
  Forall uri_ok links -> (bytes <= MAX_TERMINAL_HYPERLINK_BYTES)%N -> (vec_len values <= MAX_TERMINAL_HYPERLINKS)%N ->
  table_visit (map Ok links) values bytes prev = Ok out <->
  out = values ++ links /\ Sorted N.lt (prev :: map link_id links) /\
  (vec_len values + vec_len links <= MAX_TERMINAL_HYPERLINKS)%N /\
  (bytes + uri_bytes links <= MAX_TERMINAL_HYPERLINK_BYTES)%N.
Proof.
  revert values bytes prev. induction links as [|h links IH]; intros values bytes prev Hf Hb Hn; cbn [map table_visit].
  { rewrite app_nil_r. unfold uri_bytes, vec_len. simpl. rewrite !N.add_0_r.
    split; [intros [= <-]; split_and!; auto|by intros (-> & _)]. }
  apply Forall_cons in Hf as [Hu Hf]. rewrite (checked_add_small _ _ MAX_TERMINAL_HYPERLINK_BYTES) by (done || apply Hu).
  cbn [ok_or rbind]. rewrite uri_bytes_cons.
  assert (vec_len (h :: links) = 1 + vec_len links)%N as -> by (unfold vec_len; simpl; lia).
  assert (vec_len (values ++ [h]) = vec_len values + 1)%N as Hv by (by rewrite vec_len_app).
  destruct (N.eqb_spec (vec_len values) MAX_TERMINAL_HYPERLINKS) as [|Hne]; simpl; [split; [done|intros (_ & _ & ? & _); lia]|].
  destruct (N.ltb_spec MAX_TERMINAL_HYPERLINK_BYTES (bytes + vec_len (link_uri h))) as [|Hle]; simpl;
    [split; [done|intros (_ & _ & _ & ?); lia]|].
  destruct (N.leb_spec (link_id h) prev) as [Hp|Hp].
  { split; [done|]. intros (_ & Hs & _). apply Sorted_inv in Hs as [_ Hd]. inversion Hd; subst. lia. }
  rewrite IH by (done || lia). rewrite Hv, <-app_assoc. simpl. split.
  - intros (-> & Hs & ? & ?). split_and!; [done|by constructor; [|constructor]|lia|lia].
  - intros (-> & Hs & ? & ?). apply Sorted_inv in Hs as [Hs _]. split_and!; [done|done|lia|lia].
Qed.

(** The decoder of a table bounds its memory itself, and accepts exactly the tables
    the validator of a screen accepts. *)
Theorem hyperlink_table_exact links :
  Forall (fun h => hyperlink_validate h = Ok tt) links -> hyperlink_table (map Ok links) = Ok links <-> links_ok links.
Proof.
  intros Hf. assert (Forall uri_ok links) as Hu by (eapply Forall_impl; [exact Hf|]; intros h Hh; exact (proj2 (proj1 (hyperlink_ok h) Hh))).
  unfold hyperlink_table. rewrite table_visit_ok, sorted_from_zero by done. split.
  - intros (_ & [Hs Hp] & Hn & Hb). by split.
  - intros [Hs Hp _ Hn Hb]. by split_and!.
Qed.

(** ** Attention *)
(** Cancelling keeps the pair consistent, and takes only what the actor had. *)
Theorem attention_cancel_correct a actor :
  attention_validate a = Ok tt ->
  attention_validate (attention_cancel a actor) = Ok tt /\
  match actor with
  | Actor_Human => attention (attention_cancel a actor) <> A_UserTakeover /\ write_lease (attention_cancel a actor) <> Lease_Human /\
      (attention a = A_AgentWait -> attention (attention_cancel a actor) = A_AgentWait) /\
      (write_lease a = Lease_Agent -> write_lease (attention_cancel a actor) = Lease_Agent)
  | Actor_Agent => attention (attention_cancel a actor) <> A_AgentWait /\ write_lease (attention_cancel a actor) <> Lease_Agent /\
      (attention a = A_UserTakeover -> attention_cancel a actor = a)
  end.
Proof. destruct a as [[] []], actor; intros Ha; vm_compute in Ha; try done; by vm_compute. Qed.
