(* ===== verification/TerminalAction.v ===== *)
(** * Terminal actions ([terminal_action.rs])

    The normalized requests of a terminal host, its results, and the check of a
    reply against its request, with what a checked reply guarantees. *)
From S2P Require Import Prelude Terminal TerminalProofs.

(** ** Bounds *)
Definition MAX_TERMINAL_ACTION_COMMAND_BYTES : N := 64 * 1024.
Definition MAX_TERMINAL_ACTION_TEXT_BYTES : N := 4096.
Definition MAX_TERMINAL_INITIAL_MONITORS : N := 32.
Definition MAX_TERMINAL_ACTION_RESULTS : N := 256.
Definition MAX_TERMINAL_ACTION_OUTPUT_BYTES : N := 1048576.
Definition MAX_TERMINAL_CHECKPOINT_PAYLOAD_BYTES : N := 67108864.
Definition MAX_TERMINAL_EXEC_STREAM_BYTES : N := 32768.
(** A [Duration] is its nanoseconds. *)
Definition MAX_TERMINAL_EXEC_DURATION : N := 600 * 1000000000.

Definition cwd_validate (value : string) : checked :=
  let? _ := text value MAX_TERMINAL_ACTION_TEXT_BYTES in
  contract (match value with String c _ => bool_decide (c = "/"%char) | EmptyString => false end).

Definition ceiling (value : N) : checked := contract ((0 <? value)%N && (value <=? I64_MAX)%N).

Definition each {T} (validate : T -> checked) : list T -> checked :=
  fix each (l : list T) := match l with [] => Ok tt | x :: l => let? _ := validate x in each l end.
Definition optional {T} (validate : T -> checked) (o : option T) : checked :=
  match o with Some x => validate x | None => Ok tt end.

(** ** Requests *)
Inductive TerminalAction :=
| Act_Exec | Act_Start | Act_Read | Act_Screen | Act_Write | Act_Wait | Act_Monitor | Act_Inspect | Act_List | Act_Resize
| Act_Signal | Act_Close.
#[export] Instance TerminalAction_eq_dec : EqDecision TerminalAction.
Proof. solve_decision. Defined.

Inductive TerminalShellSpec := Shell_UserLogin | Shell_Executable (path : string) (clean_start : bool).
Definition shell_validate (s : TerminalShellSpec) : checked :=
  match s with Shell_UserLogin => Ok tt | Shell_Executable path _ => text path MAX_TERMINAL_ACTION_TEXT_BYTES end.

Record TerminalExecRequest := { xr_command : string; xr_cwd : string; xr_profile : option TerminalProfile }.
Definition exec_request_validate (r : TerminalExecRequest) : checked :=
  let? _ := text (xr_command r) MAX_TERMINAL_ACTION_COMMAND_BYTES in
  cwd_validate (xr_cwd r).

Record TerminalStartRequest := {
  sr_cwd : string;
  sr_command : option string;
  sr_profile : option TerminalProfile;
  sr_shell : option TerminalShellSpec;
  sr_backend : TerminalBackend;
  sr_return_when : option TerminalReturnCondition;
  sr_wait_ceiling_ms : option N;
  sr_dimensions : option TerminalDimensions;
  sr_initial_monitors : list TerminalMonitorDefinition;
}.

Definition start_validate (r : TerminalStartRequest) : checked :=
  let? _ := cwd_validate (sr_cwd r) in
  let? _ := contract (negb (bool_decide (is_Some (sr_profile r))) || negb (bool_decide (is_Some (sr_shell r)))) in
  let? _ := optional shell_validate (sr_shell r) in
  let? _ := optional (fun command =>
    let? _ := text command MAX_TERMINAL_ACTION_COMMAND_BYTES in
    contract (bool_decide (is_Some (sr_return_when r)))) (sr_command r) in
  let? _ := optional (fun condition =>
    let? _ := return_validate condition in
    contract (match condition with Return_Started => true | _ => false end ||
              bool_decide (is_Some (sr_wait_ceiling_ms r)))) (sr_return_when r) in
  let? _ := optional ceiling (sr_wait_ceiling_ms r) in
  let? _ := optional dimensions_validate (sr_dimensions r) in
  let? _ := contract (vec_len (sr_initial_monitors r) <=? MAX_TERMINAL_INITIAL_MONITORS)%N in
  each definition_validate (sr_initial_monitors r).

Definition start_interactive (cwd : string) : result TerminalStartRequest TerminalContractError :=
  let request := {| sr_cwd := cwd; sr_command := None; sr_profile := None; sr_shell := None; sr_backend := B_Native;
                    sr_return_when := None; sr_wait_ceiling_ms := None; sr_dimensions := None; sr_initial_monitors := [] |} in
  let? _ := start_validate request in
  Ok request.

Record TerminalListFilters := {
  lf_task_id : option string;
  lf_workspace_root : option string;
  lf_lifecycle : option TerminalLifecycle;
  lf_backend : option TerminalBackend;
}.
Definition filters_validate (f : TerminalListFilters) : checked :=
  let? _ := optional (fun v => text v MAX_TERMINAL_ACTION_TEXT_BYTES) (lf_task_id f) in
  optional (fun v => text v MAX_TERMINAL_ACTION_TEXT_BYTES) (lf_workspace_root f).

Inductive TerminalActionRequest :=
| Req_Exec (request : TerminalExecRequest)
| Req_Start (request : TerminalStartRequest)
| Req_Read (session_id : TerminalSessionId) (cursor : TerminalCursor)
| Req_Screen (session_id : TerminalSessionId)
| Req_Write (session_id : TerminalSessionId) (request : TerminalWriteRequest)
| Req_Wait (session_id : TerminalSessionId) (request : TerminalWaitRequest)
| Req_Monitor (session_id : TerminalSessionId) (operation : TerminalMonitorOperation)
| Req_Inspect (session_id : TerminalSessionId) (events : TerminalEventQuery)
| Req_List (filters : TerminalListFilters)
| Req_Resize (session_id : TerminalSessionId) (dimensions : TerminalDimensions)
| Req_Signal (session_id : TerminalSessionId) (signal : TerminalSignal)
| Req_Close (session_id : TerminalSessionId) (policy : TerminalClosePolicy).

Definition request_action (r : TerminalActionRequest) : TerminalAction :=
  match r with
  | Req_Exec _ => Act_Exec | Req_Start _ => Act_Start | Req_Read _ _ => Act_Read | Req_Screen _ => Act_Screen
  | Req_Write _ _ => Act_Write | Req_Wait _ _ => Act_Wait | Req_Monitor _ _ => Act_Monitor | Req_Inspect _ _ => Act_Inspect
  | Req_List _ => Act_List | Req_Resize _ _ => Act_Resize | Req_Signal _ _ => Act_Signal | Req_Close _ _ => Act_Close
  end.

Definition request_session_id (r : TerminalActionRequest) : option TerminalSessionId :=
  match r with
  | Req_Exec _ | Req_Start _ | Req_List _ => None
  | Req_Read id _ | Req_Screen id | Req_Write id _ | Req_Wait id _ | Req_Monitor id _ | Req_Inspect id _
  | Req_Resize id _ | Req_Signal id _ | Req_Close id _ => Some id
  end.

Definition request_validate (r : TerminalActionRequest) : checked :=
  match r with
  | Req_Exec request => exec_request_validate request
  | Req_Start request => start_validate request
  | Req_Read _ cursor => cursor_validate cursor
  | Req_Write _ request => write_validate request
  | Req_Wait _ request => wait_validate request
  | Req_Monitor _ operation => operation_validate operation
  | Req_Inspect _ events =>
      let? _ := query_validate events in
      contract (match acknowledge_event_id events with Some id => (after_event_id events <=? id)%N | None => true end)
  | Req_List filters => filters_validate filters
  | Req_Resize _ dimensions => dimensions_validate dimensions
  | Req_Screen _ | Req_Signal _ _ | Req_Close _ _ => Ok tt
  end.

(** ** Session facts *)
Record TerminalRawRange := { rr_start : TerminalCursor; rr_end : TerminalCursor }.
Definition range_validate (r : TerminalRawRange) : checked :=
  let? _ := cursor_validate (rr_start r) in
  let? _ := cursor_validate (rr_end r) in
  contract ((cur_segment (rr_start r) =? cur_segment (rr_end r))%N && cursor_leb (rr_start r) (rr_end r)).

Record TerminalCheckpointEnvelope := {
  cp_engine_schema_revision : N;
  cp_applied_cursor : TerminalCursor;
  cp_payload_len : N;
  cp_checksum : list ascii;
}.
Definition checkpoint_validate (c : TerminalCheckpointEnvelope) : checked :=
  let? _ := cursor_validate (cp_applied_cursor c) in
  contract ((0 <? cp_engine_schema_revision c)%N && (0 <? cp_payload_len c)%N &&
            (cp_payload_len c <=? MAX_TERMINAL_CHECKPOINT_PAYLOAD_BYTES)%N).

Inductive TerminalScreenRecovery :=
| Recovery_Available (checkpoint : TerminalCheckpointEnvelope)
| Recovery_Unavailable (reason : TerminalScreenUnavailableReason).
Definition recovery_validate (r : TerminalScreenRecovery) : checked :=
  match r with Recovery_Available checkpoint => checkpoint_validate checkpoint | Recovery_Unavailable _ => Ok tt end.

Inductive TerminalPersistenceLevel := Persistence_Durable.

Record TerminalAllowedControls := {
  ac_read : bool; ac_screen : bool; ac_write : bool; ac_wait : bool; ac_monitor : bool; ac_inspect : bool; ac_list : bool;
  ac_resize : bool; ac_signal : bool; ac_close : bool;
}.
Definition controls_validate (c : TerminalAllowedControls) : checked := Ok tt.

Record TerminalSessionFacts := {
  sf_session_id : TerminalSessionId;
  sf_lifecycle : TerminalLifecycle;
  sf_attention : TerminalAttentionState;
  sf_backend : TerminalBackend;
  sf_persistence : TerminalPersistenceLevel;
  sf_output_cursor : TerminalCursor;
  sf_unread_range : option TerminalRawRange;
  sf_raw_gap : option TerminalGap;
  sf_screen_recovery : TerminalScreenRecovery;
  sf_active_monitor_count : N;
  sf_next_actions : TerminalAllowedControls;
}.
Definition facts_validate (f : TerminalSessionFacts) : checked :=
  let? _ := attention_validate (sf_attention f) in
  let? _ := cursor_validate (sf_output_cursor f) in
  let? _ := recovery_validate (sf_screen_recovery f) in
  let? _ := controls_validate (sf_next_actions f) in
  let? _ := optional (fun range =>
    let? _ := range_validate range in
    contract (cursor_leb (rr_end range) (sf_output_cursor f))) (sf_unread_range f) in
  let? _ := optional (fun gap =>
    let? _ := gap_validate gap in
    contract (cursor_leb (available_from gap) (sf_output_cursor f))) (sf_raw_gap f) in
  match sf_screen_recovery f with
  | Recovery_Available checkpoint =>
      contract ((cur_segment (cp_applied_cursor checkpoint) =? cur_segment (sf_output_cursor f))%N &&
                cursor_leb (cp_applied_cursor checkpoint) (sf_output_cursor f))
  | Recovery_Unavailable _ => Ok tt
  end.

(** ** Results *)
Inductive TerminalReturnOutcome :=
| Out_Started | Out_ConditionMet | Out_SafetyCeiling | Out_Cancelled
| Out_Exited (exit_code : Z)
| Out_Signal (signal : N).
Definition outcome_validate (o : TerminalReturnOutcome) : checked :=
  match o with
  | Out_Exited exit_code => contract ((0 <=? exit_code)%Z && (exit_code <=? 255)%Z)
  | Out_Signal signal => contract (in_range 1 255 signal)
  | _ => Ok tt
  end.

Record TerminalMonitorSummary := { ms_monitor_id : TerminalMonitorId; ms_state : TerminalMonitorState }.

Inductive TerminalExecStatus := Exec_Exited (exit_code : Z) | Exec_Signaled (signal : Z) | Exec_TimedOut | Exec_OutputLimit.
Definition exec_status_validate (s : TerminalExecStatus) : checked :=
  match s with
  | Exec_Exited exit_code => contract ((0 <=? exit_code)%Z && (exit_code <=? 255)%Z)
  | Exec_Signaled signal => contract ((1 <=? signal)%Z && (signal <=? 255)%Z)
  | Exec_TimedOut | Exec_OutputLimit => Ok tt
  end.

Record TerminalExecCapturedOutput := { xo_bytes : list ascii; xo_total_bytes : N }.
Definition captured_validate (o : TerminalExecCapturedOutput) : checked :=
  contract ((vec_len (xo_bytes o) <=? MAX_TERMINAL_EXEC_STREAM_BYTES)%N && (vec_len (xo_bytes o) <=? xo_total_bytes o)%N).
Definition truncated (o : TerminalExecCapturedOutput) : bool := (vec_len (xo_bytes o) <? xo_total_bytes o)%N.

Record TerminalExecResult := {
  er_status : TerminalExecStatus;
  er_stdout : TerminalExecCapturedOutput;
  er_stderr : TerminalExecCapturedOutput;
  er_duration : N;
}.
Definition exec_result_validate (r : TerminalExecResult) : checked :=
  let? _ := exec_status_validate (er_status r) in
  let? _ := captured_validate (er_stdout r) in
  let? _ := captured_validate (er_stderr r) in
  let? _ := contract (er_duration r <=? MAX_TERMINAL_EXEC_DURATION)%N in
  contract (eqb (match er_status r with Exec_OutputLimit => true | _ => false end)
    (MAX_TERMINAL_ACTION_OUTPUT_BYTES <? saturating_add (xo_total_bytes (er_stdout r)) (xo_total_bytes (er_stderr r)))%N).

Inductive TerminalActionResult :=
| Res_Exec (result : TerminalExecResult)
| Res_Start (session : TerminalSessionFacts) (outcome : TerminalReturnOutcome)
| Res_Read (session : TerminalSessionFacts) (output : list ascii) (raw_range : option TerminalRawRange)
| Res_Screen (session : TerminalSessionFacts) (snapshot : TerminalScreen)
| Res_Write (session : TerminalSessionFacts) (accepted_bytes : N)
| Res_Wait (session : TerminalSessionFacts) (outcome : TerminalReturnOutcome)
| Res_Monitor (session : TerminalSessionFacts) (monitor_id : option TerminalMonitorId)
| Res_Inspect (session : TerminalSessionFacts) (shell cwd : string) (command : option string)
    (monitors : list TerminalMonitorSummary) (events : list TerminalMonitorEvent) (event_gap_through next_event_id : N)
| Res_List (sessions : list TerminalSessionFacts)
| Res_Resize (session : TerminalSessionFacts) (dimensions : TerminalDimensions)
| Res_Signal (session : TerminalSessionFacts) (signal : TerminalSignal)
| Res_Close (session : TerminalSessionFacts) (policy : TerminalClosePolicy).

Definition result_action (r : TerminalActionResult) : TerminalAction :=
  match r with
  | Res_Exec _ => Act_Exec | Res_Start _ _ => Act_Start | Res_Read _ _ _ => Act_Read | Res_Screen _ _ => Act_Screen
  | Res_Write _ _ => Act_Write | Res_Wait _ _ => Act_Wait | Res_Monitor _ _ => Act_Monitor
  | Res_Inspect _ _ _ _ _ _ _ _ => Act_Inspect | Res_List _ => Act_List | Res_Resize _ _ => Act_Resize
  | Res_Signal _ _ => Act_Signal | Res_Close _ _ => Act_Close
  end.

Definition result_session (r : TerminalActionResult) : option TerminalSessionFacts :=
  match r with
  | Res_Exec _ | Res_List _ => None
  | Res_Start s _ | Res_Read s _ _ | Res_Screen s _ | Res_Write s _ | Res_Wait s _ | Res_Monitor s _
  | Res_Inspect s _ _ _ _ _ _ _ | Res_Resize s _ | Res_Signal s _ | Res_Close s _ => Some s
  end.

(** The loop over the events of an inspection. *)
Fixpoint validate_events (events : list TerminalMonitorEvent) (previous next_event_id : N) : checked :=
  match events with
  | [] => Ok tt
  | event :: events =>
      let? _ := monitor_event_validate event in
      let? _ := contract ((previous <? ev_event_id event)%N && (ev_event_id event <? next_event_id)%N) in
      validate_events events (ev_event_id event) next_event_id
  end.

Definition result_validate (r : TerminalActionResult) : checked :=
  let? _ := optional facts_validate (result_session r) in
  match r with
  | Res_Exec result => exec_result_validate result
  | Res_Start _ outcome | Res_Wait _ outcome => outcome_validate outcome
  | Res_Read session output raw_range =>
      let? _ := contract (vec_len output <=? MAX_TERMINAL_ACTION_OUTPUT_BYTES)%N in
      optional (fun range =>
        let? _ := range_validate range in
        contract (cursor_leb (rr_end range) (sf_output_cursor session))) raw_range
  | Res_Screen _ snapshot => screen_validate snapshot
  | Res_Write _ accepted_bytes => contract (accepted_bytes <=? MAX_TERMINAL_WRITE_BYTES)%N
  | Res_Inspect _ shell cwd command monitors events event_gap_through next_event_id =>
      let? _ := text shell MAX_TERMINAL_ACTION_TEXT_BYTES in
      let? _ := text cwd MAX_TERMINAL_ACTION_TEXT_BYTES in
      let? _ := optional (fun command => text command MAX_TERMINAL_ACTION_COMMAND_BYTES) command in
      let? _ := contract ((vec_len monitors <=? MAX_TERMINAL_ACTION_RESULTS)%N &&
                          (vec_len events <=? MAX_TERMINAL_ACTION_RESULTS)%N && (0 <? next_event_id)%N &&
                          (event_gap_through <? next_event_id)%N) in
      validate_events events 0 next_event_id
  | Res_List sessions =>
      let? _ := contract (vec_len sessions <=? MAX_TERMINAL_ACTION_RESULTS)%N in
      each facts_validate sessions
  | Res_Resize _ dimensions => dimensions_validate dimensions
  | Res_Monitor _ _ | Res_Signal _ _ | Res_Close _ _ => Ok tt
  end.

#[export] Instance TerminalDimensions_eq_dec : EqDecision TerminalDimensions.
Proof. solve_decision. Defined.

(** [TerminalActionResult::validate_for] *)
Definition result_validate_for (self : TerminalActionResult) (request : TerminalActionRequest) : checked :=
  let? _ := request_validate request in
  let? _ := result_validate self in
  let? _ := contract (bool_decide (result_action self = request_action request)) in
  let? _ := optional (fun id =>
    contract (match result_session self with Some session => bool_decide (sf_session_id session = id) | None => false end))
    (request_session_id request) in
  match self, request with
  | Res_Start session _, Req_Start request => contract (bool_decide (sf_backend session = sr_backend request))
  | Res_Resize _ dimensions, Req_Resize _ requested => contract (bool_decide (dimensions = requested))
  | Res_Signal _ signal, Req_Signal _ requested => contract (bool_decide (signal = requested))
  | Res_Close _ policy, Req_Close _ requested => contract (bool_decide (policy = requested))
  | Res_Write _ accepted_bytes, Req_Write _ request =>
      contract (bool_decide (is_Some (wr_payload request)) || (accepted_bytes =? 0)%N)
  | Res_Inspect _ _ _ _ _ events _ _, Req_Inspect _ query =>
      contract ((vec_len events <=? max_events query)%N &&
                forallb (fun event => (after_event_id query <? ev_event_id event)%N) events)
  | _, _ => Ok tt
  end.

Inductive TerminalActionErrorCode :=
| Code_InvalidRequest | Code_PathOutsideWorkspace | Code_UnsupportedHost | Code_ShellUnavailable | Code_PtyUnavailable
| Code_StartupFailed | Code_ProcessIdentityUnavailable | Code_SessionLost | Code_SessionNotFound | Code_InvalidLifecycle
| Code_AuthorityDenied | Code_LeaseConflict | Code_CursorGap | Code_ScreenUnavailable | Code_MonitorUnavailable
| Code_ProtocolIncompatible | Code_CapacityExceeded | Code_Cancelled.

Inductive TerminalActionResponse :=
| Resp_Success (result : TerminalActionResult)
| Resp_Failure (action : TerminalAction) (code : TerminalActionErrorCode) (session_id : option TerminalSessionId) (retryable : bool).

Definition response_validate (r : TerminalActionResponse) : checked :=
  match r with Resp_Success result => result_validate result | Resp_Failure _ _ _ _ => Ok tt end.

Definition response_validate_for (self : TerminalActionResponse) (request : TerminalActionRequest) : checked :=
  let? _ := request_validate request in
  match self with
  | Resp_Success result => result_validate_for result request
  | Resp_Failure action _ session_id _ =>
      let? _ := contract (bool_decide (action = request_action request)) in
      contract (match session_id with
                | None => true
                | Some id => bool_decide (action = Act_Start) || bool_decide (Some id = request_session_id request)
                end)
  end.

(** ** What a checked reply is *)
(** The part of a reply that depends on the request: the right action, the right
    session, and a receipt of exactly what was asked. *)
Inductive answers : TerminalActionRequest -> TerminalActionResult -> Prop :=
| Ans_exec q r : answers (Req_Exec q) (Res_Exec r)
| Ans_start q s out : sf_backend s = sr_backend q -> answers (Req_Start q) (Res_Start s out)
| Ans_read id c s out range : sf_session_id s = id -> answers (Req_Read id c) (Res_Read s out range)
| Ans_screen id s shot : sf_session_id s = id -> answers (Req_Screen id) (Res_Screen s shot)
| Ans_write id q s n : sf_session_id s = id -> (wr_payload q = None -> n = 0%N) -> answers (Req_Write id q) (Res_Write s n)
| Ans_wait id q s out : sf_session_id s = id -> answers (Req_Wait id q) (Res_Wait s out)
| Ans_monitor id op s m : sf_session_id s = id -> answers (Req_Monitor id op) (Res_Monitor s m)
| Ans_inspect id q s shell cwd command monitors events gap next :
    sf_session_id s = id -> (vec_len events <= max_events q)%N ->
    Forall (fun e => after_event_id q < ev_event_id e)%N events ->
    answers (Req_Inspect id q) (Res_Inspect s shell cwd command monitors events gap next)
| Ans_list f l : answers (Req_List f) (Res_List l)
| Ans_resize id d s : sf_session_id s = id -> answers (Req_Resize id d) (Res_Resize s d)
| Ans_signal id sig s : sf_session_id s = id -> answers (Req_Signal id sig) (Res_Signal s sig)
| Ans_close id p s : sf_session_id s = id -> answers (Req_Close id p) (Res_Close s p).

(** What a failed reply may name. *)
Definition failure_answers (request : TerminalActionRequest) (action : TerminalAction) (session_id : option TerminalSessionId) : Prop :=
  action = request_action request /\
  forall id, session_id = Some id -> action = Act_Start \/ request_session_id request = Some id.

Lemma result_for_exact self request :
  result_validate_for self request = Ok tt <->
  request_validate request = Ok tt /\ result_validate self = Ok tt /\ answers request self.
Proof.
  unfold result_validate_for. rewrite !step_ok, contract_ok, bool_decide_eq_true.
  assert (forall b, b = true -> contract b = Ok tt) as Hc by (by intros b ->). split.
  - intros (Hq & Hr & Ha & Hs & Hm). split_and!; [done|done|]. clear Hq Hr.
    destruct self, request; simpl in *; try discriminate; try rewrite contract_ok, bool_decide_eq_true in Hs;
      try rewrite contract_ok in Hm; try rewrite bool_decide_eq_true in Hm; subst; try by constructor.
    + constructor; [done|]. intros Hn. rewrite orb_true_iff, bool_decide_eq_true, N.eqb_eq in Hm. destruct Hm as [[? E]|]; [congruence|done].
    + rewrite andb_true_iff, N.leb_le, forallb_forall in Hm. destruct Hm as [Hm1 Hm2]. constructor; [done|done|].
      apply Forall_forall. intros e He. apply N.ltb_lt, Hm2. by apply list_elem_of_In.
  - intros (Hq & Hr & Ha). split_and!; [done|done|by destruct Ha|..].
    + destruct Ha; simpl; try done; apply Hc; by apply bool_decide_eq_true.
    + destruct Ha; try done; apply Hc; rewrite ?bool_decide_eq_true; try done.
      * rewrite orb_true_iff, bool_decide_eq_true, N.eqb_eq. destruct (wr_payload q) eqn:E; [left; by eexists|right; auto].
      * rewrite andb_true_iff, N.leb_le, forallb_forall. split; [done|]. intros e He. apply N.ltb_lt.
        apply list_elem_of_In in He. by match goal with H : Forall _ events |- _ => apply (proj1 (Forall_forall _ _) H) in He end.
Qed.

Lemma response_for_iff self request :
  response_validate_for self request = Ok tt <->
  request_validate request = Ok tt /\
  match self with
  | Resp_Success result => result_validate result = Ok tt /\ answers request result
  | Resp_Failure action _ session_id _ => failure_answers request action session_id
  end.
Proof.
  unfold response_validate_for. rewrite step_ok. destruct self as [result|action code session_id retryable].
  - rewrite result_for_exact. naive_solver.
  - unfold failure_answers. rewrite step_ok, !contract_ok, bool_decide_eq_true. destruct session_id as [id|].
    + rewrite orb_true_iff, !bool_decide_eq_true. split.
      * intros (Hq & Ha & Hid). split_and!; [done|done|]. intros id' [= <-]. destruct Hid; [by left|by right].
      * intros (Hq & Ha & Hid). split_and!; [done|done|]. destruct (Hid id eq_refl); [by left|by right].
    + naive_solver.
Qed.

(** Replies are checked against their requests: a reply is delivered exactly when the
    request and the reply are well formed and the reply has the action, the session
    and the receipt of the request; a failure names no session but that of the
    request, or the one a start has created. *)
Theorem response_for_exact self request :
  response_validate_for self request = Ok tt <->
  request_validate request = Ok tt /\
  match self with
  | Resp_Success result => result_validate result = Ok tt /\ answers request result
  | Resp_Failure action _ session_id _ => failure_answers request action session_id
  end.
Proof. apply response_for_iff. Qed.

(** The events of an inspection are new to the reader and in order. *)
Lemma validate_events_ok events previous next :
  validate_events events previous next = Ok tt <->
  Sorted N.lt (previous :: map ev_event_id events) /\
  Forall (fun e => (ev_event_id e < next)%N /\ monitor_event_validate e = Ok tt) events.
Proof.
  revert previous. induction events as [|e events IH]; intros previous; cbn [validate_events map].
  { split; [|done]. intros _. split; [by constructor|constructor]. }
  rewrite !step_ok, contract_ok, andb_true_iff, !N.ltb_lt, IH, Forall_cons. split.
  - intros (He & [Hp Hn] & Hs & Hf). split_and!; [by constructor; [|constructor]|done|done|done].
  - intros (Hs & [Hn He] & Hf). apply Sorted_inv in Hs as [Hs Hd]. inversion Hd; subst. by split_and!.
Qed.

(** A checked inspection page: at most as many events as asked for, each after the
    reader's position and before the next identifier, in ascending order. *)
Theorem inspect_page_ordered id q s shell cwd command monitors events gap next :
  response_validate_for (Resp_Success (Res_Inspect s shell cwd command monitors events gap next)) (Req_Inspect id q) = Ok tt ->
  sf_session_id s = id /\ (vec_len events <= N.min (max_events q) 256)%N /\
  StronglySorted N.lt (map ev_event_id events) /\
  Forall (fun e => after_event_id q < ev_event_id e < next)%N events.
Proof.
  intros (Hq & Hr & Ha)%response_for_iff. inversion Ha; subst. unfold result_validate in Hr.
  rewrite !step_ok, contract_ok, !andb_true_iff, !N.leb_le, validate_events_ok in Hr.
  destruct Hr as (_ & _ & _ & _ & (((_ & Hn) & _) & _) & Hs & Hf). unfold MAX_TERMINAL_ACTION_RESULTS in Hn.
  split_and!; [done|lia| |].
  - apply Sorted_inv in Hs as [Hs _]. apply Sorted_StronglySorted; [intros a b c; lia|done].
  - apply Forall_forall. intros e He. pose proof (proj1 (Forall_forall _ _) Hf e He) as [Hlt _]. split; [|done].
    by match goal with H : Forall (fun e => after_event_id _ < _)%N _ |- _ => apply (proj1 (Forall_forall _ _) H) in He end.
Qed.
