(* ===== verification/Invocation.v ===== *)
(** * Admitted invocations ([tool/invocation.rs])

    The witnesses of sessions and turns, and the one-shot claim of a prepared
    invocation. A witness is a [Weak]: upgrading it takes a strong reference for the
    length of the test, and a number names each allocation. [call_winner] is the task
    whose compare-and-exchange succeeded; the program has only the flag. *)
From S2P Require Import Prelude Json Model Prog.
Open Scope prog_scope.

Record ScopeCell := { is_session : nat; is_open : bool; is_cancelled_scope : bool; is_strong : N }.
Record CallCell := { call_turn : nat; call_claimed : bool; call_winner : option nat; call_strong : N }.

(** [i_session] is the strong count of each session. *)
Record InvWorld := { i_session : nat -> N; i_scope : nat -> ScopeCell; i_call : nat -> CallCell }.

Definition set_scope (s : InvWorld) (t : nat) (c : ScopeCell) : InvWorld :=
  {| i_session := i_session s; i_scope := upd t c (i_scope s); i_call := i_call s |}.
Definition set_call (s : InvWorld) (k : nat) (c : CallCell) : InvWorld :=
  {| i_session := i_session s; i_scope := i_scope s; i_call := upd k c (i_call s) |}.
Definition set_session_count (s : InvWorld) (i : nat) (n : N) : InvWorld :=
  {| i_session := upd i n (i_session s); i_scope := i_scope s; i_call := i_call s |}.

Definition scope_strong (c : ScopeCell) (n : N) : ScopeCell :=
  {| is_session := is_session c; is_open := is_open c; is_cancelled_scope := is_cancelled_scope c; is_strong := n |}.
Definition call_with_strong (c : CallCell) (n : N) : CallCell :=
  {| call_turn := call_turn c; call_claimed := call_claimed c; call_winner := call_winner c; call_strong := n |}.

Notation iprog := (prog InvWorld Empty_set (fun q => match q with end)).

(** [Weak::upgrade] and the drop of what it returned. *)
Definition upgrade_turn_scope (t : nat) : iprog bool :=
  act (fun s => let c := i_scope s t in
    if (is_strong c =? 0)%N then (false, s) else (true, set_scope s t (scope_strong c (is_strong c + 1)))).
Definition drop_turn_scope (t : nat) : iprog unit :=
  modify (fun s => set_scope s t (scope_strong (i_scope s t) (is_strong (i_scope s t) - 1))).
Definition upgrade_call (k : nat) : iprog bool :=
  act (fun s => let c := i_call s k in
    if (call_strong c =? 0)%N then (false, s) else (true, set_call s k (call_with_strong c (call_strong c + 1)))).
Definition drop_call (k : nat) : iprog unit :=
  modify (fun s => set_call s k (call_with_strong (i_call s k) (call_strong (i_call s k) - 1))).

(** [SessionWitness] and [TurnWitness] are numbers. *)
Definition session_is_live (session : nat) : iprog bool := get (fun s => negb (i_session s session =? 0)%N).
Definition witness_same_session (a b : nat) : bool := (a =? b)%nat.
Definition owns_turn (session turn : nat) : iprog bool :=
  do alive <- upgrade_turn_scope turn;
  if negb alive then Ret false
  else
    do owner <- get (fun s => is_session (i_scope s turn));
    do _ <- drop_turn_scope turn;
    Ret (owner =? session)%nat.

(** [TurnWitness::is_live]: three loads, each of which may see a different moment. *)
Definition turn_is_live (turn : nat) : iprog bool :=
  do alive <- upgrade_turn_scope turn;
  if negb alive then Ret false
  else
    do open <- get (fun s => is_open (i_scope s turn));
    do live <- (if negb open then Ret false
                else
                  do cancelled <- get (fun s => is_cancelled_scope (i_scope s turn));
                  if (cancelled : bool) then Ret false
                  else get (fun s => negb (i_session s (is_session (i_scope s turn)) =? 0)%N));
    do _ <- drop_turn_scope turn;
    Ret live.
Definition belongs_to (turn session : nat) : iprog bool :=
  do alive <- upgrade_turn_scope turn;
  if negb alive then Ret false
  else
    do owner <- get (fun s => is_session (i_scope s turn));
    do _ <- drop_turn_scope turn;
    Ret (owner =? session)%nat.
Definition witness_same_turn (a b : nat) : bool := (a =? b)%nat.

(** [InvocationTurnScope::new], [close], the cancellation of its token. *)
Definition new_scope (session : nat) : ScopeCell :=
  {| is_session := session; is_open := true; is_cancelled_scope := false; is_strong := 1 |}.
Definition close_scope (turn : nat) : iprog unit :=
  modify (fun s => let c := i_scope s turn in
    set_scope s turn {| is_session := is_session c; is_open := false; is_cancelled_scope := is_cancelled_scope c;
                        is_strong := is_strong c |}).
Definition cancel_scope (turn : nat) : iprog unit :=
  modify (fun s => let c := i_scope s turn in
    set_scope s turn {| is_session := is_session c; is_open := is_open c; is_cancelled_scope := true;
                        is_strong := is_strong c |}).

(** [AdmittedToolInvocation], which names its call, and [new]. *)
Record AdmittedToolInvocation := {
  adm_context : ToolContext;
  adm_name : ToolName;
  adm_arguments : Value;
  adm_call : nat;
}.
Definition invocation_into_parts (self : AdmittedToolInvocation) : ToolContext * Value := (adm_context self, adm_arguments self).
Definition new_call (turn : nat) : CallCell :=
  {| call_turn := turn; call_claimed := false; call_winner := None; call_strong := 1 |}.

(** [claimed.compare_exchange(false, true)] *)
Definition exchange_claimed (me k : nat) : iprog bool :=
  act (fun s => let c := i_call s k in
    if call_claimed c then (false, s)
    else (true, set_call s k {| call_turn := call_turn c; call_claimed := true; call_winner := Some me;
                                call_strong := call_strong c |})).

(** [AdmittedToolInvocation::claim] *)
Definition claim (me k turn : nat) : iprog bool :=
  do alive <- upgrade_call k;
  if negb alive then Ret false
  else
    do own <- get (fun s => call_turn (i_call s k));
    do won <- (if negb (witness_same_turn own turn) then Ret false
               else
                 do live <- turn_is_live own;
                 if (live : bool) then exchange_claimed me k else Ret false);
    do _ <- drop_call k;
    Ret won.

(** [Drop for CallScopeOwner]: the flag is set, then the reference released. *)
Definition drop_owner (k : nat) : iprog unit :=
  do _ <- modify (fun s => let c := i_call s k in
    set_call s k {| call_turn := call_turn c; call_claimed := true; call_winner := call_winner c;
                    call_strong := call_strong c |});
  drop_call k.

(** ** What tasks do to each other *)
Record call_step (c c' : CallCell) : Prop := {
  cs_turn : call_turn c' = call_turn c;
  cs_claimed : call_claimed c = true -> call_claimed c' = true;
  cs_winner : forall w, call_winner c = Some w -> call_winner c' = Some w;
  cs_late : call_claimed c = true -> call_winner c' = call_winner c;
}.
Record scope_step (c c' : ScopeCell) : Prop := {
  sst_session : is_session c' = is_session c;
  sst_open : is_open c = false -> is_open c' = false;
  sst_cancelled : is_cancelled_scope c = true -> is_cancelled_scope c' = true;
}.

(** A winner has the claim. *)
Definition inv_ok (s : InvWorld) : Prop := forall k w, call_winner (i_call s k) = Some w -> call_claimed (i_call s k) = true.

Record inv_step (s s' : InvWorld) : Prop := {
  ist_ok : inv_ok s -> inv_ok s';
  ist_call : forall k, call_step (i_call s k) (i_call s' k);
  ist_scope : forall t, scope_step (i_scope s t) (i_scope s' t);
}.

(** Others never win for [me]. *)
Record claim_rely (me : nat) (s s' : InvWorld) : Prop := {
  ir_step : inv_step s s';
  ir_winner : forall k, call_winner (i_call s' k) = Some me -> call_winner (i_call s k) = Some me;
}.

Lemma call_step_refl c : call_step c c.
Proof. by split. Qed.
Lemma scope_step_refl c : scope_step c c.
Proof. by split. Qed.
Lemma inv_step_refl s : inv_step s s.
Proof. split; auto using call_step_refl, scope_step_refl. Qed.
Lemma inv_step_trans a b c : inv_step a b -> inv_step b c -> inv_step a c.
Proof.
  intros [O1 C1 S1] [O2 C2 S2]. split; [auto|..].
  - intros k. destruct (C1 k) as [A1 A2 A3 A4], (C2 k) as [B1 B2 B3 B4]. split; [congruence|auto|auto|].
    intros H. rewrite B4; auto.
  - intros t. destruct (S1 t), (S2 t). split; [congruence|auto|auto].
Qed.
Lemma claim_rely_refl me s : claim_rely me s s.
Proof. split; [apply inv_step_refl|done]. Qed.
Lemma claim_rely_trans me a b c : claim_rely me a b -> claim_rely me b c -> claim_rely me a c.
Proof. intros [S1 W1] [S2 W2]. split; [by eapply inv_step_trans|auto]. Qed.

(** A turn as it was seen: alive, open, not cancelled, with a live session. *)
Record seen_live (turn : nat) (h : history InvWorld Empty_set (fun q => match q with end)) : Prop := {
  sl_alive : exists s s', EvAct s s' ∈ h /\ is_strong (i_scope s turn) <> 0%N;
  sl_open : exists s s', EvAct s s' ∈ h /\ is_open (i_scope s turn) = true;
  sl_cancelled : exists s s', EvAct s s' ∈ h /\ is_cancelled_scope (i_scope s turn) = false;
  sl_session : exists s s', EvAct s s' ∈ h /\ i_session s (is_session (i_scope s turn)) <> 0%N;
}.

Notation ievents := (history InvWorld Empty_set (fun q => match q with end)).
Definition no_reply (h : ievents) (s : InvWorld) (q : Empty_set) : match q with end -> Prop := match q with end.

Definition claim_allowed (me : nat) (e : event InvWorld Empty_set (fun q => match q with end)) (h : ievents) : Prop :=
  match e with
  | EvAct s s' | EvDrop s s' => forall other, other <> me -> claim_rely other s s'
  | EvAsk _ _ _ => True
  end.

(** An event that consumes no claim, and a history that grew by such events. *)
Definition spends_none (e : event InvWorld Empty_set (fun q => match q with end)) : Prop :=
  match e with
  | EvAct s s' | EvDrop s s' => forall j, call_claimed (i_call s' j) = call_claimed (i_call s j)
  | EvAsk _ _ _ => True
  end.
Definition quiet_ext (h h' : ievents) : Prop := exists l, h' = l ++ h /\ Forall spends_none l.

Lemma quiet_ext_refl h : quiet_ext h h.
Proof. by exists []. Qed.
Lemma quiet_act e h h' : spends_none e -> quiet_ext h h' -> quiet_ext h (e :: h').
Proof. intros He (l & -> & Hl). exists (e :: l). by split; [|constructor]. Qed.
Lemma quiet_trans h1 h2 h3 : quiet_ext h1 h2 -> quiet_ext h2 h3 -> quiet_ext h1 h3.
Proof. intros (l & -> & Hl) (l' & -> & Hl'). exists (l' ++ l). by rewrite <-app_assoc, Forall_app. Qed.
#[local] Hint Resolve quiet_ext_refl : core.

(** ** Actions *)
Lemma rely_set_call other s k c :
  call_step (i_call s k) c -> (call_winner c = Some other -> call_winner (i_call s k) = Some other) ->
  (call_winner (i_call s k) = None -> forall w, call_winner c = Some w -> call_claimed c = true) ->
  claim_rely other s (set_call s k c).
Proof.
  intros Hc Hw Hn. split.
  - split; simpl.
    + intros Hok j w. unfold set_call, upd. simpl. destruct (decide (j = k)) as [->|]; [|apply Hok].
      destruct (call_winner (i_call s k)) as [w'|] eqn:E; [|by apply Hn]. intros _. apply (cs_claimed _ _ Hc). by eapply Hok.
    + intros j. unfold upd. destruct (decide (j = k)) as [->|]; [done|apply call_step_refl].
    + intros t. apply scope_step_refl.
  - intros j. simpl. unfold upd. by destruct (decide (j = k)) as [->|].
Qed.

Lemma rely_set_scope other s t c : scope_step (i_scope s t) c -> claim_rely other s (set_scope s t c).
Proof.
  intros Hc. split; [|done]. split; [done|intros; apply call_step_refl|].
  intros j. simpl. unfold upd. destruct (decide (j = t)) as [->|]; [done|apply scope_step_refl].
Qed.

Lemma rely_call_strong other s k n : claim_rely other s (set_call s k (call_with_strong (i_call s k) n)).
Proof. apply rely_set_call; [by split|done|simpl; congruence]. Qed.

Section Claim.
Context (me : nat).
Notation cwp := (wp (claim_rely me) no_reply (claim_allowed me)).

(** Steps that neither win nor depend on who does. *)
Lemma cwp_quiet {X B} (f : InvWorld -> X * InvWorld) (c : X -> iprog B) post s h :
  (forall s' other, claim_rely other s' (snd (f s'))) ->
  (forall s', claim_rely me s s' -> cwp (c (fst (f s'))) post (snd (f s')) (EvAct s' (snd (f s')) :: h)) ->
  cwp (bind (act f) c) post s h.
Proof. intros Hf Hc s' R. split; [intros other _; apply Hf|]. by apply Hc. Qed.

Lemma cwp_read {X B} (f : InvWorld -> X) (c : X -> iprog B) post s h :
  (forall s', claim_rely me s s' -> cwp (c (f s')) post s' (EvAct s' s' :: h)) -> cwp (bind (get f) c) post s h.
Proof. intros Hc. apply cwp_quiet; [intros; apply claim_rely_refl|done]. Qed.

Lemma cwp_drop_scope {B} t (c : unit -> iprog B) post s h :
  (forall s' h', claim_rely me s s' -> quiet_ext h h' -> cwp (c tt) post s' h') -> cwp (bind (drop_turn_scope t) c) post s h.
Proof.
  intros Hc. apply cwp_quiet; [intros; by apply rely_set_scope|]. intros s' R. apply Hc; [|by apply quiet_act].
  eapply claim_rely_trans; [done|]. by apply rely_set_scope.
Qed.

(** A successful test saw the turn live. *)
Lemma cwp_turn_is_live {B} turn (c : bool -> iprog B) post s h :
  (forall live s' h', claim_rely me s s' -> quiet_ext h h' -> (live = true -> seen_live turn h') -> cwp (c live) post s' h') ->
  cwp (bind (turn_is_live turn) c) post s h.
Proof.
  intros Hc. apply wp_assoc. apply cwp_quiet.
  { intros s' other. simpl. destruct (is_strong _ =? 0)%N; [apply claim_rely_refl|by apply rely_set_scope]. }
  intros s1 R1. cbn beta zeta. destruct (N.eqb_spec (is_strong (i_scope s1 turn)) 0) as [|Ha]; cbn [fst snd negb].
  { apply Hc; [done|by apply quiet_act|done]. }
  set (s1' := set_scope _ _ _). assert (claim_rely me s1 s1') as R1' by (by apply rely_set_scope).
  apply wp_assoc, cwp_read. intros s2 R2. assert (claim_rely me s s2) as R12 by (do 2 (eapply claim_rely_trans; [eassumption|]); done).
  destruct (is_open (i_scope s2 turn)) eqn:Eo; cbn [negb].
  2:{ apply wp_assoc. rewrite bind_ret. apply wp_assoc, cwp_drop_scope. intros s3 h3 R3 Hs. rewrite bind_ret. apply Hc; [by eapply claim_rely_trans| |done].
      eapply quiet_trans; [|done]. by do 2 (apply quiet_act; [done|]). }
  apply wp_assoc, wp_assoc, cwp_read. intros s3 R3. assert (claim_rely me s s3) as R13 by (by eapply claim_rely_trans).
  destruct (is_cancelled_scope (i_scope s3 turn)) eqn:Ec.
  { rewrite bind_ret. apply wp_assoc, cwp_drop_scope. intros s4 h4 R4 Hs. rewrite bind_ret. apply Hc; [by eapply claim_rely_trans| |done].
    eapply quiet_trans; [|done]. by do 3 (apply quiet_act; [done|]). }
  apply cwp_read. intros s4 R4. assert (claim_rely me s s4) as R14 by (by eapply claim_rely_trans).
  apply wp_assoc, cwp_drop_scope. intros s5 h5 R5 Hs. rewrite bind_ret. apply Hc; [by eapply claim_rely_trans| |].
  { eapply quiet_trans; [|done]. by do 4 (apply quiet_act; [done|]). }
  intros Hl%negb_true_iff%N.eqb_neq. destruct Hs as (l & -> & _). split.
  - exists s1, s1'. split; [set_solver|done].
  - exists s2, s2. split; [set_solver|done].
  - exists s3, s3. split; [set_solver|done].
  - exists s4, s4. split; [set_solver|done].
Qed.

(** What a claim that returned [true] did: it alone consumed the claim, for the turn
    of the call, which it had seen live. *)
Record won (k turn : nat) (s : InvWorld) (h : ievents) : Prop := {
  won_winner : call_winner (i_call s k) = Some me;
  won_turn : call_turn (i_call s k) = turn;
  won_live : seen_live turn h;
}.
Definition claim_post (k turn : nat) (o : outcome bool) (s : InvWorld) (h : ievents) : Prop :=
  match o with
  | Returned true => won k turn s h
  | Returned false => Forall spends_none h
  | _ => False
  end.

Lemma spends_none_call_strong s k n : spends_none (EvAct s (set_call s k (call_with_strong (i_call s k) n))).
Proof. intros j. simpl. unfold upd. by destruct (decide (j = k)) as [->|]. Qed.

Lemma seen_live_mono turn (h h' : ievents) : seen_live turn h -> (forall e, e ∈ h -> e ∈ h') -> seen_live turn h'.
Proof. intros [H1 H2 H3 H4] Hin. split; [destruct H1 as (a & b & ? & ?)|destruct H2 as (a & b & ? & ?)|destruct H3 as (a & b & ? & ?)|destruct H4 as (a & b & ? & ?)];
    exists a, b; auto. Qed.

Lemma won_stable k turn s s' h h' : claim_rely me s s' -> quiet_ext h h' -> won k turn s h -> won k turn s' h'.
Proof.
  intros [[_ Hc _] _] (l & -> & _) [Hw Ht Hl]. destruct (Hc k) as [C1 _ C3 _]. split; [by apply C3|congruence|].
  eapply seen_live_mono; [done|]. intros e He. apply elem_of_app. by right.
Qed.

(** The release of the upgraded reference, which ends every claim. *)
Lemma cwp_end k turn (w : bool) s h :
  (if w then won k turn s h else Forall spends_none h) -> cwp (do _ <- drop_call k; Ret w) (claim_post k turn) s h.
Proof.
  intros Hw. apply cwp_quiet; [intros; apply rely_call_strong|]. intros s1 R1 s2 R2. cbn [fst snd] in *.
  assert (claim_rely me s s2) as R by (eapply claim_rely_trans; [exact R1|]; eapply claim_rely_trans; [|exact R2]; apply rely_call_strong).
  destruct w; simpl; [|by constructor; [apply spends_none_call_strong|]].
  eapply won_stable; [exact R| |exact Hw]. apply quiet_act; [apply spends_none_call_strong|done].
Qed.

Lemma cwp_exchange k turn s h :
  inv_ok s -> call_turn (i_call s k) = turn -> Forall spends_none h -> seen_live turn h ->
  cwp (do won <- exchange_claimed me k; do _ <- drop_call k; Ret won) (claim_post k turn) s h.
Proof.
  intros Hok Ht Hq Hl s' R. cbn [bind fst snd]. assert (call_turn (i_call s' k) = turn) as Ht' by
    (rewrite <-Ht; apply R). destruct (call_claimed (i_call s' k)) eqn:Ec; cbn [fst snd].
  { split; [intros ? _; apply claim_rely_refl|]. apply cwp_end. by constructor. }
  split.
  - intros other Hne. apply rely_set_call; [split; simpl; try done|simpl; congruence|done].
    + intros w Hw. apply (ist_ok _ _ (ir_step _ _ _ R) Hok) in Hw. congruence.
    + congruence.
  - apply cwp_end. split; simpl; rewrite ?upd_same; [done|done|].
    eapply seen_live_mono; [done|]. intros e He. by right.
Qed.

Lemma claim_correct k turn s : inv_ok s -> cwp (claim me k turn) (claim_post k turn) s [].
Proof.
  intros Hok. apply cwp_quiet.
  { intros s' other. simpl. destruct (call_strong _ =? 0)%N; [apply claim_rely_refl|apply rely_call_strong]. }
  intros s1 R1. cbn beta zeta. destruct (N.eqb_spec (call_strong (i_call s1 k)) 0) as [|Ha]; cbn [fst snd negb].
  { intros s2 R2. by constructor. }
  set (s1' := set_call _ _ _). assert (claim_rely me s1 s1') as R1' by apply rely_call_strong.
  assert (spends_none (EvAct s1 s1')) as Hq by apply spends_none_call_strong.
  apply cwp_read. intros s2 R2. assert (claim_rely me s s2) as R12 by (do 2 (eapply claim_rely_trans; [eassumption|]); done).
  assert (inv_ok s2) as Hok2 by (by apply R12). set (h := EvAct s2 s2 :: _).
  assert (Forall spends_none h) as Hh by (by repeat constructor).
  unfold witness_same_turn. destruct (Nat.eqb_spec (call_turn (i_call s2 k)) turn) as [Et|]; cbn [negb].
  2:{ rewrite bind_ret. by apply cwp_end. }
  rewrite Et. apply wp_assoc, cwp_turn_is_live. intros live s3 h3 R3 (l & -> & Hl) Hlive.
  assert (Forall spends_none (l ++ h)) by (by apply Forall_app). destruct live; [|rewrite bind_ret; by apply cwp_end].
  apply cwp_exchange; [by apply R3| |done|by apply Hlive]. rewrite <-Et. apply R3.
Qed.
End Claim.

(** ** Tasks *)
Inductive ClaimTask :=
| T_claim (call turn : nat)
| T_drop_owner (call : nat)
| T_close (turn : nat)
| T_cancel (turn : nat)
| T_drop_scope (turn : nat)
| T_session_count (session : nat) (count : N).
Definition claim_task (me : nat) (t : ClaimTask) : iprog bool :=
  match t with
  | T_claim k turn => claim me k turn
  | T_drop_owner k => do _ <- drop_owner k; Ret false
  | T_close turn => do _ <- close_scope turn; Ret false
  | T_cancel turn => do _ <- cancel_scope turn; Ret false
  | T_drop_scope turn => do _ <- drop_turn_scope turn; Ret false
  | T_session_count i n => do _ <- modify (fun s => set_session_count s i n); Ret false
  end.
Definition claim_pool (tasks : list ClaimTask) : list (@thread InvWorld Empty_set (fun q => match q with end) bool * ievents) :=
  imap (fun me t => (Live (claim_task me t), [])) tasks.
Definition claim_task_post (t : option ClaimTask) (me : nat) (o : outcome bool) (s : InvWorld) (h : ievents) : Prop :=
  match t with
  | Some (T_claim k turn) => claim_post me k turn o s h
  | _ => True
  end.

Lemma task_correct me t s : inv_ok s ->
  wp (claim_rely me) no_reply (claim_allowed me) (claim_task me t) (claim_task_post (Some t) me) s [].
Proof.
  intros Hok. destruct t as [k turn|k|turn|turn|turn|i n]; [by apply claim_correct|..]; cbn [claim_task].
  - apply wp_assoc, cwp_quiet; [intros; simpl; apply rely_set_call; [split; simpl; try done; congruence|done|done]|].
    intros s1 R1. apply cwp_quiet; [intros; apply rely_call_strong|done].
  - apply cwp_quiet; [intros; by apply rely_set_scope|done].
  - apply cwp_quiet; [intros; by apply rely_set_scope|done].
  - apply cwp_quiet; [intros; by apply rely_set_scope|done].
  - apply cwp_quiet; [|done]. intros s' other. simpl. split; [|done]. split; [done|..]; intros; [apply call_step_refl|apply scope_step_refl].
Qed.

Notation claim_steps := (pool_step (fun _ : nat => no_reply)).

Lemma claim_pool_sound tasks s0 ts s : inv_ok s0 -> rtc claim_steps (claim_pool tasks, s0) (ts, s) ->
  pool_ok claim_rely (fun _ => no_reply) claim_allowed (fun i => claim_task_post (tasks !! i) i) ts s /\ inv_step s0 s.
Proof.
  intros Hok Hs.
  assert (pool_ok claim_rely (fun _ => no_reply) claim_allowed (fun i => claim_task_post (tasks !! i) i) (claim_pool tasks) s0) as Hp.
  { intros i t. unfold claim_pool. rewrite list_lookup_imap. destruct (tasks !! i) as [task|] eqn:E; [|done].
    intros [= <-]. split; [|done]. simpl. rewrite E. by apply task_correct. }
  assert (forall i j s s' h, i <> j -> claim_allowed i (EvAct s s') h \/ claim_allowed i (EvDrop s s') h -> claim_rely j s s') as Hc.
  { intros i j a b h Hij [H|H]; apply H; auto. }
  split.
  - exact (pool_sound _ _ _ _ claim_rely_refl claim_rely_trans Hc _ _ Hs Hp).
  - exact (ir_step _ _ _ (pool_rely _ _ _ _ claim_rely_refl claim_rely_trans Hc _ _ (length (claim_pool tasks)) Hs Hp (le_n _))).
Qed.

Lemma task_returned tasks s0 ts s i k turn b h : inv_ok s0 -> rtc claim_steps (claim_pool tasks, s0) (ts, s) ->
  tasks !! i = Some (T_claim k turn) -> ts !! i = Some (Live (Ret b), h) -> claim_post i k turn (Returned b) s h.
Proof.
  intros Hok Hs Ht Hi. destruct (claim_pool_sound _ _ _ _ Hok Hs) as [Hp _]. destruct (Hp _ _ Hi) as [Hw _].
  simpl in Hw. rewrite Ht in Hw. apply Hw, claim_rely_refl.
Qed.

(** C19. A claim of a prepared invocation succeeds at most once. Whatever claims of calls,
    drops of their owners, closings, cancellations and releases of turns and of
    sessions run together, a claim that returned [true] named the turn of its call,
    found the turn alive, open and not cancelled with a live session, and the claim of the call
    had not been consumed or its owner dropped before; no other claim of that call
    returned [true]; and a claim that returned [false], foreign or stale, consumed
    no claim. *)
Theorem claim_once tasks s0 ts s :
  (forall k, call_winner (i_call s0 k) = None) -> rtc claim_steps (claim_pool tasks, s0) (ts, s) ->
  (forall i k turn h, tasks !! i = Some (T_claim k turn) -> ts !! i = Some (Live (Ret true), h) ->
    call_claimed (i_call s0 k) = false /\ call_turn (i_call s0 k) = turn /\ seen_live turn h /\
    forall j turn' h', tasks !! j = Some (T_claim k turn') -> ts !! j = Some (Live (Ret true), h') -> j = i) /\
  (forall i k turn h, tasks !! i = Some (T_claim k turn) -> ts !! i = Some (Live (Ret false), h) -> Forall spends_none h).
Proof.
  intros Hnone Hs. assert (inv_ok s0) as Hok by (intros k w; by rewrite Hnone).
  destruct (claim_pool_sound _ _ _ _ Hok Hs) as [_ [_ Hc _]]. split.
  - intros i k turn h Ht Hi. destruct (task_returned _ _ _ _ _ _ _ _ _ Hok Hs Ht Hi) as [Hw Htu Hl].
    destruct (Hc k) as [C1 _ _ C4]. split_and!; [|congruence|done|].
    + destruct (call_claimed (i_call s0 k)); [|done]. rewrite C4, Hnone in Hw by done. done.
    + intros j turn' h' Ht' Hj. destruct (task_returned _ _ _ _ _ _ _ _ _ Hok Hs Ht' Hj) as [Hw' _ _]. congruence.
  - intros i k turn h Ht Hi. exact (task_returned _ _ _ _ _ _ _ _ _ Hok Hs Ht Hi).
Qed.

(** Two claims of one call race, then a third names another turn. *)
Definition sample_claims : InvWorld :=
  {| i_session := fun _ => 1%N; i_scope := fun _ => new_scope 0; i_call := fun k => new_call k |}.
Definition racing_claims : list ClaimTask := [T_claim 0 0; T_claim 0 0; T_claim 1 0].
Notation claim_end := (run_pool (fun q : Empty_set => match q return (match q with end) with end)
  ([0; 1; 0; 1; 0; 1; 0; 1; 0; 1; 0; 1; 1; 0; 1; 0; 1; 0] ++ replicate 4 2) (claim_pool racing_claims, sample_claims)).
Definition task_result (t : @thread InvWorld Empty_set (fun q => match q with end) bool * ievents) : option bool :=
  match fst t with Live (Ret b) => Some b | _ => None end.
Lemma task_result_spec t b : task_result t = Some b -> exists h, t = (Live (Ret b), h).
Proof. destruct t as [[[]|] h]; unfold task_result; simpl; intros; simplify_eq. by exists h. Qed.

Lemma claim_once_witness :
  fst claim_end !! 0 ≫= task_result = Some false /\ fst claim_end !! 1 ≫= task_result = Some true /\
  fst claim_end !! 2 ≫= task_result = Some false /\
  forall j h', racing_claims !! j = Some (T_claim 0 0) -> fst claim_end !! j = Some (Live (Ret true), h') -> j = 1.
Proof.
  assert (fst claim_end !! 1 ≫= task_result = Some true) as H1 by (vm_compute; reflexivity).
  split_and!; [vm_compute; reflexivity|exact H1|vm_compute; reflexivity|].
  assert (rtc claim_steps (claim_pool racing_claims, sample_claims) (fst claim_end, snd claim_end)) as Hs.
  { rewrite <-surjective_pairing. apply run_pool_steps. intros i h s []. }
  apply bind_Some in H1 as (t & E & (h & ->)%task_result_spec).
  destruct (claim_once racing_claims sample_claims _ _ (fun k => eq_refl) Hs) as [Hc _].
  destruct (Hc 1 0 0 h eq_refl E) as (_ & _ & _ & Ho). intros j h'. apply Ho.
Defined.
