(* ===== verification/Tool.v ===== *)
(** * Tool values ([tool.rs])

    The constructors of prepared calls and of executions, the defaults of the [Tool]
    trait, and the destructors that release the JSON they own. Host tools are reached
    through the queries of a turn. *)
From S2P Require Import Prelude Json Model.

(** ** Prepared calls *)
Definition PreparedToolCall_new (capability : Capability) (arguments : Value) : PreparedToolCall :=
  {| prepared_authorization := PermissionRequired capability; prepared_arguments := arguments;
     prepared_execution_cancellation := Cancellable |}.
Definition without_authority (arguments : Value) : PreparedToolCall :=
  {| prepared_authorization := NoAuthorityRequired; prepared_arguments := arguments;
     prepared_execution_cancellation := Cancellable |}.
Definition completion_wins_after_first_poll (self : PreparedToolCall) : PreparedToolCall :=
  {| prepared_authorization := prepared_authorization self; prepared_arguments := prepared_arguments self;
     prepared_execution_cancellation := CompletionWinsAfterFirstPoll |}.
Definition require_tool_permission (self : PreparedToolCall) (name : ToolName) (call_id : ToolCallId) : PreparedToolCall :=
  match prepared_authorization self with
  | NoAuthorityRequired =>
      {| prepared_authorization := PermissionRequired (Cap_Tool name call_id (prepared_arguments self));
         prepared_arguments := prepared_arguments self;
         prepared_execution_cancellation := prepared_execution_cancellation self |}
  | PermissionRequired _ => self
  end.
Definition prepared_capability (self : PreparedToolCall) : option Capability :=
  match prepared_authorization self with
  | PermissionRequired capability => Some capability
  | NoAuthorityRequired => None
  end.

(** [Tool::prepare] when a tool does not override it *)
Definition default_prepare (call : ToolCall) : result PreparedToolCall ToolError :=
  let capability := Cap_Tool (call_name call) (call_id call) (call_arguments call) in
  Ok (PreparedToolCall_new capability (call_arguments call)).

(** [Drop for PreparedToolCall]: the roots it hands to the iterative destructor. *)
Definition prepared_drop (self : PreparedToolCall) : list Value :=
  match prepared_authorization self with
  | PermissionRequired (Cap_Tool _ _ arguments) => [arguments]
  | PermissionRequired (Cap_Custom _ details) => [details]
  | _ => []
  end ++ [prepared_arguments self].

(** ** Executions *)
Definition ToolExecution_output (output : ToolOutput) : ToolExecution :=
  {| exec_output := output; exec_persisted_output := None; exec_next_round_tool := None; exec_finish_turn := false |}.
Definition with_next_round_tool (output : ToolOutput) (next_round_tool : TurnToolRegistration) : ToolExecution :=
  {| exec_output := output; exec_persisted_output := None; exec_next_round_tool := Some next_round_tool;
     exec_finish_turn := false |}.
Definition finish_turn (self : ToolExecution) : ToolExecution :=
  {| exec_output := exec_output self; exec_persisted_output := exec_persisted_output self;
     exec_next_round_tool := exec_next_round_tool self; exec_finish_turn := true |}.
Definition with_persisted_output (output persisted_output : ToolOutput) : ToolExecution :=
  {| exec_output := output; exec_persisted_output := Some persisted_output; exec_next_round_tool := None;
     exec_finish_turn := false |}.
Definition execution_into_parts (self : ToolExecution) : ToolOutput * option ToolOutput * option TurnToolRegistration * bool :=
  (exec_output self, exec_persisted_output self, exec_next_round_tool self, exec_finish_turn self).
Definition drain_owned_json (self : ToolExecution) : list Value :=
  output_content (exec_output self) ::
  match exec_persisted_output self with Some output => [output_content output] | None => [] end.
(** [Tool::execute_for_turn] when a tool does not override it *)
Definition default_execute_for_turn (executed : result ToolOutput ToolError) : result ToolExecution ToolError :=
  match executed with Ok output => Ok (ToolExecution_output output) | Err e => Err e end.

(** ** Owned JSON *)
(** The JSON that a capability carries. *)
Definition capability_json (c : Capability) : list Value :=
  match c with Cap_Tool _ _ arguments => [arguments] | Cap_Custom _ details => [details] | _ => [] end.

(** Whatever a call asks for, a wrapper that governs it leaves what executes as it is:
    the arguments and the cancellation mode are those of the call, a concrete capability
    is kept, and otherwise policy sees the exact prepared arguments. *)
Lemma require_tool_permission_governs call name id :
  let governed := require_tool_permission call name id in
  prepared_arguments governed = prepared_arguments call /\
  prepared_execution_cancellation governed = prepared_execution_cancellation call /\
  prepared_capability governed =
    Some (default (Cap_Tool name id (prepared_arguments call)) (prepared_capability call)).
Proof. destruct call as [[c|] a m]; by repeat split. Qed.

(** Dropping a prepared call releases all the JSON it owns, a nested value never
    recursively. *)
Lemma prepared_drop_complete call :
  prepared_drop call = from_option capability_json [] (prepared_capability call) ++ [prepared_arguments call].
Proof. by destruct call as [[[]|] a m]. Qed.
