(* ===== verification/Subagent.v ===== *)
(** * Managed subagents ([subagent.rs], [subagent/command.rs], [subagent/result.rs])

    The commands of the managed-agent tool with their validation and their defaults,
    the cursors of an inspection, the results of the authority, and the tool itself.
    A command is read by [serde_json::from_value] and written by
    [serde_json::to_value], which are parameters; the trees the [Serialize] derives
    visit are [ToSer] instances. *)
From S2P Require Import Prelude Ids Json Model Limits Tool Prog Invocation.
From stdpp Require Import pretty.
Open Scope prog_scope.

Definition SUBAGENT_TOOL_NAME : string := "subagent".
Definition MAX_SUBAGENT_NAME_BYTES : N := 128.
Definition MAX_SUBAGENT_MODEL_BYTES : N := 256.
Definition MAX_SUBAGENT_PROMPT_BYTES : N := 64 * 1024.
Definition MAX_SUBAGENT_MESSAGE_BYTES : N := 64 * 1024.
Definition MAX_SUBAGENT_ARGUMENT_BYTES : N := 448 * 1024.
Definition MAX_SUBAGENT_JSON_DEPTH : positive := 12.
Definition MAX_SUBAGENT_JSON_NODES : positive := 512.
Definition MAX_SUBAGENT_OUTPUT_BYTES : N := 512 * 1024.
Definition MAX_SUBAGENT_MILESTONES : N := 32.
Definition MAX_SUBAGENT_STOP_CONDITIONS : N := 8.
Definition MAX_SUBAGENT_PAGE_LIMIT : N := 100.
Definition DEFAULT_SUBAGENT_PAGE_LIMIT : N := 50.
Definition MAX_SUBAGENT_INSPECT_WAIT_MS : N := 60000.
Definition MAX_I64 : N := 9223372036854775807.

(** ** Commands *)
Inductive ManagedSubagentError :=
| Sub_InvalidArguments | Sub_Unavailable | Sub_Failed | Sub_ResourceLimit | Sub_Cancelled.

Inductive ManagedAgentMode := Mode_OneOff | Mode_Persistent.
Inductive ManagedPermissionMode := Perm_Ask | Perm_Auto | Perm_Yolo.
Inductive ManagedInspectSection :=
| Sec_Status | Sec_Messages | Sec_ToolActivity | Sec_Events | Sec_Configuration | Sec_Relationship.
Inductive ManagedWaitUntil := Until_Settled.
Inductive ManagedRelationshipAction := Rel_Attach | Rel_Detach | Rel_Reparent.
Inductive ManagedLifecycleAction := Life_Cancel | Life_Resume | Life_Close | Life_Reopen.
Inductive ManagedStopCondition := Stop_Terminal | Stop_DurationElapsed.

#[export] Instance ManagedAgentMode_eq_dec : EqDecision ManagedAgentMode.
Proof. solve_decision. Defined.
#[export] Instance ManagedPermissionMode_eq_dec : EqDecision ManagedPermissionMode.
Proof. solve_decision. Defined.
#[export] Instance ManagedInspectSection_eq_dec : EqDecision ManagedInspectSection.
Proof. solve_decision. Defined.
#[export] Instance ManagedRelationshipAction_eq_dec : EqDecision ManagedRelationshipAction.
Proof. solve_decision. Defined.
#[export] Instance ManagedStopCondition_eq_dec : EqDecision ManagedStopCondition.
Proof. solve_decision. Defined.

Record ManagedTerminalNotifications := { tn_completed : bool; tn_failed : bool; tn_cancelled : bool }.
Definition ManagedTerminalNotifications_default : ManagedTerminalNotifications :=
  {| tn_completed := true; tn_failed := true; tn_cancelled := true |}.

Definition terminal_default : list ManagedStopCondition := [Stop_Terminal].
Record ManagedNotifications := {
  mn_terminal : ManagedTerminalNotifications;
  mn_started : bool;
  mn_milestones : list string;
  mn_report_interval_ms : option N;
  mn_report_duration_ms : option N;
  mn_stop_conditions : list ManagedStopCondition;
}.
Definition ManagedNotifications_default : ManagedNotifications :=
  {| mn_terminal := ManagedTerminalNotifications_default; mn_started := false; mn_milestones := [];
     mn_report_interval_ms := None; mn_report_duration_ms := None; mn_stop_conditions := terminal_default |}.

Record ManagedCreate := {
  cr_name : string;
  cr_mode : ManagedAgentMode;
  cr_prompt : option string;
  cr_model : option string;
  cr_effort : option string;
  cr_permission_mode : option ManagedPermissionMode;
  cr_notifications : ManagedNotifications;
}.
Record ManagedInspectWait := { iw_until : ManagedWaitUntil; iw_after_generation : option N; iw_timeout_ms : N }.
Record ManagedInspect := {
  in_id : string;
  in_sections : list ManagedInspectSection;
  in_cursor : option string;
  in_limit : N;
  in_wait : option ManagedInspectWait;
}.
Record ManagedSend := { send_id : string; send_content : string }.
Record ManagedMilestone := { ms_name : string }.
Inductive ManagedMessage := Msg_Send (v : ManagedSend) | Msg_Milestone (v : ManagedMilestone).
Record ManagedRelationship := { rl_action : ManagedRelationshipAction; rl_id : string; rl_parent_id : option string }.
Record ManagedConfigure := {
  cf_id : string;
  cf_name : option string;
  cf_model : option string;
  cf_effort : option string;
  cf_permission_mode : option ManagedPermissionMode;
  cf_notifications : option ManagedNotifications;
}.
Record ManagedLifecycle := { lc_id : string; lc_action : ManagedLifecycleAction }.

Inductive ManagedSubagentCommand :=
| Cmd_Create (v : ManagedCreate)
| Cmd_Inspect (v : ManagedInspect)
| Cmd_Message (v : ManagedMessage)
| Cmd_Relationship (v : ManagedRelationship)
| Cmd_Configure (v : ManagedConfigure)
| Cmd_Lifecycle (v : ManagedLifecycle).

(** ** Text *)
Definition text_valid (value : string) (limit : N) : bool :=
  negb (bool_decide (value = "")) && (str_len value <=? limit)%N && negb (bytes_any is_nul value).
Definition agent_id_byte (b : ascii) : bool := is_ascii_alphanumeric b || bool_decide (b ∈ String.list_ascii_of_string "._-").
Definition id_valid (value : string) : bool :=
  negb (bool_decide (value = "")) && (str_len value <=? 255)%N && negb (bool_decide (value = ".")) &&
  negb (bool_decide (value = "..")) && bytes_all agent_id_byte value.
Definition effort_byte (b : ascii) : bool := is_ascii_alphanumeric b || bool_decide (b ∈ String.list_ascii_of_string "-_.").
Definition effort_valid (value : string) : bool :=
  negb (bool_decide (value = "")) && (str_len value <=? 64)%N &&
  bytes_all effort_byte value.

Definition is_some_and {A} (o : option A) (p : A -> bool) : bool := match o with Some x => p x | None => false end.
Definition is_none {A} (o : option A) : bool := match o with Some _ => false | None => true end.

Definition distinct {A} `{EqDecision A} (values : list A) : bool :=
  forallb (fun e => negb (bool_decide (snd e ∈ take (fst e) values))) (imap pair values).

(** ** Cursors *)
Record ManagedCursor := { cur_generation : N; cur_offset : N }.

(** [str::parse::<u64>]: an optional plus sign, then digits without overflow. *)
Fixpoint parse_digits (value : N) (s : string) : option N :=
  match s with
  | EmptyString => Some value
  | String c s =>
      if byte_in "0" "9" c then
        value ← checked_mul value 10; value ← checked_add value (N_of_ascii c - 48); parse_digits value s
      else None
  end.
Definition parse_u64 (s : string) : option N :=
  match s with
  | EmptyString => None
  | String c EmptyString => parse_digits 0 s
  | String c rest => if is_byte 43 c then parse_digits 0 rest else parse_digits 0 s
  end.

Definition canonical_integer (value : option string) : result N ManagedSubagentError :=
  let? value := ok_or Sub_InvalidArguments value in
  fail_if bool_decide (value = "") || (20 <? str_len value)%N ||
          ((1 <? str_len value)%N && starts_with_byte (is_byte 48) value) || negb (bytes_all (byte_in "0" "9") value)
    with Sub_InvalidArguments in
  ok_or Sub_InvalidArguments (parse_u64 value).

Definition is_colon : ascii -> bool := is_byte 58.
Definition cursor_parse (value : string) : result ManagedCursor ManagedSubagentError :=
  let parts := str_split is_colon value in
  fail_if negb (bool_decide (parts !! 0 = Some "v1")) with Sub_InvalidArguments in
  let? generation := canonical_integer (parts !! 1) in
  let? offset := canonical_integer (parts !! 2) in
  fail_if bool_decide (is_Some (parts !! 3)) with Sub_InvalidArguments in
  Ok {| cur_generation := generation; cur_offset := offset |}.
Definition cursor_encode (self : ManagedCursor) : string :=
  "v1:" +:+ pretty (cur_generation self) +:+ ":" +:+ pretty (cur_offset self).

(** ** Normalization *)
Definition duration_valid (ms : N) : bool := (0 <? ms)%N && (ms <=? MAX_I64)%N.

Definition with_stops (n : ManagedNotifications) (stops : list ManagedStopCondition) : ManagedNotifications :=
  {| mn_terminal := mn_terminal n; mn_started := mn_started n; mn_milestones := mn_milestones n;
     mn_report_interval_ms := mn_report_interval_ms n; mn_report_duration_ms := mn_report_duration_ms n;
     mn_stop_conditions := stops |}.

Definition notifications_normalize (self : ManagedNotifications) : result ManagedNotifications ManagedSubagentError :=
  let stops := mn_stop_conditions self in
  fail_if (MAX_SUBAGENT_MILESTONES <? vec_len (mn_milestones self))%N ||
          (MAX_SUBAGENT_STOP_CONDITIONS <? vec_len stops)%N ||
          negb (distinct (mn_milestones self)) || negb (distinct stops) ||
          existsb (fun v => negb (text_valid v MAX_SUBAGENT_NAME_BYTES)) (mn_milestones self) ||
          is_some_and (mn_report_interval_ms self) (fun v => negb (duration_valid v)) ||
          is_some_and (mn_report_duration_ms self) (fun v => negb (duration_valid v)) ||
          (negb (is_none (mn_report_duration_ms self)) && is_none (mn_report_interval_ms self)) ||
          (bool_decide (Stop_DurationElapsed ∈ stops) && is_none (mn_report_duration_ms self))
    with Sub_InvalidArguments in
  if negb (is_none (mn_report_duration_ms self)) && negb (bool_decide (Stop_DurationElapsed ∈ stops)) then
    fail_if (vec_len stops =? MAX_SUBAGENT_STOP_CONDITIONS)%N with Sub_InvalidArguments in
    Ok (with_stops self (stops ++ [Stop_DurationElapsed]))
  else Ok self.

Definition create_normalize (v : ManagedCreate) : result ManagedCreate ManagedSubagentError :=
  fail_if negb (text_valid (cr_name v) MAX_SUBAGENT_NAME_BYTES) ||
          (bool_decide (cr_mode v = Mode_OneOff) && is_none (cr_prompt v)) ||
          is_some_and (cr_prompt v) (fun s => negb (text_valid s MAX_SUBAGENT_PROMPT_BYTES)) ||
          is_some_and (cr_model v) (fun s => negb (text_valid s MAX_SUBAGENT_MODEL_BYTES)) ||
          is_some_and (cr_effort v) (fun s => negb (effort_valid s))
    with Sub_InvalidArguments in
  let? notifications := notifications_normalize (cr_notifications v) in
  Ok {| cr_name := cr_name v; cr_mode := cr_mode v; cr_prompt := cr_prompt v; cr_model := cr_model v;
        cr_effort := cr_effort v; cr_permission_mode := cr_permission_mode v; cr_notifications := notifications |}.

Definition inspect_normalize (v : ManagedInspect) : result ManagedInspect ManagedSubagentError :=
  fail_if negb (id_valid (in_id v)) || bool_decide (in_sections v = []) || (6 <? vec_len (in_sections v))%N ||
          negb (distinct (in_sections v)) || (in_limit v =? 0)%N || (MAX_SUBAGENT_PAGE_LIMIT <? in_limit v)%N
    with Sub_InvalidArguments in
  let? _ := match in_cursor v with Some cursor => let? _ := cursor_parse cursor in Ok tt | None => Ok tt end in
  fail_if is_some_and (in_wait v) (fun wait =>
            negb (is_none (in_cursor v)) || negb (bool_decide (Sec_Status ∈ in_sections v)) ||
            (iw_timeout_ms wait =? 0)%N || (MAX_SUBAGENT_INSPECT_WAIT_MS <? iw_timeout_ms wait)%N)
    with Sub_InvalidArguments in
  Ok v.

Definition relationship_invalid (v : ManagedRelationship) : bool :=
  negb (id_valid (rl_id v)) ||
  is_some_and (rl_parent_id v) (fun p => negb (id_valid p) || bool_decide (p = rl_id v)) ||
  (bool_decide (rl_action v = Rel_Detach) && negb (is_none (rl_parent_id v))) ||
  (bool_decide (rl_action v = Rel_Reparent) && is_none (rl_parent_id v)).

Definition configure_normalize (v : ManagedConfigure) : result ManagedConfigure ManagedSubagentError :=
  fail_if negb (id_valid (cf_id v)) ||
          (is_none (cf_name v) && is_none (cf_model v) && is_none (cf_effort v) && is_none (cf_permission_mode v) &&
           is_none (cf_notifications v)) ||
          is_some_and (cf_name v) (fun s => negb (text_valid s MAX_SUBAGENT_NAME_BYTES)) ||
          is_some_and (cf_model v) (fun s => negb (text_valid s MAX_SUBAGENT_MODEL_BYTES)) ||
          is_some_and (cf_effort v) (fun s => negb (effort_valid s))
    with Sub_InvalidArguments in
  let? notifications := match cf_notifications v with
                        | Some policy => let? policy := notifications_normalize policy in Ok (Some policy)
                        | None => Ok None
                        end in
  Ok {| cf_id := cf_id v; cf_name := cf_name v; cf_model := cf_model v; cf_effort := cf_effort v;
        cf_permission_mode := cf_permission_mode v; cf_notifications := notifications |}.

Definition command_normalize (self : ManagedSubagentCommand) : result ManagedSubagentCommand ManagedSubagentError :=
  match self with
  | Cmd_Create v => let? v := create_normalize v in Ok (Cmd_Create v)
  | Cmd_Inspect v => let? v := inspect_normalize v in Ok (Cmd_Inspect v)
  | Cmd_Message (Msg_Send v) =>
      fail_if negb (id_valid (send_id v)) || negb (text_valid (send_content v) MAX_SUBAGENT_MESSAGE_BYTES)
        with Sub_InvalidArguments in Ok self
  | Cmd_Message (Msg_Milestone v) =>
      fail_if negb (text_valid (ms_name v) MAX_SUBAGENT_NAME_BYTES) with Sub_InvalidArguments in Ok self
  | Cmd_Relationship v => fail_if relationship_invalid v with Sub_InvalidArguments in Ok self
  | Cmd_Configure v => let? v := configure_normalize v in Ok (Cmd_Configure v)
  | Cmd_Lifecycle v => fail_if negb (id_valid (lc_id v)) with Sub_InvalidArguments in Ok self
  end.

(** ** What the derives write *)
Definition Ser_tag (tag : string) (body : Ser) : Ser := Ser_fields [(tag, body)].
(** A field with [skip_serializing_if = "Option::is_none"]. *)
Definition present_field {A} (name : string) (o : option A) (f : A -> Ser) : list (string * Ser) :=
  match o with Some x => [(name, f x)] | None => [] end.
Definition nullable {A} (o : option A) (f : A -> Ser) : Ser := match o with Some x => f x | None => Ser_none end.

#[export] Instance mode_to_ser : ToSer ManagedAgentMode := fun m =>
  Ser_str match m with Mode_OneOff => "one_off" | Mode_Persistent => "persistent" end.
#[export] Instance permission_mode_to_ser : ToSer ManagedPermissionMode := fun m =>
  Ser_str match m with Perm_Ask => "ask" | Perm_Auto => "auto" | Perm_Yolo => "yolo" end.
#[export] Instance section_to_ser : ToSer ManagedInspectSection := fun s =>
  Ser_str match s with
  | Sec_Status => "status" | Sec_Messages => "messages" | Sec_ToolActivity => "tool_activity" | Sec_Events => "events"
  | Sec_Configuration => "configuration" | Sec_Relationship => "relationship"
  end.
#[export] Instance relationship_action_to_ser : ToSer ManagedRelationshipAction := fun a =>
  Ser_str match a with Rel_Attach => "attach" | Rel_Detach => "detach" | Rel_Reparent => "reparent" end.
#[export] Instance lifecycle_action_to_ser : ToSer ManagedLifecycleAction := fun a =>
  Ser_str match a with
  | Life_Cancel => "cancel" | Life_Resume => "resume" | Life_Close => "close" | Life_Reopen => "reopen"
  end.
#[export] Instance stop_to_ser : ToSer ManagedStopCondition := fun s =>
  Ser_str match s with Stop_Terminal => "terminal" | Stop_DurationElapsed => "duration_elapsed" end.
#[export] Instance terminal_notifications_to_ser : ToSer ManagedTerminalNotifications := fun n =>
  Ser_fields [("completed", Ser_bool (tn_completed n)); ("failed", Ser_bool (tn_failed n));
              ("cancelled", Ser_bool (tn_cancelled n))].
#[export] Instance notifications_to_ser : ToSer ManagedNotifications := fun n =>
  Ser_fields ([("terminal", to_ser (mn_terminal n)); ("started", Ser_bool (mn_started n));
               ("milestones", Ser_seq (map Ser_str (mn_milestones n)))] ++
              present_field "report_interval_ms" (mn_report_interval_ms n) Ser_u64 ++
              present_field "report_duration_ms" (mn_report_duration_ms n) Ser_u64 ++
              [("stop_conditions", to_ser (mn_stop_conditions n))]).
#[export] Instance create_to_ser : ToSer ManagedCreate := fun v =>
  Ser_fields ([("name", Ser_str (cr_name v)); ("mode", to_ser (cr_mode v))] ++
              present_field "prompt" (cr_prompt v) Ser_str ++ present_field "model" (cr_model v) Ser_str ++
              present_field "effort" (cr_effort v) Ser_str ++
              present_field "permission_mode" (cr_permission_mode v) to_ser ++
              [("notifications", to_ser (cr_notifications v))]).
#[export] Instance wait_to_ser : ToSer ManagedInspectWait := fun w =>
  Ser_fields ([("until", Ser_str match iw_until w with Until_Settled => "settled" end)] ++
              present_field "after_generation" (iw_after_generation w) Ser_u64 ++ [("timeout_ms", Ser_u64 (iw_timeout_ms w))]).
#[export] Instance inspect_to_ser : ToSer ManagedInspect := fun v =>
  Ser_fields ([("id", Ser_str (in_id v)); ("sections", to_ser (in_sections v))] ++
              present_field "cursor" (in_cursor v) Ser_str ++ [("limit", Ser_u64 (in_limit v))] ++
              present_field "wait" (in_wait v) to_ser).
#[export] Instance message_to_ser : ToSer ManagedMessage := fun m =>
  match m with
  | Msg_Send v => Ser_tag "send" (Ser_fields [("id", Ser_str (send_id v)); ("content", Ser_str (send_content v))])
  | Msg_Milestone v => Ser_tag "milestone" (Ser_fields [("name", Ser_str (ms_name v))])
  end.
#[export] Instance relationship_to_ser : ToSer ManagedRelationship := fun v =>
  Ser_fields ([("action", to_ser (rl_action v)); ("id", Ser_str (rl_id v))] ++
              present_field "parent_id" (rl_parent_id v) Ser_str).
#[export] Instance configure_to_ser : ToSer ManagedConfigure := fun v =>
  Ser_fields ([("id", Ser_str (cf_id v))] ++ present_field "name" (cf_name v) Ser_str ++
              present_field "model" (cf_model v) Ser_str ++ present_field "effort" (cf_effort v) Ser_str ++
              present_field "permission_mode" (cf_permission_mode v) to_ser ++
              present_field "notifications" (cf_notifications v) to_ser).
#[export] Instance lifecycle_to_ser : ToSer ManagedLifecycle := fun v =>
  Ser_fields [("id", Ser_str (lc_id v)); ("action", to_ser (lc_action v))].
#[export] Instance command_to_ser : ToSer ManagedSubagentCommand := fun c =>
  match c with
  | Cmd_Create v => Ser_tag "create" (to_ser v)
  | Cmd_Inspect v => Ser_tag "inspect" (to_ser v)
  | Cmd_Message v => Ser_tag "message" (to_ser v)
  | Cmd_Relationship v => Ser_tag "relationship" (to_ser v)
  | Cmd_Configure v => Ser_tag "configure" (to_ser v)
  | Cmd_Lifecycle v => Ser_tag "lifecycle" (to_ser v)
  end.

(** ** Results *)
Inductive ManagedAgentState :=
| St_Idle | St_Queued | St_Running | St_AwaitingApproval | St_Interrupted | St_Completed | St_Failed | St_Cancelled
| St_Archived.
Definition wait_satisfied (self : ManagedInspectWait) (generation : N) (state : ManagedAgentState) : bool :=
  match iw_after_generation self with None => true | Some after => (after <? generation)%N end &&
  negb match state with St_Queued | St_Running | St_AwaitingApproval => true | _ => false end.

Inductive ManagedOutcome :=
| Out_Created | Out_MessageQueued | Out_RelationshipChanged | Out_Configured | Out_LifecycleChanged | Out_MilestoneEmitted.
Inductive ManagedResultStatus :=
| Res_Accepted | Res_Created | Res_MessageQueued | Res_RelationshipChanged | Res_Configured | Res_LifecycleChanged
| Res_MilestoneEmitted | Res_Inspected | Res_WaitTimedOut | Res_Rejected | Res_Idle | Res_Queued | Res_Running
| Res_AwaitingApproval | Res_Interrupted | Res_Completed | Res_Failed | Res_Cancelled | Res_Archived.
#[export] Instance ManagedResultStatus_eq_dec : EqDecision ManagedResultStatus.
Proof. solve_decision. Defined.

Inductive ManagedFailureCode :=
| Fc_InvalidJson | Fc_InvalidRoot | Fc_MissingCommand | Fc_UnknownField | Fc_InvalidFieldType | Fc_MissingField
| Fc_InvalidEnum | Fc_InvalidInteger | Fc_InvalidBranchSelection | Fc_InvalidNestedBranchSelection | Fc_MissingName
| Fc_MissingMode | Fc_MissingOneOffPrompt | Fc_MissingInspectId | Fc_InvalidId | Fc_InvalidName | Fc_InvalidModel
| Fc_InvalidPrompt | Fc_InvalidMessage | Fc_InvalidOperationId | Fc_InvalidNotificationPolicy | Fc_DuplicateMilestone
| Fc_DuplicateStopCondition | Fc_InvalidInspectSections | Fc_InvalidInspectWait | Fc_InvalidCursor | Fc_InvalidPageLimit
| Fc_InvalidRelationship | Fc_EmptyConfiguration | Fc_CallerUnavailable | Fc_ChildUnavailable | Fc_ControlNotFound
| Fc_OperationIdRequired | Fc_OperationConflict | Fc_OperationReplayExpired | Fc_StaleGeneration | Fc_InvalidState
| Fc_RelationshipAuthorizationRequired | Fc_RelationshipCycle | Fc_RelationshipAlreadyParented
| Fc_RelationshipMissingParent | Fc_OneOffNotMessageable | Fc_MilestoneRequiresActiveWork | Fc_InvalidMilestoneCaller
| Fc_NoActiveWork | Fc_UndeclaredMilestone | Fc_ControlLockBusy | Fc_ControlLockUnsupported | Fc_ControlRecordInvalid
| Fc_ControlRecordTooLarge | Fc_CommunicationCapacityExceeded | Fc_ControlPathUnsafe | Fc_ControlCommitIndeterminate
| Fc_SessionNotFound | Fc_GraphChanged | Fc_GraphTooDeep | Fc_InvalidSnapshotQuery | Fc_GenerationExhausted
| Fc_StoreFailure | Fc_HostUnavailable | Fc_ResultTooLarge | Fc_ResourceLimit | Fc_PermissionDenied | Fc_Cancelled
| Fc_DependencyCycle | Fc_DependencyUnavailable.

Record ManagedReceipt := { rc_outcome : ManagedOutcome; rc_generation : N; rc_event_sequence : N }.
Record ManagedRelationshipApproval := { ra_action : ManagedRelationshipAction; ra_approval_id : string }.
Record ManagedConfiguration := {
  mc_name : string;
  mc_model : option string;
  mc_effort : option string;
  mc_permission_mode : ManagedPermissionMode;
  mc_notifications : ManagedNotifications;
}.
Inductive ManagedInspectionSourceError := Src_NotFound | Src_Invalid | Src_Unavailable.
Inductive ManagedQueueStatus :=
| Q_Pending | Q_Running | Q_AwaitingApproval | Q_Interrupted | Q_Completed | Q_Failed | Q_Cancelled.
(** An [i64] is a [Z]. *)
Record ManagedQueuedMessage := {
  qm_id : string;
  qm_source_id : string;
  qm_content : string;
  qm_status : ManagedQueueStatus;
  qm_cancellation_reason : option string;
  qm_created_at_ms : Z;
}.
Inductive ManagedHistoryKind := Hist_Conversation | Hist_BackgroundCommand | Hist_Interrupted | Hist_CompactedSummary.
Record ManagedHistoryItem := {
  hi_kind : ManagedHistoryKind;
  hi_work_id : option string;
  hi_user : option string;
  hi_assistant : option string;
  hi_user_truncated : bool;
  hi_assistant_truncated : bool;
}.
Inductive ManagedToolPhase := Ph_Started | Ph_Succeeded | Ph_Failed | Ph_Denied.
Record ManagedToolActivity := {
  ta_sequence : N;
  ta_revision : N;
  ta_timestamp_ms : Z;
  ta_work_id : option string;
  ta_tool_name : string;
  ta_phase : ManagedToolPhase;
}.
Inductive ManagedEventKind :=
| Ev_Created
| Ev_MessageQueued (message_id : string)
| Ev_RelationshipChanged (previous_parent_id parent_id : option string)
| Ev_Configured
| Ev_LifecycleChanged (previous current : ManagedAgentState)
| Ev_WorkTransition (work_item_id : string) (previous : option ManagedQueueStatus) (current : ManagedQueueStatus)
    (reason : option string)
| Ev_MilestoneRecorded (operation_id source_child_id : string) (target_parent_id : option string) (notice_emitted : bool)
    (work_item_id name : string).
Record ManagedEvent := { me_sequence : N; me_revision : N; me_id : string; me_timestamp_ms : Z; me_kind : ManagedEventKind }.

Record ManagedInspection := {
  mi_child_id : string;
  mi_generation : N;
  mi_restart_required : bool;
  mi_status : option ManagedAgentState;
  mi_configuration : option ManagedConfiguration;
  mi_relationship_selected : bool;
  mi_parent_id : option string;
  mi_messages : list ManagedQueuedMessage;
  mi_history : list ManagedHistoryItem;
  mi_history_len : option N;
  mi_history_truncated : bool;
  mi_history_error : option ManagedInspectionSourceError;
  mi_events : list ManagedEvent;
  mi_events_error : option ManagedInspectionSourceError;
  mi_tool_activity_selected : bool;
  mi_tool_activity : list ManagedToolActivity;
  mi_tool_activity_truncated : bool;
  mi_tool_activity_error : option ManagedInspectionSourceError;
  mi_failure_work_id : option string;
  mi_failure_reason : option string;
  mi_next_cursor : option string;
}.
Inductive ManagedRequested :=
| Rq_Receipt (receipt : ManagedReceipt)
| Rq_Inspection (inspection : ManagedInspection)
| Rq_RelationshipApproval (approval : ManagedRelationshipApproval).
Record ManagedSubagentResult := {
  sr_ok : bool;
  sr_operation_id : string;
  sr_child_id : option string;
  sr_status : ManagedResultStatus;
  sr_error_code : option ManagedFailureCode;
  sr_retryable : bool;
  sr_requested : option ManagedRequested;
  sr_cursor : option string;
}.

Definition outcome_status (self : ManagedOutcome) : ManagedResultStatus :=
  match self with
  | Out_Created => Res_Created
  | Out_MessageQueued => Res_MessageQueued
  | Out_RelationshipChanged => Res_RelationshipChanged
  | Out_Configured => Res_Configured
  | Out_LifecycleChanged => Res_LifecycleChanged
  | Out_MilestoneEmitted => Res_MilestoneEmitted
  end.

(** [u8::is_ascii_whitespace]: space, tab, line feed, form feed, carriage return. *)
Definition is_ascii_whitespace (b : ascii) : bool :=
  is_byte 32 b || is_byte 9 b || is_byte 10 b || is_byte 12 b || is_byte 13 b.
Definition operation_valid (id : string) : bool :=
  negb (bool_decide (id = "")) && (str_len id <=? 128)%N &&
  bytes_all (fun b => negb (is_ascii_control b) && negb (is_ascii_whitespace b)) id.

Definition text_size (o : option string) : N := match o with Some s => str_len s | None => 0 end.
(** The fold of [validate] over the history, with its saturating sums. *)
Definition history_bytes (history : list ManagedHistoryItem) : N :=
  foldl (fun bytes h => saturating_add (saturating_add bytes (text_size (hi_user h))) (text_size (hi_assistant h))) 0%N history.
Definition inspection_items (v : ManagedInspection) : N :=
  saturating_add (saturating_add (saturating_add (vec_len (mi_messages v)) (vec_len (mi_history v))) (vec_len (mi_events v)))
    (vec_len (mi_tool_activity v)).

#[export] Instance agent_state_to_ser : ToSer ManagedAgentState := fun s =>
  Ser_str match s with
  | St_Idle => "idle" | St_Queued => "queued" | St_Running => "running" | St_AwaitingApproval => "awaiting_approval"
  | St_Interrupted => "interrupted" | St_Completed => "completed" | St_Failed => "failed"
  | St_Cancelled => "cancelled" | St_Archived => "archived"
  end.
#[export] Instance outcome_to_ser : ToSer ManagedOutcome := fun o =>
  Ser_str match o with
  | Out_Created => "created" | Out_MessageQueued => "message_queued"
  | Out_RelationshipChanged => "relationship_changed" | Out_Configured => "configured"
  | Out_LifecycleChanged => "lifecycle_changed" | Out_MilestoneEmitted => "milestone_emitted"
  end.
#[export] Instance result_status_to_ser : ToSer ManagedResultStatus := fun s =>
  Ser_str match s with
  | Res_Accepted => "accepted" | Res_Created => "created" | Res_MessageQueued => "message_queued"
  | Res_RelationshipChanged => "relationship_changed" | Res_Configured => "configured"
  | Res_LifecycleChanged => "lifecycle_changed" | Res_MilestoneEmitted => "milestone_emitted"
  | Res_Inspected => "inspected" | Res_WaitTimedOut => "wait_timed_out" | Res_Rejected => "rejected"
  | Res_Idle => "idle" | Res_Queued => "queued" | Res_Running => "running"
  | Res_AwaitingApproval => "awaiting_approval" | Res_Interrupted => "interrupted" | Res_Completed => "completed"
  | Res_Failed => "failed" | Res_Cancelled => "cancelled" | Res_Archived => "archived"
  end.
#[export] Instance failure_code_to_ser : ToSer ManagedFailureCode := fun c =>
  Ser_str match c with
  | Fc_InvalidJson => "invalid_json" | Fc_InvalidRoot => "invalid_root" | Fc_MissingCommand => "missing_command"
  | Fc_UnknownField => "unknown_field" | Fc_InvalidFieldType => "invalid_field_type"
  | Fc_MissingField => "missing_field" | Fc_InvalidEnum => "invalid_enum" | Fc_InvalidInteger => "invalid_integer"
  | Fc_InvalidBranchSelection => "invalid_branch_selection"
  | Fc_InvalidNestedBranchSelection => "invalid_nested_branch_selection" | Fc_MissingName => "missing_name"
  | Fc_MissingMode => "missing_mode" | Fc_MissingOneOffPrompt => "missing_one_off_prompt"
  | Fc_MissingInspectId => "missing_inspect_id" | Fc_InvalidId => "invalid_id" | Fc_InvalidName => "invalid_name"
  | Fc_InvalidModel => "invalid_model" | Fc_InvalidPrompt => "invalid_prompt" | Fc_InvalidMessage => "invalid_message"
  | Fc_InvalidOperationId => "invalid_operation_id" | Fc_InvalidNotificationPolicy => "invalid_notification_policy"
  | Fc_DuplicateMilestone => "duplicate_milestone" | Fc_DuplicateStopCondition => "duplicate_stop_condition"
  | Fc_InvalidInspectSections => "invalid_inspect_sections" | Fc_InvalidInspectWait => "invalid_inspect_wait"
  | Fc_InvalidCursor => "invalid_cursor" | Fc_InvalidPageLimit => "invalid_page_limit"
  | Fc_InvalidRelationship => "invalid_relationship" | Fc_EmptyConfiguration => "empty_configuration"
  | Fc_CallerUnavailable => "caller_unavailable" | Fc_ChildUnavailable => "child_unavailable"
  | Fc_ControlNotFound => "control_not_found" | Fc_OperationIdRequired => "operation_id_required"
  | Fc_OperationConflict => "operation_conflict" | Fc_OperationReplayExpired => "operation_replay_expired"
  | Fc_StaleGeneration => "stale_generation" | Fc_InvalidState => "invalid_state"
  | Fc_RelationshipAuthorizationRequired => "relationship_authorization_required"
  | Fc_RelationshipCycle => "relationship_cycle" | Fc_RelationshipAlreadyParented => "relationship_already_parented"
  | Fc_RelationshipMissingParent => "relationship_missing_parent"
  | Fc_OneOffNotMessageable => "one_off_not_messageable"
  | Fc_MilestoneRequiresActiveWork => "milestone_requires_active_work"
  | Fc_InvalidMilestoneCaller => "invalid_milestone_caller" | Fc_NoActiveWork => "no_active_work"
  | Fc_UndeclaredMilestone => "undeclared_milestone" | Fc_ControlLockBusy => "control_lock_busy"
  | Fc_ControlLockUnsupported => "control_lock_unsupported" | Fc_ControlRecordInvalid => "control_record_invalid"
  | Fc_ControlRecordTooLarge => "control_record_too_large"
  | Fc_CommunicationCapacityExceeded => "communication_capacity_exceeded"
  | Fc_ControlPathUnsafe => "control_path_unsafe" | Fc_ControlCommitIndeterminate => "control_commit_indeterminate"
  | Fc_SessionNotFound => "session_not_found" | Fc_GraphChanged => "graph_changed"
  | Fc_GraphTooDeep => "graph_too_deep" | Fc_InvalidSnapshotQuery => "invalid_snapshot_query"
  | Fc_GenerationExhausted => "generation_exhausted" | Fc_StoreFailure => "store_failure"
  | Fc_HostUnavailable => "host_unavailable" | Fc_ResultTooLarge => "result_too_large"
  | Fc_ResourceLimit => "resource_limit" | Fc_PermissionDenied => "permission_denied" | Fc_Cancelled => "cancelled"
  | Fc_DependencyCycle => "dependency_cycle" | Fc_DependencyUnavailable => "dependency_unavailable"
  end.
#[export] Instance source_error_to_ser : ToSer ManagedInspectionSourceError := fun e =>
  Ser_str match e with
  | Src_NotFound => "not_found" | Src_Invalid => "invalid" | Src_Unavailable => "unavailable"
  end.
#[export] Instance queue_status_to_ser : ToSer ManagedQueueStatus := fun s =>
  Ser_str match s with
  | Q_Pending => "pending" | Q_Running => "running" | Q_AwaitingApproval => "awaiting_approval"
  | Q_Interrupted => "interrupted" | Q_Completed => "completed" | Q_Failed => "failed" | Q_Cancelled => "cancelled"
  end.
#[export] Instance history_kind_to_ser : ToSer ManagedHistoryKind := fun k =>
  Ser_str match k with
  | Hist_Conversation => "conversation" | Hist_BackgroundCommand => "background_command"
  | Hist_Interrupted => "interrupted" | Hist_CompactedSummary => "compacted_summary"
  end.
#[export] Instance tool_phase_to_ser : ToSer ManagedToolPhase := fun p =>
  Ser_str match p with
  | Ph_Started => "started" | Ph_Succeeded => "succeeded" | Ph_Failed => "failed" | Ph_Denied => "denied"
  end.
#[export] Instance receipt_to_ser : ToSer ManagedReceipt := fun r =>
  Ser_fields [("outcome", to_ser (rc_outcome r)); ("generation", Ser_u64 (rc_generation r));
              ("event_sequence", Ser_u64 (rc_event_sequence r))].
#[export] Instance approval_to_ser : ToSer ManagedRelationshipApproval := fun a =>
  Ser_fields [("action", to_ser (ra_action a)); ("approval_id", Ser_str (ra_approval_id a))].
#[export] Instance configuration_to_ser : ToSer ManagedConfiguration := fun c =>
  Ser_fields [("name", Ser_str (mc_name c)); ("model", nullable (mc_model c) Ser_str);
              ("effort", nullable (mc_effort c) Ser_str); ("permission_mode", to_ser (mc_permission_mode c));
              ("notifications", to_ser (mc_notifications c))].
#[export] Instance queued_message_to_ser : ToSer ManagedQueuedMessage := fun m =>
  Ser_fields [("id", Ser_str (qm_id m)); ("source_id", Ser_str (qm_source_id m)); ("content", Ser_str (qm_content m));
              ("status", to_ser (qm_status m)); ("cancellation_reason", nullable (qm_cancellation_reason m) Ser_str);
              ("created_at_ms", Ser_i64 (qm_created_at_ms m))].
#[export] Instance history_item_to_ser : ToSer ManagedHistoryItem := fun h =>
  Ser_fields [("kind", to_ser (hi_kind h)); ("work_id", nullable (hi_work_id h) Ser_str);
              ("user", nullable (hi_user h) Ser_str); ("assistant", nullable (hi_assistant h) Ser_str);
              ("user_truncated", Ser_bool (hi_user_truncated h));
              ("assistant_truncated", Ser_bool (hi_assistant_truncated h))].
#[export] Instance tool_activity_to_ser : ToSer ManagedToolActivity := fun a =>
  Ser_fields [("sequence", Ser_u64 (ta_sequence a)); ("revision", Ser_u64 (ta_revision a));
              ("timestamp_ms", Ser_i64 (ta_timestamp_ms a)); ("work_id", nullable (ta_work_id a) Ser_str);
              ("tool_name", Ser_str (ta_tool_name a)); ("phase", to_ser (ta_phase a))].
#[export] Instance event_kind_to_ser : ToSer ManagedEventKind := fun k =>
  match k with
  | Ev_Created => Ser_str "created"
  | Ev_MessageQueued id => Ser_tag "message_queued" (Ser_fields [("message_id", Ser_str id)])
  | Ev_RelationshipChanged previous parent =>
      Ser_tag "relationship_changed" (Ser_fields [("previous_parent_id", nullable previous Ser_str);
                                                  ("parent_id", nullable parent Ser_str)])
  | Ev_Configured => Ser_str "configured"
  | Ev_LifecycleChanged previous current =>
      Ser_tag "lifecycle_changed" (Ser_fields [("previous", to_ser previous); ("current", to_ser current)])
  | Ev_WorkTransition work previous current reason =>
      Ser_tag "work_transition" (Ser_fields [("work_item_id", Ser_str work); ("previous", to_ser previous);
                                             ("current", to_ser current); ("reason", nullable reason Ser_str)])
  | Ev_MilestoneRecorded operation source target emitted work name =>
      Ser_tag "milestone_recorded" (Ser_fields [("operation_id", Ser_str operation); ("source_child_id", Ser_str source);
        ("target_parent_id", nullable target Ser_str); ("notice_emitted", Ser_bool emitted);
        ("work_item_id", Ser_str work); ("name", Ser_str name)])
  end.
#[export] Instance managed_event_to_ser : ToSer ManagedEvent := fun e =>
  Ser_fields [("sequence", Ser_u64 (me_sequence e)); ("revision", Ser_u64 (me_revision e)); ("id", Ser_str (me_id e));
              ("timestamp_ms", Ser_i64 (me_timestamp_ms e)); ("kind", to_ser (me_kind e))].
#[export] Instance inspection_to_ser : ToSer ManagedInspection := fun v =>
  Ser_fields [("child_id", Ser_str (mi_child_id v)); ("generation", Ser_u64 (mi_generation v));
              ("restart_required", Ser_bool (mi_restart_required v)); ("status", to_ser (mi_status v));
              ("configuration", to_ser (mi_configuration v)); ("relationship_selected", Ser_bool (mi_relationship_selected v));
              ("parent_id", nullable (mi_parent_id v) Ser_str); ("messages", to_ser (mi_messages v));
              ("history", to_ser (mi_history v)); ("history_len", nullable (mi_history_len v) Ser_u64);
              ("history_truncated", Ser_bool (mi_history_truncated v)); ("history_error", to_ser (mi_history_error v));
              ("events", to_ser (mi_events v)); ("events_error", to_ser (mi_events_error v));
              ("tool_activity_selected", Ser_bool (mi_tool_activity_selected v));
              ("tool_activity", to_ser (mi_tool_activity v));
              ("tool_activity_truncated", Ser_bool (mi_tool_activity_truncated v));
              ("tool_activity_error", to_ser (mi_tool_activity_error v));
              ("failure_work_id", nullable (mi_failure_work_id v) Ser_str);
              ("failure_reason", nullable (mi_failure_reason v) Ser_str); ("next_cursor", nullable (mi_next_cursor v) Ser_str)].
#[export] Instance requested_to_ser : ToSer ManagedRequested := fun r =>
  match r with
  | Rq_Receipt receipt => to_ser receipt
  | Rq_Inspection inspection => to_ser inspection
  | Rq_RelationshipApproval approval => to_ser approval
  end.
#[export] Instance result_to_ser : ToSer ManagedSubagentResult := fun r =>
  Ser_fields [("ok", Ser_bool (sr_ok r)); ("operation_id", Ser_str (sr_operation_id r));
              ("child_id", nullable (sr_child_id r) Ser_str); ("status", to_ser (sr_status r));
              ("error_code", to_ser (sr_error_code r)); ("retryable", Ser_bool (sr_retryable r));
              ("requested", to_ser (sr_requested r)); ("cursor", nullable (sr_cursor r) Ser_str)].

(** ** Bounds of JSON *)
(** [serialized_json_size_bounded(value, limit).is_ok_and(|size| size.is_some())] *)
Definition size_within `{JsonWriter} {T} `{ToSer T} (value : T) (limit : N) : bool :=
  match serialized_json_size_bounded value limit with Ok (Some _) => true | _ => false end.
Definition subagent_limits (nodes : positive) : EngineLimits :=
  with_json_nodes (with_json_depth EngineLimits_default MAX_SUBAGENT_JSON_DEPTH) nodes.
Definition json_bounded `{JsonWriter} (value : Value) (bytes : N) (nodes : positive) : bool :=
  is_ok (validate_json_roots [value] (subagent_limits nodes)) && size_within value bytes.

(** ** The envelope of a result *)
Definition receipt_invalid (self : ManagedSubagentResult) (receipt : ManagedReceipt) : bool :=
  negb (bool_decide (sr_status self = outcome_status (rc_outcome receipt))) || is_none (sr_child_id self) ||
  negb (is_none (sr_cursor self)).
Definition approval_invalid (self : ManagedSubagentResult) (approval : ManagedRelationshipApproval) : bool :=
  negb (bool_decide (sr_status self = Res_AwaitingApproval)) || is_none (sr_child_id self) ||
  negb (is_none (sr_cursor self)) || negb (id_valid (ra_approval_id approval)).
Definition inspection_invalid (self : ManagedSubagentResult) (v : ManagedInspection) : bool :=
  negb (id_valid (mi_child_id v)) || negb (bool_decide (sr_child_id self = Some (mi_child_id v))) ||
  (MAX_SUBAGENT_PAGE_LIMIT <? inspection_items v)%N || negb (bool_decide (mi_next_cursor v = sr_cursor self)) ||
  existsb (fun m => negb (text_valid (qm_content m) MAX_SUBAGENT_MESSAGE_BYTES)) (mi_messages v) ||
  existsb (fun h => is_some_and (hi_user h) (fun s => 16 * 1024 <? str_len s)%N ||
                    is_some_and (hi_assistant h) (fun s => 16 * 1024 <? str_len s)%N) (mi_history v) ||
  (32 * 1024 <? history_bytes (mi_history v))%N.

Definition subagent_result_validate `{JsonWriter} (self : ManagedSubagentResult) : result unit ManagedSubagentError :=
  fail_if negb (operation_valid (sr_operation_id self)) || is_some_and (sr_child_id self) (fun id => negb (id_valid id)) ||
          negb (Bool.eqb (sr_ok self) (is_none (sr_error_code self))) ||
          negb (Bool.eqb (sr_ok self) (negb (is_none (sr_requested self)))) ||
          (negb (sr_ok self) && negb (bool_decide (sr_status self = Res_Rejected))) ||
          is_some_and (sr_cursor self) (fun cursor => negb (is_ok (cursor_parse cursor)))
    with Sub_InvalidArguments in
  fail_if match sr_requested self with Some (Rq_Receipt receipt) => receipt_invalid self receipt | _ => false end
    with Sub_InvalidArguments in
  fail_if match sr_requested self with Some (Rq_RelationshipApproval approval) => approval_invalid self approval | _ => false end
    with Sub_InvalidArguments in
  fail_if match sr_requested self with Some (Rq_Inspection v) => inspection_invalid self v | _ => false end
    with Sub_ResourceLimit in
  fail_if negb (size_within self MAX_SUBAGENT_OUTPUT_BYTES) with Sub_ResourceLimit in
  Ok tt.

(** ** Reading and writing commands *)
(** [serde_json::from_value::<Envelope>], whose field is the command, and
    [serde_json::to_value]; the [json!] macro unwraps the latter. *)
Class JsonCodec := {
  from_envelope : Value -> option ManagedSubagentCommand;
  to_value : Ser -> option Value;
}.

Section Tool.
Context `{JsonWriter} `{JsonCodec}.

Definition command_decode (arguments : Value) : result ManagedSubagentCommand ManagedSubagentError :=
  require json_bounded arguments MAX_SUBAGENT_ARGUMENT_BYTES MAX_SUBAGENT_JSON_NODES else Sub_ResourceLimit in
  let? command := ok_or Sub_InvalidArguments (from_envelope arguments) in
  command_normalize command.

(** [json!({ "command": command })]; [None] is the panic of the macro. *)
Definition envelope (command : ManagedSubagentCommand) : option Value :=
  v ← to_value (to_ser command); Some (VObject [("command", v)]).

Definition to_arguments (self : ManagedSubagentCommand) : option (result Value ManagedSubagentError) :=
  if negb (size_within self MAX_SUBAGENT_ARGUMENT_BYTES) then Some (Err Sub_ResourceLimit)
  else match command_normalize self with
  | Err e => Some (Err e)
  | Ok command =>
      value ← envelope command;
      Some (if json_bounded value MAX_SUBAGENT_ARGUMENT_BYTES MAX_SUBAGENT_JSON_NODES then Ok value else Err Sub_ResourceLimit)
  end.

Definition subagent_error (error : ManagedSubagentError) : ToolError :=
  ComponentError match error with
                 | Sub_InvalidArguments => Tool_InvalidInput
                 | Sub_Cancelled => Tool_Cancelled
                 | Sub_ResourceLimit => Tool_Other
                 | Sub_Unavailable => Tool_Unavailable
                 | Sub_Failed => Tool_Execution
                 end "subagent_rejected" "managed subagent operation rejected" false.

Definition is_inspect (command : ManagedSubagentCommand) : bool := match command with Cmd_Inspect _ => true | _ => false end.

(** [SubagentTool::prepare] *)
Definition subagent_prepare (call : ToolCall) : option (result PreparedToolCall ToolError) :=
  if negb (bool_decide (call_name call = SUBAGENT_TOOL_NAME)) then Some (Err (subagent_error Sub_InvalidArguments))
  else match command_decode (call_arguments call) with
  | Err e => Some (Err (subagent_error e))
  | Ok command =>
      arguments ← to_arguments command;
      Some match arguments with
           | Err e => Err (subagent_error e)
           | Ok arguments =>
               let prepared := PreparedToolCall_new (Cap_Tool (call_name call) (call_id call) arguments) arguments in
               Ok (if negb (is_inspect command) then completion_wins_after_first_poll prepared else prepared)
           end
  end.

(** ** Execution *)
Record ManagedSubagentInvocation := { si_invocation : AdmittedToolInvocation; si_command : ManagedSubagentCommand }.

(** The cancellation token, and the authority of the host. *)
Inductive SubQuery := S_is_cancelled | S_execute (invocation : ManagedSubagentInvocation).
Definition SubAns (q : SubQuery) : Type :=
  match q with S_is_cancelled => bool | S_execute _ => result ManagedSubagentResult ManagedSubagentError end.
Notation subprog := (prog unit SubQuery SubAns).

Definition sub_ask (q : SubQuery) : subprog (SubAns q) := ask q.

(** [SubagentTool::execute] *)
Definition subagent_execute (context : ToolContext) (arguments : Value) : subprog (result ToolOutput ToolError) :=
  Ret (Err (subagent_error Sub_Unavailable)).

(** [SubagentTool::execute_admitted]; the future may be dropped while the authority
    runs. *)
Definition subagent_execute_admitted (invocation : AdmittedToolInvocation) : subprog (result ToolExecution ToolError) :=
  do cancelled <- sub_ask S_is_cancelled;
  when (cancelled : bool) return Err (subagent_error Sub_Cancelled);
  when negb (bool_decide (adm_name invocation = SUBAGENT_TOOL_NAME)) return Err (subagent_error Sub_Unavailable);
  do? command <- Ret (map_err subagent_error (command_decode (adm_arguments invocation)));
  do executed <- sub_ask (S_execute {| si_invocation := invocation; si_command := command |});
  do _ <- pending;
  do? result <- Ret (map_err subagent_error executed);
  do? _ <- Ret (map_err subagent_error (subagent_result_validate result));
  do? content <- Ret (ok_or (subagent_error Sub_Failed) (to_value (to_ser result)));
  Ret (Ok (ToolExecution_output {| output_content := content; output_is_error := negb (sr_ok result) |})).
End Tool.
