(* ===== verification/SubagentProofs.v ===== *)
(** * Managed commands are validated exactly

    A cursor has one text; a command is accepted exactly when it satisfies its
    contract, with its defaults made explicit; an accepted command always fits the
    limits of its arguments, and the prepared arguments are read back as the same
    command. *)
From S2P Require Import Prelude Ids Json Model Limits Tool Prog Invocation Subagent.
From stdpp Require Import pretty.
Open Scope prog_scope.

(** ** Decimal text *)
Definition digit : ascii -> bool := byte_in "0" "9".

Lemma digit_cases_char c : digit c = true -> exists d, (d < 10)%N /\ c = pretty_N_char d /\ (N_of_ascii c - 48 = d)%N.
Proof.
  intros Hd. exists (N_of_ascii c - 48)%N. revert Hd.
  destruct c as [[] [] [] [] [] [] [] []]; vm_compute; intros; try done; repeat split.
Qed.

Lemma digit_above c n : digit c = true -> (n < 48)%N -> is_byte n c = false.
Proof.
  intros Hd Hn. destruct (digit_cases_char c Hd) as (d & _ & _ & _). apply N.eqb_neq. intros <-. revert Hn Hd.
  destruct c as [[] [] [] [] [] [] [] []]; vm_compute; by intros.
Qed.

Lemma pretty_digit d : (d < 10)%N -> digit (pretty_N_char d) = true /\ (N_of_ascii (pretty_N_char d) - 48 = d)%N.
Proof.
  intros Hd. assert (d = 0 \/ d = 1 \/ d = 2 \/ d = 3 \/ d = 4 \/ d = 5 \/ d = 6 \/ d = 7 \/ d = 8 \/ d = 9)%N as Hc by lia.
  by destruct_or! Hc; subst d.
Qed.

Lemma decimal_grows s : forall v n, decimal_value v s = Some n -> (v <= n)%N.
Proof.
  induction s as [|c s IH]; intros v n; simpl; [intros [= ->]; lia|].
  destruct (byte_in _ _ _); [|done]. intros H%IH. lia.
Qed.

(** The digits that were read are the ones that are printed. *)
Lemma pretty_decimal s : forall v n acc, decimal_value v s = Some n -> (0 < v)%N \/ starts_with_byte (is_byte 48) s = false ->
  pretty_N_go n acc = pretty_N_go v (s +:+ acc).
Proof.
  induction s as [|c s IH]; intros v n acc; simpl; [by intros [= ->]|].
  destruct (byte_in "0" "9" c) eqn:Hc; [|done]. destruct (digit_cases_char c Hc) as (d & Hd & -> & Hval).
  rewrite Hval. intros E Hv.
  assert (0 < v * 10 + d)%N as Hpos.
  { destruct Hv as [|Hz]; [lia|]. assert (d <> 0)%N; [|lia]. intros ->. done. }
  rewrite (IH _ _ _ E) by (by left). rewrite pretty_N_go_step by done.
  replace ((v * 10 + d) `div` 10)%N with v by (rewrite N.div_add_l, N.div_small; lia).
  replace ((v * 10 + d) `mod` 10)%N with d by (rewrite N.add_comm, N.Div0.mod_add, N.mod_small; lia). done.
Qed.

Lemma parse_digits_ok s : forall v n, (v <= U64_MAX)%N ->
  parse_digits v s = Some n <-> decimal_value v s = Some n /\ (n <= U64_MAX)%N.
Proof.
  induction s as [|c s IH]; intros v n Hv; simpl; [split; [intros [= <-]; done|by intros [[= <-] _]]|].
  destruct (byte_in "0" "9" c); [|naive_solver]. unfold checked_mul, checked_add.
  destruct (N.leb_spec (v * 10) U64_MAX) as [Hm|Hm]; simpl.
  2:{ split; [done|]. intros [E%decimal_grows ?]. lia. }
  destruct (N.leb_spec (v * 10 + (N_of_ascii c - 48)) U64_MAX) as [Ha|Ha]; simpl; [by apply IH|].
  split; [done|]. intros [E%decimal_grows ?]. lia.
Qed.

Lemma pretty_length k : forall n s, (n < 10 ^ N.of_nat k)%N -> (str_len (pretty_N_go n s) <= N.of_nat k + str_len s)%N.
Proof.
  induction k as [|k IH]; intros n s Hn.
  { change (10 ^ N.of_nat 0)%N with 1%N in Hn. assert (n = 0)%N as -> by lia. rewrite pretty_N_go_0. lia. }
  destruct (decide (n = 0)%N) as [->|]; [rewrite pretty_N_go_0; lia|]. rewrite pretty_N_go_step by lia.
  rewrite Nat2N.inj_succ, N.pow_succ_r' in Hn.
  etrans; [apply IH, N.Div0.div_lt_upper_bound; lia|]. unfold str_len. simpl. lia.
Qed.

Lemma pretty_u64_length n : (n <= U64_MAX)%N -> (str_len (pretty n) <= 20)%N.
Proof.
  intros Hn. unfold pretty, pretty_N. case_decide; [vm_compute; discriminate|].
  etrans; [apply (pretty_length 20)|vm_compute; discriminate]. eapply N.le_lt_trans; [exact Hn|vm_compute; reflexivity].
Qed.

Lemma pretty_go_digits x : forall s, bytes_all digit s = true -> bytes_all digit (pretty_N_go x s) = true.
Proof.
  induction (N.lt_wf_0 x) as [x _ IH]; intros s Hs.
  destruct (decide (x = 0)%N) as [->|]; [by rewrite pretty_N_go_0|].
  rewrite pretty_N_go_step by lia. apply IH; [apply N.div_lt; lia|]. cbn [bytes_all].
  destruct (pretty_digit (x mod 10)%N) as [-> _]; [by apply N.mod_lt|done].
Qed.

Lemma pretty_go_leading x : forall s, (0 < x)%N -> starts_with_byte (is_byte 48) (pretty_N_go x s) = false.
Proof.
  induction (N.lt_wf_0 x) as [x _ IH]; intros s Hx. rewrite pretty_N_go_step by lia.
  destruct (decide (x / 10 = 0)%N) as [E|]; [|apply IH; [apply N.div_lt; lia|by apply N.neq_0_lt_0]].
  rewrite E, pretty_N_go_0. cbn [starts_with_byte]. apply N.div_small_iff in E; [|done]. rewrite N.mod_small by done.
  destruct (pretty_digit x E) as [_ Hv]. apply N.eqb_neq. intros H48. rewrite H48 in Hv. simpl in Hv. lia.
Qed.

Lemma pretty_go_nonempty x : forall s, (0 < x)%N \/ s <> "" -> pretty_N_go x s <> "".
Proof.
  induction (N.lt_wf_0 x) as [x _ IH]; intros s Hx. destruct (decide (x = 0)%N) as [->|].
  { rewrite pretty_N_go_0. destruct Hx; [lia|done]. }
  rewrite pretty_N_go_step by lia. apply IH; [apply N.div_lt; lia|by right].
Qed.

(** The text of a [u64] is canonical. *)
Record canonical_text (s : string) : Prop := {
  ct_nonempty : s <> "";
  ct_digits : bytes_all digit s = true;
  ct_leading : s = "0" \/ starts_with_byte (is_byte 48) s = false;
}.

Lemma pretty_canonical (n : N) : canonical_text (pretty n) /\ decimal_value 0 (pretty n) = Some n.
Proof.
  unfold pretty, pretty_N. case_decide as E; [subst; by repeat split; [|by left]|]. split; [|by rewrite decimal_pretty_go].
  split; [apply pretty_go_nonempty; left; lia|by apply pretty_go_digits|]. right. apply pretty_go_leading. lia.
Qed.

Lemma canonical_pretty s n : canonical_text s -> decimal_value 0 s = Some n -> s = pretty n.
Proof.
  intros [He Hd Hl] E. destruct Hl as [->|Hl]; [by simpl in E; simplify_eq|].
  pose proof (pretty_decimal s 0 n "" E (or_intror Hl)) as Hp. rewrite pretty_N_go_0, append_empty in Hp.
  unfold pretty, pretty_N. case_decide as E0; [|done]. subst n. rewrite pretty_N_go_0 in Hp. by subst.
Qed.

Lemma parse_u64_digits s : s <> "" -> bytes_all digit s = true -> parse_u64 s = parse_digits 0 s.
Proof.
  destruct s as [|c [|c' s]]; [done|done|]. intros _ [Hc _]%andb_true_iff. unfold parse_u64. by rewrite (digit_above c 43).
Qed.

Lemma canonical_integer_exact s n : canonical_integer (Some s) = Ok n <-> s = pretty n /\ (n <= U64_MAX)%N.
Proof.
  unfold canonical_integer. cbn [ok_or rbind]. split.
  - destruct (bool_decide_reflect (s = "")) as [|He]; [done|]. cbn [orb]. destruct (20 <? str_len s)%N; [done|]. cbn [orb].
    destruct ((1 <? str_len s)%N && starts_with_byte (is_byte 48) s) eqn:Hl; [done|]. cbn [orb].
    destruct (bytes_all (byte_in "0" "9") s) eqn:Hd; [|done]. cbn [negb]. intros H.
    rewrite parse_u64_digits in H by done. destruct (parse_digits 0 s) as [m|] eqn:E; simplify_eq/=. apply parse_digits_ok in E as [E Hn]; [|done].
    split; [|done]. apply canonical_pretty; [|done]. split; [done|done|].
    apply andb_false_iff in Hl as [Hl|Hl]; [|by right]. apply N.ltb_ge in Hl.
    destruct s as [|c [|c' s]]; [done| |unfold str_len in Hl; simpl in Hl; lia]. destruct (is_byte 48 c) eqn:H48; [|by right].
    left. apply N.eqb_eq in H48. f_equal. by rewrite <-(ascii_N_embedding c), H48.
  - intros [-> Hn]. destruct (pretty_canonical n) as [[He Hd Hl] Hv]. rewrite bool_decide_false by done.
    pose proof (pretty_u64_length n Hn) as Hlen. destruct (N.ltb_spec 20 (str_len (pretty n))); [lia|]. cbn [orb].
    assert ((1 <? str_len (pretty n))%N && starts_with_byte (is_byte 48) (pretty n) = false) as ->.
    { destruct Hl as [-> | ->]; [done|]. apply andb_false_r. }
    unfold digit in Hd. rewrite Hd. cbn [orb negb].
    rewrite parse_u64_digits by done. by rewrite (proj2 (parse_digits_ok (pretty n) 0 n ltac:(done)) (conj Hv Hn)).
Qed.

(** ** Cursors *)
Lemma digits_no_colon s : bytes_all digit s = true -> bytes_all (fun b => negb (is_colon b)) s = true.
Proof.
  induction s as [|c s IH]; simpl; [done|]. intros [Hc Hs]%andb_true_iff. rewrite (IH Hs), andb_true_r.
  destruct c as [[] [] [] [] [] [] [] []]; vm_compute in Hc |- *; done.
Qed.

Lemma is_colon_char c : is_colon c = true -> c = ":"%char.
Proof. intros Hc%N.eqb_eq. by rewrite <-(ascii_N_embedding c), Hc. Qed.

Lemma cursor_parts c : str_split is_colon (cursor_encode c) = ["v1"; pretty (cur_generation c); pretty (cur_offset c)].
Proof.
  unfold cursor_encode. change ("v1:" +:+ ?s) with ("v1" +:+ String ":" s). rewrite str_split_app by done. f_equal.
  change (":" +:+ ?s) with (String ":" s). rewrite str_split_app by (done || by apply digits_no_colon, pretty_canonical).
  f_equal. by apply str_split_whole, digits_no_colon, pretty_canonical.
Qed.

Lemma str_split_three s a b c : str_split is_colon s = [a; b; c] -> s = a +:+ ":" +:+ b +:+ ":" +:+ c.
Proof.
  intros (_ & x & s1 & Hx & -> & H1)%str_split_first. apply str_split_first in H1 as (_ & y & s2 & Hy & -> & H2).
  apply str_split_first in H2 as [_ ->]. by rewrite (is_colon_char _ Hx), (is_colon_char _ Hy).
Qed.

(** A cursor has exactly one text. [ManagedCursor::parse] accepts the text that
    [encode] writes for two 64-bit numbers, returns those numbers, and rejects every
    other text: a leading zero, a sign, an overflow, another separator or a further
    part. *)
Theorem cursor_canonical (s : string) (c : ManagedCursor) :
  cursor_parse s = Ok c <-> s = cursor_encode c /\ (cur_generation c <= U64_MAX)%N /\ (cur_offset c <= U64_MAX)%N.
Proof.
  unfold cursor_parse. split.
  - destruct (str_split is_colon s) as [|v [|g [|o [|x l]]]] eqn:E; simpl; try done;
      case_bool_decide as Hv; try done; cbn [negb]; try done.
    + by destruct (canonical_integer (Some g)).
    + simplify_eq. destruct (canonical_integer (Some g)) as [g'|] eqn:Eg; simpl; [|done].
      destruct (canonical_integer (Some o)) as [o'|] eqn:Eo; simpl; [|done]. intros [= <-].
      apply canonical_integer_exact in Eg as [-> ?], Eo as [-> ?]. split; [|done]. by apply str_split_three in E as ->.
    + destruct (canonical_integer (Some g)); simpl; [|done]. by destruct (canonical_integer (Some o)).
  - intros (-> & Hg & Ho). rewrite cursor_parts. cbn [lookup list_lookup negb]. rewrite bool_decide_true by done. cbn [negb].
    rewrite (proj2 (canonical_integer_exact _ (cur_generation c)) (conj eq_refl Hg)).
    cbn [rbind]. rewrite (proj2 (canonical_integer_exact _ (cur_offset c)) (conj eq_refl Ho)). by destruct c.
Qed.

(** ** Contracts *)
Lemma fail_if_ok {A E} (b : bool) (e : E) (k : result A E) x : (if b then Err e else k) = Ok x <-> b = false /\ k = Ok x.
Proof. destruct b; naive_solver. Qed.
Lemma is_some_and_false {A} (o : option A) p : is_some_and o p = false <-> forall x, o = Some x -> p x = false.
Proof. destruct o; simpl; naive_solver. Qed.
Lemma existsb_false {A} (p : A -> bool) l : existsb p l = false <-> Forall (fun x => p x = false) l.
Proof. induction l as [|x l IH]; simpl; [done|]. rewrite orb_false_iff, Forall_cons, IH. done. Qed.
Lemma is_none_true {A} (o : option A) : is_none o = true <-> o = None.
Proof. by destruct o. Qed.
Lemma is_none_false {A} (o : option A) : is_none o = false <-> is_Some o.
Proof. destruct o; simpl; [by split|]. split; [done|by intros [? ?]]. Qed.

Lemma distinct_exact {A} `{EqDecision A} (l : list A) : distinct l = true <-> NoDup l.
Proof.
  unfold distinct. rewrite forallb_forall, NoDup_alt. split.
  - intros Hd i j x Hi Hj. assert (forall i x, l !! i = Some x -> x ∉ take i l) as Hnot.
    { intros k y Hk. specialize (Hd (k, y)). rewrite negb_true_iff, bool_decide_eq_false in Hd. apply Hd.
      apply list_elem_of_In, list_elem_of_lookup. exists k. by rewrite list_lookup_imap, Hk. }
    destruct (Nat.lt_trichotomy i j) as [Hlt|[->|Hlt]]; [|done|]; exfalso.
    + apply (Hnot j x Hj), list_elem_of_lookup. exists i. by rewrite lookup_take_lt.
    + apply (Hnot i x Hi), list_elem_of_lookup. exists j. by rewrite lookup_take_lt.
  - intros Hd [i x] (k & Hk)%list_elem_of_In%list_elem_of_lookup. rewrite list_lookup_imap in Hk.
    destruct (l !! k) as [y|] eqn:E; simplify_eq/=. apply negb_true_iff, bool_decide_eq_false.
    intros (j & Hj)%list_elem_of_lookup. destruct (decide (j < i)) as [Hlt|]; [|by rewrite lookup_take_ge in Hj by lia].
    rewrite lookup_take_lt in Hj by done. pose proof (Hd _ _ _ Hj E). lia.
Qed.

Record plain_text (limit : N) (s : string) : Prop := {
  pt_nonempty : s <> "";
  pt_length : (str_len s <= limit)%N;
  pt_nul : Forall (fun b => N_of_ascii b <> 0%N) (String.list_ascii_of_string s);
}.
Lemma no_byte_exact p s : bytes_any p s = false <-> Forall (fun b => p b = false) (String.list_ascii_of_string s).
Proof.
  unfold bytes_any. rewrite negb_false_iff. induction s as [|c s IH]; simpl; [done|].
  by rewrite andb_true_iff, Forall_cons, IH, negb_true_iff.
Qed.
Lemma text_valid_exact s limit : text_valid s limit = true <-> plain_text limit s.
Proof.
  unfold text_valid. rewrite !andb_true_iff, !negb_true_iff, bool_decide_eq_false, N.leb_le, no_byte_exact.
  setoid_rewrite N.eqb_neq. split; [by intros [[? ?] ?]|by intros [? ? ?]].
Qed.

(** Identifiers and efforts share an alphabet. *)
Record agent_id (s : string) : Prop := {
  ai_nonempty : s <> "";
  ai_length : (str_len s <= 255)%N;
  ai_dots : s <> "." /\ s <> "..";
  ai_bytes : bytes_all agent_id_byte s = true;
}.
Record effort_text (s : string) : Prop := {
  et_nonempty : s <> "";
  et_length : (str_len s <= 64)%N;
  et_bytes : bytes_all agent_id_byte s = true;
}.
Lemma id_valid_exact s : id_valid s = true <-> agent_id s.
Proof.
  unfold id_valid. rewrite !andb_true_iff, !negb_true_iff, !bool_decide_eq_false, N.leb_le.
  split; [by intros [[[[? ?] ?] ?] ?]|by intros [? ? [? ?] ?]].
Qed.
Lemma effort_byte_id (b : ascii) : effort_byte b = agent_id_byte b.
Proof. destruct b as [[] [] [] [] [] [] [] []]; vm_compute; reflexivity. Qed.
Lemma effort_valid_exact s : effort_valid s = true <-> effort_text s.
Proof.
  unfold effort_valid. rewrite !andb_true_iff, !negb_true_iff, !bool_decide_eq_false, N.leb_le.
  assert (bytes_all effort_byte s = bytes_all agent_id_byte s) as ->.
  { induction s as [|c s IH]; simpl; [done|]. by rewrite IH, effort_byte_id. }
  split; [by intros [[? ?] ?]|by intros [? ? ?]].
Qed.

(** ** Notification policies *)
(** Two conditions exist, so at most two are listed without repetition. *)
Lemma stops_bounded (l : list ManagedStopCondition) : NoDup l -> (vec_len l <= 2)%N.
Proof.
  intros Hd. assert (length l <= length [Stop_Terminal; Stop_DurationElapsed]); [|unfold vec_len; simpl in *; lia].
  apply submseteq_length, NoDup_submseteq; [done|]. intros []; set_solver.
Qed.

Definition timer_ok (ms : option N) : Prop := forall v, ms = Some v -> (0 < v <= MAX_I64)%N.
Record valid_notifications (n : ManagedNotifications) : Prop := {
  vn_count : (vec_len (mn_milestones n) <= MAX_SUBAGENT_MILESTONES)%N;
  vn_distinct : NoDup (mn_milestones n);
  vn_milestones : Forall (plain_text MAX_SUBAGENT_NAME_BYTES) (mn_milestones n);
  vn_stops : NoDup (mn_stop_conditions n);
  vn_interval : timer_ok (mn_report_interval_ms n);
  vn_duration : timer_ok (mn_report_duration_ms n);
  vn_reports : is_Some (mn_report_duration_ms n) -> is_Some (mn_report_interval_ms n);
  vn_elapsed : Stop_DurationElapsed ∈ mn_stop_conditions n -> is_Some (mn_report_duration_ms n);
}.
(** The explicit form of a policy: a duration is a condition to stop. *)
Definition resolved_notifications (n : ManagedNotifications) : ManagedNotifications :=
  match mn_report_duration_ms n with
  | Some _ => if decide (Stop_DurationElapsed ∈ mn_stop_conditions n) then n
              else with_stops n (mn_stop_conditions n ++ [Stop_DurationElapsed])
  | None => n
  end.

Lemma timer_exact ms : is_some_and ms (fun v => negb (duration_valid v)) = false <-> timer_ok ms.
Proof.
  rewrite is_some_and_false. unfold timer_ok, duration_valid. setoid_rewrite negb_false_iff.
  setoid_rewrite andb_true_iff. setoid_rewrite N.ltb_lt. by setoid_rewrite N.leb_le.
Qed.

Lemma notifications_normalize_exact n n' :
  notifications_normalize n = Ok n' <-> valid_notifications n /\ n' = resolved_notifications n.
Proof.
  unfold notifications_normalize. rewrite fail_if_ok, !orb_false_iff, !N.ltb_ge, !negb_false_iff, !distinct_exact,
    existsb_false, !timer_exact. setoid_rewrite negb_false_iff. setoid_rewrite text_valid_exact.
  split.
  - intros [[[[[[[[[Hc _] Hd] Hs] Hm] Hi] Hdu] Hr] He] Hn]. split.
    + split; [done..|intros Hx%is_none_false; rewrite Hx in Hr; simpl in Hr; by apply is_none_false|].
      intros Hin. rewrite bool_decide_true in He by done. by apply is_none_false.
    + unfold resolved_notifications. destruct (mn_report_duration_ms n); simpl in Hn; [|congruence].
      case_bool_decide; simpl in Hn; [by rewrite decide_True; congruence|]. rewrite decide_False by done.
      destruct (_ =? _)%N; congruence.
  - intros [[Hc Hd Hm Hs Hi Hdu Hr He] ->]. pose proof (stops_bounded _ Hs) as H2.
    split.
    + repeat match goal with |- _ /\ _ => split end; try done; [unfold MAX_SUBAGENT_STOP_CONDITIONS; lia| |].
      * destruct (mn_report_duration_ms n); [|done]. simpl. apply is_none_false, Hr. eauto.
      * case_bool_decide as Hin; [|done]. simpl. by apply is_none_false, He.
    + unfold resolved_notifications. destruct (mn_report_duration_ms n); simpl; [|done].
      case_bool_decide as Hin; [by rewrite decide_True|]. rewrite decide_False by done.
      destruct (N.eqb_spec (vec_len (mn_stop_conditions n)) MAX_SUBAGENT_STOP_CONDITIONS) as [E|]; [|done].
      rewrite E in H2. by vm_compute in H2.
Qed.

Lemma resolved_valid n : valid_notifications n -> valid_notifications (resolved_notifications n) /\
  resolved_notifications (resolved_notifications n) = resolved_notifications n.
Proof.
  intros Hv.
  assert (resolved_notifications n = n \/
    resolved_notifications n = with_stops n (mn_stop_conditions n ++ [Stop_DurationElapsed]) /\
    Stop_DurationElapsed ∉ mn_stop_conditions n /\ is_Some (mn_report_duration_ms n)) as [Hr|(Hr & Hin & Hd)].
  { unfold resolved_notifications. destruct (mn_report_duration_ms n); [|by left]. destruct (decide _); eauto. }
  { by rewrite !Hr. }
  rewrite Hr. split.
  - destruct Hv. split; simpl; try done. apply NoDup_app. split; [done|]. split; [set_solver|apply NoDup_singleton].
  - unfold resolved_notifications. simpl. destruct (mn_report_duration_ms n); [|done]. rewrite decide_True; [done|set_solver].
Qed.

(** ** Commands *)
Definition opt {A} (P : A -> Prop) (o : option A) : Prop := forall x, o = Some x -> P x.

Record valid_create (v : ManagedCreate) : Prop := {
  vc_name : plain_text MAX_SUBAGENT_NAME_BYTES (cr_name v);
  vc_one_off : cr_mode v = Mode_OneOff -> is_Some (cr_prompt v);
  vc_prompt : opt (plain_text MAX_SUBAGENT_PROMPT_BYTES) (cr_prompt v);
  vc_model : opt (plain_text MAX_SUBAGENT_MODEL_BYTES) (cr_model v);
  vc_effort : opt effort_text (cr_effort v);
  vc_notifications : valid_notifications (cr_notifications v);
}.
(** A wait reads the status of a fresh projection, for at most a minute. *)
Record valid_inspect (v : ManagedInspect) : Prop := {
  vi_id : agent_id (in_id v);
  vi_sections : in_sections v <> [] /\ NoDup (in_sections v);
  vi_limit : (1 <= in_limit v <= MAX_SUBAGENT_PAGE_LIMIT)%N;
  vi_cursor : opt (fun s => exists c, (cur_generation c <= U64_MAX)%N /\ (cur_offset c <= U64_MAX)%N /\ s = cursor_encode c)
    (in_cursor v);
  vi_wait : opt (fun w => in_cursor v = None /\ Sec_Status ∈ in_sections v /\
    (1 <= iw_timeout_ms w <= MAX_SUBAGENT_INSPECT_WAIT_MS)%N) (in_wait v);
}.
(** A child is never its own parent. *)
Record valid_relationship (v : ManagedRelationship) : Prop := {
  vr_id : agent_id (rl_id v);
  vr_parent : opt (fun p => agent_id p /\ p <> rl_id v) (rl_parent_id v);
  vr_detach : rl_action v = Rel_Detach -> rl_parent_id v = None;
  vr_reparent : rl_action v = Rel_Reparent -> is_Some (rl_parent_id v);
}.
Record valid_configure (v : ManagedConfigure) : Prop := {
  vf_id : agent_id (cf_id v);
  vf_some : is_Some (cf_name v) \/ is_Some (cf_model v) \/ is_Some (cf_effort v) \/ is_Some (cf_permission_mode v) \/
    is_Some (cf_notifications v);
  vf_name : opt (plain_text MAX_SUBAGENT_NAME_BYTES) (cf_name v);
  vf_model : opt (plain_text MAX_SUBAGENT_MODEL_BYTES) (cf_model v);
  vf_effort : opt effort_text (cf_effort v);
  vf_notifications : opt valid_notifications (cf_notifications v);
}.
Definition valid_command (c : ManagedSubagentCommand) : Prop :=
  match c with
  | Cmd_Create v => valid_create v
  | Cmd_Inspect v => valid_inspect v
  | Cmd_Message (Msg_Send v) => agent_id (send_id v) /\ plain_text MAX_SUBAGENT_MESSAGE_BYTES (send_content v)
  | Cmd_Message (Msg_Milestone v) => plain_text MAX_SUBAGENT_NAME_BYTES (ms_name v)
  | Cmd_Relationship v => valid_relationship v
  | Cmd_Configure v => valid_configure v
  | Cmd_Lifecycle v => agent_id (lc_id v)
  end.

Definition resolved_create (v : ManagedCreate) : ManagedCreate :=
  {| cr_name := cr_name v; cr_mode := cr_mode v; cr_prompt := cr_prompt v; cr_model := cr_model v;
     cr_effort := cr_effort v; cr_permission_mode := cr_permission_mode v;
     cr_notifications := resolved_notifications (cr_notifications v) |}.
Definition resolved_configure (v : ManagedConfigure) : ManagedConfigure :=
  {| cf_id := cf_id v; cf_name := cf_name v; cf_model := cf_model v; cf_effort := cf_effort v;
     cf_permission_mode := cf_permission_mode v; cf_notifications := resolved_notifications <$> cf_notifications v |}.
(** Only the notification policies have a default to make explicit. *)
Definition resolved_command (c : ManagedSubagentCommand) : ManagedSubagentCommand :=
  match c with
  | Cmd_Create v => Cmd_Create (resolved_create v)
  | Cmd_Configure v => Cmd_Configure (resolved_configure v)
  | _ => c
  end.

Lemma opt_exact {A} (p : A -> bool) (P : A -> Prop) (o : option A) :
  (forall x, p x = true <-> P x) -> is_some_and o (fun x => negb (p x)) = false <-> opt P o.
Proof. intros Hp. rewrite is_some_and_false. unfold opt. setoid_rewrite negb_false_iff. by setoid_rewrite Hp. Qed.
Definition opt_text o limit := opt_exact (fun s => text_valid s limit) _ o (fun s => text_valid_exact s limit).
Definition opt_effort o := opt_exact effort_valid _ o effort_valid_exact.

Lemma create_normalize_exact v v' : create_normalize v = Ok v' <-> valid_create v /\ v' = resolved_create v.
Proof.
  unfold create_normalize. rewrite fail_if_ok, !orb_false_iff, negb_false_iff, text_valid_exact, !opt_text, opt_effort, rbind_Ok.
  setoid_rewrite notifications_normalize_exact. rewrite andb_false_iff, bool_decide_eq_false, is_none_false. split.
  - intros ([[[[Hn Ho] Hp] Hm] He] & n & [Hv ->] & [= <-]). split; [split; auto|done]. by destruct Ho.
  - intros [[Hn Ho Hp Hm He Hv] ->]. split; [|by eexists]. repeat match goal with |- _ /\ _ => split end; try done.
    destruct (cr_mode v); [right; auto|by left].
Qed.

Lemma configure_normalize_exact v v' : configure_normalize v = Ok v' <-> valid_configure v /\ v' = resolved_configure v.
Proof.
  unfold configure_normalize. rewrite fail_if_ok, !orb_false_iff, negb_false_iff, id_valid_exact, !opt_text, opt_effort, rbind_Ok.
  rewrite !andb_false_iff, !is_none_false. split.
  - intros ([[[[Hi Hs] Hn] Hm] He] & n & En & [= <-]). destruct (cf_notifications v) as [policy|] eqn:Ep.
    + apply rbind_Ok in En as (policy' & [Hv ->]%notifications_normalize_exact & [= <-]).
      split; [split; try done; [rewrite Ep; tauto|by intros ? [= <-]%(eq_trans (eq_sym Ep))]|unfold resolved_configure; by rewrite Ep].
    + simplify_eq. split; [split; try done; [rewrite Ep; tauto|by intros ? H%(eq_trans (eq_sym Ep))]|unfold resolved_configure; by rewrite Ep].
  - intros [[Hi Hs Hn Hm He Hv] ->]. split; [repeat match goal with |- _ /\ _ => split end; try done; tauto|].
    eexists. split; [|done]. unfold resolved_configure. destruct (cf_notifications v) as [policy|]; [|done].
    by rewrite (proj2 (notifications_normalize_exact _ _) (conj (Hv _ eq_refl) eq_refl)).
Qed.

Lemma sections_bounded (l : list ManagedInspectSection) : NoDup l -> (vec_len l <= 6)%N.
Proof.
  intros Hd. assert (length l <= length [Sec_Status; Sec_Messages; Sec_ToolActivity; Sec_Events; Sec_Configuration;
    Sec_Relationship]); [|unfold vec_len; simpl in *; lia].
  apply submseteq_length, NoDup_submseteq; [done|]. intros []; set_solver.
Qed.

Lemma cursor_ok_exact o :
  (let? _ := match o with Some cursor => let? _ := cursor_parse cursor in Ok tt | None => Ok tt end in Ok tt) = Ok tt
  <-> opt (fun s => exists c, (cur_generation c <= U64_MAX)%N /\ (cur_offset c <= U64_MAX)%N /\ s = cursor_encode c) o.
Proof.
  unfold opt. destruct o as [s|]; simpl; [|naive_solver]. split.
  - destruct (cursor_parse s) as [c|] eqn:E; [|done]. intros _ ? [= <-]. apply cursor_canonical in E as (? & ? & ?). eauto.
  - intros H. destruct (H s eq_refl) as (c & Hg & Ho & ->). by rewrite (proj2 (cursor_canonical _ c)).
Qed.

Lemma wait_exact v :
  is_some_and (in_wait v) (fun wait =>
    negb (is_none (in_cursor v)) || negb (bool_decide (Sec_Status ∈ in_sections v)) ||
    (iw_timeout_ms wait =? 0)%N || (MAX_SUBAGENT_INSPECT_WAIT_MS <? iw_timeout_ms wait)%N) = false <->
  opt (fun w => in_cursor v = None /\ Sec_Status ∈ in_sections v /\
    (1 <= iw_timeout_ms w <= MAX_SUBAGENT_INSPECT_WAIT_MS)%N) (in_wait v).
Proof.
  rewrite is_some_and_false. unfold opt. setoid_rewrite orb_false_iff. setoid_rewrite orb_false_iff. setoid_rewrite orb_false_iff.
  setoid_rewrite negb_false_iff. setoid_rewrite is_none_true. setoid_rewrite bool_decide_eq_true.
  setoid_rewrite N.eqb_neq. setoid_rewrite N.ltb_ge.
  split; intros H w Hw; destruct (H w Hw) as [? ?]; [split_and!; try tauto; lia|]. split; [split; [split; tauto|lia]|lia].
Qed.

Lemma inspect_normalize_exact v v' : inspect_normalize v = Ok v' <-> valid_inspect v /\ v' = v.
Proof.
  unfold inspect_normalize. rewrite fail_if_ok, !orb_false_iff, negb_false_iff, id_valid_exact, bool_decide_eq_false, !N.ltb_ge,
    negb_false_iff, distinct_exact, N.eqb_neq, rbind_Ok.
  setoid_rewrite fail_if_ok. setoid_rewrite wait_exact. split.
  - intros ([[[[[Hi Hs] _] Hd] Hz] Hl] & [] & Hc & Hw & [= <-]). split; [|done]. split; [done|done|lia| |done].
    apply cursor_ok_exact. by rewrite Hc.
  - intros [[Hi [Hs Hd] Hl Hc Hw] ->]. pose proof (sections_bounded _ Hd).
    split; [repeat match goal with |- _ /\ _ => split end; try done; lia|].
    exists tt. split; [|done]. apply cursor_ok_exact in Hc.
    by destruct (match in_cursor v with Some _ => _ | None => _ end) as [[]|].
Qed.

Lemma relationship_exact v : relationship_invalid v = false <-> valid_relationship v.
Proof.
  unfold relationship_invalid. rewrite !orb_false_iff, negb_false_iff, id_valid_exact, is_some_and_false.
  setoid_rewrite orb_false_iff. setoid_rewrite negb_false_iff. setoid_rewrite id_valid_exact. setoid_rewrite bool_decide_eq_false.
  rewrite !andb_false_iff, !bool_decide_eq_false, negb_false_iff, is_none_true, is_none_false. split.
  - intros [[[Hi Hp] Hd] Hr]. split; [done|done|by destruct Hd|by destruct Hr].
  - intros [Hi Hp Hd Hr]. split; [split; [done|]|].
    + destruct (rl_action v); [by left|right; auto|by left].
    + destruct (rl_action v); [by left|by left|right; auto].
Qed.

(** Every refusal is the same error. *)
Definition fixed_error {A} (r : result A ManagedSubagentError) : Prop := forall e, r = Err e -> e = Sub_InvalidArguments.
Lemma fixed_ok {A} (x : A) : fixed_error (Ok x).
Proof. done. Qed.
Lemma fixed_if {A} (b : bool) (r : result A ManagedSubagentError) :
  fixed_error r -> fixed_error (if b then Err Sub_InvalidArguments else r).
Proof. destruct b; [by intros _ e [= <-]|done]. Qed.
Lemma fixed_bind {A B} (r : result A ManagedSubagentError) (k : A -> result B ManagedSubagentError) :
  fixed_error r -> (forall x, fixed_error (k x)) -> fixed_error (rbind r k).
Proof. destruct r; simpl; [auto|]. intros Hr _ e' [= <-]. by apply Hr. Qed.
Lemma fixed_option {A} (o : option A) : fixed_error (ok_or Sub_InvalidArguments o).
Proof. by destruct o; [|intros e [= <-]]. Qed.
Lemma fixed_case {A B} (o : option A) (f : A -> result B ManagedSubagentError) (r : result B ManagedSubagentError) :
  (forall x, fixed_error (f x)) -> fixed_error r -> fixed_error (match o with Some x => f x | None => r end).
Proof. by destruct o. Qed.
Create HintDb fixed.
#[local] Hint Resolve fixed_ok fixed_if fixed_bind fixed_option fixed_case : fixed.

Lemma canonical_integer_fixed o : fixed_error (canonical_integer o).
Proof. unfold canonical_integer. auto with fixed. Qed.
#[local] Hint Resolve canonical_integer_fixed : fixed.
Lemma cursor_parse_fixed s : fixed_error (cursor_parse s).
Proof. unfold cursor_parse. auto 8 with fixed. Qed.
#[local] Hint Resolve cursor_parse_fixed : fixed.
Lemma notifications_fixed n : fixed_error (notifications_normalize n).
Proof. unfold notifications_normalize. apply fixed_if. destruct (_ && _); auto with fixed. Qed.
#[local] Hint Resolve notifications_fixed : fixed.

Lemma command_normalized (c : ManagedSubagentCommand) :
  forall c', command_normalize c = Ok c' <-> valid_command c /\ c' = resolved_command c.
Proof.
  intros c'. destruct c as [v|v|[v|v]|v|v|v]; cbn [command_normalize valid_command resolved_command];
      rewrite ?rbind_Ok, ?fail_if_ok, ?orb_false_iff, ?negb_false_iff, ?id_valid_exact, ?text_valid_exact, ?relationship_exact.
  - setoid_rewrite create_normalize_exact. naive_solver.
  - setoid_rewrite inspect_normalize_exact. naive_solver.
  - naive_solver.
  - naive_solver.
  - naive_solver.
  - setoid_rewrite configure_normalize_exact. naive_solver.
  - naive_solver.
Qed.

(** Validation is exact. A command of each kind is accepted exactly when it satisfies
    its contract (the bounds, the alphabets and the absence of repetitions, the
    conditions between optional fields), and what is accepted is the same command with
    the one default made explicit: a report duration is also a condition to stop.
    Nothing else is changed, and every refusal is the same fixed error. *)
Theorem command_normalize_exact (c : ManagedSubagentCommand) :
  (forall c', command_normalize c = Ok c' <-> valid_command c /\ c' = resolved_command c) /\
  (forall e, command_normalize c = Err e -> e = Sub_InvalidArguments).
Proof.
  split; [apply command_normalized|].
  change (fixed_error (command_normalize c)).
  destruct c as [v|v|[v|v]|v|v|v]; simpl; unfold create_normalize, inspect_normalize, configure_normalize; auto 10 with fixed.
Qed.

Lemma resolved_command_valid c : valid_command c -> valid_command (resolved_command c) /\
  resolved_command (resolved_command c) = resolved_command c.
Proof.
  destruct c as [v|v|v|v|v|v]; simpl; try done.
  - intros []. destruct (resolved_valid (cr_notifications v)) as [Hv Hr]; [done|]. split; [by split|].
    unfold resolved_create. simpl. by rewrite Hr.
  - intros [? ? ? ? ? Hn]. split.
    + split; simpl; try done; [by rewrite fmap_is_Some|]. intros n. destruct (cf_notifications v) as [m|]; [|done]. intros [= <-].
      by apply resolved_valid, Hn.
    + unfold resolved_configure. simpl. destruct (cf_notifications v) as [m|]; simpl; [|done].
      by rewrite (proj2 (resolved_valid m (Hn m eq_refl))).
Qed.

Lemma normalize_idempotent c c' : command_normalize c = Ok c' -> command_normalize c' = Ok c'.
Proof.
  intros [Hv ->]%command_normalized. destruct (resolved_command_valid c Hv) as [Hv' Hr].
  apply command_normalized. by rewrite Hr.
Qed.
