(* ===== verification/SubagentTheorems.v ===== *)
(** * Managed commands are executed as they were prepared

    Every accepted command fits the limits of its arguments, and the prepared
    arguments are read back as the same command. The authority is asked once, with a
    command that was validated, and what it returns is published only when its
    envelope is consistent. *)
From S2P Require Import Prelude Ids Json Model Limits Tool Prog Invocation Subagent SubagentProofs.
From stdpp Require Import pretty.
Open Scope prog_scope.

(** ** The size of JSON text *)
(** The largest compact text: a byte of a string takes at most six, and each element
    a separator. *)
Definition str_text (s : string) : N := (2 + 6 * str_len s)%N.
Fixpoint value_text (v : Value) : N :=
  match v with
  | VNull => 4
  | VBool _ => 5
  | VNumber n => str_len n
  | VString s => str_text s
  | VArray l => 2 + sum_by (fun v => 1 + value_text v)%N l
  | VObject l => 2 + sum_by (fun e => 2 + str_text e.1 + value_text e.2)%N l
  end%N.
Fixpoint ser_text (s : Ser) : N :=
  match s with
  | Ser_str s => str_text s
  | Ser_bool _ => 5
  | Ser_u64 n => str_len (pretty n)
  | Ser_i64 n => str_len (pretty n)
  | Ser_f32 _ => 32
  | Ser_none => 4
  | Ser_seq l => 2 + sum_by (fun s => 1 + ser_text s)%N l
  | Ser_fields l => 2 + sum_by (fun e => 2 + str_text e.1 + ser_text e.2)%N l
  | Ser_value v => value_text v
  end%N.
Fixpoint ser_nodes (s : Ser) : N :=
  match s with
  | Ser_seq l => 1 + sum_by ser_nodes l
  | Ser_fields l => 1 + sum_by (fun e => ser_nodes e.2) l
  | Ser_value v => node_count v
  | _ => 1
  end%N.
Fixpoint ser_height (s : Ser) : N :=
  match s with
  | Ser_seq l => 1 + max_by ser_height l
  | Ser_fields l => 1 + max_by (fun e => ser_height e.2) l
  | Ser_value v => container_height v
  | _ => 0
  end%N.

(** [serde_json] writes compact text, and converts a tree to a value of the same
    shape. *)
Class JsonWriterLaws `{JsonWriter} : Prop := {
  writer_size : forall s, (chunk_bytes (chunks (write_json s)) <= ser_text s)%N;
  writer_succeeds : forall s, ser_error (write_json s) = None;
}.
Class JsonValueLaws `{JsonCodec} : Prop := {
  value_total : forall s, exists v, to_value s = Some v;
  value_size : forall s v, to_value s = Some v -> (value_text v <= ser_text s)%N;
  value_nodes : forall s v, to_value s = Some v -> (node_count v <= ser_nodes s)%N;
  value_height : forall s v, to_value s = Some v -> (container_height v <= ser_height s)%N;
}.

(** The integers of a command are 64-bit. *)
Definition word (n : N) : Prop := (n <= U64_MAX)%N.
Definition notifications_typed (n : ManagedNotifications) : Prop :=
  opt word (mn_report_interval_ms n) /\ opt word (mn_report_duration_ms n).
Definition command_typed (c : ManagedSubagentCommand) : Prop :=
  match c with
  | Cmd_Create v => notifications_typed (cr_notifications v)
  | Cmd_Inspect v => word (in_limit v) /\ opt (fun w => opt word (iw_after_generation w) /\ word (iw_timeout_ms w)) (in_wait v)
  | Cmd_Configure v => opt notifications_typed (cf_notifications v)
  | _ => True
  end.

(** ** Bounds of the trees *)
Record fits (s : Ser) (bytes nodes height : N) : Prop := {
  fit_text : (ser_text s <= bytes)%N;
  fit_nodes : (ser_nodes s <= nodes)%N;
  fit_height : (ser_height s <= height)%N;
}.

Record fields_fit (l : list (string * Ser)) (bytes nodes height : N) : Prop := {
  ff_text : (sum_by (fun e => 2 + str_text e.1 + ser_text e.2) l <= bytes)%N;
  ff_nodes : (sum_by (fun e => ser_nodes e.2) l <= nodes)%N;
  ff_height : (max_by (fun e => ser_height e.2) l <= height)%N;
}.

Lemma fits_weaken s b n h b' n' h' : fits s b n h -> (b <= b')%N -> (n <= n')%N -> (h <= h')%N -> fits s b' n' h'.
Proof. intros [] ? ? ?. split; lia. Qed.
Lemma fits_str s limit : (str_len s <= limit)%N -> fits (Ser_str s) (2 + 6 * limit) 1 0.
Proof. intros Hs. split; simpl; unfold str_text; lia. Qed.
Lemma fits_bool b : fits (Ser_bool b) 5 1 0.
Proof. by split. Qed.
Lemma fits_u64 n : word n -> fits (Ser_u64 n) 20 1 0.
Proof. intros Hn. split; [by apply pretty_u64_length|done|done]. Qed.
Lemma fits_seq l k b n h : (vec_len l <= k)%N -> Forall (fun s => fits s b n h) l ->
  fits (Ser_seq l) (2 + k * (1 + b)) (1 + k * n) (1 + h).
Proof.
  intros Hk Hl. assert (sum_by (fun s => 1 + ser_text s) l <= vec_len l * (1 + b) /\ sum_by ser_nodes l <= vec_len l * n /\
    max_by ser_height l <= h)%N as (H1 & H2 & H3).
  { clear Hk. unfold vec_len. induction Hl as [|s l [Ht Hn Hh] _ (IH1 & IH2 & IH3)]; simpl in *; [lia|]. split_and!; lia. }
  split; simpl; nia.
Qed.
Lemma fits_fields l b n h : fields_fit l b n h -> fits (Ser_fields l) (2 + b) (1 + n) (1 + h).
Proof. intros []. split; simpl; lia. Qed.

Lemma ff_nil : fields_fit [] 0 0 0.
Proof. by split. Qed.
Lemma ff_cons k s l b n h b' n' h' : fits s b n h -> fields_fit l b' n' h' ->
  fields_fit ((k, s) :: l) (2 + str_text k + b + b') (n + n') (N.max h h').
Proof. intros [] []. split; simpl; lia. Qed.
Lemma ff_app l l' b n h b' n' h' : fields_fit l b n h -> fields_fit l' b' n' h' ->
  fields_fit (l ++ l') (b + b') (n + n') (N.max h h').
Proof.
  intros [H1 H2 H3] [H1' H2' H3']. split; rewrite ?sum_by_app; [lia|lia|]. clear H1 H2 H1' H2'.
  induction l as [|e l IH]; simpl in *; [lia|]. apply N.max_lub; [lia|]. apply IH. lia.
Qed.
Lemma ff_present {A} k (o : option A) f b n h : opt (fun x => fits (f x) b n h) o ->
  fields_fit (present_field k o f) (2 + str_text k + b) n h.
Proof.
  intros Ho. destruct o as [x|]; simpl; [|split; simpl; lia]. destruct (Ho x eq_refl). split; simpl; lia.
Qed.
Lemma opt_mono {A} (P Q : A -> Prop) o : opt P o -> (forall x, P x -> Q x) -> opt Q o.
Proof. unfold opt. auto. Qed.

(** A unit variant is a short name. *)
Ltac fits_tag := match goal with |- fits (to_ser ?x) _ _ _ => destruct x; (apply fits_str; vm_compute; discriminate) end.
Ltac fits_step :=
  lazymatch goal with
  | |- fields_fit [] _ _ _ => apply ff_nil
  | |- fields_fit (_ :: _) _ _ _ => apply ff_cons
  | |- fields_fit (_ ++ _) _ _ _ => apply ff_app
  | |- fields_fit (present_field _ _ _) _ _ _ => apply ff_present
  | |- fits (Ser_fields _) _ _ _ => apply fits_fields
  | |- fits (Ser_bool _) _ _ _ => apply fits_bool
  | |- fits (Ser_u64 _) _ _ _ => apply fits_u64
  end.
Ltac fits_all := repeat fits_step.
Ltac fits_close := vm_compute; discriminate.

Lemma fits_text limit s : plain_text limit s -> fits (Ser_str s) (2 + 6 * limit) 1 0.
Proof. intros []. by apply fits_str. Qed.
Lemma fits_effort s : effort_text s -> fits (Ser_str s) (2 + 6 * 64) 1 0.
Proof. intros []. by apply fits_str. Qed.
Lemma fits_id s : agent_id s -> fits (Ser_str s) (2 + 6 * 255) 1 0.
Proof. intros []. by apply fits_str. Qed.
Lemma timer_word o : timer_ok o -> opt word o.
Proof. intros Ht n E. specialize (Ht n E). unfold word, U64_MAX. unfold MAX_I64 in Ht. lia. Qed.

Lemma fits_stops (l : list ManagedStopCondition) : NoDup l -> fits (to_ser l) 200 3 1.
Proof.
  intros Hd. eapply fits_weaken; [apply (fits_seq _ 2 (2 + 6 * 16) 1 0)| | |].
  - unfold vec_len. rewrite length_map. by apply stops_bounded.
  - apply Forall_forall. intros s (x & -> & _)%list_elem_of_fmap. fits_tag.
  - fits_close.
  - fits_close.
  - fits_close.
Qed.

Lemma fits_terminal (t : ManagedTerminalNotifications) : fits (to_ser t) 250 4 1.
Proof. eapply fits_weaken; [unfold to_ser, terminal_notifications_to_ser; fits_all|fits_close..]. Qed.

Lemma fits_notifications n : valid_notifications n -> fits (to_ser n) 26000 60 3.
Proof.
  intros [Hc _ Hm Hs Hi Hdu _ _]. eapply fits_weaken.
  - unfold to_ser at 1, notifications_to_ser. cbn [app]. fits_all.
    + apply fits_terminal.
    + apply (fits_seq _ MAX_SUBAGENT_MILESTONES (2 + 6 * MAX_SUBAGENT_NAME_BYTES) 1 0); [unfold vec_len; by rewrite length_map|].
      apply Forall_forall. intros s (x & -> & Hx)%list_elem_of_fmap. apply fits_text.
      exact (proj1 (Forall_forall _ _) Hm x Hx).
    + eapply opt_mono; [by apply timer_word|apply fits_u64].
    + eapply opt_mono; [by apply timer_word|apply fits_u64].
    + by apply fits_stops.
  - fits_close.
  - fits_close.
  - fits_close.
Qed.

Lemma fits_permission (m : ManagedPermissionMode) : fits (to_ser m) 26 1 0.
Proof. eapply fits_weaken; [instantiate (3 := (2 + 6 * 4)%N); fits_tag|fits_close..]. Qed.

Lemma fits_create v : valid_create v -> fits (to_ser v) 440000 80 4.
Proof.
  intros [Hn _ Hp Hm He Hv]. eapply fits_weaken.
  - unfold to_ser at 1, create_to_ser. cbn [app]. fits_all.
    + by apply fits_text.
    + instantiate (3 := (2 + 6 * 10)%N). destruct (cr_mode v); apply fits_str; fits_close.
    + eapply opt_mono; [exact Hp|apply fits_text].
    + eapply opt_mono; [exact Hm|apply fits_text].
    + eapply opt_mono; [exact He|apply fits_effort].
    + intros m _. apply fits_permission.
    + by apply fits_notifications.
  - fits_close.
  - fits_close.
  - fits_close.
Qed.

Lemma fits_configure v : valid_configure v -> fits (to_ser v) 440000 80 4.
Proof.
  intros [Hi _ Hn Hm He Hv]. eapply fits_weaken.
  - unfold to_ser at 1, configure_to_ser. cbn [app]. fits_all.
    + by apply fits_id.
    + eapply opt_mono; [exact Hn|apply fits_text].
    + eapply opt_mono; [exact Hm|apply fits_text].
    + eapply opt_mono; [exact He|apply fits_effort].
    + intros m _. apply fits_permission.
    + eapply opt_mono; [exact Hv|apply fits_notifications].
  - fits_close.
  - fits_close.
  - fits_close.
Qed.

Lemma cursor_length c : word (cur_generation c) -> word (cur_offset c) -> (str_len (cursor_encode c) <= 44)%N.
Proof.
  intros Hg%pretty_u64_length Ho%pretty_u64_length. unfold cursor_encode. rewrite !str_len_app.
  change (str_len "v1:") with 3%N. change (str_len ":") with 1%N. lia.
Qed.

Lemma fits_wait v w : valid_inspect v -> in_wait v = Some w -> opt word (iw_after_generation w) -> fits (to_ser w) 500 4 1.
Proof.
  intros [_ _ _ _ Hw] E Ha. destruct (Hw w E) as (_ & _ & Ht). eapply fits_weaken.
  - unfold to_ser at 1, wait_to_ser. cbn [app]. fits_all.
    + instantiate (3 := (2 + 6 * 7)%N). destruct (iw_until w). apply fits_str; fits_close.
    + eapply opt_mono; [exact Ha|apply fits_u64].
    + unfold word, U64_MAX, MAX_SUBAGENT_INSPECT_WAIT_MS in *. lia.
  - fits_close.
  - fits_close.
  - fits_close.
Qed.

Lemma fits_inspect v : valid_inspect v -> command_typed (Cmd_Inspect v) -> fits (to_ser v) 440000 80 4.
Proof.
  intros Hv [_ Hw]. pose proof Hv as [Hi [_ Hd] Hl Hc _]. eapply fits_weaken.
  - unfold to_ser at 1, inspect_to_ser. cbn [app]. fits_all.
    + by apply fits_id.
    + apply (fits_seq _ 6 (2 + 6 * 13) 1 0); [unfold vec_len; rewrite length_map; by apply sections_bounded|].
      apply Forall_forall. intros s (x & -> & _)%list_elem_of_fmap. fits_tag.
    + eapply opt_mono; [exact Hc|]. intros s (c & Hg & Ho & ->). by apply fits_str, cursor_length.
    + unfold word, U64_MAX, MAX_SUBAGENT_PAGE_LIMIT in *. lia.
    + intros w E. apply (fits_wait v w); [done|done|]. by apply Hw.
  - fits_close.
  - fits_close.
  - fits_close.
Qed.

Lemma fits_relationship v : valid_relationship v -> fits (to_ser v) 440000 80 4.
Proof.
  intros [Hi Hp _ _]. eapply fits_weaken.
  - unfold to_ser at 1, relationship_to_ser. cbn [app]. fits_all.
    + instantiate (3 := (2 + 6 * 8)%N). destruct (rl_action v); apply fits_str; fits_close.
    + by apply fits_id.
    + eapply opt_mono; [exact Hp|]. intros p [Hid _]. by apply fits_id.
  - fits_close.
  - fits_close.
  - fits_close.
Qed.

Lemma fits_message m : valid_command (Cmd_Message m) -> fits (to_ser m) 440000 80 4.
Proof.
  destruct m as [v|v]; simpl.
  - intros [Hi Hc]. eapply fits_weaken.
    + unfold to_ser at 1, message_to_ser, Ser_tag. fits_all; [by apply fits_id|by apply fits_text].
    + fits_close.
    + fits_close.
    + fits_close.
  - intros Hn. eapply fits_weaken.
    + unfold to_ser at 1, message_to_ser, Ser_tag. fits_all. by apply fits_text.
    + fits_close.
    + fits_close.
    + fits_close.
Qed.

Lemma fits_lifecycle v : agent_id (lc_id v) -> fits (to_ser v) 440000 80 4.
Proof.
  intros Hi. eapply fits_weaken.
  - unfold to_ser at 1, lifecycle_to_ser. fits_all; [by apply fits_id|].
    instantiate (3 := (2 + 6 * 6)%N). destruct (lc_action v); apply fits_str; fits_close.
  - fits_close.
  - fits_close.
  - fits_close.
Qed.

Lemma fits_command c : valid_command c -> command_typed c -> fits (to_ser c) 441000 81 5.
Proof.
  intros Hv Ht. assert (exists tag s, to_ser c = Ser_tag tag s /\ (str_len tag <= 12)%N /\ fits s 440000 80 4) as (tag & s & -> & Htag & Hs).
  { destruct c as [v|v|m|v|v|v]; do 2 eexists; (split; [reflexivity|]); (split; [fits_close|]);
      eauto using fits_create, fits_inspect, fits_message, fits_relationship, fits_configure, fits_lifecycle. }
  eapply fits_weaken; [apply fits_fields, ff_cons; [exact Hs|apply ff_nil]| |fits_close|fits_close].
  unfold str_text. lia.
Qed.

(** ** Arguments *)
Section Codec.
Context `{JsonWriter} `{JsonCodec} `{!JsonWriterLaws} `{!JsonValueLaws}.

Lemma size_within_fits {T} `{ToSer T} (value : T) limit :
  (ser_text (to_ser value) <= limit)%N -> (limit <= USIZE_MAX)%N -> size_within value limit = true.
Proof.
  intros Ht Hl. unfold size_within. pose proof (writer_size (to_ser value)) as Hw.
  rewrite serialized_size_closed by (unfold serialize, ser_serialize; lia). unfold serialize, ser_serialize.
  destruct (N.ltb_spec limit (chunk_bytes (chunks (write_json (to_ser value))))); [lia|]. by rewrite writer_succeeds.
Qed.

Lemma envelope_bounded c v : valid_command c -> command_typed c -> envelope c = Some v ->
  json_bounded v MAX_SUBAGENT_ARGUMENT_BYTES MAX_SUBAGENT_JSON_NODES = true.
Proof.
  intros Hv Ht E. apply bind_Some in E as (w & Ew & [= <-]). destruct (fits_command c Hv Ht) as [Fb Fn Fh].
  pose proof (value_size _ _ Ew). pose proof (value_nodes _ _ Ew). pose proof (value_height _ _ Ew).
  unfold json_bounded. apply andb_true_iff. split.
  - apply is_ok_true. exists tt. apply validate_json_roots_ok; [split; vm_compute; discriminate|].
    split; [change ((1 + (node_count w + 0)) + 0 <= 512)%N; lia|].
    apply Forall_singleton. change (1 + N.max (container_height w) 0 <= 12)%N. lia.
  - apply size_within_fits; [|vm_compute; discriminate]. change (ser_text (to_ser ?x)) with (value_text x). simpl.
    change (str_text "command") with 44%N. change MAX_SUBAGENT_ARGUMENT_BYTES with 458752%N. lia.
Qed.

Lemma resolved_typed c : command_typed c -> command_typed (resolved_command c).
Proof.
  assert (forall n, notifications_typed n -> notifications_typed (resolved_notifications n)) as Hn.
  { intros n Ht. unfold resolved_notifications. destruct (mn_report_duration_ms n); [|done]. by destruct (decide _). }
  destruct c as [v|v|v|v|v|v]; simpl; auto. intros Ht n. destruct (cf_notifications v) as [m|]; [|done].
  intros [= <-]. by apply Hn, Ht.
Qed.

Lemma envelope_total c : exists v, envelope c = Some v.
Proof. unfold envelope. destruct (value_total (to_ser c)) as [v ->]. by eexists. Qed.

Lemma to_arguments_valid c c' : command_typed c -> command_normalize c = Ok c' ->
  exists v, envelope c' = Some v /\ to_arguments c = Some (Ok v).
Proof.
  intros Ht Hn. pose proof Hn as [Hv ->]%command_normalized. destruct (envelope_total (resolved_command c)) as [v Ev].
  exists v. split; [done|]. unfold to_arguments.
  rewrite size_within_fits; [|pose proof (fits_command c Hv Ht) as [? _ _]; unfold MAX_SUBAGENT_ARGUMENT_BYTES; lia|vm_compute; discriminate].
  cbn [negb]. rewrite Hn, Ev. simpl. by rewrite (envelope_bounded (resolved_command c)); [|apply resolved_command_valid|apply resolved_typed|].
Qed.
End Codec.

(** The limits of the arguments never refuse a valid command: they leave room for the
    worst escaping of the longest prompt, message and policy. So a command is written
    exactly when it satisfies its contract, as its explicit form, and writing never
    panics. *)
Theorem to_arguments_exact `{JsonWriter} `{JsonCodec} `{!JsonWriterLaws} `{!JsonValueLaws} c :
  command_typed c ->
  match command_normalize c with
  | Ok c' => exists v, envelope c' = Some v /\ to_arguments c = Some (Ok v)
  | Err e => to_arguments c = Some (Err e) \/ to_arguments c = Some (Err Sub_ResourceLimit)
  end.
Proof.
  intros Ht. destruct (command_normalize c) as [c'|e] eqn:E; [by apply to_arguments_valid|].
  unfold to_arguments. rewrite E. destruct (size_within _ _); auto.
Qed.

(** ** Preparation *)
(** A written command is read back, and what is read has 64-bit integers. *)
Class JsonRoundTrip `{JsonCodec} : Prop := {
  codec_typed : forall v c, from_envelope v = Some c -> command_typed c;
  codec_roundtrip : forall c v, command_typed c -> envelope c = Some v -> from_envelope v = Some c;
}.

Section Prepare.
Context `{JsonWriter} `{JsonCodec} `{!JsonWriterLaws} `{!JsonValueLaws} `{!JsonRoundTrip}.

Lemma decode_normalized v c : command_decode v = Ok c -> command_typed c /\ command_normalize c = Ok c.
Proof.
  unfold command_decode. destruct (json_bounded _ _ _); [|done]. destruct (from_envelope v) as [c0|] eqn:E; simpl; [|done].
  intros Hn. split; [|by eapply normalize_idempotent]. apply command_normalized in Hn as [_ ->].
  by eapply resolved_typed, codec_typed.
Qed.

Lemma decode_envelope v c : command_typed c -> command_normalize c = Ok c -> envelope c = Some v -> command_decode v = Ok c.
Proof.
  intros Ht Hn Ev. pose proof Hn as [Hv _]%command_normalized. unfold command_decode.
  rewrite (envelope_bounded c v), (codec_roundtrip c v) by done. done.
Qed.

(** What preparation returns for a command. *)
Record prepared_as (call : ToolCall) (c : ManagedSubagentCommand) (p : PreparedToolCall) : Prop := {
  pa_envelope : envelope c = Some (prepared_arguments p);
  pa_capability : prepared_capability p = Some (Cap_Tool (call_name call) (call_id call) (prepared_arguments p));
  pa_cancellation : prepared_execution_cancellation p = if is_inspect c then Cancellable else CompletionWinsAfterFirstPoll;
  pa_decoded : command_decode (prepared_arguments p) = Ok c;
}.

Lemma prepare_decoded call c : call_name call = SUBAGENT_TOOL_NAME -> command_decode (call_arguments call) = Ok c ->
  exists p, subagent_prepare call = Some (Ok p) /\ prepared_as call c p.
Proof.
  intros Hname Hd. destruct (decode_normalized _ _ Hd) as [Ht Hn]. destruct (to_arguments_valid c c Ht Hn) as (v & Ev & Ea).
  unfold subagent_prepare. rewrite bool_decide_true by done. cbn [negb]. rewrite Hd, Ea. simpl. eexists. split; [reflexivity|].
  split; destruct (is_inspect c); simpl; try done; by apply decode_envelope.
Qed.
End Prepare.

(** ** Results *)
Record consistent_inspection (r : ManagedSubagentResult) (v : ManagedInspection) : Prop := {
  ci_child : agent_id (mi_child_id v) /\ sr_child_id r = Some (mi_child_id v);
  ci_page : (vec_len (mi_messages v) + vec_len (mi_history v) + vec_len (mi_events v) + vec_len (mi_tool_activity v)
             <= MAX_SUBAGENT_PAGE_LIMIT)%N;
  ci_cursor : mi_next_cursor v = sr_cursor r;
  ci_messages : Forall (fun m => plain_text MAX_SUBAGENT_MESSAGE_BYTES (qm_content m)) (mi_messages v);
  ci_history : Forall (fun h => (text_size (hi_user h) <= 16384)%N /\ (text_size (hi_assistant h) <= 16384)%N) (mi_history v);
  ci_history_total : (sum_by (fun h => text_size (hi_user h) + text_size (hi_assistant h)) (mi_history v) <= 32768)%N;
}.
Definition consistent_requested (r : ManagedSubagentResult) (requested : ManagedRequested) : Prop :=
  match requested with
  | Rq_Receipt receipt => sr_status r = outcome_status (rc_outcome receipt) /\ is_Some (sr_child_id r) /\ sr_cursor r = None
  | Rq_RelationshipApproval approval =>
      sr_status r = Res_AwaitingApproval /\ is_Some (sr_child_id r) /\ sr_cursor r = None /\ agent_id (ra_approval_id approval)
  | Rq_Inspection v => consistent_inspection r v
  end.
(** A rejection has a code and nothing else; a success has what was requested. *)
Record consistent_result `{JsonWriter} (r : ManagedSubagentResult) : Prop := {
  cr_operation : sr_operation_id r <> "" /\ (str_len (sr_operation_id r) <= 128)%N /\
    bytes_all (fun b => (32 <? N_of_ascii b)%N && negb (N_of_ascii b =? 127)%N) (sr_operation_id r) = true;
  cr_child : opt agent_id (sr_child_id r);
  cr_outcome : if sr_ok r then sr_error_code r = None /\ is_Some (sr_requested r)
               else is_Some (sr_error_code r) /\ sr_requested r = None /\ sr_status r = Res_Rejected;
  cr_cursor : opt (fun s => exists c, word (cur_generation c) /\ word (cur_offset c) /\ s = cursor_encode c) (sr_cursor r);
  cr_requested : opt (consistent_requested r) (sr_requested r);
  cr_size : serializes_within r MAX_SUBAGENT_OUTPUT_BYTES;
}.

Lemma operation_exact s : operation_valid s = true <->
  s <> "" /\ (str_len s <= 128)%N /\ bytes_all (fun b => (32 <? N_of_ascii b)%N && negb (N_of_ascii b =? 127)%N) s = true.
Proof.
  unfold operation_valid. rewrite !andb_true_iff, negb_true_iff, bool_decide_eq_false, N.leb_le.
  assert (forall p q, (forall b, p b = q b) -> bytes_all p s = bytes_all q s) as Hext.
  { intros p q Hpq. induction s as [|c s IH]; simpl; [done|]. by rewrite Hpq, IH. }
  rewrite (Hext _ (fun b => (32 <? N_of_ascii b)%N && negb (N_of_ascii b =? 127)%N)); [tauto|].
  intros b. destruct b as [[] [] [] [] [] [] [] []]; vm_compute; reflexivity.
Qed.

Lemma history_bytes_sum l : forall acc, (acc <= U64_MAX)%N ->
  foldl (fun bytes h => saturating_add (saturating_add bytes (text_size (hi_user h))) (text_size (hi_assistant h))) acc l =
  (N.min (acc + sum_by (fun h => text_size (hi_user h) + text_size (hi_assistant h)) l) U64_MAX)%N.
Proof.
  induction l as [|h l IH]; intros acc Ha; simpl; [lia|]. unfold saturating_add in *. rewrite IH by lia. lia.
Qed.

Lemma inspection_exact r v : inspection_invalid r v = false <-> consistent_inspection r v.
Proof.
  unfold inspection_invalid. rewrite !orb_false_iff, !negb_false_iff, id_valid_exact, !bool_decide_eq_true, !N.ltb_ge, !existsb_false.
  setoid_rewrite negb_false_iff. setoid_rewrite text_valid_exact. setoid_rewrite orb_false_iff.
  unfold history_bytes. rewrite history_bytes_sum by done.
  assert (forall o, is_some_and o (fun s => 16 * 1024 <? str_len s)%N = false <-> (text_size o <= 16384)%N) as Hside.
  { intros []; simpl; [by rewrite N.ltb_ge|]. split; [lia|done]. }
  setoid_rewrite Hside. unfold inspection_items, saturating_add, MAX_SUBAGENT_PAGE_LIMIT, U64_MAX. split.
  - intros [[[[[[? ?] ?] ?] ?] ?] ?]. split; try done; unfold MAX_SUBAGENT_PAGE_LIMIT; lia.
  - intros [[? ?] ? ? ? ? ?]. unfold MAX_SUBAGENT_PAGE_LIMIT in *. repeat match goal with |- _ /\ _ => split end; try done; lia.
Qed.

Lemma size_within_exact `{JsonWriter} {T} `{ToSer T} (value : T) limit : in_memory value ->
  size_within value limit = true <-> serializes_within value limit.
Proof.
  intros Hm. unfold size_within, serializes_within. rewrite serialized_size_closed by done.
  destruct (N.ltb_spec limit (chunk_bytes (chunks (serialize value)))); [split; [done|]; intros [? _]; lia|].
  destruct (ser_error (serialize value)); split; naive_solver.
Qed.

Lemma cursor_is_ok s : is_ok (cursor_parse s) = true <-> exists c, word (cur_generation c) /\ word (cur_offset c) /\ s = cursor_encode c.
Proof. rewrite is_ok_true. setoid_rewrite cursor_canonical. unfold word. naive_solver. Qed.

Lemma requested_exact r :
  match sr_requested r with Some (Rq_Receipt receipt) => receipt_invalid r receipt | _ => false end = false /\
  match sr_requested r with Some (Rq_RelationshipApproval approval) => approval_invalid r approval | _ => false end = false /\
  match sr_requested r with Some (Rq_Inspection v) => inspection_invalid r v | _ => false end = false <->
  opt (consistent_requested r) (sr_requested r).
Proof.
  unfold opt. destruct (sr_requested r) as [[receipt|v|approval]|]; [| | |naive_solver].
  - unfold receipt_invalid. rewrite !orb_false_iff, !negb_false_iff, bool_decide_eq_true, is_none_false, is_none_true.
    split; [intros ([[? ?] ?] & _) ? [= <-]; done|intros Hr; destruct (Hr _ eq_refl) as (? & ? & ?); done].
  - rewrite inspection_exact. split; [intros (_ & _ & ?) ? [= <-]; done|intros Hr; by pose proof (Hr _ eq_refl)].
  - unfold approval_invalid. rewrite !orb_false_iff, !negb_false_iff, bool_decide_eq_true, is_none_false, is_none_true, id_valid_exact.
    split; [intros (_ & [[[? ?] ?] ?] & _) ? [= <-]; done|intros Hr; destruct (Hr _ eq_refl) as (? & ? & ? & ?); done].
Qed.

(** The envelope of a result is checked exactly before it is published: a success
    carries what was requested and no code, a rejection a code and nothing else; a
    receipt has the status of its outcome, an inspection belongs to the child it names,
    fits its page and continues at the cursor of the envelope; identifiers, cursors and
    texts are well formed and the whole fits the output limit. *)
Theorem result_validate_exact `{JsonWriter} (r : ManagedSubagentResult) : in_memory r ->
  subagent_result_validate r = Ok tt <-> consistent_result r.
Proof.
  intros Hm. unfold subagent_result_validate. rewrite !fail_if_ok, !orb_false_iff, !negb_false_iff, operation_exact,
    (opt_exact id_valid _ _ id_valid_exact), (opt_exact (fun s => is_ok (cursor_parse s)) _ _ cursor_is_ok), !eqb_true_iff.
  rewrite (size_within_exact r) by done. pose proof (requested_exact r) as Hq.
  split.
  - intros ([[[[[Ho Hc] He] Hr] Hs] Hcur] & H1 & H2 & H3 & Hsize & _). split; try done; [|by apply Hq].
    destruct (sr_ok r); simpl in *.
    + split; [by apply is_none_true|]. apply is_none_false. by destruct (is_none (sr_requested r)).
    + split; [by apply is_none_false|]. split; [apply is_none_true; by destruct (is_none (sr_requested r))|].
      by apply negb_false_iff, bool_decide_eq_true in Hs.
  - intros [Ho Hc He Hcur Hreq Hsize]. apply Hq in Hreq as (H1 & H2 & H3). destruct (sr_ok r).
    + destruct He as [-> [x Hx]]. rewrite Hx in *. done.
    + destruct He as ([e ->] & -> & ->). done.
Qed.

(** ** From preparation to execution *)
Notation sub_history := (history unit SubQuery SubAns).
Definition executed (h : sub_history) : list ManagedSubagentInvocation :=
  flat_map (fun e => match e with EvAsk _ (S_execute invocation) _ => [invocation] | _ => [] end) h.

Section Execute.
Context `{JsonWriter} `{JsonCodec}.

(** What a published execution carries. *)
Definition published_result (h : sub_history) (invocation : ManagedSubagentInvocation) (e : ToolExecution) : Prop :=
  exists r content, EvAsk tt (S_execute invocation) (Ok r) ∈ h /\ subagent_result_validate r = Ok tt /\
    to_value (to_ser r) = Some content /\
    e = ToolExecution_output {| output_content := content; output_is_error := negb (sr_ok r) |}.
Definition execution_post (inv : AdmittedToolInvocation) (c : ManagedSubagentCommand) (o : outcome (result ToolExecution ToolError))
    (_ : unit) (h : sub_history) : Prop :=
  executed h = [] /\ o = Returned (Err (subagent_error Sub_Cancelled)) \/
  executed h = [{| si_invocation := inv; si_command := c |}] /\
    forall e, o = Returned (Ok e) -> published_result h {| si_invocation := inv; si_command := c |} e.

Lemma execute_admitted_wp inv c : adm_name inv = SUBAGENT_TOOL_NAME -> command_decode (adm_arguments inv) = Ok c ->
  wp (fun _ _ => True) (fun _ _ _ _ => True) (fun _ _ => True) (subagent_execute_admitted inv) (execution_post inv c) tt [].
Proof.
  intros Hname Hd. unfold subagent_execute_admitted. rewrite bool_decide_true by done. rewrite Hd. simpl.
  intros [] _ [] _; (split; [done|]); [by left|]. intros [] _ executed _. split; [done|].
  intros [] _. split; [split; [done|by right]|]. destruct executed as [r|e]; simpl.
  2:{ intros [] _. right. by split. }
  rewrite try_ok. destruct (subagent_result_validate r) as [[]|e] eqn:Ev; simpl.
  2:{ intros [] _. right. by split. }
  rewrite try_ok. destruct (to_value (to_ser r)) as [content|] eqn:Ec; simpl.
  2:{ intros [] _. right. by split. }
  intros [] _. right. split; [done|]. intros e [= <-]. exists r, content. split; [left|done].
Qed.
End Execute.

(** C16. A prepared call executes as the command that was decoded from it. Preparation
    asks policy for the exact prepared arguments, and only an inspection stays
    cancellable. When the prepared call is executed, whatever the token and the host
    answer, either it was cancelled first and the authority is never asked, or the
    authority is asked exactly once, with the decoded command; an output is returned
    only for a result whose envelope was validated, and is an error exactly when the
    result is not ok. *)
Theorem prepared_command_executed `{JsonWriter} `{JsonCodec} `{!JsonWriterLaws} `{!JsonValueLaws} `{!JsonRoundTrip}
    call p inv o s h :
  subagent_prepare call = Some (Ok p) -> adm_name inv = call_name call -> adm_arguments inv = prepared_arguments p ->
  exec (fun _ _ => True) (fun _ _ _ _ => True) (subagent_execute_admitted inv) tt [] o s h ->
  exists c, command_decode (call_arguments call) = Ok c /\ prepared_as call c p /\ execution_post inv c o s h.
Proof.
  intros Hp Hn Ha He.
  assert (call_name call = SUBAGENT_TOOL_NAME) as Hname.
  { unfold subagent_prepare in Hp. by case_bool_decide. }
  assert (exists c, command_decode (call_arguments call) = Ok c) as [c Hd].
  { unfold subagent_prepare in Hp. rewrite bool_decide_true in Hp by done. destruct (command_decode _) as [c|]; [eauto|done]. }
  destruct (prepare_decoded call c Hname Hd) as (p' & Hp' & Has). assert (p' = p) as -> by congruence.
  exists c. split; [done|]. split; [done|].
  eapply (wp_exec (fun _ _ => True) (fun _ _ _ _ => True) (fun _ _ => True)); [done|done|exact He|].
  apply execute_admitted_wp; [congruence|]. rewrite Ha. apply Has.
Qed.
