(* ===== verification/SubagentSample.v ===== *)
(** * A codec of managed commands

    A writer, a conversion to values and a decoder that satisfy what the development
    assumes of [serde_json], and the concrete instances of the theorems about managed
    commands. *)
From S2P Require Import Prelude Ids Json Model Limits Tool Prog Invocation Subagent SubagentProofs SubagentTheorems.
From stdpp Require Import pretty.
Open Scope prog_scope.

(** ** The writer *)
Fixpoint value_chunks (v : Value) : list string :=
  match v with
  | VNull => ["null"]
  | VBool b => [if b then "true" else "false"]
  | VNumber n => [n]
  | VString s => [s]
  | VArray l => "[" :: flat_map value_chunks l ++ ["]"]
  | VObject l => "{" :: flat_map (fun e => e.1 :: value_chunks e.2) l ++ ["}"]
  end.
Fixpoint ser_chunks (s : Ser) : list string :=
  match s with
  | Ser_str s => [s]
  | Ser_bool b => [if b then "true" else "false"]
  | Ser_u64 n => [pretty n]
  | Ser_i64 n => [pretty n]
  | Ser_f32 _ => ["0.0"]
  | Ser_none => ["null"]
  | Ser_seq l => "[" :: flat_map ser_chunks l ++ ["]"]
  | Ser_fields l => "{" :: flat_map (fun e => e.1 :: ser_chunks e.2) l ++ ["}"]
  | Ser_value v => value_chunks v
  end.
Definition plain_writer : JsonWriter := fun s => {| chunks := ser_chunks s; ser_error := None |}.

Fixpoint Ser_ind' (P : Ser -> Prop)
    (Hstr : forall s, P (Ser_str s)) (Hbool : forall b, P (Ser_bool b)) (Hu : forall n, P (Ser_u64 n))
    (Hi : forall n, P (Ser_i64 n)) (Hf : forall n, P (Ser_f32 n)) (Hnone : P Ser_none)
    (Hseq : forall l, Forall P l -> P (Ser_seq l)) (Hfields : forall l, Forall (fun e => P e.2) l -> P (Ser_fields l))
    (Hv : forall v, P (Ser_value v)) (s : Ser) : P s :=
  let rec := Ser_ind' P Hstr Hbool Hu Hi Hf Hnone Hseq Hfields Hv in
  match s with
  | Ser_str s => Hstr s | Ser_bool b => Hbool b | Ser_u64 n => Hu n | Ser_i64 n => Hi n | Ser_f32 n => Hf n
  | Ser_none => Hnone
  | Ser_seq l => Hseq l ((fix go l := match l return Forall P l with
                          | [] => Forall_nil_2 _ | x :: l => Forall_cons_2 _ _ _ (rec x) (go l) end) l)
  | Ser_fields l => Hfields l ((fix go l := match l return Forall (fun e => P e.2) l with
                          | [] => Forall_nil_2 _ | x :: l => Forall_cons_2 _ _ _ (rec x.2) (go l) end) l)
  | Ser_value v => Hv v
  end.

Lemma chunk_bytes_app l k : chunk_bytes (l ++ k) = (chunk_bytes l + chunk_bytes k)%N.
Proof. induction l as [|s l IH]; simpl; [done|]. rewrite IH. lia. Qed.

(** The elements of a container, under a bound of each. *)
Lemma chunks_sum {A} (f : A -> list string) (g : A -> N) (l : list A) :
  Forall (fun x => chunk_bytes (f x) <= g x)%N l -> (chunk_bytes (flat_map f l) <= sum_by g l)%N.
Proof. induction 1 as [|x l Hx _ IH]; simpl; [done|]. rewrite chunk_bytes_app. lia. Qed.

Lemma bracketed (l : list string) a b n : str_len a = 1%N -> str_len b = 1%N -> (chunk_bytes l <= n)%N ->
  (chunk_bytes (a :: l ++ [b]) <= 2 + n)%N.
Proof. intros Ha Hb Hl. simpl. rewrite chunk_bytes_app. simpl. lia. Qed.

Lemma value_chunks_size v : (chunk_bytes (value_chunks v) <= value_text v)%N.
Proof.
  induction v as [|[]|n|s|l IH|l IH] using Value_ind'; simpl value_chunks; simpl value_text; try (vm_compute; discriminate).
  - simpl. lia.
  - simpl. unfold str_text. lia.
  - apply bracketed; [done|done|]. apply chunks_sum. eapply Forall_impl; [exact IH|]. simpl. intros; lia.
  - apply bracketed; [done|done|]. apply chunks_sum. eapply Forall_impl; [exact IH|]. simpl. unfold str_text. intros; lia.
Qed.

Lemma ser_chunks_size s : (chunk_bytes (ser_chunks s) <= ser_text s)%N.
Proof.
  induction s as [s|[]|n|n|n| |l IH|l IH|v] using Ser_ind'; simpl ser_chunks; simpl ser_text; try (vm_compute; discriminate).
  - simpl. unfold str_text. lia.
  - simpl. lia.
  - simpl. lia.
  - apply bracketed; [done|done|]. apply chunks_sum. eapply Forall_impl; [exact IH|]. simpl. intros; lia.
  - apply bracketed; [done|done|]. apply chunks_sum. eapply Forall_impl; [exact IH|]. simpl. unfold str_text. intros; lia.
  - apply value_chunks_size.
Qed.

Lemma plain_writer_laws : @JsonWriterLaws plain_writer.
Proof. split; [apply ser_chunks_size|done]. Qed.

(** ** Values *)
Fixpoint ser_value (s : Ser) : Value :=
  match s with
  | Ser_str s => VString s
  | Ser_bool b => VBool b
  | Ser_u64 n => VNumber (pretty n)
  | Ser_i64 n => VNumber (pretty n)
  | Ser_f32 _ => VNumber "0.0"
  | Ser_none => VNull
  | Ser_seq l => VArray (map ser_value l)
  | Ser_fields l => VObject (map (fun e => (e.1, ser_value e.2)) l)
  | Ser_value v => v
  end.

Lemma ser_value_fits s :
  (value_text (ser_value s) <= ser_text s)%N /\ (node_count (ser_value s) <= ser_nodes s)%N /\
  (container_height (ser_value s) <= ser_height s)%N.
Proof.
  induction s as [s|b|n|n|n| |l IH|l IH|v] using Ser_ind'; try (simpl; split_and!; lia).
  - split_and!; [vm_compute; discriminate|done|done].
  - induction IH as [|s l (? & ? & ?) _ (IH1 & IH2 & IH3)]; simpl in *; [done|]. split_and!; lia.
  - induction IH as [|[k s] l (? & ? & ?) _ (IH1 & IH2 & IH3)]; simpl in *; [done|]. split_and!; lia.
Qed.

(** ** The decoder *)
Fixpoint field (k : string) (l : list (string * Value)) : option Value :=
  match l with
  | [] => None
  | (k', v) :: l => if String.eqb k k' then Some v else field k l
  end.
Definition members (v : Value) : option (list (string * Value)) := match v with VObject l => Some l | _ => None end.
Definition as_str (v : Value) : option string := match v with VString s => Some s | _ => None end.
Definition as_bool (v : Value) : option bool := match v with VBool b => Some b | _ => None end.
Definition as_u64 (v : Value) : option N := match v with VNumber n => @number_as_u64 decimal_numbers n | _ => None end.
Definition as_list {A} (f : Value -> option A) (v : Value) : option (list A) :=
  match v with VArray l => mapM f l | _ => None end.
(** A required field, and one that may be absent. *)
Definition need {A} (k : string) (f : Value -> option A) (l : list (string * Value)) : option A := field k l ≫= f.
Definition may {A} (k : string) (f : Value -> option A) (l : list (string * Value)) : option (option A) :=
  match field k l with None => Some None | Some v => x ← f v; Some (Some x) end.
(** A unit variant is the one whose name is written. *)
Definition as_tag {A} `{ToSer A} (all : list A) (v : Value) : option A :=
  List.find (fun x => match to_ser x, v with Ser_str s, VString t => String.eqb s t | _, _ => false end) all.

Definition all_modes := [Mode_OneOff; Mode_Persistent].
Definition all_permissions := [Perm_Ask; Perm_Auto; Perm_Yolo].
Definition all_sections := [Sec_Status; Sec_Messages; Sec_ToolActivity; Sec_Events; Sec_Configuration; Sec_Relationship].
Definition all_relations := [Rel_Attach; Rel_Detach; Rel_Reparent].
Definition all_lifecycles := [Life_Cancel; Life_Resume; Life_Close; Life_Reopen].
Definition all_stops := [Stop_Terminal; Stop_DurationElapsed].

Definition read_terminal (v : Value) : option ManagedTerminalNotifications :=
  l ← members v; completed ← need "completed" as_bool l; failed ← need "failed" as_bool l;
  cancelled ← need "cancelled" as_bool l;
  Some {| tn_completed := completed; tn_failed := failed; tn_cancelled := cancelled |}.
Definition read_notifications (v : Value) : option ManagedNotifications :=
  l ← members v; terminal ← need "terminal" read_terminal l; started ← need "started" as_bool l;
  milestones ← need "milestones" (as_list as_str) l; interval ← may "report_interval_ms" as_u64 l;
  duration ← may "report_duration_ms" as_u64 l; stops ← need "stop_conditions" (as_list (as_tag all_stops)) l;
  Some {| mn_terminal := terminal; mn_started := started; mn_milestones := milestones; mn_report_interval_ms := interval;
          mn_report_duration_ms := duration; mn_stop_conditions := stops |}.
Definition read_create (v : Value) : option ManagedCreate :=
  l ← members v; name ← need "name" as_str l; mode ← need "mode" (as_tag all_modes) l; prompt ← may "prompt" as_str l;
  model ← may "model" as_str l; effort ← may "effort" as_str l; permission ← may "permission_mode" (as_tag all_permissions) l;
  notifications ← need "notifications" read_notifications l;
  Some {| cr_name := name; cr_mode := mode; cr_prompt := prompt; cr_model := model; cr_effort := effort;
          cr_permission_mode := permission; cr_notifications := notifications |}.
Definition read_wait (v : Value) : option ManagedInspectWait :=
  l ← members v; _ ← need "until" as_str l; after ← may "after_generation" as_u64 l; timeout ← need "timeout_ms" as_u64 l;
  Some {| iw_until := Until_Settled; iw_after_generation := after; iw_timeout_ms := timeout |}.
Definition read_inspect (v : Value) : option ManagedInspect :=
  l ← members v; id ← need "id" as_str l; sections ← need "sections" (as_list (as_tag all_sections)) l;
  cursor ← may "cursor" as_str l; limit ← need "limit" as_u64 l; wait ← may "wait" read_wait l;
  Some {| in_id := id; in_sections := sections; in_cursor := cursor; in_limit := limit; in_wait := wait |}.
Definition read_message (v : Value) : option ManagedMessage :=
  l ← members v;
  match field "send" l with
  | Some v => l ← members v; id ← need "id" as_str l; content ← need "content" as_str l;
              Some (Msg_Send {| send_id := id; send_content := content |})
  | None => v ← field "milestone" l; l ← members v; name ← need "name" as_str l; Some (Msg_Milestone {| ms_name := name |})
  end.
Definition read_relationship (v : Value) : option ManagedRelationship :=
  l ← members v; action ← need "action" (as_tag all_relations) l; id ← need "id" as_str l; parent ← may "parent_id" as_str l;
  Some {| rl_action := action; rl_id := id; rl_parent_id := parent |}.
Definition read_configure (v : Value) : option ManagedConfigure :=
  l ← members v; id ← need "id" as_str l; name ← may "name" as_str l; model ← may "model" as_str l;
  effort ← may "effort" as_str l; permission ← may "permission_mode" (as_tag all_permissions) l;
  notifications ← may "notifications" read_notifications l;
  Some {| cf_id := id; cf_name := name; cf_model := model; cf_effort := effort; cf_permission_mode := permission;
          cf_notifications := notifications |}.
Definition read_lifecycle (v : Value) : option ManagedLifecycle :=
  l ← members v; id ← need "id" as_str l; action ← need "action" (as_tag all_lifecycles) l;
  Some {| lc_id := id; lc_action := action |}.
Definition read_command (v : Value) : option ManagedSubagentCommand :=
  match members v with
  | Some [(tag, body)] =>
      if String.eqb tag "create" then Cmd_Create <$> read_create body
      else if String.eqb tag "inspect" then Cmd_Inspect <$> read_inspect body
      else if String.eqb tag "message" then Cmd_Message <$> read_message body
      else if String.eqb tag "relationship" then Cmd_Relationship <$> read_relationship body
      else if String.eqb tag "configure" then Cmd_Configure <$> read_configure body
      else if String.eqb tag "lifecycle" then Cmd_Lifecycle <$> read_lifecycle body
      else None
  | _ => None
  end.
Definition sample_codec : JsonCodec :=
  {| from_envelope := fun v => l ← members v; need "command" read_command l; to_value := fun s => Some (ser_value s) |}.

Lemma sample_value_laws : @JsonValueLaws sample_codec.
Proof.
  split; simpl; [eauto|..]; intros s v [= <-]; apply ser_value_fits.
Qed.

(** *** Round trips *)
Lemma as_u64_pretty n : word n -> as_u64 (VNumber (pretty n)) = Some n.
Proof. intros Hn. exact (@number_roundtrip _ decimal_number_laws n Hn). Qed.
Lemma as_list_map {A} (f : Value -> option A) (g : A -> Value) l : (forall x, f (g x) = Some x) -> as_list f (VArray (map g l)) = Some l.
Proof. intros Hf. simpl. induction l as [|x l IH]; simpl; [done|]. by rewrite Hf, IH. Qed.
Lemma need_here {A} k (f : Value -> option A) v l : need k f ((k, v) :: l) = f v.
Proof. unfold need. simpl. by rewrite String.eqb_refl. Qed.

(** Fields are found by evaluation, and what each holds is known. *)
#[local] Arguments as_u64 : simpl never.
#[local] Arguments as_list {A} f v : simpl never.
#[local] Arguments as_tag {A H} all v : simpl never.
#[local] Arguments read_terminal : simpl never.
#[local] Arguments read_notifications : simpl never.
#[local] Arguments read_wait : simpl never.
Ltac read_fields facts := unfold need, may; simpl in *; repeat (facts; simpl); try done.

Lemma read_terminal_roundtrip t : read_terminal (ser_value (to_ser t)) = Some t.
Proof. by destruct t. Qed.

Lemma strings_roundtrip l : as_list as_str (ser_value (Ser_seq (map Ser_str l))) = Some l.
Proof. simpl. rewrite map_map. by apply as_list_map. Qed.
Lemma tags_roundtrip {A} `{ToSer A} (all : list A) l : (forall x, as_tag all (ser_value (to_ser x)) = Some x) ->
  as_list (as_tag all) (ser_value (to_ser l)) = Some l.
Proof. intros Hx. simpl. rewrite map_map. by apply as_list_map. Qed.

Lemma read_notifications_roundtrip n : notifications_typed n -> read_notifications (ser_value (to_ser n)) = Some n.
Proof.
  destruct n as [t b ms iv du stops]. intros [Hi Hd]. simpl in Hi, Hd. unfold read_notifications.
  pose proof (strings_roundtrip ms) as Hms. pose proof (read_terminal_roundtrip t) as Ht.
  pose proof (tags_roundtrip all_stops stops ltac:(by intros [])) as Hs.
  destruct t, iv as [iv|], du as [du|];
    read_fields ltac:(first [rewrite Ht | rewrite Hms | rewrite Hs | rewrite (as_u64_pretty iv) by (by apply Hi) |
                             rewrite (as_u64_pretty du) by (by apply Hd)]).
Qed.

Lemma read_create_roundtrip v : notifications_typed (cr_notifications v) -> read_create (ser_value (to_ser v)) = Some v.
Proof.
  destruct v as [name mode prompt model effort perm n]. intros Hn%read_notifications_roundtrip. unfold read_create.
  assert (as_tag all_modes (ser_value (to_ser mode)) = Some mode) as Hm by (by destruct mode).
  assert (opt (fun p => as_tag all_permissions (ser_value (to_ser p)) = Some p) perm) as Hp by (by intros []).
  destruct prompt, model, effort, perm as [p|]; try specialize (Hp p eq_refl);
    read_fields ltac:(first [rewrite Hm | rewrite Hp | rewrite Hn]).
Qed.

Lemma read_wait_roundtrip w : opt word (iw_after_generation w) -> word (iw_timeout_ms w) -> read_wait (ser_value (to_ser w)) = Some w.
Proof.
  destruct w as [[] after timeout]. intros Ha Ht%as_u64_pretty. unfold read_wait. simpl in *.
  destruct after as [a|]; read_fields ltac:(first [rewrite (as_u64_pretty a) by (by apply Ha) | rewrite Ht]).
Qed.

Lemma read_inspect_roundtrip v : command_typed (Cmd_Inspect v) -> read_inspect (ser_value (to_ser v)) = Some v.
Proof.
  destruct v as [id sections cursor limit wait]. intros [Hl%as_u64_pretty Hw]. unfold read_inspect.
  assert (opt (fun w => read_wait (ser_value (to_ser w)) = Some w) wait) as Hwait.
  { intros w E. destruct (Hw w E). by apply read_wait_roundtrip. }
  pose proof (tags_roundtrip all_sections sections ltac:(by intros [])) as Hs. clear Hw.
  destruct cursor, wait as [w|]; try specialize (Hwait w eq_refl);
    read_fields ltac:(first [rewrite Hs | rewrite Hl | rewrite Hwait]).
Qed.

Lemma read_relationship_roundtrip v : read_relationship (ser_value (to_ser v)) = Some v.
Proof. by destruct v as [[] id [p|]]. Qed.

Lemma read_configure_roundtrip v : opt notifications_typed (cf_notifications v) -> read_configure (ser_value (to_ser v)) = Some v.
Proof.
  destruct v as [id name model effort perm n]. intros Hn. unfold read_configure.
  assert (opt (fun n => read_notifications (ser_value (to_ser n)) = Some n) n) as Hr.
  { intros m E. by apply read_notifications_roundtrip, Hn. }
  assert (opt (fun p => as_tag all_permissions (ser_value (to_ser p)) = Some p) perm) as Hp by (by intros []). clear Hn.
  destruct name, model, effort, perm as [p|], n as [n|]; try specialize (Hp p eq_refl); try specialize (Hr n eq_refl);
    read_fields ltac:(first [rewrite Hp | rewrite Hr]).
Qed.

Lemma read_command_roundtrip c : command_typed c -> read_command (ser_value (to_ser c)) = Some c.
Proof.
  destruct c as [v|v|[v|v]|v|v|v]; intros Ht; unfold read_command.
  - by change (Cmd_Create <$> read_create (ser_value (to_ser v)) = Some (Cmd_Create v)); rewrite read_create_roundtrip.
  - by change (Cmd_Inspect <$> read_inspect (ser_value (to_ser v)) = Some (Cmd_Inspect v)); rewrite read_inspect_roundtrip.
  - by destruct v.
  - by destruct v.
  - by change (Cmd_Relationship <$> read_relationship (ser_value (to_ser v)) = Some (Cmd_Relationship v));
      rewrite read_relationship_roundtrip.
  - by change (Cmd_Configure <$> read_configure (ser_value (to_ser v)) = Some (Cmd_Configure v)); rewrite read_configure_roundtrip.
  - by destruct v as [id []].
Qed.

(** *** What is read is 64-bit *)
Lemma as_u64_word v n : as_u64 v = Some n -> word n.
Proof. destruct v; try done. apply (@number_bounded _ decimal_number_laws). Qed.
Lemma may_opt {A} k (f : Value -> option A) (P : A -> Prop) l o : (forall v x, f v = Some x -> P x) -> may k f l = Some o -> opt P o.
Proof.
  intros Hf. unfold may. destruct (field k l) as [v|]; [|by intros [= <-]]. intros (x & Hx & [= <-])%bind_Some.
  intros ? [= <-]. by eapply Hf.
Qed.
Lemma need_ok {A} k (f : Value -> option A) (P : A -> Prop) l x : (forall v x, f v = Some x -> P x) -> need k f l = Some x -> P x.
Proof. intros Hf (v & _ & Hv)%bind_Some. by eapply Hf. Qed.

Ltac read_inv H := repeat (let x := fresh "x" in let E := fresh "E" in apply bind_Some in H as (x & E & H)).

Lemma read_notifications_typed v n : read_notifications v = Some n -> notifications_typed n.
Proof. unfold read_notifications. intros H. read_inv H. injection H as <-. split; simpl; eapply may_opt; eauto using as_u64_word. Qed.
Lemma read_wait_typed v w : read_wait v = Some w -> opt word (iw_after_generation w) /\ word (iw_timeout_ms w).
Proof.
  unfold read_wait. intros H. read_inv H. injection H as <-. simpl. split; [eapply may_opt|eapply need_ok]; eauto using as_u64_word.
Qed.

Lemma read_command_typed v c : read_command v = Some c -> command_typed c.
Proof.
  unfold read_command. destruct (members v) as [[|[tag body] [|]]|]; try done.
  repeat (destruct (String.eqb tag _)); try done; intros (x & Hx & ->)%fmap_Some; simpl; try done.
  - unfold read_create in Hx. read_inv Hx. injection Hx as <-. simpl. eapply need_ok; [apply read_notifications_typed|done].
  - unfold read_inspect in Hx. read_inv Hx. injection Hx as <-. simpl. split.
    + eapply need_ok; [apply as_u64_word|done].
    + eapply may_opt; [apply read_wait_typed|done].
  - unfold read_configure in Hx. read_inv Hx. injection Hx as <-. simpl. eapply may_opt; [apply read_notifications_typed|done].
Qed.

Lemma sample_roundtrip : @JsonRoundTrip sample_codec.
Proof.
  split.
  - intros v c (l & _ & Hn)%bind_Some. eapply need_ok; [apply read_command_typed|exact Hn].
  - intros c v Ht. unfold envelope. simpl. intros [= <-]. simpl. by rewrite need_here, read_command_roundtrip.
Qed.

(** ** Concrete commands *)
Definition reporting : ManagedNotifications :=
  {| mn_terminal := ManagedTerminalNotifications_default; mn_started := true; mn_milestones := ["halfway"];
     mn_report_interval_ms := Some 1000%N; mn_report_duration_ms := Some 60000%N; mn_stop_conditions := terminal_default |}.
Definition sample_command : ManagedSubagentCommand :=
  Cmd_Create {| cr_name := "scout"; cr_mode := Mode_OneOff; cr_prompt := Some "look around"; cr_model := None;
                cr_effort := Some "high"; cr_permission_mode := None; cr_notifications := reporting |}.
Notation sample_arguments := (@to_arguments plain_writer sample_codec).

Lemma sample_command_typed : command_typed sample_command.
Proof. split; intros n [= <-]; vm_compute; discriminate. Qed.

Lemma to_arguments_exact_witness :
  exists v, @envelope sample_codec (resolved_command sample_command) = Some v /\ sample_arguments sample_command = Some (Ok v).
Proof.
  pose proof (@to_arguments_exact plain_writer sample_codec plain_writer_laws sample_value_laws sample_command
    sample_command_typed) as Hw.
  assert (command_normalize sample_command = Ok (resolved_command sample_command)) as Hn by (vm_compute; reflexivity).
  rewrite Hn in Hw. exact Hw.
Defined.

Definition sample_call : ToolCall :=
  {| call_id := "call"; call_name := SUBAGENT_TOOL_NAME;
     call_arguments := VObject [("command", ser_value (to_ser sample_command))] |}.
Definition sample_prepared : PreparedToolCall :=
  match @subagent_prepare plain_writer sample_codec sample_call with
  | Some (Ok p) => p
  | _ => without_authority VNull
  end.
Definition sample_admitted : AdmittedToolInvocation :=
  {| adm_context := {| tc_session_id := "s"; tc_session_incarnation_id := "i"; tc_turn_id := "t"; tc_call_id := "call" |};
     adm_name := SUBAGENT_TOOL_NAME; adm_arguments := prepared_arguments sample_prepared; adm_call := 0 |}.
Definition sample_result : ManagedSubagentResult :=
  {| sr_ok := true; sr_operation_id := "op-1"; sr_child_id := Some "scout-1"; sr_status := Res_Created; sr_error_code := None;
     sr_retryable := false;
     sr_requested := Some (Rq_Receipt {| rc_outcome := Out_Created; rc_generation := 1; rc_event_sequence := 1 |});
     sr_cursor := None |}.
Definition subagent_schedule : schedule unit SubQuery SubAns :=
  {| sch_env := fun _ s => s; sch_drop := fun _ => false;
     sch_answer := fun _ q => match q return SubAns q with S_is_cancelled => false | S_execute _ => Ok sample_result end |}.
Notation subagent_run := (run subagent_schedule 0 (@subagent_execute_admitted plain_writer sample_codec sample_admitted) tt []).

Lemma prepared_command_executed_witness :
  map si_command (executed (snd subagent_run)) = [resolved_command sample_command] /\
  exists c, @command_decode plain_writer sample_codec (call_arguments sample_call) = Ok c /\
    @prepared_as plain_writer sample_codec sample_call c sample_prepared /\
    @execution_post plain_writer sample_codec sample_admitted c (fst (fst subagent_run)) (snd (fst subagent_run)) (snd subagent_run).
Proof.
  split; [vm_compute; reflexivity|].
  apply (@prepared_command_executed plain_writer sample_codec plain_writer_laws sample_value_laws sample_roundtrip).
  - vm_compute. reflexivity.
  - reflexivity.
  - reflexivity.
  - apply run_exec; intros; exact I.
Defined.

Lemma result_validate_exact_witness : @consistent_result plain_writer sample_result.
Proof.
  apply (@result_validate_exact plain_writer sample_result); [vm_compute; discriminate|]. vm_compute. reflexivity.
Defined.
