(* ===== verification/Background.v ===== *)
(** * Background processes ([background.rs])

    The requests and records of background processes, and the supervisor that
    starts one: it admits the process, reserves a record, prepares the process
    behind a barrier, publishes the record, opens the barrier and hands everything
    to the retainer.

    The traits of the host are queries. A future of the host is inert until it is
    polled, so its query is its first poll; the answer is the number of polls that
    are [Pending] and the output. Permits, leases and processes are numbers. The
    state of an operation is its cancellation token, which others may set, and a
    log of what the operation was given and how each of it ended. Assertions of
    debug builds are not modelled. *)
From S2P Require Import Prelude TerminalAction Ids Model Prog.
Open Scope prog_scope.

Definition MAX_BACKGROUND_COMMAND_BYTES : N := MAX_TERMINAL_ACTION_COMMAND_BYTES.
Definition MAX_BACKGROUND_CWD_BYTES : N := 4 * 1024.

Inductive BackgroundStartErrorKind :=
| Bg_InvalidRequest | Bg_Capacity | Bg_Clock | Bg_Persistence | Bg_Process | Bg_Cancelled.
#[export] Instance BackgroundStartErrorKind_eq_dec : EqDecision BackgroundStartErrorKind.
Proof. solve_decision. Defined.

(** [BackgroundStartError] has only its kind. *)
Notation BackgroundStartError := BackgroundStartErrorKind.

Definition background_error_display (kind : BackgroundStartErrorKind) : string :=
  match kind with
  | Bg_InvalidRequest => "background request is invalid"
  | Bg_Capacity => "background capacity is unavailable"
  | Bg_Clock => "background clock is unavailable"
  | Bg_Persistence => "background persistence is unavailable"
  | Bg_Process => "background process could not start"
  | Bg_Cancelled => "background start was cancelled"
  end.

(** ** Requests *)
Record BackgroundOutputOwner := {
  owner_session_id : SessionId;
  owner_session_incarnation_id : SessionIncarnationId;
}.

Record BackgroundStartRequest := {
  bg_command : string;
  bg_cwd : string;
  bg_output_owner : option BackgroundOutputOwner;
  bg_stdin : ProcessInput;
}.

Definition canonical_component (component : string) : bool :=
  negb (bool_decide (component = "")) && negb (bool_decide (component = ".")) && negb (bool_decide (component = "..")).

Definition canonical_persisted_path (path : string) : bool :=
  if bool_decide (path = "") || (MAX_BACKGROUND_CWD_BYTES <? str_len path)%N || bytes_any is_nul path ||
     negb (starts_with_byte is_slash path)
  then false
  else bool_decide (path = "/") ||
       (negb (ends_with_byte is_slash path) && forallb canonical_component (drop 1 (str_split is_slash path))).

Definition BackgroundStartRequest_new (command cwd : string) : result BackgroundStartRequest BackgroundStartError :=
  fail_if bool_decide (command = "") || (MAX_BACKGROUND_COMMAND_BYTES <? str_len command)%N ||
          bytes_any is_nul command || negb (canonical_persisted_path cwd)
    with Bg_InvalidRequest in
  Ok {| bg_command := command; bg_cwd := cwd; bg_output_owner := None; bg_stdin := Input_Null |}.

Definition with_output_owner (r : BackgroundStartRequest) (owner : BackgroundOutputOwner) : BackgroundStartRequest :=
  {| bg_command := bg_command r; bg_cwd := bg_cwd r; bg_output_owner := Some owner; bg_stdin := bg_stdin r |}.

Definition with_stdin (r : BackgroundStartRequest) (stdin : ProcessInput)
    : result BackgroundStartRequest BackgroundStartError :=
  fail_if (match stdin, bg_output_owner r with Input_Pipe, None => true | _, _ => false end) with Bg_InvalidRequest in
  Ok {| bg_command := bg_command r; bg_cwd := bg_cwd r; bg_output_owner := bg_output_owner r; bg_stdin := stdin |}.

(** ** Records *)
Record BackgroundRunningRecord := {
  run_id : N;
  run_started_at_ms : N;
  run_command : string;
  run_cwd : string;
  run_pid : option N;
}.

Definition BackgroundRunningRecord_new (id started_at_ms : N) (request : BackgroundStartRequest) (pid : option N)
    : BackgroundRunningRecord :=
  {| run_id := id; run_started_at_ms := started_at_ms; run_command := bg_command request; run_cwd := bg_cwd request;
     run_pid := pid |}.

Inductive BackgroundProcessOutcome := Exited (code : Z) | Stopped (code : option Z) | Dead.

Record BackgroundCompletionRecord := {
  done_updated_at_ms : N;
  done_outcome : BackgroundProcessOutcome;
}.

Definition completion (record : BackgroundRunningRecord) (updated_at_ms : N) (outcome : BackgroundProcessOutcome)
    : result BackgroundCompletionRecord BackgroundStartError :=
  fail_if (updated_at_ms <? run_started_at_ms record)%N with Bg_Clock in
  Ok {| done_updated_at_ms := updated_at_ms; done_outcome := outcome |}.

Record BackgroundHandle := { handle_id : N; handle_pid : option N }.

(** ** The host *)
Inductive BgQuery :=
| B_try_admit
| B_reserve
| B_lease_id (lease : N)
| B_now_millis
| B_prepare_reserved (id : N) (request : BackgroundStartRequest)
| B_pid (prepared : N)
| B_publish_initial (lease : N) (record : BackgroundRunningRecord)
| B_publish_completion (lease : N) (initial : BackgroundRunningRecord) (completion : BackgroundCompletionRecord)
| B_release (prepared : N)
| B_abort (prepared : N)
| B_activate_retention (process : N)
| B_retain (permit lease : N) (record : BackgroundRunningRecord) (process : N).

Notation BgFut X := (nat * result X BackgroundStartError)%type.

Definition BgAns (q : BgQuery) : Type :=
  match q with
  | B_try_admit => result N BackgroundStartError
  | B_reserve => BgFut N
  | B_lease_id _ => N
  | B_now_millis => result N BackgroundStartError
  | B_prepare_reserved _ _ => BgFut N
  | B_pid _ => option N
  | B_publish_initial _ _ => BgFut unit
  | B_publish_completion _ _ _ => BgFut unit
  | B_release _ => result N BackgroundStartError
  | B_abort _ => result unit BackgroundStartError
  | B_activate_retention _ => result unit BackgroundStartError
  | B_retain _ _ _ _ => unit
  end.

(** What the operation is given, and how it ends. *)
Inductive Resource := Permit (n : N) | Lease (n : N) | Prepared (n : N) | Process (n : N).
#[export] Instance Resource_eq_dec : EqDecision Resource.
Proof. solve_decision. Defined.

Inductive Fate := ByDrop | ByRelease | ByAbort | ByRetain.

Record BgWorld := {
  bg_cancelled : bool;
  bg_given : list Resource;
  bg_ended : list (Resource * Fate);
}.

Notation bprog := (prog BgWorld BgQuery BgAns).
Notation BgEvents := (history BgWorld BgQuery BgAns).

Definition give (r : Resource) (s : BgWorld) : BgWorld :=
  {| bg_cancelled := bg_cancelled s; bg_given := r :: bg_given s; bg_ended := bg_ended s |}.
Definition end_with (fate : Fate) (r : Resource) (s : BgWorld) : BgWorld :=
  {| bg_cancelled := bg_cancelled s; bg_given := bg_given s; bg_ended := (r, fate) :: bg_ended s |}.

Definition take (r : Resource) : bprog unit := modify (give r).
Definition spend (fate : Fate) (r : Resource) : bprog unit := modify (end_with fate r).
Definition token : bprog bool := get bg_cancelled.

Definition check_cancellation : bprog (result unit BackgroundStartError) :=
  do cancelled <- token; Ret (if cancelled then Err Bg_Cancelled else Ok tt).

(** ** Awaiting the host *)
(** The later polls of [await_or_cancel]; [discard] is the drop of an output that
    cancellation came before. *)
Fixpoint await_or_cancel_polls {T} (discard : T -> bprog BackgroundStartError) (receive : T -> bprog unit) (n : nat)
    (r : result T BackgroundStartError) : bprog (result T BackgroundStartError) :=
  match n, r with
  | O, Err error => Ret (Err error)
  | O, Ok value =>
      do _ <- receive value;
      do cancelled <- token;
      if cancelled then do error <- discard value; Ret (Err error) else Ret (Ok value)
  | S n, _ =>
      do cancelled <- token;
      if cancelled then Ret (Err Bg_Cancelled)
      else Yield id (await_or_cancel_polls discard receive n r)
  end.

Definition await_or_cancel {T} (operation : bprog (BgFut T)) (discard : T -> bprog BackgroundStartError)
    (receive : T -> bprog unit) : bprog (result T BackgroundStartError) :=
  do cancelled <- token;
  when cancelled return Err Bg_Cancelled;
  do f <- operation;
  await_or_cancel_polls discard receive (fst f) (snd f).

Definition abort_prepared (prepared : N) (primary : BackgroundStartError) : bprog BackgroundStartError :=
  do aborted <- ask (B_abort prepared);
  do _ <- spend ByAbort (Prepared prepared);
  Ret match aborted with Ok _ => primary | Err error => error end.

Definition reserve : bprog (result N BackgroundStartError) :=
  await_or_cancel (ask B_reserve)
    (fun lease => do _ <- spend ByDrop (Lease lease); Ret Bg_Cancelled) (fun lease => take (Lease lease)).

(** [await_prepared_or_cancel] *)
Definition prepare (id : N) (request : BackgroundStartRequest) : bprog (result N BackgroundStartError) :=
  await_or_cancel (ask (B_prepare_reserved id request))
    (fun prepared => abort_prepared prepared Bg_Cancelled) (fun prepared => take (Prepared prepared)).

Definition ensure_prepared_not_cancelled (prepared : N) : bprog (result N BackgroundStartError) :=
  do cancelled <- token;
  if cancelled then do error <- abort_prepared prepared Bg_Cancelled; Ret (Err error) else Ret (Ok prepared).

Inductive CommitAwaitError :=
| CancelledBeforePoll | CancelledAfterPoll | Operation (error : BackgroundStartError).

Fixpoint await_commit_polls {T} (n : nat) (r : result T BackgroundStartError) : bprog (result T CommitAwaitError) :=
  match n, r with
  | O, Err error => Ret (Err (Operation error))
  | O, Ok value =>
      do cancelled <- token;
      Ret (if cancelled then Err CancelledAfterPoll else Ok value)
  | S n, _ =>
      do cancelled <- token;
      if cancelled then Ret (Err CancelledAfterPoll) else Yield id (await_commit_polls n r)
  end.

Definition await_commit_or_cancel {T} (operation : bprog (BgFut T)) : bprog (result T CommitAwaitError) :=
  do cancelled <- token;
  when cancelled return Err CancelledBeforePoll;
  do f <- operation;
  await_commit_polls (fst f) (snd f).

(** [future.await] *)
Fixpoint await_bg {T} (n : nat) (r : T) : bprog T :=
  match n with O => Ret r | S n => Yield id (await_bg n r) end.

(** [if let Ok(completion) = .. { let _ = lease.publish_completion(..).await; }] *)
Definition publish_end (lease : N) (record : BackgroundRunningRecord) (outcome : BackgroundProcessOutcome) : bprog unit :=
  match completion record (run_started_at_ms record) outcome with
  | Ok completion =>
      do f <- ask (B_publish_completion lease record completion);
      do _ <- await_bg (fst f) (snd f);
      Ret tt
  | Err _ => Ret tt
  end.

Definition cleanup_after_possible_publication (prepared lease : N) (record : BackgroundRunningRecord)
    (primary : BackgroundStartError) : bprog (result BackgroundHandle BackgroundStartError) :=
  do aborted <- ask (B_abort prepared);
  do _ <- spend ByAbort (Prepared prepared);
  let '(outcome, result) :=
    match aborted with
    | Ok _ => (Stopped None, primary)
    | Err error => (Dead, if bool_decide (primary = Bg_Persistence) then primary else error)
    end in
  do _ <- publish_end lease record outcome;
  Ret (Err result).

(** ** Starting a process *)
(** From the barrier on. *)
Definition release_prepared (permit lease prepared : N) (record : BackgroundRunningRecord)
    : bprog (result BackgroundHandle BackgroundStartError) :=
  do released <- ask (B_release prepared);
  do _ <- spend ByRelease (Prepared prepared);
  match released with
  | Err error =>
      do _ <- publish_end lease record (if bool_decide (error = Bg_Cancelled) then Stopped None else Dead);
      Ret (Err error)
  | Ok process =>
      do _ <- take (Process process);
      do activated <- ask (B_activate_retention process);
      match activated with
      | Err _ =>
          do _ <- spend ByDrop (Process process);
          do _ <- publish_end lease record Dead;
          Ret (Err Bg_Process)
      | Ok _ =>
          do _ <- ask (B_retain permit lease record process);
          do _ <- spend ByRetain (Permit permit);
          do _ <- spend ByRetain (Lease lease);
          do _ <- spend ByRetain (Process process);
          Ret (Ok {| handle_id := run_id record; handle_pid := run_pid record |})
      end
  end.

(** Publication of the record of a prepared process. *)
Definition publish_prepared (permit lease prepared : N) (record : BackgroundRunningRecord)
    : bprog (result BackgroundHandle BackgroundStartError) :=
  do published <- guarded (end_with ByDrop (Prepared prepared)) (fun _ => true)
    (await_commit_or_cancel (ask (B_publish_initial lease record)));
  match published with
  | Err CancelledBeforePoll => do error <- abort_prepared prepared Bg_Cancelled; Ret (Err error)
  | Err CancelledAfterPoll => cleanup_after_possible_publication prepared lease record Bg_Cancelled
  | Err (Operation error) =>
      do cancelled <- token;
      if cancelled then cleanup_after_possible_publication prepared lease record error
      else do _ <- spend ByDrop (Prepared prepared); Ret (Err error)
  | Ok _ =>
      do cancelled <- token;
      if cancelled then cleanup_after_possible_publication prepared lease record Bg_Cancelled
      else release_prepared permit lease prepared record
  end.

(** With a reserved record. *)
Definition start_reserved (request : BackgroundStartRequest) (permit lease : N)
    : bprog (result BackgroundHandle BackgroundStartError) :=
  do id <- ask (B_lease_id lease);
  when (id =? 0)%N return Err Bg_Persistence;
  do? started_at_ms <- ask B_now_millis;
  do? _ <- check_cancellation;
  do? prepared <- prepare id request;
  do? prepared <- ensure_prepared_not_cancelled prepared;
  do pid <- ask (B_pid prepared);
  publish_prepared permit lease prepared (BackgroundRunningRecord_new id started_at_ms request pid).

Definition start_polled (request : BackgroundStartRequest) : bprog (result BackgroundHandle BackgroundStartError) :=
  do? _ <- check_cancellation;
  do? permit <- ask B_try_admit;
  do _ <- take (Permit permit);
  guarded (end_with ByDrop (Permit permit)) is_ok (
    do? _ <- check_cancellation;
    do? lease <- reserve;
    guarded (end_with ByDrop (Lease lease)) is_ok (start_reserved request permit lease)).
