(* ===== verification/BackgroundProofs.v ===== *)
(** * Background processes are started correctly

    Requests are what their constructors promise, and a canonical working
    directory is exactly a joined list of proper components. The supervisor
    exercises its authorities in one order, each only after reading its token
    uncancelled; nothing it is given is lost, on any path; and a record it
    published is either handed to the retainer or completed, with an outcome the
    host has proved. *)
From S2P Require Import Prelude Ids Model Prog Background.
Open Scope prog_scope.

(** ** Requests *)
Definition request_ok (r : BackgroundStartRequest) : Prop :=
  bg_command r <> "" /\ (str_len (bg_command r) <= MAX_BACKGROUND_COMMAND_BYTES)%N /\
  bytes_any is_nul (bg_command r) = false /\ canonical_persisted_path (bg_cwd r) = true /\
  (bg_stdin r = Input_Pipe -> bg_output_owner r <> None).

(** The requests the public constructors build. *)
Inductive built : BackgroundStartRequest -> Prop :=
| built_new command cwd r : BackgroundStartRequest_new command cwd = Ok r -> built r
| built_owner r owner : built r -> built (with_output_owner r owner)
| built_stdin r stdin r' : built r -> with_stdin r stdin = Ok r' -> built r'.

Lemma new_ok command cwd r : BackgroundStartRequest_new command cwd = Ok r <->
  r = {| bg_command := command; bg_cwd := cwd; bg_output_owner := None; bg_stdin := Input_Null |} /\ request_ok r.
Proof.
  unfold BackgroundStartRequest_new, request_ok.
  destruct (bool_decide_reflect (command = "")), (N.ltb_spec MAX_BACKGROUND_COMMAND_BYTES (str_len command)),
    (bytes_any is_nul command) eqn:?, (canonical_persisted_path cwd) eqn:?; simpl; split;
    try (intros [= <-]; simpl; split_and!; done); try (intros (-> & ? & ? & ? & ? & _); simpl in *; congruence || lia).
Qed.

(** ** Paths *)
Definition no_slash (c : string) : Prop := bytes_any is_slash c = false.
(** A component of a canonical path. *)
Definition proper (c : string) : Prop := c <> "" /\ c <> "." /\ c <> ".." /\ no_slash c.
Definition join_path (cs : list string) : string := foldr (fun c p => "/" +:+ c +:+ p) "" cs.

Lemma str_split_prefix c s part parts : no_slash c -> str_split is_slash s = part :: parts ->
  str_split is_slash (c +:+ s) = (c +:+ part) :: parts.
Proof.
  intros Hc E. induction c as [|a c IH]; [done|]. unfold no_slash, bytes_any in *. simpl in *.
  destruct (is_slash a); [done|]. simpl in *. by rewrite IH.
Qed.

Lemma str_split_join c cs : no_slash c -> Forall no_slash cs ->
  str_split is_slash (c +:+ join_path cs) = c :: cs.
Proof.
  intros Hc Hcs. revert c Hc. induction Hcs as [|c' cs Hc' Hcs IH]; intros c Hc.
  - rewrite (str_split_prefix c (join_path []) "" []) by done. by rewrite append_empty.
  - rewrite (str_split_prefix c _ "" (c' :: cs)); [by rewrite append_empty|done|].
    transitivity ("" :: str_split is_slash (c' +:+ join_path cs)); [done|by rewrite IH].
Qed.

Lemma str_split_spec s : exists c cs, str_split is_slash s = c :: cs /\ s = c +:+ join_path cs /\
  no_slash c /\ Forall no_slash cs.
Proof.
  induction s as [|a s (c & cs & E & Hs & Hc & Hcs)]; simpl; [by exists "", []|].
  destruct (is_slash a) eqn:Ha.
  - exists "", (c :: cs). rewrite E. split_and!; [done| |done|by constructor].
    assert (a = ascii_of_N 47) as ->; [|by rewrite Hs].
    apply N.eqb_eq in Ha. by rewrite <- (ascii_N_embedding a), Ha.
  - exists (String a c), cs. rewrite E. split_and!; [done|by rewrite Hs| |done].
    unfold no_slash, bytes_any in *. simpl. by rewrite Ha.
Qed.

Lemma str_split_ends s : ends_with_byte is_slash s = true -> "" ∈ drop 1 (str_split is_slash s).
Proof.
  induction s as [|a [|b s] IH]; [done| |].
  - cbn [ends_with_byte str_split]. intros ->. simpl. set_solver.
  - intros Hs%IH. change (str_split is_slash (String a (String b s))) with
      (if is_slash a then "" :: str_split is_slash (String b s)
       else match str_split is_slash (String b s) with part :: parts => String a part :: parts | [] => [String a ""] end).
    destruct (str_split is_slash (String b s)) as [|c cs]; [simpl in Hs; set_solver|].
    destruct (is_slash a); simpl in *; set_solver.
Qed.

Lemma split_components p : starts_with_byte is_slash p = true ->
  exists cs, drop 1 (str_split is_slash p) = cs /\ cs <> [] /\ p = join_path cs /\ Forall no_slash cs.
Proof.
  intros Hp. destruct (str_split_spec p) as (c & cs & E & -> & Hc & Hcs). rewrite E. exists cs. split; [done|].
  destruct c as [|a c]; [|unfold no_slash, bytes_any in Hc; simpl in *; by rewrite Hp in Hc].
  split_and!; [by destruct cs|done|done].
Qed.

Lemma canonical_component_exact c : canonical_component c = true <-> c <> "" /\ c <> "." /\ c <> "..".
Proof. unfold canonical_component. rewrite !andb_true_iff, !negb_true_iff, !bool_decide_eq_false. tauto. Qed.

Lemma forallb_components cs : Forall no_slash cs -> (forallb canonical_component cs = true <-> Forall proper cs).
Proof.
  unfold proper. induction 1 as [|c cs Hc Hcs IH]; simpl; [by split|].
  rewrite andb_true_iff, canonical_component_exact, IH, Forall_cons. tauto.
Qed.

(** A working directory is accepted exactly when it is the root or the join of
    components that are not empty, [.] or [..], without NUL bytes and within the
    limit. *)
Theorem canonical_path_exact p : canonical_persisted_path p = true <->
  (str_len p <= MAX_BACKGROUND_CWD_BYTES)%N /\ bytes_any is_nul p = false /\
  (p = "/" \/ exists cs, cs <> [] /\ Forall proper cs /\ p = join_path cs).
Proof.
  unfold canonical_persisted_path. destruct (N.ltb_spec MAX_BACKGROUND_CWD_BYTES (str_len p)) as [Hl|Hl].
  { rewrite orb_true_r. simpl. split; [done|]. intros [? _]. lia. }
  destruct (bytes_any is_nul p); [rewrite !orb_true_r; simpl; naive_solver|]. rewrite !orb_false_r.
  destruct (starts_with_byte is_slash p) eqn:Hs; cbn [negb].
  2: { rewrite orb_true_r. split; [done|]. intros (_ & _ & [->|([|c cs] & Hne & _ & ->)]); simpl in Hs; done. }
  destruct (split_components p Hs) as (cs & -> & Hne & Hp & Hn). pose proof (str_split_ends p) as He.
  rewrite orb_false_r, bool_decide_eq_false_2 by (by destruct p).
  destruct (bool_decide_reflect (p = "/")) as [->|Hr]; simpl; [naive_solver|].
  rewrite andb_true_iff, (forallb_components cs Hn), negb_true_iff. split.
  - intros [_ Hcs]. eauto 10.
  - intros (_ & _ & [?|(cs' & Hne' & Hcs' & Hp')]); [done|].
    assert (cs' = cs) as ->.
    { assert (Forall no_slash cs') as Hn' by (eapply Forall_impl; [done|]; by intros c (_ & _ & _ & ?)).
      pose proof (str_split_join "" cs' eq_refl Hn') as E1. pose proof (str_split_join "" cs eq_refl Hn) as E2.
      simpl in *. congruence. }
    split; [|done]. destruct (ends_with_byte is_slash p); [|done]. specialize (He eq_refl).
    assert (str_split is_slash (join_path cs) = "" :: cs) as E by exact (str_split_join "" cs eq_refl Hn).
    rewrite Hp, E in He. simpl in He. rewrite Forall_forall in Hcs'.
    by destruct (Hcs' _ He) as [? _].
Qed.

(** Every request the constructors build is bounded and well formed, and only
    these requests are: in particular piped input always has an owner. *)
Theorem requests_well_formed r : built r <-> request_ok r.
Proof.
  split.
  - induction 1 as [c d r E|r o _ IH|r i r' _ IH E].
    + by apply new_ok in E as [_ ?].
    + destruct IH as (? & ? & ? & ? & _). by split_and!.
    + destruct IH as (? & ? & ? & ? & _). unfold with_stdin in E.
      destruct i, (bg_output_owner r) eqn:Eo; simplify_eq/=; unfold request_ok; simpl; by split_and!.
  - destruct r as [c d o i]. intros (Hc & Hl & Hn & Hd & Hi).
    assert (built {| bg_command := c; bg_cwd := d; bg_output_owner := None; bg_stdin := Input_Null |}) as Hb.
    { by apply (built_new c d), new_ok. }
    destruct o as [o|]; [|destruct i; [done|by destruct Hi]].
    eapply (built_stdin _ i); [exact (built_owner _ o Hb)|]. by destruct i.
Qed.

(** ** The calls of a start *)
Inductive call := Call (q : BgQuery) (x : BgAns q).

Fixpoint calls (h : BgEvents) : list call :=
  match h with
  | [] => []
  | EvAsk _ q x :: h => Call q x :: calls h
  | _ :: h => calls h
  end.

(** What a start has been told so far. *)
Record trail := {
  tr_permit : N;
  tr_reserve_polls : nat;
  tr_lease : N;
  tr_id : N;
  tr_started : N;
  tr_prepare_polls : nat;
  tr_prepared : N;
  tr_pid : option N;
}.

Section Trail.
Context (request : BackgroundStartRequest) (t : trail).

Definition trail_record : BackgroundRunningRecord :=
  BackgroundRunningRecord_new (tr_id t) (tr_started t) request (tr_pid t).
Definition admitted : list call := [Call B_try_admit (Ok (tr_permit t))].
Definition reserved : list call := Call B_reserve (tr_reserve_polls t, Ok (tr_lease t)) :: admitted.
Definition identified : list call := Call (B_lease_id (tr_lease t)) (tr_id t) :: reserved.
Definition timed : list call := Call B_now_millis (Ok (tr_started t)) :: identified.
Definition prepared_calls : list call :=
  Call (B_prepare_reserved (tr_id t) request) (tr_prepare_polls t, Ok (tr_prepared t)) :: timed.
Definition described : list call := Call (B_pid (tr_prepared t)) (tr_pid t) :: prepared_calls.
Definition attempted (x : BgFut unit) : list call :=
  Call (B_publish_initial (tr_lease t) trail_record) x :: described.
Definition released (n : nat) (x : result N BackgroundStartError) : list call :=
  Call (B_release (tr_prepared t)) x :: attempted (n, Ok tt).
Definition activated (n : nat) (process : N) (x : result unit BackgroundStartError) : list call :=
  Call (B_activate_retention process) x :: released n (Ok process).
Definition retained (n : nat) (process : N) : list call :=
  Call (B_retain (tr_permit t) (tr_lease t) trail_record process) tt :: activated n process (Ok tt).
End Trail.

(** The outcome the newest call proves of a process that was not retained. *)
Definition proven (c : call) : option BackgroundProcessOutcome :=
  match c with
  | Call q x =>
      match q return BgAns q -> option BackgroundProcessOutcome with
      | B_abort _ => fun x => Some (if is_ok x then Stopped None else Dead)
      | B_release _ => fun x => match x with Err e => Some (if bool_decide (e = Bg_Cancelled) then Stopped None else Dead)
                                           | Ok _ => None end
      | B_activate_retention _ => fun x => if is_ok x then None else Some Dead
      | _ => fun _ => None
      end x
  end.

(** The record a call tried to publish, or did. *)
Definition tried_record (c : call) : option (N * BackgroundRunningRecord) :=
  match c with Call (B_publish_initial lease record) _ => Some (lease, record) | _ => None end.
Definition published_record (c : call) : option (N * BackgroundRunningRecord) :=
  match c with
  | Call q x =>
      match q return BgAns q -> option (N * BackgroundRunningRecord) with
      | B_publish_initial lease record => fun x => if is_ok (snd x) then Some (lease, record) else None
      | _ => fun _ => None
      end x
  end.
Definition completed_record (c : call) : option (N * BackgroundRunningRecord) :=
  match c with Call (B_publish_completion lease record _) _ => Some (lease, record) | _ => None end.
Definition is_retain (c : call) : bool := match c with Call (B_retain _ _ _ _) _ => true | _ => false end.

(** When each call is made, from the calls before it. *)
Definition call_ok (request : BackgroundStartRequest) (q : BgQuery) (cs : list call) : Prop :=
  match q with
  | B_try_admit => cs = []
  | B_reserve => exists t, cs = admitted t
  | B_lease_id lease => exists t, lease = tr_lease t /\ cs = reserved t
  | B_now_millis => exists t, tr_id t <> 0%N /\ cs = identified t
  | B_prepare_reserved id r => exists t, id = tr_id t /\ id <> 0%N /\ r = request /\ cs = timed t
  | B_pid prepared => exists t, prepared = tr_prepared t /\ cs = prepared_calls request t
  | B_publish_initial lease record =>
      exists t, lease = tr_lease t /\ record = trail_record request t /\ cs = described request t
  | B_release prepared => exists t n, prepared = tr_prepared t /\ cs = attempted request t (n, Ok tt)
  | B_abort prepared =>
      exists t, prepared = tr_prepared t /\
        (cs = prepared_calls request t \/ cs = described request t \/ exists x, cs = attempted request t x)
  | B_activate_retention process => exists t n, cs = released request t n (Ok process)
  | B_publish_completion lease initial completion =>
      (cs ≫= fun c => option_list (tried_record c)) = [(lease, initial)] /\
      (head cs ≫= proven) = Some (done_outcome completion) /\
      done_updated_at_ms completion = run_started_at_ms initial
  | B_retain permit lease record process =>
      exists t n, permit = tr_permit t /\ lease = tr_lease t /\ record = trail_record request t /\
        cs = activated request t n process (Ok tt)
  end.

(** The calls that exercise an authority: each follows a read of the token that
    found it uncancelled. *)
Definition authority (q : BgQuery) : bool :=
  match q with
  | B_try_admit | B_reserve | B_prepare_reserved _ _ | B_publish_initial _ _ | B_release _ => true
  | _ => false
  end.

Definition checked (h : BgEvents) : Prop :=
  match h with EvAct before after :: _ => before = after /\ bg_cancelled before = false | _ => False end.

Definition start_allowed (request : BackgroundStartRequest) (e : event BgWorld BgQuery BgAns) (h : BgEvents) : Prop :=
  match e with
  | EvAsk _ q _ => (authority q = true -> checked h) /\ call_ok request q (calls h)
  | _ => True
  end.

(** Others may only cancel. *)
Record bg_rely (s s' : BgWorld) : Prop := {
  bgr_cancelled : bg_cancelled s = true -> bg_cancelled s' = true;
  bgr_given : bg_given s' = bg_given s;
  bgr_ended : bg_ended s' = bg_ended s;
}.

(** Everything given has ended, except [rs], and nothing was retained. *)
Definition owes (rs : list Resource) (s : BgWorld) : Prop :=
  bg_given s ≡ₚ rs ++ (bg_ended s).*1 /\ Forall (fun e => e.2 <> ByRetain) (bg_ended s).

(** Nothing was handed over, and a published record has been completed. *)
Definition failed (cs : list call) : Prop :=
  existsb is_retain cs = false /\
  forall lr, (cs ≫= fun c => option_list (published_record c)) = [lr] -> (head cs ≫= completed_record) = Some lr.

Definition started (request : BackgroundStartRequest) (handle : BackgroundHandle) (s : BgWorld) (h : BgEvents) : Prop :=
  exists t n process, calls h = retained request t n process /\
    handle = {| handle_id := tr_id t; handle_pid := tr_pid t |} /\ tr_id t <> 0%N /\
    bg_given s = [Process process; Prepared (tr_prepared t); Lease (tr_lease t); Permit (tr_permit t)] /\
    bg_ended s = [(Process process, ByRetain); (Lease (tr_lease t), ByRetain); (Permit (tr_permit t), ByRetain);
                  (Prepared (tr_prepared t), ByRelease)].

Definition ends (request : BackgroundStartRequest) (rs : list Resource)
    (o : outcome (result BackgroundHandle BackgroundStartError)) (s : BgWorld) (h : BgEvents) : Prop :=
  match o with
  | Returned (Ok handle) => started request handle s h
  | Returned (Err _) => owes rs s /\ failed (calls h)
  | Dropped => owes rs s /\ existsb is_retain (calls h) = false /\ exists b h', h = EvDrop b s :: h'
  | Panicked | Blocked => False
  end.

#[export] Instance bg_rely_preorder : PreOrder bg_rely.
Proof. split; [by intros s|]. intros a b c [? ? ?] [? ? ?]. split; [auto|congruence|congruence]. Qed.

(** The logs and the calls at a point of the program. *)
Definition at_point (given : list Resource) (ended : list (Resource * Fate)) (cs : list call) (s : BgWorld) (h : BgEvents)
    : Prop := bg_given s = given /\ bg_ended s = ended /\ calls h = cs.

Lemma at_rely g e cs s s' h : bg_rely s s' -> at_point g e cs s h -> at_point g e cs s' h.
Proof. intros [_ Hg He] (<- & <- & <-). by repeat split. Qed.

Section Start.
Context (request : BackgroundStartRequest).
Notation bwp := (wp bg_rely (fun _ _ _ _ => True) (start_allowed request)).
Notation bind_wp := (wp_bind bg_rely (fun _ _ _ _ => True) (start_allowed request) reflexivity).

Lemma bwp_token {B} (c : bool -> bprog B) Q g e cs s h : at_point g e cs s h ->
  (forall b s' h', at_point g e cs s' h' -> (b = false -> checked h') -> bwp (c b) Q s' h') ->
  bwp (bind token c) Q s h.
Proof. intros Ha Hc s' R. split; [done|]. apply Hc; [by eapply at_rely|]. by intros E. Qed.

Lemma bwp_ask {B} q (c : BgAns q -> bprog B) Q g e cs s h : at_point g e cs s h ->
  (authority q = true -> checked h) -> call_ok request q cs ->
  (forall x s' h', at_point g e (Call q x :: cs) s' h' -> bwp (c x) Q s' h') ->
  bwp (bind (ask q) c) Q s h.
Proof.
  intros Ha Hq Hok Hc s' R x _. destruct (at_rely _ _ _ _ _ _ R Ha) as (? & ? & <-). split; [by split|].
  by apply Hc.
Qed.

Lemma bwp_take {B} r (c : unit -> bprog B) Q g e cs s h : at_point g e cs s h ->
  (forall s' h', at_point (r :: g) e cs s' h' -> bwp (c tt) Q s' h') -> bwp (bind (take r) c) Q s h.
Proof.
  intros Ha Hc s' R. destruct (at_rely _ _ _ _ _ _ R Ha) as (<- & <- & <-). split; [done|]. by apply Hc.
Qed.

Lemma bwp_spend {B} fate r (c : unit -> bprog B) Q g e cs s h : at_point g e cs s h ->
  (forall s' h', at_point g ((r, fate) :: e) cs s' h' -> bwp (c tt) Q s' h') -> bwp (bind (spend fate r) c) Q s h.
Proof.
  intros Ha Hc s' R. destruct (at_rely _ _ _ _ _ _ R Ha) as (<- & <- & <-). split; [done|]. by apply Hc.
Qed.

Lemma bwp_ret {A} (a : A) (Q : outcome A -> BgWorld -> BgEvents -> Prop) g e cs s h : at_point g e cs s h ->
  (forall s', at_point g e cs s' h -> Q (Returned a) s' h) -> bwp (Ret a) Q s h.
Proof. intros Ha HQ s' R. by apply HQ, (at_rely _ _ _ s). Qed.

Lemma bwp_try {A B} (p : bprog (result A BackgroundStartError)) (c : A -> bprog (result B BackgroundStartError)) Q s h :
  bwp p (sequel bg_rely (fun _ _ _ _ => True) (start_allowed request)
           (fun r => match r with Ok a => c a | Err er => Ret (Err er) end) Q) s h ->
  bwp (try p c) Q s h.
Proof. apply bind_wp. Qed.

Lemma bwp_check {B} (c : unit -> bprog (result B BackgroundStartError)) Q g e cs s h : at_point g e cs s h ->
  (forall s' h', at_point g e cs s' h' -> Q (Returned (Err Bg_Cancelled)) s' h') ->
  (forall s' h', at_point g e cs s' h' -> checked h' -> bwp (c tt) Q s' h') ->
  bwp (try check_cancellation c) Q s h.
Proof.
  intros Ha He Hc. apply wp_assoc. eapply bwp_token; [done|]. intros [] s1 h1 Ha1 Hck; [|by apply Hc; auto].
  eapply bwp_ret; [done|]. by eauto.
Qed.

(** A value owned while [p] runs. *)
Lemma bwp_guarded {A} fate r (keep : A -> bool) (p : bprog A) Q s h :
  bwp p (fun o s h => match o with
    | Returned a => if keep a then Q o s h
                    else forall s', bg_rely (end_with fate r s) s' -> Q o s' (EvAct s (end_with fate r s) :: h)
    | Dropped => exists b h', h = EvDrop b s :: h' /\ Q Dropped (end_with fate r s) (EvDrop b (end_with fate r s) :: h')
    | Panicked | Blocked => False
    end) s h ->
  bwp (guarded (end_with fate r) keep p) Q s h.
Proof.
  intros Hp. apply wp_guarded. eapply wp_combine; [| |exact Hp|exact Hp].
  - intros [] ?; simpl; auto.
  - intros [a| | |] s1 h1 Ho _; simpl in *; [by destruct (keep a)| |done|done].
    by destruct Ho as (b & h' & -> & ?).
Qed.

Lemma bwp_owned r rs (p : bprog (result BackgroundHandle BackgroundStartError)) s h :
  bwp p (ends request (r :: rs)) s h -> bwp (guarded (end_with ByDrop r) is_ok p) (ends request rs) s h.
Proof.
  intros Hp. apply bwp_guarded. eapply wp_mono; [|exact Hp].
  assert (forall s, owes (r :: rs) s -> owes rs (end_with ByDrop r s)) as Hd.
  { intros s1 [Hg He]. split; [|by constructor]. simpl in *. rewrite Hg. solve_Permutation. }
  intros [[a|e]| | |] s1 h1 Ho; simpl in *; [done| | |done|done].
  - destruct Ho as [Ho Hf]. intros s2 [_ Eg Ee]. split; [|done]. unfold owes. rewrite Eg, Ee. by apply Hd.
  - destruct Ho as (Ho & Hr & b & h' & ->). exists b, h'. split; [done|]. split_and!; [by apply Hd|done|by eauto].
Qed.

Lemma bwp_await_or_cancel {T} (discard : T -> bprog BackgroundStartError) receive n r Q g e cs : forall s h,
  at_point g e cs s h ->
  (forall s b h', at_point g e cs s h' -> Q Dropped s (EvDrop b s :: h')) ->
  (forall er s h', at_point g e cs s h' -> Q (Returned (Err er)) s h') ->
  (forall v s h', r = Ok v -> at_point g e cs s h' ->
     bwp (do _ <- receive v; do cancelled <- token;
          if cancelled then do error <- discard v; Ret (Err error) else Ret (Ok v)) Q s h') ->
  bwp (await_or_cancel_polls discard receive n r) Q s h.
Proof.
  induction n as [|n IH]; intros s h Ha Hd He Hv; cbn [await_or_cancel_polls].
  - destruct r as [v|er]; [by apply Hv|]. eapply bwp_ret; [done|]. eauto.
  - eapply bwp_token; [done|]. intros [] s1 h1 Ha1 _; [by eapply bwp_ret; eauto|].
    intros s2 R2. apply (at_rely _ _ _ _ _ _ R2) in Ha1. split; [split; [done|by apply Hd]|]. by apply IH.
Qed.

Lemma bwp_await_commit {T} n (r : result T BackgroundStartError) Q g e cs : forall s h,
  at_point g e cs s h ->
  (forall s b h', at_point g e cs s h' -> Q Dropped s (EvDrop b s :: h')) ->
  (forall s h', at_point g e cs s h' -> Q (Returned (Err CancelledAfterPoll)) s h') ->
  (forall s h', at_point g e cs s h' ->
     Q (Returned (match r with Ok v => Ok v | Err er => Err (Operation er) end)) s h') ->
  bwp (await_commit_polls n r) Q s h.
Proof.
  induction n as [|n IH]; intros s h Ha Hd Hc Hr; cbn [await_commit_polls].
  - destruct r as [v|er]; [|by eapply bwp_ret; eauto]. eapply bwp_token; [done|].
    intros [] s1 h1 Ha1 _; by eapply bwp_ret; eauto.
  - eapply bwp_token; [done|]. intros [] s1 h1 Ha1 _; [by eapply bwp_ret; eauto|].
    intros s2 R2. apply (at_rely _ _ _ _ _ _ R2) in Ha1. split; [split; [done|by apply Hd]|]. by apply IH.
Qed.

Lemma bwp_await {T B} n (r : T) (c : T -> bprog B) Q g e cs : forall s h,
  at_point g e cs s h ->
  (forall s b h', at_point g e cs s h' -> Q Dropped s (EvDrop b s :: h')) ->
  (forall s h', at_point g e cs s h' -> bwp (c r) Q s h') ->
  bwp (bind (await_bg n r) c) Q s h.
Proof.
  induction n as [|n IH]; intros s h Ha Hd Hc; [by apply Hc|].
  intros s2 R2. apply (at_rely _ _ _ _ _ _ R2) in Ha. split; [split; [done|by apply Hd]|]. by apply IH.
Qed.

(** ** Paths that fail *)
Lemma ends_err er rs g e cs s h : at_point g e cs s h ->
  g ≡ₚ rs ++ e.*1 -> Forall (fun x => x.2 <> ByRetain) e -> failed cs -> ends request rs (Returned (Err er)) s h.
Proof. intros (<- & <- & <-) ? ? ?. by split; [split|]. Qed.

Lemma ends_drop rs g e cs s b h : at_point g e cs s h ->
  g ≡ₚ rs ++ e.*1 -> Forall (fun x => x.2 <> ByRetain) e -> existsb is_retain cs = false ->
  ends request rs Dropped s (EvDrop b s :: h).
Proof. intros (<- & <- & <-) ? ? ?. split_and!; [by split|done|by eauto]. Qed.

Lemma failed_unpublished cs :
  existsb is_retain cs = false -> (cs ≫= fun c => option_list (published_record c)) = [] -> failed cs.
Proof. intros Hr Hp. split; [done|]. by rewrite Hp. Qed.

Lemma failed_completed cs lr c x :
  existsb is_retain cs = false -> (cs ≫= fun c => option_list (tried_record c)) = [lr] ->
  failed (Call (B_publish_completion (fst lr) (snd lr) c) x :: cs).
Proof.
  intros Hr Ht. split; [done|]. intros lr' Hp. simpl in *. f_equal.
  enough (forall l, (cs ≫= fun c => option_list (published_record c)) = [lr'] ->
            (cs ≫= fun c => option_list (tried_record c)) = l -> lr' ∈ l) as Hin.
  { specialize (Hin _ Hp Ht). apply list_elem_of_singleton in Hin. by destruct lr. }
  clear. induction cs as [|[q x] cs IH]; [done|]. intros l Hp <-. destruct q; simpl in *; try (by apply IH).
  destruct (is_ok _); simpl in *; [injection Hp as <- _; by left|right; by apply IH].
Qed.

(** Completing a record that may have been published. *)
Lemma bwp_publish_end {B} lease record outcome (c : unit -> bprog B) Q g e cs s h :
  at_point g e cs s h ->
  (cs ≫= fun c => option_list (tried_record c)) = [(lease, record)] -> (head cs ≫= proven) = Some outcome ->
  (forall completion x s b h', at_point g e (Call (B_publish_completion lease record completion) x :: cs) s h' ->
     Q Dropped s (EvDrop b s :: h')) ->
  (forall completion x s h', at_point g e (Call (B_publish_completion lease record completion) x :: cs) s h' ->
     bwp (c tt) Q s h') ->
  bwp (bind (publish_end lease record outcome) c) Q s h.
Proof.
  intros Ha Ht Hp Hd Hc. unfold publish_end, completion. rewrite N.ltb_irrefl.
  apply wp_assoc. eapply bwp_ask; [done|done|by split_and!|]. intros x s1 h1 Ha1.
  apply wp_assoc. eapply bwp_await; [done|by eauto|]. intros s2 h2 Ha2. by eapply Hc.
Qed.

(** ** The phases of a start *)
Local Ltac permuted := cbn [fmap list_fmap app fst]; solve_Permutation.
Local Ltac no_retain := repeat constructor; done.
Local Ltac fails := eapply bwp_ret; [eassumption|]; intros; eapply ends_err;
  [eassumption|permuted|no_retain|try (by apply failed_unpublished)].
Local Ltac drops := intros; eapply ends_drop; [eassumption|permuted|no_retain|done].

Section Phases.
Context (t : trail).
Notation record := (trail_record request t).
Notation held := [Lease (tr_lease t); Permit (tr_permit t)].
Notation prepared := (Prepared (tr_prepared t)).

Lemma bwp_abort_prepared primary (Q : outcome BackgroundStartError -> BgWorld -> BgEvents -> Prop) g e cs s h :
  at_point g e cs s h -> call_ok request (B_abort (tr_prepared t)) cs ->
  (forall er x s' h', at_point g ((prepared, ByAbort) :: e) (Call (B_abort (tr_prepared t)) x :: cs) s' h' ->
     Q (Returned er) s' h') ->
  bwp (abort_prepared (tr_prepared t) primary) Q s h.
Proof.
  intros Ha Hok HQ. eapply bwp_ask; [done|done|done|]. intros x s1 h1 Ha1. eapply bwp_spend; [done|]. intros s2 h2 Ha2.
  eapply bwp_ret; [done|]. by eauto.
Qed.

Lemma bwp_cleanup x primary s h : at_point (prepared :: held) [] (attempted request t x) s h ->
  bwp (cleanup_after_possible_publication (tr_prepared t) (tr_lease t) record primary) (ends request held) s h.
Proof.
  intros Ha. eapply bwp_ask; [done|done|exists t; by eauto|]. intros aborted s1 h1 Ha1. eapply bwp_spend; [done|]. intros s2 h2 Ha2.
  destruct aborted as [[]|er]; (eapply bwp_publish_end; [done|done|done|by drops|]); intros c y s3 h3 Ha3; fails;
    by apply (failed_completed _ (tr_lease t, record)).
Qed.

Lemma bwp_release_prepared n s h :
  at_point (prepared :: held) [] (attempted request t (n, Ok tt)) s h -> checked h -> tr_id t <> 0%N ->
  bwp (release_prepared (tr_permit t) (tr_lease t) (tr_prepared t) record) (ends request held) s h.
Proof.
  intros Ha Hck Hid. eapply bwp_ask; [done|done|by exists t, n|]. intros x s1 h1 Ha1. eapply bwp_spend; [done|]. intros s2 h2 Ha2.
  destruct x as [process|er].
  - eapply bwp_take; [done|]. intros s3 h3 Ha3. eapply bwp_ask; [done|done|by exists t, n|].
    intros y s4 h4 Ha4. destruct y as [[]|er].
    + eapply bwp_ask; [done|done|by exists t, n|]. intros [] s5 h5 Ha5.
      eapply bwp_spend; [exact Ha5|]. intros s6 h6 Ha6. eapply bwp_spend; [exact Ha6|]. intros s7 h7 Ha7.
      eapply bwp_spend; [exact Ha7|]. intros s8 h8 Ha8. eapply bwp_ret; [exact Ha8|]. intros s9 (Hg & He & Hc). by exists t, n, process.
    + eapply bwp_spend; [done|]. intros s5 h5 Ha5.
      eapply bwp_publish_end; [done|done|done|by drops|]. intros c z s6 h6 Ha6. fails.
      by apply (failed_completed _ (tr_lease t, record)).
  - eapply bwp_publish_end; [done|done|done|by drops|]. intros c z s6 h6 Ha6. fails.
    by apply (failed_completed _ (tr_lease t, record)).
Qed.

(** The outcomes of the publication, with the process still prepared. *)
Lemma bwp_published r x s h : tr_id t <> 0%N ->
  at_point (prepared :: held) [] match r with Err CancelledBeforePoll => described request t | _ => attempted request t x end s h ->
  (r = Ok tt -> exists n, x = (n, Ok tt)) ->
  (forall er, r = Err (Operation er) -> is_ok (snd x) = false) ->
  bwp (match r with
       | Err CancelledBeforePoll => do error <- abort_prepared (tr_prepared t) Bg_Cancelled; Ret (Err error)
       | Err CancelledAfterPoll => cleanup_after_possible_publication (tr_prepared t) (tr_lease t) record Bg_Cancelled
       | Err (Operation error) =>
           do cancelled <- token;
           if cancelled then cleanup_after_possible_publication (tr_prepared t) (tr_lease t) record error
           else do _ <- spend ByDrop prepared; Ret (Err error)
       | Ok _ =>
           do cancelled <- token;
           if cancelled then cleanup_after_possible_publication (tr_prepared t) (tr_lease t) record Bg_Cancelled
           else release_prepared (tr_permit t) (tr_lease t) (tr_prepared t) record
       end) (ends request held) s h.
Proof.
  intros Hid Ha Hok Her. destruct r as [[]|[| |er]].
  - eapply bwp_token; [done|]. destruct (Hok eq_refl) as [n ->].
    intros [] s1 h1 Ha1 Hck; [by eapply bwp_cleanup|]. eapply bwp_release_prepared; eauto.
  - apply bind_wp. eapply bwp_abort_prepared; [done|exists t; by eauto|]. intros er y s1 h1 Ha1. fails.
  - by eapply bwp_cleanup.
  - specialize (Her er eq_refl). eapply bwp_token; [done|]. intros [] s1 h1 Ha1 _; [by eapply bwp_cleanup|].
    eapply bwp_spend; [done|]. intros s2 h2 Ha2. fails. apply failed_unpublished; [done|]. simpl. by rewrite Her.
Qed.

Lemma bwp_publish_prepared s h : tr_id t <> 0%N -> at_point (prepared :: held) [] (described request t) s h ->
  bwp (publish_prepared (tr_permit t) (tr_lease t) (tr_prepared t) record) (ends request held) s h.
Proof.
  intros Hid Ha. apply bind_wp, bwp_guarded. eapply bwp_token; [done|]. intros [] s1 h1 Ha1 Hck.
  { eapply bwp_ret; [done|]. intros s2 Ha2. by apply (bwp_published (Err CancelledBeforePoll) (0, Ok tt)). }
  eapply bwp_ask; [done|by eauto|exists t; by eauto|]. intros [n r] s2 h2 Ha2. eapply bwp_await_commit; [done| | |].
  - intros s3 b h3 (Hg & He & Hc). exists b, h3. split; [done|]. eapply (ends_drop _ _ [(prepared, ByDrop)]).
    { split_and!; [done|by simpl; rewrite He|done]. } { permuted. } { no_retain. } done.
  - intros s3 h3 Ha3. by eapply (bwp_published (Err CancelledAfterPoll)).
  - intros s3 h3 Ha3. simpl. destruct r as [[]|er]; [eapply (bwp_published (Ok tt))|eapply (bwp_published (Err (Operation er)))];
      eauto; naive_solver.
Qed.
End Phases.

Lemma bwp_start_reserved permit n lease s h :
  at_point [Lease lease; Permit permit] [] [Call B_reserve (n, Ok lease); Call B_try_admit (Ok permit)] s h ->
  bwp (start_reserved request permit lease) (ends request [Lease lease; Permit permit]) s h.
Proof.
  intros Ha. set (t0 := Build_trail permit n lease).
  eapply bwp_ask; [done|done|by exists (t0 0%N 0%N 0 0%N None)|]. intros id s1 h1 Ha1.
  destruct (N.eqb_spec id 0) as [->|Hid]; [by fails|].
  eapply bwp_ask; [done|done|by exists (t0 id 0%N 0 0%N None)|]. intros [now|er] s2 h2 Ha2; [|by fails].
  eapply bwp_check; [done| |].
  { intros. eapply ends_err; [done|permuted|no_retain|by apply failed_unpublished]. }
  intros s3 h3 Ha3 _. apply bwp_try. eapply bwp_token; [done|]. intros [] s4 h4 Ha4 Hck.
  { eapply bwp_ret; [done|]. intros s5 Ha5. by fails. }
  eapply bwp_ask; [done|by eauto|by exists (t0 id now 0 0%N None)|]. intros [k r] s5 h5 Ha5.
  eapply bwp_await_or_cancel; [done|by drops|intros; by fails|]. intros prepared s6 h6 E Ha6. simpl in E. subst r.
  set (t := t0 id now k prepared).
  eapply bwp_take; [done|]. intros s7 h7 Ha7. eapply bwp_token; [done|]. intros [] s8 h8 Ha8 _.
  { apply bind_wp. eapply (bwp_abort_prepared (t None)); [done|exists (t None); by eauto|].
    intros er x s9 h9 Ha9. eapply bwp_ret; [done|]. intros. by fails. }
  eapply bwp_ret; [done|]. intros s9 Ha9. apply bwp_try. eapply bwp_token; [done|]. intros [] s10 h10 Ha10 _.
  { apply bind_wp. eapply (bwp_abort_prepared (t None)); [done|exists (t None); by eauto|].
    intros er x s11 h11 Ha11. eapply bwp_ret; [done|]. intros. by fails. }
  eapply bwp_ret; [done|]. intros s11 Ha11. eapply bwp_ask; [done|done|by exists (t None)|].
  intros pid s12 h12 Ha12. by apply (bwp_publish_prepared (t pid)).
Qed.

Lemma bwp_start s : bg_given s = [] -> bg_ended s = [] -> bwp (start_polled request) (ends request []) s [].
Proof.
  intros Hg He. assert (at_point [] [] [] s []) as Ha by done. set (t := Build_trail).
  eapply bwp_check; [done| |].
  { intros. eapply ends_err; [done|permuted|no_retain|by apply failed_unpublished]. }
  intros s1 h1 Ha1 Hck. eapply bwp_ask; [done|done|done|]. intros [permit|er] s2 h2 Ha2; [|by fails].
  eapply bwp_take; [done|]. intros s3 h3 Ha3. apply bwp_owned. eapply bwp_check; [done| |].
  { intros. eapply ends_err; [done|permuted|no_retain|by apply failed_unpublished]. }
  intros s4 h4 Ha4 _. apply bwp_try. eapply bwp_token; [done|]. intros [] s5 h5 Ha5 Hck5.
  { eapply bwp_ret; [done|]. intros. by fails. }
  eapply bwp_ask; [done|by eauto|by exists (t permit 0 0%N 0%N 0%N 0 0%N None)|]. intros [k r] s6 h6 Ha6.
  eapply bwp_await_or_cancel; [done|by drops|intros; by fails|]. intros lease s7 h7 E Ha7. simpl in E. subst r.
  eapply bwp_take; [done|]. intros s8 h8 Ha8. eapply bwp_token; [done|]. intros [] s9 h9 Ha9 _.
  { apply bind_wp. eapply bwp_spend; [done|]. intros s10 h10 Ha10. eapply bwp_ret; [done|].
    intros s11 Ha11. eapply bwp_ret; [done|]. intros. by fails. }
  eapply bwp_ret; [done|]. intros s10 Ha10. apply bwp_owned. by eapply bwp_start_reserved.
Qed.
End Start.

(** ** Starting a process *)
Definition any_host (h : BgEvents) (s : BgWorld) (q : BgQuery) (x : BgAns q) : Prop := True.

Lemma bg_rely_trans s1 s2 s3 : bg_rely s1 s2 -> bg_rely s2 s3 -> bg_rely s1 s3.
Proof. apply transitivity. Qed.

Lemma start_ends request s o s' h' : bg_given s = [] -> bg_ended s = [] ->
  exec bg_rely any_host (start_polled request) s [] o s' h' -> ends request [] o s' h'.
Proof.
  intros Hg He Hx. exact (wp_exec _ _ _ reflexivity bg_rely_trans _ _ _ _ _ _ _ Hx (bwp_start request s Hg He)).
Qed.

(** A host that answers; what it says of a release and of an activation is given. *)
Definition sample_host (released : result N BackgroundStartError) (activated : result unit BackgroundStartError)
    (q : BgQuery) : BgAns q :=
  match q with
  | B_try_admit => Ok 1%N
  | B_reserve => (1, Ok 2%N)
  | B_lease_id _ => 7%N
  | B_now_millis => Ok 100%N
  | B_prepare_reserved _ _ => (2, Ok 3%N)
  | B_pid _ => Some 44%N
  | B_publish_initial _ _ => (1, Ok tt)
  | B_publish_completion _ _ _ => (1, Ok tt)
  | B_release _ => released
  | B_abort _ => Ok tt
  | B_activate_retention _ => activated
  | B_retain _ _ _ _ => tt
  end.

Definition sample_start : BackgroundStartRequest :=
  {| bg_command := "make"; bg_cwd := "/srv/app"; bg_output_owner := None; bg_stdin := Input_Null |}.
Definition fresh_start : BgWorld := {| bg_cancelled := false; bg_given := []; bg_ended := [] |}.
Definition start_schedule released activated (drop : nat -> bool) : schedule BgWorld BgQuery BgAns :=
  {| sch_env := fun _ s => s; sch_answer := fun _ => sample_host released activated; sch_drop := drop |}.
Definition start_run w := run w 0 (start_polled sample_start) fresh_start [].

(** C31. The supervisor exercises its authorities in one order: a permit, a reserved
    nonzero identity, a time, a prepared process, the publication of exactly the
    record made of these, the release of that process, its activation and the
    retainer. Each of the five authorities is exercised right after the token was
    read uncancelled. A record is completed only after a call that proves the
    outcome, and as stopped only after an abort that succeeded or a release that
    was cancelled. This holds whatever the host answers, whenever the token is
    cancelled and wherever the future is dropped. *)
Theorem start_protocol request s o s' h' : bg_given s = [] -> bg_ended s = [] ->
  exec bg_rely any_host (start_polled request) s [] o s' h' ->
  all_allowed (start_allowed request) h'.
Proof.
  intros Hg He Hx. exact (wp_exec_allowed _ _ _ reflexivity bg_rely_trans _ _ _ _ _ _ _ Hx (bwp_start request s Hg He) I).
Qed.

(** A release that is cancelled: the record is completed as stopped. *)
Lemma start_protocol_witness :
  let w := start_schedule (Err Bg_Cancelled) (Ok tt) (fun _ => false) in
  all_allowed (start_allowed sample_start) (snd (start_run w)) /\ length (calls (snd (start_run w))) = 9.
Proof.
  split; [|reflexivity]. eapply (start_protocol sample_start fresh_start); [reflexivity|reflexivity|].
  by apply run_exec; [intros; reflexivity|].
Defined.

(** Nothing is lost: every permit, lease, prepared process and process that a start
    was given has ended when it returns or is dropped, once; and they go to the
    retainer exactly when the start succeeds. *)
Theorem start_linear request s o s' h' : bg_given s = [] -> bg_ended s = [] ->
  exec bg_rely any_host (start_polled request) s [] o s' h' ->
  bg_given s' ≡ₚ (bg_ended s').*1 /\
  ((exists r, (r, ByRetain) ∈ bg_ended s') <-> exists handle, o = Returned (Ok handle)).
Proof.
  intros Hg He Hx. pose proof (start_ends _ _ _ _ _ Hg He Hx) as Ho.
  assert (owes [] s' -> bg_given s' ≡ₚ (bg_ended s').*1 /\ ~ exists r, (r, ByRetain) ∈ bg_ended s') as Hn.
  { intros [Hp Hf]. split; [done|]. intros [r Hr]. rewrite Forall_forall in Hf. by apply (Hf _ Hr). }
  destruct o as [[handle|er]| | |]; simpl in Ho; [|naive_solver..].
  destruct Ho as (t & n & process & _ & _ & _ & -> & ->). split; [cbn [fmap list_fmap fst]; solve_Permutation|].
  split; [by eauto|]. intros _. eexists. by left.
Qed.

(** A start dropped while its record is published. *)
Lemma start_linear_witness :
  let w := start_schedule (Ok 5%N) (Ok tt) (fun n => (22 <? n)%nat) in
  let '(o, s, _) := start_run w in
  o = Dropped /\ length (bg_given s) = 3 /\ bg_given s ≡ₚ (bg_ended s).*1.
Proof.
  split; [reflexivity|]. split; [reflexivity|].
  eapply (start_linear sample_start fresh_start); [reflexivity|reflexivity|].
  refine (run_exec (start_schedule (Ok 5%N) (Ok tt) (fun n => (22 <? n)%nat)) bg_rely any_host 0
            (start_polled sample_start) fresh_start [] _ _); [intros; reflexivity|done].
Defined.

(** A start that is not dropped returns. When it returns a handle, the handle has
    the reserved identity and the process was published, released, activated and
    retained. When it fails, nothing was handed to the retainer, and the last call
    was the completion of the record if the record was published. *)
Theorem start_outcome request w s : bg_given s = [] -> bg_ended s = [] ->
  (forall n s, bg_rely s (sch_env w n s)) ->
  let '(o, s', h') := run w 0 (start_polled request) s [] in
  match o with
  | Returned (Ok handle) => started request handle s' h'
  | Returned (Err _) => failed (calls h')
  | Dropped => existsb is_retain (calls h') = false /\ exists n, sch_drop w n = true
  | Panicked | Blocked => False
  end.
Proof.
  intros Hg He Hw. pose proof (run_exec w bg_rely any_host 0 (start_polled request) s [] Hw (fun _ _ _ _ => I)) as Hx.
  pose proof (run_dropped w 0 (start_polled request) s []) as Hd.
  destruct (run w 0 (start_polled request) s []) as [[o s'] h']. simpl in *.
  pose proof (start_ends _ _ _ _ _ Hg He Hx) as Ho. destruct o as [[handle|er]| | |]; simpl in Ho; naive_solver.
Qed.

Lemma start_outcome_witness :
  let w := start_schedule (Ok 5%N) (Ok tt) (fun _ => false) in
  let '(o, s, h) := start_run w in
  exists handle, o = Returned (Ok handle) /\ handle_id handle = 7%N /\ started sample_start handle s h.
Proof.
  exists {| handle_id := 7%N; handle_pid := Some 44%N |}. split; [reflexivity|]. split; [reflexivity|].
  exact (start_outcome sample_start (start_schedule (Ok 5%N) (Ok tt) (fun _ => false)) fresh_start eq_refl eq_refl
           (fun _ _ => reflexivity _)).
Defined.
