(* ===== verification/Patterns.v ===== *)
(** * Configured permission patterns ([permission_patterns.rs])

    The rules a user configures for tools, the targets native code prepares for
    them, and the evaluation of the rules over a target: the wildcard matcher with
    its budget of comparisons, the recovery of a command from its framed identity,
    and the special treatment of web domains. Bytes are [list ascii]. *)
From Stdlib Require Import String.
From S2P Require Import Prelude Ids Json Model.

Definition MAX_CONFIG_BYTES : N := 64 * 1024.
Definition MAX_TERMINAL_COMMAND_BYTES : N := 64 * 1024.
Definition MAX_TERMINAL_CWD_BYTES : N := 4 * 1024.
Definition MAX_CONFIGURED_PERMISSION_TARGET_BYTES : N := MAX_TERMINAL_COMMAND_BYTES + 2 * MAX_TERMINAL_CWD_BYTES + 128.
Definition MAX_CONFIGURED_PERMISSION_MATCH_STEPS : N := 4 * 1024 * 1024.

Inductive ConfiguredDecision := Cfg_Allow | Cfg_Ask | Cfg_Deny.
#[export] Instance ConfiguredDecision_eq_dec : EqDecision ConfiguredDecision.
Proof. solve_decision. Defined.

Inductive ConfiguredError := InvalidPermission | InvalidTarget | Cfg_Limit.
#[export] Instance ConfiguredError_eq_dec : EqDecision ConfiguredError.
Proof. solve_decision. Defined.

Definition configured_error_display (e : ConfiguredError) : string :=
  match e with
  | InvalidPermission => "configured permission category is invalid"
  | InvalidTarget => "prepared permission target is invalid"
  | Cfg_Limit => "configured permission evaluation limit exceeded"
  end.

(** ** Slices *)
Notation bytes := (list ascii).
Definition as_bytes (s : string) : bytes := list_ascii_of_string s.

(** [slice::strip_prefix] *)
Fixpoint strip_prefix (prefix l : bytes) : option bytes :=
  match prefix, l with
  | [], _ => Some l
  | a :: prefix, b :: l => if bool_decide (a = b) then strip_prefix prefix l else None
  | _ :: _, [] => None
  end.
(** [slice::strip_suffix] *)
Definition strip_suffix (suffix l : bytes) : option bytes :=
  option_map (@rev ascii) (strip_prefix (rev suffix) (rev l)).
Definition starts_with (prefix l : bytes) : bool := bool_decide (is_Some (strip_prefix prefix l)).

(** [Iterator::position] *)
Fixpoint position {A} (f : A -> bool) (l : list A) : option nat :=
  match l with
  | [] => None
  | x :: l => if f x then Some 0 else S <$> position f l
  end.

(** [windows(2).position(|pair| pair == b"::")] *)
Fixpoint separator_at (l : bytes) : option nat :=
  match l with
  | a :: (b :: _) as t => if bool_decide (a = ":"%char) && bool_decide (b = ":"%char) then Some 0 else S <$> separator_at t
  | _ => None
  end.

(** [str::trim_matches] for a set of ASCII characters *)
Fixpoint trim_start (p : ascii -> bool) (l : bytes) : bytes :=
  match l with
  | c :: l' => if p c then trim_start p l' else l
  | [] => []
  end.
Definition trim_matches (p : ascii -> bool) (l : bytes) : bytes := rev (trim_start p (rev (trim_start p l))).
Definition trim_config (s : string) : string := string_of_list_ascii (trim_matches edge_byte (as_bytes s)).

(** [slice::split] at a byte *)
Fixpoint split_at (p : ascii -> bool) (l : bytes) : list bytes :=
  match l with
  | [] => [[]]
  | c :: l =>
      if p c then [] :: split_at p l
      else match split_at p l with part :: parts => (c :: part) :: parts | [] => [[c]] end
  end.

(** ** Rules *)
Record ConfiguredRule := {
  cr_permission : string;
  cr_pattern : string;
  cr_action : ConfiguredDecision;
}.
#[export] Instance ConfiguredRule_eq_dec : EqDecision ConfiguredRule.
Proof. solve_decision. Defined.

#[export] Instance ConfiguredDecision_to_ser : ToSer ConfiguredDecision := fun d =>
  Ser_str match d with Cfg_Allow => "allow" | Cfg_Ask => "ask" | Cfg_Deny => "deny" end.
#[export] Instance ConfiguredRule_to_ser : ToSer ConfiguredRule := fun r =>
  Ser_fields [("permission", Ser_str (cr_permission r)); ("pattern", Ser_str (cr_pattern r));
              ("action", to_ser (cr_action r))].

(** A writer that counts up to a limit: the bytes written, or [None] once a write
    was refused. *)
Fixpoint write_within (limit written : N) (l : list string) : option N :=
  match l with
  | [] => Some written
  | chunk :: l =>
      if bool_decide (chunk = "") then write_within limit written l
      else match checked_add written (str_len chunk) with
           | Some size => if (size <=? limit)%N then write_within limit size l else None
           | None => None
           end
  end.

(** [serde_json::to_writer] into such a writer *)
Definition encodes_within `{JsonWriter} (limit : N) (value : Ser) : bool :=
  let s := write_json value in
  match write_within limit 0 (chunks s), ser_error s with Some _, None => true | _, _ => false end.

Definition check_encoded_bound `{JsonWriter} (value : Ser) : result unit ConfiguredError :=
  if encodes_within MAX_CONFIG_BYTES value then Ok tt else Err Cfg_Limit.

Definition ConfiguredRule_new `{JsonWriter} (permission pattern : string) (decision : ConfiguredDecision)
    : result ConfiguredRule ConfiguredError :=
  fail_if (MAX_CONFIG_BYTES <? str_len permission)%N || (MAX_CONFIG_BYTES <? str_len pattern)%N with Cfg_Limit in
  let permission := trim_config permission in
  let pattern := trim_config pattern in
  fail_if bool_decide (permission = "") with InvalidPermission in
  let rule := {| cr_permission := permission; cr_pattern := pattern; cr_action := decision |} in
  let? _ := check_encoded_bound (to_ser rule) in
  Ok rule.

(** [NativeConfiguredPermissionRules] is its list of rules. *)
Definition ConfiguredRules_new `{JsonWriter} (rules : list ConfiguredRule)
    : result (list ConfiguredRule) ConfiguredError :=
  let? _ := check_encoded_bound (to_ser rules) in
  Ok rules.

(** ** Targets *)
Inductive TargetKind :=
| Kind_None | PathExisting | PathOptionalExisting | PathCreateParent | PathExistingParent | CommandCwd | Url.
#[export] Instance TargetKind_eq_dec : EqDecision TargetKind.
Proof. solve_decision. Defined.

Record PreparedTarget := {
  pt_workspace_root : string;
  pt_tool_name : string;
  pt_target : string;
  pt_kind : TargetKind;
}.

Definition nul_byte (c : ascii) : bool := (N_of_ascii c =? 0)%N.

Definition PreparedTarget_new (workspace_root tool_name target : string) (kind : TargetKind)
    : result PreparedTarget ConfiguredError :=
  fail_if (MAX_TERMINAL_CWD_BYTES <? str_len workspace_root)%N ||
          (MAX_CONFIGURED_PERMISSION_TARGET_BYTES <? str_len target)%N with Cfg_Limit in
  fail_if bytes_any nul_byte workspace_root || bytes_any nul_byte target ||
          negb (is_ok (validate_identifier tool_name ToolName_kind)) with InvalidTarget in
  Ok {| pt_workspace_root := workspace_root; pt_tool_name := tool_name; pt_target := target; pt_kind := kind |}.

Definition permission_name (tool : string) : string :=
  if bool_decide (tool = "read_file") then "read"
  else if bool_decide (tool = "write_file") || bool_decide (tool = "edit_file") then "edit"
  else if bool_decide (tool = "list_files") then "list"
  else if bool_decide (tool = "glob_files") then "glob"
  else if bool_decide (tool = "grep_files") then "grep"
  else if bool_decide (tool = "run_command") then "bash"
  else if bool_decide (tool = "install_skill") then "skill"
  else tool.

Definition slash : bytes := as_bytes "/".

Definition display_path (root target : bytes) : bytes :=
  if negb (starts_with slash target) || bool_decide (root = []) then target
  else if bool_decide (target = root) then as_bytes "."
  else match strip_prefix root target with
       | Some rest =>
           if bool_decide (is_Some (strip_suffix slash root)) then rest
           else match strip_prefix slash rest with
                | Some relative => if bool_decide (relative = []) then as_bytes "." else relative
                | None => target
                end
       | None => target
       end.

Definition ENV_PREFIX : bytes := as_bytes "@fx-terminal-env:".
Definition colon (c : ascii) : bool := bool_decide (c = ":"%char).

Definition after_separator (l : bytes) : option bytes := (fun i => drop (i + 2) l) <$> separator_at l.

Definition is_ascii_digit (c : ascii) : bool := byte_in "0" "9" c.
Definition underscore (c : ascii) : bool := bool_decide (c = "_"%char).

(** One digit of [parse_length]. *)
Definition length_digit (length : option N) (digit : ascii) : option N :=
  length ← length;
  if underscore digit then Some length
  else if is_ascii_digit digit then
    tens ← checked_mul length 10;
    checked_add tens (N_of_ascii digit - 48)
  else None.

Definition parse_length (raw : bytes) : option N :=
  let '(negative, raw) :=
    match raw with
    | c :: rest => if bool_decide (c = "+"%char) then (false, rest)
                   else if bool_decide (c = "-"%char) then (true, rest) else (false, raw)
    | [] => (false, raw)
    end in
  if bool_decide (raw = []) || from_option underscore false (head raw) || from_option underscore false (last raw)
  then None
  else
    length ← foldl length_digit (Some 0%N) raw;
    if negb negative || (length =? 0)%N then Some length else None.

(** [slice.get(n..)] *)
Definition get_from (n : N) (l : bytes) : option bytes :=
  if (n <=? vec_len l)%N then Some (drop (N.to_nat n) l) else None.

Definition command_from_identity (identity : bytes) : bytes :=
  default identity (
    rest ← strip_prefix ENV_PREFIX identity;
    profile_end ← position colon rest;
    let rest := drop (S profile_end) rest in
    length_end ← position colon rest;
    shell_len ← parse_length (take length_end rest);
    let rest := drop (S length_end) rest in
    after_shell ← get_from shell_len rest;
    strip_prefix (as_bytes "::") after_shell).

Definition path_kind (kind : TargetKind) : bool :=
  match kind with
  | PathExisting | PathOptionalExisting | PathCreateParent | PathExistingParent => true
  | Kind_None | CommandCwd | Url => false
  end.

(** The presentation the patterns of a rule are matched against. *)
Definition target_pattern (t : PreparedTarget) : bytes :=
  let raw := as_bytes (pt_target t) in
  let root := as_bytes (pt_workspace_root t) in
  let permission := permission_name (pt_tool_name t) in
  if bool_decide (permission = "bash") then
    command_from_identity (if starts_with ENV_PREFIX raw then raw else default raw (after_separator raw))
  else if bool_decide (permission = "sandbox") then command_from_identity raw
  else if bool_decide (pt_tool_name t = "copy_file") || bool_decide (pt_tool_name t = "rename_file") ||
          path_kind (pt_kind t) then
    display_path root raw
  else match (if bool_decide (pt_kind t = CommandCwd) then separator_at raw else None) with
       | Some separator =>
           let cwd := take separator raw in
           let command := command_from_identity (drop (separator + 2) raw) in
           (if bool_decide (cwd = root) then as_bytes "." else display_path root cwd) ++ as_bytes "::" ++ command
       | None => raw
       end.

(** ** IPv6 addresses ([Ipv6Addr::from_str])

    The standard library's parser. A reader returns what it read and the rest of
    the input; [None] leaves the input as it was. *)
Definition to_digit (radix : N) (c : ascii) : option N :=
  let n := N_of_ascii c in
  let digit :=
    if byte_in "0" "9" c then Some (n - 48)%N
    else if byte_in "a" "z" c then Some (n - 97 + 10)%N
    else if byte_in "A" "Z" c then Some (n - 65 + 10)%N else None in
  d ← digit; if (d <? radix)%N then Some d else None.

Definition read_given_char (c : ascii) (l : bytes) : option bytes := strip_prefix [c] l.

(** The digits at the front: how many, and their value. *)
Fixpoint read_digits (radix count value : N) (l : bytes) : N * N * bytes :=
  match l with
  | [] => (count, value, l)
  | c :: l' =>
      match to_digit radix c with
      | Some d => read_digits radix (count + 1) (value * radix + d) l'
      | None => (count, value, l)
      end
  end.

Definition read_number (radix max_digits maximum : N) (allow_zero_prefix : bool) (l : bytes) : option (N * bytes) :=
  let has_leading_zero := bool_decide (head l = Some "0"%char) in
  let '(count, value, rest) := read_digits radix 0 0 l in
  if (max_digits <? count)%N then None
  else if (count =? 0)%N then None
  else if negb allow_zero_prefix && has_leading_zero && (1 <? count)%N then None
  else if (value <=? maximum)%N then Some (value, rest) else None.

Definition read_separator {A} (sep : ascii) (index : nat) (inner : bytes -> option (A * bytes)) (l : bytes)
    : option (A * bytes) :=
  match index with
  | O => inner l
  | S _ => l ← read_given_char sep l; inner l
  end.

Fixpoint read_ipv4_groups (n i : nat) (l : bytes) : option (list N * bytes) :=
  match n with
  | O => Some ([], l)
  | S n =>
      '(group, l) ← read_separator "." i (read_number 10 3 255 false) l;
      '(groups, l) ← read_ipv4_groups n (S i) l;
      Some (group :: groups, l)
  end.
Definition read_ipv4_addr (l : bytes) : option (list N * bytes) := read_ipv4_groups 4 0 l.

(** How many groups were read, and whether the last two are an IPv4 address. *)
Fixpoint read_groups (n i limit : nat) (l : bytes) : nat * bool * bytes :=
  match n with
  | O => (limit, false, l)
  | S n =>
      match (if (i <? limit - 1)%nat then read_separator ":" i read_ipv4_addr l else None) with
      | Some (_, rest) => (i + 2, true, rest)
      | None =>
          match read_separator ":" i (read_number 16 4 65535 true) l with
          | Some (_, rest) => read_groups n (S i) limit rest
          | None => (i, false, l)
          end
      end
  end.

Definition read_ipv6_addr (l : bytes) : option bytes :=
  let '(head_size, head_ipv4, l) := read_groups 8 0 8 l in
  if (head_size =? 8)%nat then Some l
  else if head_ipv4 then None
  else
    l ← read_given_char ":" l;
    l ← read_given_char ":" l;
    let limit := 8 - (head_size + 1) in
    let '(_, _, l) := read_groups limit 0 limit l in
    Some l.

Definition is_ipv6_addr (l : bytes) : bool := bool_decide (read_ipv6_addr l = Some []).

(** ** Web domains *)
Definition is_ascii_uppercase (c : ascii) : bool := byte_in "A" "Z" c.
Definition label_byte (c : ascii) : bool := is_ascii_alphanumeric c || bool_decide (c = "-"%char).
Definition dot (c : ascii) : bool := bool_decide (c = "."%char).

Definition canonical_web_domain (pattern : bytes) : bool :=
  match strip_prefix (as_bytes "domain:") pattern with
  | None => false
  | Some host =>
      if bool_decide (host = []) || bool_decide (last host = Some "."%char) || existsb is_ascii_uppercase host then false
      else if starts_with ["["%char] host then
        match strip_prefix ["["%char] host ≫= strip_suffix ["]"%char] with
        | Some inner => is_ipv6_addr inner
        | None => false
        end
      else forallb (fun label => negb (bool_decide (label = [])) && forallb label_byte label) (split_at dot host)
  end.

(** ** Matching *)
(** A counter of remaining comparisons. *)
Definition spend (remaining steps : N) : result N ConfiguredError := ok_or Cfg_Limit (checked_sub remaining steps).

(** The variables of [wildcard_match]. *)
Record Match := { m_p : nat; m_c : nat; m_star : option nat; m_retry : nat; m_remaining : N }.

Definition star_byte (c : ascii) : bool := bool_decide (c = "*"%char).
Definition accepts (a c : ascii) : bool := negb (star_byte a) && (bool_decide (a = "?"%char) || bool_decide (a = c)).

(** One round of the first loop: the next state, the state it leaves the loop in,
    or the comparisons that remain when there is no match. *)
Definition match_step (pattern candidate : bytes) (m : Match) : Match + result (Match + N) ConfiguredError :=
  match candidate !! m_c m with
  | None => inr (Ok (inl m))
  | Some c =>
      match spend (m_remaining m) 1 with
      | Err e => inr (Err e)
      | Ok remaining =>
          let here := pattern !! m_p m in
          if from_option (fun a => accepts a c) false here then
            inl {| m_p := S (m_p m); m_c := S (m_c m); m_star := m_star m; m_retry := m_retry m; m_remaining := remaining |}
          else if from_option star_byte false here then
            inl {| m_p := S (m_p m); m_c := m_c m; m_star := Some (m_p m); m_retry := m_c m; m_remaining := remaining |}
          else match m_star m with
               | Some previous =>
                   inl {| m_p := S previous; m_c := S (m_retry m); m_star := m_star m; m_retry := S (m_retry m);
                          m_remaining := remaining |}
               | None => inr (Ok (inr remaining))
               end
      end
  end.

(** [while] with binary fuel: [inl] is running out of it. *)
Fixpoint iterate {S R} (step : S -> S + R) (n : positive) (s : S) : S + R :=
  match n with
  | xH => step s
  | xO n => match iterate step n s with inl s => iterate step n s | inr r => inr r end
  | xI n =>
      match step s with
      | inl s => match iterate step n s with inl s => iterate step n s | inr r => inr r end
      | inr r => inr r
      end
  end.

(** The second loop, over the rest of the pattern. *)
Fixpoint trailing_stars (rest : bytes) (remaining : N) : result (bool * N) ConfiguredError :=
  match rest with
  | [] => Ok (true, remaining)
  | a :: rest =>
      if star_byte a then let? remaining := spend remaining 1 in trailing_stars rest remaining
      else Ok (false, remaining)
  end.

(** Every round of the first loop spends a comparison, which is fuel enough. *)
Definition wildcard_match (pattern candidate : bytes) (remaining : N) : result (bool * N) ConfiguredError :=
  let start := {| m_p := 0; m_c := 0; m_star := None; m_retry := 0; m_remaining := remaining |} in
  match iterate (match_step pattern candidate) (N.succ_pos remaining) start with
  | inl _ => Err Cfg_Limit
  | inr (Err e) => Err e
  | inr (Ok (inr remaining)) => Ok (false, remaining)
  | inr (Ok (inl m)) => trailing_stars (drop (m_p m) pattern) (m_remaining m)
  end.

Definition target_matches (pattern candidate : bytes) (remaining : N) : result (bool * N) ConfiguredError :=
  match strip_suffix (as_bytes "/**") pattern with
  | Some root =>
      let? remaining := spend remaining (N.min (vec_len root) (vec_len candidate) + 1) in
      if bool_decide (root = []) then Ok (starts_with slash candidate, remaining)
      else if bool_decide (candidate = root) || from_option (starts_with slash) false (strip_prefix root candidate)
      then Ok (true, remaining)
      else wildcard_match pattern candidate remaining
  | None => wildcard_match pattern candidate remaining
  end.

(** Whether a rule applies: its category, under either name of the tool, and then
    its pattern. *)
Definition rule_applies (rule : ConfiguredRule) (permission tool_name : string) (candidate : bytes) (remaining : N)
    : result (bool * N) ConfiguredError :=
  let category := as_bytes (cr_permission rule) in
  let? (named, remaining) := wildcard_match category (as_bytes permission) remaining in
  let? (named, remaining) :=
    if named : bool then Ok (true, remaining) else wildcard_match category (as_bytes tool_name) remaining in
  if named : bool then target_matches (as_bytes (cr_pattern rule)) candidate remaining else Ok (false, remaining).

Fixpoint decide_rules (rules : list ConfiguredRule) (permission tool_name : string) (candidate : bytes) (remaining : N)
    (decision : option ConfiguredDecision) : result (option ConfiguredDecision) ConfiguredError :=
  match rules with
  | [] => Ok decision
  | rule :: rules =>
      let? (applies, remaining) := rule_applies rule permission tool_name candidate remaining in
      decide_rules rules permission tool_name candidate remaining
        (if applies : bool then Some (cr_action rule) else decision)
  end.

Definition web_fetch_rule (target : string) (rule : ConfiguredRule) : bool :=
  bool_decide (cr_permission rule = "web_fetch") && canonical_web_domain (as_bytes (cr_pattern rule)) &&
  bool_decide (cr_pattern rule = target).

Definition decide_configured (rules : list ConfiguredRule) (target : PreparedTarget)
    : result (option ConfiguredDecision) ConfiguredError :=
  let permission := permission_name (pt_tool_name target) in
  if bool_decide (permission = "web_fetch") then
    if negb (canonical_web_domain (as_bytes (pt_target target))) then Ok None
    else Ok (cr_action <$> List.find (web_fetch_rule (pt_target target)) (rev rules))
  else decide_rules rules permission (pt_tool_name target) (target_pattern target)
         MAX_CONFIGURED_PERMISSION_MATCH_STEPS None.

Definition web_fetch_warning_count (rules : list ConfiguredRule) : N :=
  vec_len (List.filter (fun rule => bool_decide (cr_permission rule = "web_fetch") &&
                                    negb (canonical_web_domain (as_bytes (cr_pattern rule)))) rules).
