(* ===== verification/PatternProofs.v ===== *)
(** * Configured patterns decide what they say

    The greedy matcher with its constant space decides the declarative relation
    [glob], within a number of comparisons bounded by the lengths of its inputs; a
    budget that runs out is an error, never a decision. The evaluation of a list of
    rules is the decision of the last rule that matches. *)
From Stdlib Require Import String.
From S2P Require Import Prelude Ids Json Model Patterns.

(** ** Patterns *)
(** [?] is any byte, a star any bytes, and any other byte is itself. *)
Inductive glob : bytes -> bytes -> Prop :=
| glob_nil : glob [] []
| glob_byte a c p s : accepts a c = true -> glob p s -> glob (a :: p) (c :: s)
| glob_star p skip s : glob p s -> glob ("*"%char :: p) (skip ++ s).

Lemma accepts_not_star a c : accepts a c = true -> star_byte a = false.
Proof. unfold accepts. by destruct (star_byte a). Qed.

Lemma star_byte_true a : star_byte a = true <-> a = "*"%char.
Proof. apply bool_decide_eq_true. Qed.

Lemma glob_star_inv p s : glob ("*"%char :: p) s <-> exists skip s', s = skip ++ s' /\ glob p s'.
Proof.
  split.
  - inversion 1; subst; [|by eauto]. by apply accepts_not_star in H2.
  - intros (skip & s' & -> & H). by constructor.
Qed.

Lemma glob_byte_inv a p s : star_byte a = false ->
  glob (a :: p) s <-> exists c s', s = c :: s' /\ accepts a c = true /\ glob p s'.
Proof.
  intros Ha. split.
  - inversion 1; subst; [by eauto|done].
  - intros (c & s' & -> & Hc & H). by constructor.
Qed.

Notation accepted := (Forall2 (fun a c => accepts a c = true)).

Lemma glob_segment seg txt p s : accepted seg txt -> glob (seg ++ p) (txt ++ s) <-> glob p s.
Proof.
  induction 1 as [|a c seg txt Hac _ IH]; simpl; [done|].
  rewrite glob_byte_inv by (by eapply accepts_not_star). rewrite <-IH. naive_solver.
Qed.

Lemma glob_segment_inv seg p s : Forall (fun a => star_byte a = false) seg -> glob (seg ++ p) s ->
  exists txt s', s = txt ++ s' /\ accepted seg txt /\ glob p s'.
Proof.
  intros Hs. revert s. induction Hs as [|a seg Ha _ IH]; intros s H; simpl in *; [by exists [], s|].
  apply glob_byte_inv in H as (c & s' & -> & Hc & (txt & s'' & -> & ? & ?)%IH); [|done].
  exists (c :: txt), s''. split_and!; [done|by constructor|done].
Qed.

Lemma accepted_no_star seg txt : accepted seg txt -> Forall (fun a => star_byte a = false) seg.
Proof. induction 1; constructor; eauto using accepts_not_star. Qed.

Lemma glob_empty p : glob p [] <-> Forall (fun a => star_byte a = true) p.
Proof.
  induction p as [|a p IH]; [split; constructor|]. destruct (star_byte a) eqn:Ha.
  - apply star_byte_true in Ha as ->. rewrite glob_star_inv, Forall_cons, <-IH. split.
    + intros (skip & s & E & ?). symmetry in E. apply app_nil in E as [-> ->]. done.
    + intros [_ ?]. by exists [], [].
  - rewrite glob_byte_inv, Forall_cons by done. rewrite Ha. naive_solver.
Qed.

(** ** The first loop *)
Section Rounds.
Context (pattern candidate : bytes).

(** What the variables say: [rest] and [tail] are ahead, the part of the pattern
    after the last star is matched so far, and that star is the only choice left. *)
Inductive scan (m : Match) (rest tail : bytes) : Prop :=
| scan_plain seg txt :
    pattern = seg ++ rest -> candidate = txt ++ tail -> accepted seg txt ->
    m_p m = length seg -> m_c m = length txt -> m_star m = None -> m_retry m = 0 -> scan m rest tail
| scan_star pre seg skip txt :
    pattern = pre ++ "*"%char :: seg ++ rest -> candidate = skip ++ txt ++ tail -> accepted seg txt ->
    m_p m = length pre + S (length seg) -> m_c m = length skip + length txt ->
    m_star m = Some (length pre) -> m_retry m = length skip ->
    (glob pattern candidate <-> glob ("*"%char :: seg ++ rest) (txt ++ tail)) -> scan m rest tail.

Lemma lookup_here {A} (l k : list A) n : n = length l -> (l ++ k) !! n = head k.
Proof. intros ->. rewrite lookup_app_r by done. by rewrite Nat.sub_diag, head_lookup. Qed.

Lemma scan_here m rest tail : scan m rest tail ->
  pattern !! m_p m = head rest /\ candidate !! m_c m = head tail /\
  length pattern = m_p m + length rest /\ length candidate = m_c m + length tail /\
  drop (m_p m) pattern = rest /\ m_retry m <= m_c m.
Proof.
  intros [seg txt -> -> _ Hp Hc _ Hr|pre seg skip txt -> -> _ Hp Hc _ Hr _].
  - split_and!; [by apply lookup_here|by apply lookup_here| | | |]; rewrite ?length_app; [lia|lia| |lia].
    by rewrite Hp, drop_app_length.
  - rewrite (assoc_L (++) skip), (cons_middle _ pre), !(assoc_L (++)).
    split_and!; [apply lookup_here|apply lookup_here| | | |]; rewrite ?length_app; simpl; try lia.
    apply drop_app_length'. rewrite !length_app. simpl. lia.
Qed.

Definition accept_step (m : Match) (remaining : N) : Match :=
  {| m_p := S (m_p m); m_c := S (m_c m); m_star := m_star m; m_retry := m_retry m; m_remaining := remaining |}.
Definition star_step (m : Match) (remaining : N) : Match :=
  {| m_p := S (m_p m); m_c := m_c m; m_star := Some (m_p m); m_retry := m_c m; m_remaining := remaining |}.
Definition retry_step (m : Match) (previous : nat) (remaining : N) : Match :=
  {| m_p := S previous; m_c := S (m_retry m); m_star := m_star m; m_retry := S (m_retry m); m_remaining := remaining |}.

Lemma scan_accept m a rest c tail remaining :
  scan m (a :: rest) (c :: tail) -> accepts a c = true -> scan (accept_step m remaining) rest tail.
Proof.
  intros Hs Hac. assert (forall seg txt, accepted seg txt -> accepted (seg ++ [a]) (txt ++ [c])) as Ha.
  { intros. apply Forall2_app; [done|]. by repeat constructor. }
  destruct Hs as [seg txt Ep Ec Hseg Hp Hc Hst Hr|pre seg skip txt Ep Ec Hseg Hp Hc Hst Hr Hg].
  - apply (scan_plain _ _ _ (seg ++ [a]) (txt ++ [c])); simpl; rewrite ?length_app, <-?(assoc_L (++)); simpl; auto; lia.
  - apply (scan_star _ _ _ pre (seg ++ [a]) skip (txt ++ [c])); simpl;
      rewrite ?length_app, <-?(assoc_L (++)); simpl; auto; lia.
Qed.

(** A new star: whatever the last star could take, the new one can take. *)
Lemma glob_two_stars seg rest txt tail : accepted seg txt ->
  glob ("*"%char :: seg ++ "*"%char :: rest) (txt ++ tail) <-> glob ("*"%char :: rest) tail.
Proof.
  intros Hseg. rewrite glob_star_inv. split.
  - intros (skip & s & E & H). apply glob_segment_inv in H as (txt' & s' & -> & Hseg' & H); [|by eapply accepted_no_star].
    apply glob_star_inv in H as (skip' & s'' & -> & H). apply glob_star_inv.
    assert (length txt' = length txt) as El by (by rewrite <-(Forall2_length _ _ _ Hseg), (Forall2_length _ _ _ Hseg')).
    exists (drop (length txt) (skip ++ txt' ++ skip')), s''. split; [|done].
    apply (f_equal (drop (length txt))) in E. rewrite drop_app_length in E. rewrite E, !(assoc_L (++)).
    apply drop_app_le. rewrite !length_app. lia.
  - intros H. exists [], (txt ++ tail). split; [done|]. by apply glob_segment.
Qed.

Lemma scan_new_star m rest tail remaining :
  scan m ("*"%char :: rest) tail -> scan (star_step m remaining) rest tail.
Proof.
  intros Hs. destruct Hs as [seg txt Ep Ec Hseg Hp Hc Hst Hr|pre seg skip txt Ep Ec Hseg Hp Hc Hst Hr Hg].
  - apply (scan_star _ _ _ seg [] txt []); simpl; auto with f_equal lia.
    rewrite Ep, Ec. by apply glob_segment.
  - apply (scan_star _ _ _ (pre ++ "*"%char :: seg) [] (skip ++ txt) []); simpl; rewrite ?length_app; simpl; auto with f_equal lia.
    + by rewrite Ep, <-(assoc_L (++)).
    + by rewrite Ec, <-(assoc_L (++)).
    + rewrite Hg. by apply glob_two_stars.
Qed.

(** A mismatch: the star takes one byte more. *)
Lemma scan_retry m previous rest c tail remaining :
  scan m rest (c :: tail) -> m_star m = Some previous ->
  from_option (fun a => accepts a c) false (head rest) = false -> from_option star_byte false (head rest) = false ->
  exists rest' tail', scan (retry_step m previous remaining) rest' tail'.
Proof.
  intros Hs Est Hna Hns. destruct Hs as [|pre seg skip txt Ep Ec Hseg Hp Hc Hst Hr Hg]; [congruence|].
  rewrite Hst in Est. injection Est as <-.
  assert (exists d after, txt ++ c :: tail = d :: after) as (d & after & Ed) by (destruct txt; simpl; eauto).
  exists (seg ++ rest), after. apply (scan_star _ _ _ pre [] (skip ++ [d]) []); simpl; rewrite ?length_app; simpl; auto with f_equal lia.
  - by rewrite Ec, Ed, <-(assoc_L (++)).
  - rewrite Hg, Ed, !glob_star_inv. split; [|intros (skip' & s & -> & H); by exists (d :: skip'), s].
    intros ([|d' skip'] & s & E & H); simpl in E; [|by simplify_eq; eauto]. subst s. exfalso. rewrite <-Ed in H.
    apply glob_segment in H; [|done]. destruct rest as [|a rest]; [by inversion H|].
    apply glob_byte_inv in H as (c' & s & [= <- <-] & Hac & _); [|done]. simpl in Hna. congruence.
Qed.

(** At the end of the candidate the rest of the pattern must be stars. *)
Lemma scan_end m rest : scan m rest [] -> glob pattern candidate <-> Forall (fun a => star_byte a = true) rest.
Proof.
  intros [seg txt -> -> Hseg _ _ _ _|pre seg skip txt _ _ Hseg _ _ _ _ ->].
  - by rewrite glob_segment, glob_empty.
  - rewrite glob_star_inv, <-glob_empty, app_nil_r. split.
    + intros (skip' & s & -> & H).
      apply glob_segment_inv in H as (txt' & s' & -> & Hseg' & H); [|by eapply accepted_no_star].
      apply Forall2_length in Hseg, Hseg'. rewrite !length_app in Hseg.
      destruct s'; [done|simpl in *; lia].
    + intros H. exists [], txt. split; [done|]. rewrite <-(app_nil_r txt). by apply glob_segment.
Qed.

(** No star to go back to. *)
Lemma scan_fail m rest c tail : scan m rest (c :: tail) -> m_star m = None ->
  from_option (fun a => accepts a c) false (head rest) = false -> from_option star_byte false (head rest) = false ->
  ~ glob pattern candidate.
Proof.
  intros [seg txt -> -> Hseg _ _ _ _|] Hst Hna Hns; [|congruence]. rewrite glob_segment by done.
  destruct rest as [|a rest]; [by inversion 1|]. rewrite glob_byte_inv by done.
  intros (c' & s & [= <- <-] & Hac & _). simpl in Hna. congruence.
Qed.
End Rounds.

(** ** Loops with binary fuel *)
Section Iterate.
Context {S R : Type} (step : S -> S + R).

(** An invariant, and what it gives where the loop ends. *)
Lemma iterate_ind (I : S -> Prop) (Q : R -> Prop) :
  (forall s, I s -> match step s with inl s' => I s' | inr r => Q r end) ->
  forall n s, I s -> match iterate step n s with inl s' => I s' | inr r => Q r end.
Proof.
  intros Hstep n. induction n as [n IH|n IH|]; intros s Hs; simpl.
  - specialize (Hstep s Hs). destruct (step s) as [s1|r]; [|done]. specialize (IH s1 Hstep) as IH1.
    destruct (iterate step n s1) as [s2|r]; [|done]. by apply IH.
  - specialize (IH s Hs) as IH1. destruct (iterate step n s) as [s1|r]; [|done]. by apply IH.
  - by apply Hstep.
Qed.

(** A measure that every round lowers is fuel enough. *)
Lemma iterate_fuel (f : S -> N) :
  (forall s s', step s = inl s' -> (f s' < f s)%N) ->
  forall n s s', iterate step n s = inl s' -> (f s' + Npos n <= f s)%N.
Proof.
  intros Hf n. induction n as [n IH|n IH|]; intros s s' E; simpl in E.
  - destruct (step s) as [s1|] eqn:E1; [|done]. apply Hf in E1.
    destruct (iterate step n s1) as [s2|] eqn:E2; [|done]. apply IH in E2, E. lia.
  - destruct (iterate step n s) as [s1|] eqn:E1; [|done]. apply IH in E1, E. lia.
  - apply Hf in E. lia.
Qed.
End Iterate.

(** ** The matcher *)
Lemma spend_ok remaining steps r : spend remaining steps = Ok r <-> remaining = (r + steps)%N.
Proof.
  unfold spend, checked_sub. destruct (N.leb_spec steps remaining); simpl; split; intros; simplify_eq; try f_equal; lia.
Qed.

Lemma spend_err remaining steps e : spend remaining steps = Err e -> e = Cfg_Limit /\ (remaining < steps)%N.
Proof.
  unfold spend, checked_sub. destruct (N.leb_spec steps remaining); simpl; [done|]. by intros [= <-].
Qed.

Lemma trailing_stars_spec rest remaining :
  match trailing_stars rest remaining with
  | Ok (b, r) => (b = true <-> Forall (fun a => star_byte a = true) rest) /\
      (r <= remaining)%N /\ (remaining <= r + vec_len rest)%N
  | Err e => e = Cfg_Limit /\ (remaining < vec_len rest)%N
  end.
Proof.
  revert remaining. induction rest as [|a rest IH]; intros remaining; simpl; [by split_and!; [|lia..]|].
  destruct (star_byte a) eqn:Ha.
  - destruct (spend remaining 1) as [r|e] eqn:E; simpl.
    + apply spend_ok in E as ->. specialize (IH r). unfold vec_len in *. simpl.
      destruct (trailing_stars rest r) as [[b r']|e]; [|split; [apply IH|lia]].
      rewrite Forall_cons, Ha. destruct IH as (-> & ? & ?). split_and!; [naive_solver|lia|lia].
    + apply spend_err in E as [-> ?]. split; [done|]. unfold vec_len. simpl. lia.
  - rewrite Forall_cons, Ha. split_and!; [naive_solver|lia|unfold vec_len; simpl; lia].
Qed.

(** The comparisons that always suffice. *)
Definition match_cost (pattern candidate : bytes) : N :=
  vec_len candidate * (vec_len pattern + 1) + vec_len pattern.

Section Matcher.
Context (pattern candidate : bytes).

(** The rounds that are left. *)
Definition rounds_left (m : Match) : N :=
  (vec_len candidate - N.of_nat (m_retry m)) * (vec_len pattern + 1) + (vec_len pattern - N.of_nat (m_p m)).

Definition loop_inv (budget : N) (m : Match) : Prop :=
  (exists rest tail, scan pattern candidate m rest tail) /\ (m_remaining m <= budget)%N /\
  (budget + rounds_left m <= m_remaining m + match_cost pattern candidate)%N.

Definition loop_end (budget : N) (r : result (Match + N) ConfiguredError) : Prop :=
  match r with
  | Ok (inl m) => loop_inv budget m /\ exists rest, scan pattern candidate m rest []
  | Ok (inr remaining) => ~ glob pattern candidate /\ (remaining <= budget)%N /\
      (budget <= remaining + match_cost pattern candidate)%N
  | Err e => e = Cfg_Limit /\ (budget < match_cost pattern candidate)%N
  end.

Lemma rounds_later m m' : m_retry m <= m_retry m' -> m_p m < m_p m' -> m_p m' <= length pattern ->
  (rounds_left m' + 1 <= rounds_left m)%N.
Proof.
  intros Hr Hp Hl. unfold rounds_left.
  assert ((vec_len candidate - N.of_nat (m_retry m')) * (vec_len pattern + 1) <=
          (vec_len candidate - N.of_nat (m_retry m)) * (vec_len pattern + 1))%N by (apply N.mul_le_mono_r; lia).
  unfold vec_len in *. lia.
Qed.

Lemma rounds_retry m previous remaining : m_retry m < length candidate ->
  (rounds_left (retry_step m previous remaining) + 1 <= rounds_left m)%N.
Proof.
  intros Hr. unfold rounds_left, retry_step. cbn [m_retry m_p].
  replace (vec_len candidate - N.of_nat (m_retry m))%N with (vec_len candidate - N.of_nat (S (m_retry m)) + 1)%N
    by (unfold vec_len; lia).
  rewrite N.mul_add_distr_r. lia.
Qed.

Lemma rounds_rest m (rest : bytes) : length pattern = m_p m + length rest -> (vec_len rest <= rounds_left m)%N.
Proof.
  intros Hl. unfold rounds_left. transitivity (vec_len pattern - N.of_nat (m_p m))%N; [unfold vec_len; lia|].
  rewrite N.add_comm. apply N.le_add_r.
Qed.

Lemma match_round budget m : loop_inv budget m ->
  match match_step pattern candidate m with inl m' => loop_inv budget m' | inr r => loop_end budget r end.
Proof.
  intros ((rest & tail & Hs) & Hb & Hm).
  destruct (scan_here _ _ _ _ _ Hs) as (Hp & Hc & Lp & Lc & _ & Hr). unfold match_step. rewrite Hp, Hc.
  destruct tail as [|c tail]; simpl.
  { split; [|by eauto]. split; [by eauto|]. done. }
  simpl in Lc. pose proof (rounds_retry m 0 0) as H1. destruct (spend (m_remaining m) 1) as [remaining|e] eqn:E.
  2: { apply spend_err in E as [-> ?]. split; [done|]. lia. }
  apply spend_ok in E. destruct (from_option (fun a => accepts a c) false (head rest)) eqn:Ha.
  { destruct rest as [|a rest]; [done|]. split; [exists rest, tail; by eapply scan_accept|]. simpl in *.
    pose proof (rounds_later m (accept_step m remaining)). simpl in *. unfold accept_step in *. lia. }
  destruct (from_option star_byte false (head rest)) eqn:Hst.
  { destruct rest as [|a rest]; [done|]. apply star_byte_true in Hst as ->.
    split; [exists rest, (c :: tail); by eapply scan_new_star|]. simpl in *.
    pose proof (rounds_later m (star_step m remaining)). simpl in *. unfold star_step in *. lia. }
  destruct (m_star m) as [previous|] eqn:Est.
  - split; [by rewrite <-Est; eapply scan_retry|]. pose proof (rounds_retry m previous remaining).
    unfold retry_step in *. rewrite Est in *. simpl. lia.
  - simpl. split; [by eapply scan_fail|]. lia.
Qed.

(** Every round spends a comparison. *)
Lemma match_step_spends m m' : match_step pattern candidate m = inl m' -> (m_remaining m' < m_remaining m)%N.
Proof.
  unfold match_step. destruct (candidate !! m_c m); [|done]. destruct (spend (m_remaining m) 1) eqn:E; [|done].
  apply spend_ok in E. repeat case_match; intros; simplify_eq/=; lia.
Qed.
End Matcher.

(** C35. The matcher decides the pattern. The comparisons it spends are bounded by the
    lengths; it fails only when they do not fit what remains, and then it decides
    nothing. *)
Theorem wildcard_match_exact pattern candidate remaining :
  match wildcard_match pattern candidate remaining with
  | Ok (b, r) => (b = true <-> glob pattern candidate) /\ (r <= remaining)%N /\
      (remaining <= r + match_cost pattern candidate)%N
  | Err e => e = Cfg_Limit /\ (remaining < match_cost pattern candidate)%N
  end.
Proof.
  unfold wildcard_match. set (start := {| m_p := 0 |}).
  assert (loop_inv pattern candidate remaining start) as Hi.
  { split; [exists pattern, candidate; by apply (scan_plain _ _ _ _ _ [] [])|]. split; [simpl; lia|].
    unfold rounds_left, match_cost. simpl. lia. }
  pose proof (iterate_ind _ _ _ (match_round pattern candidate remaining) (N.succ_pos remaining) start Hi) as Hl.
  pose proof (iterate_fuel _ m_remaining (match_step_spends pattern candidate) (N.succ_pos remaining) start) as Hf.
  destruct (iterate _ _ start) as [m|[[m|r]|e]]; simpl in Hl; [|..].
  - specialize (Hf m eq_refl). simpl in Hf. rewrite N.succ_pos_spec in Hf. lia.
  - destruct Hl as [(_ & Hb & Hm) [rest Hs]]. destruct (scan_here _ _ _ _ _ Hs) as (_ & _ & Lp & _ & -> & _).
    pose proof (trailing_stars_spec rest (m_remaining m)) as Ht. apply scan_end in Hs.
    pose proof (rounds_rest pattern candidate m rest Lp). destruct (trailing_stars rest (m_remaining m)) as [[b r]|e]; [|destruct Ht; split; [done|lia]].
    destruct Ht as (? & ? & ?). split_and!; [by rewrite Hs|lia|lia].
  - destruct Hl as (? & ? & ?). split_and!; [naive_solver|lia|lia].
  - done.
Qed.

(** ** Slices *)
Lemma strip_prefix_Some prefix l rest : strip_prefix prefix l = Some rest <-> l = prefix ++ rest.
Proof.
  revert l. induction prefix as [|a prefix IH]; intros l; simpl; [naive_solver|].
  destruct l as [|b l]; [naive_solver|]. case_bool_decide as E; [subst; rewrite IH; naive_solver|naive_solver].
Qed.

Lemma starts_with_true prefix l : starts_with prefix l = true <-> exists rest, l = prefix ++ rest.
Proof. unfold starts_with. rewrite bool_decide_eq_true. setoid_rewrite <-strip_prefix_Some. done. Qed.

Lemma strip_suffix_Some suffix l rest : strip_suffix suffix l = Some rest <-> l = rest ++ suffix.
Proof.
  unfold strip_suffix. destruct (strip_prefix (rev suffix) (rev l)) as [k|] eqn:E; simpl.
  - apply strip_prefix_Some in E. apply (f_equal (@rev _)) in E. rewrite rev_app_distr, !rev_involutive in E. subst l.
    split; [by intros [= <-]|]. intros H. f_equal. by simplify_list_eq.
  - split; [done|]. intros ->. rewrite rev_app_distr in E.
    assert (strip_prefix (rev suffix) (rev suffix ++ rev rest) = Some (rev rest)) by (by apply strip_prefix_Some). congruence.
Qed.

(** ** Targets *)
(** A pattern that ends in [/**] also covers the path itself and what is below it,
    with the path taken literally. *)
Definition target_glob (pattern candidate : bytes) : Prop :=
  glob pattern candidate \/
  exists root, root <> [] /\ pattern = root ++ as_bytes "/**" /\
    (candidate = root \/ exists below, candidate = root ++ slash ++ below).

Definition target_cost (pattern candidate : bytes) : N :=
  N.min (vec_len pattern) (vec_len candidate) + 1 + match_cost pattern candidate.

Lemma glob_everything_below candidate : glob (as_bytes "/**") candidate <-> starts_with slash candidate = true.
Proof.
  rewrite starts_with_true. split.
  - intros H. apply glob_byte_inv in H as (c & s & -> & Hc & _); [|done]. exists s.
    unfold accepts in Hc. simpl in Hc. apply bool_decide_eq_true in Hc as <-. done.
  - intros (rest & ->). simpl. constructor; [done|]. rewrite <-(app_nil_r rest). constructor. apply (glob_star _ []).
    constructor.
Qed.

Lemma target_matches_exact pattern candidate remaining :
  match target_matches pattern candidate remaining with
  | Ok (b, r) => (b = true <-> target_glob pattern candidate) /\ (r <= remaining)%N /\
      (remaining <= r + target_cost pattern candidate)%N
  | Err e => e = Cfg_Limit /\ (remaining < target_cost pattern candidate)%N
  end.
Proof.
  unfold target_matches, target_glob, target_cost. destruct (strip_suffix (as_bytes "/**") pattern) as [root|] eqn:E.
  2: { pose proof (wildcard_match_exact pattern candidate remaining) as H.
       assert (~ exists root, root <> [] /\ pattern = root ++ as_bytes "/**" /\
                (candidate = root \/ exists below, candidate = root ++ slash ++ below)) as Hn.
       { intros (root & _ & Hp & _). apply strip_suffix_Some in Hp. congruence. }
       destruct (wildcard_match _ _ _) as [[b r]|e]; [|destruct H; split; [done|lia]].
       destruct H as (Hb & ? & ?). split_and!; [rewrite Hb; tauto|lia|lia]. }
  apply strip_suffix_Some in E as ->.
  assert (vec_len root <= vec_len (root ++ as_bytes "/**"))%N as Hl by (rewrite vec_len_app; lia).
  destruct (spend _ _) as [r|e] eqn:Er; cbn [rbind].
  2: { apply spend_err in Er as [-> ?]. split; [done|]. lia. }
  apply spend_ok in Er. destruct (bool_decide_reflect (root = [])) as [->|Hroot].
  { split_and!; [|lia|lia]. rewrite <-glob_everything_below. split; [by left|]. intros [?|(root & Hne & Hp & _)]; [done|].
    by apply (app_inj_2 [] root) in Hp as [<- _]. }
  assert (bool_decide (candidate = root) || from_option (starts_with slash) false (strip_prefix root candidate) = true <->
          candidate = root \/ exists below, candidate = root ++ slash ++ below) as Hbelow.
  { rewrite orb_true_iff, bool_decide_eq_true. apply or_iff_compat_l. destruct (strip_prefix root candidate) as [rest|] eqn:Ep.
    - apply strip_prefix_Some in Ep as ->. simpl. rewrite starts_with_true. split.
      + intros (below & ->). by eauto.
      + intros (below & Hx). simplify_list_eq. by eauto.
    - split; [done|]. intros (below & ->). rewrite (proj2 (strip_prefix_Some _ _ _) eq_refl) in Ep. done. }
  destruct (_ || _).
  - split_and!; [|lia|lia]. split; [|done]. intros _. right. exists root. split_and!; [done|done|by apply Hbelow].
  - pose proof (wildcard_match_exact (root ++ as_bytes "/**") candidate r) as H.
    destruct (wildcard_match _ _ _) as [[b r']|e]; [|destruct H; split; [done|lia]].
    destruct H as (Hb & ? & ?). split_and!; [|lia|lia]. rewrite Hb. split; [by left|].
    intros [?|(root' & _ & Hp & Hx)]; [done|]. apply app_inj_2 in Hp as [<- _]; [|done]. by apply Hbelow in Hx.
Qed.

(** ** Lists of rules *)
Definition rule_covers (permission tool_name : string) (candidate : bytes) (rule : ConfiguredRule) : Prop :=
  (glob (as_bytes (cr_permission rule)) (as_bytes permission) \/ glob (as_bytes (cr_permission rule)) (as_bytes tool_name)) /\
  target_glob (as_bytes (cr_pattern rule)) candidate.

Definition rule_cost (permission tool_name : string) (candidate : bytes) (rule : ConfiguredRule) : N :=
  match_cost (as_bytes (cr_permission rule)) (as_bytes permission) +
  match_cost (as_bytes (cr_permission rule)) (as_bytes tool_name) + target_cost (as_bytes (cr_pattern rule)) candidate.

(** The decision of the last rule that matches. *)
Definition last_match (matches : ConfiguredRule -> Prop) (rules : list ConfiguredRule) (d : option ConfiguredDecision) : Prop :=
  match d with
  | Some decision => exists before rule after, rules = before ++ rule :: after /\ matches rule /\
      cr_action rule = decision /\ Forall (fun r => ~ matches r) after
  | None => Forall (fun r => ~ matches r) rules
  end.

Lemma rule_applies_exact rule permission tool_name candidate remaining :
  match rule_applies rule permission tool_name candidate remaining with
  | Ok (b, r) => (b = true <-> rule_covers permission tool_name candidate rule) /\ (r <= remaining)%N /\
      (remaining <= r + rule_cost permission tool_name candidate rule)%N
  | Err e => e = Cfg_Limit /\ (remaining < rule_cost permission tool_name candidate rule)%N
  end.
Proof.
  unfold rule_applies, rule_covers, rule_cost.
  pose proof (wildcard_match_exact (as_bytes (cr_permission rule)) (as_bytes permission) remaining) as H1.
  destruct (wildcard_match _ (as_bytes permission) _) as [[b1 r1]|e1]; cbn [rbind]; [|destruct H1; split; [done|lia]].
  destruct H1 as (Hb1 & ? & ?). destruct b1; cbn [rbind].
  - pose proof (target_matches_exact (as_bytes (cr_pattern rule)) candidate r1) as H2.
    destruct (target_matches _ _ _) as [[b r]|e]; [|destruct H2; split; [done|lia]].
    destruct H2 as (Hb & ? & ?). split_and!; [rewrite Hb; naive_solver|lia|lia].
  - pose proof (wildcard_match_exact (as_bytes (cr_permission rule)) (as_bytes tool_name) r1) as H2.
    destruct (wildcard_match _ (as_bytes tool_name) _) as [[b2 r2]|e2]; cbn [rbind]; [|destruct H2; split; [done|lia]].
    destruct H2 as (Hb2 & ? & ?). destruct b2; [|split_and!; [naive_solver|lia|lia]].
    pose proof (target_matches_exact (as_bytes (cr_pattern rule)) candidate r2) as H3.
    destruct (target_matches _ _ _) as [[b r]|e]; [|destruct H3; split; [done|lia]].
    destruct H3 as (Hb & ? & ?). split_and!; [rewrite Hb; naive_solver|lia|lia].
Qed.

Lemma last_match_snoc (matches : ConfiguredRule -> Prop) rules rule d : last_match matches rules d ->
  (matches rule -> last_match matches (rules ++ [rule]) (Some (cr_action rule))) /\
  (~ matches rule -> last_match matches (rules ++ [rule]) d).
Proof.
  intros Hd. split; intros Hm.
  - exists rules, rule, []. by split_and!.
  - destruct d as [d|]; simpl in *; [|apply Forall_app; by repeat constructor].
    destruct Hd as (before & r & after & -> & Hr & Hd & Ha). exists before, r, (after ++ [rule]).
    rewrite <-(assoc_L (++)). split_and!; [done|done|done|apply Forall_app; by repeat constructor].
Qed.

Lemma decide_rules_exact permission tool_name candidate rules : forall before remaining decision,
  last_match (rule_covers permission tool_name candidate) before decision ->
  match decide_rules rules permission tool_name candidate remaining decision with
  | Ok d => last_match (rule_covers permission tool_name candidate) (before ++ rules) d
  | Err e => e = Cfg_Limit /\ (remaining < foldr N.add 0 (map (rule_cost permission tool_name candidate) rules))%N
  end.
Proof.
  induction rules as [|rule rules IH]; intros before remaining decision Hd; simpl; [by rewrite app_nil_r|].
  pose proof (rule_applies_exact rule permission tool_name candidate remaining) as H.
  destruct (rule_applies _ _ _ _ _) as [[b r]|e]; cbn [rbind]; [|destruct H; split; [done|lia]].
  destruct H as (Hb & ? & ?). destruct (last_match_snoc _ _ rule _ Hd) as [Hyes Hno].
  rewrite (cons_middle rule before), (assoc_L (++)).
  assert (last_match (rule_covers permission tool_name candidate) (before ++ [rule])
            (if b then Some (cr_action rule) else decision)) as Hd'.
  { destruct b; [apply Hyes; naive_solver|apply Hno; naive_solver]. }
  specialize (IH _ r _ Hd'). destruct (decide_rules _ _ _ _ _ _) as [d|e]; [done|]. destruct IH. split; [done|lia].
Qed.

Lemma find_rev_last (f : ConfiguredRule -> bool) rules :
  last_match (fun r => f r = true) rules (cr_action <$> List.find f (rev rules)).
Proof.
  induction rules as [|rule rules IH] using rev_ind; [constructor|]. rewrite rev_app_distr. simpl.
  destruct (last_match_snoc _ _ rule _ IH) as [Hyes Hno]. destruct (f rule) eqn:E; [by apply Hyes|]. by apply Hno.
Qed.

(** When a rule matches a target. *)
Definition rule_matches (target : PreparedTarget) (rule : ConfiguredRule) : Prop :=
  if bool_decide (permission_name (pt_tool_name target) = "web_fetch") then
    cr_permission rule = "web_fetch" /\ cr_pattern rule = pt_target target /\
    canonical_web_domain (as_bytes (pt_target target)) = true
  else rule_covers (permission_name (pt_tool_name target)) (pt_tool_name target) (target_pattern target) rule.

Lemma last_match_iff (P Q : ConfiguredRule -> Prop) rules d : (forall r, P r <-> Q r) ->
  last_match P rules d -> last_match Q rules d.
Proof.
  intros HPQ. unfold last_match. destruct d as [d|].
  - intros (before & r & after & -> & ? & ? & Ha). exists before, r, after. split_and!; [done|by apply HPQ|done|].
    eapply Forall_impl; [done|]. intros x. simpl. by rewrite HPQ.
  - intros Ha. eapply Forall_impl; [done|]. intros x. simpl. by rewrite HPQ.
Qed.

(** The evaluation of a list of rules over a target gives the decision of the last
    rule that matches it, and nothing when none does. It fails only when the shared
    budget cannot cover the comparisons of all rules, and then gives no decision. *)
Theorem decide_configured_last_match rules target :
  match decide_configured rules target with
  | Ok d => last_match (rule_matches target) rules d
  | Err e => e = Cfg_Limit /\
      (MAX_CONFIGURED_PERMISSION_MATCH_STEPS <
       foldr N.add 0 (map (rule_cost (permission_name (pt_tool_name target)) (pt_tool_name target) (target_pattern target)) rules))%N
  end.
Proof.
  unfold decide_configured. destruct (bool_decide (permission_name (pt_tool_name target) = "web_fetch")) eqn:E.
  - destruct (canonical_web_domain (as_bytes (pt_target target))) eqn:Hc; simpl.
    + eapply last_match_iff; [|apply find_rev_last]. intros r. unfold rule_matches, web_fetch_rule. rewrite E, Hc.
      rewrite !andb_true_iff, !bool_decide_eq_true. split; [naive_solver|]. intros (-> & Hp & _). by rewrite Hp.
    + apply Forall_forall. intros r _. unfold rule_matches. rewrite E, Hc. naive_solver.
  - pose proof (decide_rules_exact (permission_name (pt_tool_name target)) (pt_tool_name target) (target_pattern target)
      rules [] MAX_CONFIGURED_PERMISSION_MATCH_STEPS None (Forall_nil_2 _)) as H.
    destruct (decide_rules _ _ _ _ _ _); [|done]. eapply last_match_iff; [|exact H].
    intros r. unfold rule_matches. by rewrite E.
Qed.

(** ** Framed identities *)
(** The identity of a command with its environment: the profile, the length of the
    shell's path, the path and the command. *)
Definition framed (identity command : bytes) : Prop :=
  exists profile len shell,
    identity = ENV_PREFIX ++ profile ++ ":"%char :: len ++ ":"%char :: shell ++ as_bytes "::" ++ command /\
    Forall (fun c => colon c = false) profile /\ Forall (fun c => colon c = false) len /\
    parse_length len = Some (vec_len shell).

Lemma position_Some {A} (f : A -> bool) l i : position f l = Some i <->
  exists before x after, l = before ++ x :: after /\ length before = i /\ f x = true /\ Forall (fun y => f y = false) before.
Proof.
  revert i. induction l as [|a l IH]; intros i; simpl.
  { split; [done|]. by intros ([|] & ? & ? & ? & _). }
  destruct (f a) eqn:Ha.
  - split; [intros [= <-]; by exists [], a, l|]. intros ([|b before] & x & after & E & Hi & Hx & Hb); [by simplify_eq/=|].
    simplify_eq/=. by inversion Hb; congruence.
  - rewrite fmap_Some. setoid_rewrite IH. split.
    + intros (j & (before & x & after & -> & <- & Hx & Hb) & ->). exists (a :: before), x, after. by split_and!; [..|constructor].
    + intros ([|b before] & x & after & E & Hi & Hx & Hb); [by simplify_eq/=; congruence|]. simplify_eq/=.
      inversion Hb; subst. exists (length before). split; [|done]. by exists before, x, after.
Qed.

Lemma drop_past {A} (before after : list A) x : drop (S (length before)) (before ++ x :: after) = after.
Proof. induction before; simpl; [done|]. by destruct before. Qed.

Lemma position_colon before after : Forall (fun c => colon c = false) before ->
  position colon (before ++ ":"%char :: after) = Some (length before).
Proof. intros Hb. apply position_Some. by exists before, ":"%char, after. Qed.

Lemma position_colon_split l i : position colon l = Some i ->
  l = take i l ++ ":"%char :: drop (S i) l /\ Forall (fun c => colon c = false) (take i l).
Proof.
  intros (before & x & after & -> & <- & Hx & Hb)%position_Some. apply bool_decide_eq_true in Hx as ->.
  by rewrite take_app_length, drop_past.
Qed.

Lemma get_from_app (l k : bytes) : get_from (vec_len l) (l ++ k) = Some k.
Proof.
  unfold get_from. rewrite vec_len_app. destruct (N.leb_spec (vec_len l) (vec_len l + vec_len k)); [|lia].
  unfold vec_len. by rewrite Nat2N.id, drop_app_length.
Qed.

Lemma get_from_Some n l k : get_from n l = Some k -> exists before, l = before ++ k /\ vec_len before = n.
Proof.
  unfold get_from, vec_len. destruct (N.leb_spec n (N.of_nat (length l))); [|done]. intros [= <-].
  exists (take (N.to_nat n) l). rewrite take_drop, length_take. split; [done|]. lia.
Qed.

(** The command of a framed identity is recovered, whatever the path of the shell
    contains; any other identity is its own command. *)
Theorem command_from_identity_exact identity :
  (forall command, framed identity command -> command_from_identity identity = command) /\
  ((forall command, ~ framed identity command) -> command_from_identity identity = identity).
Proof.
  unfold command_from_identity. split.
  - intros command (profile & len & shell & -> & Hp & Hl & Hs).
    rewrite (proj2 (strip_prefix_Some _ _ _) eq_refl). cbn [mbind option_bind]. rewrite position_colon by done. cbn [mbind option_bind].
    rewrite drop_past, position_colon by done. cbn [mbind option_bind]. rewrite take_app_length, Hs. cbn [mbind option_bind].
    rewrite drop_past, get_from_app. cbn [mbind option_bind]. by rewrite (proj2 (strip_prefix_Some _ _ _) eq_refl).
  - intros Hn. destruct (strip_prefix ENV_PREFIX identity) as [rest|] eqn:E1; [|done]. cbn [mbind option_bind].
    destruct (position colon rest) as [i|] eqn:E2; [|done]. cbn [mbind option_bind].
    destruct (position colon (drop (S i) rest)) as [j|] eqn:E3; [|done]. cbn [mbind option_bind].
    destruct (parse_length _) as [n|] eqn:E4; [|done]. cbn [mbind option_bind].
    destruct (get_from n _) as [after|] eqn:E5; [|done]. cbn [mbind option_bind].
    destruct (strip_prefix (as_bytes "::") after) as [command|] eqn:E6; [|done]. exfalso. apply (Hn command).
    apply strip_prefix_Some in E1 as ->, E6 as ->. apply position_colon_split in E2 as [E2 H2], E3 as [E3 H3].
    apply get_from_Some in E5 as (shell & E5 & En).
    exists (take i rest), (take j (drop (S i) rest)), shell. split_and!; [|done|done|by rewrite En].
    rewrite E2 at 1. rewrite E3 at 1. by rewrite E5.
Qed.
