(* ===== verification/Rules.v ===== *)
(** * Saved permission rules ([permission_rules.rs])

    Exact-action rules saved in the metadata of a session: identities, the ordered
    set of rules with their generations, the two changes with their optimistic
    checks, and the JSON form. SHA-256 and the number type of [serde_json] are code
    of other packages and parameters here. *)
From S2P Require Import Prelude Ids Json Model PermissionId Patterns.

Definition NATIVE_SESSION_PERMISSION_RULES_KEY : string := "machine_god.session_permission_rules".
Definition MAX_NATIVE_PERMISSION_RULES : N := 1024.
Definition MAX_NATIVE_PERMISSION_IDENTITY_BYTES : N := 4096.
Definition MAX_FILE_SESSION_BYTES : N := 8651165.
Definition MAX_STORED_JSON_NODES : N := 65536.

Inductive RuleKind := Kind_Command | Kind_FileMutation | Kind_StructuredTool.
#[export] Instance RuleKind_eq_dec : EqDecision RuleKind.
Proof. solve_decision. Defined.

Inductive RuleDecision := Rule_Allow | Rule_Deny.
#[export] Instance RuleDecision_eq_dec : EqDecision RuleDecision.
Proof. solve_decision. Defined.

Inductive RuleError :=
| InvalidIdentity | InvalidDisplayIdentity | Malformed | UnsupportedVersion | Stale | Full | GenerationExhausted | Rule_Limit.
#[export] Instance RuleError_eq_dec : EqDecision RuleError.
Proof. solve_decision. Defined.

Definition rule_error_display (e : RuleError) : string :=
  match e with
  | InvalidIdentity => "permission rule identity is invalid"
  | InvalidDisplayIdentity => "permission rule display identity is invalid"
  | Malformed => "saved permission rules are malformed"
  | UnsupportedVersion => "saved permission rule version is unsupported"
  | Stale => "permission rule generation is stale"
  | Full => "saved permission rule capacity is exhausted"
  | GenerationExhausted => "permission rule generation is exhausted"
  | Rule_Limit => "saved permission rules exceed the session envelope"
  end.

Record RuleKey := { key_kind : RuleKind; key_digest : string; key_canonical : string }.
#[export] Instance RuleKey_eq_dec : EqDecision RuleKey.
Proof. solve_decision. Defined.

Record PermissionRule := {
  rule_id : N;
  rule_key : RuleKey;
  rule_display_identity : string;
  rule_decision : RuleDecision;
  rule_generation : N;
}.
#[export] Instance PermissionRule_eq_dec : EqDecision PermissionRule.
Proof. solve_decision. Defined.

(** The schema version of a set is always 1. *)
Record SessionRules := { next_generation : N; rules : list PermissionRule }.

Definition SessionRules_default : SessionRules := {| next_generation := 1; rules := [] |}.

Definition validate_rule_identity (value : string) (error : RuleError) : result unit RuleError :=
  fail_if bool_decide (value = "") || (MAX_NATIVE_PERMISSION_IDENTITY_BYTES <? str_len value)%N with error in
  Ok tt.

Definition rule_for_id (r : SessionRules) (id : N) : option PermissionRule :=
  List.find (fun rule => (rule_id rule =? id)%N) (rules r).
Definition rule_for_key (r : SessionRules) (key : RuleKey) : option PermissionRule :=
  List.find (fun rule => bool_decide (rule_key rule = key)) (rules r).
Definition decide_saved (r : SessionRules) (key : RuleKey) : option RuleDecision := rule_decision <$> rule_for_key r key.

(** ** The JSON form *)
Definition digest_hex (digest : string) : string := hex digest.

Definition kind_text (kind : RuleKind) : string :=
  match kind with
  | Kind_Command => "command" | Kind_FileMutation => "file_mutation" | Kind_StructuredTool => "structured_tool"
  end.
Definition decision_text (d : RuleDecision) : string := match d with Rule_Allow => "allow" | Rule_Deny => "deny" end.

#[export] Instance RuleKey_to_ser : ToSer RuleKey := fun k =>
  Ser_fields [("kind", Ser_str (kind_text (key_kind k))); ("digest", Ser_str (digest_hex (key_digest k)));
              ("canonical", Ser_str (key_canonical k))].
#[export] Instance PermissionRule_to_ser : ToSer PermissionRule := fun r =>
  Ser_fields [("id", Ser_u64 (rule_id r)); ("key", to_ser (rule_key r));
              ("display_identity", Ser_str (rule_display_identity r));
              ("decision", Ser_str (decision_text (rule_decision r))); ("generation", Ser_u64 (rule_generation r))].
#[export] Instance SessionRules_to_ser : ToSer SessionRules := fun r =>
  Ser_fields [("schema_version", Ser_u64 1); ("next_generation", Ser_u64 (next_generation r)); ("rules", to_ser (rules r))].

(** A [serde_json::Map] of the given fields. *)
Definition json_object (fields : list (string * Value)) : Value :=
  VObject (foldl (fun m e => bt_insert m (fst e) (snd e)) [] fields).

Section Values.
Context `{JsonNumbers}.

Definition key_value (k : RuleKey) : Value :=
  json_object [("kind", VString (kind_text (key_kind k))); ("digest", VString (digest_hex (key_digest k)));
               ("canonical", VString (key_canonical k))].
Definition rule_value (r : PermissionRule) : Value :=
  json_object [("id", VNumber (number_from (rule_id r))); ("key", key_value (rule_key r));
               ("display_identity", VString (rule_display_identity r));
               ("decision", VString (decision_text (rule_decision r)));
               ("generation", VNumber (number_from (rule_generation r)))].
Definition to_value (r : SessionRules) : Value :=
  json_object [("schema_version", VNumber (number_from 1)); ("next_generation", VNumber (number_from (next_generation r)));
               ("rules", VArray (map rule_value (rules r)))].

Definition object (value : Value) (fields : N) : result (list (string * Value)) RuleError :=
  match value with
  | VObject entries => fail_if negb (vec_len entries =? fields)%N with Malformed in Ok entries
  | _ => Err Malformed
  end.
Definition number (object : list (string * Value)) (name : string) : result N RuleError :=
  match bt_get object name with Some (VNumber n) => ok_or Malformed (number_as_u64 n) | _ => Err Malformed end.
Definition string_field (object : list (string * Value)) (name : string) : result string RuleError :=
  match bt_get object name with Some (VString s) => Ok s | _ => Err Malformed end.
Definition array_field (object : list (string * Value)) (name : string) : result (list Value) RuleError :=
  match bt_get object name with Some (VArray l) => Ok l | _ => Err Malformed end.

Context (sha256 : string -> string) `{JsonWriter}.

Definition RuleKey_new (kind : RuleKind) (canonical : string) : result RuleKey RuleError :=
  let? _ := validate_rule_identity canonical InvalidIdentity in
  Ok {| key_kind := kind; key_digest := sha256 canonical; key_canonical := canonical |}.

Definition parse_kind (text : string) : result RuleKind RuleError :=
  if bool_decide (text = "command") then Ok Kind_Command
  else if bool_decide (text = "file_mutation") then Ok Kind_FileMutation
  else if bool_decide (text = "structured_tool") then Ok Kind_StructuredTool
  else Err Malformed.
Definition parse_decision (text : string) : result RuleDecision RuleError :=
  if bool_decide (text = "allow") then Ok Rule_Allow
  else if bool_decide (text = "deny") then Ok Rule_Deny
  else Err Malformed.

(** [ParsedRule::parse], with the rule it owns in the end. *)
Definition parse_rule (value : Value) (next_generation : N) : result PermissionRule RuleError :=
  let? rule := object value 5 in
  let? id := number rule "id" in
  let? generation := number rule "generation" in
  fail_if (id =? 0)%N || (generation <? id)%N || (next_generation <=? generation)%N with Malformed in
  let? key := ok_or Malformed (bt_get rule "key") in
  let? key := object key 3 in
  let? kind := string_field key "kind" in
  let? kind := parse_kind kind in
  let? canonical := string_field key "canonical" in
  let? _ := validate_rule_identity canonical InvalidIdentity in
  let digest := sha256 canonical in
  let? encoded_digest := string_field key "digest" in
  fail_if negb (bool_decide (encoded_digest = digest_hex digest)) with Malformed in
  let? display_identity := string_field rule "display_identity" in
  let? _ := validate_rule_identity display_identity InvalidDisplayIdentity in
  let? decision := string_field rule "decision" in
  let? decision := parse_decision decision in
  Ok {| rule_id := id; rule_key := {| key_kind := kind; key_digest := digest; key_canonical := canonical |};
        rule_display_identity := display_identity; rule_decision := decision; rule_generation := generation |}.

(** The loop of [from_value]; [parsed] is in reverse. *)
Fixpoint parse_rules (values : list Value) (next_generation : N) (parsed : list PermissionRule)
    : result (list PermissionRule) RuleError :=
  match values with
  | [] => Ok (rev parsed)
  | value :: values =>
      let? rule := parse_rule value next_generation in
      fail_if bool_decide (rule_id rule ∈ map rule_id parsed) || bool_decide (rule_key rule ∈ map rule_key parsed)
        with Malformed in
      parse_rules values next_generation (rule :: parsed)
  end.

Definition check_envelope (value : Ser) (rules : N) : result unit RuleError :=
  fail_if negb match (nodes ← checked_mul rules 9; checked_add nodes 4) with
               | Some nodes => (nodes <=? MAX_STORED_JSON_NODES)%N | None => false end with Rule_Limit in
  if encodes_within MAX_FILE_SESSION_BYTES value then Ok tt else Err Rule_Limit.

Definition from_value (value : Value) : result SessionRules RuleError :=
  let? object := object value 3 in
  let? version := number object "schema_version" in
  fail_if negb (version =? 1)%N with UnsupportedVersion in
  let? next_generation := number object "next_generation" in
  fail_if (next_generation =? 0)%N with Malformed in
  let? values := array_field object "rules" in
  fail_if (MAX_NATIVE_PERMISSION_RULES <? vec_len values)%N with Full in
  let? parsed := parse_rules values next_generation [] in
  let? _ := check_envelope (to_ser value) (vec_len values) in
  Ok {| next_generation := next_generation; rules := parsed |}.

Definition from_metadata (metadata : Metadata) : result SessionRules RuleError :=
  match bt_get metadata NATIVE_SESSION_PERMISSION_RULES_KEY with
  | Some value => from_value value
  | None => Ok SessionRules_default
  end.

(** ** Changes *)
Definition has_key (key : RuleKey) (rule : PermissionRule) : bool := bool_decide (rule_key rule = key).

Definition apply_set (r : SessionRules) (key : RuleKey) (display_identity : string) (decision : RuleDecision)
    (expected_generation : option N) : result SessionRules RuleError :=
  let? _ := validate_rule_identity display_identity InvalidDisplayIdentity in
  let? next := ok_or GenerationExhausted (checked_add (next_generation r) 1) in
  let index := position (has_key key) (rules r) in
  let current := index ≫= fun index => rules r !! index in
  fail_if negb (bool_decide (expected_generation = rule_generation <$> current)) with Stale in
  fail_if (match index with None => (vec_len (rules r) =? MAX_NATIVE_PERMISSION_RULES)%N | Some _ => false end) with Full in
  let replacement :=
    {| rule_id := from_option rule_id (next_generation r) current; rule_key := key;
       rule_display_identity := display_identity; rule_decision := decision; rule_generation := next_generation r |} in
  let candidate :=
    {| next_generation := next;
       rules := match index with Some index => <[index := replacement]> (rules r) | None => rules r ++ [replacement] end |} in
  let? _ := check_envelope (to_ser candidate) (vec_len (rules candidate)) in
  Ok candidate.

Definition apply_revoke (r : SessionRules) (id expected_generation : N) : result SessionRules RuleError :=
  let? index := ok_or Stale (position (fun rule => (rule_id rule =? id)%N) (rules r)) in
  let? rule := ok_or Stale (rules r !! index) in
  fail_if negb (rule_generation rule =? expected_generation)%N with Stale in
  let? next := ok_or GenerationExhausted (checked_add (next_generation r) 1) in
  let candidate := {| next_generation := next; rules := delete index (rules r) |} in
  let? _ := check_envelope (to_ser candidate) (vec_len (rules candidate)) in
  Ok candidate.
End Values.
