(* ===== verification/RulesProofs.v ===== *)
(** * Saved rules are kept correctly

    Every set of rules that is parsed or changed is well formed: identities and
    keys are unique, and generations grow. A change touches only its own rule and is
    refused unless it names the current generation; a generation is never used for
    two versions of a rule. The JSON form of a set is read back as the same set. *)
From S2P Require Import Prelude Ids Json Model PermissionId Patterns PatternProofs Rules.
From stdpp Require Import pretty.

Section Rules.
Context `{JsonNumbers} (sha256 : string -> string) `{JsonWriter}.

Definition valid_identity (s : string) : Prop := s <> "" /\ (str_len s <= MAX_NATIVE_PERMISSION_IDENTITY_BYTES)%N.
Definition valid_key (k : RuleKey) : Prop := valid_identity (key_canonical k) /\ key_digest k = sha256 (key_canonical k).
Definition valid_rule (next : N) (rule : PermissionRule) : Prop :=
  (0 < rule_id rule <= rule_generation rule)%N /\ (rule_generation rule < next)%N /\
  valid_key (rule_key rule) /\ valid_identity (rule_display_identity rule).

(** The type invariant of a set of rules. *)
Record rules_ok (r : SessionRules) : Prop := {
  ro_next : (1 <= next_generation r <= U64_MAX)%N;
  ro_len : (vec_len (rules r) <= MAX_NATIVE_PERMISSION_RULES)%N;
  ro_ids : NoDup (map rule_id (rules r));
  ro_keys : NoDup (map rule_key (rules r));
  ro_valid : Forall (valid_rule (next_generation r)) (rules r);
}.

Lemma validate_rule_identity_ok s e u : validate_rule_identity s e = Ok u <-> valid_identity s.
Proof.
  unfold validate_rule_identity, valid_identity. destruct u, (bool_decide_reflect (s = "")); simpl; [naive_solver|].
  destruct (N.ltb_spec MAX_NATIVE_PERMISSION_IDENTITY_BYTES (str_len s)); split; naive_solver lia.
Qed.

Lemma validate_rule_identity_err s e e' : validate_rule_identity s e = Err e' -> e' = e /\ ~ valid_identity s.
Proof.
  intros E. split; [unfold validate_rule_identity in E; by destruct (_ || _); simplify_eq|].
  intros Hv%(validate_rule_identity_ok s e tt). congruence.
Qed.

Lemma RuleKey_new_ok kind canonical k : RuleKey_new sha256 kind canonical = Ok k <->
  valid_key k /\ key_kind k = kind /\ key_canonical k = canonical.
Proof.
  unfold RuleKey_new. rewrite rbind_Ok. setoid_rewrite validate_rule_identity_ok. unfold valid_key. destruct k as [k d c].
  simpl. split; [intros (_ & ? & [= <- <- <-]); done|]. intros ([? ->] & <- & <-). by exists tt.
Qed.

(** ** Lookups *)
Lemma find_position {A} (f : A -> bool) l : List.find f l = position f l ≫= fun i => l !! i.
Proof.
  induction l as [|x l IH]; simpl; [done|]. destruct (f x); [done|]. rewrite IH. by destruct (position f l).
Qed.

Lemma find_key_Some l k x : NoDup (map rule_key l) ->
  List.find (fun rule => bool_decide (rule_key rule = k)) l = Some x <-> x ∈ l /\ rule_key x = k.
Proof.
  intros Hnd. split.
  - intros [Hx Hk]%find_some. apply bool_decide_eq_true in Hk. split; [by apply list_elem_of_In|done].
  - intros [Hx <-]. induction l as [|y l IH]; simpl in *; [set_solver|]. apply NoDup_cons in Hnd as [Hy Hnd].
    apply elem_of_cons in Hx as [->|Hx]; [by rewrite bool_decide_true|].
    rewrite bool_decide_false; [by apply IH|]. intros E. apply Hy. rewrite E. by apply list_elem_of_fmap_2.
Qed.

Lemma find_key_None l k : List.find (fun rule => bool_decide (rule_key rule = k)) l = None <-> k ∉ map rule_key l.
Proof.
  induction l as [|y l IH]; simpl; [set_solver|]. case_bool_decide; [split; [done|set_solver]|]. rewrite IH. set_solver.
Qed.

(** Where a change puts the rule of a key. *)
Lemma position_key l key : match position (has_key key) l with
  | Some i => exists before x after, l = before ++ x :: after /\ length before = i /\ rule_key x = key
  | None => key ∉ map rule_key l
  end.
Proof.
  destruct (position (has_key key) l) as [i|] eqn:E.
  - apply position_Some in E as (before & x & after & -> & <- & Hx & _). apply bool_decide_eq_true in Hx. by exists before, x, after.
  - rewrite <-find_key_None, find_position. fold (has_key key). by rewrite E.
Qed.

Lemma valid_rule_later next next' rule : (next <= next')%N -> valid_rule next rule -> valid_rule next' rule.
Proof. intros Hn (? & ? & ? & ?). split_and!; [lia..|done|done]. Qed.

Lemma find_key_middle before (x y : PermissionRule) after k : rule_key x <> k -> rule_key y <> k ->
  List.find (fun rule => bool_decide (rule_key rule = k)) (before ++ x :: after) =
  List.find (fun rule => bool_decide (rule_key rule = k)) (before ++ y :: after).
Proof.
  intros Hx Hy. induction before as [|b before IH]; simpl; [by rewrite !bool_decide_false|]. by case_bool_decide.
Qed.

Lemma find_key_app l (x : PermissionRule) k : rule_key x <> k ->
  List.find (fun rule => bool_decide (rule_key rule = k)) (l ++ [x]) =
  List.find (fun rule => bool_decide (rule_key rule = k)) l.
Proof.
  intros Hx. induction l as [|b l IH]; simpl; [by rewrite bool_decide_false|]. by case_bool_decide.
Qed.

(** ** Setting a rule *)
Definition set_rule (r : SessionRules) (key : RuleKey) (display : string) (decision : RuleDecision) : PermissionRule :=
  {| rule_id := from_option rule_id (next_generation r) (rule_for_key r key); rule_key := key;
     rule_display_identity := display; rule_decision := decision; rule_generation := next_generation r |}.

Lemma set_rules_ok r key display decision l : rules_ok r -> valid_key key -> valid_identity display ->
  (next_generation r + 1 <= U64_MAX)%N ->
  (exists before x after, rules r = before ++ x :: after /\ rule_key x = key /\
     l = before ++ set_rule r key display decision :: after) \/
  (key ∉ map rule_key (rules r) /\ (vec_len (rules r) < MAX_NATIVE_PERMISSION_RULES)%N /\
     l = rules r ++ [set_rule r key display decision]) ->
  rules_ok {| next_generation := next_generation r + 1; rules := l |} /\
  set_rule r key display decision ∈ l /\
  forall k, k <> key -> List.find (fun rule => bool_decide (rule_key rule = k)) l = rule_for_key r k.
Proof.
  intros [Hn Hl Hids Hkeys Hv] Hkey Hd Hnext Hcase.
  assert (forall id, from_option rule_id (next_generation r) (rule_for_key r key) = id -> (0 < id <= next_generation r)%N ->
    rule_id (set_rule r key display decision) = id /\ rule_key (set_rule r key display decision) = key /\
    valid_rule (next_generation r + 1) (set_rule r key display decision)) as Hs.
  { intros id <- ?. split_and!; [done|done|]. split; [done|]. split; [simpl; lia|]. by split. }
  assert (forall l, Forall (valid_rule (next_generation r)) l -> Forall (valid_rule (next_generation r + 1)) l) as Hlater.
  { intros ? HF. eapply Forall_impl; [exact HF|]. intros y. apply valid_rule_later. lia. }
  generalize dependent (set_rule r key display decision). intros sr Hcase Hs.
  destruct Hcase as [(before & x & after & E & Hx & ->)|(Hfresh & Hlen & ->)].
  - assert (rule_for_key r key = Some x) as Hf.
    { apply find_key_Some; [done|]. split; [|done]. rewrite E. set_solver. }
    unfold rule_for_key. rewrite E in *. rewrite !map_app in *. simpl in *.
    apply Forall_app in Hv as [Hb [Hvx Ha]%Forall_cons]. rewrite Hf in Hs. simpl in Hs.
    destruct (Hs (rule_id x)) as (Hid & Hk & Hvs); [done|destruct Hvx as (? & ? & _); lia|].
    split_and!; [split; simpl; rewrite ?map_app; simpl; rewrite ?Hid, ?Hk| |].
    + lia.
    + unfold vec_len in *. rewrite length_app in *. simpl in *. done.
    + done.
    + by rewrite <-Hx.
    + apply Forall_app; split; [by auto|]. constructor; auto.
    + set_solver.
    + intros k Hne. by apply find_key_middle; congruence.
  - assert (rule_for_key r key = None) as Hf by (by apply find_key_None). rewrite Hf in Hs. simpl in Hs.
    destruct (Hs (next_generation r)) as (Hid & Hk & Hvs); [done|lia|].
    split_and!; [split; simpl; rewrite ?map_app; simpl; rewrite ?Hid, ?Hk| |].
    + lia.
    + rewrite vec_len_app. change (vec_len [_]) with 1%N. lia.
    + apply NoDup_app. split_and!; [done| |by apply NoDup_singleton].
      intros i Hi ->%list_elem_of_singleton. apply list_elem_of_fmap_1 in Hi as (y & E & Hy).
      rewrite Forall_forall in Hv. destruct (Hv _ Hy) as (? & ? & _). lia.
    + apply NoDup_app. split_and!; [done| |by apply NoDup_singleton]. set_solver.
    + apply Forall_app; split; [by auto|]. by constructor.
    + set_solver.
    + intros k Hne. apply find_key_app. congruence.
Qed.

(** Why a change is refused. *)
Definition set_refused (r : SessionRules) (key : RuleKey) (display : string) (expected : option N) (e : RuleError) : Prop :=
  match e with
  | InvalidDisplayIdentity => ~ valid_identity display
  | GenerationExhausted => next_generation r = U64_MAX
  | Stale => expected <> (rule_generation <$> rule_for_key r key)
  | Full => rule_for_key r key = None /\ vec_len (rules r) = MAX_NATIVE_PERMISSION_RULES
  | Rule_Limit => True
  | InvalidIdentity | Malformed | UnsupportedVersion => False
  end.

(** Setting a rule keeps a set well formed, gives the key the decision under the next
    generation and a stable identity, and changes no other key. It is refused
    unless it names the generation of the rule it replaces. *)
Theorem apply_set_correct r key display decision expected : rules_ok r -> valid_key key ->
  match apply_set r key display decision expected with
  | Ok r' => rules_ok r' /\ next_generation r' = (next_generation r + 1)%N /\
      expected = rule_generation <$> rule_for_key r key /\
      rule_for_key r' key = Some (set_rule r key display decision) /\
      forall k, k <> key -> rule_for_key r' k = rule_for_key r k
  | Err e => set_refused r key display expected e
  end.
Proof.
  intros Hr Hkey. unfold apply_set.
  destruct (validate_rule_identity display InvalidDisplayIdentity) as [u|e] eqn:Hd; cbn [rbind].
  2: { by apply validate_rule_identity_err in Hd as [-> ?]. }
  apply validate_rule_identity_ok in Hd.
  destruct (checked_add (next_generation r) 1) as [next|] eqn:Hn; cbn [ok_or rbind].
  2: { destruct (ro_next r Hr). simpl. unfold checked_add in Hn. destruct (N.leb_spec (next_generation r + 1) U64_MAX); [done|lia]. }
  apply checked_add_Some in Hn as [-> Hnext].
  assert (position (has_key key) (rules r) ≫= (fun index => rules r !! index) = rule_for_key r key) as Ecur
    by (symmetry; apply find_position).
  rewrite Ecur. destruct (bool_decide_reflect (expected = rule_generation <$> rule_for_key r key)) as [He|He]; cbn [negb]; [|done].
  pose proof (position_key (rules r) key) as Hp.
  set (rep := {| rule_id := _ |}). change rep with (set_rule r key display decision). clear rep.
  destruct (position (has_key key) (rules r)) as [i|].
  - destruct Hp as (before & x & after & E & <- & Hx).
    destruct (check_envelope _ _) as [u'|e] eqn:Hc; cbn [rbind];
      [|unfold check_envelope in Hc; by repeat (case_match; simplify_eq)].
    destruct (set_rules_ok r key display decision (before ++ set_rule r key display decision :: after)) as (Hok & Hin & Hk);
      [done|done|done|done|left; by exists before, x, after|].
    assert (<[length before := set_rule r key display decision]> (rules r) = before ++ set_rule r key display decision :: after) as ->.
    { rewrite E, insert_app_r_alt, Nat.sub_diag by done. done. }
    split_and!; [done|done|done|apply find_key_Some; [apply Hok|done]|done].
  - destruct (N.eqb_spec (vec_len (rules r)) MAX_NATIVE_PERMISSION_RULES) as [Hl|Hl].
    { split; [by apply find_key_None|done]. }
    destruct (check_envelope _ _) as [u'|e] eqn:Hc; cbn [rbind];
      [|unfold check_envelope in Hc; by repeat (case_match; simplify_eq)].
    destruct (set_rules_ok r key display decision (rules r ++ [set_rule r key display decision])) as (Hok & Hin & Hk);
      [done|done|done|done|right; pose proof (ro_len r Hr); split_and!; [done|lia|done]|].
    split_and!; [done|done|done|apply find_key_Some; [apply Hok|done]|done].
Qed.

(** ** Revoking a rule *)
Definition revoke_refused (r : SessionRules) (id expected : N) (e : RuleError) : Prop :=
  match e with
  | Stale => forall rule, rule ∈ rules r -> rule_id rule = id -> rule_generation rule <> expected
  | GenerationExhausted => next_generation r = U64_MAX
  | Rule_Limit => True
  | _ => False
  end.

Lemma same_id (l : list PermissionRule) x y :
  NoDup (map rule_id l) -> x ∈ l -> y ∈ l -> rule_id x = rule_id y -> x = y.
Proof.
  induction l as [|z l IH]; simpl; [set_solver|]. intros [Hz Hnd]%NoDup_cons Hx Hy E.
  apply elem_of_cons in Hx as [->|Hx], Hy as [->|Hy]; [done| | |by apply IH].
  - destruct Hz. rewrite E. by apply list_elem_of_fmap_2.
  - destruct Hz. rewrite <-E. by apply list_elem_of_fmap_2.
Qed.

(** Revoking keeps a set well formed and removes exactly the named rule at the named
    generation. *)
Theorem apply_revoke_correct r id expected : rules_ok r ->
  match apply_revoke r id expected with
  | Ok r' => rules_ok r' /\ next_generation r' = (next_generation r + 1)%N /\
      exists before rule after, rules r = before ++ rule :: after /\ rules r' = before ++ after /\
        rule_id rule = id /\ rule_generation rule = expected /\ rule_for_key r' (rule_key rule) = None
  | Err e => revoke_refused r id expected e
  end.
Proof.
  intros [Hn Hl Hids Hkeys Hv]. unfold apply_revoke.
  destruct (position _ (rules r)) as [i|] eqn:Hp; cbn [ok_or rbind].
  2: { intros rule Hin Hid. exfalso.
       assert (List.find (fun rule => (rule_id rule =? id)%N) (rules r) = None) as Hf by (rewrite find_position; by rewrite Hp).
       eapply find_none in Hf; [|by apply list_elem_of_In]. simpl in Hf. by apply N.eqb_neq in Hf. }
  apply position_Some in Hp as (before & rule & after & E & <- & Hid & _). apply N.eqb_eq in Hid. rewrite E in *.
  rewrite list_lookup_middle by done. cbn [ok_or rbind].
  destruct (N.eqb_spec (rule_generation rule) expected) as [Hg|Hg]; cbn [negb].
  2: { intros y Hy Hy'. rewrite E in Hy. rewrite (same_id _ y rule Hids); [done|done|set_solver|congruence]. }
  destruct (checked_add (next_generation r) 1) as [next|] eqn:Hx; cbn [ok_or rbind].
  2: { simpl. unfold checked_add in Hx. destruct (N.leb_spec (next_generation r + 1) U64_MAX); [done|lia]. }
  apply checked_add_Some in Hx as [-> Hnext]. rewrite delete_middle.
  destruct (check_envelope _ _) as [u'|e] eqn:Hc; cbn [rbind];
    [|unfold check_envelope in Hc; by repeat (case_match; simplify_eq)].
  rewrite !map_app in *. simpl in *. apply Forall_app in Hv as [Hb [_ Ha]%Forall_cons].
  assert (forall l, Forall (valid_rule (next_generation r)) l -> Forall (valid_rule (next_generation r + 1)) l) as Hlater.
  { intros ? HF. eapply Forall_impl; [exact HF|]. intros y. apply valid_rule_later. lia. }
  split_and!; [split; simpl; rewrite ?map_app; simpl|done|].
  - lia.
  - rewrite vec_len_app in *. unfold vec_len in *. simpl in *. lia.
  - eapply sublist_NoDup; [exact Hids|]. by apply sublist_app; [|constructor].
  - eapply sublist_NoDup; [exact Hkeys|]. by apply sublist_app; [|constructor].
  - apply Forall_app; auto.
  - exists before, rule, after. split_and!; [done|done|done|done|]. apply find_key_None. simpl. rewrite map_app.
    apply NoDup_app in Hkeys as (_ & Hd & [Hr _]%NoDup_cons). set_solver.
Qed.

(** ** Generations *)
Inductive change (r r' : SessionRules) : Prop :=
| change_set key display decision expected : valid_key key -> apply_set r key display decision expected = Ok r' -> change r r'
| change_revoke id expected : apply_revoke r id expected = Ok r' -> change r r'.

Lemma change_grows r r' : rules_ok r -> change r r' ->
  rules_ok r' /\ (next_generation r <= next_generation r')%N /\
  forall y, y ∈ rules r' -> y ∈ rules r \/ (next_generation r <= rule_generation y)%N.
Proof.
  intros Hr [key display decision expected Hk E|id expected E].
  - pose proof (apply_set_correct r key display decision expected Hr Hk) as Hs. rewrite E in Hs.
    destruct Hs as (Hok & Hn & _ & Hkey & Hother). split_and!; [done|lia|]. intros y Hy.
    destruct (decide (rule_key y = key)) as [Ey|Ey].
    + right. assert (rule_for_key r' key = Some y) as Hf by (apply find_key_Some; [apply Hok|done]).
      rewrite Hkey in Hf. injection Hf as <-. simpl. lia.
    + left. assert (rule_for_key r' (rule_key y) = Some y) as Hf by (apply find_key_Some; [apply Hok|done]).
      rewrite Hother in Hf by done. by apply find_key_Some in Hf as [? _]; [|apply Hr].
  - pose proof (apply_revoke_correct r id expected Hr) as Hs. rewrite E in Hs.
    destruct Hs as (Hok & Hn & before & rule & after & E1 & E2 & _). split_and!; [done|lia|].
    intros y. rewrite E1, E2. set_solver.
Qed.

Lemma changes_grow r r' : rules_ok r -> rtc change r r' ->
  rules_ok r' /\ (next_generation r <= next_generation r')%N /\
  forall y, y ∈ rules r' -> y ∈ rules r \/ (next_generation r <= rule_generation y)%N.
Proof.
  intros Hr Hc. induction Hc as [r|r r1 r' Hc _ IH]; [by auto with lia|].
  destruct (change_grows _ _ Hr Hc) as (Hr1 & Hn1 & Hy1). destruct (IH Hr1) as (Hr' & Hn & Hy).
  split_and!; [done|lia|]. intros y [?|?]%Hy; [by apply Hy1|right; lia].
Qed.

(** A generation identifies one version of the rule of a key: if the rule of a key
    has the same generation before and after any changes, it is the same rule. *)
Theorem generations_identify r r' key x y : rules_ok r -> rtc change r r' ->
  rule_for_key r key = Some x -> rule_for_key r' key = Some y -> rule_generation x = rule_generation y -> x = y.
Proof.
  intros Hr Hc Hx Hy E. destruct (changes_grow _ _ Hr Hc) as (Hr' & _ & Hin).
  apply find_key_Some in Hx as [Hx Kx]; [|apply Hr]. apply find_key_Some in Hy as [Hy Ky]; [|apply Hr'].
  pose proof (ro_valid r Hr) as Hv. rewrite Forall_forall in Hv. destruct (Hv x Hx) as (_ & ? & _).
  destruct (Hin y Hy) as [Hy'|?]; [|lia].
  assert (rule_for_key r key = Some x) as Fx by (apply find_key_Some; [apply Hr|done]).
  assert (rule_for_key r key = Some y) as Fy by (apply find_key_Some; [apply Hr|done]). congruence.
Qed.

(** ** The JSON form *)
Lemma parse_kind_text k : parse_kind (kind_text k) = Ok k.
Proof. by destruct k. Qed.
Lemma parse_decision_text d : parse_decision (decision_text d) = Ok d.
Proof. by destruct d. Qed.

Lemma parse_rule_ok value next rule : parse_rule sha256 value next = Ok rule -> valid_rule next rule.
Proof.
  unfold parse_rule. intros E. simpl_result. bool_to_prop. simplify_eq.
  repeat match goal with Hi : validate_rule_identity _ _ = Ok _ |- _ => apply validate_rule_identity_ok in Hi end.
  unfold valid_rule, valid_key. simpl. split_and!; try done; lia.
Qed.

Lemma parse_rules_ok values next parsed l : parse_rules sha256 values next parsed = Ok l ->
  NoDup (map rule_id parsed) -> NoDup (map rule_key parsed) -> Forall (valid_rule next) parsed ->
  NoDup (map rule_id l) /\ NoDup (map rule_key l) /\ Forall (valid_rule next) l /\
  length l = length parsed + length values.
Proof.
  revert parsed. induction values as [|v values IH]; intros parsed E Hid Hk Hv; simpl in E.
  - simplify_eq. rewrite !map_rev, <-!Permutation_rev. simpl. split_and!; [done..|lia].
  - destruct (parse_rule sha256 v next) as [rule|] eqn:Er; [|done]. cbn [rbind] in E. apply parse_rule_ok in Er.
    destruct (bool_decide_reflect (rule_id rule ∈ map rule_id parsed)); [done|].
    destruct (bool_decide_reflect (rule_key rule ∈ map rule_key parsed)); [done|]. simpl in E.
    apply IH in E; [|by constructor..]. destruct E as (? & ? & ? & ->). split_and!; [done..|simpl; lia].
Qed.

Context `{!JsonNumberLaws}.

(** Whatever is parsed is well formed. *)
Theorem from_value_well_formed value r : from_value sha256 value = Ok r -> rules_ok r.
Proof.
  unfold from_value. intros E. simpl_result. bool_to_prop.
  match goal with Hp : parse_rules _ _ _ _ = Ok _ |- _ =>
    apply parse_rules_ok in Hp as (? & ? & ? & Hlen); [|constructor..] end.
  assert (a1 <= U64_MAX)%N by (match goal with Hn : number _ "next_generation" = Ok _ |- _ =>
    unfold number in Hn; repeat (case_match; try done); simpl_result; by eapply number_bounded end).
  split; simpl in *; [lia| |done|done|done]. unfold vec_len in *. rewrite Hlen. simpl. lia.
Qed.

Lemma number_field o name n : bt_get o name = Some (VNumber (number_from n)) -> (n <= U64_MAX)%N -> number o name = Ok n.
Proof. unfold number. intros -> Hn. by rewrite number_roundtrip. Qed.

Lemma string_field_ok o name s : bt_get o name = Some (VString s) -> string_field o name = Ok s.
Proof. unfold string_field. by intros ->. Qed.

Lemma parse_rule_value next rule : valid_rule next rule -> (next <= U64_MAX)%N ->
  parse_rule sha256 (rule_value rule) next = Ok rule.
Proof.
  intros (Hid & Hg & [Hc Hd] & Hdi) Hn. destruct rule as [id [kind digest canonical] display decision generation].
  simpl in Hid, Hg, Hc, Hd, Hdi. subst digest. unfold parse_rule.
  set (key := {| key_kind := kind |}). set (rule := {| rule_id := id |}).
  eassert (object (rule_value rule) 5 = Ok _) as -> by reflexivity. cbn [rbind].
  rewrite (number_field _ "id" id), (number_field _ "generation" generation) by (reflexivity || lia). cbn [rbind].
  assert ((id =? 0)%N || (generation <? id)%N || (next <=? generation)%N = false) as ->.
  { rewrite !orb_false_iff, N.eqb_neq, N.ltb_ge, N.leb_gt. lia. }
  eassert (bt_get _ "key" = Some (key_value key)) as -> by reflexivity. cbn [ok_or rbind].
  eassert (object (key_value key) 3 = Ok _) as -> by reflexivity. cbn [rbind].
  rewrite (string_field_ok _ "kind" (kind_text kind)) by reflexivity. cbn [rbind]. rewrite parse_kind_text. cbn [rbind].
  rewrite (string_field_ok _ "canonical" canonical) by reflexivity. cbn [rbind].
  rewrite (proj2 (validate_rule_identity_ok canonical InvalidIdentity tt) Hc). cbn [rbind].
  rewrite (string_field_ok _ "digest" (digest_hex (sha256 canonical))) by reflexivity. cbn [rbind].
  rewrite bool_decide_true by done. cbn [negb].
  rewrite (string_field_ok _ "display_identity" display) by reflexivity. cbn [rbind].
  rewrite (proj2 (validate_rule_identity_ok display InvalidDisplayIdentity tt) Hdi). cbn [rbind].
  rewrite (string_field_ok _ "decision" (decision_text decision)) by reflexivity. cbn [rbind].
  by rewrite parse_decision_text.
Qed.

Lemma parse_rules_value next l : forall parsed, Forall (valid_rule next) l -> (next <= U64_MAX)%N ->
  NoDup (map rule_id (rev parsed ++ l)) -> NoDup (map rule_key (rev parsed ++ l)) ->
  parse_rules sha256 (map rule_value l) next parsed = Ok (rev parsed ++ l).
Proof.
  induction l as [|rule l IH]; intros parsed Hv Hn Hid Hk; simpl; [by rewrite app_nil_r|].
  apply Forall_cons in Hv as [Hr Hv]. rewrite parse_rule_value by done. cbn [rbind].
  assert (forall {B} (f : PermissionRule -> B), NoDup (map f (rev parsed ++ rule :: l)) -> f rule ∉ map f parsed) as Hf.
  { intros B f Hnd Hin. rewrite map_app in Hnd. apply NoDup_app in Hnd as (_ & Hd & _). apply (Hd (f rule)); [|set_solver].
    by rewrite map_rev, <-Permutation_rev. }
  rewrite !bool_decide_false by auto. simpl. rewrite IH; simpl; rewrite <-?(assoc_L (++)); auto.
Qed.

(** C34. A well-formed set is read back from its JSON form unchanged, as long as the
    form fits the envelope of a session. *)
Theorem rules_roundtrip r : rules_ok r -> encodes_within MAX_FILE_SESSION_BYTES (to_ser (to_value r)) = true ->
  from_value sha256 (to_value r) = Ok r.
Proof.
  intros [Hn Hl Hids Hkeys Hv] He. set (v := to_value r) in *. unfold from_value.
  eassert (object v 3 = Ok _) as -> by reflexivity. cbn [rbind].
  rewrite (number_field _ "schema_version" 1) by (reflexivity || (unfold U64_MAX; lia)). cbn [rbind]. cbn [N.eqb Pos.eqb negb].
  rewrite (number_field _ "next_generation" (next_generation r)) by (reflexivity || lia). cbn [rbind].
  destruct (N.eqb_spec (next_generation r) 0); [lia|].
  eassert (array_field _ "rules" = Ok (map rule_value (rules r))) as -> by reflexivity. cbn [rbind].
  destruct r as [next l]. cbn [next_generation rules] in *.
  assert (vec_len (map rule_value l) = vec_len l) as Hml by (unfold vec_len; by rewrite length_map). rewrite Hml.
  destruct (N.ltb_spec MAX_NATIVE_PERMISSION_RULES (vec_len l)); [lia|].
  rewrite (parse_rules_value next l []) by (done || lia). cbn [rbind].
  unfold check_envelope. rewrite He.
  assert ((nodes ← checked_mul (vec_len l) 9; checked_add nodes 4) = Some (vec_len l * 9 + 4)%N) as ->.
  { unfold MAX_NATIVE_PERMISSION_RULES in *. unfold checked_mul, checked_add.
    destruct (N.leb_spec (vec_len l * 9) U64_MAX); [|unfold U64_MAX in *; lia]. simpl.
    destruct (N.leb_spec (vec_len l * 9 + 4) U64_MAX); [done|unfold U64_MAX in *; lia]. }
  destruct (N.leb_spec (vec_len l * 9 + 4) MAX_STORED_JSON_NODES); [done|].
  unfold MAX_NATIVE_PERMISSION_RULES, MAX_STORED_JSON_NODES in *. lia.
Qed.
End Rules.

(** ** A set of rules *)
Definition sample_writer : JsonWriter := fun _ => {| chunks := ["{}"]; ser_error := None |}.
Definition sample_sha (s : string) : string := s.
Definition sample_key (text : string) : RuleKey :=
  {| key_kind := Kind_Command; key_digest := sample_sha text; key_canonical := text |}.

Lemma sample_key_valid text : valid_identity text -> valid_key sample_sha (sample_key text).
Proof. done. Qed.

Lemma default_rules_ok : rules_ok sample_sha SessionRules_default.
Proof. split; simpl; try constructor; vm_compute; discriminate. Qed.

Definition one_rule : SessionRules :=
  {| next_generation := 2;
     rules := [{| rule_id := 1; rule_key := sample_key "ls"; rule_display_identity := "list"; rule_decision := Rule_Allow;
                  rule_generation := 1 |}] |}.

Lemma ls_valid : valid_identity "ls".
Proof. split; [done|]. vm_compute. discriminate. Qed.

Lemma one_rule_ok : rules_ok sample_sha one_rule.
Proof.
  split; simpl; [vm_compute; split; discriminate|vm_compute; discriminate|apply NoDup_singleton|apply NoDup_singleton|].
  constructor; [|done]. split; [simpl; lia|]. split; [simpl; lia|]. split; [apply sample_key_valid, ls_valid|].
  split; [done|]. vm_compute. discriminate.
Qed.

Lemma apply_set_correct_witness :
  @apply_set sample_writer SessionRules_default (sample_key "ls") "list" Rule_Allow None = Ok one_rule /\
  rules_ok sample_sha one_rule /\ rule_for_key one_rule (sample_key "ls") <> None.
Proof.
  pose proof (@apply_set_correct sample_sha sample_writer SessionRules_default (sample_key "ls") "list" Rule_Allow None
    default_rules_ok (sample_key_valid _ ls_valid)) as Hs.
  assert (@apply_set sample_writer SessionRules_default (sample_key "ls") "list" Rule_Allow None = Ok one_rule) as E
    by (vm_compute; reflexivity).
  rewrite E in Hs. destruct Hs as (Hok & _ & _ & Hk & _). split_and!; [exact E|exact Hok|by rewrite Hk].
Defined.

Lemma apply_revoke_correct_witness :
  @apply_revoke sample_writer one_rule 1 1 = Ok {| next_generation := 3; rules := [] |} /\
  @apply_revoke sample_writer one_rule 1 7 = Err Stale /\ rules_ok sample_sha {| next_generation := 3; rules := [] |}.
Proof.
  pose proof (@apply_revoke_correct sample_sha sample_writer one_rule 1 1 one_rule_ok) as Hs.
  assert (@apply_revoke sample_writer one_rule 1 1 = Ok {| next_generation := 3; rules := [] |}) as E by (vm_compute; reflexivity).
  rewrite E in Hs. destruct Hs as (Hok & _). split_and!; [exact E|vm_compute; reflexivity|exact Hok].
Defined.

Definition two_rules : SessionRules :=
  {| next_generation := 3;
     rules := rules one_rule ++ [{| rule_id := 2; rule_key := sample_key "rm"; rule_display_identity := "remove";
                                    rule_decision := Rule_Deny; rule_generation := 2 |}] |}.

Lemma one_change : rtc (@change sample_sha sample_writer) one_rule two_rules.
Proof.
  eapply rtc_l; [|apply rtc_refl]. eapply (change_set _ _ _ (sample_key "rm") "remove" Rule_Deny None).
  - apply sample_key_valid. split; [done|]. vm_compute. discriminate.
  - vm_compute. reflexivity.
Qed.

Lemma generations_identify_witness :
  from_option rule_decision Rule_Deny (rule_for_key one_rule (sample_key "ls")) = Rule_Allow /\
  rule_for_key one_rule (sample_key "ls") = rule_for_key two_rules (sample_key "ls").
Proof.
  split; [vm_compute; reflexivity|].
  destruct (rule_for_key one_rule (sample_key "ls")) as [x|] eqn:Hx; [|by vm_compute in Hx].
  destruct (rule_for_key two_rules (sample_key "ls")) as [y|] eqn:Hy; [|by vm_compute in Hy].
  f_equal. apply (@generations_identify sample_sha sample_writer one_rule two_rules _ x y one_rule_ok one_change Hx Hy).
  vm_compute in Hx, Hy. by simplify_eq.
Defined.

Lemma rules_roundtrip_witness :
  @from_value decimal_numbers sample_sha sample_writer (@to_value decimal_numbers one_rule) = Ok one_rule.
Proof.
  apply (@rules_roundtrip decimal_numbers sample_sha sample_writer decimal_number_laws one_rule one_rule_ok).
  vm_compute. reflexivity.
Defined.

Lemma from_value_well_formed_witness : rules_ok sample_sha one_rule.
Proof.
  apply (@from_value_well_formed decimal_numbers sample_sha sample_writer decimal_number_laws (@to_value decimal_numbers one_rule)).
  vm_compute. reflexivity.
Defined.
