(* ===== verification/Lifecycle.v ===== *)
(** * The lifecycle fence of a conversation ([conversation_lifecycle.rs], [conversation_routes.rs])

    The gate that admits operations on a conversation, fences them while the
    conversation quiesces and closes for good when it retires; and the barrier that
    publishes the routes of a prepared conversation. The gate is a mutex, so each
    operation is a function of its state. Permits, quiescence guards and waits are
    handles: the system of a gate and its handles is a step relation, and its
    invariant is proved by induction on steps. *)
From S2P Require Import Prelude.

Definition MAX_PERMITS : N := 256.

(** ** Publication of routes *)
Inductive Publication := STAGED | ACTIVE | RETIRED.
#[export] Instance Publication_eq_dec : EqDecision Publication.
Proof. solve_decision. Defined.

Definition is_staged (p : Publication) : bool := bool_decide (p = STAGED).
Definition is_active_route (p : Publication) : bool := bool_decide (p = ACTIVE).
Definition conflicts_with (p existing : Publication) : bool := negb (is_staged p) || negb (is_active_route existing).
(** The answer and the publication after it. *)
Definition activate (p : Publication) : bool * Publication :=
  match p with STAGED => (true, ACTIVE) | ACTIVE => (true, ACTIVE) | RETIRED => (false, RETIRED) end.

(** ** The gate *)
Inductive LifecyclePhase := Open | Quiescing | Retired.
#[export] Instance LifecyclePhase_eq_dec : EqDecision LifecyclePhase.
Proof. solve_decision. Defined.

Inductive LifecycleError := Err_Quiescing | Err_Retired | Err_Busy | Err_Exhausted | Err_Stale.

(** The waker of a wait is a number. *)
Record Gate := {
  g_phase : LifecyclePhase;
  g_generation : N;
  g_permits : N;
  g_waiter : option N;
  g_publication : option Publication;
}.

Definition Gate_new : Gate :=
  {| g_phase := Open; g_generation := 0; g_permits := 0; g_waiter := None; g_publication := None |}.

Definition with_permits (g : Gate) (permits : N) (waiter : option N) : Gate :=
  {| g_phase := g_phase g; g_generation := g_generation g; g_permits := permits; g_waiter := waiter;
     g_publication := g_publication g |}.
Definition with_phase (g : Gate) (phase : LifecyclePhase) (generation : N) (waiter : option N) : Gate :=
  {| g_phase := phase; g_generation := generation; g_permits := g_permits g; g_waiter := waiter;
     g_publication := g_publication g |}.
Definition with_publication (g : Gate) (p : option Publication) : Gate :=
  {| g_phase := g_phase g; g_generation := g_generation g; g_permits := g_permits g; g_waiter := g_waiter g;
     g_publication := p |}.

(** A permit is the generation it was acquired in. *)
Definition acquire_inner (preparation : bool) (g : Gate) : result (N * Gate) LifecycleError :=
  match g_phase g with
  | Quiescing => Err Err_Quiescing
  | Retired => Err Err_Retired
  | Open =>
      let available :=
        match g_publication g with
        | None => negb preparation
        | Some p => if preparation then is_staged p else is_active_route p
        end in
      fail_if negb available with Err_Quiescing in
      fail_if (g_permits g =? MAX_PERMITS)%N with Err_Busy in
      Ok (g_generation g, with_permits g (g_permits g + 1) (g_waiter g))
  end.

Definition publish_routes (g : Gate) : bool * Gate :=
  if bool_decide (g_phase g = Open) && (g_permits g =? 0)%N then
    match g_publication g with
    | Some p => let '(ok, p) := activate p in (ok, with_publication g (Some p))
    | None => (false, g)
    end
  else (false, g).

(** [None] is the failed assertion. *)
Definition bind_publication (p : Publication) (g : Gate) : option Gate :=
  match g_publication g with None => Some (with_publication g (Some p)) | Some _ => None end.

(** The generation of the new guard. *)
Definition begin_quiescence (g : Gate) : result (N * Gate) LifecycleError :=
  match g_phase g with
  | Quiescing => Err Err_Quiescing
  | Retired => Err Err_Retired
  | Open =>
      let? generation := ok_or Err_Exhausted (checked_add (g_generation g) 1) in
      Ok (generation, with_phase g Quiescing generation (g_waiter g))
  end.

Definition was_quiesced (permit : N) (g : Gate) : bool := negb (g_generation g =? permit)%N.

(** [Drop for LifecyclePermit]: the waker it wakes; [None] is the underflow. *)
Definition permit_drop (g : Gate) : option (option N * Gate) :=
  permits ← checked_sub (g_permits g) 1;
  if (permits =? 0)%N then Some (g_waiter g, with_permits g permits None)
  else Some (None, with_permits g permits (g_waiter g)).

(** A quiescence guard; [q_wait] is its wait, once polled, with the waker it is
    parked under. *)
Record Guard := { q_generation : N; q_retired : bool; q_wait : option (option N) }.

Definition fenced (q : Guard) (g : Gate) : bool :=
  bool_decide (g_phase g = Quiescing) && (g_generation g =? q_generation q)%N.

Definition check_idle (q : Guard) (g : Gate) : result unit LifecycleError :=
  fail_if q_retired q || negb (fenced q g) with Err_Stale in
  fail_if negb (g_permits g =? 0)%N with Err_Busy in
  Ok tt.

Definition try_retire (q : Guard) (g : Gate) : result (Guard * option N * Gate) LifecycleError :=
  fail_if negb (fenced q g) with Err_Stale in
  fail_if negb (g_permits g =? 0)%N with Err_Busy in
  Ok ({| q_generation := q_generation q; q_retired := true; q_wait := q_wait q |}, g_waiter g,
      with_phase g Retired (g_generation g) None).

(** [LifecycleContinuation::acquire] with the generation of the continuation *)
Definition continuation_acquire (generation : N) (g : Gate) : result (N * Gate) LifecycleError :=
  fail_if negb (bool_decide (g_phase g = Quiescing) && (g_generation g =? generation)%N) with Err_Stale in
  fail_if (g_permits g =? MAX_PERMITS)%N with Err_Busy in
  Ok (generation, with_permits g (g_permits g + 1) (g_waiter g)).

(** [Drop for LifecycleQuiescence] *)
Definition quiescence_drop (q : Guard) (g : Gate) : option N * Gate :=
  if q_retired q || negb (fenced q g) then (None, g)
  else (g_waiter g, with_phase g Open (g_generation g) None).

(** A poll of [IdleWait]: [None] is [Pending]. *)
Definition idle_poll (q : Guard) (waker : N) (g : Gate) : option (result unit LifecycleError) * Gate :=
  if negb (fenced q g) then (Some (Err Err_Stale), g)
  else if (g_permits g =? 0)%N then (Some (Ok tt), g)
  else (None, with_permits g (g_permits g) (Some waker)).

(** [Drop for IdleWait] *)
Definition idle_drop (q : Guard) (g : Gate) : Gate :=
  if (g_generation g =? q_generation q)%N then with_permits g (g_permits g) None else g.

(** ** A gate and its handles *)
Record System := { sys_gate : Gate; sys_permits : list N; sys_guards : list Guard }.

Definition System_new : System := {| sys_gate := Gate_new; sys_permits := []; sys_guards := [] |}.

Definition set_wait (q : Guard) (wait : option (option N)) : Guard :=
  {| q_generation := q_generation q; q_retired := q_retired q; q_wait := wait |}.

(** What a poll leaves of the wait: parked under its waker when it is pending. *)
Definition parked_under (waker : N) (r : option (result unit LifecycleError)) : option N :=
  match r with None => Some waker | Some _ => None end.

(** A wait that is woken is no longer parked. *)
Definition woken (wake : option N) (q : Guard) : Guard :=
  if bool_decide (is_Some wake) && bool_decide (q_wait q = Some wake) then set_wait q (Some None) else q.

(** A wait borrows its guard: the guard is retired or dropped only without one. The
    last argument is the waker that is woken. *)
Inductive lifecycle_step : System -> System -> option N -> Prop :=
| step_acquire preparation g permits guards permit g' :
    acquire_inner preparation g = Ok (permit, g') ->
    lifecycle_step {| sys_gate := g; sys_permits := permits; sys_guards := guards |}
                   {| sys_gate := g'; sys_permits := permit :: permits; sys_guards := guards |} None
| step_continue generation g permits guards permit g' :
    continuation_acquire generation g = Ok (permit, g') ->
    lifecycle_step {| sys_gate := g; sys_permits := permits; sys_guards := guards |}
                   {| sys_gate := g'; sys_permits := permit :: permits; sys_guards := guards |} None
| step_permit_drop before permit after g guards wake g' :
    permit_drop g = Some (wake, g') ->
    lifecycle_step {| sys_gate := g; sys_permits := before ++ permit :: after; sys_guards := guards |}
                   {| sys_gate := g'; sys_permits := before ++ after; sys_guards := map (woken wake) guards |} wake
| step_begin g permits guards generation g' :
    begin_quiescence g = Ok (generation, g') ->
    lifecycle_step {| sys_gate := g; sys_permits := permits; sys_guards := guards |}
                   {| sys_gate := g'; sys_permits := permits;
                      sys_guards := {| q_generation := generation; q_retired := false; q_wait := None |} :: guards |} None
| step_retire g permits before q after q' wake g' :
    q_wait q = None -> try_retire q g = Ok (q', wake, g') ->
    lifecycle_step {| sys_gate := g; sys_permits := permits; sys_guards := before ++ q :: after |}
                   {| sys_gate := g'; sys_permits := permits; sys_guards := before ++ q' :: after |} wake
| step_guard_drop g permits before q after wake g' :
    q_wait q = None -> quiescence_drop q g = (wake, g') ->
    lifecycle_step {| sys_gate := g; sys_permits := permits; sys_guards := before ++ q :: after |}
                   {| sys_gate := g'; sys_permits := permits; sys_guards := before ++ after |} wake
| step_idle_poll g permits before q after waker r g' :
    idle_poll q waker g = (r, g') ->
    lifecycle_step {| sys_gate := g; sys_permits := permits; sys_guards := before ++ q :: after |}
                   {| sys_gate := g'; sys_permits := permits;
                      sys_guards := before ++ set_wait q (Some (parked_under waker r)) :: after |} None
| step_idle_drop g permits before q after parked :
    q_wait q = Some parked ->
    lifecycle_step {| sys_gate := g; sys_permits := permits; sys_guards := before ++ q :: after |}
                   {| sys_gate := idle_drop q g; sys_permits := permits; sys_guards := before ++ set_wait q None :: after |} None
| step_publish g permits guards ok g' :
    publish_routes g = (ok, g') ->
    lifecycle_step {| sys_gate := g; sys_permits := permits; sys_guards := guards |}
                   {| sys_gate := g'; sys_permits := permits; sys_guards := guards |} None
| step_bind g permits guards p g' :
    bind_publication p g = Some g' ->
    lifecycle_step {| sys_gate := g; sys_permits := permits; sys_guards := guards |}
                   {| sys_gate := g'; sys_permits := permits; sys_guards := guards |} None
| step_retire_routes g permits guards p :
    g_publication g = Some p ->
    lifecycle_step {| sys_gate := g; sys_permits := permits; sys_guards := guards |}
                   {| sys_gate := with_publication g (Some RETIRED); sys_permits := permits; sys_guards := guards |} None.

Inductive reachable : System -> Prop :=
| reachable_new : reachable System_new
| reachable_step s s' wake : reachable s -> lifecycle_step s s' wake -> reachable s'.

(** ** The invariant *)
(** What a phase says of the guards, the permits and the registered waker. *)
Definition phase_ok (s : System) : Prop :=
  match g_phase (sys_gate s) with
  | Open => sys_guards s = [] /\ g_waiter (sys_gate s) = None
  | Quiescing => exists q, sys_guards s = [q] /\ q_retired q = false /\ q_generation q = g_generation (sys_gate s) /\
      (forall w, q_wait q = Some (Some w) -> g_waiter (sys_gate s) = Some w /\ sys_permits s <> []) /\
      (g_waiter (sys_gate s) <> None -> exists w, q_wait q = Some (Some w))
  | Retired => sys_permits s = [] /\ g_waiter (sys_gate s) = None /\ length (sys_guards s) <= 1 /\
      Forall (fun q => q_retired q = true /\ forall w, q_wait q <> Some (Some w)) (sys_guards s)
  end.

Record lifecycle_inv (s : System) : Prop := {
  li_permits : g_permits (sys_gate s) = vec_len (sys_permits s);
  li_bound : (g_permits (sys_gate s) <= MAX_PERMITS)%N;
  li_generations : Forall (fun p => (p <= g_generation (sys_gate s))%N) (sys_permits s);
  li_phase : phase_ok s;
}.

Lemma fenced_true q g : fenced q g = true <-> g_phase g = Quiescing /\ g_generation g = q_generation q.
Proof. unfold fenced. by rewrite andb_true_iff, bool_decide_eq_true, N.eqb_eq. Qed.

Lemma singleton_middle {A} (before after : list A) x y : before ++ x :: after = [y] -> before = [] /\ after = [] /\ x = y.
Proof. destruct before as [|? []]; naive_solver. Qed.

Lemma permit_drop_spec g wake g' : permit_drop g = Some (wake, g') ->
  exists n, g_permits g = (n + 1)%N /\
    ((n = 0%N /\ wake = g_waiter g /\ g' = with_permits g 0 None) \/
     (n <> 0%N /\ wake = None /\ g' = with_permits g n (g_waiter g))).
Proof.
  unfold permit_drop. destruct (checked_sub _ _) as [n|] eqn:E; [|done]. apply checked_sub_Some in E as [-> E].
  simpl. intros Hd. exists (g_permits g - 1)%N. split; [lia|]. destruct (N.eqb_spec (g_permits g - 1) 0); simplify_eq; [left|by right].
  split_and!; [done|done|]. congruence.
Qed.

(** The publication of the routes is not part of the fence. *)
Lemma inv_publication g permits guards p :
  lifecycle_inv {| sys_gate := g; sys_permits := permits; sys_guards := guards |} ->
  lifecycle_inv {| sys_gate := with_publication g p; sys_permits := permits; sys_guards := guards |}.
Proof. intros []. by split. Qed.

(** A further permit, in a phase that is not final. *)
Lemma inv_acquire g permits guards permit :
  lifecycle_inv {| sys_gate := g; sys_permits := permits; sys_guards := guards |} ->
  g_phase g <> Retired -> g_permits g <> MAX_PERMITS -> (permit <= g_generation g)%N ->
  lifecycle_inv {| sys_gate := with_permits g (g_permits g + 1) (g_waiter g);
                   sys_permits := permit :: permits; sys_guards := guards |}.
Proof.
  intros [Hn Hb Hg Hp] Hr Hm Hle. split; simpl in *; [| lia | by constructor |].
  - rewrite Hn. unfold vec_len. simpl. lia.
  - unfold phase_ok in *. simpl in *. destruct (g_phase g); [done| |done].
    destruct Hp as (q & -> & ? & ? & Hq & ?). exists q. split_and!; try done. intros w Hw. by destruct (Hq w Hw).
Qed.

Lemma inv_permit_drop g before permit after guards wake g' :
  lifecycle_inv {| sys_gate := g; sys_permits := before ++ permit :: after; sys_guards := guards |} ->
  permit_drop g = Some (wake, g') ->
  lifecycle_inv {| sys_gate := g'; sys_permits := before ++ after; sys_guards := map (woken wake) guards |}.
Proof.
  intros [Hn Hb Hg Hp] (n & Hpn & Hd)%permit_drop_spec. simpl in *.
  assert (n = vec_len (before ++ after)) as Hlen.
  { unfold vec_len in *. rewrite Hpn, length_app in Hn. rewrite length_app. simpl in Hn. lia. }
  rewrite Forall_app, Forall_cons in Hg. destruct Hg as (Hg1 & _ & Hg2).
  split; [destruct Hd as [(? & ? & ->)|(? & ? & ->)]; simpl; congruence
         | destruct Hd as [(? & ? & ->)|(? & ? & ->)]; simpl; lia
         | destruct Hd as [(? & ? & ->)|(? & ? & ->)]; simpl; by apply Forall_app |].
  assert (before ++ after = [] <-> n = 0%N) as Hz by (rewrite Hlen; unfold vec_len; destruct (before ++ after); simpl; [done|split; [done|lia]]).
  unfold phase_ok in *. simpl in *. destruct Hd as [(-> & -> & ->)|(Hn0 & -> & ->)]; simpl.
  - destruct (g_phase g).
    + by destruct Hp as [-> _].
    + destruct Hp as (q & -> & Hr & Hge & Hq & Hw). exists (woken (g_waiter g) q). unfold woken.
      destruct (g_waiter g) as [w|] eqn:Ew; simpl.
      * destruct Hw as [w' Hw']; [done|]. destruct (Hq w' Hw') as [? _]. simplify_eq.
        rewrite Hw', bool_decide_true by done. by split_and!.
      * split_and!; try done. intros w Hw'. by destruct (Hq w Hw') as [? _].
    + destruct Hp as [He ?]. by destruct before.
  - replace (map (woken None) guards) with guards by (by rewrite <-(list_fmap_id guards) at 1).
    destruct (g_phase g); [done| |destruct Hp as [He ?]; by destruct before].
    destruct Hp as (q & -> & ? & ? & Hq & ?). exists q. split_and!; try done. intros w Hw. destruct (Hq w Hw).
    split; [done|]. by rewrite Hz.
Qed.

(** One step of a guard that is one of the guards: it is the only one. *)
Lemma inv_guard g permits before q after :
  lifecycle_inv {| sys_gate := g; sys_permits := permits; sys_guards := before ++ q :: after |} ->
  before = [] /\ after = [] /\ (fenced q g = negb (q_retired q)).
Proof.
  intros [_ _ _ Hp]. unfold phase_ok in Hp. simpl in Hp. unfold fenced. destruct (g_phase g) eqn:Ep.
  - destruct Hp as [Hp _]. by destruct before.
  - destruct Hp as (q' & (-> & -> & ->)%singleton_middle & -> & -> & _). split_and!; [done..|]. by rewrite N.eqb_refl.
  - destruct Hp as (_ & _ & Hl & Hf). rewrite length_app in Hl. simpl in Hl.
    destruct before, after; simpl in *; try lia. apply Forall_singleton in Hf as [-> _]. done.
Qed.

Lemma inv_idle_poll g permits q waker r g' :
  lifecycle_inv {| sys_gate := g; sys_permits := permits; sys_guards := [q] |} ->
  idle_poll q waker g = (r, g') ->
  lifecycle_inv {| sys_gate := g'; sys_permits := permits; sys_guards := [set_wait q (Some (parked_under waker r))] |}.
Proof.
  intros Hi Hpoll. destruct (inv_guard g permits [] q [] Hi) as (_ & _ & Hf). unfold idle_poll in Hpoll. rewrite Hf in Hpoll.
  destruct Hi as [Hn Hb Hg Hp]. unfold phase_ok in Hp. simpl in *.
  destruct (g_phase g) eqn:Ep; [by destruct Hp| |].
  - destruct Hp as (q' & ? & Hr & Hge & Hq & Hw). simplify_eq. rewrite Hr in Hpoll. simpl in Hpoll.
    destruct (N.eqb_spec (g_permits g) 0) as [H0|H0]; simplify_eq; (split; simpl; try done); unfold phase_ok; simpl; rewrite Ep;
      eexists; (split_and!; [reflexivity|done|done| |]); simpl; try done.
    + intros Hne. destruct (Hw Hne) as [w Hw']. destruct (Hq w Hw') as [_ []].
      unfold vec_len in Hn. destruct permits; [done|simpl in *; lia].
    + intros w [= <-]. split; [done|]. intros ->. by apply H0.
    + by exists waker.
  - destruct Hp as (-> & Hw & _ & Hr). rewrite Forall_singleton in Hr. destruct Hr as [Hr _]. rewrite Hr in Hpoll. simplify_eq/=.
    split; try done. unfold phase_ok. simpl. rewrite Ep. split_and!; try done. by rewrite Forall_singleton.
Qed.

Lemma inv_idle_drop g permits q :
  lifecycle_inv {| sys_gate := g; sys_permits := permits; sys_guards := [q] |} ->
  lifecycle_inv {| sys_gate := idle_drop q g; sys_permits := permits; sys_guards := [set_wait q None] |}.
Proof.
  intros [Hpn Hb Hg Hp]. unfold idle_drop, phase_ok in *. simpl in *.
  destruct (g_phase g) eqn:Ep; [by destruct Hp| |].
  - destruct Hp as (q' & ? & Hr & Hge & Hq & Hw). simplify_eq. rewrite Hge, N.eqb_refl. split; simpl; try done.
    unfold phase_ok. simpl. rewrite Ep. by eexists.
  - destruct Hp as (-> & Hw & _ & Hr). rewrite Forall_singleton in Hr. destruct Hr as [Hr _].
    case_match; (split; simpl; try done); unfold phase_ok; simpl; rewrite Ep; split_and!; try done; by apply Forall_singleton.
Qed.

Lemma lifecycle_inv_step s s' wake : lifecycle_inv s -> lifecycle_step s s' wake -> lifecycle_inv s'.
Proof.
  intros Hi Hs. inversion Hs as [prep g ps qs p g' Ha|gen g ps qs p g' Ha|before p after g qs w g' Hd|g ps qs gen g' Hb
    |g ps before q after q' w g' Hn Ht|g ps before q after w g' Hn Hd|g ps before q after w r g' Hp|g ps before q after b Hn
    |g ps qs ok g' Hp|g ps qs p g' Hp|g ps qs p Hp]; subst; clear Hs.
  - unfold acquire_inner in Ha. destruct (g_phase g) eqn:Ep; [|done..]. repeat case_match; try done; simplify_eq;
      (apply inv_acquire; [done|by rewrite Ep|by apply N.eqb_neq|done]).
  - unfold continuation_acquire in Ha. destruct (bool_decide_reflect (g_phase g = Quiescing)) as [Ep|]; [|done].
    destruct (N.eqb_spec (g_generation g) gen) as [Eg|]; [|done]. simpl in Ha. repeat case_match; try done; simplify_eq.
    apply inv_acquire; [done|by rewrite Ep|by apply N.eqb_neq|lia].
  - by eapply inv_permit_drop.
  - destruct Hi as [Hn Hbo Hg Hp]. unfold begin_quiescence, phase_ok in *. simpl in *. destruct (g_phase g); [|done..].
    destruct (checked_add _ _) as [m|] eqn:Ea; [|done]. apply checked_add_Some in Ea as [-> ?]. simpl in Hb. simplify_eq.
    destruct Hp as [-> Hw]. split; simpl; try done; [eapply Forall_impl; [done|]; simpl; lia|].
    unfold phase_ok. simpl. eexists. split_and!; [done..|]. by rewrite Hw.
  - destruct (inv_guard _ _ _ _ _ Hi) as (-> & -> & Hf). unfold try_retire in Ht. destruct (fenced q g) eqn:Ef; [|done].
    simpl in Ht. destruct (N.eqb_spec (g_permits g) 0) as [H0|]; [|done]. simpl in Ht. simplify_eq.
    destruct Hi as [Hpn Hb Hg _]. simpl in *. assert (ps = []) as ->.
    { unfold vec_len in Hpn. destruct ps; [done|simpl in *; lia]. }
    split; simpl; try done. unfold phase_ok. simpl. split_and!; try done. apply Forall_singleton. simpl. rewrite Hn. done.
  - destruct (inv_guard _ _ _ _ _ Hi) as (-> & -> & Hf). unfold quiescence_drop in Hd. rewrite Hf in Hd. destruct Hi as [Hpn Hb Hg Hp].
    unfold phase_ok in Hp. simpl in *. destruct (q_retired q) eqn:Er; simpl in Hd; simplify_eq; (split; simpl; try done).
    unfold phase_ok. simpl. destruct (g_phase g'); [by destruct Hp| |].
    + destruct Hp as (q' & ? & ? & _). simplify_eq. congruence.
    + destruct Hp as (? & ? & _ & _). split_and!; try done. simpl. lia.
  - destruct (inv_guard _ _ _ _ _ Hi) as (-> & -> & Hf). by eapply inv_idle_poll.
  - destruct (inv_guard _ _ _ _ _ Hi) as (-> & -> & _). by apply inv_idle_drop.
  - unfold publish_routes in Hp. repeat case_match; simplify_eq; try done; by apply inv_publication.
  - unfold bind_publication in Hp. case_match; simplify_eq. by apply inv_publication.
  - by apply inv_publication.
Qed.

Lemma reachable_inv s : reachable s -> lifecycle_inv s.
Proof.
  induction 1 as [|s s' wake _ IH Hs]; [|by eapply lifecycle_inv_step]. by split.
Qed.

Lemma parked_registered s q w : lifecycle_inv s -> q ∈ sys_guards s -> q_wait q = Some (Some w) ->
  g_waiter (sys_gate s) = Some w /\ sys_permits s <> [].
Proof.
  intros [_ _ _ Hp] Hq Hw. unfold phase_ok in Hp. destruct (g_phase _).
  - destruct Hp as [He _]. rewrite He in Hq. by apply elem_of_nil in Hq.
  - destruct Hp as (q' & He & _ & _ & Hq' & _). rewrite He in Hq. apply list_elem_of_singleton in Hq as ->. by apply Hq'.
  - destruct Hp as (_ & _ & _ & Hf). rewrite Forall_forall in Hf. destruct (Hf q Hq) as [_ Hnw]. by destruct (Hnw w).
Qed.

Lemma retired_step s s' wake : lifecycle_step s s' wake -> g_phase (sys_gate s) = Retired -> g_phase (sys_gate s') = Retired.
Proof.
  destruct 1 as [prep g ps qs p g' Ha|gen g ps qs p g' Ha|before p after g qs w g' Hd|g ps qs gen g' Hb
    |g ps before q after q' w g' Hn Ht|g ps before q after w g' Hn Hd|g ps before q after w r g' Hp|g ps before q after b Hn
    |g ps qs ok g' Hp|g ps qs p g' Hp|g ps qs p Hp]; simpl; intros Hr.
  - unfold acquire_inner in Ha. by rewrite Hr in Ha.
  - unfold continuation_acquire in Ha. by rewrite Hr in Ha.
  - apply permit_drop_spec in Hd as (? & _ & [(_ & _ & ->)|(_ & _ & ->)]); done.
  - unfold begin_quiescence in Hb. by rewrite Hr in Hb.
  - unfold try_retire, fenced in Ht. by rewrite Hr in Ht.
  - unfold quiescence_drop, fenced in Hd. rewrite Hr, orb_true_r in Hd. by simplify_eq.
  - unfold idle_poll, fenced in Hp. rewrite Hr in Hp. by simplify_eq/=.
  - unfold idle_drop. by case_match.
  - unfold publish_routes in Hp. rewrite Hr in Hp. by simplify_eq/=.
  - unfold bind_publication in Hp. case_match; by simplify_eq/=.
  - done.
Qed.

(** What the phase of a gate says of its handles, in every reachable state. *)
Definition handles_agree (s : System) : Prop :=
  match g_phase (sys_gate s) with
  | Open => sys_guards s = []
  | Quiescing => exists q, sys_guards s = [q] /\ q_retired q = false /\ q_generation q = g_generation (sys_gate s)
  | Retired => sys_permits s = [] /\ Forall (fun q => q_retired q = true) (sys_guards s)
  end.

(** C36. In every state the gate and its handles reach, the count is the number of live
    permits and at most 256, so dropping a permit never underflows; the phase agrees with
    the guards, so at most one guard holds the fence; a permit is of the current or an
    earlier generation; and a wait is parked only while a permit is live, with its waker
    registered. *)
Theorem lifecycle_sound (s : System) : reachable s ->
  g_permits (sys_gate s) = vec_len (sys_permits s) /\ (vec_len (sys_permits s) <= 256)%N /\
  (sys_permits s <> [] -> is_Some (permit_drop (sys_gate s))) /\
  Forall (fun p => (p <= g_generation (sys_gate s))%N) (sys_permits s) /\ handles_agree s /\
  (forall q w, q ∈ sys_guards s -> q_wait q = Some (Some w) -> g_waiter (sys_gate s) = Some w /\ sys_permits s <> []).
Proof.
  intros [Hn Hb Hg Hp]%reachable_inv. rewrite <-Hn. split_and!; try done.
  - intros Hne. unfold permit_drop. rewrite Hn. unfold vec_len. destruct (sys_permits s) as [|p ps]; [done|]. simpl length.
    unfold checked_sub. destruct (N.leb_spec 1 (N.of_nat (S (length ps)))); [|lia]. simpl. by case_match.
  - unfold handles_agree, phase_ok in *. destruct (g_phase _); [by destruct Hp|naive_solver|].
    destruct Hp as (? & _ & _ & Hf). split; [done|]. eapply Forall_impl; [exact Hf|]. by intros q [].
  - intros q w. by apply parked_registered.
Qed.

(** Retirement is final: whatever happens to the handles of a retired conversation, it
    stays retired, no permit is live, and neither an ordinary operation nor a continuation
    of its last quiescence is admitted. *)
Theorem retirement_final (s s' : System) : reachable s -> g_phase (sys_gate s) = Retired ->
  rtc (fun a b => exists wake, lifecycle_step a b wake) s s' ->
  g_phase (sys_gate s') = Retired /\ sys_permits s' = [] /\
  (forall preparation, acquire_inner preparation (sys_gate s') = Err Err_Retired) /\
  (forall generation, continuation_acquire generation (sys_gate s') = Err Err_Stale) /\
  begin_quiescence (sys_gate s') = Err Err_Retired.
Proof.
  intros Hs Hr Hst. assert (reachable s' /\ g_phase (sys_gate s') = Retired) as [Hs' Hr'].
  { induction Hst as [|a b c [wake Hab] _ IH]; [done|]. apply IH; [by eapply reachable_step|by eapply retired_step]. }
  split_and!; [done| | | |].
  - apply reachable_inv, li_phase in Hs'. unfold phase_ok in Hs'. rewrite Hr' in Hs'. by destruct Hs'.
  - intros prep. unfold acquire_inner. by rewrite Hr'.
  - intros gen. unfold continuation_acquire. by rewrite Hr'.
  - unfold begin_quiescence. by rewrite Hr'.
Qed.

(** No wake-up is lost: the step after which no permit is live wakes the wait that
    is parked under the fence. *)
Theorem idle_wait_woken (s s' : System) (wake : option N) (q : Guard) (w : N) :
  reachable s -> lifecycle_step s s' wake -> q ∈ sys_guards s -> q_wait q = Some (Some w) ->
  sys_permits s' = [] -> wake = Some w.
Proof.
  intros Hr%reachable_inv Hs Hq Hw He. destruct (parked_registered s q w) as [Hwait Hne]; [done..|].
  apply li_permits in Hr.
  destruct Hs as [| |before p after g qs wk g' Hd| | | | | | | |]; simpl in *; try done.
  apply app_nil in He as [-> ->]. apply permit_drop_spec in Hd as (n & Hn & [(_ & -> & _)|(H0 & _)]); [done|].
  rewrite Hr in Hn. unfold vec_len in Hn. simpl in Hn. lia.
Qed.

(** ** A conversation that quiesces with one permit live *)
Definition parked_system : System :=
  {| sys_gate := {| g_phase := Quiescing; g_generation := 1; g_permits := 1; g_waiter := Some 7%N; g_publication := None |};
     sys_permits := [0%N];
     sys_guards := [{| q_generation := 1; q_retired := false; q_wait := Some (Some 7%N) |}] |}.

Lemma parked_system_reachable : reachable parked_system.
Proof.
  eapply reachable_step;
    [eapply reachable_step; [eapply reachable_step; [apply reachable_new|]|]|].
  - by apply (step_acquire false Gate_new [] []).
  - by eapply step_begin.
  - by apply (step_idle_poll {| g_phase := Quiescing; g_generation := 1; g_permits := 1; g_waiter := None; g_publication := None |}
      [0%N] [] {| q_generation := 1; q_retired := false; q_wait := None |} [] 7 None).
Qed.

Definition retired_system : System :=
  {| sys_gate := {| g_phase := Retired; g_generation := 1; g_permits := 0; g_waiter := None; g_publication := None |};
     sys_permits := []; sys_guards := [{| q_generation := 1; q_retired := true; q_wait := None |}] |}.

Lemma idle_system_step : lifecycle_step parked_system
  {| sys_gate := {| g_phase := Quiescing; g_generation := 1; g_permits := 0; g_waiter := None; g_publication := None |};
     sys_permits := []; sys_guards := [{| q_generation := 1; q_retired := false; q_wait := Some None |}] |} (Some 7%N).
Proof. by apply (step_permit_drop [] 0 [] (sys_gate parked_system) (sys_guards parked_system) (Some 7%N)). Qed.

Lemma retired_system_reachable : reachable retired_system.
Proof.
  eapply reachable_step; [eapply reachable_step; [eapply reachable_step|]|].
  - exact parked_system_reachable.
  - exact idle_system_step.
  - by apply (step_idle_drop _ _ [] _ [] None).
  - by apply (step_retire {| g_phase := Quiescing; g_generation := 1; g_permits := 0; g_waiter := None; g_publication := None |}
      [] [] {| q_generation := 1; q_retired := false; q_wait := None |} [] {| q_generation := 1; q_retired := true; q_wait := None |} None).
Qed.

Lemma lifecycle_sound_witness : is_Some (permit_drop (sys_gate parked_system)).
Proof. apply (lifecycle_sound parked_system); [exact parked_system_reachable | discriminate]. Defined.

Lemma retirement_final_witness : sys_permits retired_system = [].
Proof. apply (retirement_final retired_system retired_system); [exact retired_system_reachable | reflexivity | apply rtc_refl]. Defined.

Lemma idle_wait_woken_witness : Some 7%N = Some 7%N.
Proof.
  eapply (idle_wait_woken parked_system _ (Some 7%N) {| q_generation := 1; q_retired := false; q_wait := Some (Some 7%N) |} 7);
    [exact parked_system_reachable | exact idle_system_step | apply list_elem_of_singleton; reflexivity | reflexivity | reflexivity].
Defined.
