(* ===== verification/Controller.v ===== *)
(** * The permission controller ([permission_controller.rs], [permission_controller/rules.rs])

    The owner of native permission policy: routes from requests to the owners of
    live sessions, the turn a session runs with the policy it was taken with, the
    grants a prompt left, the proofs of execution that are checked again before
    every effect, and the two-phase publication of a saved rule. The state of an
    owner is under a mutex and a step is one of its critical sections. Owners,
    attempts, sessions, lifecycle gates, route publications, cancellation tokens
    and the liveness of prompts are cells of a shared store, named by numbers. The
    preparer, the prompter and the operations of a core session are calls. *)
From S2P Require Import Prelude Json Model Prog SessionState Patterns Rules Lifecycle.
Open Scope prog_scope.

Definition MAX_SESSIONS : N := 64.
Definition MAX_GRANTS : N := 1024.
Definition MAX_CONTROL_OPERATIONS : N := 256.

Inductive ConfiguredOutcome := Outcome_Deny | Outcome_Ask | Outcome_Allow | Outcome_Unresolved.
#[export] Instance ConfiguredOutcome_eq_dec : EqDecision ConfiguredOutcome.
Proof. solve_decision. Defined.

Inductive AutomaticOutcome := Auto_Allow | Auto_Ask.

Inductive PermissionMode := Mode_Ask | Mode_Auto | Mode_Yolo.
#[export] Instance PermissionMode_eq_dec : EqDecision PermissionMode.
Proof. solve_decision. Defined.

Inductive SandboxMode := Sandbox_Os | Sandbox_None.

Inductive PromptDecision := Prompt_AllowOnce | Prompt_AllowTurn | Prompt_AllowSession | Prompt_Deny.
#[export] Instance PromptDecision_eq_dec : EqDecision PromptDecision.
Proof. solve_decision. Defined.

Record Policy := {
  pol_mode : PermissionMode;
  pol_configured : list ConfiguredRule;
  pol_sandbox_mode : SandboxMode;
}.

Definition Policy_new (mode : PermissionMode) (configured : list ConfiguredRule) : Policy :=
  {| pol_mode := mode; pol_configured := configured; pol_sandbox_mode := Sandbox_None |}.
Definition with_sandbox_mode (p : Policy) (mode : SandboxMode) : Policy :=
  {| pol_mode := pol_mode p; pol_configured := pol_configured p; pol_sandbox_mode := mode |}.
Definition with_mode (p : Policy) (mode : PermissionMode) : Policy :=
  {| pol_mode := mode; pol_configured := pol_configured p; pol_sandbox_mode := pol_sandbox_mode p |}.
Definition with_configured (p : Policy) (configured : list ConfiguredRule) : Policy :=
  {| pol_mode := pol_mode p; pol_configured := configured; pol_sandbox_mode := pol_sandbox_mode p |}.
Definition effective_sandbox_mode (p : Policy) : SandboxMode :=
  match pol_mode p with Mode_Yolo => Sandbox_None | Mode_Ask | Mode_Auto => pol_sandbox_mode p end.

(** ** State *)
Record Grant := { grant_rule : RuleKey; grant_turn : option TurnId }.
#[export] Instance Grant_eq_dec : EqDecision Grant.
Proof. solve_decision. Defined.

(** The state under the mutex of an owner. [ps_controls] names the control permits
    that are out: its length is the counter of the source. *)
Record PermState := {
  ps_controls : list nat;
  ps_retired : bool;
  ps_policy : Policy;
  ps_epoch : N;
  ps_changed : nat;
  ps_rules_epoch : N;
  ps_active : option nat;
  ps_grants : list Grant;
  ps_changing_rules : bool;
  ps_uncertain_rules : bool;
}.

Definition set_controls (p : PermState) (controls : list nat) : PermState :=
  {| ps_controls := controls; ps_retired := ps_retired p; ps_policy := ps_policy p; ps_epoch := ps_epoch p;
     ps_changed := ps_changed p; ps_rules_epoch := ps_rules_epoch p; ps_active := ps_active p;
     ps_grants := ps_grants p; ps_changing_rules := ps_changing_rules p; ps_uncertain_rules := ps_uncertain_rules p |}.
Definition set_policy (p : PermState) (policy : Policy) : PermState :=
  {| ps_controls := ps_controls p; ps_retired := ps_retired p; ps_policy := policy; ps_epoch := ps_epoch p;
     ps_changed := ps_changed p; ps_rules_epoch := ps_rules_epoch p; ps_active := ps_active p;
     ps_grants := ps_grants p; ps_changing_rules := ps_changing_rules p; ps_uncertain_rules := ps_uncertain_rules p |}.
Definition set_active (p : PermState) (active : option nat) (grants : list Grant) : PermState :=
  {| ps_controls := ps_controls p; ps_retired := ps_retired p; ps_policy := ps_policy p; ps_epoch := ps_epoch p;
     ps_changed := ps_changed p; ps_rules_epoch := ps_rules_epoch p; ps_active := active;
     ps_grants := grants; ps_changing_rules := ps_changing_rules p; ps_uncertain_rules := ps_uncertain_rules p |}.
Definition set_retired (p : PermState) : PermState :=
  {| ps_controls := ps_controls p; ps_retired := true; ps_policy := ps_policy p; ps_epoch := ps_epoch p;
     ps_changed := ps_changed p; ps_rules_epoch := ps_rules_epoch p; ps_active := None;
     ps_grants := []; ps_changing_rules := ps_changing_rules p; ps_uncertain_rules := ps_uncertain_rules p |}.
Definition set_epoch (p : PermState) (epoch : N) (changed : nat) : PermState :=
  {| ps_controls := ps_controls p; ps_retired := ps_retired p; ps_policy := with_mode (ps_policy p) Mode_Ask; ps_epoch := epoch;
     ps_changed := changed; ps_rules_epoch := ps_rules_epoch p; ps_active := ps_active p;
     ps_grants := []; ps_changing_rules := ps_changing_rules p; ps_uncertain_rules := ps_uncertain_rules p |}.
Definition set_rules (p : PermState) (changed : nat) (rules_epoch : N) (changing uncertain : bool) : PermState :=
  {| ps_controls := ps_controls p; ps_retired := ps_retired p; ps_policy := ps_policy p; ps_epoch := ps_epoch p;
     ps_changed := changed; ps_rules_epoch := rules_epoch; ps_active := ps_active p;
     ps_grants := ps_grants p; ps_changing_rules := changing; ps_uncertain_rules := uncertain |}.

(** A core turn, as its handle and its editors see it. *)
Record TurnCell := { tn_cancelled : bool; tn_editors_active : bool }.

(** [Attempt]; [at_alive] is that a strong reference is left. *)
Record Attempt := {
  at_alive : bool;
  at_turn : TurnId;
  at_handle : nat;
  at_editor : N;
  at_policy : Policy;
  at_cancellation : nat;
}.

(** [NativePermissionSession] *)
Record Owner := {
  ow_alive : bool;
  ow_publication : nat;
  ow_session : nat;
  ow_lifecycle : option nat;
  ow_state : PermState;
}.

(** What the controller reads of a core session. *)
Record SessionCell := {
  ss_record : SessionRecord;
  ss_active_turn : bool;
}.
Definition ss_id (c : SessionCell) : SessionId := rec_id (ss_record c).
Definition ss_incarnation (c : SessionCell) : SessionIncarnationId := rec_incarnation_id (ss_record c).

(** The route table is alive as long as its controller. A gate shares the cell of
    its publication. *)
Record CtlWorld := {
  c_routes : list nat;
  c_table : bool;
  c_owner : nat -> Owner;
  c_attempt : nat -> Attempt;
  c_session : nat -> SessionCell;
  c_turn : nat -> TurnCell;
  c_gate : nat -> Gate * option nat;
  c_publication : nat -> Publication;
  c_token : nat -> bool;
  c_prompt : nat -> bool;
  c_owners : nat;
  c_fresh : nat;
}.

Definition set_routes (s : CtlWorld) (routes : list nat) : CtlWorld :=
  {| c_routes := routes; c_table := c_table s; c_owner := c_owner s; c_attempt := c_attempt s; c_session := c_session s; c_turn := c_turn s;
     c_gate := c_gate s; c_publication := c_publication s; c_token := c_token s; c_prompt := c_prompt s; c_owners := c_owners s; c_fresh := c_fresh s |}.
Definition set_owner (s : CtlWorld) (o : nat) (w : Owner) : CtlWorld :=
  {| c_routes := c_routes s; c_table := c_table s; c_owner := upd o w (c_owner s); c_attempt := c_attempt s; c_session := c_session s; c_turn := c_turn s;
     c_gate := c_gate s; c_publication := c_publication s; c_token := c_token s; c_prompt := c_prompt s; c_owners := c_owners s; c_fresh := c_fresh s |}.
Definition set_attempt (s : CtlWorld) (a : nat) (t : Attempt) : CtlWorld :=
  {| c_routes := c_routes s; c_table := c_table s; c_owner := c_owner s; c_attempt := upd a t (c_attempt s); c_session := c_session s; c_turn := c_turn s;
     c_gate := c_gate s; c_publication := c_publication s; c_token := c_token s; c_prompt := c_prompt s; c_owners := c_owners s; c_fresh := c_fresh s |}.
Definition set_gate (s : CtlWorld) (i : nat) (g : Gate) : CtlWorld :=
  {| c_routes := c_routes s; c_table := c_table s; c_owner := c_owner s; c_attempt := c_attempt s; c_session := c_session s; c_turn := c_turn s;
     c_gate := upd i (g, snd (c_gate s i)) (c_gate s); c_publication := c_publication s; c_token := c_token s; c_prompt := c_prompt s;
     c_owners := c_owners s; c_fresh := c_fresh s |}.
Definition set_publication (s : CtlWorld) (i : nat) (p : Publication) : CtlWorld :=
  {| c_routes := c_routes s; c_table := c_table s; c_owner := c_owner s; c_attempt := c_attempt s; c_session := c_session s; c_turn := c_turn s;
     c_gate := c_gate s; c_publication := upd i p (c_publication s); c_token := c_token s; c_prompt := c_prompt s; c_owners := c_owners s; c_fresh := c_fresh s |}.
Definition set_token (s : CtlWorld) (i : nat) (cancelled : bool) : CtlWorld :=
  {| c_routes := c_routes s; c_table := c_table s; c_owner := c_owner s; c_attempt := c_attempt s; c_session := c_session s; c_turn := c_turn s;
     c_gate := c_gate s; c_publication := c_publication s; c_token := upd i cancelled (c_token s); c_prompt := c_prompt s; c_owners := c_owners s; c_fresh := c_fresh s |}.
Definition set_prompt (s : CtlWorld) (i : nat) (live : bool) : CtlWorld :=
  {| c_routes := c_routes s; c_table := c_table s; c_owner := c_owner s; c_attempt := c_attempt s; c_session := c_session s; c_turn := c_turn s;
     c_gate := c_gate s; c_publication := c_publication s; c_token := c_token s; c_prompt := upd i live (c_prompt s); c_owners := c_owners s; c_fresh := c_fresh s |}.
(** The name of the next cell. *)
Definition alloc (s : CtlWorld) : nat * CtlWorld :=
  (c_fresh s,
   {| c_routes := c_routes s; c_table := c_table s; c_owner := c_owner s; c_attempt := c_attempt s; c_session := c_session s; c_turn := c_turn s;
      c_gate := c_gate s; c_publication := c_publication s; c_token := c_token s; c_prompt := c_prompt s; c_owners := c_owners s; c_fresh := S (c_fresh s) |}).

Definition new_owner (s : CtlWorld) (w : Owner) : nat * CtlWorld :=
  (c_owners s,
   {| c_routes := c_routes s; c_table := c_table s; c_owner := upd (c_owners s) w (c_owner s); c_attempt := c_attempt s;
      c_session := c_session s; c_turn := c_turn s; c_gate := c_gate s; c_publication := c_publication s; c_token := c_token s;
      c_prompt := c_prompt s; c_owners := S (c_owners s); c_fresh := c_fresh s |}).

Definition ostate (s : CtlWorld) (o : nat) : PermState := ow_state (c_owner s o).
Definition osession (s : CtlWorld) (o : nat) : SessionCell := c_session s (ow_session (c_owner s o)).
Definition set_state (s : CtlWorld) (o : nat) (p : PermState) : CtlWorld :=
  let w := c_owner s o in
  set_owner s o {| ow_alive := ow_alive w; ow_publication := ow_publication w; ow_session := ow_session w;
                   ow_lifecycle := ow_lifecycle w; ow_state := p |}.
Definition published (s : CtlWorld) (o : nat) : bool := is_active_route (c_publication s (ow_publication (c_owner s o))).
(** A gate as its code sees it. *)
Definition load_gate (s : CtlWorld) (i : nat) : Gate :=
  let '(g, p) := c_gate s i in with_publication g (c_publication s <$> p).
(** [CancellationToken::new] and [cancel] *)
Definition new_token (s : CtlWorld) : nat * CtlWorld := let '(t, s) := alloc s in (t, set_token s t false).
Definition cancel_at (t : nat) (s : CtlWorld) : CtlWorld := set_token s t true.

(** ** Calls *)
(** [Box<dyn NativePreparedPermissionAction>], with its accessors. *)
Record Action := {
  action_id : N;
  saved_rule_key : option RuleKey;
  grant_key : option RuleKey;
  is_file_mutation : bool;
}.

(** [NativePermissionExecutionProof] *)
Record ExecutionProof := {
  xp_owner : nat;
  xp_attempt : nat;
  xp_epoch : option N;
  xp_rules_epoch : option N;
  xp_saved : option RuleKey;
  xp_saved_generation : option N;
}.

(** [NativePermissionRulePrompt] *)
Record RulePrompt := {
  rp_owner : nat;
  rp_attempt : nat;
  rp_epoch : N;
  rp_rules_epoch : N;
  rp_key : RuleKey;
  rp_live : nat;
}.

(** [LifecyclePermit], [LifecycleQuiescence] and [Turn], as far as they are read. *)
Record LifecyclePermit := { lp_gate : nat; lp_generation : N }.
Record TurnRef := {
  tr_session_id : SessionId;
  tr_incarnation_id : SessionIncarnationId;
  tr_turn_id : TurnId;
  tr_handle : nat;
}.
Definition EditorSnapshot : Type := N * option Value.

Inductive CtlQuery :=
| C_prepare (request : PermissionRequest) (invocation : PermissionInvocation) (cancellation : nat)
| C_configured_outcome (action : Action) (rules : list ConfiguredRule)
| C_allows_without_review (action : Action) (mode : PermissionMode)
| C_automatic_review (action : Action) (cancellation : nat)
| C_prompt_with_rule (request : PermissionRequest) (rule : option RulePrompt)
| C_bind_execution (action : Action) (proof : ExecutionProof)
| C_close_turn (session : SessionId) (incarnation : SessionIncarnationId) (turn : TurnId)
| C_metadata_editor (turn : TurnRef) (key : string)
| C_read_entry (editor : N)
| C_compare_exchange (editor : N) (snapshot : EditorSnapshot) (value : option Value)
| C_update_metadata (session : nat) (revision : SessionRevision) (metadata : Metadata).

Definition CtlAns (q : CtlQuery) : Type :=
  match q with
  | C_prepare _ _ _ => Fut (result Action PermissionError)
  | C_configured_outcome _ _ => result ConfiguredOutcome PermissionError
  | C_allows_without_review _ _ => bool
  | C_automatic_review _ _ => Fut (result AutomaticOutcome PermissionError)
  | C_prompt_with_rule _ _ => Fut (result PromptDecision unit)
  | C_bind_execution _ _ => result N PermissionError
  | C_close_turn _ _ _ => unit
  | C_metadata_editor _ _ => result N unit
  | C_read_entry _ => Fut (result EditorSnapshot unit)
  | C_compare_exchange _ _ _ => Fut (result SessionRevision unit)
  | C_update_metadata _ _ _ => Fut (result SessionRevision unit)
  end.

Notation cprog := (prog CtlWorld CtlQuery CtlAns).
Notation CtlEvents := (history CtlWorld CtlQuery CtlAns).

(** [future.await] *)
Fixpoint await_polls {T} (n : nat) (r : T) : cprog T :=
  match n with O => Ret r | S n => Yield id (await_polls n r) end.
Definition await_call {T} (p : cprog (Fut T)) : cprog T := do f <- p; await_polls (fst f) (snd f).

Definition unavailable : PermissionError :=
  {| perm_code := "native_permission_unavailable"; perm_message := "native permission authority unavailable" |}.
Definition denied (reason : string) : PermissionAuthorization :=
  {| auth_decision := Deny reason; auth_admission := None |}.

Notation refused := (Err unavailable).

(** ** Control permits *)
Record ControlPermit := { cp_id : nat; cp_gate : option nat }.

Definition acquire_lifecycle_at (o : nat) (s : CtlWorld) : result ControlPermit PermissionError * CtlWorld :=
  let p := ostate s o in
  if negb (published s o) || ps_retired p || (vec_len (ps_controls p) =? MAX_CONTROL_OPERATIONS)%N then (refused, s)
  else
    match ow_lifecycle (c_owner s o) with
    | None =>
        let '(id, s) := alloc s in
        (Ok {| cp_id := id; cp_gate := None |}, set_state s o (set_controls p (id :: ps_controls p)))
    | Some gate =>
        match acquire_inner false (load_gate s gate) with
        | Err _ => (refused, s)
        | Ok (_, g) =>
            let '(id, s) := alloc (set_gate s gate g) in
            (Ok {| cp_id := id; cp_gate := Some gate |}, set_state s o (set_controls p (id :: ps_controls p)))
        end
    end.
Definition acquire_lifecycle (o : nat) : cprog (result ControlPermit PermissionError) := act (acquire_lifecycle_at o).

(** [Drop for LifecyclePermit] *)
Definition release_gate (gate : nat) (s : CtlWorld) : CtlWorld :=
  match permit_drop (load_gate s gate) with Some (_, g) => set_gate s gate g | None => s end.
(** [Drop for ControlPermit], then its lifecycle permit *)
Definition control_drop (o : nat) (permit : ControlPermit) (s : CtlWorld) : CtlWorld :=
  let p := ostate s o in
  let s := set_state s o (set_controls p (List.filter (fun id => negb (id =? cp_id permit)) (ps_controls p))) in
  match cp_gate permit with Some gate => release_gate gate s | None => s end.

(** A function that holds a control permit in [_permit]. *)
Definition with_control {A} (o : nat) (body : ControlPermit -> cprog (result A PermissionError))
    : cprog (result A PermissionError) :=
  do? permit <- acquire_lifecycle o;
  guarded (control_drop o permit) (fun _ => false) (body permit).

(** ** Rules of a session *)
Section Controller.
Context `{JsonNumbers} (sha256 : string -> string) `{JsonWriter}.

Definition read_rules_at (s : CtlWorld) (session : nat) : result SessionRules PermissionError :=
  map_err (fun _ => unavailable) (from_metadata sha256 (rec_metadata (ss_record (c_session s session)))).
Definition read_rules (o : nat) : cprog (result SessionRules PermissionError) :=
  get (fun s => read_rules_at s (ow_session (c_owner s o))).

(** ** Routes *)
Definition routed (s : CtlWorld) (id : SessionId) (incarnation : SessionIncarnationId) (o : nat) : bool :=
  ow_alive (c_owner s o) && bool_decide (ss_id (osession s o) = id) &&
  bool_decide (ss_incarnation (osession s o) = incarnation).

Definition route_at (s : CtlWorld) (id : SessionId) (incarnation : SessionIncarnationId) : result nat PermissionError :=
  ok_or unavailable (List.find (fun o => published s o && routed s id incarnation o) (c_routes s)).
Definition route (id : SessionId) (incarnation : SessionIncarnationId) : cprog (result nat PermissionError) :=
  get (fun s => route_at s id incarnation).

Definition new_state (policy : Policy) (changed : nat) : PermState :=
  {| ps_controls := []; ps_retired := false; ps_policy := policy; ps_epoch := 1; ps_changed := changed; ps_rules_epoch := 1;
     ps_active := None; ps_grants := []; ps_changing_rules := false; ps_uncertain_rules := false |}.

(** The critical section of the route table in [register_with_publication] *)
Definition register_at (session : nat) (policy : Policy) (publication : nat) (s : CtlWorld)
    : result nat PermissionError * CtlWorld :=
  let live := List.filter (fun o => ow_alive (c_owner s o)) (c_routes s) in
  let s := set_routes s live in
  let conflict o :=
    routed s (ss_id (c_session s session)) (ss_incarnation (c_session s session)) o &&
    conflicts_with (c_publication s publication) (c_publication s (ow_publication (c_owner s o))) in
  if (vec_len live =? MAX_SESSIONS)%N || existsb conflict live then (refused, s)
  else
    let '(changed, s) := new_token s in
    let '(o, s) := new_owner s {| ow_alive := true; ow_publication := publication; ow_session := session;
                                  ow_lifecycle := None; ow_state := new_state policy changed |} in
    (Ok o, set_routes s (live ++ [o])).

Definition register_with_publication (session : nat) (policy : Policy) (publication : nat) : cprog (result nat PermissionError) :=
  do? _ <- get (fun s => read_rules_at s session);
  act (register_at session policy publication).

(** [RoutePublication::default] *)
Definition new_publication (s : CtlWorld) : nat * CtlWorld := let '(p, s) := alloc s in (p, set_publication s p ACTIVE).
Definition register (session : nat) (policy : Policy) : cprog (result nat PermissionError) :=
  do publication <- act new_publication;
  register_with_publication session policy publication.

Definition ready_to_publish (o : nat) : cprog bool :=
  get (fun s =>
    c_table s && existsb (fun route => (route =? o)) (c_routes s) &&
    negb (existsb (fun other => negb (other =? o) && routed s (ss_id (osession s o)) (ss_incarnation (osession s o)) other)
                  (c_routes s))).

(** The cancellation of an attempt and [close_turn] of the preparer *)
Definition close_turn (o a : nat) : cprog unit :=
  do _ <- modify (fun s => cancel_at (at_cancellation (c_attempt s a)) s);
  do ids <- get (fun s => (ss_id (osession s o), ss_incarnation (osession s o), at_turn (c_attempt s a)));
  do _ <- ask (C_close_turn (fst (fst ids)) (snd (fst ids)) (snd ids));
  Ret tt.

Definition retire (o : nat) : cprog unit :=
  do _ <- modify (fun s => set_publication s (ow_publication (c_owner s o)) RETIRED);
  do attempt <- act (fun s => (ps_active (ostate s o), set_state s o (set_retired (ostate s o))));
  do _ <- modify (fun s => if c_table s then set_routes s (List.filter (fun route => negb (route =? o)) (c_routes s)) else s);
  match attempt with None => Ret tt | Some a => close_turn o a end.

(** ** Lifecycle and policy *)
Definition bind_lifecycle (o gate : nat) : cprog (result unit PermissionError) :=
  do? permit <- act (fun s => match acquire_inner false (load_gate s gate) with
                              | Ok (_, g) => (Ok tt, set_gate s gate g) | Err _ => (refused, s) end);
  guarded (release_gate gate) (fun _ => false) (act (fun s =>
    let p := ostate s o in
    if ps_retired p || bool_decide (is_Some (ps_active p)) || ps_changing_rules p || negb (vec_len (ps_controls p) =? 0)%N
    then (refused, s)
    else match ow_lifecycle (c_owner s o) with
         | Some current => (if current =? gate then Ok tt else refused, s)
         | None =>
             let w := c_owner s o in
             (Ok tt, set_owner s o {| ow_alive := ow_alive w; ow_publication := ow_publication w; ow_session := ow_session w;
                                      ow_lifecycle := Some gate; ow_state := ow_state w |})
         end)).

Definition check_admitted (o : nat) (permit : LifecyclePermit) : cprog (result unit PermissionError) :=
  get (fun s =>
    if negb (published s o) || ps_retired (ostate s o) ||
       match ow_lifecycle (c_owner s o) with Some gate => negb (lp_gate permit =? gate) | None => true end
    then refused else Ok tt).

Definition ctl_snapshot (o : nat) : cprog (result Policy PermissionError) :=
  with_control o (fun _ => get (fun s => Ok (ps_policy (ostate s o)))).
Definition snapshot_admitted (o : nat) (permit : LifecyclePermit) : cprog (result Policy PermissionError) :=
  do? _ <- check_admitted o permit;
  get (fun s => Ok (ps_policy (ostate s o))).
(** [guard] is a quiescence of the gate [guard_gate]. *)
Definition snapshot_quiescent (o guard_gate : nat) (guard : Guard) : cprog (result Policy PermissionError) :=
  do? gate <- get (fun s => ok_or unavailable (ow_lifecycle (c_owner s o)));
  when negb (guard_gate =? gate) return refused;
  do? _ <- get (fun s => map_err (fun _ => unavailable) (check_idle guard (load_gate s gate)));
  get (fun s => if ps_retired (ostate s o) then refused else Ok (ps_policy (ostate s o))).

Definition change_policy (o : nat) (f : Policy -> Policy) (s : CtlWorld) : CtlWorld :=
  set_state s o (set_policy (ostate s o) (f (ps_policy (ostate s o)))).
Definition set_mode (o : nat) (mode : PermissionMode) : cprog (result unit PermissionError) :=
  with_control o (fun _ => do _ <- modify (change_policy o (fun p => with_mode p mode)); Ret (Ok tt)).
Definition set_sandbox_mode (o : nat) (mode : SandboxMode) : cprog (result unit PermissionError) :=
  with_control o (fun _ => do _ <- modify (change_policy o (fun p => with_sandbox_mode p mode)); Ret (Ok tt)).
Definition set_configured_rules (o : nat) (rules : list ConfiguredRule) : cprog (result unit PermissionError) :=
  with_control o (fun _ => do _ <- modify (change_policy o (fun p => with_configured p rules)); Ret (Ok tt)).
Definition set_configured_rules_admitted (o : nat) (permit : LifecyclePermit) (rules : list ConfiguredRule)
    : cprog (result unit PermissionError) :=
  do? _ <- check_admitted o permit;
  do _ <- modify (change_policy o (fun p => with_configured p rules)); Ret (Ok tt).

(** The critical section of [reset]; the token it replaced *)
Definition reset_at (o : nat) (s : CtlWorld) : result nat PermissionError * CtlWorld :=
  match checked_add (ps_epoch (ostate s o)) 1 with
  | None => (refused, s)
  | Some epoch =>
      let old := ps_changed (ostate s o) in
      let '(changed, s) := new_token s in
      (Ok old, set_state s o (set_epoch (ostate s o) epoch changed))
  end.
Definition reset (o : nat) : cprog (result unit PermissionError) :=
  with_control o (fun _ =>
    do? changed <- act (reset_at o);
    do _ <- modify (cancel_at changed);
    Ret (Ok tt)).

(** ** Turns *)
(** The turn of an attempt runs and its editor is active. *)
Definition turn_live (s : CtlWorld) (a : nat) : bool :=
  let turn := c_turn s (at_handle (c_attempt s a)) in negb (tn_cancelled turn) && tn_editors_active turn.
Definition attempt_live (s : CtlWorld) (turn : TurnId) (a : nat) : bool :=
  bool_decide (at_turn (c_attempt s a) = turn) && turn_live s a.

Definition gate_retired (s : CtlWorld) (o : nat) : bool :=
  match ow_lifecycle (c_owner s o) with
  | Some gate => bool_decide (g_phase (load_gate s gate) = Retired)
  | None => false
  end.

(** [NativePermissionSession::attempt] *)
Definition attempt_at (s : CtlWorld) (o : nat) (turn : TurnId) : result (nat * N * N) PermissionError :=
  let p := ostate s o in
  fail_if negb (published s o) || ps_retired p || gate_retired s o with unavailable in
  match ps_active p with
  | Some a =>
      fail_if negb (attempt_live s turn a) with unavailable in
      fail_if ps_changing_rules p || ps_uncertain_rules p with unavailable in
      Ok (a, ps_epoch p, ps_rules_epoch p)
  | None => refused
  end.
Definition attempt_of (o : nat) (turn : TurnId) : cprog (result (nat * N * N) PermissionError) :=
  get (fun s => attempt_at s o turn).

Definition policy_for_execution (context : ToolContext) : cprog (result Policy PermissionError) :=
  do? o <- route (tc_session_id context) (tc_session_incarnation_id context);
  do? found <- attempt_of o (tc_turn_id context);
  get (fun s => Ok (at_policy (c_attempt s (fst (fst found))))).

(** A live grant for [key], of the session or of [turn] *)
Definition grants_to (turn : TurnId) (key : RuleKey) (g : Grant) : bool :=
  bool_decide (grant_rule g = key) && match grant_turn g with None => true | Some t => bool_decide (t = turn) end.

Definition has_live_grant (session : SessionId) (incarnation : SessionIncarnationId) (turn : TurnId) (key : RuleKey)
    : cprog (result bool PermissionError) :=
  do? o <- route session incarnation;
  get (fun s =>
    let p := ostate s o in
    if ps_retired p || ps_changing_rules p || ps_uncertain_rules p ||
       match ps_active p with Some a => negb (attempt_live s turn a) | None => true end
    then refused
    else Ok (existsb (grants_to turn key) (ps_grants p))).

(** [NativePermissionTurn] *)
Record PermissionTurn := { pt_owner : nat; pt_attempt : nat; pt_lifecycle : option ControlPermit }.

(** The critical section of [begin_turn_inner] *)
Definition begin_turn_at (o : nat) (turn : TurnRef) (editor : N) (policy : Policy) (s : CtlWorld)
    : result nat PermissionError * CtlWorld :=
  let p := ostate s o in
  if negb (published s o) || ps_retired p || bool_decide (is_Some (ps_active p)) || negb (ss_active_turn (osession s o))
  then (refused, s)
  else
    let '(token, s) := new_token s in
    let '(a, s) := alloc s in
    let s := set_attempt s a {| at_alive := true; at_turn := tr_turn_id turn; at_handle := tr_handle turn; at_editor := editor;
                                at_policy := policy; at_cancellation := token |} in
    (Ok a, set_state s o (set_active (ostate s o) (Some a) (ps_grants (ostate s o)))).

Definition begin_turn_inner (o : nat) (turn : TurnRef) (policy : Policy) : cprog (result PermissionTurn PermissionError) :=
  do same <- get (fun s => bool_decide (tr_session_id turn = ss_id (osession s o)) &&
                           bool_decide (tr_incarnation_id turn = ss_incarnation (osession s o)));
  when negb same return refused;
  do editor <- ask (C_metadata_editor turn NATIVE_SESSION_PERMISSION_RULES_KEY);
  match editor with
  | Err _ => Ret refused
  | Ok editor =>
      do? a <- act (begin_turn_at o turn editor policy);
      Ret (Ok {| pt_owner := o; pt_attempt := a; pt_lifecycle := None |})
  end.

(** The permit moves into the registration. *)
Definition begin_turn (o : nat) (turn : TurnRef) (policy : Policy) : cprog (result PermissionTurn PermissionError) :=
  do? permit <- acquire_lifecycle o;
  guarded (control_drop o permit) is_ok (
    do? registration <- begin_turn_inner o turn policy;
    Ret (Ok {| pt_owner := pt_owner registration; pt_attempt := pt_attempt registration; pt_lifecycle := Some permit |})).
Definition begin_turn_admitted (o : nat) (turn : TurnRef) (policy : Policy) (permit : LifecyclePermit)
    : cprog (result PermissionTurn PermissionError) :=
  do? _ <- check_admitted o permit;
  begin_turn_inner o turn policy.

(** The critical section of [Drop for NativePermissionTurn] *)
Definition close_attempt (o a : nat) (s : CtlWorld) : CtlWorld :=
  let p := ostate s o in
  if bool_decide (ps_active p = Some a)
  then set_state s o (set_active p None
         (List.filter (fun g => negb (bool_decide (grant_turn g = Some (at_turn (c_attempt s a))))) (ps_grants p)))
  else s.
Definition turn_drop (t : PermissionTurn) : cprog unit :=
  do _ <- modify (close_attempt (pt_owner t) (pt_attempt t));
  do _ <- close_turn (pt_owner t) (pt_attempt t);
  match pt_lifecycle t with Some permit => modify (control_drop (pt_owner t) permit) | None => Ret tt end.

(** ** Proofs of execution *)
(** The part of [revalidate] on the state of the owner *)
Definition proof_current (x : ExecutionProof) (found : nat * N * N) : bool :=
  let '(active, epoch, rules_epoch) := found in
  (xp_attempt x =? active) && match xp_epoch x with Some e => (epoch =? e)%N | None => true end &&
  match xp_rules_epoch x with Some e => (rules_epoch =? e)%N | None => true end.
(** and on the saved rules *)
Definition proof_saved (x : ExecutionProof) (key : RuleKey) (rules : SessionRules) : bool :=
  let current := rule_for_key rules key in
  negb match current with Some rule => bool_decide (rule_decision rule = Rule_Deny) | None => false end &&
  bool_decide (rule_generation <$> current = xp_saved_generation x).

Definition revalidate (x : ExecutionProof) : cprog (result unit PermissionError) :=
  do alive <- get (fun s => ow_alive (c_owner s (xp_owner x)));
  when negb alive return refused;
  do turn <- get (fun s => let a := c_attempt s (xp_attempt x) in if at_alive a then Some (at_turn a) else None);
  match turn with
  | None => Ret refused
  | Some turn =>
      do? found <- attempt_of (xp_owner x) turn;
      when negb (proof_current x found) return refused;
      match xp_saved x with
      | None => Ret (Ok tt)
      | Some key =>
          do? rules <- read_rules (xp_owner x);
          Ret (if proof_saved x key rules then Ok tt else refused)
      end
  end.

(** ** Rule prompts *)
Definition new_rule_prompt (o a : nat) (epoch rules_epoch : N) (key : RuleKey) : cprog RulePrompt :=
  act (fun s =>
    let '(live, s) := alloc s in
    ({| rp_owner := o; rp_attempt := a; rp_epoch := epoch; rp_rules_epoch := rules_epoch; rp_key := key; rp_live := live |},
     set_prompt s live true)).
Definition invalidate (p : RulePrompt) (s : CtlWorld) : CtlWorld := set_prompt s (rp_live p) false.
(** [Drop for RulePromptLifetime] *)
Definition prompt_lifetime (p : option RulePrompt) (s : CtlWorld) : CtlWorld :=
  match p with Some p => invalidate p s | None => s end.

Definition prompt_validate (p : RulePrompt) : cprog (result nat PermissionError) :=
  do live <- get (fun s => c_prompt s (rp_live p));
  when negb live return refused;
  do alive <- get (fun s => ow_alive (c_owner s (rp_owner p)));
  when negb alive return refused;
  do turn <- get (fun s => let a := c_attempt s (rp_attempt p) in if at_alive a then Some (at_turn a) else None);
  match turn with
  | None => Ret refused
  | Some turn =>
      do? found <- attempt_of (rp_owner p) turn;
      let '(current, epoch, rules_epoch) := found in
      when negb ((current =? rp_attempt p) && (epoch =? rp_epoch p)%N && (rules_epoch =? rp_rules_epoch p)%N) return refused;
      Ret (Ok (rp_owner p))
  end.

(** [validate_publication], under the lock of the owner *)
Definition validate_publication (p : RulePrompt) (o : nat) (s : CtlWorld) : bool :=
  let q := ostate s o in
  at_alive (c_attempt s (rp_attempt p)) && c_prompt s (rp_live p) && negb (ps_retired q) && (ps_epoch q =? rp_epoch p)%N &&
  (ps_rules_epoch q =? rp_rules_epoch p)%N && bool_decide (ps_active q = Some (rp_attempt p)) &&
  turn_live s (rp_attempt p).

(** ** Authorization *)
Definition granted_at (s : CtlWorld) (o : nat) (turn : TurnId) (key : RuleKey) : bool :=
  existsb (grants_to turn key) (ps_grants (ostate s o)).

(** [remember_grant] *)
Definition remember_grant_at (o a : nat) (epoch : N) (key : option RuleKey) (decision : PromptDecision) (s : CtlWorld)
    : result unit PermissionError * CtlWorld :=
  let p := ostate s o in
  let turn := at_turn (c_attempt s a) in
  if ps_retired p || negb (ps_epoch p =? epoch)%N ||
     match ps_active p with Some active => negb (bool_decide (at_turn (c_attempt s active) = turn)) | None => true end
  then (refused, s)
  else
    match key, decision with
    | None, _ | _, Prompt_AllowOnce | _, Prompt_Deny => (Ok tt, s)
    | Some key, _ =>
        let g := {| grant_rule := key; grant_turn := if bool_decide (decision = Prompt_AllowTurn) then Some turn else None |} in
        if bool_decide (g ∈ ps_grants p) then (Ok tt, s)
        else if (vec_len (ps_grants p) =? MAX_GRANTS)%N then (refused, s)
        else (Ok tt, set_state s o (set_active p (ps_active p) (ps_grants p ++ [g])))
    end.

Definition admit_action (action : Action) (x : ExecutionProof) : cprog (result PermissionAuthorization PermissionError) :=
  do? _ <- revalidate x;
  do? admission <- ask (C_bind_execution action x);
  Ret (Ok {| auth_decision := Allow Scope_Once; auth_admission := Some admission |}).

Definition is_deny (rule : option PermissionRule) : bool :=
  match rule with Some rule => bool_decide (rule_decision rule = Rule_Deny) | None => false end.
Definition is_allow (rule : option PermissionRule) : bool :=
  match rule with Some rule => bool_decide (rule_decision rule = Rule_Allow) | None => false end.

(** The prompt of [authorize_invocation] and what follows it *)
Definition prompted (o a : nat) (epoch rules_epoch : N) (request : PermissionRequest) (action : Action) (x : ExecutionProof)
    : cprog (result PermissionAuthorization PermissionError) :=
  do prompt <- match saved_rule_key action with
               | Some key => do p <- new_rule_prompt o a epoch rules_epoch key; Ret (Some p)
               | None => Ret None
               end;
  guarded (prompt_lifetime prompt) (fun _ => false) (
    do answer <- await_call (ask (C_prompt_with_rule request prompt));
    match answer with
    | Err _ => Ret refused
    | Ok decision =>
        do? _ <- revalidate x;
        when bool_decide (decision = Prompt_Deny) return Ok (denied "permission denied");
        do? _ <- act (remember_grant_at o a epoch (grant_key action) decision);
        admit_action action x
    end).

(** With the configured outcome of the action *)
Definition authorize_judged (o a : nat) (epoch rules_epoch : N) (policy : Policy) (token : nat)
    (request : PermissionRequest) (action : Action) (rules : SessionRules) (configured : ConfiguredOutcome)
    : cprog (result PermissionAuthorization PermissionError) :=
  let bypass := bool_decide (pol_mode policy = Mode_Yolo) in
  let saved := if bypass && negb (is_file_mutation action) then None else saved_rule_key action in
  let saved_rule := saved ≫= rule_for_key rules in
  when bool_decide (configured = Outcome_Deny) || is_deny saved_rule return Ok (denied "permission denied by rule");
  let x := {| xp_owner := o; xp_attempt := a;
              xp_epoch := if bypass then None else Some epoch;
              xp_rules_epoch := if negb bypass || is_file_mutation action then Some rules_epoch else None;
              xp_saved := saved; xp_saved_generation := rule_generation <$> saved_rule |} in
  do granted <- match grant_key action with
                | Some key => get (fun s => granted_at s o (pr_turn_id request) key)
                | None => Ret false
                end;
  if bypass || is_allow saved_rule || granted then admit_action action x
  else
    do allowed <- (if bool_decide (configured = Outcome_Ask) then Ret false
                   else if bool_decide (configured = Outcome_Allow) then Ret true
                   else ask (C_allows_without_review action (pol_mode policy)));
    if (allowed : bool) then admit_action action x
    else if bool_decide (pol_mode policy = Mode_Auto) && negb (bool_decide (configured = Outcome_Ask)) then
      do review <- await_call (ask (C_automatic_review action token));
      match review with
      | Ok Auto_Allow => admit_action action x
      | Ok Auto_Ask | Err _ => Ret (Ok (denied "automatic permission review requires replanning"))
      end
    else prompted o a epoch rules_epoch request action x.

(** With a prepared action and the rules of its session *)
Definition authorize_prepared (o a : nat) (epoch rules_epoch : N) (policy : Policy) (token : nat)
    (request : PermissionRequest) (action : Action) (rules : SessionRules)
    : cprog (result PermissionAuthorization PermissionError) :=
  do? configured <- (if bool_decide (pol_mode policy = Mode_Yolo) then Ret (Ok Outcome_Unresolved)
                     else ask (C_configured_outcome action (pol_configured policy)));
  authorize_judged o a epoch rules_epoch policy token request action rules configured.

Definition authorize_invocation (request : PermissionRequest) (invocation : PermissionInvocation)
    : cprog (result PermissionAuthorization PermissionError) :=
  do? o <- route (pr_session_id request) (pr_session_incarnation_id request);
  do? found <- attempt_of o (pr_turn_id request);
  let '(a, epoch, rules_epoch) := found in
  do fields <- get (fun s => (at_policy (c_attempt s a), at_cancellation (c_attempt s a)));
  do prepared <- await_call (ask (C_prepare request invocation (snd fields)));
  match prepared with
  | Err _ => Ret (Ok (denied "native action preparation requires replanning"))
  | Ok action =>
      do? rules <- read_rules o;
      authorize_prepared o a epoch rules_epoch (fst fields) (snd fields) request action rules
  end.

(** ** Rule changes *)
Inductive RuleChange :=
| Set_rule (key : RuleKey) (display_identity : string) (decision : RuleDecision)
| Revoke_rule (id : N).

(** [NativePermissionRuleProposal] *)
Record Proposal := {
  pp_owner : nat;
  pp_change : RuleChange;
  pp_expected_generation : option N;
  pp_expected_epoch : N;
  pp_prompt : option RulePrompt;
}.

Definition proposal_apply (p : Proposal) (rules : SessionRules) : result SessionRules PermissionError :=
  map_err (fun _ => unavailable)
    match pp_change p with
    | Set_rule key display_identity decision => apply_set rules key display_identity decision (pp_expected_generation p)
    | Revoke_rule id =>
        match pp_expected_generation p with
        | Some generation => apply_revoke rules id generation
        | None => Err Stale
        end
    end.

(** The critical section of [propose_rule_change] *)
Definition propose_at (o : nat) (change : RuleChange) (s : CtlWorld) : result Proposal PermissionError :=
  let p := ostate s o in
  fail_if ps_changing_rules p || ps_uncertain_rules p with unavailable in
  let? rules := read_rules_at s (ow_session (c_owner s o)) in
  let? expected := match change with
                   | Set_rule key _ _ => Ok (rule_generation <$> rule_for_key rules key)
                   | Revoke_rule id => let? rule := ok_or unavailable (rule_for_id rules id) in Ok (Some (rule_generation rule))
                   end in
  let proposal := {| pp_owner := o; pp_change := change; pp_expected_generation := expected; pp_expected_epoch := ps_epoch p;
                     pp_prompt := None |} in
  let? _ := proposal_apply proposal rules in
  Ok proposal.
Definition propose_rule_change (o : nat) (change : RuleChange) : cprog (result Proposal PermissionError) :=
  with_control o (fun _ => get (propose_at o change)).

(** The derived [Debug] of a kind *)
Definition kind_debug (kind : RuleKind) : string :=
  match kind with
  | Kind_Command => "Command" | Kind_FileMutation => "FileMutation" | Kind_StructuredTool => "StructuredTool"
  end.
Definition prompt_display (key : RuleKey) : string :=
  "Exact prepared " +:+ kind_debug (key_kind key) +:+ " action sha256:" +:+ digest_hex (key_digest key).

Definition propose (p : RulePrompt) (decision : RuleDecision) : cprog (result Proposal PermissionError) :=
  do? o <- prompt_validate p;
  do? proposal <- propose_rule_change o (Set_rule (rp_key p) (prompt_display (rp_key p)) decision);
  Ret (Ok {| pp_owner := pp_owner proposal; pp_change := pp_change proposal;
             pp_expected_generation := pp_expected_generation proposal; pp_expected_epoch := pp_expected_epoch proposal;
             pp_prompt := Some p |}).

(** [RuleOperation], without its flag: the flag is the guard that is in force. *)
Record RuleOperation := { ro_editor : option N; ro_permit : option ControlPermit }.

(** [Drop for RuleOperation], then its permit *)
Definition operation_drop (o : nat) (op : RuleOperation) (armed : bool) (s : CtlWorld) : CtlWorld :=
  let p := ostate s o in
  let s := set_state s o (set_rules p (ps_changed p) (ps_rules_epoch p) false (armed || ps_uncertain_rules p)) in
  match ro_permit op with Some permit => control_drop o permit s | None => s end.

(** The critical section of [RuleOperation::begin]; the token it replaced *)
Definition begin_at (o : nat) (s : CtlWorld) : result (option N * nat) PermissionError * CtlWorld :=
  let p := ostate s o in
  if ps_changing_rules p || ps_uncertain_rules p then (refused, s)
  else
    let editor := (fun a => at_editor (c_attempt s a)) <$> ps_active p in
    let '(changed, s) := new_token s in
    (Ok (editor, ps_changed p), set_state s o (set_rules (ostate s o) changed (ps_rules_epoch p) true (ps_uncertain_rules p))).

Definition operation_begin (o : nat) : cprog (result RuleOperation PermissionError) :=
  do? permit <- acquire_lifecycle o;
  guarded (control_drop o permit) is_ok (
    do? begun <- act (begin_at o);
    do _ <- modify (cancel_at (snd begun));
    Ret (Ok {| ro_editor := fst begun; ro_permit := Some permit |})).

(** The critical section of [RuleOperation::arm]: whether the operation is armed,
    and the token it replaced *)
Definition arm_at (o : nat) (p : Proposal) (s : CtlWorld) : (bool * result nat PermissionError) * CtlWorld :=
  let q := ostate s o in
  if negb (ps_epoch q =? pp_expected_epoch p)%N ||
     match pp_prompt p with Some prompt => negb (validate_publication prompt o s) | None => false end
  then ((false, refused), s)
  else
    match checked_add (ps_rules_epoch q) 1 with
    | None => ((true, refused), set_state s o (set_rules q (ps_changed q) (ps_rules_epoch q) (ps_changing_rules q) true))
    | Some rules_epoch =>
        let '(changed, s) := new_token s in
        ((true, Ok (ps_changed q)), set_state s o (set_rules (ostate s o) changed rules_epoch (ps_changing_rules q) true))
    end.

(** [confirmed] *)
Definition confirmed_at (o : nat) (s : CtlWorld) : CtlWorld :=
  let p := ostate s o in set_state s o (set_rules p (ps_changed p) (ps_rules_epoch p) (ps_changing_rules p) false).

Definition decode (value : option Value) : result SessionRules PermissionError :=
  map_err (fun _ => unavailable)
    match value with Some value => from_value sha256 value | None => Ok SessionRules_default end.

(** How a candidate will be published *)
Inductive Publish :=
| By_editor (editor : N) (snapshot : EditorSnapshot) (candidate : SessionRules)
| By_session (session : nat) (revision : SessionRevision) (metadata : Metadata).

Definition publish_call (p : Publish) : cprog (result SessionRevision unit) :=
  match p with
  | By_editor editor snapshot candidate => await_call (ask (C_compare_exchange editor snapshot (Some (to_value candidate))))
  | By_session session revision metadata => await_call (ask (C_update_metadata session revision metadata))
  end.

(** Until the operation is armed: the candidate for the rules just read *)
Definition confirm_candidate (o : nat) (proposal : Proposal) (op : RuleOperation) : cprog (result Publish PermissionError) :=
  match ro_editor op with
  | Some editor =>
      do read <- await_call (ask (C_read_entry editor));
      match read with
      | Err _ => Ret refused
      | Ok snapshot =>
          do? rules <- Ret (decode (snd snapshot));
          do? candidate <- Ret (proposal_apply proposal rules);
          Ret (Ok (By_editor editor snapshot candidate))
      end
  | None =>
      do cell <- get (fun s => (ow_session (c_owner s o), ss_record (osession s o)));
      let '(session, record) := cell in
      do? rules <- Ret (map_err (fun _ => unavailable) (from_metadata sha256 (rec_metadata record)));
      do? candidate <- Ret (proposal_apply proposal rules);
      Ret (Ok (By_session session (rec_revision record)
                 (bt_insert (rec_metadata record) NATIVE_SESSION_PERMISSION_RULES_KEY (to_value candidate))))
  end.

(** With the operation armed *)
Definition confirm_armed (o : nat) (publish : Publish) (armed : result nat PermissionError)
    : cprog (result SessionRevision PermissionError) :=
  do? changed <- Ret armed;
  do _ <- modify (cancel_at changed);
  do answer <- publish_call publish;
  match answer with
  | Err _ => Ret refused
  | Ok revision => do _ <- modify (confirmed_at o); Ret (Ok revision)
  end.

(** While the operation is held *)
Definition confirm_operation (o : nat) (proposal : Proposal) (op : RuleOperation)
    : cprog (result SessionRevision PermissionError) :=
  do? armed <- guarded (operation_drop o op false) is_ok (
    do? publish <- confirm_candidate o proposal op;
    do armed <- act (arm_at o proposal);
    if (fst armed : bool) then Ret (Ok (publish, snd armed)) else Ret refused);
  do? revision <- guarded (operation_drop o op true) is_ok (confirm_armed o (fst armed) (snd armed));
  do _ <- modify (operation_drop o op false);
  Ret (Ok revision).

Definition confirm_rule_change (o : nat) (proposal : Proposal) : cprog (result SessionRevision PermissionError) :=
  do alive <- get (fun s => ow_alive (c_owner s (pp_owner proposal)));
  when negb alive || negb (o =? pp_owner proposal) return refused;
  do? _ <- match pp_prompt proposal with
           | Some prompt => do? _ <- prompt_validate prompt; Ret (Ok tt)
           | None => Ret (Ok tt)
           end;
  do epoch <- get (fun s => ps_epoch (ostate s o));
  when negb (epoch =? pp_expected_epoch proposal)%N return refused;
  do? op <- operation_begin o;
  confirm_operation o proposal op.

(** The critical section of [reconcile_rules_inner] *)
Definition reconcile_at (o : nat) (s : CtlWorld) : result N PermissionError * CtlWorld :=
  let p := ostate s o in
  if ps_changing_rules p then (refused, s)
  else match ps_active p with
       | None => (refused, s)
       | Some a =>
           (Ok (at_editor (c_attempt s a)),
            set_state s o (set_rules p (ps_changed p) (ps_rules_epoch p) true (ps_uncertain_rules p)))
       end.

(** The permit is dropped with the frame, or with the operation. *)
Definition reconcile_rules_inner (o : nat) (permit : option ControlPermit) : cprog (result unit PermissionError) :=
  do begun <- act (reconcile_at o);
  match begun with
  | Err e =>
      do _ <- match permit with Some permit => modify (control_drop o permit) | None => Ret tt end;
      Ret (Err e)
  | Ok editor =>
      let op := {| ro_editor := Some editor; ro_permit := permit |} in
      do? _ <- guarded (operation_drop o op true) is_ok (
        do read <- await_call (ask (C_read_entry editor));
        match read with
        | Err _ => Ret refused
        | Ok snapshot =>
            do? _ <- Ret (decode (snd snapshot));
            do _ <- modify (confirmed_at o);
            Ret (Ok tt)
        end);
      do _ <- modify (operation_drop o op false);
      Ret (Ok tt)
  end.
Definition reconcile_rules (o : nat) : cprog (result unit PermissionError) :=
  do? permit <- acquire_lifecycle o;
  reconcile_rules_inner o (Some permit).
Definition reconcile_rules_admitted (o : nat) (permit : LifecyclePermit) : cprog (result unit PermissionError) :=
  do? _ <- check_admitted o permit;
  reconcile_rules_inner o None.
End Controller.
