(* ===== verification/ControllerProofs.v ===== *)
(** * What an authorization decides

    An execution is bound to its proof only for a reason: the mode of the turn, a
    saved rule, a live grant, a configured rule, the tool's own bypass, an automatic
    review or the answer of a person; never against a denial the mode of the turn
    honours (in an unrestricted turn only the saved denial of a file mutation, in the
    other modes every configured and saved denial); and only right after the
    authority of the proof was checked again. Nothing is assumed of
    the other tasks or of the answers of the host. *)
From S2P Require Import Prelude Json Model Prog SessionState Patterns Rules Lifecycle Controller.
Open Scope prog_scope.

(** ** Calls and observations of a history *)
Notation ccall := {q : CtlQuery & CtlAns q}.
Notation called q x := (existT q x).

Fixpoint asked (h : CtlEvents) : list ccall :=
  match h with
  | [] => []
  | EvAsk _ q x :: h => called q x :: asked h
  | _ :: h => asked h
  end.

(** A state that was read *)
Definition saw (P : CtlWorld -> Prop) (h : CtlEvents) : Prop := exists s, EvAct s s ∈ h /\ P s.

Lemma saw_here P s h : P s -> saw P (EvAct s s :: h).
Proof. intros HP. exists s. split; [apply list_elem_of_here|done]. Qed.
Lemma saw_cons P e h : saw P h -> saw P (e :: h).
Proof. intros (s & Hs & HP). exists s. split; [by apply list_elem_of_further|done]. Qed.

(** A weaker guarantee *)
Lemma wp_allowed_mono {St Query Ans} rely admissible (al al' : event St Query Ans -> history St Query Ans -> Prop) {A}
    (p : prog St Query Ans A) post s h :
  (forall e h, al e h -> al' e h) -> wp rely admissible al p post s h -> wp rely admissible al' p post s h.
Proof.
  intros Hal. revert s h. induction p as [a| |X f k IH|q k IH|d k IH|X r d k IH]; simpl; intros s h Hw s' Hr.
  - auto.
  - auto.
  - destruct (Hw s' Hr). auto.
  - intros x Hx. destruct (Hw s' Hr x Hx). auto.
  - destruct (Hw s' Hr) as [[??] ?]. auto.
  - destruct (Hw s' Hr) as ([??] & Hb & Hk). split_and!; [auto|auto|auto|].
    intros x s1 Hx. destruct (Hk x s1 Hx). auto.
Qed.

(** ** Reading the state of an owner *)
Section Reads.
Context `{JsonNumbers} (sha256 : string -> string) `{JsonWriter}.

(** The authority of a proof, in one state of its owner *)
Record authority (x : ExecutionProof) (s : CtlWorld) : Prop := {
  au_published : c_publication s (ow_publication (c_owner s (xp_owner x))) = ACTIVE;
  au_retired : ps_retired (ostate s (xp_owner x)) = false;
  au_gate : forall gate, ow_lifecycle (c_owner s (xp_owner x)) = Some gate -> g_phase (fst (c_gate s gate)) <> Retired;
  au_active : ps_active (ostate s (xp_owner x)) = Some (xp_attempt x);
  au_running : tn_cancelled (c_turn s (at_handle (c_attempt s (xp_attempt x)))) = false;
  au_editing : tn_editors_active (c_turn s (at_handle (c_attempt s (xp_attempt x)))) = true;
  au_settled : ps_changing_rules (ostate s (xp_owner x)) = false /\ ps_uncertain_rules (ostate s (xp_owner x)) = false;
  au_epoch : forall e, xp_epoch x = Some e -> ps_epoch (ostate s (xp_owner x)) = e;
  au_rules_epoch : forall e, xp_rules_epoch x = Some e -> ps_rules_epoch (ostate s (xp_owner x)) = e;
}.
(** and of the saved rules *)
Definition saved_authority (x : ExecutionProof) (key : RuleKey) (s : CtlWorld) : Prop :=
  exists rules, from_metadata sha256 (rec_metadata (ss_record (osession s (xp_owner x)))) = Ok rules /\
    rule_generation <$> rule_for_key rules key = xp_saved_generation x /\
    forall rule, rule_for_key rules key = Some rule -> rule_decision rule = Rule_Allow.

(** The last thing that happened was the check of the proof. *)
Definition cleared (x : ExecutionProof) (h : CtlEvents) : Prop :=
  match xp_saved x with
  | None => exists s h', h = EvAct s s :: h' /\ authority x s
  | Some key => exists s s' h', h = EvAct s' s' :: EvAct s s :: h' /\ authority x s /\ saved_authority x key s'
  end.

(** More of the state was read. *)
Definition observes (h h' : CtlEvents) : Prop := exists l, h' = l ++ h /\ Forall (fun e => exists s, e = EvAct s s) l.

Lemma observes_refl h : observes h h.
Proof. by exists []. Qed.
Lemma observes_read s h h' : observes h h' -> observes h (EvAct s s :: h').
Proof. intros (l & -> & Hl). exists (EvAct s s :: l). split; [done|]. constructor; [by eexists|done]. Qed.
Lemma observes_asked h h' : observes h h' -> asked h' = asked h.
Proof. intros (l & -> & Hl). induction Hl as [|e l (s & ->) _ IH]; done. Qed.
Lemma attempt_at_ok s o turn a epoch rules_epoch : attempt_at s o turn = Ok (a, epoch, rules_epoch) ->
  let p := ostate s o in
  published s o = true /\ ps_retired p = false /\ gate_retired s o = false /\ ps_active p = Some a /\
  at_turn (c_attempt s a) = turn /\ turn_live s a = true /\ ps_changing_rules p = false /\ ps_uncertain_rules p = false /\
  ps_epoch p = epoch /\ ps_rules_epoch p = rules_epoch.
Proof.
  unfold attempt_at. destruct (published s o), (ps_retired (ostate s o)), (gate_retired s o); simpl; try done.
  destruct (ps_active (ostate s o)) as [b|]; [|done]. unfold attempt_live.
  destruct (bool_decide_reflect (at_turn (c_attempt s b) = turn)), (turn_live s b) eqn:?; simpl; try done.
  destruct (ps_changing_rules (ostate s o)), (ps_uncertain_rules (ostate s o)); simpl; try done.
  intros [= -> <- <-]. by split_and!.
Qed.

Lemma current_authority x s turn found : attempt_at s (xp_owner x) turn = Ok found -> proof_current x found = true -> authority x s.
Proof.
  destruct found as [[a epoch] rules_epoch].
  intros (Hp & Hr & Hg & Ha & _ & Hl & Hc & Hu & He & Hre)%attempt_at_ok. unfold proof_current.
  rewrite !andb_true_iff, Nat.eqb_eq. intros [[<- Hxe] Hxr].
  unfold turn_live in Hl. rewrite andb_true_iff, negb_true_iff in Hl. destruct Hl.
  split; try done.
  - by apply bool_decide_eq_true in Hp.
  - intros gate Hgate. unfold gate_retired in Hg. rewrite Hgate in Hg. apply bool_decide_eq_false in Hg.
    unfold load_gate in Hg. by destruct (c_gate s gate).
  - intros e E. rewrite E in Hxe. apply N.eqb_eq in Hxe. congruence.
  - intros e E. rewrite E in Hxr. apply N.eqb_eq in Hxr. congruence.
Qed.

Lemma saved_authority_intro x key s rules : read_rules_at sha256 s (ow_session (c_owner s (xp_owner x))) = Ok rules ->
  proof_saved x key rules = true -> saved_authority x key s.
Proof.
  intros Hr%map_err_ok. unfold proof_saved. rewrite andb_true_iff, bool_decide_eq_true, negb_true_iff. intros [Hd Hg].
  exists rules. split_and!; [done|done|]. intros rule E. rewrite E in Hd. apply bool_decide_eq_false in Hd.
  by destruct (rule_decision rule).
Qed.


(** A guarantee that allows to read *)
Context (allowed : event CtlWorld CtlQuery CtlAns -> CtlEvents -> Prop) (reads : forall s h, allowed (EvAct s s) h).
Notation cwp := (wp (fun _ _ => True) (fun _ _ _ _ => True) allowed).

Lemma cwp_get {X B} (f : CtlWorld -> X) (c : X -> cprog B) Q s h :
  (forall s, cwp (c (f s)) Q s (EvAct s s :: h)) -> cwp (bind (get f) c) Q s h.
Proof. intros Hc s' _. split; [apply reads|]. apply Hc. Qed.

(** The end of the program, in any state *)
Definition at_end {A} (Q : outcome A -> CtlWorld -> CtlEvents -> Prop) (a : A) (h : CtlEvents) : Prop := forall s, Q (Returned a) s h.

Lemma cwp_ret {A} (a : A) Q s h : at_end Q a h -> cwp (Ret a) Q s h.
Proof. intros HQ s' _. apply HQ. Qed.

Lemma cwp_try_get {X B} (f : CtlWorld -> result X PermissionError) (c : X -> cprog (result B PermissionError)) Q s h :
  (forall s e, at_end Q (Err e) (EvAct s s :: h)) ->
  (forall s a, f s = Ok a -> cwp (c a) Q s (EvAct s s :: h)) -> cwp (try (get f) c) Q s h.
Proof.
  intros He Hc. apply cwp_get. intros s'. destruct (f s') as [a|e] eqn:E; [by apply Hc|]. by apply cwp_ret.
Qed.

Lemma cwp_revalidate_post x s h :
  cwp (revalidate sha256 x)
      (fun o _ h' => match o with
                     | Returned (Ok _) => observes h h' /\ cleared x h'
                     | Returned (Err _) => observes h h'
                     | _ => False
                     end) s h.
Proof.
  unfold revalidate. apply cwp_get. intros s1. destruct (ow_alive _); simpl negb; cbn iota; [|by apply cwp_ret; intros ?; apply observes_read, observes_refl].
  apply cwp_get. intros s2. destruct (at_alive _); cbn iota;
    [|apply cwp_ret; intros ?; by apply observes_read, observes_read, observes_refl].
  apply cwp_try_get; [intros ? ? ?; by repeat apply observes_read; apply observes_refl|]. intros s3 found Hf.
  destruct (proof_current x found) eqn:Hc; cbn [negb]; cbn iota;
    [|apply cwp_ret; intros ?; by repeat apply observes_read; apply observes_refl].
  pose proof (current_authority _ _ _ _ Hf Hc) as Ha. destruct (xp_saved x) as [key|] eqn:Es.
  - apply cwp_try_get; [intros ? ? ?; by repeat apply observes_read; apply observes_refl|]. intros s4 rules Hr.
    apply cwp_ret. intros s5. destruct (proof_saved x key rules) eqn:Ep; [|by repeat apply observes_read; apply observes_refl].
    split; [by repeat apply observes_read; apply observes_refl|]. unfold cleared. rewrite Es. exists s3, s4. eexists.
    split_and!; [done|done|]. by eapply saved_authority_intro.
  - apply cwp_ret. intros s4. split; [by repeat apply observes_read; apply observes_refl|]. unfold cleared. rewrite Es. by eexists _, _.
Qed.

Lemma cwp_revalidate x {B} (c : unit -> cprog (result B PermissionError)) Q s h :
  (forall h' e, observes h h' -> at_end Q (Err e) h') ->
  (forall s h', observes h h' -> cleared x h' -> cwp (c tt) Q s h') -> cwp (try (revalidate sha256 x) c) Q s h.
Proof.
  intros He Hc. apply (wp_bind (fun _ _ => True) (fun _ _ _ _ => True) allowed (fun _ => I)). eapply wp_mono; [|apply cwp_revalidate_post].
  intros o s' h' Ho. destruct o as [[[]|e]| | |]; simpl in *; [|by apply cwp_ret, He|done..]. destruct Ho. by apply Hc.
Qed.

(** Calls, and the futures they return *)
Lemma cwp_asked {B} q (c : CtlAns q -> cprog B) Q s h : (forall s x, allowed (EvAsk s q x) h) ->
  (forall x s, cwp (c x) Q s (EvAsk s q x :: h)) -> cwp (bind (ask q) c) Q s h.
Proof. intros Hq Hc s' _ x _. split; [apply Hq|]. apply Hc. Qed.

Lemma cwp_await_polls {T B} n (r : T) (c : T -> cprog B) Q s h : (forall s h, allowed (EvDrop s s) h) ->
  (forall s, Q Dropped s (EvDrop s s :: h)) -> (forall s, cwp (c r) Q s h) -> cwp (bind (await_polls n r) c) Q s h.
Proof.
  intros Ha Hd Hc. revert s. induction n as [|n IH]; intros s; [apply Hc|]. intros s' _. split; [|apply IH]. split; [apply Ha|apply Hd].
Qed.

Lemma cwp_await {T B} (p : cprog (Fut T)) (c : T -> cprog B) Q s h :
  cwp (bind p (fun f => bind (await_polls (fst f) (snd f)) c)) Q s h -> cwp (bind (await_call p) c) Q s h.
Proof. apply wp_assoc. Qed.
End Reads.

Section Authorize.
Context `{JsonNumbers} (sha256 : string -> string) `{JsonWriter}.
Context (request : PermissionRequest) (invocation : PermissionInvocation).

(** What an authorization has captured. *)
Record trail := {
  t_owner : nat;
  t_attempt : nat;
  t_epoch : N;
  t_rules_epoch : N;
  t_policy : Policy;
  t_token : nat;
  t_polls : nat;
  t_action : Action;
  t_rules : SessionRules;
  t_configured : ConfiguredOutcome;
}.

Definition t_mode (t : trail) : PermissionMode := pol_mode (t_policy t).
(** Unrestricted turns consult saved rules only for file mutations. *)
Definition t_saved (t : trail) : option RuleKey :=
  match t_mode t with Mode_Yolo => if is_file_mutation (t_action t) then saved_rule_key (t_action t) else None
                    | _ => saved_rule_key (t_action t) end.
Definition t_saved_rule (t : trail) : option PermissionRule := t_saved t ≫= rule_for_key (t_rules t).
Definition t_proof (t : trail) : ExecutionProof :=
  {| xp_owner := t_owner t; xp_attempt := t_attempt t;
     xp_epoch := match t_mode t with Mode_Yolo => None | _ => Some (t_epoch t) end;
     xp_rules_epoch := match t_mode t with
                       | Mode_Yolo => if is_file_mutation (t_action t) then Some (t_rules_epoch t) else None
                       | _ => Some (t_rules_epoch t) end;
     xp_saved := t_saved t; xp_saved_generation := rule_generation <$> t_saved_rule t |}.

(** The turn of the request was active, with these epochs and this policy. *)
Definition routed_to (t : trail) (h : CtlEvents) : Prop :=
  saw (fun s => t_owner t ∈ c_routes s /\ ow_alive (c_owner s (t_owner t)) = true /\ published s (t_owner t) = true /\
    ss_id (osession s (t_owner t)) = pr_session_id request /\
    ss_incarnation (osession s (t_owner t)) = pr_session_incarnation_id request) h /\
  saw (fun s => ps_active (ostate s (t_owner t)) = Some (t_attempt t) /\ ps_retired (ostate s (t_owner t)) = false /\
    at_turn (c_attempt s (t_attempt t)) = pr_turn_id request /\
    ps_epoch (ostate s (t_owner t)) = t_epoch t /\ ps_rules_epoch (ostate s (t_owner t)) = t_rules_epoch t) h /\
  saw (fun s => at_policy (c_attempt s (t_attempt t)) = t_policy t /\ at_cancellation (c_attempt s (t_attempt t)) = t_token t) h.
Definition ruled (t : trail) (h : CtlEvents) : Prop :=
  routed_to t h /\
  saw (fun s => from_metadata sha256 (rec_metadata (ss_record (osession s (t_owner t)))) = Ok (t_rules t)) h.

Definition prepared_calls (t : trail) : list ccall :=
  [called (C_prepare request invocation (t_token t)) (t_polls t, Ok (t_action t))].
Definition judged_calls (t : trail) : list ccall :=
  match t_mode t with
  | Mode_Yolo => prepared_calls t
  | _ => called (C_configured_outcome (t_action t) (pol_configured (t_policy t))) (Ok (t_configured t)) :: prepared_calls t
  end.
Definition reviewed_calls (t : trail) (allowed : bool) : list ccall :=
  called (C_allows_without_review (t_action t) (t_mode t)) allowed :: judged_calls t.

(** The saved rules have no denial of the action. *)
Definition saved_allows (t : trail) : Prop :=
  forall key rule, saved_rule_key (t_action t) = Some key -> rule_for_key (t_rules t) key = Some rule ->
    rule_decision rule = Rule_Allow.

(** No rule the mode of the turn honours denies the action. An unrestricted turn
    bypasses the configured rules, and the saved rules of everything but a file
    mutation; every other turn honours both. *)
Definition undenied (t : trail) : Prop :=
  match t_mode t with
  | Mode_Yolo => t_configured t = Outcome_Unresolved /\ (is_file_mutation (t_action t) = true -> saved_allows t)
  | Mode_Ask | Mode_Auto => t_configured t <> Outcome_Deny /\ saved_allows t
  end.

(** Where a person is asked *)
Definition prompting (t : trail) (cs : list ccall) : Prop :=
  t_mode t <> Mode_Yolo /\ t_saved_rule t = None /\
  ((t_configured t = Outcome_Ask /\ cs = judged_calls t) \/
   (t_configured t = Outcome_Unresolved /\ t_mode t = Mode_Ask /\ cs = reviewed_calls t false)).

(** Why an action may run *)
Inductive justified (t : trail) (h : CtlEvents) : Prop :=
| by_mode : t_mode t = Mode_Yolo -> asked h = judged_calls t -> justified t h
| by_saved_rule rule : t_saved_rule t = Some rule -> rule_decision rule = Rule_Allow -> asked h = judged_calls t -> justified t h
| by_grant key : grant_key (t_action t) = Some key ->
    saw (fun s => Exists (fun g => grant_rule g = key /\ (grant_turn g = None \/ grant_turn g = Some (pr_turn_id request)))
                         (ps_grants (ostate s (t_owner t)))) h ->
    asked h = judged_calls t -> justified t h
| by_configured_rule : t_configured t = Outcome_Allow -> asked h = judged_calls t -> justified t h
| by_tool : t_configured t = Outcome_Unresolved -> asked h = reviewed_calls t true -> justified t h
| by_review n : t_mode t = Mode_Auto -> t_configured t = Outcome_Unresolved ->
    asked h = called (C_automatic_review (t_action t) (t_token t)) (n, Ok Auto_Allow) :: reviewed_calls t false -> justified t h
| by_person prompt n decision cs : prompting t cs -> decision <> Prompt_Deny ->
    asked h = called (C_prompt_with_rule request prompt) (n, Ok decision) :: cs -> justified t h.

(** ** The protocol *)
Inductive asks (h : CtlEvents) : CtlQuery -> Prop :=
| asks_prepare t : routed_to t h -> asked h = [] -> asks h (C_prepare request invocation (t_token t))
| asks_configured t : ruled t h -> asked h = prepared_calls t -> t_mode t <> Mode_Yolo ->
    asks h (C_configured_outcome (t_action t) (pol_configured (t_policy t)))
| asks_allows t : ruled t h -> asked h = judged_calls t -> undenied t -> t_mode t <> Mode_Yolo -> t_saved_rule t = None ->
    t_configured t = Outcome_Unresolved -> asks h (C_allows_without_review (t_action t) (t_mode t))
| asks_review t : ruled t h -> asked h = reviewed_calls t false -> undenied t -> t_mode t = Mode_Auto ->
    t_configured t = Outcome_Unresolved -> asks h (C_automatic_review (t_action t) (t_token t))
| asks_prompt t prompt cs : ruled t h -> asked h = cs -> undenied t -> prompting t cs ->
    rp_key <$> prompt = saved_rule_key (t_action t) -> asks h (C_prompt_with_rule request prompt)
| asks_bind t x : ruled t h -> undenied t -> justified t h -> x = t_proof t -> cleared sha256 x h ->
    asks h (C_bind_execution (t_action t) x).

Definition same_grants (s s' : CtlWorld) : Prop := forall o, ps_grants (ostate s' o) = ps_grants (ostate s o).

(** A grant is kept only for the answer of a person, right after the check. *)
Definition remembers (s s' : CtlWorld) (h : CtlEvents) : Prop :=
  exists t prompt n decision cs key turn,
    ruled t h /\ undenied t /\ prompting t cs /\ cleared sha256 (t_proof t) h /\
    asked h = called (C_prompt_with_rule request prompt) (n, Ok decision) :: cs /\
    grant_key (t_action t) = Some key /\
    ((decision = Prompt_AllowTurn /\ turn = Some (at_turn (c_attempt s (t_attempt t)))) \/
     (decision = Prompt_AllowSession /\ turn = None)) /\
    ps_epoch (ostate s (t_owner t)) = t_epoch t /\
    s' = set_state s (t_owner t) (set_active (ostate s (t_owner t)) (ps_active (ostate s (t_owner t)))
           (ps_grants (ostate s (t_owner t)) ++ [{| grant_rule := key; grant_turn := turn |}])).

Definition authorize_allowed (e : event CtlWorld CtlQuery CtlAns) (h : CtlEvents) : Prop :=
  match e with
  | EvAsk _ q _ => asks h q
  | EvAct s s' => same_grants s s' \/ remembers s s' h
  | EvDrop s s' => same_grants s s'
  end.

(** ** How it ends *)
Definition bound (c : ccall) : option N :=
  match c with
  | existT q x => match q return CtlAns q -> option N with
                  | C_bind_execution _ _ => fun x => match x with Ok n => Some n | Err _ => None end
                  | _ => fun _ => None
                  end x
  end.
Definition unbound (h : CtlEvents) : Prop := Forall (fun c => bound c = None) (asked h).

Definition authorized (o : outcome (result PermissionAuthorization PermissionError)) (s : CtlWorld) (h : CtlEvents) : Prop :=
  match o with
  | Returned (Ok a) =>
      (exists n, a = {| auth_decision := Allow Scope_Once; auth_admission := Some n |} /\ (head (asked h) ≫= bound) = Some n) \/
      (exists reason, a = denied reason /\ unbound h)
  | Returned (Err _) => unbound h
  | Dropped => unbound h /\ exists before h', h = EvDrop before s :: h'
  | Panicked | Blocked => False
  end.

Notation cwp := (wp (fun _ _ => True) (fun _ _ _ _ => True) authorize_allowed).
Notation bind_cwp := (wp_bind (fun _ _ => True) (fun _ _ _ _ => True) authorize_allowed (fun _ => I)).

Lemma allowed_read s h : authorize_allowed (EvAct s s) h.
Proof. by left. Qed.

Lemma routed_cons t e h : routed_to t h -> routed_to t (e :: h).
Proof. intros (? & ? & ?). split_and!; by apply saw_cons. Qed.
Lemma ruled_cons t e h : ruled t h -> ruled t (e :: h).
Proof. intros [? ?]. split; [by apply routed_cons|by apply saw_cons]. Qed.

Lemma cwp_ask {B} q (c : CtlAns q -> cprog B) Q s h : asks h q ->
  (forall x s, cwp (c x) Q s (EvAsk s q x :: h)) -> cwp (bind (ask q) c) Q s h.
Proof. intros Hq. by apply cwp_asked. Qed.

Lemma observes_ruled t h h' : observes h h' -> ruled t h -> ruled t h'.
Proof. intros (l & -> & Hl) Hr. clear Hl. induction l as [|e l IH]; [done|]. by apply ruled_cons. Qed.


Lemma observes_unbound h h' : observes h h' -> unbound h -> unbound h'.
Proof. intros Hx. unfold unbound. by rewrite (observes_asked _ _ Hx). Qed.

Lemma observes_justified t h h' : observes h h' -> justified t h -> justified t h'.
Proof.
  intros Hx. assert (asked h' = asked h) as Ha by (by apply observes_asked).
  destruct 1 as [? E|r ? ? E|key Hk Hs E|? E|? E|n ? ? E|prompt n d cs ? ? E]; rewrite <-Ha in E;
    [by apply by_mode|by eapply by_saved_rule| |by apply by_configured_rule|by apply by_tool|by eapply by_review|by eapply by_person].
  apply (by_grant _ _ key); [done| |done]. destruct Hx as (l & -> & _). clear - Hs.
  induction l as [|e l IH]; [done|]. by apply saw_cons.
Qed.

Lemma cwp_admit t s h : ruled t h -> undenied t -> justified t h -> unbound h ->
  cwp (admit_action sha256 (t_action t) (t_proof t)) authorized s h.
Proof.
  intros Hr Hu Hj Hn. apply (cwp_revalidate sha256 _ allowed_read); [intros h' e Hx ?; by eapply observes_unbound|].
  intros s' h' Hx Hc. apply cwp_ask.
  { eapply asks_bind; [by eapply observes_ruled|done|by eapply observes_justified|done|done]. }
  intros x s''. assert (unbound h') as Hn' by (by eapply observes_unbound). destruct x as [n|e]; apply cwp_ret; intros ?.
  - left. by exists n.
  - by constructor.
Qed.

Lemma cwp_denied reason s h : unbound h -> cwp (Ret (Ok (denied reason))) authorized s h.
Proof. intros Hn. apply cwp_ret. intros ?. right. by exists reason. Qed.

Lemma set_state_grants s o p : ps_grants p = ps_grants (ostate s o) -> same_grants s (set_state s o p).
Proof. intros E o'. unfold ostate, set_state, upd. simpl. unfold upd. by destruct (decide (o' = o)) as [->|]. Qed.

Lemma remember_grant_at_spec o a epoch key decision s r s' : remember_grant_at o a epoch key decision s = (r, s') ->
  s' = s \/ exists k turn, key = Some k /\ ps_epoch (ostate s o) = epoch /\
    ((decision = Prompt_AllowTurn /\ turn = Some (at_turn (c_attempt s a))) \/ (decision = Prompt_AllowSession /\ turn = None)) /\
    s' = set_state s o (set_active (ostate s o) (ps_active (ostate s o))
           (ps_grants (ostate s o) ++ [{| grant_rule := k; grant_turn := turn |}])).
Proof.
  unfold remember_grant_at. destruct (ps_retired _); [intros [= _ <-]; by left|].
  destruct (N.eqb_spec (ps_epoch (ostate s o)) epoch); [|intros [= _ <-]; by left]. simpl orb.
  case_match; [intros [= _ <-]; by left|]. destruct key as [k|]; [|intros [= _ <-]; by left].
  destruct decision; [intros [= _ <-]; by left| | |intros [= _ <-]; by left].
  - rewrite (bool_decide_true (Prompt_AllowTurn = Prompt_AllowTurn)) by done.
    destruct (bool_decide _); [intros [= _ <-]; by left|]. destruct (_ =? _)%N; intros [= _ <-]; [by left|].
    right. eexists k, _. split_and!; eauto.
  - rewrite (bool_decide_false (Prompt_AllowSession = Prompt_AllowTurn)) by done.
    destruct (bool_decide _); [intros [= _ <-]; by left|]. destruct (_ =? _)%N; intros [= _ <-]; [by left|].
    right. eexists k, _. split_and!; eauto.
Qed.

Lemma cwp_lifetime prompt p s h : cwp p authorized s h -> cwp (guarded (prompt_lifetime prompt) (fun _ => false) p) authorized s h.
Proof.
  intros Hp. assert (forall s, same_grants s (prompt_lifetime prompt s)) as Hg by (by destruct prompt).
  apply wp_guarded, (wp_allowed_mono _ _ authorize_allowed).
  { intros [| |] h0; simpl; [done|done|]. intros Hs o. rewrite (Hg _ o). apply Hs. }
  eapply wp_mono; [|exact Hp]. intros o s' h' Ho. destruct o as [[a|e]| | |]; simpl in *.
  - split; [by left|]. by intros s'' _.
  - split; [by left|]. by intros s'' _.
  - destruct Ho as [Hb (before & h1 & ->)]. split; [done|]. by eexists _, _.
  - done.
  - done.
Qed.

(** A prompt, once a person must be asked. *)
Lemma cwp_prompted t cs s h : ruled t h -> asked h = cs -> undenied t -> prompting t cs -> unbound h ->
  cwp (prompted sha256 (t_owner t) (t_attempt t) (t_epoch t) (t_rules_epoch t) request (t_action t) (t_proof t)) authorized s h.
Proof.
  intros Hr Hcs Hu Hp Hn. unfold prompted. apply bind_cwp.
  apply (wp_mono _ _ _ _ (fun o _ h' => match o with
    | Returned prompt => ruled t h' /\ asked h' = cs /\ rp_key <$> prompt = saved_rule_key (t_action t)
    | _ => False end)).
  2: { destruct (saved_rule_key (t_action t)) as [key|]; [|by intros s' _].
       intros s1 _. split; [by left|]. intros s2 _. simpl. by split; [apply ruled_cons|]. }
  clear dependent s. intros o s h' Ho. destruct o as [prompt| | |]; [|done..]. cbn [sequel]. destruct Ho as (Hr' & Ha & Hk).
  assert (unbound h') as Hn' by (unfold unbound in *; congruence). apply cwp_lifetime. apply cwp_await. apply cwp_ask.
  { by eapply asks_prompt. }
  intros [n answer] s1. apply cwp_await_polls; [done|..].
  { intros s2. split; [by constructor|by eexists _, _]. }
  intros s2. simpl snd. destruct answer as [decision|[]]; [|apply cwp_ret; intros ?; by constructor].
  assert (unbound (EvAsk s1 (C_prompt_with_rule request prompt) (n, Ok decision) :: h')) as Hn1 by (by constructor).
  apply (cwp_revalidate sha256 _ allowed_read); [intros h2 e Hx ?; by eapply observes_unbound|]. intros s3 h2 Hx Hc.
  assert (ruled t h2) as Hr2 by (eapply observes_ruled; [done|by apply ruled_cons]).
  pose proof (observes_asked _ _ Hx) as Ha2. simpl in Ha2. rewrite Ha in Ha2.
  assert (unbound h2) as Hn2 by (by eapply observes_unbound).
  destruct (bool_decide_reflect (decision = Prompt_Deny)) as [->|Hd]; [by apply cwp_denied|].
  intros s4 _. destruct (remember_grant_at _ _ _ _ _ s4) as [r s5] eqn:Er. simpl. split.
  - apply remember_grant_at_spec in Er as [->|(k & turn & Hkey & He & Hturn & ->)]; [by left|]. right.
    exists t, prompt, n, decision, cs, k, turn. by split_and!.
  - destruct r as [[]|e]; [|apply cwp_ret; intros ?; by unfold unbound in *].
    apply cwp_admit; [by apply ruled_cons|done| |done]. by eapply (by_person _ _ prompt n decision cs).
Qed.

(** What the code computes from the captured values *)
Lemma t_proof_eq t : t_proof t =
  {| xp_owner := t_owner t; xp_attempt := t_attempt t;
     xp_epoch := if bool_decide (pol_mode (t_policy t) = Mode_Yolo) then None else Some (t_epoch t);
     xp_rules_epoch := if negb (bool_decide (pol_mode (t_policy t) = Mode_Yolo)) || is_file_mutation (t_action t)
                       then Some (t_rules_epoch t) else None;
     xp_saved := if bool_decide (pol_mode (t_policy t) = Mode_Yolo) && negb (is_file_mutation (t_action t)) then None
                 else saved_rule_key (t_action t);
     xp_saved_generation := rule_generation <$>
       ((if bool_decide (pol_mode (t_policy t) = Mode_Yolo) && negb (is_file_mutation (t_action t)) then None
         else saved_rule_key (t_action t)) ≫= rule_for_key (t_rules t)) |}.
Proof.
  unfold t_proof, t_saved_rule, t_saved, t_mode. destruct (pol_mode (t_policy t)); try done. by destruct (is_file_mutation _).
Qed.

Lemma t_saved_rule_eq t : t_saved_rule t =
  (if bool_decide (pol_mode (t_policy t) = Mode_Yolo) && negb (is_file_mutation (t_action t)) then None
   else saved_rule_key (t_action t)) ≫= rule_for_key (t_rules t).
Proof. unfold t_saved_rule, t_saved, t_mode. destruct (pol_mode (t_policy t)); try done. by destruct (is_file_mutation _). Qed.

Lemma grants_to_true turn key g : grants_to turn key g = true ->
  grant_rule g = key /\ (grant_turn g = None \/ grant_turn g = Some turn).
Proof.
  unfold grants_to. rewrite andb_true_iff, bool_decide_eq_true. destruct (grant_turn g) as [u|]; [|by intros []; auto].
  rewrite bool_decide_eq_true. intros [? ->]. auto.
Qed.

(** The last steps, when no rule, grant or mode has decided *)
Lemma cwp_undecided t s h : ruled t h -> asked h = judged_calls t -> unbound h -> undenied t -> t_mode t <> Mode_Yolo ->
  t_saved_rule t = None ->
  cwp (do allowed <- (if bool_decide (t_configured t = Outcome_Ask) then Ret false
                      else if bool_decide (t_configured t = Outcome_Allow) then Ret true
                      else ask (C_allows_without_review (t_action t) (pol_mode (t_policy t))));
       if (allowed : bool) then admit_action sha256 (t_action t) (t_proof t)
       else if bool_decide (pol_mode (t_policy t) = Mode_Auto) && negb (bool_decide (t_configured t = Outcome_Ask)) then
         do review <- await_call (ask (C_automatic_review (t_action t) (t_token t)));
         match review with
         | Ok Auto_Allow => admit_action sha256 (t_action t) (t_proof t)
         | Ok Auto_Ask | Err _ => Ret (Ok (denied "automatic permission review requires replanning"))
         end
       else prompted sha256 (t_owner t) (t_attempt t) (t_epoch t) (t_rules_epoch t) request (t_action t) (t_proof t))
      authorized s h.
Proof.
  intros Hr Ha Hn Hu Hy Hs.
  assert (t_configured t <> Outcome_Deny) as Hd by (unfold undenied in Hu; by destruct (t_mode t), Hu).
  destruct (bool_decide_reflect (t_configured t = Outcome_Ask)) as [Hask|Hask].
  { simpl bind. rewrite andb_false_r. eapply cwp_prompted; [done..| |done]. split_and!; [done|done|]. by left. }
  destruct (bool_decide_reflect (t_configured t = Outcome_Allow)) as [Hal|Hal].
  { apply cwp_admit; [done|done| |done]. by apply by_configured_rule. }
  assert (t_configured t = Outcome_Unresolved) as Hun by (by destruct (t_configured t)).
  apply cwp_ask; [by apply asks_allows|]. intros allowed s1.
  assert (forall b, unbound (EvAsk s1 (C_allows_without_review (t_action t) (pol_mode (t_policy t))) b :: h)) as Hn1
    by (by constructor).
  assert (forall b, ruled t (EvAsk s1 (C_allows_without_review (t_action t) (pol_mode (t_policy t))) b :: h)) as Hr1
    by (intros; by apply ruled_cons).
  assert (forall b, asked (EvAsk s1 (C_allows_without_review (t_action t) (pol_mode (t_policy t))) b :: h) = reviewed_calls t b) as Ha1
    by (intros b; simpl; by rewrite Ha).
  simpl in allowed. destruct allowed.
  { apply cwp_admit; [done|done| |done]. apply by_tool; [done|apply Ha1]. }
  destruct (bool_decide_reflect (pol_mode (t_policy t) = Mode_Auto)) as [Hm|Hm]; cbn [andb negb].
  - apply cwp_await, cwp_ask; [by apply asks_review; [..|apply Ha1|done|done|done]|]. intros [n review] s2. apply cwp_await_polls; [done|..].
    { intros s3. split; [constructor; [done|apply Hn1]|by eexists _, _]. }
    intros s3. simpl snd. assert (unbound (EvAsk s2 (C_automatic_review (t_action t) (t_token t)) (n, review) ::
      EvAsk s1 (C_allows_without_review (t_action t) (pol_mode (t_policy t))) false :: h)) as Hn2 by (constructor; [done|apply Hn1]).
    destruct review as [[]|]; [|by apply cwp_denied..]. apply cwp_admit; [by apply ruled_cons|done| |done].
    eapply (by_review _ _ n); [done|done|]. simpl. by rewrite Ha.
  - eapply cwp_prompted; [done|apply Ha1|done| |done]. split_and!; [done|done|]. right. split_and!; [done| |done].
    unfold t_mode in *. by destruct (pol_mode (t_policy t)).
Qed.

Lemma undenied_intro t :
  t_configured t <> Outcome_Deny -> (forall rule, t_saved_rule t = Some rule -> rule_decision rule = Rule_Allow) ->
  (t_mode t = Mode_Yolo -> t_configured t = Outcome_Unresolved) -> undenied t.
Proof.
  intros Hd Hs Hy. unfold undenied, saved_allows, t_saved_rule, t_saved in *.
  destruct (t_mode t); (split; [by auto|]); [| |intros Hf; rewrite Hf in Hs];
    intros key rule Ek Er; apply Hs; by rewrite Ek.
Qed.

Lemma cwp_judged t s h : ruled t h -> asked h = judged_calls t -> unbound h -> (t_mode t = Mode_Yolo -> t_configured t = Outcome_Unresolved) ->
  cwp (authorize_judged sha256 (t_owner t) (t_attempt t) (t_epoch t) (t_rules_epoch t) (t_policy t) (t_token t) request
         (t_action t) (t_rules t) (t_configured t)) authorized s h.
Proof.
  intros Hr Ha Hn Hyolo. unfold authorize_judged. cbv zeta. rewrite <-(t_proof_eq t), <-(t_saved_rule_eq t).
  destruct (bool_decide_reflect (t_configured t = Outcome_Deny)) as [Hd|Hd]; [by apply cwp_denied|]. cbn [orb].
  destruct (is_deny (t_saved_rule t)) eqn:Edeny; [by apply cwp_denied|].
  assert (forall rule, t_saved_rule t = Some rule -> rule_decision rule = Rule_Allow) as Hsaved.
  { intros rule E. unfold is_deny in Edeny. rewrite E in Edeny.
    apply bool_decide_eq_false in Edeny. by destruct (rule_decision rule). }
  pose proof (undenied_intro t Hd Hsaved Hyolo) as Hu.
  apply bind_cwp. apply (wp_mono _ _ _ _ (fun o _ h' => match o with
    | Returned granted => observes h h' /\ (granted = true -> exists key, grant_key (t_action t) = Some key /\
        saw (fun s => Exists (fun g => grant_rule g = key /\ (grant_turn g = None \/ grant_turn g = Some (pr_turn_id request)))
                             (ps_grants (ostate s (t_owner t)))) h')
    | _ => False end)).
  2: { destruct (grant_key (t_action t)) as [key|]; [|intros s' _; split; [apply observes_refl|done]].
       intros s1 _. split; [by left|]. intros s2 _. split; [by apply observes_read, observes_refl|]. intros Hg. exists key.
       split; [done|]. apply saw_here. unfold granted_at in Hg. simpl in Hg. apply existsb_exists in Hg as (g & Hin & Hg).
       apply Exists_exists. exists g. split; [by apply list_elem_of_In|by apply grants_to_true]. }
  clear dependent s. intros o s h' Ho. destruct o as [granted| | |]; [|done..]. cbn [sequel]. destruct Ho as [Hx Hg].
  assert (unbound h') as Hn' by (by eapply observes_unbound). assert (ruled t h') as Hr' by (by eapply observes_ruled).
  rewrite <-(observes_asked _ _ Hx) in Ha.
  destruct (bool_decide_reflect (pol_mode (t_policy t) = Mode_Yolo)) as [Hy|Hy].
  { apply cwp_admit; [done|done| |done]. by apply by_mode. }
  cbn [orb]. destruct (is_allow (t_saved_rule t)) eqn:Eallow.
  { apply cwp_admit; [done|done| |done]. unfold is_allow in Eallow. destruct (t_saved_rule t) as [rule|] eqn:E; [|done].
    apply bool_decide_eq_true in Eallow. by eapply by_saved_rule. }
  cbn [orb]. destruct granted.
  { destruct (Hg eq_refl) as (key & Hk & Hs). apply cwp_admit; [done|done| |done]. by eapply by_grant. }
  apply cwp_undecided; try done. destruct (t_saved_rule t) as [rule|] eqn:E; [|done].
  unfold is_allow in Eallow. by rewrite (Hsaved _ eq_refl) in Eallow.
Qed.

Lemma cwp_prepared t s h : ruled t h -> asked h = prepared_calls t -> unbound h ->
  cwp (authorize_prepared sha256 (t_owner t) (t_attempt t) (t_epoch t) (t_rules_epoch t) (t_policy t) (t_token t) request
         (t_action t) (t_rules t)) authorized s h.
Proof.
  intros Hr Ha Hn. unfold authorize_prepared.
  set (t' c := {| t_owner := t_owner t; t_attempt := t_attempt t; t_epoch := t_epoch t; t_rules_epoch := t_rules_epoch t;
    t_policy := t_policy t; t_token := t_token t; t_polls := t_polls t; t_action := t_action t; t_rules := t_rules t;
    t_configured := c |}).
  destruct (bool_decide_reflect (pol_mode (t_policy t) = Mode_Yolo)) as [Hy|Hy].
  - apply (cwp_judged (t' Outcome_Unresolved)); [done| |done|done]. unfold judged_calls, t_mode. simpl. by rewrite Hy.
  - apply cwp_ask; [by apply asks_configured|]. intros [c|e] s1; [|apply cwp_ret; intros ?; by constructor].
    apply (cwp_judged (t' c)); [by apply ruled_cons| |by constructor|done].
    unfold judged_calls, t_mode. simpl. rewrite Ha. by destruct (pol_mode (t_policy t)).
Qed.

Lemma route_at_ok s id incarnation o : route_at s id incarnation = Ok o ->
  o ∈ c_routes s /\ ow_alive (c_owner s o) = true /\ published s o = true /\ ss_id (osession s o) = id /\
  ss_incarnation (osession s o) = incarnation.
Proof.
  unfold route_at. destruct (List.find _ _) as [o'|] eqn:E; [|done]. intros [= <-].
  apply find_some in E as [Hin Ho]. unfold routed in Ho. rewrite !andb_true_iff, !bool_decide_eq_true in Ho.
  destruct Ho as [? [[? ?] ?]]. split_and!; try done. by apply list_elem_of_In.
Qed.

Lemma cwp_authorize s h : asked h = [] -> cwp (authorize_invocation sha256 request invocation) authorized s h.
Proof.
  intros Ha. assert (unbound h) as Hn by (unfold unbound; by rewrite Ha). unfold authorize_invocation.
  apply (cwp_try_get _ allowed_read); [by intros ? ? ?|]. intros s1 o (Hin & Hal & Hpub & Hid & Hinc)%route_at_ok.
  apply (cwp_try_get _ allowed_read); [by intros ? ? ?|]. intros s2 [[a epoch] rules_epoch] (_ & Hre & _ & Hact & Hturn & _ & _ & _ & He & Hrep)%attempt_at_ok.
  apply (cwp_get _ allowed_read). intros s3. simpl fst. simpl snd.
  set (t n action rules := {| t_owner := o; t_attempt := a; t_epoch := epoch; t_rules_epoch := rules_epoch;
    t_policy := at_policy (c_attempt s3 a); t_token := at_cancellation (c_attempt s3 a); t_polls := n; t_action := action;
    t_rules := rules; t_configured := Outcome_Unresolved |}).
  assert (forall n action rules, routed_to (t n action rules) (EvAct s3 s3 :: EvAct s2 s2 :: EvAct s1 s1 :: h)) as Hroute.
  { intros. split_and!; [by apply saw_cons, saw_cons, saw_here|by apply saw_cons, saw_here|by apply saw_here]. }
  set (none := {| action_id := 0; saved_rule_key := None; grant_key := None; is_file_mutation := false |}).
  apply cwp_await, cwp_ask; [by apply (asks_prepare _ (t 0 none SessionRules_default))|].
  intros [n prepared] s4. apply cwp_await_polls; [done|..].
  { intros s5. split; [by constructor|by eexists _, _]. }
  intros s5. simpl snd. destruct prepared as [action|e]; [|apply cwp_denied; by constructor].
  apply (cwp_try_get _ allowed_read); [intros ? ? ?; by constructor|]. intros s6 rules Hrules%map_err_ok.
  apply (cwp_prepared (t n action rules)); [|simpl; by rewrite Ha|by constructor].
  split; [by apply routed_cons, routed_cons|]. by apply saw_here.
Qed.

(** C5. Whatever other tasks and the host do, an authorization follows one protocol. It prepares exactly the call of the request
    for the active turn of its session; an execution is bound only for a reason (the mode of the turn, a saved rule, a live grant, a
    configured rule, the bypass of the tool, an automatic review, the answer of a person) and right after the authority of the
    proof was checked; in the modes Ask and Auto never when the configured rules or the saved rules deny the action, in Yolo,
    which bypasses every other rule, never when the saved rules deny a file mutation. A person is asked at most once, and not in a mode that forbids it;
    a grant is remembered only for that answer. *)
Theorem authorization_protocol (s s' : CtlWorld) (h : CtlEvents) out :
  exec (fun _ _ => True) (fun _ _ _ _ => True) (authorize_invocation sha256 request invocation) s [] out s' h ->
  all_allowed authorize_allowed h.
Proof.
  intros Hex. eapply (wp_exec_allowed _ _ _ (fun _ => I) (fun _ _ _ _ _ => I)); [exact Hex|by apply cwp_authorize|done].
Qed.

(** An authorization that is not dropped returns: a permission with the admission its execution was bound to, or a
    denial or an error, and then nothing was bound. *)
Theorem authorization_outcome (s s' : CtlWorld) (h : CtlEvents) out :
  exec (fun _ _ => True) (fun _ _ _ _ => True) (authorize_invocation sha256 request invocation) s [] out s' h ->
  authorized out s' h.
Proof. intros Hex. eapply (wp_exec _ _ _ (fun _ => I) (fun _ _ _ _ _ => I)); [exact Hex|by apply cwp_authorize]. Qed.
End Authorize.
