(* ===== verification/ControllerPool.v ===== *)
(** * Permission authority under interleaving

    Any number of controller operations run together. Every critical section keeps
    the invariant of the owners and moves them only forward: epochs never go back,
    a retired owner stays retired, a turn that was closed is never active again. So
    a proof that was revoked is refused for good. *)
From S2P Require Import Prelude Json Model Prog SessionState Patterns Rules Lifecycle Controller ControllerProofs.
Open Scope prog_scope.

(** ** The invariant of an owner *)
Record perm_ok (s : CtlWorld) (p : PermState) : Prop := {
  po_grants : NoDup (ps_grants p);
  po_bound : (vec_len (ps_grants p) <= MAX_GRANTS)%N;
  po_turns : forall g turn, g ∈ ps_grants p -> grant_turn g = Some turn ->
    exists a, ps_active p = Some a /\ at_turn (c_attempt s a) = turn;
  po_retired : ps_retired p = true -> ps_active p = None /\ ps_grants p = [];
  po_active : forall a, ps_active p = Some a -> a < c_fresh s;
  po_controls : (vec_len (ps_controls p) <= MAX_CONTROL_OPERATIONS)%N;
  po_epochs : (ps_epoch p <= U64_MAX)%N /\ (ps_rules_epoch p <= U64_MAX)%N;
}.
Definition ctl_ok (s : CtlWorld) : Prop := forall o, o < c_owners s -> perm_ok s (ostate s o).

(** ** How owners move *)
Record perm_step (fresh : nat) (p p' : PermState) : Prop := {
  pst_retired : ps_retired p = true -> ps_retired p' = true;
  pst_epoch : (ps_epoch p <= ps_epoch p')%N;
  pst_rules_epoch : (ps_rules_epoch p <= ps_rules_epoch p')%N;
  pst_active : forall a, ps_active p' = Some a -> ps_active p = Some a \/ fresh <= a;
}.
Record ctl_step (s s' : CtlWorld) : Prop := {
  cst_owners : c_owners s <= c_owners s';
  cst_fresh : c_fresh s <= c_fresh s';
  cst_turns : forall a, a < c_fresh s -> at_turn (c_attempt s' a) = at_turn (c_attempt s a);
  cst_states : forall o, o < c_owners s -> perm_step (c_fresh s) (ostate s o) (ostate s' o);
}.

(** What the operations guarantee, and all that they need of each other. *)
Definition ctl_rely (s s' : CtlWorld) : Prop := ctl_ok s -> ctl_ok s' /\ ctl_step s s'.

#[export] Instance perm_step_refl fresh : Reflexive (perm_step fresh).
Proof. intros p. split; auto; lia. Qed.
#[export] Instance ctl_step_preorder : PreOrder ctl_step.
Proof.
  split; [intros s; split; auto; intros; reflexivity|].
  intros a b c [Ho Hf Ht Hs] [Ho' Hf' Ht' Hs']. split; [lia|lia| |].
  - intros x Hx. rewrite Ht' by lia. by apply Ht.
  - intros o Hl. destruct (Hs o Hl) as [Hr He Hre Ha], (Hs' o ltac:(lia)) as [Hr' He' Hre' Ha']. split; auto; [lia|lia|].
    intros x [Hx|Hx]%Ha'; [by apply Ha|right; lia].
Qed.
#[export] Instance ctl_rely_preorder : PreOrder ctl_rely.
Proof.
  split; [intros s Hs; by split|]. intros a b c Hab Hbc Ha. destruct (Hab Ha) as [Hb Sab]. destruct (Hbc Hb) as [Hc Sbc].
  split; [done|by etransitivity].
Qed.

Lemma perm_ok_mono s s' p : c_fresh s <= c_fresh s' ->
  (forall a, a < c_fresh s -> at_turn (c_attempt s' a) = at_turn (c_attempt s a)) -> perm_ok s p -> perm_ok s' p.
Proof.
  intros Hf Ht [Hg Hb Htu Hr Ha Hc He]. split; auto; [|intros a E; specialize (Ha a E); lia].
  intros g turn Hin E. destruct (Htu g turn Hin E) as (a & Ea & <-). exists a. split; [done|]. apply Ht. by apply Ha.
Qed.

(** A step that changes no owner *)
Lemma rely_quiet s s' : c_owner s' = c_owner s -> c_owners s' = c_owners s -> c_fresh s <= c_fresh s' ->
  (forall a, a < c_fresh s -> at_turn (c_attempt s' a) = at_turn (c_attempt s a)) -> ctl_rely s s'.
Proof.
  intros Ho Hn Hf Ht Hok. assert (forall o, ostate s' o = ostate s o) as Hst by (intros; unfold ostate; by rewrite Ho). split.
  - intros o Hl. rewrite Hst. eapply perm_ok_mono; [done..|]. apply Hok. lia.
  - split; [lia|done|done|]. intros o _. by rewrite Hst.
Qed.

(** A step that changes the state of one owner *)
Lemma rely_owner s s' o : c_owners s' = c_owners s -> c_fresh s <= c_fresh s' ->
  (forall a, a < c_fresh s -> at_turn (c_attempt s' a) = at_turn (c_attempt s a)) ->
  (forall o', o' <> o -> ostate s' o' = ostate s o') ->
  (perm_ok s (ostate s o) -> perm_ok s' (ostate s' o) /\ perm_step (c_fresh s) (ostate s o) (ostate s' o)) -> ctl_rely s s'.
Proof.
  intros Hn Hf Ht Hother Ho Hok. split.
  - intros o' Hl. rewrite Hn in Hl. destruct (decide (o' = o)) as [->|Hne]; [by apply Ho, Hok|].
    rewrite Hother by done. eapply perm_ok_mono; [done..|]. by apply Hok.
  - split; [lia|done|done|]. intros o' Hl. destruct (decide (o' = o)) as [->|Hne]; [by apply Ho, Hok|]. by rewrite Hother.
Qed.

Lemma ostate_set_state s o p o' : ostate (set_state s o p) o' = if decide (o' = o) then p else ostate s o'.
Proof. unfold ostate, set_state, set_owner, upd. simpl. by destruct (decide (o' = o)). Qed.

(** ** The critical sections *)
Lemma rely_set_state s o p :
  (perm_ok s (ostate s o) -> perm_ok s p /\ perm_step (c_fresh s) (ostate s o) p) -> ctl_rely s (set_state s o p).
Proof.
  intros Hp. apply (rely_owner _ _ o); [done|done|done| |].
  - intros o' Hne. by rewrite ostate_set_state, decide_False.
  - rewrite ostate_set_state, decide_True by done. intros Hok. destruct (Hp Hok). split; [|done].
    apply (perm_ok_mono s); [simpl; lia|done|done].
Qed.

Lemma rely_alloc s : ctl_rely s (snd (alloc s)).
Proof. apply rely_quiet; [done|done|simpl; lia|done]. Qed.
Lemma rely_new_token s : ctl_rely s (snd (new_token s)).
Proof. apply rely_quiet; [done|done|simpl; lia|done]. Qed.
Lemma rely_set_token s t b : ctl_rely s (set_token s t b).
Proof. by apply rely_quiet. Qed.
Lemma rely_set_gate s i g : ctl_rely s (set_gate s i g).
Proof. by apply rely_quiet. Qed.
Lemma rely_set_publication s i p : ctl_rely s (set_publication s i p).
Proof. by apply rely_quiet. Qed.
Lemma rely_set_prompt s i b : ctl_rely s (set_prompt s i b).
Proof. by apply rely_quiet. Qed.
Lemma rely_set_routes s l : ctl_rely s (set_routes s l).
Proof. by apply rely_quiet. Qed.

Lemma perm_step_same fresh p p' : ps_retired p' = ps_retired p -> ps_epoch p' = ps_epoch p -> ps_rules_epoch p' = ps_rules_epoch p ->
  ps_active p' = ps_active p -> perm_step fresh p p'.
Proof. intros Hr He Hre Ha. split; rewrite ?Hr, ?He, ?Hre, ?Ha; auto; lia. Qed.

(** Changing the parts of a state that no other part depends on *)
Lemma rely_controls s o controls :
  ((vec_len (ps_controls (ostate s o)) <= MAX_CONTROL_OPERATIONS)%N -> (vec_len controls <= MAX_CONTROL_OPERATIONS)%N) ->
  ctl_rely s (set_state s o (set_controls (ostate s o) controls)).
Proof. intros Hc. apply rely_set_state. intros [Hg Hb Ht Hr Ha Hco He]. split; [split; auto|by apply perm_step_same]. Qed.
Lemma rely_policy s o f : ctl_rely s (change_policy o f s).
Proof. apply rely_set_state. intros [Hg Hb Ht Hr Ha Hc He]. split; [by split|by apply perm_step_same]. Qed.
Lemma rely_rules s o changed epoch changing uncertain :
  (ps_rules_epoch (ostate s o) <= epoch <= U64_MAX)%N \/ epoch = ps_rules_epoch (ostate s o) ->
  ctl_rely s (set_state s o (set_rules (ostate s o) changed epoch changing uncertain)).
Proof.
  intros Hepoch. apply rely_set_state. intros [Hg Hb Ht Hr Ha Hc [He Hre]].
  split; [split; auto; simpl; split; [done|lia]|]. split; simpl; auto; lia.
Qed.

Lemma rely_acquire o s : ctl_rely s (snd (acquire_lifecycle_at o s)).
Proof.
  unfold acquire_lifecycle_at. destruct (published s o); [|done]. destruct (ps_retired (ostate s o)); [done|].
  destruct (N.eqb_spec (vec_len (ps_controls (ostate s o))) MAX_CONTROL_OPERATIONS) as [|Hne]; [done|]. cbn [negb orb].
  assert (forall s1 id, ostate s1 o = ostate s o ->
    ctl_rely s1 (set_state s1 o (set_controls (ostate s o) (id :: ps_controls (ostate s o))))) as Hset.
  { intros s1 id E. rewrite <-E. apply rely_controls. rewrite E. unfold vec_len in *. simpl. lia. }
  destruct (ow_lifecycle (c_owner s o)) as [gate|].
  - destruct (acquire_inner false (load_gate s gate)) as [[? g]|]; [|done].
    etransitivity; [apply (rely_set_gate s gate g)|]. etransitivity; [apply rely_alloc|]. by apply Hset.
  - etransitivity; [apply rely_alloc|]. by apply Hset.
Qed.

Lemma rely_release_gate gate s : ctl_rely s (release_gate gate s).
Proof. unfold release_gate. destruct (permit_drop _) as [[? g]|]; [apply rely_set_gate|done]. Qed.

Lemma rely_control_drop o permit s : ctl_rely s (control_drop o permit s).
Proof.
  unfold control_drop. cbv zeta.
  transitivity (set_state s o (set_controls (ostate s o)
    (List.filter (fun id => negb (id =? cp_id permit)) (ps_controls (ostate s o))))).
  - apply rely_controls. unfold vec_len. intros Hc.
    etransitivity; [|exact Hc]. pose proof (filter_length_le (fun id => negb (id =? cp_id permit)) (ps_controls (ostate s o))). lia.
  - destruct (cp_gate permit); [apply rely_release_gate|done].
Qed.

Lemma rely_new_owner s w policy changed : ow_state w = new_state policy changed -> ctl_rely s (snd (new_owner s w)).
Proof.
  intros Hw Hok. assert (forall o, o <> c_owners s -> ostate (snd (new_owner s w)) o = ostate s o) as Hst.
  { intros o Hne. unfold ostate, upd. simpl. unfold upd. by rewrite decide_False. }
  split.
  - intros o Hl. simpl in Hl. destruct (decide (o = c_owners s)) as [->|Hne].
    + unfold ostate. simpl. unfold upd. rewrite decide_True, Hw by done.
      split; simpl; try done; try apply NoDup_nil_2; intros; try by apply elem_of_nil in H.
    + rewrite Hst by done. eapply (perm_ok_mono s); [simpl; lia|done|]. apply Hok. lia.
  - split; [simpl; lia|simpl; lia|done|]. intros o Hl. rewrite Hst by lia. reflexivity.
Qed.

Lemma rely_register session policy publication s : ctl_rely s (snd (register_at session policy publication s)).
Proof.
  unfold register_at. etransitivity; [apply rely_set_routes|]. destruct (_ || _); [done|].
  etransitivity; [apply rely_new_token|]. etransitivity; [|apply rely_set_routes]. by eapply rely_new_owner.
Qed.

Lemma rely_retired s o : ctl_rely s (set_state s o (set_retired (ostate s o))).
Proof.
  apply rely_set_state. intros [Hg Hb Ht Hr Ha Hc He].
  split; [split; simpl; try done; [by apply NoDup_nil_2|]; intros ? ? Hin; by apply elem_of_nil in Hin|].
  by split; simpl.
Qed.

Lemma rely_reset o s : ctl_rely s (snd (reset_at o s)).
Proof.
  unfold reset_at. destruct (checked_add _ _) as [epoch|] eqn:E; [|done]. apply checked_add_Some in E as [-> Hle].
  etransitivity; [apply rely_new_token|]. apply rely_set_state. intros [Hg Hb Ht Hr Ha Hc He].
  split; [split; simpl; try done; [by apply NoDup_nil_2| | |]|].
  - intros ? ? Hin. by apply elem_of_nil in Hin.
  - intros Hre. by destruct (Hr Hre).
  - split; [done|]. by destruct He.
  - split; simpl; auto. unfold ostate. simpl. lia.
Qed.

Lemma rely_begin_turn o turn editor policy s : ctl_rely s (snd (begin_turn_at o turn editor policy s)).
Proof.
  unfold begin_turn_at. destruct (published s o); [|done]. destruct (ps_retired (ostate s o)) eqn:Er; [done|].
  destruct (bool_decide_reflect (is_Some (ps_active (ostate s o)))) as [|Hn]; [done|]. destruct (ss_active_turn _); [|done].
  cbn [negb orb]. apply (rely_owner _ _ o); [done|simpl; lia| | |].
  - intros a Ha. simpl. unfold upd. rewrite decide_False by lia. done.
  - intros o' Hne. unfold ostate. simpl. unfold upd. by rewrite decide_False.
  - match goal with |- _ -> perm_ok _ (ostate ?s' o) /\ _ =>
      assert (ostate s' o = set_active (ostate s o) (Some (S (c_fresh s))) (ps_grants (ostate s o))) as ->
        by (unfold ostate; simpl; unfold upd; by rewrite decide_True) end.
    intros [Hg Hb Ht Hr Ha Hc He]. split; [split; simpl; try done|split; simpl; try done].
    + intros g t Hin E. destruct (Ht g t Hin E) as (a & Ea & _). destruct Hn. by rewrite Ea.
    + intros Hre. by rewrite Er in Hre.
    + intros a [= <-]. lia.
    + intros a [= <-]. right. lia.
Qed.

Lemma rely_close_attempt o a s : ctl_rely s (close_attempt o a s).
Proof.
  unfold close_attempt. destruct (bool_decide_reflect (ps_active (ostate s o) = Some a)) as [Ea|]; [|done].
  apply rely_set_state. intros [Hg Hb Ht Hr Ha Hc He]. split; [split; simpl; try done|by split; simpl].
  - apply NoDup_ListNoDup, List.NoDup_filter. by apply NoDup_ListNoDup.
  - unfold vec_len in *. pose proof (filter_length_le (fun g => negb (bool_decide (grant_turn g = Some (at_turn (c_attempt s a)))))
      (ps_grants (ostate s o))). lia.
  - intros g turn Hin%list_elem_of_In E. apply filter_In in Hin as [Hin Hd]. apply list_elem_of_In in Hin.
    destruct (Ht g turn Hin E) as (b & Eb & <-). rewrite Ea in Eb. injection Eb as <-. rewrite E in Hd.
    by rewrite bool_decide_true in Hd.
  - intros Hre. destruct (Hr Hre) as [_ Hnil]. by rewrite Hnil.
Qed.

Lemma rely_remember o a epoch key decision s : ctl_rely s (snd (remember_grant_at o a epoch key decision s)).
Proof.
  unfold remember_grant_at. destruct (ps_retired (ostate s o)) eqn:Er; [done|]. destruct (_ =? _)%N; [|done].
  destruct (ps_active (ostate s o)) as [active|] eqn:Ea; [|done]. cbn [negb orb].
  destruct (bool_decide_reflect (at_turn (c_attempt s active) = at_turn (c_attempt s a))) as [Et|]; [|done]. cbn [negb].
  destruct key as [key|]; [|done].
  assert (forall turn, turn = None \/ turn = Some (at_turn (c_attempt s a)) ->
    let g := {| grant_rule := key; grant_turn := turn |} in
    ctl_rely s (snd (if bool_decide (g ∈ ps_grants (ostate s o)) then (Ok tt, s)
         else if (vec_len (ps_grants (ostate s o)) =? MAX_GRANTS)%N then (Err unavailable, s)
         else (Ok tt, set_state s o (set_active (ostate s o) (Some active) (ps_grants (ostate s o) ++ [g])))))) as Hpush.
  { intros turn Hturn g. destruct (bool_decide_reflect (g ∈ ps_grants (ostate s o))) as [|Hin]; [done|].
    destruct (N.eqb_spec (vec_len (ps_grants (ostate s o))) MAX_GRANTS) as [|Hlen]; [done|].
    apply rely_set_state. intros [Hg Hb Ht Hr Ha Hc He]. split; [split; simpl; try done|by apply perm_step_same].
    - apply NoDup_app. split_and!; [done| |by apply NoDup_singleton]. intros x Hx Hx2. apply list_elem_of_singleton in Hx2. by subst.
    - unfold vec_len in *. rewrite length_app. simpl. lia.
    - intros x t [Hx|Hx]%elem_of_app E; [rewrite <-Ea; by eapply Ht|]. apply list_elem_of_singleton in Hx as ->.
      exists active. split; [done|]. simpl in E. destruct Hturn; congruence.
    - intros Hre. by rewrite Er in Hre.
    - intros b Eb. apply Ha. by rewrite Ea. }
  destruct decision; try done; apply Hpush; [right|left]; done.
Qed.

Lemma rely_operation_drop o op armed s : ctl_rely s (operation_drop o op armed s).
Proof.
  unfold operation_drop. etransitivity; [apply rely_rules; by right|]. destruct (ro_permit op); [apply rely_control_drop|done].
Qed.

Lemma rely_begin o s : ctl_rely s (snd (begin_at o s)).
Proof.
  unfold begin_at. destruct (_ || _); [done|]. etransitivity; [apply rely_new_token|]. apply rely_rules. by right.
Qed.

Lemma rely_arm o proposal s : ctl_rely s (snd (arm_at o proposal s)).
Proof.
  unfold arm_at. destruct (_ || _); [done|]. destruct (checked_add _ _) as [epoch|] eqn:E; [|apply rely_rules; by right].
  apply checked_add_Some in E as [-> Hle]. etransitivity; [apply rely_new_token|]. apply rely_rules. left.
  unfold ostate in *. simpl. lia.
Qed.

Lemma rely_confirmed o s : ctl_rely s (confirmed_at o s).
Proof. apply rely_rules. by right. Qed.

Lemma rely_reconcile o s : ctl_rely s (snd (reconcile_at o s)).
Proof. unfold reconcile_at. destruct (ps_changing_rules _); [done|]. destruct (ps_active _); [|done]. apply rely_rules. by right. Qed.

Create HintDb ctl.
#[export] Hint Resolve rely_acquire rely_release_gate rely_control_drop rely_register rely_retired rely_reset rely_begin_turn
  rely_close_attempt rely_remember rely_operation_drop rely_begin rely_arm rely_confirmed rely_reconcile rely_policy
  rely_set_token rely_set_gate rely_set_publication rely_set_prompt rely_set_routes : ctl.

(** ** Programs whose every step is one of these *)
Fixpoint tame {A} (p : cprog A) : Prop :=
  match p with
  | Ret _ | Panic => True
  | Act f k => (forall s, ctl_rely s (snd (f s))) /\ forall x, tame (k x)
  | Ask q k => forall x, tame (k x)
  | Yield d k => (forall s, ctl_rely s (d s)) /\ tame k
  | Wait r d k => (forall s, ctl_rely s (d s)) /\ (forall s x s', r s = Some (x, s') -> ctl_rely s s') /\ forall x, tame (k x)
  end.

Lemma tame_bind {A B} (p : cprog A) (c : A -> cprog B) : tame p -> (forall a, tame (c a)) -> tame (bind p c).
Proof. intros Hp Hc. induction p; simpl in *; naive_solver. Qed.
Lemma tame_try {A B E} (p : cprog (result A E)) (c : A -> cprog (result B E)) : tame p -> (forall a, tame (c a)) -> tame (try p c).
Proof. intros Hp Hc. apply tame_bind; [done|]. by intros [a|e]. Qed.
Lemma tame_guarded {A} g (keep : A -> bool) (p : cprog A) : (forall s, ctl_rely s (g s)) -> tame p -> tame (guarded g keep p).
Proof.
  intros Hg Hp. induction p as [a| |X f k IH|q k IH|d k IH|X r d k IH]; simpl in *.
  - by destruct (keep a).
  - done.
  - naive_solver.
  - naive_solver.
  - destruct Hp as [Hd Hk]. split; [|by apply IH]. intros s. by transitivity (d s).
  - destruct Hp as (Hd & Hr & Hk). split_and!; [intros s; by transitivity (d s)|done|naive_solver].
Qed.
Lemma tame_get {X} (f : CtlWorld -> X) : tame (get f).
Proof. by split. Qed.
Lemma tame_act {X} (f : CtlWorld -> X * CtlWorld) : (forall s, ctl_rely s (snd (f s))) -> tame (act f).
Proof. by split. Qed.
Lemma tame_modify f : (forall s, ctl_rely s (f s)) -> tame (modify f).
Proof. by split. Qed.
Lemma tame_ask q : tame (ask q).
Proof. done. Qed.
Lemma tame_await {T} (p : cprog (Fut T)) : tame p -> tame (await_call p).
Proof. intros Hp. apply tame_bind; [done|]. intros [n r]. simpl. induction n as [|n IH]; [done|]. by split. Qed.

Ltac tame_step :=
  match goal with
  | |- tame (Ret _) => exact I
  | |- tame (bind _ _) => apply tame_bind; [|intros ?]
  | |- tame (try _ _) => apply tame_try; [|intros ?]
  | |- tame (guarded _ _ _) => apply tame_guarded; [intros ?|]
  | |- tame (get _) => apply tame_get
  | |- tame (act _) => apply tame_act; intros ?
  | |- tame (modify _) => apply tame_modify; intros ?
  | |- tame (ask _) => apply tame_ask
  | |- tame (await_call _) => apply tame_await
  | |- tame (if ?b then _ else _) => destruct b
  | |- tame (match ?x with _ => _ end) => destruct x
  | |- ctl_rely ?s ?s => reflexivity
  | |- ctl_rely _ _ => solve [eauto with ctl]
  | |- ctl_rely _ (match ?x with _ => _ end) => destruct x
  end.
Ltac tame := repeat (tame_step || (cbv zeta; tame_step)).

Section Operations.
Context `{JsonNumbers} (sha256 : string -> string) `{JsonWriter}.

Lemma tame_with_control {A} o (body : ControlPermit -> cprog (result A PermissionError)) :
  (forall permit, tame (body permit)) -> tame (with_control o body).
Proof. intros Hb. unfold with_control, acquire_lifecycle. tame. done. Qed.

(** One operation of the controller and of its sessions *)
Inductive CtlOp :=
| Op_register (session : nat) (policy : Policy)
| Op_register_published (session : nat) (policy : Policy) (publication : nat)
| Op_retire (o : nat)
| Op_bind_lifecycle (o gate : nat)
| Op_snapshot (o : nat)
| Op_set_mode (o : nat) (mode : PermissionMode)
| Op_set_sandbox_mode (o : nat) (mode : SandboxMode)
| Op_set_configured_rules (o : nat) (rules : list ConfiguredRule)
| Op_set_configured_rules_admitted (o : nat) (permit : LifecyclePermit) (rules : list ConfiguredRule)
| Op_reset (o : nat)
| Op_begin_turn (o : nat) (turn : TurnRef) (policy : Policy)
| Op_begin_turn_admitted (o : nat) (turn : TurnRef) (policy : Policy) (permit : LifecyclePermit)
| Op_turn_drop (t : PermissionTurn)
| Op_revalidate (x : ExecutionProof)
| Op_authorize (request : PermissionRequest) (invocation : PermissionInvocation)
| Op_propose (o : nat) (change : RuleChange)
| Op_prompt_propose (p : RulePrompt) (decision : RuleDecision)
| Op_invalidate (p : RulePrompt)
| Op_confirm (o : nat) (proposal : Proposal)
| Op_reconcile (o : nat)
| Op_reconcile_admitted (o : nat) (permit : LifecyclePermit).

Definition forget {A} (p : cprog A) : cprog unit := do _ <- p; Ret tt.

Definition ctl_program (op : CtlOp) : cprog unit :=
  match op with
  | Op_register session policy => forget (register sha256 session policy)
  | Op_register_published session policy publication => forget (register_with_publication sha256 session policy publication)
  | Op_retire o => retire o
  | Op_bind_lifecycle o gate => forget (bind_lifecycle o gate)
  | Op_snapshot o => forget (ctl_snapshot o)
  | Op_set_mode o mode => forget (set_mode o mode)
  | Op_set_sandbox_mode o mode => forget (set_sandbox_mode o mode)
  | Op_set_configured_rules o rules => forget (set_configured_rules o rules)
  | Op_set_configured_rules_admitted o permit rules => forget (set_configured_rules_admitted o permit rules)
  | Op_reset o => forget (reset o)
  | Op_begin_turn o turn policy => forget (begin_turn o turn policy)
  | Op_begin_turn_admitted o turn policy permit => forget (begin_turn_admitted o turn policy permit)
  | Op_turn_drop t => turn_drop t
  | Op_revalidate x => forget (revalidate sha256 x)
  | Op_authorize request invocation => forget (authorize_invocation sha256 request invocation)
  | Op_propose o change => forget (propose_rule_change sha256 o change)
  | Op_prompt_propose p decision => forget (propose sha256 p decision)
  | Op_invalidate p => modify (invalidate p)
  | Op_confirm o proposal => forget (confirm_rule_change sha256 o proposal)
  | Op_reconcile o => forget (reconcile_rules sha256 o)
  | Op_reconcile_admitted o permit => forget (reconcile_rules_admitted sha256 o permit)
  end.

Lemma tame_revalidate x : tame (revalidate sha256 x).
Proof. unfold revalidate, attempt_of, read_rules. tame. Qed.

Lemma tame_admit action x : tame (admit_action sha256 action x).
Proof. unfold admit_action. apply tame_try; [apply tame_revalidate|intros ?]. tame. Qed.

Lemma rely_lifetime p s : ctl_rely s (prompt_lifetime p s).
Proof. destruct p; [apply rely_set_prompt|done]. Qed.

Lemma tame_prompted o a epoch rules_epoch request action x : tame (prompted sha256 o a epoch rules_epoch request action x).
Proof.
  unfold prompted, new_rule_prompt. apply tame_bind.
  - destruct (saved_rule_key action); [|done]. apply tame_bind; [|done]. apply tame_act. intros s.
    transitivity (snd (alloc s)); [apply rely_alloc|apply rely_set_prompt].
  - intros prompt. apply tame_guarded; [apply rely_lifetime|]. apply tame_bind; [tame|]. intros [decision|]; [|done].
    apply tame_try; [apply tame_revalidate|]. intros _. destruct (bool_decide _); [done|].
    apply tame_try; [tame|]. intros _. apply tame_admit.
Qed.

Lemma tame_authorize request invocation : tame (authorize_invocation sha256 request invocation).
Proof.
  unfold authorize_invocation, route, attempt_of, read_rules, authorize_prepared, authorize_judged.
  repeat (apply tame_admit || apply tame_prompted || tame_step || (cbv zeta; tame_step)).
Qed.

Lemma tame_prompt_validate p : tame (prompt_validate p).
Proof. unfold prompt_validate, attempt_of. tame. Qed.

Lemma tame_confirm o proposal : tame (confirm_rule_change sha256 o proposal).
Proof.
  unfold confirm_rule_change, operation_begin, acquire_lifecycle, confirm_operation, confirm_candidate, confirm_armed, publish_call.
  repeat (apply tame_prompt_validate || tame_step || (cbv zeta; tame_step)).
Qed.

Lemma tame_reconcile o permit : tame (reconcile_rules_inner sha256 o permit).
Proof. unfold reconcile_rules_inner. tame. Qed.

Lemma tame_begin_inner o turn policy : tame (begin_turn_inner o turn policy).
Proof. unfold begin_turn_inner. tame. Qed.

Lemma tame_propose o change : tame (propose_rule_change sha256 o change).
Proof. apply tame_with_control. intros _. tame. Qed.

Lemma tame_close_turn o a : tame (close_turn o a).
Proof. unfold close_turn, cancel_at. tame. Qed.

Lemma tame_register session policy publication : tame (register_with_publication sha256 session policy publication).
Proof. unfold register_with_publication. tame. Qed.

Lemma tame_bind_lifecycle o gate : tame (bind_lifecycle o gate).
Proof.
  unfold bind_lifecycle. apply tame_try; [apply tame_act|intros _; apply tame_guarded; [apply rely_release_gate|apply tame_act]]; intros s.
  - destruct (acquire_inner false (load_gate s gate)) as [[? g]|]; [apply rely_set_gate|done].
  - cbv zeta. destruct (_ || _); [done|]. destruct (ow_lifecycle (c_owner s o)); [done|]. apply (rely_owner _ _ o); try done.
    + intros o' Hne. unfold ostate. simpl. unfold upd. by rewrite decide_False.
    + intros Hok. match goal with |- perm_ok _ (ostate ?s' o) /\ _ =>
        assert (ostate s' o = ostate s o) as -> by (unfold ostate; simpl; unfold upd; by rewrite decide_True) end.
      split; [|done]. apply (perm_ok_mono s); [simpl; lia|done|done].
Qed.

Lemma tame_program op : tame (ctl_program op).
Proof.
  destruct op; cbn [ctl_program]; unfold forget; try (apply tame_bind; [|done]).
  - unfold register. apply tame_bind; [|intros; apply tame_register]. apply tame_act. intros s.
    transitivity (snd (alloc s)); [apply rely_alloc|apply rely_set_publication].
  - apply tame_register.
  - unfold retire. repeat (apply tame_close_turn || tame_step || (cbv zeta; tame_step)).
  - apply tame_bind_lifecycle.
  - apply tame_with_control. intros _. tame.
  - apply tame_with_control. intros _. tame.
  - apply tame_with_control. intros _. tame.
  - apply tame_with_control. intros _. tame.
  - unfold set_configured_rules_admitted, check_admitted. tame.
  - apply tame_with_control. intros _. unfold cancel_at. tame.
  - unfold begin_turn, acquire_lifecycle. repeat (apply tame_begin_inner || tame_step).
  - unfold begin_turn_admitted, check_admitted. repeat (apply tame_begin_inner || tame_step).
  - unfold turn_drop. repeat (apply tame_close_turn || tame_step).
  - apply tame_revalidate.
  - apply tame_authorize.
  - apply tame_propose.
  - unfold propose. repeat (apply tame_prompt_validate || apply tame_propose || tame_step).
  - unfold invalidate. tame.
  - apply tame_confirm.
  - unfold reconcile_rules, acquire_lifecycle. repeat (apply tame_reconcile || tame_step).
  - unfold reconcile_rules_admitted, check_admitted. repeat (apply tame_reconcile || tame_step).
Qed.

(** ** The pool *)
Definition keeps (e : event CtlWorld CtlQuery CtlAns) (_ : CtlEvents) : Prop :=
  match e with EvAct s s' | EvDrop s s' => ctl_rely s s' | EvAsk _ _ _ => True end.

Lemma tame_wp {A} (p : cprog A) s h : tame p -> wp ctl_rely (fun _ _ _ _ => True) keeps p (fun _ _ _ => True) s h.
Proof.
  revert s h. induction p as [a| |X f k IH|q k IH|d k IH|X r d k IH]; simpl; intros s h Hp s' _; try done.
  - destruct Hp. auto.
  - auto.
  - destruct Hp. auto.
  - destruct Hp as (Hd & Hr & Hk). split_and!; auto. intros x s1 E. split; [by eapply Hr|]. auto.
Qed.

Notation any := (fun _ _ _ _ => True).

Lemma exec_calm (rely rely' : CtlWorld -> CtlWorld -> Prop) admissible {A} (p : cprog A) s h o s' h' :
  (forall s s', rely s s' -> rely' s s') -> exec rely admissible p s h o s' h' -> exec rely' admissible p s h o s' h'.
Proof.
  intros Hr. induction 1; [by apply exec_ret|by apply exec_panic|by eapply exec_act|by eapply exec_ask|by eapply exec_resume
    |by apply exec_drop|by eapply exec_ready|by apply exec_wait_drop|by apply exec_blocked|eapply exec_env; [by apply Hr|done]].
Qed.

(** Everything a task sees is a state the others can reach. *)
Lemma exec_reaches {A} (p : cprog A) s h o s' h' : exec ctl_rely any p s h o s' h' -> tame p ->
  ctl_rely s s' /\ forall b a, EvAct b a ∈ h' -> EvAct b a ∈ h \/ ctl_rely s b.
Proof.
  induction 1 as [x s h|s h|X f k s h o s' h' _ IH|q k x s h o s' h' _ _ IH|d k s h o s' h' _ IH|d k s h
    |X r d k x s s1 h o s' h' Hr _ IH|X r d k s h|X r d k s h Hr|p s s1 h o s' h' R _ IH]; simpl; intros Ht.
  - split; [done|auto].
  - split; [done|auto].
  - destruct Ht as [Hf Hk]. destruct (IH (Hk _)) as [Hs Hb]. split; [etransitivity; [apply Hf|done]|]. intros b a Hin.
    apply Hb in Hin as [Hin|Hin]; [|right; etransitivity; [apply Hf|done]]. apply elem_of_cons in Hin as [[= -> ->]|Hin]; [by right|by left].
  - destruct (IH (Ht _)) as [Hs Hb]. split; [done|]. intros b a Hin.
    apply Hb in Hin as [Hin|Hin]; [|by right]. apply elem_of_cons in Hin as [[=]|Hin]. by left.
  - destruct Ht as [_ Ht]. by apply IH.
  - destruct Ht as [Hd _]. split; [apply Hd|]. intros b a Hin. apply elem_of_cons in Hin as [[=]|Hin]. by left.
  - destruct Ht as (_ & Hrd & Hk). destruct (IH (Hk _)) as [Hs Hb]. apply Hrd in Hr. split; [etransitivity; [exact Hr|done]|]. intros b a Hin.
    apply Hb in Hin as [Hin|Hin]; [|right; etransitivity; [exact Hr|done]]. apply elem_of_cons in Hin as [[= -> ->]|Hin]; [by right|by left].
  - destruct Ht as [Hd _]. split; [apply Hd|]. intros b a Hin. apply elem_of_cons in Hin as [[=]|Hin]. by left.
  - split; [done|auto].
  - destruct (IH Ht) as [Hs Hb]. split; [etransitivity; [exact R|done]|]. intros b a [Hin|Hin]%Hb; [by left|right; etransitivity; [exact R|done]].
Qed.

(** C11. Any number of controller operations, interleaved in any way, with any answers of the
    host and dropped anywhere: grants stay distinct and at most 1024, a grant of a turn exists only while that
    turn is active, a retired session has neither grants nor a turn, at most 256 control permits are out;
    epochs never go back, retirement is final and a turn that is no longer active never becomes active again. *)
Theorem controller_invariant (ops : list CtlOp) (s : CtlWorld) (c : list (thread unit * CtlEvents) * CtlWorld) :
  ctl_ok s -> rtc (pool_step (fun _ => any)) (map (fun op => (Live (ctl_program op), [])) ops, s) c ->
  ctl_ok (snd c) /\ ctl_step s (snd c).
Proof.
  intros Hok Hr. apply (pool_rely (fun _ => ctl_rely) (fun _ => any) (fun _ => keeps) (fun _ _ _ _ => True) (fun _ => reflexivity)
    (fun _ => transitivity)) with (j := length ops) in Hr; [by apply Hr| | |simpl; by rewrite length_map].
  - intros i j s1 s2 h _ [Hk|Hk]; exact Hk.
  - intros i t Hi. simpl in Hi. rewrite list_lookup_fmap in Hi. destruct (ops !! i) as [op|]; simplify_eq/=.
    split; [|done]. apply tame_wp, tame_program.
Qed.

(** ** Revocation *)
(** A proof of a retired session, of an earlier epoch or of a turn that is not active. *)
Definition revoked (x : ExecutionProof) (s : CtlWorld) : Prop :=
  let p := ostate s (xp_owner x) in
  xp_owner x < c_owners s /\
  (ps_retired p = true \/ (exists e, xp_epoch x = Some e /\ (e < ps_epoch p)%N) \/
   (exists e, xp_rules_epoch x = Some e /\ (e < ps_rules_epoch p)%N) \/
   (xp_attempt x < c_fresh s /\ ps_active p <> Some (xp_attempt x))).

Lemma revoked_step x s s' : revoked x s -> ctl_step s s' -> revoked x s'.
Proof.
  intros [Ho Hr] [Hos Hf _ Hst]. destruct (Hst _ Ho) as [Hre He Hrep Ha]. split; [lia|].
  destruct Hr as [Hr|[(e & E & Hlt)|[(e & E & Hlt)|[Hlt Hne]]]]; [auto|..].
  - right. left. exists e. split; [done|lia].
  - right. right. left. exists e. split; [done|lia].
  - right. right. right. split; [lia|]. intros Hact. apply Ha in Hact as [Hact|Hle]; [done|lia].
Qed.

Lemma revoked_unauthorized x s : revoked x s -> ~ authority x s.
Proof.
  intros [_ Hr] Hau. destruct Hr as [Hr|[(e & E & Hlt)|[(e & E & Hlt)|[_ Hne]]]].
  - by rewrite (au_retired _ _ Hau) in Hr.
  - rewrite (au_epoch _ _ Hau e E) in Hlt. lia.
  - rewrite (au_rules_epoch _ _ Hau e E) in Hlt. lia.
  - by apply Hne, au_active.
Qed.

Lemma cleared_saw x (h : CtlEvents) : cleared sha256 x h -> exists s, EvAct s s ∈ h /\ authority x s.
Proof.
  unfold cleared. destruct (xp_saved x).
  - intros (s & s' & h' & -> & Ha & _). exists s. split; [set_solver|done].
  - intros (s & h' & -> & Ha). exists s. split; [set_solver|done].
Qed.

(** A revoked proof stays revoked: whatever the other controller operations do, checking
    it again never succeeds. *)
Theorem revoked_proof_refused (x : ExecutionProof) (s s' : CtlWorld) (h : CtlEvents) (r : result unit PermissionError) :
  ctl_ok s -> revoked x s -> exec ctl_rely any (revalidate sha256 x) s [] (Returned r) s' h -> is_ok r = false.
Proof.
  intros Hok Hx Hex. destruct (exec_reaches _ _ _ _ _ _ Hex (tame_revalidate x)) as [_ Hseen].
  apply (exec_calm _ (fun _ _ => True)) in Hex; [|done].
  eapply (wp_exec _ _ (fun _ _ => True) (fun _ => I) (fun _ _ _ _ _ => I)) in Hex; [|by apply (cwp_revalidate_post sha256)].
  destruct r as [[]|e]; [|done]. destruct Hex as [_ (s1 & Hin & Ha)%cleared_saw].
  apply Hseen in Hin as [Hin|Hin]; [by apply elem_of_nil in Hin|]. destruct (Hin Hok) as [_ Hst].
  by destruct (revoked_unauthorized x s1 (revoked_step x s s1 Hx Hst)).
Qed.

(** ** Reset *)
Definition reset_section (o : nat) (h : CtlEvents) : Prop :=
  exists b a, EvAct b a ∈ h /\ ps_grants (ostate a o) = [] /\ pol_mode (ps_policy (ostate a o)) = Mode_Ask /\
    (ps_epoch (ostate b o) < ps_epoch (ostate a o))%N /\ ps_rules_epoch (ostate a o) = ps_rules_epoch (ostate b o).

Lemma reset_at_ok o s old s' : reset_at o s = (Ok old, s') -> (ps_epoch (ostate s o) < ps_epoch (ostate s' o))%N /\
  ps_grants (ostate s' o) = [] /\ pol_mode (ps_policy (ostate s' o)) = Mode_Ask /\
  ps_rules_epoch (ostate s' o) = ps_rules_epoch (ostate s o).
Proof.
  unfold reset_at. destruct (checked_add _ _) as [epoch|] eqn:E; [|done]. apply checked_add_Some in E as [-> Hle].
  intros [= <- <-]. unfold ostate, upd. simpl. unfold upd. rewrite !decide_True by done. simpl. split_and!; try done. unfold ostate. lia.
Qed.

Lemma reset_post o s0 : ctl_ok s0 -> o < c_owners s0 ->
  wp ctl_rely any (fun _ _ => True) (reset o)
    (fun out s h => match out with
                    | Returned (Ok _) => ctl_rely s0 s /\ (ps_epoch (ostate s0 o) < ps_epoch (ostate s o))%N /\ reset_section o h
                    | _ => True end) s0 [].
Proof.
  intros Hok Ho. assert (forall s s', ctl_rely s0 s -> ctl_rely s s' ->
    ctl_rely s0 s' /\ (ps_epoch (ostate s o) <= ps_epoch (ostate s' o))%N) as Hmono.
  { intros s s' Hs Hss. split; [by etransitivity|]. destruct (Hs Hok) as [Hok' Hst]. destruct (Hss Hok') as [_ Hst'].
    apply (cst_states _ _ Hst' o). pose proof (cst_owners _ _ Hst). lia. }
  unfold reset, with_control. intros s1 R1. split; [done|].
  assert (ctl_rely s0 (snd (acquire_lifecycle_at o s1))) as R2 by (etransitivity; [exact R1|apply rely_acquire]).
  destruct (acquire_lifecycle_at o s1) as [[permit|e] s2]; [|by intros s' _]. simpl in R2. clear R1. cbn [fst].
  apply wp_guarded. intros s3 R3. split; [done|]. destruct (Hmono _ _ R2 R3) as [R3' _].
  destruct (reset_at o s3) as [[old|e] s4] eqn:Er; cbn [fst snd].
  2: { intros s' _. split; [done|]. by intros s'' _. }
  apply reset_at_ok in Er as Hre. destruct Hre as (Hlt & Hg & Hm & Hrr).
  assert (ctl_rely s3 s4) as R4 by (pose proof (rely_reset o s3) as R; by rewrite Er in R).
  destruct (Hmono _ _ R3' R4) as [R4' _]. destruct (Hmono _ _ (reflexivity s0) R3') as [_ H03].
  intros s5 R5. split; [done|]. simpl snd. destruct (Hmono _ _ R4' R5) as [R5' H45].
  destruct (Hmono _ _ R5' (rely_set_token s5 old true)) as [R6 H56].
  intros s6 R6'. destruct (Hmono _ _ R6 R6') as [R6'' H67]. split; [done|]. intros s7 R7.
  destruct (Hmono _ _ R6'' (rely_control_drop o permit s6)) as [R8 H78]. destruct (Hmono _ _ R8 R7) as [R9 H89].
  split_and!; [done| |].
  - lia.
  - exists s3, s4. split_and!; try done. set_solver.
Qed.

(** A successful reset moves the epoch of the session on, clears its grants and sets its mode to ask;
    every proof of the epochs before is revoked from then on. *)
Theorem reset_revokes (o : nat) (s s' : CtlWorld) (h : CtlEvents) : ctl_ok s -> o < c_owners s ->
  exec ctl_rely any (reset o) s [] (Returned (Ok tt)) s' h ->
  reset_section o h /\
  forall x e, xp_owner x = o -> xp_epoch x = Some e -> (e <= ps_epoch (ostate s o))%N -> revoked x s'.
Proof.
  intros Hok Ho Hex. eapply (wp_exec _ _ _ reflexivity transitivity) in Hex; [|by apply (reset_post o s)].
  destruct Hex as (R & Hlt & Hsec). split; [done|]. intros x e <- Hx Hle. destruct (R Hok) as [_ Hst]. split.
  - pose proof (cst_owners _ _ Hst). lia.
  - right. left. exists e. split; [done|lia].
Qed.
End Operations.
