(* ===== verification/ControllerRules.v ===== *)
(** * Publishing a saved rule

    A confirmed rule change reads the rules it is applied to, blocks every other
    authority, publishes at most one value, and unblocks only when the publication
    was confirmed. Nothing is assumed of the other tasks or of the answers. *)
From S2P Require Import Prelude Json Model Prog SessionState Patterns Rules RulesProofs Lifecycle Controller ControllerProofs.
Open Scope prog_scope.

Section RuleChange.
Context `{JsonNumbers} (sha256 : string -> string) `{JsonWriter}.
Context (o : nat) (proposal : Proposal).

Definition uncertain (s : CtlWorld) : bool := ps_uncertain_rules (ostate s o).
Definition changing (s : CtlWorld) : bool := ps_changing_rules (ostate s o).

(** The rule the proposal is about is the one it was made for. *)
Definition unchanged_target (rules : SessionRules) : Prop :=
  match pp_change proposal with
  | Set_rule key _ _ => pp_expected_generation proposal = rule_generation <$> rule_for_key rules key
  | Revoke_rule id => exists rule, rule_for_id rules id = Some rule /\ pp_expected_generation proposal = Some (rule_generation rule)
  end.

(** The prompt of a proposal is still open, for the active turn. *)
Definition prompt_open (s : CtlWorld) : Prop :=
  forall prompt, pp_prompt proposal = Some prompt ->
    c_prompt s (rp_live prompt) = true /\ ps_retired (ostate s o) = false /\
    ps_active (ostate s o) = Some (rp_attempt prompt) /\ ps_epoch (ostate s o) = rp_epoch prompt /\
    ps_rules_epoch (ostate s o) = rp_rules_epoch prompt /\
    tn_cancelled (c_turn s (at_handle (c_attempt s (rp_attempt prompt)))) = false.

(** The step that blocks all other authority *)
Definition arms (e : event CtlWorld CtlQuery CtlAns) : Prop :=
  match e with
  | EvAct s s' =>
      ps_epoch (ostate s o) = pp_expected_epoch proposal /\ prompt_open s /\ uncertain s' = true /\
      ps_rules_epoch (ostate s' o) = (ps_rules_epoch (ostate s o) + 1)%N
  | _ => False
  end.
(** It was the last step but one, which wakes what waits for a change. *)
Definition armed (h : CtlEvents) : Prop := exists s s' e h', h = EvAct s s' :: e :: h' /\ arms e.

Definition decodes (value : option Value) (rules : SessionRules) : Prop :=
  match value with None => rules = SessionRules_default | Some value => from_value sha256 value = Ok rules end.

(** The editor is the one of the turn that was active when the change began. *)
Definition began_with (editor : N) (h : CtlEvents) : Prop :=
  exists s s' a, EvAct s s' ∈ h /\ ps_active (ostate s o) = Some a /\ at_editor (c_attempt s a) = editor /\ changing s' = true.

Inductive confirm_asks (h : CtlEvents) : CtlQuery -> Prop :=
| asks_read editor : asked h = [] -> began_with editor h -> confirm_asks h (C_read_entry editor)
| asks_exchange editor n snapshot rules candidate :
    asked h = [called (C_read_entry editor) (n, Ok snapshot)] -> decodes (snd snapshot) rules -> unchanged_target rules ->
    proposal_apply proposal rules = Ok candidate -> armed h ->
    confirm_asks h (C_compare_exchange editor snapshot (Some (to_value candidate)))
| asks_update session record rules candidate :
    asked h = [] -> saw (fun s => session = ow_session (c_owner s o) /\ record = ss_record (osession s o)) h ->
    from_metadata sha256 (rec_metadata record) = Ok rules -> unchanged_target rules ->
    proposal_apply proposal rules = Ok candidate -> armed h ->
    confirm_asks h (C_update_metadata session (rec_revision record)
                      (bt_insert (rec_metadata record) NATIVE_SESSION_PERMISSION_RULES_KEY (to_value candidate))).

(** The revision a publication answered *)
Definition publication (c : ccall) : option (option SessionRevision) :=
  match c with
  | existT q x =>
      match q return CtlAns q -> option (option SessionRevision) with
      | C_compare_exchange _ _ _ | C_update_metadata _ _ _ =>
          fun x => Some match snd x with Ok revision => Some revision | Err _ => None end
      | _ => fun _ => None
      end x
  end.
Definition published_revision (h : CtlEvents) : option SessionRevision := head (asked h) ≫= fun c => publication c ≫= id.
Definition unpublished (h : CtlEvents) : Prop := Forall (fun c => publication c = None) (asked h).

Definition confirm_allowed (e : event CtlWorld CtlQuery CtlAns) (h : CtlEvents) : Prop :=
  match e with
  | EvAsk _ q _ => confirm_asks h q
  | EvAct s s' => uncertain s = true -> uncertain s' = false -> is_Some (published_revision h)
  | EvDrop s s' => uncertain s = true -> uncertain s' = true
  end.

(** The state the task left *)
Definition left_at (h : CtlEvents) : option CtlWorld :=
  match h with EvAct _ s :: _ | EvDrop _ s :: _ => Some s | _ => None end.
Definition left_blocked (h : CtlEvents) : Prop := exists s, left_at h = Some s /\ uncertain s = true /\ changing s = false.

Definition confirms (out : outcome (result SessionRevision PermissionError)) (s : CtlWorld) (h : CtlEvents) : Prop :=
  match out with
  | Returned (Ok revision) => published_revision h = Some revision /\
      exists b1 s1 b2 s2 h', h = EvAct b2 s2 :: EvAct b1 s1 :: h' /\ uncertain s1 = false /\ changing s2 = false
  | Returned (Err _) => unpublished h \/ left_blocked h
  | Dropped => (unpublished h \/ left_blocked h) /\ exists before h', h = EvDrop before s :: h'
  | Panicked | Blocked => False
  end.

Notation rwp := (wp (fun _ _ => True) (fun _ _ _ _ => True) confirm_allowed).
Notation bind_rwp := (wp_bind (fun _ _ => True) (fun _ _ _ _ => True) confirm_allowed (fun _ => I)).

Lemma confirm_read s h : confirm_allowed (EvAct s s) h.
Proof. intros ->. done. Qed.

Lemma rwp_act {X B} (f : CtlWorld -> X * CtlWorld) (c : X -> cprog B) Q s h :
  (forall s, confirm_allowed (EvAct s (snd (f s))) h) ->
  (forall s, rwp (c (fst (f s))) Q (snd (f s)) (EvAct s (snd (f s)) :: h)) -> rwp (bind (act f) c) Q s h.
Proof. intros Ha Hc s' _. split; [apply Ha|apply Hc]. Qed.

(** Steps that do not touch the flag *)
Definition keeps_flag (s s' : CtlWorld) : Prop := uncertain s' = uncertain s.
Lemma keeps_allowed s s' h : keeps_flag s s' -> confirm_allowed (EvAct s s') h.
Proof. intros Hk H1 H2. unfold keeps_flag in Hk. congruence. Qed.

Lemma uncertain_set_state s o' p : ps_uncertain_rules p = ps_uncertain_rules (ostate s o') -> keeps_flag s (set_state s o' p).
Proof.
  intros E. unfold keeps_flag, uncertain, ostate, set_state, upd. simpl. unfold upd.
  destruct (decide (o = o')) as [->|]; [done|done].
Qed.

Lemma keeps_acquire s : keeps_flag s (snd (acquire_lifecycle_at o s)).
Proof.
  unfold acquire_lifecycle_at. destruct (_ || _); [done|]. destruct (ow_lifecycle _) as [gate|].
  - destruct (acquire_inner _ _) as [[? g]|]; [|done]. by apply (uncertain_set_state (snd (alloc (set_gate s gate g)))).
  - by apply (uncertain_set_state (snd (alloc s))).
Qed.

Lemma ostate_release gate s o' : ostate (release_gate gate s) o' = ostate s o'.
Proof. unfold release_gate. by destruct (permit_drop _) as [[? ?]|]. Qed.

Lemma control_drop_flags permit s : uncertain (control_drop o permit s) = uncertain s /\ changing (control_drop o permit s) = changing s.
Proof.
  unfold uncertain, changing, control_drop. cbv zeta.
  assert (forall s', ostate (set_state s o s') o = s') as E by (intros; unfold ostate, upd; simpl; unfold upd; by rewrite decide_True).
  destruct (cp_gate permit); [rewrite ostate_release|]; rewrite E; done.
Qed.

Lemma operation_drop_flags op b s :
  uncertain (operation_drop o op b s) = b || uncertain s /\ changing (operation_drop o op b s) = false.
Proof.
  unfold operation_drop. cbv zeta.
  assert (forall p, ostate (set_state s o p) o = p) as E by (intros; unfold ostate, upd; simpl; unfold upd; by rewrite decide_True).
  destruct (ro_permit op) as [permit|]; [destruct (control_drop_flags permit (set_state s o (set_rules (ostate s o) (ps_changed (ostate s o))
    (ps_rules_epoch (ostate s o)) false (b || ps_uncertain_rules (ostate s o))))) as [-> ->]|];
    unfold uncertain, changing; rewrite E; done.
Qed.

Lemma proposal_apply_unchanged rs candidate : proposal_apply proposal rs = Ok candidate -> unchanged_target rs.
Proof.
  unfold proposal_apply, unchanged_target. intros Ha%map_err_ok. destruct (pp_change proposal) as [key display decision|id].
  - unfold apply_set in Ha. destruct (validate_rule_identity _ _); [|done]. cbn [rbind] in Ha.
    destruct (checked_add _ _); [|done]. cbn [rbind ok_or] in Ha. unfold rule_for_key. rewrite find_position. unfold has_key in Ha.
    by destruct (bool_decide_reflect (pp_expected_generation proposal =
      rule_generation <$> (position (fun rule => bool_decide (rule_key rule = key)) (rules rs) ≫= fun i => rules rs !! i))).
  - destruct (pp_expected_generation proposal) as [generation|]; [|done]. unfold apply_revoke in Ha. unfold rule_for_id.
    rewrite find_position. destruct (position _ _) as [i|]; [|done]. cbn [rbind ok_or mbind option_bind] in *.
    destruct (rules rs !! i) as [rule|]; [|done]. exists rule. split; [done|]. cbn [rbind ok_or] in Ha.
    by destruct (N.eqb_spec (rule_generation rule) generation) as [<-|].
Qed.

(** What is known when a candidate was made *)
Definition candidate_for (p : Publish) (h : CtlEvents) : Prop :=
  match p with
  | By_editor editor snapshot candidate =>
      exists n rules, asked h = [called (C_read_entry editor) (n, Ok snapshot)] /\ decodes (snd snapshot) rules /\
        unchanged_target rules /\ proposal_apply proposal rules = Ok candidate
  | By_session session revision metadata =>
      exists record rules candidate, asked h = [] /\
        saw (fun s => session = ow_session (c_owner s o) /\ record = ss_record (osession s o)) h /\
        from_metadata sha256 (rec_metadata record) = Ok rules /\ unchanged_target rules /\
        proposal_apply proposal rules = Ok candidate /\ revision = rec_revision record /\
        metadata = bt_insert (rec_metadata record) NATIVE_SESSION_PERMISSION_RULES_KEY (to_value candidate)
  end.

Lemma candidate_act p s s' h : candidate_for p h -> candidate_for p (EvAct s s' :: h).
Proof.
  destruct p; simpl; [done|]. intros (record & rules & candidate & ? & ? & ?). exists record, rules, candidate.
  split_and!; try tauto. by apply saw_cons.
Qed.

(** ** The candidate *)
Definition candidate_post (out : outcome (result Publish PermissionError)) (s : CtlWorld) (h : CtlEvents) : Prop :=
  match out with
  | Returned (Ok p) => candidate_for p h
  | Returned (Err _) => unpublished h
  | Dropped => unpublished h /\ exists before h', h = EvDrop before s :: h'
  | Panicked | Blocked => False
  end.

Lemma rwp_candidate op s h : asked h = [] -> (forall editor, ro_editor op = Some editor -> began_with editor h) ->
  rwp (confirm_candidate sha256 o proposal op) candidate_post s h.
Proof.
  intros Ha He. assert (unpublished h) as Hn by (unfold unpublished; by rewrite Ha). unfold confirm_candidate.
  destruct (ro_editor op) as [editor|].
  - apply cwp_await, cwp_asked; [intros ? ?; apply asks_read; auto|]. intros [n read] s1.
    assert (unpublished (EvAsk s1 (C_read_entry editor) (n, read) :: h)) as Hn1 by (by constructor).
    apply cwp_await_polls; [by intros ? ? ?|intros s2; split; [by constructor|by eexists _, _]|]. intros s2. cbn [snd].
    destruct read as [snapshot|]; [|by apply cwp_ret; intros ?].
    destruct (decode sha256 (snd snapshot)) as [rs|e] eqn:Ed; simpl_prog; [|by apply cwp_ret; intros ?].
    destruct (proposal_apply proposal rs) as [candidate|e] eqn:Ep; simpl_prog; [|by apply cwp_ret; intros ?].
    apply cwp_ret. intros ?. exists n, rs. split_and!; [simpl; by rewrite Ha| |by eapply proposal_apply_unchanged|done].
    unfold decode in Ed. apply map_err_ok in Ed. unfold decodes. destruct (snd snapshot); [done|congruence].
  - apply (cwp_get _ confirm_read). intros s1.
    destruct (map_err _ _) as [rs|e] eqn:Ed; simpl_prog; [|by apply cwp_ret; intros ?]. apply map_err_ok in Ed.
    destruct (proposal_apply proposal rs) as [candidate|e] eqn:Ep; simpl_prog; [|by apply cwp_ret; intros ?].
    apply cwp_ret. intros ?. eexists _, rs, candidate. split_and!; [done|by apply saw_here|done| |done..].
    by eapply proposal_apply_unchanged.
Qed.

(** ** Arming *)
Lemma arm_at_spec s b r s' : arm_at o proposal s = ((b, r), s') ->
  if b then uncertain s' = true /\ (is_ok r = true -> arms (EvAct s s')) else s' = s.
Proof.
  unfold arm_at. destruct (N.eqb_spec (ps_epoch (ostate s o)) (pp_expected_epoch proposal)) as [He|]; [|by intros [= <- _ <-]].
  cbn [negb orb]. destruct (match pp_prompt proposal with Some _ => _ | None => _ end) eqn:Ep; [by intros [= <- _ <-]|].
  assert (forall s1 p, ostate (set_state s1 o p) o = p) as E by (intros; unfold ostate, upd; simpl; unfold upd; by rewrite decide_True).
  destruct (checked_add _ _) as [epoch|] eqn:Ea; [|intros [= <- <- <-]; unfold uncertain; by rewrite E].
  apply checked_add_Some in Ea as [-> _]. intros [= <- <- <-]. unfold uncertain, arms. rewrite E. split; [done|].
  intros _. split_and!; [done| |unfold uncertain; by rewrite E|done].
  intros prompt Hp. rewrite Hp, negb_false_iff in Ep. unfold validate_publication, turn_live in Ep.
  rewrite !andb_true_iff, !negb_true_iff, !N.eqb_eq, !bool_decide_eq_true in Ep. by destruct_and! Ep.
Qed.

Definition armed_post (out : outcome (result (Publish * result nat PermissionError) PermissionError)) (s : CtlWorld) (h : CtlEvents) : Prop :=
  match out with
  | Returned (Ok (p, r)) => candidate_for p h /\
      exists s1 s2 h', h = EvAct s1 s2 :: h' /\ (is_ok r = true -> arms (EvAct s1 s2))
  | Returned (Err _) => unpublished h
  | Dropped => unpublished h /\ exists before h', h = EvDrop before s :: h'
  | Panicked | Blocked => False
  end.

Lemma candidate_unpublished p h : candidate_for p h -> unpublished h.
Proof.
  unfold unpublished. destruct p; simpl; [intros (n & rs & -> & _); by repeat constructor|intros (? & ? & ? & -> & _); constructor].
Qed.

Lemma rwp_armed op s h : asked h = [] -> (forall editor, ro_editor op = Some editor -> began_with editor h) ->
  rwp (guarded (operation_drop o op false) is_ok (
    do? publish <- confirm_candidate sha256 o proposal op;
    do armed <- act (arm_at o proposal);
    if (fst armed : bool) then Ret (Ok (publish, snd armed)) else Ret (Err unavailable))) armed_post s h.
Proof.
  intros Ha He. apply wp_guarded, (wp_allowed_mono _ _ confirm_allowed).
  { intros [| |] h0; simpl; [done|done|]. intros Hd Hu. rewrite (proj1 (operation_drop_flags _ _ _)). by apply Hd. }
  apply bind_rwp. eapply wp_mono; [|by apply rwp_candidate].
  intros out s1 h1 Ho. destruct out as [[p|e]| | |]; cbn [sequel]; [| |destruct Ho as [? (b & h2 & ->)]|done|done].
  - apply rwp_act.
    + intros s2. destruct (arm_at o proposal s2) as [[b r] s3] eqn:E. apply arm_at_spec in E. simpl. destruct b; [|subst; apply confirm_read].
      destruct E as [E _]. intros _ Hf. congruence.
    + intros s2. destruct (arm_at o proposal s2) as [[b r] s3] eqn:E. apply arm_at_spec in E. simpl. destruct b; intros s4 _; simpl.
      * split; [by apply candidate_act|]. eexists _, _, _. split; [done|]. by destruct E.
      * split; [apply keeps_allowed; apply operation_drop_flags|]. intros s5 _. exact (candidate_unpublished p h1 Ho).
  - intros s2 _. simpl. split; [apply keeps_allowed; apply operation_drop_flags|]. by intros s3 _.
  - simpl. split; [done|]. by eexists _, _.
Qed.

(** ** Publication *)
Definition published_post (out : outcome (result SessionRevision PermissionError)) (s : CtlWorld) (h : CtlEvents) : Prop :=
  match out with
  | Returned (Ok revision) => published_revision h = Some revision /\
      exists b1 s1 h', h = EvAct b1 s1 :: h' /\ uncertain s1 = false
  | Returned (Err _) => True
  | Dropped => exists before h', h = EvDrop before s :: h'
  | Panicked | Blocked => False
  end.

Lemma uncertain_confirmed s : uncertain (confirmed_at o s) = false.
Proof. unfold uncertain, ostate, confirmed_at. simpl. unfold upd. by rewrite decide_True. Qed.

Lemma rwp_published p r h s : candidate_for p h -> (is_ok r = true -> exists s1 s2 h', h = EvAct s1 s2 :: h' /\ arms (EvAct s1 s2)) ->
  rwp (confirm_armed o p r) published_post s h.
Proof.
  intros Hc Hr. unfold confirm_armed. destruct r as [old|e]; simpl_prog; [|by apply cwp_ret; intros ?].
  destruct (Hr eq_refl) as (s1 & s2 & h' & -> & Harm). clear Hr.
  intros s3 _. split; [by apply keeps_allowed|]. cbn [snd fst].
  set (h1 := EvAct s3 (cancel_at old s3) :: EvAct s1 s2 :: h').
  assert (candidate_for p h1) as Hc1 by (by apply candidate_act).
  assert (armed h1) as Ha by (by eexists _, _, _, _).
  assert (forall revision h2 s, published_revision h2 = Some revision ->
    rwp (do _ <- modify (confirmed_at o); Ret (Ok revision)) published_post s h2) as Hdone.
  { intros revision h2 s4 Hp s5 _. split; [by intros _ _; rewrite Hp|]. intros s6 _. split; [exact Hp|].
    eexists _, _, _. split; [done|]. apply uncertain_confirmed. }
  destruct p as [editor snapshot candidate|session revision metadata]; cbn [publish_call].
  - destruct Hc1 as (n & rs & Hask & Hd & Hu & Hap). apply cwp_await, cwp_asked.
    { intros ? ?. by eapply asks_exchange. }
    intros [m answer] s4. apply cwp_await_polls; [by intros ? ? ?|intros s5; by eexists _, _|]. intros s5. cbn [snd].
    destruct answer as [rev|]; [by apply Hdone|by apply cwp_ret; intros ?].
  - destruct Hc1 as (record & rs & candidate & Hask & Hsaw & Hfm & Hu & Hap & -> & ->). apply cwp_await, cwp_asked.
    { intros ? ?. by eapply asks_update. }
    intros [m answer] s4. apply cwp_await_polls; [by intros ? ? ?|intros s5; by eexists _, _|]. intros s5. cbn [snd].
    destruct answer as [rev|]; [by apply Hdone|by apply cwp_ret; intros ?].
Qed.

Lemma rwp_operation op s h : asked h = [] -> (forall editor, ro_editor op = Some editor -> began_with editor h) ->
  rwp (confirm_operation sha256 o proposal op) confirms s h.
Proof.
  intros Ha He. unfold confirm_operation. apply bind_rwp. eapply wp_mono; [|by apply rwp_armed].
  intros out s1 h1 Ho. destruct out as [[[p r]|e]| | |]; cbn [sequel]; [|by apply cwp_ret; intros ?; left| |done|done].
  2: { destruct Ho as [? ?]. split; [by left|done]. }
  destruct Ho as (Hc & s2 & s3 & h' & -> & Harm). cbn [fst snd]. apply bind_rwp, wp_guarded, (wp_allowed_mono _ _ confirm_allowed).
  { intros [| |] h0; simpl; [done|done|]. intros Hd Hu. by rewrite (proj1 (operation_drop_flags _ _ _)). }
  eapply wp_mono; [|eapply rwp_published; [done|]; intros Hr; eexists _, _, _; split; [done|by apply Harm]].
  clear. intros out s h Ho. destruct out as [[rev|e]| | |]; simpl in Ho |- *; [| | |done|done].
  - destruct Ho as (Hp & b1 & s1 & h' & -> & Hu). intros s2 _. split; [apply keeps_allowed, operation_drop_flags|].
    intros s3 _. split; [exact Hp|]. eexists _, _, _, _, _. split_and!; [done|done|apply operation_drop_flags].
  - split; [by intros _; rewrite (proj1 (operation_drop_flags _ _ _))|]. intros s2 _ s3 _. right. eexists. split; [done|].
    by destruct (operation_drop_flags op true s) as [-> ->].
  - destruct Ho as (b & h' & ->). split; [|by eexists _, _]. right. eexists. split; [done|].
    by destruct (operation_drop_flags op true s) as [-> ->].
Qed.

Lemma begin_at_spec s r s' : begin_at o s = (r, s') -> keeps_flag s s' /\
  match r with
  | Ok (editor, _) => changing s' = true /\
      forall e, editor = Some e -> exists a, ps_active (ostate s o) = Some a /\ at_editor (c_attempt s a) = e
  | Err _ => s' = s
  end.
Proof.
  unfold begin_at. destruct (_ || _); [by intros [= <- <-]|].
  assert (forall s1 p, ostate (set_state s1 o p) o = p) as E by (intros; unfold ostate, upd; simpl; unfold upd; by rewrite decide_True).
  intros [= <- <-]. unfold keeps_flag, uncertain, changing. rewrite E. split; [done|]. split; [done|].
  intros e He. destruct (ps_active (ostate s o)) as [a|]; [|done]. injection He as <-. by exists a.
Qed.

Lemma rwp_begin s h : asked h = [] ->
  rwp (operation_begin o)
    (fun out _ h => asked h = [] /\ match out with
       | Returned (Ok op) => forall editor, ro_editor op = Some editor -> began_with editor h
       | Returned (Err _) => True
       | _ => False end) s h.
Proof.
  intros Ha. unfold operation_begin. apply rwp_act.
  { intros s1. apply keeps_allowed, keeps_acquire. }
  intros s1. destruct (fst (acquire_lifecycle_at o s1)) as [permit|e]; [|by apply cwp_ret; intros ?].
  apply wp_guarded, (wp_allowed_mono _ _ confirm_allowed).
  { intros [| |] h0; simpl; [done|done|]. intros Hd Hu. rewrite (proj1 (control_drop_flags _ _)). by apply Hd. }
  apply rwp_act.
  { intros s2. destruct (begin_at o s2) as [r s3] eqn:E. apply begin_at_spec in E as [E _]. by apply keeps_allowed. }
  intros s2. destruct (begin_at o s2) as [[[editor old]|e] s3] eqn:E; apply begin_at_spec in E as [_ E]; cbn [fst snd].
  - intros s4 _. split; [by apply keeps_allowed|]. intros s5 _. simpl. split; [done|]. intros e He.
    destruct E as [Hch Hed]. destruct (Hed e He) as (a & Hact & Hat). exists s2, s3, a. split_and!; try done. set_solver.
  - intros s4 _. simpl. split; [apply keeps_allowed, control_drop_flags|]. by intros s5 _.
Qed.

Lemma rwp_validate p s h : rwp (prompt_validate p)
    (fun out _ h' => match out with Returned _ => observes h h' | _ => False end) s h.
Proof.
  unfold prompt_validate. apply (cwp_get _ confirm_read). intros s1. destruct (c_prompt _ _); cbn [negb]; cbn iota.
  2: { apply cwp_ret. intros ?. by repeat apply observes_read; apply observes_refl. }
  apply (cwp_get _ confirm_read). intros s2. destruct (ow_alive _); cbn [negb]; cbn iota.
  2: { apply cwp_ret. intros ?. by repeat apply observes_read; apply observes_refl. }
  apply (cwp_get _ confirm_read). intros s3. destruct (at_alive _); cbn iota.
  2: { apply cwp_ret. intros ?. by repeat apply observes_read; apply observes_refl. }
  apply (cwp_try_get _ confirm_read); [intros ? ? ?; by repeat apply observes_read; apply observes_refl|]. intros s4 [[a e] r] _.
  destruct (_ && _ && _); cbn [negb]; cbn iota; apply cwp_ret; intros ?; by repeat apply observes_read; apply observes_refl.
Qed.

Lemma rwp_confirm s : rwp (confirm_rule_change sha256 o proposal) confirms s [].
Proof.
  unfold confirm_rule_change. apply (cwp_get _ confirm_read). intros s1.
  destruct (_ || _); [by apply cwp_ret; intros ?; left; constructor|].
  apply bind_rwp. apply (wp_mono _ _ _ _ (fun out _ h' => match out with Returned _ => asked h' = [] | _ => False end)).
  2: { destruct (pp_prompt proposal) as [prompt|]; [|by intros ? _].
       apply bind_rwp. eapply wp_mono; [|apply rwp_validate]. intros out s2 h2 Ho. destruct out as [[?|?]| | |]; [| |done..];
         apply observes_asked in Ho; by intros ? _. }
  intros out s2 h2 Ho. destruct out as [[[]|e]| | |]; [| |done..]; cbn [sequel].
  2: { apply cwp_ret. intros ?. left. unfold unpublished. by rewrite Ho. }
  apply (cwp_get _ confirm_read). intros s3. destruct (_ =? _)%N; cbn [negb]; cbn iota.
  2: { apply cwp_ret. intros ?. left. unfold unpublished. simpl. by rewrite Ho. }
  apply bind_rwp. eapply wp_mono; [|by apply rwp_begin]. intros out s4 h4 [Ha4 Hop]. destruct out as [[op|e]| | |]; [| |done..]; cbn [sequel].
  - by apply rwp_operation.
  - apply cwp_ret. intros ?. left. unfold unpublished. by rewrite Ha4.
Qed.

(** C20. A confirmed rule change publishes at most one value: the change applied to the rules it just read, whose
    target is the rule the proposal was made for. Right before, in one step, it found the session in the epoch of the proposal and
    its prompt open, blocked every other authority and moved the epoch of the rules on. It clears the block only when the
    publication was confirmed. *)
Theorem rule_publication_protocol (s s' : CtlWorld) (h : CtlEvents) out :
  exec (fun _ _ => True) (fun _ _ _ _ => True) (confirm_rule_change sha256 o proposal) s [] out s' h ->
  all_allowed confirm_allowed h.
Proof.
  intros Hex. eapply (wp_exec_allowed _ _ _ (fun _ => I) (fun _ _ _ _ _ => I)); [exact Hex|apply rwp_confirm|done].
Qed.

(** A rule change that succeeds returns the revision of its publication and leaves the session unblocked; one that fails or is
    dropped has published nothing or leaves the session blocked, with no change in progress. *)
Theorem rule_change_outcome (s s' : CtlWorld) (h : CtlEvents) out :
  exec (fun _ _ => True) (fun _ _ _ _ => True) (confirm_rule_change sha256 o proposal) s [] out s' h -> confirms out s' h.
Proof. intros Hex. eapply (wp_exec _ _ _ (fun _ => I) (fun _ _ _ _ _ => I)); [exact Hex|apply rwp_confirm]. Qed.
End RuleChange.
