(* ===== verification/ControllerSample.v ===== *)
(** * A session of the permission controller

    A concrete controller with one session and a running turn, and the theorems of
    the controller at it. *)
From S2P Require Import Prelude Json Model Prog SessionState Patterns Rules RulesProofs Lifecycle Controller.
From S2P Require Import ControllerProofs ControllerPool ControllerRules.

Definition ask_policy : Policy := Policy_new Mode_Ask [].
Definition sample_attempt : Attempt :=
  {| at_alive := true; at_turn := "turn-1"; at_handle := 0; at_editor := 4; at_policy := ask_policy; at_cancellation := 1 |}.
Definition sample_state : PermState :=
  {| ps_controls := []; ps_retired := false; ps_policy := ask_policy; ps_epoch := 1; ps_changed := 0; ps_rules_epoch := 1;
     ps_active := Some 2; ps_grants := []; ps_changing_rules := false; ps_uncertain_rules := false |}.
Definition sample_ctl : CtlWorld :=
  {| c_routes := [0]; c_table := true;
     c_owner := fun _ => {| ow_alive := true; ow_publication := 0; ow_session := 0; ow_lifecycle := None; ow_state := sample_state |};
     c_attempt := fun _ => sample_attempt;
     c_session := fun _ => {| ss_record := SessionRecord_empty "session" "incarnation"; ss_active_turn := true |};
     c_turn := fun _ => {| tn_cancelled := false; tn_editors_active := true |};
     c_gate := fun _ => (Gate_new, None); c_publication := fun _ => ACTIVE; c_token := fun _ => false; c_prompt := fun _ => false;
     c_owners := 1; c_fresh := 3 |}.

Definition sample_request : PermissionRequest :=
  {| pr_id := "request"; pr_session_id := "session"; pr_session_incarnation_id := "incarnation"; pr_turn_id := "turn-1";
     pr_capability := Cap_Custom "shell" VNull; pr_risk := Risk_High; pr_reason := "run ls" |}.
Definition sample_invocation : PermissionInvocation := {| inv_tool_name := "shell"; inv_call_id := "call"; inv_arguments := VNull |}.
Definition sample_action : Action :=
  {| action_id := 9; saved_rule_key := Some (sample_key "ls"); grant_key := Some (sample_key "ls"); is_file_mutation := false |}.

(** A host that leaves everything to the person, who allows the turn. *)
Definition sample_answers (q : CtlQuery) : CtlAns q :=
  match q with
  | C_prepare _ _ _ => (1, Ok sample_action)
  | C_configured_outcome _ _ => Ok Outcome_Unresolved
  | C_allows_without_review _ _ => false
  | C_automatic_review _ _ => (0, Ok Auto_Ask)
  | C_prompt_with_rule _ _ => (2, Ok Prompt_AllowTurn)
  | C_bind_execution _ _ => Ok 5%N
  | C_close_turn _ _ _ => tt
  | C_metadata_editor _ _ => Ok 4%N
  | C_read_entry _ => (1, Ok (0%N, None))
  | C_compare_exchange _ _ _ => (1, Ok 8%N)
  | C_update_metadata _ _ _ => (1, Ok 8%N)
  end.
Definition ctl_schedule : schedule CtlWorld CtlQuery CtlAns :=
  {| sch_env := fun _ s => s; sch_answer := fun _ => sample_answers; sch_drop := fun _ => false |}.

Notation sample_authorize := (@authorize_invocation decimal_numbers sample_sha sample_writer sample_request sample_invocation).
Notation authorize_run := (run ctl_schedule 0 sample_authorize sample_ctl []).

Lemma authorization_protocol_witness :
  length (asked (snd authorize_run)) = 5 /\
  all_allowed (@authorize_allowed decimal_numbers sample_sha sample_writer sample_request sample_invocation) (snd authorize_run).
Proof.
  split; [vm_compute; reflexivity|].
  eapply (@authorization_protocol decimal_numbers sample_sha sample_writer sample_request sample_invocation sample_ctl).
  apply run_exec; intros; exact I.
Defined.

Lemma authorization_outcome_witness :
  fst (fst authorize_run) = Returned (Ok {| auth_decision := Allow Scope_Once; auth_admission := Some 5%N |}) /\
  authorized (fst (fst authorize_run)) (snd (fst authorize_run)) (snd authorize_run).
Proof.
  split; [vm_compute; reflexivity|].
  apply (@authorization_outcome decimal_numbers sample_sha sample_writer sample_request sample_invocation sample_ctl).
  apply run_exec; intros; exact I.
Defined.

Lemma sample_ctl_ok : ctl_ok sample_ctl.
Proof.
  intros o Ho. split; simpl; try done; [apply NoDup_nil_2|intros g turn Hg; by apply elem_of_nil in Hg|intros a [= <-]; lia].
Qed.

(** A reset beside an authorization *)
Definition sample_ops : list CtlOp := [Op_authorize sample_request sample_invocation; Op_reset 0].
Notation sample_pool := (map (fun op => (Live (@ctl_program decimal_numbers sample_sha sample_writer op), [])) sample_ops, sample_ctl).
Notation pool_end := (run_pool sample_answers [0; 0; 0; 1; 1; 1; 1; 0; 0; 0; 0] sample_pool).

Lemma controller_invariant_witness :
  ps_epoch (ostate (snd pool_end) 0) = 2%N /\ ctl_ok (snd pool_end) /\ ctl_step sample_ctl (snd pool_end).
Proof.
  split; [vm_compute; reflexivity|].
  apply (@controller_invariant decimal_numbers sample_sha sample_writer sample_ops); [exact sample_ctl_ok|].
  apply run_pool_steps. intros; exact I.
Defined.

(** The proof of an execution of epoch zero *)
Definition stale_proof : ExecutionProof :=
  {| xp_owner := 0; xp_attempt := 2; xp_epoch := Some 0%N; xp_rules_epoch := Some 1%N; xp_saved := None; xp_saved_generation := None |}.
Lemma stale_proof_revoked : revoked stale_proof sample_ctl.
Proof. split; [simpl; lia|]. right. left. exists 0%N. split; [done|simpl; lia]. Qed.

Notation revalidate_run := (run ctl_schedule 0 (@revalidate decimal_numbers sample_sha sample_writer stale_proof) sample_ctl []).
Lemma revoked_proof_refused_witness :
  fst (fst revalidate_run) = Returned (Err unavailable) /\ is_ok (Err unavailable : result unit PermissionError) = false.
Proof.
  split; [vm_compute; reflexivity|].
  apply (@revoked_proof_refused decimal_numbers sample_sha sample_writer stale_proof sample_ctl
    (snd (fst revalidate_run)) (snd revalidate_run)).
  - exact sample_ctl_ok.
  - exact stale_proof_revoked.
  - apply (run_exec ctl_schedule ctl_rely (fun _ _ _ _ => True) 0
      (@revalidate decimal_numbers sample_sha sample_writer stale_proof) sample_ctl []); [intros; reflexivity|intros; exact I].
Defined.

Notation reset_run := (run ctl_schedule 0 (reset 0) sample_ctl []).
Lemma reset_revokes_witness : revoked {| xp_owner := 0; xp_attempt := 2; xp_epoch := Some 1%N; xp_rules_epoch := None;
  xp_saved := None; xp_saved_generation := None |} (snd (fst reset_run)).
Proof.
  eapply (reset_revokes 0 sample_ctl (snd (fst reset_run)) (snd reset_run)).
  - exact sample_ctl_ok.
  - simpl. lia.
  - apply (run_exec ctl_schedule ctl_rely (fun _ _ _ _ => True) 0 (reset 0) sample_ctl []);
      [intros; reflexivity|intros; exact I].
  - reflexivity.
  - reflexivity.
  - simpl. lia.
Defined.

Definition sample_proposal : Proposal :=
  {| pp_owner := 0; pp_change := Set_rule (sample_key "ls") "List files" Rule_Allow; pp_expected_generation := None;
     pp_expected_epoch := 1; pp_prompt := None |}.
Notation sample_confirm := (@confirm_rule_change decimal_numbers sample_sha sample_writer 0 sample_proposal).
Notation confirm_run := (run ctl_schedule 0 sample_confirm sample_ctl []).

Lemma rule_publication_protocol_witness :
  length (asked (snd confirm_run)) = 2 /\
  all_allowed (@confirm_allowed decimal_numbers sample_sha sample_writer 0 sample_proposal) (snd confirm_run).
Proof.
  split; [vm_compute; reflexivity|].
  eapply (@rule_publication_protocol decimal_numbers sample_sha sample_writer 0 sample_proposal sample_ctl).
  apply run_exec; intros; exact I.
Defined.

Lemma rule_change_outcome_witness :
  fst (fst confirm_run) = Returned (Ok 8%N) /\ confirms 0 (fst (fst confirm_run)) (snd (fst confirm_run)) (snd confirm_run).
Proof.
  split; [vm_compute; reflexivity|].
  apply (@rule_change_outcome decimal_numbers sample_sha sample_writer 0 sample_proposal sample_ctl).
  apply run_exec; intros; exact I.
Defined.
