(* ===== verification/Fallible.v ===== *)
(** * Code that updates a state, fails and may panic

    The monad of synchronous Rust methods with [&mut self]: a method takes the state,
    returns [Ok] or [Err] with the state after it, or panics. [None] also stands for a
    loop whose fuel is exhausted, so that a theorem which excludes [None] shows that
    the method returns. [after] is its weakest precondition. *)
From S2P Require Import Prelude.

Definition M (S E A : Type) : Type := S -> option (result A E * S).

Section Ops.
  Context {S E : Type}.

Definition mok {A} (a : A) : M S E A := fun s => Some (Ok a, s).
Definition mfail {A} (e : E) : M S E A := fun s => Some (Err e, s).
Definition mpanic {A} : M S E A := fun _ => None.
Definition mget : M S E S := fun s => Some (Ok s, s).
Definition mset (s : S) : M S E unit := fun _ => Some (Ok tt, s).
Definition mthen {A B} (m : M S E A) (k : A -> M S E B) : M S E B := fun s =>
  match m s with
  | Some (Ok a, s') => k a s'
  | Some (Err e, s') => Some (Err e, s')
  | None => None
  end.
(** [o.ok_or(e)?] *)
Definition mok_or {A} (e : E) (o : option A) : M S E A :=
  match o with Some a => mok a | None => mfail e end.
(** An index or [unwrap] of the source. *)
Definition munwrap {A} (o : option A) : M S E A :=
  match o with Some a => mok a | None => mpanic end.

(** ** Weakest preconditions *)
Definition after {A} (m : M S E A) (s : S) (Q : result A E -> S -> Prop) : Prop :=
  match m s with Some (r, s') => Q r s' | None => False end.
(** What a method does when it returns [Ok]; an error is allowed by [F]. *)
Definition after_ok {A} (m : M S E A) (s : S) (Q : A -> S -> Prop) (F : E -> Prop) : Prop :=
  after m s (fun r s' => match r with Ok a => Q a s' | Err e => F e end).
End Ops.

Declare Scope fallible_scope.
Delimit Scope fallible_scope with fallible.
Notation "'let*' x := e 'in' k" := (mthen e (fun x => k))
  (at level 10, x pattern, e at level 100, k at level 200) : fallible_scope.
Notation "'mfail_if' b 'with' e 'in' k" := (if b then mfail e else k)
  (at level 10, b at level 100, e at level 100, k at level 200) : fallible_scope.
Open Scope fallible_scope.

Section Rules.
  Context {S E : Type}.

Lemma after_mono {A} (m : M S E A) s (Q R : result A E -> S -> Prop) :
  after m s Q -> (forall r s', Q r s' -> R r s') -> after m s R.
Proof. unfold after. destruct (m s) as [[r s']|]; auto. Qed.

Lemma after_then {A B} (m : M S E A) (k : A -> M S E B) s (Q : result B E -> S -> Prop) :
  after m s (fun r s' => match r with Ok a => after (k a) s' Q | Err e => Q (Err e) s' end) -> after (mthen m k) s Q.
Proof. unfold after, mthen. destruct (m s) as [[[a|e] s']|]; auto. Qed.

Lemma after_ok_mono {A} (m : M S E A) s (Q R : A -> S -> Prop) (F G : E -> Prop) :
  after_ok m s Q F -> (forall a s', Q a s' -> R a s') -> (forall e, F e -> G e) -> after_ok m s R G.
Proof. intros H HQ HF. eapply after_mono; [exact H|]. intros [a|e] s'; auto. Qed.

Lemma after_ok_then {A B} (m : M S E A) (k : A -> M S E B) s Q F :
  after_ok m s (fun a s' => after_ok (k a) s' Q F) F -> after_ok (mthen m k) s Q F.
Proof.
  unfold after_ok, after, mthen. destruct (m s) as [[[a|e] s']|]; auto.
Qed.

(** Runs the first part of a method by its specification. *)
Lemma after_ok_step {A B} (m : M S E A) (k : A -> M S E B) s Q (F G : E -> Prop) R :
  after_ok m s Q F -> (forall e, F e -> G e) -> (forall a s', Q a s' -> after_ok (k a) s' R G) ->
  after_ok (mthen m k) s R G.
Proof. intros H HF HQ. apply after_ok_then. eapply after_ok_mono; eauto. Qed.

Lemma after_ok_ok {A} (a : A) s (Q : A -> S -> Prop) (F : E -> Prop) : Q a s -> after_ok (mok a) s Q F.
Proof. auto. Qed.
Lemma after_ok_fail {A} (e : E) s (Q : A -> S -> Prop) (F : E -> Prop) : F e -> after_ok (mfail e) s Q F.
Proof. auto. Qed.
Lemma after_ok_get s (Q : S -> S -> Prop) (F : E -> Prop) : Q s s -> after_ok mget s Q F.
Proof. auto. Qed.
Lemma after_ok_set s t (Q : unit -> S -> Prop) (F : E -> Prop) : Q tt t -> after_ok (mset t) s Q F.
Proof. auto. Qed.

Lemma after_ok_or {A} (e : E) (o : option A) s (Q : A -> S -> Prop) (F : E -> Prop) :
  match o with Some a => Q a s | None => F e end -> after_ok (mok_or e o) s Q F.
Proof. destruct o; auto. Qed.

Lemma after_ok_unwrap {A} (o : option A) a s (Q : A -> S -> Prop) (F : E -> Prop) :
  o = Some a -> Q a s -> after_ok (munwrap o) s Q F.
Proof. intros -> H. exact H. Qed.

(** A specification read off a concrete run. *)
Lemma after_ok_run {A} (m : M S E A) s Q F a s' :
  after_ok m s Q F -> m s = Some (Ok a, s') -> Q a s'.
Proof. unfold after_ok, after. intros H E'. by rewrite E' in H. Qed.
Lemma after_ok_total {A} (m : M S E A) s Q F : after_ok m s Q F -> m s <> None.
Proof. unfold after_ok, after. intros H E'. by rewrite E' in H. Qed.
End Rules.

(** One step of a method whose head is a primitive. *)
Ltac fstep :=
  lazymatch goal with
  | |- after_ok (mthen mget _) _ _ _ => apply after_ok_then, after_ok_get
  | |- after_ok (mthen (mset _) _) _ _ _ => apply after_ok_then, after_ok_set
  | |- after_ok (mthen (mok _) _) _ _ _ => apply after_ok_then, after_ok_ok
  | |- after_ok (mthen (mok_or _ _) _) _ _ _ => apply after_ok_then, after_ok_or
  | |- after_ok (mok _) _ _ _ => apply after_ok_ok
  | |- after_ok (mset _) _ _ _ => apply after_ok_set
  | |- after_ok mget _ _ _ => apply after_ok_get
  | |- after_ok (mfail _) _ _ _ => apply after_ok_fail
  end.
