(* ===== verification/Schema.v ===== *)
(** * Limits of JSON schemas ([mcp/schema.rs])

    The bounds of the schema validator, their hard maxima and its errors. *)
From S2P Require Import Prelude.

Record McpSchemaLimits := {
  max_schema_bytes : N;
  max_instance_bytes : N;
  max_depth : N;
  max_nodes : N;
  max_steps : N;
  max_ref_hops : N;
  max_container_entries : N;
  max_number_bytes : N;
  max_number_exponent_abs : Z;
  max_number_expanded_digits : N;
  max_pattern_states : N;
  max_pattern_repeat : N;
  max_pattern_steps : N;
  max_reference_bytes : N;
  max_pattern_cache_bytes : N;
  max_cached_pattern_states : N;
  max_retained_bytes : N;
}.

Definition default_schema_limits : McpSchemaLimits := {|
  max_schema_bytes := 256 * 1024;
  max_instance_bytes := 1024 * 1024;
  max_depth := 64;
  max_nodes := 4096;
  max_steps := 100000;
  max_ref_hops := 256;
  max_container_entries := 4096;
  max_number_bytes := 4096;
  max_number_exponent_abs := 1000000;
  max_number_expanded_digits := 8192;
  max_pattern_states := 2048;
  max_pattern_repeat := 1024;
  max_pattern_steps := 200000;
  max_reference_bytes := 1024 * 1024;
  max_pattern_cache_bytes := 256 * 1024;
  max_cached_pattern_states := 2048;
  max_retained_bytes := 4 * 1024 * 1024;
|}.

Inductive McpSchemaError :=
| InvalidLimits | InvalidSchema | UnsupportedDialect | ExternalReference | UnresolvedReference
| SchemaLimitExceeded | InstanceLimitExceeded | InvalidJson.
#[export] Instance McpSchemaError_eq_dec : EqDecision McpSchemaError.
Proof. solve_decision. Defined.

(** The fields that [validate] compares with the maxima, in its order. *)
Definition limit_fields (l : McpSchemaLimits) : list N :=
  [max_schema_bytes l; max_instance_bytes l; max_depth l; max_nodes l; max_steps l; max_ref_hops l;
   max_container_entries l; max_number_bytes l; max_number_expanded_digits l; max_pattern_states l;
   max_pattern_repeat l; max_pattern_steps l; max_reference_bytes l; max_pattern_cache_bytes l;
   max_cached_pattern_states l; max_retained_bytes l].

Definition schema_limits_validate (self : McpSchemaLimits) : result McpSchemaLimits McpSchemaError :=
  let cap := default_schema_limits in
  fail_if existsb (fun '(value, maximum) => (value =? 0)%N || (maximum <? value)%N)
            (zip (limit_fields self) (limit_fields cap)) with InvalidLimits in
  fail_if (max_number_exponent_abs self <=? 0)%Z
          || (max_number_exponent_abs cap <? max_number_exponent_abs self)%Z with InvalidLimits in
  Ok self.
