(* ===== verification/SchemaPattern.v ===== *)
(** * Patterns of JSON schemas ([mcp/schema/pattern.rs], [pattern/parse.rs], [pattern/compile.rs])

    The regular expressions of the schema validator: a recursive-descent parser that
    builds an arena of nodes, a compiler from the arena to the instructions of a
    nondeterministic automaton with patched jumps, and the search, which runs all states
    of the automaton together and counts every step against a budget. A [&str] is the
    list of its characters; the cursor of the search counts bytes, as in the source.
    Loops and recursions have fuel; [None] is a panic or exhausted fuel, and the theorems
    of [RegexSearch] and [RegexGrammar] exclude both. *)
From S2P Require Import Prelude Fallible Schema UnicodeLetter.

Inductive PatternError := Unsupported | PatternLimit.
#[export] Instance PatternError_eq_dec : EqDecision PatternError.
Proof. solve_decision. Defined.

(** ** Characters *)
Definition ch (a : ascii) : char := N_of_ascii a.
Definition char_in (lo hi value : char) : bool := (lo <=? value)%N && (value <=? hi)%N.
Arguments char_in (lo hi value)%_N_scope.
Definition char_is_digit (c : char) : bool := char_in (ch "0") (ch "9") c.
Definition char_is_upper (c : char) : bool := char_in (ch "A") (ch "Z") c.
Definition char_is_lower (c : char) : bool := char_in (ch "a") (ch "z") c.
Definition char_is_alphanumeric (c : char) : bool := char_is_digit c || char_is_upper c || char_is_lower c.
(** [char::to_digit(16)] and [char::to_digit(10)]. *)
Definition to_digit16 (c : char) : option N :=
  if char_is_digit c then Some (c - ch "0")%N
  else if char_in (ch "a") (ch "f") c then Some (c - ch "a" + 10)%N
  else if char_in (ch "A") (ch "F") c then Some (c - ch "A" + 10)%N
  else None.
Definition to_digit10 (c : char) : option N := if char_is_digit c then Some (c - ch "0")%N else None.
(** [char::from_u32] *)
Definition is_scalar (v : N) : bool := (v <=? 0x10FFFF)%N && negb (char_in 0xD800 0xDFFF v).
Definition from_u32 (v : N) : option char := if is_scalar v then Some v else None.
(** [char::len_utf8], and [str::len] on a list of characters. *)
Definition len_utf8 (c : char) : N :=
  if (c <? 0x80)%N then 1 else if (c <? 0x800)%N then 2 else if (c <? 0x10000)%N then 3 else 4.
Fixpoint text_len (text : list char) : N :=
  match text with [] => 0 | c :: text => len_utf8 c + text_len text end%N.
(** [&text[cursor..]]: [None] where the cursor is not a character boundary. *)
Fixpoint str_from (text : list char) (cursor : N) : option (list char) :=
  if (cursor =? 0)%N then Some text
  else match text with
       | [] => None
       | c :: text => if (cursor <? len_utf8 c)%N then None else str_from text (cursor - len_utf8 c)
       end.
(** The characters of an ASCII text. *)
Definition chars (s : string) : list char := ch <$> String.list_ascii_of_string s.

Definition whitespace (value : char) : bool :=
  char_in 0x0009 0x000D value || (value =? 0x0020)%N || (value =? 0x00A0)%N || (value =? 0x1680)%N
  || char_in 0x2000 0x200A value || (value =? 0x2028)%N || (value =? 0x2029)%N || (value =? 0x202F)%N
  || (value =? 0x205F)%N || (value =? 0x3000)%N || (value =? 0xFEFF)%N.

(** ** The arena *)
Inductive Node :=
| N_Empty
| N_Literal (c : char)
| N_Any
| N_Class (class : nat)
| N_Start
| N_End
| N_Concat (lhs rhs : nat)
| N_Alternate (lhs rhs : nat)
| N_Repeat (child : nat) (min : N) (max : option N).

Record CharClass := { c_ranges : list (char * char); c_flags : N; c_negated : bool }.
Definition class_default : CharClass := {| c_ranges := []; c_flags := 0; c_negated := false |}.
Definition flag (f mask : N) : bool := negb (N.land f mask =? 0)%N.
Arguments flag (f mask)%_N_scope.

(** The budget of a search: the state is the number of steps so far. *)
Definition consume (limit : N) : M N PatternError unit :=
  let* steps := mget in
  let* steps := mok_or PatternLimit (checked_add steps 1) in
  let* _ := mset steps in
  mfail_if (limit <? steps)%N with PatternLimit in
  mok tt.

Fixpoint ranges_match (ranges : list (char * char)) (value : char) (limit : N) : M N PatternError bool :=
  match ranges with
  | [] => mok false
  | (first, last) :: ranges =>
    let* _ := consume limit in
    if (first <=? value)%N && (value <=? last)%N then mok true else ranges_match ranges value limit
  end.

Definition class_matches (self : CharClass) (value : char) (limit : N) : M N PatternError bool :=
  let* _ := consume limit in
  let* matched :=
    if flag (c_flags self) 1 && char_is_digit value
       || flag (c_flags self) 2 && (char_is_alphanumeric value || (value =? ch "_")%N)
       || flag (c_flags self) 4 && whitespace value
       || flag (c_flags self) 8 && negb (whitespace value) then mok true
    else if flag (c_flags self) 16 then munwrap (letter_contains value) else mok false in
  let* matched := if matched : bool then mok true else ranges_match (c_ranges self) value limit in
  mok (negb (eqb matched (c_negated self))).

(** ** The parser *)
Record Parser := {
  p_source : list char;
  p_cursor : nat;
  p_depth : N;
  p_nodes : list Node;
  p_classes : list CharClass;
}.
Definition with_cursor (p : Parser) (c : nat) : Parser :=
  {| p_source := p_source p; p_cursor := c; p_depth := p_depth p; p_nodes := p_nodes p; p_classes := p_classes p |}.
Definition with_depth (p : Parser) (d : N) : Parser :=
  {| p_source := p_source p; p_cursor := p_cursor p; p_depth := d; p_nodes := p_nodes p; p_classes := p_classes p |}.
Definition with_nodes (p : Parser) (l : list Node) : Parser :=
  {| p_source := p_source p; p_cursor := p_cursor p; p_depth := p_depth p; p_nodes := l; p_classes := p_classes p |}.
Definition with_classes (p : Parser) (l : list CharClass) : Parser :=
  {| p_source := p_source p; p_cursor := p_cursor p; p_depth := p_depth p; p_nodes := p_nodes p; p_classes := l |}.

Definition P := M Parser PatternError.

Definition peek_at (p : Parser) : option char := p_source p !! p_cursor p.
Definition peek : P (option char) := let* p := mget in mok (peek_at p).
Definition advance : P unit := let* p := mget in mset (with_cursor p (S (p_cursor p))).
Definition take_char (value : char) : P bool :=
  let* c := peek in
  if bool_decide (c = Some value) then let* _ := advance in mok true else mok false.
Definition next_char : P char :=
  let* c := peek in
  let* value := mok_or Unsupported c in
  let* _ := advance in
  mok value.
(** [while self.peek().is_some_and(test) { self.cursor += 1 }] *)
Fixpoint skip_while (fuel : nat) (test : char -> bool) : P unit :=
  match fuel with
  | O => mpanic
  | S fuel =>
    let* c := peek in
    match c with
    | Some value => if test value then let* _ := advance in skip_while fuel test else mok tt
    | None => mok tt
    end
  end.
Definition source_fuel (p : Parser) : nat := S (length (p_source p)).

(** [char::to_digit] is fallible, [char::from_u32] too. *)
Fixpoint hex_go (count : nat) (value : N) : P N :=
  match count with
  | O => mok value
  | S count =>
    let* c := next_char in
    let* digit := mok_or Unsupported (to_digit16 c) in
    hex_go count (value * 16 + digit)%N
  end.
Definition hex (count : nat) : P char :=
  let* value := hex_go count 0 in
  mok_or Unsupported (from_u32 value).

Fixpoint count_go (fuel : nat) (value : N) : P N :=
  match fuel with
  | O => mpanic
  | S fuel =>
    let* c := peek in
    match c ≫= to_digit10 with
    | Some digit =>
      let* _ := advance in
      let* value := mok_or PatternLimit (checked_mul value 10 ≫= fun value => checked_add value digit) in
      count_go fuel value
    | None => mok value
    end
  end.
Definition count : P N :=
  let* p := mget in
  let* value := count_go (source_fuel p) 0 in
  let* q := mget in
  mfail_if bool_decide (p_cursor q = p_cursor p) with Unsupported in
  mok value.

(** The characters that stand for themselves after a backslash. *)
Definition syntax_chars : list char := chars "^$\.*+?()[]{}|/".

Definition escaped_literal (escaped : char) (class : bool) : P char :=
  if (escaped =? ch "n")%N then mok 10%N
  else if (escaped =? ch "r")%N then mok 13%N
  else if (escaped =? ch "t")%N then mok 9%N
  else if (escaped =? ch "f")%N then mok 12%N
  else if (escaped =? ch "v")%N then mok 11%N
  else if (escaped =? ch "x")%N then hex 2
  else if (escaped =? ch "u")%N then
    let* braced := if class then mok false else take_char (ch "{") in
    if braced : bool then
      let* p := mget in
      let start := p_cursor p in
      let* _ := skip_while (source_fuel p) (fun value => negb (value =? ch "}")%N) in
      let* q := mget in
      let digits := p_cursor q - start in
      let* _ := mset (with_cursor q start) in
      mfail_if (digits =? 0) || (6 <? digits) with Unsupported in
      let* value := hex digits in
      let* closed := take_char (ch "}") in
      if closed : bool then mok value else mfail Unsupported
    else hex 4
  else if (escaped =? ch "0")%N then
    let* c := peek in
    if from_option char_is_digit false c then mfail Unsupported else mok 0%N
  else if bool_decide (escaped ∈ syntax_chars) then mok escaped
  else if (escaped =? ch "-")%N && class then mok (ch "-")
  else mfail Unsupported.

Section Limited.
  Context (limits : McpSchemaLimits).

Definition p_add (node : Node) : P nat :=
  let* p := mget in
  mfail_if (max_pattern_states limits <=? vec_len (p_nodes p))%N with PatternLimit in
  let* _ := mset (with_nodes p (p_nodes p ++ [node])) in
  mok (length (p_nodes p)).

Fixpoint balanced_go (fuel : nat) (nodes : list nat) (alternate : bool) : P nat :=
  match fuel with
  | O => mpanic
  | S fuel =>
    match nodes with
    | [] => p_add N_Empty
    | [node] => mok node
    | _ =>
      let middle := Nat.div2 (length nodes) in
      let* lhs := balanced_go fuel (take middle nodes) alternate in
      let* rhs := balanced_go fuel (drop middle nodes) alternate in
      p_add (if alternate then N_Alternate lhs rhs else N_Concat lhs rhs)
    end
  end.
Definition balanced (nodes : list nat) (alternate : bool) : P nat :=
  balanced_go (S (length nodes)) nodes alternate.

Definition class_node (class : CharClass) : P nat :=
  let* p := mget in
  mfail_if (max_pattern_states limits <=? vec_len (p_classes p))%N with PatternLimit in
  let* _ := mset (with_classes p (p_classes p ++ [class])) in
  p_add (N_Class (length (p_classes p))).

Definition escape_node : P nat :=
  let* escaped := next_char in
  if bool_decide (escaped ∈ chars "dDwWsS") then
    class_node {| c_ranges := [];
                  c_flags := if bool_decide (escaped ∈ chars "dD") then 1%N
                             else if bool_decide (escaped ∈ chars "wW") then 2 else 4;
                  c_negated := char_is_upper escaped |}
  else if bool_decide (escaped ∈ chars "pP") then
    let* opened := take_char (ch "{") in
    if opened : bool then
      let* p := mget in
      let start := p_cursor p in
      let* _ := skip_while (source_fuel p) (fun value => negb (value =? ch "}")%N) in
      let* q := mget in
      let name := take (p_cursor q - start) (drop start (p_source q)) in
      let* closed := take_char (ch "}") in
      if negb closed || negb (bool_decide (name = chars "Letter" \/ name = chars "L")) then mfail Unsupported
      else class_node {| c_ranges := []; c_flags := 16; c_negated := (escaped =? ch "P")%N |}
    else mfail Unsupported
  else
    let* value := escaped_literal escaped false in
    p_add (N_Literal value).

(** The class under construction is an argument and a part of the result. *)
Definition class_atom (class : CharClass) : P (option char * CharClass) :=
  let set_flag f := (None, {| c_ranges := c_ranges class; c_flags := N.lor (c_flags class) f;
                              c_negated := c_negated class |}) in
  let* value := next_char in
  if negb (value =? ch "\")%N then mok (Some value, class)
  else
    let* escaped := next_char in
    if (escaped =? ch "d")%N then mok (set_flag 1%N)
    else if (escaped =? ch "w")%N then mok (set_flag 2%N)
    else if (escaped =? ch "s")%N then mok (set_flag 4%N)
    else if (escaped =? ch "S")%N then mok (set_flag 8%N)
    else let* c := escaped_literal escaped true in mok (Some c, class).

Definition at_range (p : Parser) : bool :=
  bool_decide (peek_at p = Some (ch "-"))
  && from_option (fun value => negb (value =? ch "]")%N) false (p_source p !! S (p_cursor p)).

Definition push_range (class : CharClass) (lhs rhs : char) : CharClass :=
  {| c_ranges := c_ranges class ++ [(lhs, rhs)]; c_flags := c_flags class; c_negated := c_negated class |}.

Fixpoint class_go (fuel : nat) (class : CharClass) (first : bool) : P nat :=
  match fuel with
  | O => mpanic
  | S fuel =>
    let* c := peek in
    match c with
    | None => mfail Unsupported
    | Some _ =>
      let* closed := if first then mok false else take_char (ch "]") in
      if closed : bool then class_node class
      else
        let* (lhs, class) := class_atom class in
        let* p := mget in
        match lhs with
        | None => mfail_if at_range p with Unsupported in class_go fuel class false
        | Some lhs =>
          let* (rhs, class) :=
            if at_range p then
              let* _ := advance in
              let* (rhs, class) := class_atom class in
              let* rhs := mok_or Unsupported rhs in
              mok (rhs, class)
            else mok (lhs, class) in
          mfail_if (rhs <? lhs)%N with Unsupported in
          let class := push_range class lhs rhs in
          mfail_if (max_pattern_states limits <? vec_len (c_ranges class))%N with PatternLimit in
          class_go fuel class false
        end
    end
  end.

Definition class : P nat :=
  let* negated := take_char (ch "^") in
  let* p := mget in
  class_go (source_fuel p) {| c_ranges := []; c_flags := 0; c_negated := negated |} true.

(** The bounds of a quantifier after its first character. *)
Definition quantifier (operator : char) : P (N * option N) :=
  if (operator =? ch "*")%N then mok (0%N, None)
  else if (operator =? ch "+")%N then mok (1%N, None)
  else if (operator =? ch "?")%N then mok (0%N, Some 1%N)
  else
    let* min := count in
    let* closed := take_char (ch "}") in
    if closed : bool then mok (min, Some min)
    else
      let* comma := take_char (ch ",") in
      if comma : bool then
        let* closed := take_char (ch "}") in
        if closed : bool then mok (min, None)
        else
          let* max := count in
          let* closed := take_char (ch "}") in
          if closed : bool then mok (min, Some max) else mfail Unsupported
      else mfail Unsupported.

Definition is_operator (c : char) : bool := bool_decide (c ∈ chars "*+?{").

Section Nested.
  (** [alternation] one level of parentheses deeper. *)
  Context (alternation : bool -> P nat).

Definition atom : P (nat * bool) :=
  let* character := next_char in
  if (character =? ch "^")%N then let* n := p_add N_Start in mok (n, false)
  else if (character =? ch "$")%N then let* n := p_add N_End in mok (n, false)
  else if (character =? ch "(")%N then
    let* c := peek in
    mfail_if bool_decide (c = Some (ch "?")) with Unsupported in
    let* p := mget in
    mfail_if (max_depth limits <=? p_depth p)%N with PatternLimit in
    let* _ := mset (with_depth p (p_depth p + 1)) in
    let* child := alternation true in
    let* p := mget in
    let* _ := mset (with_depth p (p_depth p - 1)) in
    let* closed := take_char (ch ")") in
    if closed : bool then mok (child, true) else mfail Unsupported
  else if (character =? ch "[")%N then let* n := class in mok (n, true)
  else if (character =? ch "\")%N then let* n := escape_node in mok (n, true)
  else if bool_decide (character ∈ chars ")]}|*+?{") then mfail Unsupported
  else
    let* n := p_add (if (character =? ch ".")%N then N_Any else N_Literal character) in
    mok (n, true).

Definition repetition : P nat :=
  let* (child, quantifiable) := atom in
  let* c := peek in
  match c with
  | Some operator =>
    if is_operator operator then
      mfail_if negb quantifiable with Unsupported in
      let* _ := advance in
      let* (min, max) := quantifier operator in
      mfail_if from_option (fun maximum => maximum <? min)%N false max with Unsupported in
      mfail_if (max_pattern_repeat limits <? min)%N
               || from_option (fun maximum => max_pattern_repeat limits <? maximum)%N false max
        with PatternLimit in
      let* _ := take_char (ch "?") in
      let* c := peek in
      mfail_if from_option is_operator false c with Unsupported in
      p_add (N_Repeat child min max)
    else mok child
  | None => mok child
  end.

Fixpoint sequence_go (fuel : nat) (grouped : bool) (nodes : list nat) : P (list nat) :=
  match fuel with
  | O => mpanic
  | S fuel =>
    let* c := peek in
    if from_option (fun value => negb (value =? ch "|")%N && negb (grouped && (value =? ch ")")%N)) false c then
      let* node := repetition in
      sequence_go fuel grouped (nodes ++ [node])
    else mok nodes
  end.
Definition sequence (grouped : bool) : P nat :=
  let* p := mget in
  let* nodes := sequence_go (source_fuel p) grouped [] in
  balanced nodes false.

Fixpoint branches_go (fuel : nat) (grouped : bool) (branches : list nat) : P (list nat) :=
  match fuel with
  | O => mpanic
  | S fuel =>
    let* more := take_char (ch "|") in
    if more : bool then
      let* branch := sequence grouped in
      branches_go fuel grouped (branches ++ [branch])
    else mok branches
  end.
End Nested.

(** The fuel is the depth of the parentheses. *)
Fixpoint alternation (fuel : nat) (grouped : bool) : P nat :=
  match fuel with
  | O => mpanic
  | S fuel =>
    let* p := mget in
    let* first := sequence (alternation fuel) grouped in
    let* branches := branches_go (alternation fuel) (source_fuel p) grouped [first] in
    balanced branches true
  end.

Definition parser_new (source : list char) : Parser :=
  {| p_source := source; p_cursor := 0; p_depth := 0; p_nodes := []; p_classes := [] |}.

Definition parse_program : P nat :=
  let* p := mget in
  let* root := alternation (source_fuel p) false in
  let* p := mget in
  mfail_if negb (bool_decide (p_cursor p = length (p_source p))) with Unsupported in
  mok root.

Definition parse (source : list char) : option (result (list Node * list CharClass * nat) PatternError) :=
  match parse_program (parser_new source) with
  | Some (Ok root, p) => Some (Ok (p_nodes p, p_classes p, root))
  | Some (Err e, _) => Some (Err e)
  | None => None
  end.
End Limited.

(** ** The compiler *)
Inductive Op :=
| O_Epsilon
| O_Literal (c : char)
| O_Any
| O_Class (class : nat)
| O_Split
| O_Start
| O_End
| O_Accept.
Record Instruction := { i_op : Op; i_next : nat; i_alternate : nat }.
Record Fragment := { f_start : nat; f_pending : list (nat * bool) }.

(** The state of a [Compiler] is its instructions; its nodes and limit do not change. *)
Definition C := M (list Instruction) PatternError.

Section Compiler.
  Context (nodes : list Node) (limit : N).

Definition c_add (op : Op) (next alternate : nat) : C nat :=
  let* instructions := mget in
  mfail_if (limit <=? vec_len instructions)%N with PatternLimit in
  let* _ := mset (instructions ++ [{| i_op := op; i_next := next; i_alternate := alternate |}]) in
  mok (length instructions).

Definition single (op : Op) : C Fragment :=
  let* start := c_add op 0 0 in
  mok {| f_start := start; f_pending := [(start, false)] |}.

Definition set_target (i : Instruction) (alternate : bool) (target : nat) : Instruction :=
  if alternate then {| i_op := i_op i; i_next := i_next i; i_alternate := target |}
  else {| i_op := i_op i; i_next := target; i_alternate := i_alternate i |}.

Fixpoint patch (pending : list (nat * bool)) (target : nat) : C unit :=
  match pending with
  | [] => mok tt
  | (index, alternate) :: pending =>
    let* instructions := mget in
    let* i := munwrap (instructions !! index) in
    let* _ := mset (<[index := set_target i alternate target]> instructions) in
    patch pending target
  end.

Definition concatenate (lhs rhs : Fragment) : C Fragment :=
  let* _ := patch (f_pending lhs) (f_start rhs) in
  mok {| f_start := f_start lhs; f_pending := f_pending rhs |}.

(** [for _ in 0..min] *)
Fixpoint required (child : C Fragment) (copies : nat) (result : Fragment) : C Fragment :=
  match copies with
  | O => mok result
  | S copies =>
    let* next := child in
    let* result := concatenate result next in
    required child copies result
  end.
(** [for _ in min..maximum] *)
Fixpoint optional (child : C Fragment) (copies : nat) (result : Fragment) : C Fragment :=
  match copies with
  | O => mok result
  | S copies =>
    let* next := child in
    let* start := c_add O_Split (f_start next) 0 in
    let* result := concatenate result {| f_start := start; f_pending := f_pending next ++ [(start, true)] |} in
    optional child copies result
  end.

Fixpoint compile_node (fuel : nat) (index : nat) : C Fragment :=
  match fuel with
  | O => mpanic
  | S fuel =>
    let* node := munwrap (nodes !! index) in
    match node with
    | N_Empty => single O_Epsilon
    | N_Literal value => single (O_Literal value)
    | N_Any => single O_Any
    | N_Class value => single (O_Class value)
    | N_Start => single O_Start
    | N_End => single O_End
    | N_Concat lhs rhs =>
      let* lhs := compile_node fuel lhs in
      let* rhs := compile_node fuel rhs in
      concatenate lhs rhs
    | N_Alternate lhs rhs =>
      let* lhs := compile_node fuel lhs in
      let* rhs := compile_node fuel rhs in
      let* start := c_add O_Split (f_start lhs) (f_start rhs) in
      mok {| f_start := start; f_pending := f_pending lhs ++ f_pending rhs |}
    | N_Repeat child min max =>
      let* result := single O_Epsilon in
      let* result := required (compile_node fuel child) (N.to_nat min) result in
      match max with
      | Some maximum => optional (compile_node fuel child) (N.to_nat (maximum - min)) result
      | None =>
        let* next := compile_node fuel child in
        let* start := c_add O_Split (f_start next) 0 in
        let* _ := patch (f_pending next) start in
        concatenate result {| f_start := start; f_pending := [(start, true)] |}
      end
    end
  end.

Definition compile_program (root : nat) : C nat :=
  let* fragment := compile_node (S (length nodes)) root in
  let* end_ := c_add O_Accept 0 0 in
  let* _ := patch (f_pending fragment) end_ in
  mok (f_start fragment).
End Compiler.

Record Pattern := { instructions : list Instruction; classes : list CharClass; start : nat }.

Definition pattern_compile (source : list char) (limits : McpSchemaLimits) : option (result Pattern PatternError) :=
  match parse limits source with
  | Some (Ok (nodes, classes, root)) =>
    match compile_program nodes (max_pattern_states limits) root [] with
    | Some (Ok start, instructions) =>
      Some (Ok {| instructions := instructions; classes := classes; start := start |})
    | Some (Err e, _) => Some (Err e)
    | None => None
    end
  | Some (Err e) => Some (Err e)
  | None => None
  end.
Definition states (self : Pattern) : N := vec_len (instructions self).

(** ** The search *)
Record States := { active : list nat; present : list bool }.
Definition states_new (length : nat) : States := {| active := []; present := replicate length false |}.
(** [None] is an index out of range. *)
Definition states_insert (self : States) (index : nat) : option States :=
  b ← present self !! index;
  Some (if b : bool then self
        else {| active := active self ++ [index]; present := <[index := true]> (present self) |}).
Fixpoint clear_present (indices : list nat) (present : list bool) : option (list bool) :=
  match indices with
  | [] => Some present
  | index :: indices => _ ← present !! index; clear_present indices (<[index := false]> present)
  end.
Definition states_clear (self : States) : option States :=
  present ← clear_present (active self) (present self);
  Some {| active := []; present := present |}.

(** [Closure]; its text length and limit do not change. The head of [stack] is its top. *)
Record Closure := { visited : list N; generation : N; stack : list nat; steps : N }.
Definition with_stack (w : Closure) (l : list nat) : Closure :=
  {| visited := visited w; generation := generation w; stack := l; steps := steps w |}.
Definition with_steps (w : Closure) (n : N) : Closure :=
  {| visited := visited w; generation := generation w; stack := stack w; steps := n |}.
Definition with_visited (w : Closure) (l : list N) : Closure :=
  {| visited := l; generation := generation w; stack := stack w; steps := steps w |}.
Definition with_generation (w : Closure) (g : N) : Closure :=
  {| visited := visited w; generation := g; stack := stack w; steps := steps w |}.

Section Search.
  Context (self : Pattern) (length_ : N) (limit : N).

(** Code on the counter of steps, inside a larger state. *)
Definition counted {S A} (get : S -> N) (put : S -> N -> S) (m : M N PatternError A) : M S PatternError A :=
  fun s => match m (get s) with Some (r, n) => Some (r, put s n) | None => None end.

Definition Cl := M (States * Closure) PatternError.
Definition push_stack (index : nat) : Cl unit :=
  let* (s, w) := mget in mset (s, with_stack w (index :: stack w)).

(** The [match] of the loop of [closure]. *)
Definition follow (cursor : N) (index : nat) (i : Instruction) : Cl unit :=
  match i_op i with
  | O_Epsilon => push_stack (i_next i)
  | O_Split => let* _ := push_stack (i_next i) in push_stack (i_alternate i)
  | O_Start => if (cursor =? 0)%N then push_stack (i_next i) else mok tt
  | O_End => if (cursor =? length_)%N then push_stack (i_next i) else mok tt
  | _ => let* (s, w) := mget in let* s := munwrap (states_insert s index) in mset (s, w)
  end.

Fixpoint closure_go (fuel : nat) (cursor : N) : Cl unit :=
  match fuel with
  | O => mpanic
  | S fuel =>
    let* (s, w) := mget in
    match stack w with
    | [] => mok tt
    | index :: rest =>
      let* _ := mset (s, with_stack w rest) in
      let* seen := munwrap (visited w !! index) in
      if (seen =? generation w)%N then closure_go fuel cursor
      else
        let* _ := mset (s, with_visited (with_stack w rest) (<[index := generation w]> (visited w))) in
        let* _ := counted (fun '(_, w) => steps w) (fun '(s, w) n => (s, with_steps w n)) (consume limit) in
        let* i := munwrap (instructions self !! index) in
        let* _ := follow cursor index i in
        closure_go fuel cursor
    end
  end.

Definition closure (from : nat) (cursor : N) : Cl unit :=
  let* (s, w) := mget in
  let* generation := mok_or PatternLimit (checked_add (generation w) 1) in
  let* _ := mset (s, with_stack (with_generation w generation) [from]) in
  closure_go (2 * length (instructions self) + 2) cursor.

Record Matching := { m_current : States; m_next : States; m_work : Closure }.
Definition with_current {A} (m : Cl A) : M Matching PatternError A := fun s =>
  match m (m_current s, m_work s) with
  | Some (r, (c, w)) => Some (r, {| m_current := c; m_next := m_next s; m_work := w |})
  | None => None
  end.
Definition with_next {A} (m : Cl A) : M Matching PatternError A := fun s =>
  match m (m_next s, m_work s) with
  | Some (r, (n, w)) => Some (r, {| m_current := m_current s; m_next := n; m_work := w |})
  | None => None
  end.
Definition matching_steps {A} (m : M N PatternError A) : M Matching PatternError A :=
  counted (fun s => steps (m_work s))
    (fun s n => {| m_current := m_current s; m_next := m_next s; m_work := with_steps (m_work s) n |}) m.

Definition is_accept (op : Op) : bool := match op with O_Accept => true | _ => false end.
(** [iter().any(..)] over instruction indices. *)
Fixpoint any_accept (indices : list nat) : option bool :=
  match indices with
  | [] => Some false
  | index :: indices =>
    i ← instructions self !! index;
    if is_accept (i_op i) then Some true else any_accept indices
  end.

Definition is_line_end (value : char) : bool :=
  (value =? 10)%N || (value =? 13)%N || (value =? 0x2028)%N || (value =? 0x2029)%N.

Definition op_matches (op : Op) (value : char) : M Matching PatternError bool :=
  match op with
  | O_Literal literal => mok (value =? literal)%N
  | O_Any => mok (negb (is_line_end value))
  | O_Class class =>
    let* class := munwrap (classes self !! class) in
    matching_steps (class_matches class value limit)
  | _ => mok false
  end.

(** [for index in &current.active] *)
Fixpoint advance_all (indices : list nat) (value : char) (cursor : N) : M Matching PatternError unit :=
  match indices with
  | [] => mok tt
  | index :: indices =>
    let* i := munwrap (instructions self !! index) in
    let* matched := op_matches (i_op i) value in
    let* _ :=
      if matched : bool then
        let* _ := matching_steps (consume limit) in
        with_next (closure (i_next i) cursor)
      else mok tt in
    advance_all indices value cursor
  end.

Definition clear_next : M Matching PatternError unit :=
  let* s := mget in
  let* n := munwrap (states_clear (m_next s)) in
  mset {| m_current := m_current s; m_next := n; m_work := m_work s |}.
Definition swap_states : M Matching PatternError unit :=
  let* s := mget in
  mset {| m_current := m_next s; m_next := m_current s; m_work := m_work s |}.

Fixpoint matches_go (fuel : nat) (text : list char) (cursor : N) : M Matching PatternError bool :=
  match fuel with
  | O => mpanic
  | S fuel =>
    let* _ := with_current (closure (start self) cursor) in
    let* s := mget in
    let* accepted := munwrap (any_accept (active (m_current s))) in
    if accepted : bool then mok true
    else
      let* rest := munwrap (str_from text cursor) in
      match rest with
      | [] => mok false
      | value :: _ =>
        let cursor := (cursor + len_utf8 value)%N in
        let* _ := clear_next in
        let* _ := advance_all (active (m_current s)) value cursor in
        let* _ := swap_states in
        matches_go fuel text cursor
      end
  end.
End Search.

(** The answer and the steps after the search. *)
Definition matches (self : Pattern) (text : list char) (steps_ limit : N) : option (result bool PatternError * N) :=
  let n := length (instructions self) in
  match matches_go self (text_len text) limit (S (length text)) text 0
          {| m_current := states_new n; m_next := states_new n;
             m_work := {| visited := replicate n 0%N; generation := 0; stack := []; steps := steps_ |} |} with
  | Some (r, s) => Some (r, steps (m_work s))
  | None => None
  end.
