(* ===== verification/RegexLang.v ===== *)
(** * Compiled patterns ([mcp/schema/pattern/compile.rs])

    What a pattern means, as a relation between positions of a text, and the proof that
    the instructions of the compiler mean the same. A fragment of the compiler has
    pending jumps; [frag_ok] says what it accepts in every program that completes it. *)
From S2P Require Import Prelude Fallible Schema UnicodeLetter SchemaPattern.

(** ** Expressions and their languages *)
Inductive regex :=
| REmpty
| RLiteral (c : char)
| RAny
| RClass (cl : CharClass)
| RStart
| REnd
| RConcat (a b : regex)
| RAlternate (a b : regex)
| RRepeat (a : regex) (min : N) (max : option N).

Definition class_member (cl : CharClass) (c : char) : Prop :=
  flag (c_flags cl) 1 = true /\ char_is_digit c = true \/
  flag (c_flags cl) 2 = true /\ (char_is_alphanumeric c = true \/ c = ch "_") \/
  flag (c_flags cl) 4 = true /\ whitespace c = true \/
  flag (c_flags cl) 8 = true /\ whitespace c = false \/
  flag (c_flags cl) 16 = true /\ (exists first last, (first, last) ∈ RANGES /\ (first <= c <= last)%N) \/
  exists first last, (first, last) ∈ c_ranges cl /\ (first <= c <= last)%N.
Definition class_has (cl : CharClass) (c : char) : Prop :=
  if c_negated cl then ~ class_member cl c else class_member cl c.

(** A relation between the positions at which a match starts and ends. *)
Definition Lang : Type := nat -> nat -> Prop.
Definition l_then (A B : Lang) : Lang := fun i j => exists k, A i k /\ B k j.
Fixpoint power (A : Lang) (n : nat) : Lang :=
  match n with O => fun i j => i = j | S n => l_then A (power A n) end.
Definition l_opt (A : Lang) : Lang := fun i j => i = j \/ A i j.
Definition l_star (A : Lang) : Lang := fun i j => exists n, power A n i j.
Definition l_repeat (A : Lang) (min : N) (max : option N) : Lang := fun i j =>
  exists n, (min <= N.of_nat n)%N /\ (forall m, max = Some m -> (N.of_nat n <= m)%N) /\ power A n i j.

Fixpoint lang (text : list char) (r : regex) : Lang :=
  match r with
  | REmpty => fun i j => i = j
  | RLiteral c => fun i j => text !! i = Some c /\ j = S i
  | RAny => fun i j => (exists c, text !! i = Some c /\ is_line_end c = false) /\ j = S i
  | RClass cl => fun i j => (exists c, text !! i = Some c /\ class_has cl c) /\ j = S i
  | RStart => fun i j => i = 0 /\ i = j
  | REnd => fun i j => i = length text /\ i = j
  | RConcat a b => l_then (lang text a) (lang text b)
  | RAlternate a b => fun i j => lang text a i j \/ lang text b i j
  | RRepeat a min max => l_repeat (lang text a) min max
  end.

(** Patterns are not anchored: a match may be anywhere in the text. *)
Definition found (text : list char) (r : regex) : Prop :=
  exists i j, i <= length text /\ lang text r i j.

(** The expression that an index of the arena stands for. *)
Fixpoint denotes (nodes : list Node) (classes : list CharClass) (index : nat) (r : regex) : Prop :=
  match r with
  | REmpty => nodes !! index = Some N_Empty
  | RLiteral c => nodes !! index = Some (N_Literal c)
  | RAny => nodes !! index = Some N_Any
  | RClass cl => exists k, nodes !! index = Some (N_Class k) /\ classes !! k = Some cl
  | RStart => nodes !! index = Some N_Start
  | REnd => nodes !! index = Some N_End
  | RConcat a b => exists l r, nodes !! index = Some (N_Concat l r) /\ l < index /\ r < index /\
      denotes nodes classes l a /\ denotes nodes classes r b
  | RAlternate a b => exists l r, nodes !! index = Some (N_Alternate l r) /\ l < index /\ r < index /\
      denotes nodes classes l a /\ denotes nodes classes r b
  | RRepeat a min max => exists c, nodes !! index = Some (N_Repeat c min max) /\ c < index /\
      denotes nodes classes c a /\ from_option (fun m => min <= m)%N True max
  end.

Fixpoint height (r : regex) : nat :=
  match r with
  | RConcat a b | RAlternate a b => S (Nat.max (height a) (height b))
  | RRepeat a _ _ => S (height a)
  | _ => 0
  end.

Lemma denotes_height nodes classes index r : denotes nodes classes index r -> height r <= index /\ index < length nodes.
Proof.
  revert index. induction r; cbn [denotes height]; intros index H;
    try (apply lookup_lt_Some in H; lia).
  - destruct H as (k & H & _). apply lookup_lt_Some in H. lia.
  - destruct H as (l & r & H & ? & ? & Ha & Hb). apply lookup_lt_Some in H.
    apply IHr1 in Ha. apply IHr2 in Hb. lia.
  - destruct H as (l & r & H & ? & ? & Ha & Hb). apply lookup_lt_Some in H.
    apply IHr1 in Ha. apply IHr2 in Hb. lia.
  - destruct H as (c & H & ? & Ha & _). apply lookup_lt_Some in H. apply IHr in Ha. lia.
Qed.

Lemma denotes_prefix nodes classes index r nodes' classes' : denotes nodes classes index r ->
  nodes `prefix_of` nodes' -> classes `prefix_of` classes' -> denotes nodes' classes' index r.
Proof.
  intros H Hn Hc. revert index H.
  induction r; cbn [denotes]; intros index H; try (by eapply prefix_lookup_Some);
    repeat match goal with H : exists _, _ |- _ => destruct H | H : _ /\ _ |- _ => destruct H end;
    repeat eexists; repeat match goal with |- _ /\ _ => split end; eauto using prefix_lookup_Some.
Qed.

(** ** Powers *)
Lemma l_then_assoc A B D i j : l_then (l_then A B) D i j <-> l_then A (l_then B D) i j.
Proof. unfold l_then. naive_solver. Qed.

Lemma power_app A n m i j : power A (n + m) i j <-> l_then (power A n) (power A m) i j.
Proof.
  revert i. induction n as [|n IH]; intros i; cbn [power Nat.add].
  - unfold l_then. naive_solver.
  - unfold l_then in *. split.
    + intros (k & Ha & Hb). apply IH in Hb as (k' & ? & ?). eauto.
    + intros (k & (k' & ? & ?) & ?). exists k'. split; [done|]. apply IH. eauto.
Qed.

Lemma power_opt A n i j : power (l_opt A) n i j <-> exists m, m <= n /\ power A m i j.
Proof.
  revert i. induction n as [|n IH]; intros i; cbn [power].
  - split; [intros ->; by exists 0|]. intros (m & Hm & H). by assert (m = 0) as -> by lia.
  - unfold l_then, l_opt. split.
    + intros (k & [<- | Ha] & Hb); apply IH in Hb as (m & Hm & Hb).
      * exists m. split; [lia|done].
      * exists (S m). split; [lia|]. exists k. done.
    + intros (m & Hm & H). destruct m as [|m].
      * cbn in H. subst. exists j. split; [by left|]. apply IH. exists 0. split; [lia|done].
      * destruct H as (k & Ha & Hb). exists k. split; [by right|]. apply IH. exists m. split; [lia|done].
Qed.

Lemma repeat_bounded A min max i j : (min <= max)%N ->
  l_then (power A (N.to_nat min)) (power (l_opt A) (N.to_nat (max - min))) i j <-> l_repeat A min (Some max) i j.
Proof.
  intros Hle. split.
  - intros (k & Ha & Hb). apply power_opt in Hb as (m & Hm & Hb). exists (N.to_nat min + m).
    split; [lia|]. split; [intros ? [= <-]; lia|]. apply power_app. by exists k.
  - intros (n & Hmin & Hmax & H). specialize (Hmax _ eq_refl).
    replace n with (N.to_nat min + (n - N.to_nat min)) in H by lia.
    apply power_app in H as (k & Ha & Hb). exists k. split; [done|]. apply power_opt.
    exists (n - N.to_nat min). split; [lia|done].
Qed.

Lemma repeat_unbounded A min i j :
  l_then (power A (N.to_nat min)) (l_star A) i j <-> l_repeat A min None i j.
Proof.
  split.
  - intros (k & Ha & m & Hb). exists (N.to_nat min + m). split; [lia|]. split; [done|].
    apply power_app. by exists k.
  - intros (n & Hmin & _ & H). replace n with (N.to_nat min + (n - N.to_nat min)) in H by lia.
    apply power_app in H as (k & Ha & Hb). exists k. split; [done|]. by eexists.
Qed.

(** ** Programs *)
Section Programs.
  Context (classes : list CharClass) (text : list char).

(** The positions before and after an instruction. *)
Definition op_moves (op : Op) (i j : nat) : Prop :=
  match op with
  | O_Epsilon | O_Split => i = j
  | O_Literal c => text !! i = Some c /\ j = S i
  | O_Any => (exists c, text !! i = Some c /\ is_line_end c = false) /\ j = S i
  | O_Class k => (exists c cl, text !! i = Some c /\ classes !! k = Some cl /\ class_has cl c) /\ j = S i
  | O_Start => i = 0 /\ i = j
  | O_End => i = length text /\ i = j
  | O_Accept => False
  end.
Definition targets (ins : Instruction) (s : nat) : Prop :=
  s = i_next ins \/ i_op ins = O_Split /\ s = i_alternate ins.
Definition edge (prog : list Instruction) (x y : nat * nat) : Prop :=
  exists ins, prog !! x.1 = Some ins /\ op_moves (i_op ins) x.2 y.2 /\ targets ins y.1.

(** The accepting instruction is reached from [s] at position [i] in [n] steps. *)
Fixpoint accepts (prog : list Instruction) (n : nat) (s i : nat) : Prop :=
  match n with
  | O => exists ins, prog !! s = Some ins /\ i_op ins = O_Accept
  | S n => exists t j, edge prog (s, i) (t, j) /\ accepts prog n t j
  end.

(** From [s], the program does what [L] says and goes on at [t]. *)
Definition runs_as (prog : list Instruction) (s t : nat) (L : Lang) : Prop :=
  (forall i j n, L i j -> accepts prog n t j -> exists m, accepts prog m s i) /\
  (forall n i, accepts prog n s i -> exists j m, m < n /\ L i j /\ accepts prog m t j).

Lemma accepts_inv prog n s i ins : prog !! s = Some ins -> accepts prog n s i -> i_op ins <> O_Accept ->
  exists m t j, n = S m /\ op_moves (i_op ins) i j /\ targets ins t /\ accepts prog m t j.
Proof.
  intros Hs Ha Hop. destruct n as [|n]; cbn in Ha.
  - destruct Ha as (ins' & Hs' & ?). congruence.
  - destruct Ha as (t & j & (ins' & Hs' & Hm & Ht) & Ha). cbn in *. assert (ins' = ins) as -> by congruence.
    by exists n, t, j.
Qed.

Lemma accepts_step prog s ins i j t n : prog !! s = Some ins -> op_moves (i_op ins) i j -> targets ins t ->
  accepts prog n t j -> accepts prog (S n) s i.
Proof. intros Hs Hm Ht Ha. exists t, j. split; [|done]. by exists ins. Qed.

Lemma runs_as_equiv prog s t L L' : runs_as prog s t L -> (forall i j, L i j <-> L' i j) -> runs_as prog s t L'.
Proof.
  intros [Hf Hb] He. split.
  - intros i j n Hl. apply He in Hl. by apply Hf.
  - intros n i Ha. destruct (Hb _ _ Ha) as (j & m & Hm & Hl & Ha'). exists j, m. by rewrite <- He.
Qed.

Lemma runs_as_single prog s t op a : prog !! s = Some {| i_op := op; i_next := t; i_alternate := a |} ->
  op <> O_Accept -> op <> O_Split -> runs_as prog s t (op_moves op).
Proof.
  intros Hs H1 H2. split.
  - intros i j n Hm Ha. exists (S n). eapply accepts_step; [exact Hs|done|by left|done].
  - intros n i Ha. destruct (accepts_inv _ _ _ _ _ Hs Ha) as (m & t' & j & -> & Hm & [-> | [? _]] & Ha'); [done| |done].
    exists j, m. split; [lia|done].
Qed.

Lemma runs_as_then prog s k t A B : runs_as prog s k A -> runs_as prog k t B -> runs_as prog s t (l_then A B).
Proof.
  intros [Hf Hb] [Hf' Hb']. split.
  - intros i j n (x & Ha & Hb0) Hacc. destruct (Hf' _ _ _ Hb0 Hacc) as [m Hm]. eauto.
  - intros n i Hacc. destruct (Hb _ _ Hacc) as (x & m & Hm & Hl & Hx).
    destruct (Hb' _ _ Hx) as (y & m' & Hm' & Hl' & Hy). exists y, m'. split; [lia|]. split; [by exists x|done].
Qed.

Lemma runs_as_split prog s a b t A B : prog !! s = Some {| i_op := O_Split; i_next := a; i_alternate := b |} ->
  runs_as prog a t A -> runs_as prog b t B -> runs_as prog s t (fun i j => A i j \/ B i j).
Proof.
  intros Hs [Hf Hb] [Hf' Hb']. split.
  - intros i j n [Ha | Hb0] Hacc.
    + destruct (Hf _ _ _ Ha Hacc) as [m Hm]. exists (S m). eapply accepts_step; [exact Hs|done|by left|done].
    + destruct (Hf' _ _ _ Hb0 Hacc) as [m Hm]. exists (S m). eapply accepts_step; [exact Hs|done|by right|done].
  - intros n i Hacc. destruct (accepts_inv _ _ _ _ _ Hs Hacc) as (m & t' & j & -> & Hm & Ht & Ha'); [done|].
    cbn in Hm. subst j. destruct Ht as [-> | [_ ->]].
    + destruct (Hb _ _ Ha') as (y & m' & ? & ? & ?). exists y, m'. split; [lia|]. auto.
    + destruct (Hb' _ _ Ha') as (y & m' & ? & ? & ?). exists y, m'. split; [lia|]. auto.
Qed.

Lemma runs_as_opt prog s a t A : prog !! s = Some {| i_op := O_Split; i_next := a; i_alternate := t |} ->
  runs_as prog a t A -> runs_as prog s t (l_opt A).
Proof.
  intros Hs [Hf Hb]. split.
  - intros i j n [-> | Ha] Hacc.
    + exists (S n). eapply accepts_step; [exact Hs|done|by right|done].
    + destruct (Hf _ _ _ Ha Hacc) as [m Hm]. exists (S m). eapply accepts_step; [exact Hs|done|by left|done].
  - intros n i Hacc. destruct (accepts_inv _ _ _ _ _ Hs Hacc) as (m & t' & j & -> & Hm & Ht & Ha'); [done|].
    cbn in Hm. subst j. destruct Ht as [-> | [_ ->]].
    + destruct (Hb _ _ Ha') as (y & m' & ? & ? & ?). exists y, m'. split; [lia|]. split; [by right|done].
    + exists i, m. split; [lia|]. split; [by left|done].
Qed.

Lemma runs_as_star prog s a t A : prog !! s = Some {| i_op := O_Split; i_next := a; i_alternate := t |} ->
  runs_as prog a s A -> runs_as prog s t (l_star A).
Proof.
  intros Hs [Hf Hb]. split.
  - intros i j n [k Hk]. revert i Hk. induction k as [|k IH]; intros i Hk Hacc.
    + cbn in Hk. subst. exists (S n). eapply accepts_step; [exact Hs|done|by right|done].
    + destruct Hk as (x & Ha & Hk). destruct (IH x Hk Hacc) as [m Hm].
      destruct (Hf _ _ _ Ha Hm) as [m' Hm']. exists (S m'). eapply accepts_step; [exact Hs|done|by left|done].
  - intros n. induction (lt_wf n) as [n _ IH]. intros i Hacc.
    destruct (accepts_inv _ _ _ _ _ Hs Hacc) as (m & t' & j & -> & Hm & Ht & Ha'); [done|].
    cbn in Hm. subst j. destruct Ht as [-> | [_ ->]].
    + destruct (Hb _ _ Ha') as (y & m' & Hm' & Hl & Hy).
      destruct (IH m' ltac:(lia) y Hy) as (z & m'' & ? & [k Hk] & ?). exists z, m''. split; [lia|].
      split; [|done]. exists (S k). by exists y.
    + exists i, m. split; [lia|]. split; [by exists 0|done].
Qed.
End Programs.
