(* ===== verification/RegexGrammar.v ===== *)
(** * The grammar of patterns

    The language that [mcp/schema/pattern/parse.rs] accepts, as inductive relations: each
    relates a text to what is left of it and to what was read. They are the specification
    of the parser; [RegexParse] proves that it decides them. *)
From S2P Require Import Prelude Fallible Schema UnicodeLetter SchemaPattern RegexLang.

(** ** Numbers and escapes *)
Definition digits (read : char -> option N) (base : N) (ds : list char) : option N :=
  foldl (fun acc c => v ← acc; d ← read c; Some (v * base + d)%N) (Some 0%N) ds.

Inductive g_hex (k : nat) : list char -> list char -> char -> Prop :=
| hex_digits ds rest v c : length ds = k -> digits to_digit16 16 ds = Some v -> from_u32 v = Some c ->
    g_hex k (ds ++ rest) rest c.

Definition digit_ahead (s : list char) : bool := from_option char_is_digit false (head s).
Inductive g_count : list char -> list char -> N -> Prop :=
| count_digits ds rest v : ds <> [] -> digits to_digit10 10 ds = Some v -> digit_ahead rest = false ->
    g_count (ds ++ rest) rest v.

Definition control_char (e : char) : option char :=
  if (e =? ch "n")%N then Some 10%N else if (e =? ch "r")%N then Some 13%N else if (e =? ch "t")%N then Some 9%N
  else if (e =? ch "f")%N then Some 12%N else if (e =? ch "v")%N then Some 11%N else None.

(** What follows a backslash and the character [e]; [class] is inside brackets. *)
Inductive g_escape (class : bool) (e : char) : list char -> list char -> char -> Prop :=
| escape_control s c : control_char e = Some c -> g_escape class e s s c
| escape_x s rest c : e = ch "x" -> g_hex 2 s rest c -> g_escape class e s rest c
| escape_u s rest c : e = ch "u" -> g_hex 4 s rest c -> g_escape class e s rest c
| escape_braced k s rest c : e = ch "u" -> class = false -> 1 <= k <= 6 ->
    g_hex k s (ch "}" :: rest) c -> g_escape class e (ch "{" :: s) rest c
| escape_zero s : e = ch "0" -> digit_ahead s = false -> g_escape class e s s 0%N
| escape_syntax s : e ∈ syntax_chars -> g_escape class e s s e
| escape_dash s : e = ch "-" -> class = true -> g_escape class e s s e.

(** ** Classes *)
Definition flag_letter (e : char) : option N :=
  if (e =? ch "d")%N then Some 1%N else if (e =? ch "w")%N then Some 2%N
  else if (e =? ch "s")%N then Some 4%N else if (e =? ch "S")%N then Some 8%N else None.
Inductive g_item : list char -> list char -> char + N -> Prop :=
| item_char c s : c <> ch "\" -> g_item (c :: s) s (inl c)
| item_flag e f s : flag_letter e = Some f -> g_item (ch "\" :: e :: s) s (inr f)
| item_escape e s rest c : g_escape true e s rest c -> g_item (ch "\" :: e :: s) rest (inl c).

(** A dash that is not before the closing bracket. *)
Definition range_ahead (s : list char) : bool :=
  match s with
  | d :: c :: _ => bool_decide (d = ch "-") && negb (c =? ch "]")%N
  | _ => false
  end.
Definition add_flag (cl : CharClass) (f : N) : CharClass :=
  {| c_ranges := c_ranges cl; c_flags := N.lor (c_flags cl) f; c_negated := c_negated cl |}.

(** The items of a class; a closing bracket in the [first] place stands for itself. *)
Inductive g_items : bool -> CharClass -> list char -> list char -> CharClass -> Prop :=
| items_end cl s : g_items false cl (ch "]" :: s) s cl
| items_flag first cl s s1 rest f cl' : first || bool_decide (head s <> Some (ch "]")) = true ->
    g_item s s1 (inr f) -> range_ahead s1 = false -> g_items false (add_flag cl f) s1 rest cl' ->
    g_items first cl s rest cl'
| items_one first cl s s1 rest c cl' : first || bool_decide (head s <> Some (ch "]")) = true ->
    g_item s s1 (inl c) -> range_ahead s1 = false -> g_items false (push_range cl c c) s1 rest cl' ->
    g_items first cl s rest cl'
| items_range first cl s s1 s2 rest a b cl' : first || bool_decide (head s <> Some (ch "]")) = true ->
    g_item s (ch "-" :: s1) (inl a) -> range_ahead (ch "-" :: s1) = true -> g_item s1 s2 (inl b) -> (a <= b)%N ->
    g_items false (push_range cl a b) s2 rest cl' -> g_items first cl s rest cl'.

Inductive g_class : list char -> list char -> CharClass -> Prop :=
| class_plain s rest cl : head s <> Some (ch "^") ->
    g_items true {| c_ranges := []; c_flags := 0; c_negated := false |} s rest cl -> g_class s rest cl
| class_negated s rest cl :
    g_items true {| c_ranges := []; c_flags := 0; c_negated := true |} s rest cl -> g_class (ch "^" :: s) rest cl.

(** The classes named by one letter. *)
Definition shorthand (e : char) : option CharClass :=
  let cl f n := Some {| c_ranges := []; c_flags := f; c_negated := n |} in
  if (e =? ch "d")%N then cl 1%N false else if (e =? ch "D")%N then cl 1%N true
  else if (e =? ch "w")%N then cl 2%N false else if (e =? ch "W")%N then cl 2%N true
  else if (e =? ch "s")%N then cl 4%N false else if (e =? ch "S")%N then cl 4%N true
  else None.
Definition letter_class (e : char) : option CharClass :=
  let cl n := Some {| c_ranges := []; c_flags := 16; c_negated := n |} in
  if (e =? ch "p")%N then cl false else if (e =? ch "P")%N then cl true else None.

(** ** Quantifiers *)
Inductive g_quantifier : list char -> list char -> N * option N -> Prop :=
| quant_star s : g_quantifier (ch "*" :: s) s (0%N, None)
| quant_plus s : g_quantifier (ch "+" :: s) s (1%N, None)
| quant_option s : g_quantifier (ch "?" :: s) s (0%N, Some 1%N)
| quant_exact s rest m : g_count s (ch "}" :: rest) m -> g_quantifier (ch "{" :: s) rest (m, Some m)
| quant_least s rest m : g_count s (ch "," :: ch "}" :: rest) m -> g_quantifier (ch "{" :: s) rest (m, None)
| quant_range s s1 rest m n : g_count s (ch "," :: s1) m -> g_count s1 (ch "}" :: rest) n ->
    g_quantifier (ch "{" :: s) rest (m, Some n).

(** ** Expressions *)
Definition special_chars : list char := chars "^$.([\)]}|*+?{".

Inductive g_alternation : list char -> list char -> regex -> Prop :=
| alternation_one s rest a : g_sequence s rest a -> g_alternation s rest a
| alternation_more s s1 rest a b : g_sequence s (ch "|" :: s1) a -> g_alternation s1 rest b ->
    g_alternation s rest (RAlternate a b)
with g_sequence : list char -> list char -> regex -> Prop :=
| sequence_nil s : g_sequence s s REmpty
| sequence_cons s s1 rest a b : g_term s s1 a -> g_sequence s1 rest b -> g_sequence s rest (RConcat a b)
with g_term : list char -> list char -> regex -> Prop :=
| term_atom s rest a q : g_atom s rest a q -> g_term s rest a
(** A quantifier, lazy or not; laziness does not change what is matched. *)
| term_quantified s s1 rest a min max : g_atom s s1 a true -> g_quantifier s1 rest (min, max) ->
    from_option (fun m => min <= m)%N True max -> g_term s rest (RRepeat a min max)
| term_lazy s s1 rest a min max : g_atom s s1 a true -> g_quantifier s1 (ch "?" :: rest) (min, max) ->
    from_option (fun m => min <= m)%N True max -> g_term s rest (RRepeat a min max)
(** The flag is whether a quantifier may follow. *)
with g_atom : list char -> list char -> regex -> bool -> Prop :=
| atom_start s : g_atom (ch "^" :: s) s RStart false
| atom_end s : g_atom (ch "$" :: s) s REnd false
| atom_any s : g_atom (ch "." :: s) s RAny true
| atom_group s rest a : head s <> Some (ch "?") -> g_alternation s (ch ")" :: rest) a -> g_atom (ch "(" :: s) rest a true
| atom_class s rest cl : g_class s rest cl -> g_atom (ch "[" :: s) rest (RClass cl) true
| atom_shorthand e s cl : shorthand e = Some cl -> g_atom (ch "\" :: e :: s) s (RClass cl) true
| atom_letter e name s cl : letter_class e = Some cl -> name = chars "Letter" \/ name = chars "L" ->
    g_atom (ch "\" :: e :: ch "{" :: name ++ ch "}" :: s) s (RClass cl) true
| atom_escape e s rest c : g_escape false e s rest c -> g_atom (ch "\" :: e :: s) rest (RLiteral c) true
| atom_literal c s : c ∉ special_chars -> g_atom (c :: s) s (RLiteral c) true.

(** A pattern: a whole text that is an alternation. *)
Definition is_pattern (source : list char) (r : regex) : Prop := g_alternation source [] r.
