(* ===== verification/RegexLex.v ===== *)
(** * The lexical part of the parser decides its grammar ([mcp/schema/pattern/parse.rs])

    The specification of each method up to quantifiers and classes: what it reads is what
    the grammar says, no other reading is possible, and where it fails as unsupported
    there is none. *)
From S2P Require Import Prelude Fallible Schema UnicodeLetter SchemaPattern RegexLang RegexGrammar.

(** ** The text left *)
Definition suffix (p : Parser) : list char := drop (p_cursor p) (p_source p).
(** [p'] is [p] after it has read some characters. *)
Definition moved (p p' : Parser) : Prop :=
  exists ds, suffix p = ds ++ suffix p' /\ p' = with_cursor p (p_cursor p + length ds).

Lemma suffix_moved p ds s : suffix p = ds ++ s -> suffix (with_cursor p (p_cursor p + length ds)) = s.
Proof. intros H. unfold suffix in *. cbn. rewrite <- drop_drop, H. apply drop_app_length. Qed.

Lemma moved_by p ds s : suffix p = ds ++ s -> moved p (with_cursor p (p_cursor p + length ds)).
Proof. intros H. exists ds. split; [|done]. by rewrite (suffix_moved p ds s H). Qed.

Lemma moved_refl p : moved p p.
Proof. exists []. split; [done|]. rewrite Nat.add_0_r. by destruct p. Qed.

Lemma moved_trans p q r : moved p q -> moved q r -> moved p r.
Proof.
  intros (ds & H1 & ->) (ds' & H2 & ->). exists (ds ++ ds'). split.
  - by rewrite H1, H2, app_assoc.
  - cbn. rewrite length_app. unfold with_cursor. cbn. f_equal. lia.
Qed.

Lemma moved_length p q : moved p q -> length (suffix q) <= length (suffix p).
Proof. intros (ds & -> & _). rewrite length_app. lia. Qed.

Lemma moved_source p q : moved p q -> p_source q = p_source p.
Proof. by intros (ds & _ & ->). Qed.

Lemma peek_suffix p : peek_at p = head (suffix p).
Proof. unfold peek_at, suffix. rewrite <- (Nat.add_0_r (p_cursor p)) at 1. rewrite <- lookup_drop. by destruct (drop _ _). Qed.

Lemma suffix_fuel p : length (suffix p) < source_fuel p.
Proof. unfold suffix, source_fuel. rewrite length_drop. lia. Qed.

(** ** Steps of the parser *)
Section Steps.
  Context (F : PatternError -> Prop).

Lemma peek_spec p (Q : option char -> Parser -> Prop) : Q (head (suffix p)) p -> after_ok peek p Q F.
Proof. intros H. unfold peek. do 2 fstep. by rewrite peek_suffix. Qed.

Lemma advance_spec p c s (Q : unit -> Parser -> Prop) : suffix p = c :: s ->
  (forall p', moved p p' -> suffix p' = s -> Q tt p') -> after_ok advance p Q F.
Proof.
  intros Hs HQ. unfold advance. do 2 fstep. rewrite <- Nat.add_1_r.
  apply HQ; [by apply (moved_by p [c] s)|by apply (suffix_moved p [c] s)].
Qed.

Lemma next_char_spec p (Q : char -> Parser -> Prop) :
  (suffix p = [] -> F Unsupported) ->
  (forall c s p', suffix p = c :: s -> moved p p' -> suffix p' = s -> Q c p') -> after_ok next_char p Q F.
Proof.
  intros Hn HQ. unfold next_char. apply after_ok_then. apply peek_spec. fstep.
  destruct (suffix p) as [|c s] eqn:Es; cbn [head]; [by apply Hn|].
  apply after_ok_then. apply (advance_spec p c s); [done|]. intros p' Hm Hp. fstep. by eapply HQ.
Qed.

Lemma take_char_spec v p (Q : bool -> Parser -> Prop) :
  (forall s p', suffix p = v :: s -> moved p p' -> suffix p' = s -> Q true p') ->
  (head (suffix p) <> Some v -> Q false p) -> after_ok (take_char v) p Q F.
Proof.
  intros Ht Hf. unfold take_char. apply after_ok_then. apply peek_spec. case_bool_decide as Hd.
  - destruct (suffix p) as [|c s] eqn:Es; [done|]. injection Hd as ->.
    apply after_ok_then. apply (advance_spec p v s); [done|]. intros p' Hm Hp. fstep. by eapply Ht.
  - fstep. by apply Hf.
Qed.

Lemma skip_while_spec test fuel p (Q : unit -> Parser -> Prop) : length (suffix p) < fuel ->
  (forall ds s p', suffix p = ds ++ s -> Forall (fun c => test c = true) ds ->
     from_option test false (head s) = false -> p' = with_cursor p (p_cursor p + length ds) -> suffix p' = s -> Q tt p') ->
  after_ok (skip_while fuel test) p Q F.
Proof.
  revert p Q. induction fuel as [|fuel IH]; intros p Q Hf HQ; [lia|]. cbn [skip_while].
  apply after_ok_then. apply peek_spec. destruct (suffix p) as [|c s] eqn:Es; cbn [head].
  - fstep. apply (HQ [] []); try done. rewrite Nat.add_0_r. by destruct p.
  - destruct (test c) eqn:Et.
    + apply after_ok_then. apply (advance_spec p c s); [done|]. intros p1 Hm Hp.
      destruct Hm as (dm & Hd & ->). rewrite Es, Hp in Hd.
      assert (dm = [c]) as -> by (apply (app_inv_tail s); by rewrite <- Hd).
      apply IH; [rewrite Hp; cbn in Hf; lia|]. intros ds s' p' Hs Hall Hstop -> Hs'. rewrite Hp in Hs.
      apply (HQ (c :: ds) s'); try done; [by rewrite Hs|by constructor|]. unfold with_cursor. cbn. f_equal. lia.
    + fstep. apply (HQ [] (c :: s)); try done. rewrite Nat.add_0_r. by destruct p.
Qed.
End Steps.

(** ** Deciding a reading

    [m] reads what [R] allows; the reading is unique, and where [m] fails as unsupported
    there is none. *)
Definition reads {A} (m : P A) (R : list char -> list char -> A -> Prop) : Prop := forall p,
  after_ok m p
    (fun a p' => moved p p' /\ R (suffix p) (suffix p') a /\
       forall rest b, R (suffix p) rest b -> rest = suffix p' /\ b = a)
    (fun e => e = Unsupported -> forall rest b, ~ R (suffix p) rest b).

(** Uses a [reads] specification inside a larger method. *)
Lemma reads_step {A B} (m : P A) R (k : A -> P B) p Q F : reads m R ->
  ((forall rest b, ~ R (suffix p) rest b) -> F Unsupported) -> F PatternLimit ->
  (forall a p', moved p p' -> R (suffix p) (suffix p') a ->
     (forall rest b, R (suffix p) rest b -> rest = suffix p' /\ b = a) -> after_ok (k a) p' Q F) ->
  after_ok (mthen m k) p Q F.
Proof.
  intros Hm HU HL HQ. eapply after_ok_step; [apply Hm| |].
  - intros [] He; [|done]. apply HU. by apply He.
  - intros a p' (H1 & H2 & H3). by apply HQ.
Qed.

(** ** Digits *)
Section Digits.
  Context (read : char -> option N) (base : N).

Lemma digits_from v0 ds : foldl (fun acc c => v ← acc; d ← read c; Some (v * base + d)%N) v0 ds =
  match v0 with None => None | Some v => foldl (fun acc c => v ← acc; d ← read c; Some (v * base + d)%N) (Some v) ds end.
Proof. destruct v0; [done|]. induction ds as [|c ds IH]; [done|]. cbn. exact IH. Qed.

Definition digits_go (v : N) (ds : list char) : option N :=
  foldl (fun acc c => v ← acc; d ← read c; Some (v * base + d)%N) (Some v) ds.

Lemma digits_cons v c ds : digits_go v (c :: ds) = d ← read c; digits_go (v * base + d) ds.
Proof. unfold digits_go. cbn [foldl]. rewrite digits_from. cbn. by destruct (read c). Qed.

Lemma digits_all v ds w : digits_go v ds = Some w -> Forall (fun c => is_Some (read c)) ds.
Proof.
  revert v. induction ds as [|c ds IH]; intros v H; [constructor|]. rewrite digits_cons in H.
  destruct (read c) as [d|] eqn:Er; [|done]. cbn in H. constructor; [by eexists|]. by eapply IH.
Qed.
End Digits.

Lemma hex_go_reads k : forall v p, after_ok (hex_go k v) p
  (fun w p' => moved p p' /\ exists ds, suffix p = ds ++ suffix p' /\ length ds = k /\ digits_go to_digit16 16 v ds = Some w)
  (fun e => e = Unsupported /\ forall ds rest w, suffix p = ds ++ rest -> length ds = k ->
     digits_go to_digit16 16 v ds <> Some w).
Proof.
  induction k as [|k IH]; intros v p; cbn [hex_go].
  - fstep. split; [apply moved_refl|]. by exists [].
  - apply after_ok_then. apply next_char_spec.
    { intros Hs. split; [done|]. intros ds rest w Hd Hl. rewrite Hs in Hd. destruct ds; [done|]. by destruct rest. }
    intros c s p1 Hs Hm1 Hp1. fstep. destruct (to_digit16 c) as [d|] eqn:Ed.
    + eapply after_ok_mono; [apply IH| |].
      * intros w p' (Hm & ds & Hds & Hl & Hw). split; [by eapply moved_trans|]. exists (c :: ds).
        split; [by rewrite Hs, <- Hp1, Hds|]. split; [cbn; lia|]. by rewrite digits_cons, Ed.
      * intros e [-> Hno]. split; [done|]. intros ds rest w Hd Hl. rewrite Hs in Hd.
        destruct ds as [|c' ds]; [done|]. injection Hd as <- Hd. rewrite digits_cons, Ed. cbn.
        apply (Hno ds rest); [by rewrite Hp1|by injection Hl].
    + split; [done|]. intros ds rest w Hd Hl. rewrite Hs in Hd. destruct ds as [|c' ds]; [done|].
      injection Hd as <- Hd. by rewrite digits_cons, Ed.
Qed.

Lemma hex_reads k : reads (hex k) (g_hex k).
Proof.
  intros p. unfold hex. eapply after_ok_step; [apply hex_go_reads| |].
  - intros e [-> Hno] _ rest b H. inversion H as [ds rest' v c Hl Hd Hc Hs]. subst. by eapply Hno.
  - intros v p' (Hm & ds & Hs & Hl & Hv). apply after_ok_or.
    assert (forall rest b, g_hex k (suffix p) rest b -> rest = suffix p' /\ from_u32 v = Some b) as Huniq.
    { intros rest b H. inversion H as [ds' rest' v' c Hl' Hd' Hc' Hs']. subst.
      assert (ds' = ds /\ rest = suffix p') as [-> ->] by (apply app_inj_1; [lia|congruence]).
      split; [done|]. unfold digits in Hd'. unfold digits_go in Hv. congruence. }
    destruct (from_u32 v) as [c|] eqn:Ec.
    + split; [done|]. split; [rewrite Hs; by econstructor|].
      intros rest b H. destruct (Huniq rest b H). split; congruence.
    + intros _ rest b H. by destruct (Huniq rest b H).
Qed.

Lemma to_digit10_ahead c : char_is_digit c = true <-> is_Some (to_digit10 c).
Proof. unfold to_digit10. destruct (char_is_digit c); split; try done; by intros [? ?]. Qed.

Lemma count_go_spec fuel : forall v p, length (suffix p) < fuel -> after_ok (count_go fuel v) p
  (fun w p' => exists ds, suffix p = ds ++ suffix p' /\ p' = with_cursor p (p_cursor p + length ds) /\
     digits_go to_digit10 10 v ds = Some w /\ digit_ahead (suffix p') = false) (fun e => e = PatternLimit).
Proof.
  induction fuel as [|fuel IH]; intros v p Hf; [lia|]. cbn [count_go]. apply after_ok_then. apply peek_spec.
  destruct (suffix p) as [|c s] eqn:Es; cbn [head mbind option_bind].
  - fstep. exists []. rewrite Es. split; [done|]. split; [rewrite Nat.add_0_r; by destruct p|]. done.
  - destruct (to_digit10 c) as [d|] eqn:Ed; cbn [mbind option_bind].
    + apply after_ok_then. apply (advance_spec _ p c s); [done|]. intros p1 Hm Hp.
      destruct Hm as (dm & Hd & ->). rewrite Es, Hp in Hd.
      assert (dm = [c]) as -> by (apply (app_inv_tail s); by rewrite <- Hd). fstep.
      destruct (checked_mul v 10 ≫= _) as [w|] eqn:Ew; [|done].
      assert (w = v * 10 + d)%N as ->.
      { unfold checked_mul in Ew. destruct (_ <=? _)%N; [|done]. cbn in Ew. by apply checked_add_Some in Ew as [-> _]. }
      eapply after_ok_mono; [apply IH; rewrite Hp; cbn in Hf; lia| |done].
      intros w p' (ds & Hds & -> & Hw & Ha). rewrite Hp in Hds. exists (c :: ds). rewrite Hds at 1.
      split; [done|]. split; [unfold with_cursor; cbn; f_equal; lia|]. by rewrite digits_cons, Ed.
    + fstep. exists []. rewrite Es. split; [done|]. split; [rewrite Nat.add_0_r; by destruct p|]. split; [done|].
      unfold digit_ahead. cbn. destruct (char_is_digit c) eqn:Ec; [|done]. apply to_digit10_ahead in Ec as [? ?]. congruence.
Qed.

(** The digits before a text that does not start with one. *)
Lemma count_unique (ds ds' s s' : list char) : ds ++ s = ds' ++ s' ->
  Forall (fun c => is_Some (to_digit10 c)) ds -> Forall (fun c => is_Some (to_digit10 c)) ds' ->
  digit_ahead s = false -> digit_ahead s' = false -> ds = ds' /\ s = s'.
Proof.
  revert ds'. induction ds as [|c ds IH]; intros [|c' ds'] He H1 H2 Hs Hs'; cbn in He.
  - done.
  - subst s. cbn in Hs. apply Forall_cons in H2 as [H2 _]. apply to_digit10_ahead in H2. congruence.
  - subst s'. cbn in Hs'. apply Forall_cons in H1 as [H1 _]. apply to_digit10_ahead in H1. congruence.
  - injection He as -> He. apply Forall_cons in H1 as [_ H1]. apply Forall_cons in H2 as [_ H2].
    by destruct (IH ds' He H1 H2 Hs Hs') as [-> ->].
Qed.

Lemma count_reads : reads count g_count.
Proof.
  intros p. unfold count. fstep. eapply after_ok_step; [apply count_go_spec, suffix_fuel|by intros ? ->|].
  intros w p' (ds & Hs & Hp & Hw & Ha). fstep.
  assert (forall rest b, g_count (suffix p) rest b -> ds <> [] /\ rest = suffix p' /\ b = w) as Huniq.
  { intros rest b H. inversion H as [ds' rest' v Hne Hd Ha' Hs']. subst rest' v.
    destruct (count_unique ds' ds rest (suffix p')) as [-> ->]; [congruence| | |done|done|].
    - by eapply digits_all.
    - by eapply digits_all.
    - split; [done|]. split; [done|]. unfold digits in Hd. unfold digits_go in Hw. congruence. }
  case_bool_decide as Hc; fstep.
  - intros _ rest b H. destruct (Huniq rest b H) as (Hne & _). rewrite Hp in Hc. cbn in Hc. destruct ds; [done|cbn in Hc; lia].
  - split; [by exists ds|]. split.
    + rewrite Hs. constructor; [|exact Hw|done]. intros ->. apply Hc. rewrite Hp. cbn. lia.
    + intros rest b H. by destruct (Huniq rest b H) as (_ & -> & ->).
Qed.

(** ** Escapes *)

(** Closes a goal with an impossible test of concrete characters. *)
Ltac absurd_chars :=
  exfalso;
  match goal with
  | H : ?e ∈ syntax_chars |- _ =>
      let X := fresh in pose proof (bool_decide_eq_true_2 (e ∈ syntax_chars) H) as X; vm_compute in X; discriminate X
  | H : control_char _ = Some _ |- _ => vm_compute in H; discriminate H
  | H : flag_letter _ = Some _ |- _ => vm_compute in H; discriminate H
  | H : shorthand _ = Some _ |- _ => vm_compute in H; discriminate H
  | H : letter_class _ = Some _ |- _ => vm_compute in H; discriminate H
  | H : ch _ = ch _ |- _ => vm_compute in H; discriminate H
  | H : false = true |- _ => discriminate H
  | H : true = false |- _ => discriminate H
  end.

Lemma hex_brace k s rest c : 1 <= k -> ~ g_hex k (ch "{" :: s) rest c.
Proof.
  intros Hk H. inversion H as [ds rest' v c' Hl Hd _ Hs]. subst. destruct ds as [|d ds]; [cbn in Hk; lia|].
  injection Hs as -> _. unfold digits in Hd. apply (digits_all to_digit16 16 0) in Hd.
  apply Forall_cons in Hd as [[? Hd] _]. vm_compute in Hd. discriminate.
Qed.

(** [hex] as the last step of a reading. *)
Lemma hex_tail k p0 p (R : list char -> list char -> char -> Prop) : moved p0 p ->
  (forall rest c, g_hex k (suffix p) rest c -> R (suffix p0) rest c) ->
  (forall rest c, R (suffix p0) rest c -> g_hex k (suffix p) rest c) ->
  after_ok (hex k) p
    (fun a p' => moved p0 p' /\ R (suffix p0) (suffix p') a /\
       forall rest b, R (suffix p0) rest b -> rest = suffix p' /\ b = a)
    (fun e => e = Unsupported -> forall rest b, ~ R (suffix p0) rest b).
Proof.
  intros Hm H1 H2. eapply after_ok_mono; [apply hex_reads| |].
  - intros a p' (G1 & G2 & G3). split; [by eapply moved_trans|]. split; [by apply H1|].
    intros rest b Hb. by apply G3, H2.
  - intros e He Hu rest b Hb. eapply He; [done|]. by apply H2.
Qed.

(** The digits of a braced escape. *)
Lemma braced_spec p0 p s : moved p0 p -> suffix p0 = ch "{" :: s -> suffix p = s ->
  after_ok
    (let* p := mget in
     let start := p_cursor p in
     let* _ := skip_while (source_fuel p) (fun value => negb (value =? ch "}")%N) in
     let* q := mget in
     let digits := p_cursor q - start in
     let* _ := mset (with_cursor q start) in
     mfail_if (digits =? 0) || (6 <? digits) with Unsupported in
     let* value := hex digits in
     let* closed := take_char (ch "}") in
     if closed : bool then mok value else mfail Unsupported) p
    (fun a p' => moved p0 p' /\ g_escape false (ch "u") (suffix p0) (suffix p') a /\
       forall rest b, g_escape false (ch "u") (suffix p0) rest b -> rest = suffix p' /\ b = a)
    (fun e => e = Unsupported -> forall rest b, ~ g_escape false (ch "u") (suffix p0) rest b).
Proof.
  intros Hm Hs0 Hs. fstep. apply after_ok_then. apply skip_while_spec; [apply suffix_fuel|].
  intros ds s' q Hds Hall Hstop -> Hq. rewrite Hs in Hds. subst s. clear Hq. fstep. cbv zeta. fstep.
  replace (p_cursor (with_cursor p (p_cursor p + length ds)) - p_cursor p) with (length ds) by (cbn; lia).
  replace (with_cursor (with_cursor p (p_cursor p + length ds)) (p_cursor p)) with p by (by destruct p).
  assert (forall rest b, g_escape false (ch "u") (suffix p0) rest b ->
    s' = ch "}" :: rest /\ 1 <= length ds <= 6 /\ g_hex (length ds) (suffix p) s' b) as Hinv.
  { intros rest b H. rewrite Hs0 in H. inversion H; subst; try absurd_chars.
    - exfalso. by eapply hex_brace; [|eassumption]; lia.
    - rewrite Hds. match goal with H : g_hex _ _ _ _ |- _ => inversion H as [ds' r' v c' Hl Hd Hc Hs']; subst end.
      assert (ds' = ds /\ ch "}" :: rest = s') as [-> <-].
      { rewrite Hds in Hs'. clear - Hs' Hall Hstop Hd. apply (digits_all to_digit16 16 0) in Hd. revert ds' Hs' Hd Hall.
        induction ds as [|c ds IH]; intros [|c' ds'] Hs Hd Hall; cbn [app] in Hs.
        - done.
        - subst s'. apply Forall_cons in Hd as [[? Hd] _]. cbn in Hstop. apply negb_false_iff, N.eqb_eq in Hstop.
          subst. vm_compute in Hd. discriminate.
        - injection Hs as <- _. apply Forall_cons in Hall as [Hc _]. by vm_compute in Hc.
        - injection Hs as -> Hs. apply Forall_cons in Hd as [_ Hd]. apply Forall_cons in Hall as [_ Hall].
          by destruct (IH ds' Hs Hd Hall) as [-> ->]. }
      split; [done|]. split; [done|]. by econstructor. }
  destruct ((length ds =? 0) || (6 <? length ds)) eqn:El; [fstep|].
  { intros _ rest b H. apply Hinv in H as (_ & Hl & _). apply orb_true_iff in El as [El | El].
    - apply Nat.eqb_eq in El. lia.
    - apply Nat.ltb_lt in El. lia. }
  apply orb_false_iff in El as [El1 El2]. apply Nat.eqb_neq in El1. apply Nat.ltb_ge in El2.
  apply (reads_step _ _ _ _ _ _ (hex_reads (length ds))); [|done|].
  { intros Hno _ rest b H. apply Hinv in H as (_ & _ & H). by eapply Hno. }
  intros value p1 Hm1 Hh Hu. apply after_ok_then. apply take_char_spec.
  - intros s1 p2 Hs1 Hm2 Hs2. fstep. split; [by do 2 (eapply moved_trans; [eassumption|])|].
    rewrite Hs2, Hs0. rewrite Hs1 in Hh. split; [eapply escape_braced; [done|done| |exact Hh]; lia|].
    intros rest b H. rewrite <- Hs0 in H. apply Hinv in H as (Hs' & _ & H). apply Hu in H as [H ->].
    split; [|done]. congruence.
  - intros Hno. fstep. intros _ rest b H. apply Hinv in H as (Hs' & _ & H). apply Hu in H as [H ->].
    apply Hno. rewrite <- H, Hs'. done.
Qed.

(** The end of a reading that started at [p0]. *)
Lemma reads_ok {A} (a : A) p0 p (R : list char -> list char -> A -> Prop) : moved p0 p -> R (suffix p0) (suffix p) a ->
  (forall rest b, R (suffix p0) rest b -> rest = suffix p /\ b = a) ->
  after_ok (mok a) p
    (fun a p' => moved p0 p' /\ R (suffix p0) (suffix p') a /\
       forall rest b, R (suffix p0) rest b -> rest = suffix p' /\ b = a)
    (fun e => e = Unsupported -> forall rest b, ~ R (suffix p0) rest b).
Proof. intros. by fstep. Qed.

Lemma escaped_literal_reads class e : reads (escaped_literal e class) (g_escape class e).
Proof.
  intros p. unfold escaped_literal.
  assert (forall c, control_char e = Some c -> forall s rest b, g_escape class e s rest b -> rest = s /\ b = c) as Hctl.
  { intros c Hc. unfold control_char in Hc.
    repeat match type of Hc with (if N.eqb ?a ?b then _ else _) = _ => destruct (N.eqb_spec a b) as [->|] end;
      try done; injection Hc as <-; intros s rest b H; inversion H; subst; try absurd_chars;
      match goal with H : control_char _ = Some _ |- _ => vm_compute in H; by injection H as <- end. }
  destruct (N.eqb_spec e (ch "n")) as [->|Hn]; [apply reads_ok; [apply moved_refl|by constructor|by apply Hctl]|].
  destruct (N.eqb_spec e (ch "r")) as [->|Hr]; [apply reads_ok; [apply moved_refl|by constructor|by apply Hctl]|].
  destruct (N.eqb_spec e (ch "t")) as [->|Ht]; [apply reads_ok; [apply moved_refl|by constructor|by apply Hctl]|].
  destruct (N.eqb_spec e (ch "f")) as [->|Hf]; [apply reads_ok; [apply moved_refl|by constructor|by apply Hctl]|].
  destruct (N.eqb_spec e (ch "v")) as [->|Hv]; [apply reads_ok; [apply moved_refl|by constructor|by apply Hctl]|].
  assert (forall c, control_char e <> Some c) as Hnc.
  { intros c. unfold control_char. by rewrite !(proj2 (N.eqb_neq _ _)). }
  destruct (N.eqb_spec e (ch "x")) as [->|Hx].
  { apply hex_tail; [apply moved_refl|by constructor|]. intros rest c H. by inversion H; subst; try absurd_chars. }
  destruct (N.eqb_spec e (ch "u")) as [->|Hu].
  { destruct class.
    - fstep. apply hex_tail; [apply moved_refl|by constructor|]. intros rest c H. by inversion H; subst; try absurd_chars.
    - apply after_ok_then. apply take_char_spec.
      + intros s p' Hs Hm Hp. by apply (braced_spec p p' s).
      + intros Hno. apply hex_tail; [apply moved_refl|by constructor|]. intros rest c H.
        inversion H; subst; try absurd_chars; [done|].
        match goal with H : _ = suffix p |- _ => rewrite <- H in Hno end. done. }
  destruct (N.eqb_spec e (ch "0")) as [->|H0].
  { apply after_ok_then. apply peek_spec. fold (digit_ahead (suffix p)).
    destruct (digit_ahead (suffix p)) eqn:Ed.
    - fstep. intros _ rest b H. inversion H; subst; try absurd_chars. congruence.
    - apply reads_ok; [apply moved_refl|by apply escape_zero|]. intros rest b H. by inversion H; subst; try absurd_chars. }
  case_bool_decide as Hsyn.
  { apply reads_ok; [apply moved_refl|by apply escape_syntax|]. intros rest b H.
    inversion H; subst; try done. by apply Hnc in H1. }
  destruct (N.eqb_spec e (ch "-")) as [->|Hd]; cbn [andb].
  - destruct class.
    + apply reads_ok; [apply moved_refl|by apply escape_dash|]. intros rest b H. by inversion H; subst; try absurd_chars.
    + fstep. intros _ rest b H. inversion H; subst; absurd_chars.
  - fstep. intros _ rest b H. inversion H; subst; try done. by eapply Hnc.
Qed.

(** ** Classes *)
Lemma class_atom_spec cl p :
  after_ok (class_atom cl) p
    (fun a p' => moved p p' /\ exists v, g_item (suffix p) (suffix p') v /\
       a = match v with inl c => (Some c, cl) | inr f => (None, add_flag cl f) end /\
       forall rest b, g_item (suffix p) rest b -> rest = suffix p' /\ b = v)
    (fun e => e = Unsupported -> forall rest b, ~ g_item (suffix p) rest b).
Proof.
  unfold class_atom. apply after_ok_then. apply next_char_spec.
  { intros Hs _ rest b H. rewrite Hs in H. inversion H. }
  intros c s p1 Hs Hm1 Hp1. destruct (N.eqb_spec c (ch "\")) as [->|Hc]; cbn [negb].
  2: { fstep. split; [done|]. exists (inl c). rewrite Hs, Hp1. split; [by constructor|]. split; [done|].
       intros rest b H. by inversion H; subst. }
  apply after_ok_then. apply next_char_spec.
  { intros Hs1 _ rest b H. rewrite Hs, <- Hp1, Hs1 in H. by inversion H; subst. }
  intros e s1 p2 Hs1 Hm2 Hp2. rewrite <- Hp1, Hs1 in Hs. rewrite Hs.
  assert (moved p p2) as Hm by (by eapply moved_trans).
  assert (forall f, flag_letter e = Some f -> after_ok (mok (None, add_flag cl f)) p2
    (fun a p' => moved p p' /\ exists v, g_item (ch "\" :: e :: s1) (suffix p') v /\
       a = match v with inl c => (Some c, cl) | inr f => (None, add_flag cl f) end /\
       forall rest b, g_item (ch "\" :: e :: s1) rest b -> rest = suffix p' /\ b = v)
    (fun err => err = Unsupported -> forall rest b, ~ g_item (ch "\" :: e :: s1) rest b)) as Hflag.
  { intros f Hf. fstep. split; [done|]. exists (inr f). rewrite Hp2. split; [by constructor|]. split; [done|].
    intros rest b H. inversion H as [| |? ? ? ? Hg]; subst; [done|split; [done|congruence]|exfalso].
    unfold flag_letter in Hf.
    repeat match type of Hf with (if N.eqb ?a ?b then _ else _) = _ => destruct (N.eqb_spec a b) as [->|] end;
      try done; inversion Hg; subst; absurd_chars. }
  destruct (N.eqb_spec e (ch "d")) as [->|H1]; [by apply (Hflag 1%N)|].
  destruct (N.eqb_spec e (ch "w")) as [->|H2]; [by apply (Hflag 2%N)|].
  destruct (N.eqb_spec e (ch "s")) as [->|H3]; [by apply (Hflag 4%N)|].
  destruct (N.eqb_spec e (ch "S")) as [->|H4]; [by apply (Hflag 8%N)|]. clear Hflag.
  assert (flag_letter e = None) as Hnf by (unfold flag_letter; by rewrite !(proj2 (N.eqb_neq _ _))).
  apply (reads_step _ _ _ _ _ _ (escaped_literal_reads true e)); [|done|].
  { intros Hno _ rest b H. rewrite Hp2 in Hno. inversion H; subst; [done|congruence|]. by eapply Hno. }
  intros c p3 Hm3 Hg Hu. fstep. rewrite Hp2 in Hg, Hu. split; [by eapply moved_trans|]. exists (inl c).
  split; [by constructor|]. split; [done|]. intros rest b H. inversion H; subst; [done|congruence|].
  match goal with H : g_escape _ _ _ _ _ |- _ => apply Hu in H as [-> ->] end. done.
Qed.

Lemma at_range_suffix p : at_range p = range_ahead (suffix p).
Proof.
  unfold at_range. rewrite peek_suffix. unfold suffix.
  replace (p_source p !! S (p_cursor p)) with (drop (p_cursor p) (p_source p) !! 1) by (rewrite lookup_drop; f_equal; lia).
  destruct (drop (p_cursor p) (p_source p)) as [|d [|c s]]; cbn [head lookup list_lookup from_option range_ahead];
    rewrite ?andb_false_r; try done.
  f_equal. apply bool_decide_ext. naive_solver.
Qed.

(** ** Growth of the arena *)
Definition same_source (p p' : Parser) : Prop :=
  p_source p' = p_source p /\ (p_cursor p <= length (p_source p) -> p_cursor p' <= length (p_source p)).
Definition grows (p p' : Parser) : Prop :=
  same_source p p' /\ p_nodes p `prefix_of` p_nodes p' /\ p_classes p `prefix_of` p_classes p'.
#[export] Instance grows_preorder : PreOrder grows.
Proof.
  split; [done|]. intros p q r ((H1 & H1') & H2 & H3) ((G1 & G1') & G2 & G3).
  split; [|split; [by etrans|by etrans]]. rewrite H1 in *. split; [done|auto].
Qed.
Lemma moved_grows p p' : moved p p' -> grows p p'.
Proof.
  intros (ds & Hs & Hp). assert (length ds <= length (p_source p) - p_cursor p) as Hl.
  { change (length (p_source p) - p_cursor p) with (length (p_source p) - p_cursor p). rewrite <- length_drop.
    fold (suffix p). rewrite Hs, length_app. lia. }
  subst p'. split; [|done]. split; [done|]. cbn. lia.
Qed.

(** The expression at an index of the arena. *)
Definition node_is (p : Parser) (index : nat) (r : regex) : Prop := denotes (p_nodes p) (p_classes p) index r.
Lemma node_is_grows p p' index r : node_is p index r -> grows p p' -> node_is p' index r.
Proof. intros H (_ & H2 & H3). by eapply denotes_prefix. Qed.

Section Arena.
  Context (limits : McpSchemaLimits).

Lemma p_add_spec node p (Q : nat -> Parser -> Prop) (F : PatternError -> Prop) : F PatternLimit ->
  (forall p', p' = with_nodes p (p_nodes p ++ [node]) -> suffix p' = suffix p -> grows p p' ->
     p_nodes p' !! length (p_nodes p) = Some node -> Q (length (p_nodes p)) p') ->
  after_ok (p_add limits node) p Q F.
Proof.
  intros HF HQ. unfold p_add. fstep. destruct (_ <=? _)%N; [by fstep|]. do 2 fstep. apply HQ; try done.
  - split; [done|]. split; [by apply prefix_app_r|done].
  - cbn. by apply list_lookup_middle.
Qed.

Lemma class_node_spec cl p (Q : nat -> Parser -> Prop) (F : PatternError -> Prop) : F PatternLimit ->
  (forall index p', suffix p' = suffix p -> grows p p' -> node_is p' index (RClass cl) -> Q index p') ->
  after_ok (class_node limits cl) p Q F.
Proof.
  intros HF HQ. unfold class_node. fstep. destruct (_ <=? _)%N; [by fstep|]. fstep.
  apply p_add_spec; [done|]. intros p' -> Hs Hg Hn. apply HQ; [done| |].
  - etrans; [|exact Hg]. split; [done|]. split; [done|]. by apply prefix_app_r.
  - exists (length (p_classes p)). split; [exact Hn|]. cbn. by apply list_lookup_middle.
Qed.

(** What [class_go] does from [p0] on. *)
Definition items_post (first : bool) (cl : CharClass) (p0 : Parser) (index : nat) (p' : Parser) : Prop :=
  exists cl', g_items first cl (suffix p0) (suffix p') cl' /\ grows p0 p' /\ node_is p' index (RClass cl') /\
    forall rest b, g_items first cl (suffix p0) rest b -> rest = suffix p' /\ b = cl'.
Definition items_none (first : bool) (cl : CharClass) (p0 : Parser) (e : PatternError) : Prop :=
  e = Unsupported -> forall rest b, ~ g_items first cl (suffix p0) rest b.

Lemma item_length s rest v : g_item s rest v -> length rest < length s.
Proof.
  intros H. destruct H as [c s _|e f s _|e s rest c H]; cbn [length]; try lia.
  enough (length rest <= length s) by lia.
  destruct H as [| | | | | |]; try done; cbn [length];
    match goal with H : g_hex _ _ _ _ |- _ => inversion H; subst; try lia end; rewrite ?length_app; cbn [length] in *; try lia.
Qed.

(** One more item: the reading goes on from [p1]. *)
Lemma items_next first cl p0 p1 cl1 index p' :
  grows p0 p1 -> (forall rest b, g_items false cl1 (suffix p1) rest b -> g_items first cl (suffix p0) rest b) ->
  (forall rest b, g_items first cl (suffix p0) rest b -> g_items false cl1 (suffix p1) rest b) ->
  items_post false cl1 p1 index p' -> items_post first cl p0 index p'.
Proof.
  intros Hg H1 H2 (cl' & G1 & G2 & G3 & G4). exists cl'. split; [by apply H1|]. split; [by etrans|]. split; [done|].
  intros rest b Hb. by apply G4, H2.
Qed.
Lemma items_none_next first cl p0 p1 cl1 e :
  (forall rest b, g_items first cl (suffix p0) rest b -> g_items false cl1 (suffix p1) rest b) ->
  items_none false cl1 p1 e -> items_none first cl p0 e.
Proof. intros H2 Hn He rest b Hb. eapply Hn; [done|]. by apply H2. Qed.

Lemma items_inv first cl s rest b s1 v : first || bool_decide (head s <> Some (ch "]")) = true ->
  (forall rest b, g_item s rest b -> rest = s1 /\ b = v) -> g_items first cl s rest b ->
  (exists f, v = inr f /\ range_ahead s1 = false /\ g_items false (add_flag cl f) s1 rest b) \/
  (exists c, v = inl c /\ range_ahead s1 = false /\ g_items false (push_range cl c c) s1 rest b) \/
  (exists a s2 s3 c, v = inl a /\ s1 = ch "-" :: s2 /\ range_ahead s1 = true /\ g_item s2 s3 (inl c) /\ (a <= c)%N /\
     g_items false (push_range cl a c) s3 rest b).
Proof.
  intros Hg Hu H. destruct H as [cl s|? ? ? ? ? f ? _ Hi Hr Hrest|? ? ? ? ? c ? _ Hi Hr Hrest|? ? ? s2 s3 ? a c ? _ Hi Hr Hj Hle Hrest].
  - by vm_compute in Hg.
  - apply Hu in Hi as [-> <-]. left. by exists f.
  - apply Hu in Hi as [-> <-]. right. left. by exists c.
  - apply Hu in Hi as [<- <-]. right. right. by exists a, s2, s3, c.
Qed.

(** The rest of the loop of [class_go] after the test of the closing bracket. *)
Definition class_item (fuel : nat) (cl : CharClass) : P nat :=
  let* (lhs, class) := class_atom cl in
  let* p := mget in
  match lhs with
  | None => mfail_if at_range p with Unsupported in class_go limits fuel class false
  | Some lhs =>
    let* (rhs, class) :=
      if at_range p then
        let* _ := advance in
        let* (rhs, class) := class_atom class in
        let* rhs := mok_or Unsupported rhs in
        mok (rhs, class)
      else mok (lhs, class) in
    mfail_if (rhs <? lhs)%N with Unsupported in
    let class := push_range class lhs rhs in
    mfail_if (max_pattern_states limits <? vec_len (c_ranges class))%N with PatternLimit in
    class_go limits fuel class false
  end.

Section Item.
  Context (fuel : nat).
  Context (IH : forall cl first p, length (suffix p) < fuel ->
    after_ok (class_go limits fuel cl first) p (items_post first cl p) (items_none first cl p)).

Lemma class_push_spec first cl p0 p1 a c : length (suffix p1) < fuel -> grows p0 p1 ->
  ((a <= c)%N -> forall rest b, g_items false (push_range cl a c) (suffix p1) rest b -> g_items first cl (suffix p0) rest b) ->
  (forall rest b, g_items first cl (suffix p0) rest b ->
     (a <= c)%N /\ g_items false (push_range cl a c) (suffix p1) rest b) ->
  after_ok
    (mfail_if (c <? a)%N with Unsupported in
     let class := push_range cl a c in
     mfail_if (max_pattern_states limits <? vec_len (c_ranges class))%N with PatternLimit in
     class_go limits fuel class false) p1 (items_post first cl p0) (items_none first cl p0).
Proof.
  intros Hl Hg H1 H2. destruct (N.ltb_spec c a) as [Hlt|Hle].
  - fstep. intros _ rest b H. apply H2 in H as [? _]. lia.
  - cbv zeta. destruct (_ <? _)%N; [by fstep|]. eapply after_ok_mono; [by apply IH| |].
    + intros index p'. apply items_next; [done|by apply H1|]. intros rest b H. by apply H2 in H as [_ ?].
    + intros e. apply items_none_next. intros rest b H. by apply H2 in H as [_ ?].
Qed.

Lemma class_item_spec first cl p : length (suffix p) < S fuel ->
  first || bool_decide (head (suffix p) <> Some (ch "]")) = true ->
  after_ok (class_item fuel cl) p (items_post first cl p) (items_none first cl p).
Proof.
  intros Hf Hguard. unfold class_item. eapply after_ok_step; [apply class_atom_spec| |].
  { intros e He Hu rest b H. specialize (He Hu). inversion H; subst;
      try (match goal with H : g_item _ _ _ |- _ => by apply He in H end).
    match goal with H : _ = suffix p |- _ => rewrite <- H in Hguard end. by vm_compute in Hguard. }
  intros a p1 (Hm & v & Hv & -> & Hu). pose proof (item_length _ _ _ Hv) as Hlen.
  pose proof (moved_grows _ _ Hm) as Hgr.
  assert (forall rest b, g_items first cl (suffix p) rest b -> _) as Hinv
    by (intros rest b; exact (items_inv first cl _ rest b _ v Hguard Hu)).
  destruct v as [c|f]; fstep; rewrite at_range_suffix.
  - destruct (range_ahead (suffix p1)) eqn:Er.
    + destruct (suffix p1) as [|d s1] eqn:Es1; [done|].
      assert (d = ch "-") as -> by (destruct s1; [done|]; cbn in Er; apply andb_true_iff in Er as [Er _]; by apply bool_decide_eq_true_1 in Er).
      apply after_ok_then. apply after_ok_then. apply (advance_spec _ p1 _ s1 _ Es1). intros p2 Hm2 Hp2.
      apply after_ok_then. eapply after_ok_mono; [apply class_atom_spec| |].
      2: { intros e He Hu' rest b H. apply Hinv in H as [(? & ? & _) | [(? & _ & ? & _) | (? & s2 & s3 & c' & _ & Hs & _ & Hi & _)]]; try done.
           injection Hs as <-. rewrite Hp2 in He. by apply (He Hu') in Hi. }
      intros ? p3 (Hm3 & v2 & Hv2 & -> & Hu2). rewrite Hp2 in Hv2, Hu2.
      destruct v2 as [c2|f2].
      * do 2 fstep. apply class_push_spec.
        -- apply item_length in Hv2. cbn in Hlen. lia.
        -- etrans; [exact Hgr|]. etrans; by apply moved_grows.
        -- intros Hle rest b H. by eapply items_range.
        -- intros rest b H. apply Hinv in H as [(? & ? & _) | [(? & _ & ? & _) | (a & s2 & s3 & c' & [= <-] & Hs & _ & Hi & Hle & H)]]; try done.
           injection Hs as <-. apply Hu2 in Hi as [-> [= ->]]. done.
      * fstep. intros _ rest b H.
        apply Hinv in H as [(? & ? & _) | [(? & _ & ? & _) | (a & s2 & s3 & c' & [= <-] & Hs & _ & Hi & Hle & H)]]; try done.
        injection Hs as <-. apply Hu2 in Hi as [_ ?]. done.
    + fstep. apply class_push_spec; [lia|done| |].
      * intros _ rest b H. by eapply items_one.
      * intros rest b H. apply Hinv in H as [(? & ? & _) | [(? & [= <-] & _ & H) | (? & ? & ? & ? & _ & _ & ? & _)]]; try done.
  - destruct (range_ahead (suffix p1)) eqn:Er.
    + fstep. intros _ rest b H. apply Hinv in H as [(? & _ & ? & _) | [(? & ? & _) | (? & ? & ? & ? & ? & _)]]; done.
    + assert (forall rest b, g_items first cl (suffix p) rest b -> g_items false (add_flag cl f) (suffix p1) rest b) as H2.
      { intros rest b H. apply Hinv in H as [(? & [= <-] & _ & H) | [(? & ? & _) | (? & ? & ? & ? & ? & _)]]; done. }
      eapply after_ok_mono; [apply IH; lia| |].
      * intros index p'. apply items_next; [done| |done]. intros rest b H. by eapply items_flag.
      * intros e. by apply items_none_next.
Qed.
End Item.

Lemma class_go_spec fuel : forall cl first p, length (suffix p) < fuel ->
  after_ok (class_go limits fuel cl first) p (items_post first cl p) (items_none first cl p).
Proof.
  induction fuel as [|fuel IH]; intros cl first p Hf; [lia|]. cbn [class_go]. fold (class_item fuel cl).
  apply after_ok_then. apply peek_spec. destruct (suffix p) as [|c0 s0] eqn:Es; cbn [head].
  { fstep. intros _ rest b H. rewrite Es in H. inversion H; subst; match goal with H : g_item [] _ _ |- _ => inversion H end. }
  rewrite <- Es in Hf. apply after_ok_then. destruct first.
  - fstep. by apply class_item_spec.
  - apply take_char_spec.
    + intros s p1 Hs Hm Hp1. apply class_node_spec; [done|]. intros index p' Hp' Hg Hn. exists cl.
      rewrite Hs, Hp', Hp1. split; [constructor|]. split; [etrans; [by apply moved_grows|done]|]. split; [done|].
      intros rest b H. inversion H; subst; try done;
        match goal with H : _ || bool_decide _ = true |- _ => by vm_compute in H end.
    + intros Hno. apply class_item_spec; [done|done|]. by rewrite bool_decide_eq_true_2.
Qed.

Lemma class_spec p : after_ok (class limits) p
  (fun index p' => exists cl, g_class (suffix p) (suffix p') cl /\ grows p p' /\ node_is p' index (RClass cl) /\
     forall rest b, g_class (suffix p) rest b -> rest = suffix p')
  (fun e => e = Unsupported -> forall rest b, ~ g_class (suffix p) rest b).
Proof.
  unfold class. apply after_ok_then. apply take_char_spec.
  - intros s p1 Hs Hm Hp1. fstep. eapply after_ok_mono; [apply class_go_spec, suffix_fuel| |].
    + intros index p' (cl & H1 & H2 & H3 & H4). rewrite Hp1 in H1, H4. rewrite Hs. exists cl. split; [by constructor|].
      split; [etrans; [by apply moved_grows|done]|]. split; [done|]. intros rest b H.
      inversion H as [? ? ? Hno|]; subst; [done|]. by eapply H4.
    + intros e He Hu rest b H. rewrite Hs in H. unfold items_none in He. rewrite Hp1 in He.
      inversion H as [? ? ? Hno|]; subst; [done|]. by eapply He.
  - intros Hno. fstep. eapply after_ok_mono; [apply class_go_spec, suffix_fuel| |].
    + intros index p' (cl & H1 & H2 & H3 & H4). exists cl. split; [by constructor|]. split; [done|]. split; [done|].
      intros rest b H. inversion H as [|? ? ? ? Hs]; subst; [by eapply H4|]. rewrite <- Hs in Hno. done.
    + intros e He Hu rest b H. inversion H as [|? ? ? ? Hs]; subst; [by eapply He|]. rewrite <- Hs in Hno. done.
Qed.
End Arena.

Lemma items_length first cl s rest cl' : g_items first cl s rest cl' -> length rest < length s.
Proof.
  induction 1 as [| | |? ? ? ? ? ? ? ? ? ? Hi _ Hj _ _ IH]; cbn [length];
    repeat match goal with H : g_item _ _ _ |- _ => apply item_length in H end; cbn [length] in *; lia.
Qed.
Lemma class_length s rest cl : g_class s rest cl -> length rest < length s.
Proof. intros H. destruct H as [? ? ? _ H|? ? ? H]; apply items_length in H; cbn; lia. Qed.

(** ** Quantifiers *)
Lemma brace_inv s rest b : g_quantifier (ch "{" :: s) rest b ->
  exists m s1, g_count s s1 m /\
    (s1 = ch "}" :: rest /\ b = (m, Some m) \/ s1 = ch "," :: ch "}" :: rest /\ b = (m, None) \/
     exists s2 n, s1 = ch "," :: s2 /\ g_count s2 (ch "}" :: rest) n /\ b = (m, Some n)).
Proof. intros H. inversion H; subst; eauto 10. Qed.

Lemma count_starts s rest n : ~ g_count (ch "}" :: s) rest n.
Proof.
  intros H. inversion H as [ds r v Hne Hd Ha Hsd]. subst. destruct ds as [|d ds]; [done|]. injection Hsd as -> _.
  apply (digits_all to_digit10 10 0) in Hd. apply Forall_cons in Hd as [[? Hd] _]. by vm_compute in Hd.
Qed.

Lemma quantifier_reads p0 op s p : suffix p0 = op :: s -> suffix p = s -> moved p0 p -> is_operator op = true ->
  after_ok (quantifier op) p
    (fun a p' => moved p0 p' /\ g_quantifier (suffix p0) (suffix p') a /\
       forall rest b, g_quantifier (suffix p0) rest b -> rest = suffix p' /\ b = a)
    (fun e => e = Unsupported -> forall rest b, ~ g_quantifier (suffix p0) rest b).
Proof.
  intros Hs0 Hs Hm Hop. rewrite Hs0. unfold quantifier.
  destruct (N.eqb_spec op (ch "*")) as [->|H1].
  { fstep. rewrite Hs. split; [done|]. split; [constructor|]. intros rest b H. by inversion H. }
  destruct (N.eqb_spec op (ch "+")) as [->|H2].
  { fstep. rewrite Hs. split; [done|]. split; [constructor|]. intros rest b H. by inversion H. }
  destruct (N.eqb_spec op (ch "?")) as [->|H3].
  { fstep. rewrite Hs. split; [done|]. split; [constructor|]. intros rest b H. by inversion H. }
  assert (op = ch "{") as ->.
  { unfold is_operator in Hop. apply bool_decide_eq_true_1 in Hop.
    change (chars "*+?{") with [ch "*"; ch "+"; ch "?"; ch "{"] in Hop. set_solver. }
  apply (reads_step _ _ _ _ _ _ count_reads); [|done|]; rewrite Hs.
  { intros Hno _ rest b (m & s1 & Hc & _)%brace_inv. by eapply Hno. }
  intros m p1 Hm1 Hc Hu. assert (moved p0 p1) as Hm01 by (by eapply moved_trans). clear Hs0 Hs.
  apply after_ok_then. apply take_char_spec.
  - intros s1 p2 Hs1 Hm2 Hp2. fstep. rewrite Hs1 in Hc, Hu. split; [by eapply moved_trans|]. rewrite Hp2.
    split; [by constructor|]. intros rest b (m' & s1' & Hc' & Hb)%brace_inv. apply Hu in Hc' as [-> ->].
    destruct Hb as [[[= ->] ->] | [[? _] | (? & ? & ? & _)]]; done.
  - intros Hnb. apply after_ok_then. apply take_char_spec.
    2: { intros Hnc. fstep. intros _ rest b (m' & s1' & Hc' & Hb)%brace_inv. apply Hu in Hc' as [-> ->].
         destruct Hb as [[Hr _] | [[Hr _] | (? & ? & Hr & _)]]; rewrite Hr in Hnb, Hnc; done. }
    intros s2 p2 Hs2 Hm2 Hp2. rewrite Hs2 in Hc, Hu. assert (moved p0 p2) as Hm02 by (by eapply moved_trans).
    assert (forall rest b, g_quantifier (ch "{" :: s) rest b -> s2 = ch "}" :: rest /\ b = (m, None) \/
      exists n, g_count s2 (ch "}" :: rest) n /\ b = (m, Some n)) as Hinv.
    { intros rest b (m' & s1' & Hc' & Hb)%brace_inv. apply Hu in Hc' as [-> ->].
      destruct Hb as [[? _] | [[[= ->] ->] | (s2' & n & [= <-] & Hc' & ->)]]; [done|by left|right; by exists n]. }
    apply after_ok_then. apply take_char_spec; rewrite Hp2.
    + intros s3 p3 Hs3 Hm3 Hp3. fstep. split; [by eapply moved_trans|]. rewrite Hp3, Hs3 in *.
      split; [by apply quant_least|]. intros rest b H. apply Hinv in H as [[[= ->] ->] | (n & Hc' & _)]; [done|].
      by apply count_starts in Hc'.
    + intros Hn3. apply (reads_step _ _ _ _ _ _ count_reads); [|done|]; rewrite Hp2.
      { intros Hno _ rest b H. apply Hinv in H as [[-> _] | (n & Hc' & _)]; [done|by eapply Hno]. }
      intros n p3 Hm3 Hc3 Hu3. apply after_ok_then. apply take_char_spec.
      * intros s4 p4 Hs4 Hm4 Hp4. fstep. rewrite Hs4 in Hc3, Hu3. split; [by do 2 (eapply moved_trans; [eassumption|])|].
        rewrite Hp4. split; [by eapply quant_range|]. intros rest b H.
        apply Hinv in H as [[-> _] | (n' & Hc' & ->)]; [done|]. by apply Hu3 in Hc' as [[= ->] ->].
      * intros Hn4. fstep. intros _ rest b H. apply Hinv in H as [[-> _] | (n' & Hc' & ->)]; [done|].
        apply Hu3 in Hc' as [Hr _]. rewrite <- Hr in Hn4. done.
Qed.
