(* ===== verification/RegexParse.v ===== *)
(** * The parser decides its grammar ([mcp/schema/pattern/parse.rs])

    Atoms, repetitions, sequences and alternations: the arena that the parser builds
    stands for an expression of the grammar, up to the shape of balanced chains, and a
    text that the parser rejects as unsupported is not in the grammar. *)
From S2P Require Import Prelude Fallible Schema UnicodeLetter SchemaPattern RegexLang RegexGrammar RegexLex.

(** ** Equal languages *)
#[export] Instance regex_equiv : Equiv regex := fun a b => forall text i j, lang text a i j <-> lang text b i j.
#[export] Instance regex_equivalence : Equivalence (≡@{regex}).
Proof.
  split.
  - intros a text i j. done.
  - intros a b H text i j. by rewrite (H text i j).
  - intros a b c H G text i j. by rewrite (H text i j), (G text i j).
Qed.
#[export] Instance RConcat_proper : Proper ((≡) ==> (≡) ==> (≡)) RConcat.
Proof.
  intros a a' Ha b b' Hb text i j. cbn. unfold l_then.
  split; intros (k & ? & ?); exists k; (split; [by apply Ha|by apply Hb]).
Qed.
#[export] Instance RAlternate_proper : Proper ((≡) ==> (≡) ==> (≡)) RAlternate.
Proof. intros a a' Ha b b' Hb text i j. cbn. by rewrite (Ha text i j), (Hb text i j). Qed.

Lemma power_equiv A B n i j : (forall i j, A i j <-> B i j) -> power A n i j <-> power B n i j.
Proof.
  intros H. revert i. induction n as [|n IH]; intros i; cbn; [done|]. unfold l_then.
  split; intros (k & ? & ?); exists k; (split; [by apply H|by apply IH]).
Qed.
Lemma RRepeat_equiv a b min max : a ≡ b -> RRepeat a min max ≡ RRepeat b min max.
Proof.
  intros H text i j. cbn. unfold l_repeat.
  assert (forall n, power (lang text a) n i j <-> power (lang text b) n i j) as Hp by (intros n; apply power_equiv, H).
  split; intros (n & H1 & H2 & H3); exists n; (split; [done|]; split; [done|]; by apply Hp).
Qed.

(** The arena has the expression [r], up to its language. *)
Definition stands_for (p : Parser) (index : nat) (r : regex) : Prop := exists r', node_is p index r' /\ r' ≡ r.
Lemma stands_for_grows p p' index r : stands_for p index r -> grows p p' -> stands_for p' index r.
Proof. intros (r' & H & He) Hg. exists r'. split; [by eapply node_is_grows|done]. Qed.
Lemma node_stands p index r : node_is p index r -> stands_for p index r.
Proof. intros H. by exists r. Qed.

(** ** Chains *)
Fixpoint cat_re (l : list regex) : regex := match l with [] => REmpty | a :: l => RConcat a (cat_re l) end.
Fixpoint alt_re (a : regex) (l : list regex) : regex := match l with [] => a | b :: l => RAlternate a (alt_re b l) end.

Lemma cat_re_app l m : cat_re (l ++ m) ≡ RConcat (cat_re l) (cat_re m).
Proof.
  induction l as [|a l IH]; cbn [cat_re app].
  - intros text i j. cbn. unfold l_then. naive_solver.
  - rewrite IH. intros text i j. cbn [lang]. by rewrite <- l_then_assoc.
Qed.

(** What a list of expressions means, as a sequence or as a choice. *)
Definition chain (alternate : bool) (l : list regex) (text : list char) : Lang := fun i j =>
  if alternate then Exists (fun r => lang text r i j) l else lang text (cat_re l) i j.

Lemma chain_app alternate l m text i j : chain alternate (l ++ m) text i j <->
  (if alternate then chain alternate l text i j \/ chain alternate m text i j
   else l_then (chain alternate l text) (chain alternate m text) i j).
Proof. destruct alternate; unfold chain; [apply Exists_app|]. rewrite (cat_re_app l m text i j). done. Qed.

Lemma chain_one alternate r text i j : chain alternate [r] text i j <-> lang text r i j.
Proof.
  destruct alternate; unfold chain.
  - rewrite Exists_cons, Exists_nil. tauto.
  - cbn. unfold l_then. naive_solver.
Qed.

Section Limited.
  Context (limits : McpSchemaLimits).

(** The root of a balanced chain. *)
Lemma balanced_go_spec alternate fuel : forall nodes rs p, length nodes < fuel -> (alternate = true -> nodes <> []) ->
  Forall2 (stands_for p) nodes rs ->
  after_ok (balanced_go limits fuel nodes alternate) p
    (fun index p' => suffix p' = suffix p /\ grows p p' /\
       exists r, node_is p' index r /\ forall text i j, lang text r i j <-> chain alternate rs text i j)
    (fun e => e = PatternLimit).
Proof.
  induction fuel as [|fuel IH]; intros nodes rs p Hf Hne Hall; [lia|]. cbn [balanced_go].
  destruct nodes as [|a [|b nodes]].
  - inversion Hall; subst. destruct alternate; [by destruct Hne|]. apply p_add_spec; [done|]. intros p' _ Hs Hg Hn.
    split; [done|]. split; [done|]. exists REmpty. done.
  - inversion Hall as [|? r ? ? (r' & Hr & He) Hnil]; subst. inversion Hnil; subst. fstep. split; [done|]. split; [done|].
    exists r'. split; [done|]. intros text i j. rewrite (He text i j). by rewrite chain_one.
  - set (l := a :: b :: nodes) in *. set (middle := Nat.div2 (length l)).
    assert (1 <= middle /\ middle < length l) as [Hm1 Hm2].
    { unfold middle, l. cbn [length]. rewrite Nat.div2_div. split.
      - apply (Nat.div_le_lower_bound _ 2); lia.
      - apply Nat.div_lt; lia. }
    clearbody middle. rewrite <- (take_drop middle l) in Hall. apply Forall2_app_inv_l in Hall as (rs1 & rs2 & H1 & H2 & ->).
    assert (length (take middle l) = middle) as Hl1 by (rewrite length_take; lia).
    assert (length (drop middle l) = length l - middle) as Hl2 by apply length_drop.
    eapply after_ok_step; [apply (IH (take middle l) rs1 p); [lia| |exact H1]|done|].
    { intros _ Hz. rewrite Hz in Hl1. change (length (@nil nat)) with 0 in Hl1. lia. }
    intros i1 p1 (Hs1 & Hg1 & r1 & Hr1 & Hc1).
    eapply after_ok_step; [apply (IH (drop middle l) rs2 p1); [lia| |]|done|].
    { intros _ Hz. rewrite Hz in Hl2. change (length (@nil nat)) with 0 in Hl2. lia. }
    { eapply Forall2_impl; [exact H2|]. intros. by eapply stands_for_grows. }
    intros i2 p2 (Hs2 & Hg2 & r2 & Hr2 & Hc2). apply p_add_spec; [done|]. intros p3 -> Hs3 Hg3 Hn3.
    split; [congruence|]. split; [by do 2 (etrans; [eassumption|])|].
    pose proof (node_is_grows _ _ _ _ Hr1 Hg2) as Hr1'.
    pose proof (denotes_height _ _ _ _ Hr1') as Hb1. pose proof (denotes_height _ _ _ _ Hr2) as Hb2.
    pose proof (node_is_grows _ _ _ _ Hr1' Hg3) as Hr1''. pose proof (node_is_grows _ _ _ _ Hr2 Hg3) as Hr2'.
    exists (if alternate then RAlternate r1 r2 else RConcat r1 r2). split.
    + destruct alternate; exists i1, i2; (split; [exact Hn3|]; split; [lia|]; split; [lia|]; done).
    + intros text i j. rewrite chain_app. destruct alternate; cbn [lang].
      * by rewrite Hc1, Hc2.
      * unfold l_then. split; intros (k & ? & ?); exists k; (split; [by apply Hc1|by apply Hc2]).
Qed.

Lemma balanced_spec alternate nodes rs p : (alternate = true -> nodes <> []) -> Forall2 (stands_for p) nodes rs ->
  after_ok (balanced limits nodes alternate) p
    (fun index p' => suffix p' = suffix p /\ grows p p' /\
       exists r, node_is p' index r /\ forall text i j, lang text r i j <-> chain alternate rs text i j)
    (fun e => e = PatternLimit).
Proof. intros. apply balanced_go_spec; [lia|done|done]. Qed.

(** ** First and following characters *)
Definition op_ahead (s : list char) : bool := from_option is_operator false (head s).
Definition ends (grouped : bool) (rest : list char) : Prop :=
  rest = [] \/ grouped = true /\ head rest = Some (ch ")").
Definition stops (grouped : bool) (rest : list char) : Prop := ends grouped rest \/ head rest = Some (ch "|").

Lemma atom_first s rest r q : g_atom s rest r q -> exists c t, s = c :: t /\ c ∉ chars "|)*+?{".
Proof.
  intros H. destruct H; eexists _, _; (split; [reflexivity|]);
    try (apply (bool_decide_unpack _); vm_compute; exact I).
  intros Hin. match goal with H : _ ∉ special_chars |- _ => apply H end.
  unfold special_chars, chars in *. cbn in *. set_solver.
Qed.

Lemma term_first s rest r : g_term s rest r -> exists c t, s = c :: t /\ c ∉ chars "|)*+?{".
Proof. intros H. destruct H; by eapply atom_first. Qed.

Lemma not_op c : c ∉ chars "|)*+?{" -> is_operator c = false.
Proof. intros H. unfold is_operator. apply bool_decide_eq_false_2. intros Hin. apply H. unfold chars in *. cbn in *. set_solver. Qed.

Lemma stops_no_op grouped rest : stops grouped rest -> op_ahead rest = false.
Proof.
  unfold stops, ends, op_ahead. intros [[-> | [_ H]] | H]; [done| |]; rewrite H; cbn [from_option]; vm_compute; done.
Qed.

Lemma sequence_no_op s rest r : g_sequence s rest r -> op_ahead rest = false -> op_ahead s = false.
Proof.
  intros H Hr. destruct H as [|s s1 rest a b Ht _]; [done|]. apply term_first in Ht as (c & t & -> & Hc).
  cbn. by apply not_op.
Qed.

(** ** Escapes *)
Definition g_escaped (s rest : list char) (r : regex) : Prop := g_atom (ch "\" :: s) rest r true.

Lemma escape_atom_inv s rest r q : g_atom (ch "\" :: s) rest r q -> q = true /\ exists e t, s = e :: t /\
  ((exists cl, shorthand e = Some cl /\ rest = t) \/
   (exists cl name, letter_class e = Some cl /\ (name = chars "Letter" \/ name = chars "L") /\ t = ch "{" :: name ++ ch "}" :: rest) \/
   (exists c, g_escape false e t rest c)).
Proof.
  intros H. inversion H; subst.
  - split; [done|]. eexists _, _. split; [reflexivity|]. left. by eexists.
  - split; [done|]. eexists _, _. split; [reflexivity|]. right. left. by eexists _, _.
  - split; [done|]. eexists _, _. split; [reflexivity|]. right. right. by eexists.
  - exfalso. match goal with H : _ ∉ special_chars |- _ => apply H end. apply (bool_decide_unpack _). by vm_compute.
Qed.

(** What reading an atom of the text [s0] from [p] on gives. *)
Definition reads_atom (s0 : list char) (p : Parser) (a : nat * bool) (p' : Parser) : Prop :=
  exists r, g_atom s0 (suffix p') r a.2 /\ grows p p' /\ stands_for p' a.1 r /\ length (suffix p') < length s0 /\
    forall rest r' q, g_atom s0 rest r' q -> rest = suffix p' /\ q = a.2.
Definition no_atom (s0 : list char) (e : PatternError) : Prop :=
  e = Unsupported -> forall rest r q, ~ g_atom s0 rest r q.

(** An atom whose node has been added. *)
Lemma atom_node s0 p p1 node r q : g_atom s0 (suffix p1) r q -> grows p p1 -> length (suffix p1) < length s0 ->
  (forall rest r' q', g_atom s0 rest r' q' -> rest = suffix p1 /\ q' = q) ->
  (forall p' index, p_nodes p' !! index = Some node -> node_is p' index r) ->
  after_ok (let* n := p_add limits node in mok (n, q)) p1 (reads_atom s0 p) (no_atom s0).
Proof.
  intros Hr Hg Hl Hu Hn. apply after_ok_then. apply p_add_spec; [done|]. intros p' _ Hs Hg' Hn'. fstep.
  exists r. cbn [fst snd]. rewrite Hs. split; [done|]. split; [by etrans|]. split; [apply node_stands; by apply Hn|].
  split; [done|]. done.
Qed.
Lemma atom_class_node s0 p p1 cl : g_atom s0 (suffix p1) (RClass cl) true -> grows p p1 -> length (suffix p1) < length s0 ->
  (forall rest r' q', g_atom s0 rest r' q' -> rest = suffix p1 /\ q' = true) ->
  after_ok (class_node limits cl) p1 (fun n => reads_atom s0 p (n, true)) (no_atom s0).
Proof.
  intros Hr Hg Hl Hu. apply class_node_spec; [done|]. intros index p' Hs Hg' Hn.
  exists (RClass cl). cbn [fst snd]. rewrite Hs. split; [done|]. split; [by etrans|]. split; [by apply node_stands|]. done.
Qed.

Lemma shorthand_none e c t rest : shorthand e = Some c -> forall d, ~ g_escape false e t rest d.
Proof.
  unfold shorthand. intros H d G.
  repeat match type of H with (if N.eqb ?a ?b then _ else _) = _ => destruct (N.eqb_spec a b) as [->|] end;
    try done; inversion G; subst; absurd_chars.
Qed.
Lemma letter_none e c t rest : letter_class e = Some c -> shorthand e = None /\ forall d, ~ g_escape false e t rest d.
Proof.
  unfold letter_class. intros H.
  repeat match type of H with (if N.eqb ?a ?b then _ else _) = _ => destruct (N.eqb_spec a b) as [->|] end;
    try done; (split; [done|]); intros d G; inversion G; subst; absurd_chars.
Qed.

(** The tests of [escape_node] are the tables of the grammar. *)
Lemma shorthand_chars e : bool_decide (e ∈ chars "dDwWsS") = true ->
  shorthand e = Some {| c_ranges := [];
    c_flags := if bool_decide (e ∈ chars "dD") then 1 else if bool_decide (e ∈ chars "wW") then 2 else 4;
    c_negated := char_is_upper e |}.
Proof.
  intros H. apply bool_decide_eq_true_1 in H. change (chars "dDwWsS") with [ch "d"; ch "D"; ch "w"; ch "W"; ch "s"; ch "S"] in H.
  repeat (apply elem_of_cons in H as [-> | H]; [by vm_compute|]). by apply not_elem_of_nil in H.
Qed.
Lemma shorthand_not e : bool_decide (e ∈ chars "dDwWsS") = false -> shorthand e = None.
Proof.
  intros H. apply bool_decide_eq_false_1 in H. change (chars "dDwWsS") with [ch "d"; ch "D"; ch "w"; ch "W"; ch "s"; ch "S"] in H.
  unfold shorthand. rewrite !(proj2 (N.eqb_neq _ _)); [done|..]; intros ->; apply H; set_solver.
Qed.
Lemma letter_chars e : bool_decide (e ∈ chars "pP") = true ->
  letter_class e = Some {| c_ranges := []; c_flags := 16; c_negated := (e =? ch "P")%N |}.
Proof.
  intros H. apply bool_decide_eq_true_1 in H. change (chars "pP") with [ch "p"; ch "P"] in H.
  repeat (apply elem_of_cons in H as [-> | H]; [by vm_compute|]). by apply not_elem_of_nil in H.
Qed.
Lemma letter_not e : bool_decide (e ∈ chars "pP") = false -> letter_class e = None.
Proof.
  intros H. apply bool_decide_eq_false_1 in H. change (chars "pP") with [ch "p"; ch "P"] in H.
  unfold letter_class. rewrite !(proj2 (N.eqb_neq _ _)); [done|..]; intros ->; apply H; set_solver.
Qed.

(** A name up to the first closing brace. *)
Lemma name_unique (ds name s rest : list char) : ds ++ s = name ++ ch "}" :: rest ->
  Forall (fun c => negb (c =? ch "}")%N = true) ds -> from_option (fun c => negb (c =? ch "}")%N) false (head s) = false ->
  name = chars "Letter" \/ name = chars "L" -> ds = name /\ s = ch "}" :: rest.
Proof.
  intros He Hd Hs Hn. assert (Forall (fun c => negb (c =? ch "}")%N = true) name) as Hname.
  { destruct Hn as [-> | ->]; by repeat constructor. }
  clear Hn. revert name He Hname. induction Hd as [|c ds Hc Hd IH]; intros [|c' name] He Hname.
  - done.
  - cbn [app] in He. subst s. cbn in Hs. apply Forall_cons in Hname as [Hn _]. cbn in Hn. congruence.
  - injection He as -> _. by vm_compute in Hc.
  - injection He as -> He. apply Forall_cons in Hname as [_ Hname]. by destruct (IH name He Hname) as [-> ->].
Qed.

(** What the text after a backslash and [e] may be. *)
Definition escaped (e : char) (t rest : list char) : Prop :=
  (exists cl, shorthand e = Some cl /\ rest = t) \/
  (exists cl name, letter_class e = Some cl /\ (name = chars "Letter" \/ name = chars "L") /\ t = ch "{" :: name ++ ch "}" :: rest) \/
  (exists c, g_escape false e t rest c).
Lemma escaped_inv e t rest r q : g_atom (ch "\" :: e :: t) rest r q -> q = true /\ escaped e t rest.
Proof. intros H. apply escape_atom_inv in H as (-> & e' & t' & [= <- <-] & H). done. Qed.
Lemma escaped_letter e t rest r q ds t3 : g_atom (ch "\" :: e :: t) rest r q -> shorthand e = None ->
  (forall rest d, ~ g_escape false e t rest d) -> t = ch "{" :: ds ++ t3 ->
  Forall (fun c => negb (c =? ch "}")%N = true) ds -> from_option (fun c => negb (c =? ch "}")%N) false (head t3) = false ->
  q = true /\ t3 = ch "}" :: rest /\ (ds = chars "Letter" \/ ds = chars "L").
Proof.
  intros H E1 Hne Ht Hall Hstop. apply escaped_inv in H as (-> & [(cl & ? & _) | [(cl & name & _ & Hn & Ht') | (c & Hc)]]);
    [congruence| |by apply Hne in Hc].
  rewrite Ht in Ht'. injection Ht' as Ht'. by destruct (name_unique _ _ _ _ Ht' Hall Hstop Hn) as [-> ->].
Qed.

Lemma escape_node_spec p :
  after_ok (escape_node limits) p (fun n => reads_atom (ch "\" :: suffix p) p (n, true)) (no_atom (ch "\" :: suffix p)).
Proof.
  unfold escape_node. apply after_ok_then. apply next_char_spec.
  { intros Hs _ rest r q H. rewrite Hs in H. apply escape_atom_inv in H as (_ & e & t & ? & _). done. }
  intros e t p1 Hs Hm Hp1. rewrite Hs. pose proof (moved_grows _ _ Hm) as Hg.
  pose proof (escaped_inv e t) as Hinv. unfold escaped in Hinv.
  destruct (bool_decide (e ∈ chars "dDwWsS")) eqn:E1.
  { apply shorthand_chars in E1. apply atom_class_node; rewrite ?Hp1; [by constructor|done|cbn; lia|].
    intros rest r q H. apply Hinv in H as (-> & [(cl & _ & ->) | [(cl & name & Hl & _) | (c & Hc)]]); [done| |].
    - apply (letter_none _ _ t rest) in Hl as [? _]. congruence.
    - by apply (shorthand_none _ _ _ _ E1) in Hc. }
  apply shorthand_not in E1. destruct (bool_decide (e ∈ chars "pP")) eqn:E2.
  - apply letter_chars in E2. destruct (letter_none _ _ t [] E2) as [_ _].
    assert (forall rest d, ~ g_escape false e t rest d) as Hne by (intros rest; by apply (letter_none _ _ t rest E2)).
    apply after_ok_then. apply take_char_spec.
    2: { intros Hno. fstep. intros _ rest r q H. rewrite Hp1 in Hno.
         apply Hinv in H as (_ & [(cl & ? & _) | [(cl & name & _ & _ & ->) | (c & Hc)]]); [congruence|done|by apply Hne in Hc]. }
    intros t2 p2 Hs2 Hm2 Hp2. rewrite Hp1 in Hs2. fstep. cbv zeta. apply after_ok_then.
    apply skip_while_spec; [apply suffix_fuel|]. intros ds t3 p3 Hds Hall Hstop -> Hp3. fstep. cbv zeta.
    replace (take _ (drop _ _)) with ds.
    2: { cbn. fold (suffix p2). rewrite Hds. replace (p_cursor p2 + length ds - p_cursor p2) with (length ds) by lia.
         symmetry. apply take_app_length. }
    rewrite Hp2 in Hds.
    assert (t = ch "{" :: ds ++ t3) as Htd by congruence.
    pose proof (fun rest r q H => escaped_letter e t rest r q ds t3 H E1 Hne Htd Hall Hstop) as Hinv2.
    apply after_ok_then. apply take_char_spec; rewrite Hp3.
    + intros t4 p4 Hs4 Hm4 Hp4. cbn [negb orb]. case_bool_decide as Hname; cbn [negb].
      * apply atom_class_node; rewrite ?Hp4.
        -- rewrite Hs2, Hds, Hs4. by apply atom_letter.
        -- etrans; [exact Hg|]. etrans; [by apply moved_grows|]. etrans; [|by apply moved_grows]. apply moved_grows, (moved_by p2 ds t3). by rewrite Hp2.
        -- rewrite Hs2, Hds, Hs4. cbn [length]. rewrite length_app. cbn [length]. lia.
        -- intros rest r q H. apply Hinv2 in H as (-> & H & _). rewrite Hs4 in H. by injection H as ->.
      * fstep. intros _ rest r q H. by apply Hinv2 in H as (_ & _ & ?).
    + intros Hno. cbn [negb orb]. fstep. intros _ rest r q H. apply Hinv2 in H as (_ & -> & _). done.
  - apply letter_not in E2.
    apply (reads_step _ _ _ _ _ _ (escaped_literal_reads false e)); [|done|]; rewrite Hp1.
    { intros Hno _ rest r q H. apply Hinv in H as (_ & [(cl & ? & _) | [(cl & name & ? & _) | (c & Hc)]]); [congruence..|].
      by eapply Hno. }
    intros c p2 Hm2 Hc Hu. apply p_add_spec; [done|]. intros p3 _ Hs3 Hg3 Hn3. exists (RLiteral c). cbn [fst snd].
    rewrite Hs3. split; [by constructor|]. split; [do 2 (etrans; [eassumption || by apply moved_grows|]); exact Hg3|].
    split; [by apply node_stands|]. split.
    + pose proof (moved_length _ _ Hm2) as Hl. rewrite Hp1 in Hl. cbn. lia.
    + intros rest r q H. apply Hinv in H as (-> & [(cl & ? & _) | [(cl & name & ? & _) | (d & Hd)]]); [congruence..|].
      by apply Hu in Hd as [-> _].
Qed.

(** ** Alternations

    What reading an alternation, a sequence or a term from [p] on gives. *)
Definition reads_alternation (grouped : bool) (p : Parser) (index : nat) (p' : Parser) : Prop :=
  exists r, g_alternation (suffix p) (suffix p') r /\ grows p p' /\ stands_for p' index r /\
    ends grouped (suffix p') /\ length (suffix p') <= length (suffix p) /\
    forall rest r', ends grouped rest -> g_alternation (suffix p) rest r' -> rest = suffix p'.
Definition no_alternation (grouped : bool) (p : Parser) (e : PatternError) : Prop :=
  e = Unsupported -> forall rest r, ends grouped rest -> ~ g_alternation (suffix p) rest r.
Definition reads_sequence (grouped : bool) (p : Parser) (index : nat) (p' : Parser) : Prop :=
  exists r, g_sequence (suffix p) (suffix p') r /\ grows p p' /\ stands_for p' index r /\
    stops grouped (suffix p') /\ length (suffix p') <= length (suffix p) /\
    forall rest r', stops grouped rest -> g_sequence (suffix p) rest r' -> rest = suffix p'.
Definition no_sequence (grouped : bool) (p : Parser) (e : PatternError) : Prop :=
  e = Unsupported -> forall rest r, stops grouped rest -> ~ g_sequence (suffix p) rest r.
Definition reads_term (p : Parser) (index : nat) (p' : Parser) : Prop :=
  exists r, g_term (suffix p) (suffix p') r /\ grows p p' /\ stands_for p' index r /\
    length (suffix p') < length (suffix p) /\
    forall rest r', op_ahead rest = false -> g_term (suffix p) rest r' -> rest = suffix p'.
Definition no_term (p : Parser) (e : PatternError) : Prop :=
  e = Unsupported -> forall rest r, op_ahead rest = false -> ~ g_term (suffix p) rest r.

Section Nested.
  Context (alternation : bool -> P nat) (size : nat).
  Context (Halt : forall p, length (suffix p) < size ->
    after_ok (alternation true) p (reads_alternation true p) (no_alternation true p)).

Lemma group_spec p p1 s : length (suffix p) <= size -> suffix p = ch "(" :: s -> moved p p1 -> suffix p1 = s ->
  after_ok
    (let* c := peek in
     mfail_if bool_decide (c = Some (ch "?")) with Unsupported in
     let* p := mget in
     mfail_if (max_depth limits <=? p_depth p)%N with PatternLimit in
     let* _ := mset (with_depth p (p_depth p + 1)) in
     let* child := alternation true in
     let* p := mget in
     let* _ := mset (with_depth p (p_depth p - 1)) in
     let* closed := take_char (ch ")") in
     if closed : bool then mok (child, true) else mfail Unsupported) p1 (reads_atom (suffix p) p) (no_atom (suffix p)).
Proof.
  intros Hsz Hs Hm Hp1. pose proof (moved_grows _ _ Hm) as Hg. rewrite Hs in *.
  assert (forall rest r q, g_atom (ch "(" :: s) rest r q ->
    head s <> Some (ch "?") /\ q = true /\ exists a, g_alternation s (ch ")" :: rest) a) as Hinv.
  { intros rest r q H. inversion H; subst; [by eauto|].
    exfalso. match goal with H : _ ∉ special_chars |- _ => apply H end. apply (bool_decide_unpack _). by vm_compute. }
  apply after_ok_then. apply peek_spec. rewrite Hp1. case_bool_decide as Hq.
  { fstep. intros _ rest r q H. by apply Hinv in H as (? & _). }
  fstep. destruct (_ <=? _)%N; [by fstep|]. fstep.
  set (p2 := with_depth p1 (p_depth p1 + 1)). assert (suffix p2 = s) as Hp2 by exact Hp1.
  eapply after_ok_step; [apply Halt; rewrite Hp2; cbn in Hsz; lia| |].
  { intros e He Hu rest r q H. apply Hinv in H as (_ & _ & a & H). unfold no_alternation in He. rewrite Hp2 in He.
    eapply He; [done| |exact H]. right. done. }
  intros child p3 (r & H1 & H2 & H3 & H4 & H5 & H6). rewrite Hp2 in H1, H5, H6. do 2 fstep.
  set (p4 := with_depth p3 (p_depth p3 - 1)). assert (suffix p4 = suffix p3) as Hp4 by done.
  assert (grows p p4) as Hg4. { etrans; [exact Hg|]. etrans; [|exact H2]. done. }
  assert (stands_for p4 child r) as Hst by (eapply stands_for_grows; [exact H3|done]).
  apply after_ok_then. apply take_char_spec; rewrite Hp4.
  - intros s5 p5 Hs5 Hm5 Hp5. fstep. exists r. cbn [fst snd]. rewrite Hs5 in *. rewrite Hp5.
    split; [by constructor|]. split; [etrans; [exact Hg4|by apply moved_grows]|].
    split; [eapply stands_for_grows; [exact Hst|by apply moved_grows]|]. split; [cbn in *; lia|].
    intros rest r' q H. apply Hinv in H as (_ & -> & a & H). split; [|done].
    apply H6 in H; [|by right]. by injection H as ->.
  - intros Hno. fstep. intros _ rest r' q H. apply Hinv in H as (_ & -> & a & H). apply H6 in H; [|by right].
    rewrite <- H in Hno. done.
Qed.

(** An atom that is one character. *)
Lemma atom_char p p1 c s node r q : suffix p = c :: s -> suffix p1 = s -> moved p p1 ->
  g_atom (c :: s) s r q -> (forall rest r' q', g_atom (c :: s) rest r' q' -> rest = s /\ q' = q) ->
  (forall p' index, p_nodes p' !! index = Some node -> node_is p' index r) ->
  after_ok (let* n := p_add limits node in mok (n, q)) p1 (reads_atom (suffix p) p) (no_atom (suffix p)).
Proof.
  intros Hs Hp1 Hm Hr Hu Hn. rewrite Hs. eapply atom_node; rewrite ?Hp1; try done.
  - by apply moved_grows.
  - cbn. lia.
Qed.

Ltac not_literal :=
  exfalso; match goal with H : _ ∉ special_chars |- _ => apply H end; apply (bool_decide_unpack _); by vm_compute.

Lemma atom_spec p : length (suffix p) <= size ->
  after_ok (atom limits alternation) p (reads_atom (suffix p) p) (no_atom (suffix p)).
Proof.
  intros Hsz. unfold atom. apply after_ok_then. apply next_char_spec.
  { intros Hs _ rest r q H. rewrite Hs in H. by apply atom_first in H as (? & ? & ? & _). }
  intros c s p1 Hs Hm Hp1. pose proof (moved_grows _ _ Hm) as Hg.
  destruct (N.eqb_spec c (ch "^")) as [->|N1].
  { apply (atom_char p p1 (ch "^") s N_Start RStart false); try done; [constructor|]. intros rest r q H. inversion H; subst; [done|not_literal]. }
  destruct (N.eqb_spec c (ch "$")) as [->|N2].
  { apply (atom_char p p1 (ch "$") s N_End REnd false); try done; [constructor|]. intros rest r q H. inversion H; subst; [done|not_literal]. }
  destruct (N.eqb_spec c (ch "(")) as [->|N3]; [by eapply group_spec|].
  destruct (N.eqb_spec c (ch "[")) as [->|N4].
  { eapply after_ok_step; [apply class_spec| |]; rewrite Hs, Hp1.
    - intros e He Hu rest r q H. inversion H; subst; [by eapply He|not_literal].
    - intros index p2 (cl & H1 & H2 & H3 & H4). fstep. exists (RClass cl). cbn [fst snd].
      split; [by constructor|]. split; [by etrans|]. split; [by apply node_stands|]. split.
      + apply class_length in H1. cbn. lia.
      + intros rest r q H. inversion H; subst; [|not_literal]. split; [by eapply H4|done]. }
  destruct (N.eqb_spec c (ch "\")) as [->|N5].
  { eapply after_ok_step; [apply escape_node_spec| |]; rewrite Hp1, Hs.
    - intros e He. exact He.
    - intros index p2 (r & H1 & H2 & H3 & H4 & H5). fstep. exists r. split; [done|]. split; [by etrans|]. done. }
  case_bool_decide as Hbad.
  { fstep. intros _ rest r q H. rewrite Hs in H. inversion H; subst;
      try (revert Hbad; apply (bool_decide_unpack (_ ∉ _)); by vm_compute).
    match goal with H : _ ∉ special_chars |- _ => apply H end. unfold special_chars, chars in *. cbn in *. set_solver. }
  destruct (N.eqb_spec c (ch ".")) as [->|N6].
  { apply (atom_char p p1 (ch ".") s N_Any RAny true); try done; [constructor|]. intros rest r q H. inversion H; subst; [done|not_literal]. }
  assert (c ∉ special_chars) as Hns.
  { change special_chars with [ch "^"; ch "$"; ch "."; ch "("; ch "["; ch "\"; ch ")"; ch "]"; ch "}"; ch "|"; ch "*"; ch "+"; ch "?"; ch "{"].
    change (chars ")]}|*+?{") with [ch ")"; ch "]"; ch "}"; ch "|"; ch "*"; ch "+"; ch "?"; ch "{"] in Hbad.
    repeat (apply not_elem_of_cons; split; [done|]). exact Hbad. }
  apply (atom_char p p1 c s (N_Literal c) (RLiteral c) true); try done; [by constructor|]. intros rest r q H. inversion H; subst; done.
Qed.

(** ** Terms *)
Lemma count_length s rest n : g_count s rest n -> length rest <= length s.
Proof. intros H. destruct H. rewrite length_app. lia. Qed.
Lemma quantifier_length s rest b : g_quantifier s rest b -> length rest < length s.
Proof.
  intros H. destruct H; repeat match goal with H : g_count _ _ _ |- _ => apply count_length in H end; cbn [length] in *; lia.
Qed.

(** The end of a quantified term, after its bounds have been read up to [p2]. *)
Lemma quantified_spec p p1 p2 child min max r : g_atom (suffix p) (suffix p1) r true -> stands_for p1 child r -> grows p p1 ->
  g_quantifier (suffix p1) (suffix p2) (min, max) -> moved p1 p2 -> length (suffix p2) < length (suffix p) ->
  from_option (fun m => min <= m)%N True max ->
  (forall rest r', op_ahead rest = false -> g_term (suffix p) rest r' ->
     suffix p2 = rest \/ suffix p2 = ch "?" :: rest) ->
  after_ok
    (let* _ := take_char (ch "?") in
     let* c := peek in
     mfail_if from_option is_operator false c with Unsupported in
     p_add limits (N_Repeat child min max)) p2 (reads_term p) (no_term p).
Proof.
  intros Ha (r' & Hr' & He) Hg Hq Hm Hl Hle Hinv.
  assert (forall p3 : Parser, grows p1 p3 -> length (suffix p3) < length (suffix p) ->
    (forall min max, g_quantifier (suffix p1) (suffix p2) (min, max) -> from_option (fun m => min <= m)%N True max ->
       g_term (suffix p) (suffix p3) (RRepeat r min max)) ->
    (forall rest r', op_ahead rest = false -> g_term (suffix p) rest r' -> rest = suffix p3) ->
    after_ok (let* c := peek in
     mfail_if from_option is_operator false c with Unsupported in
     p_add limits (N_Repeat child min max)) p3 (reads_term p) (no_term p)) as Hend.
  { intros p3 Hg3 Hl3 Ht Hu. apply after_ok_then. apply peek_spec. fold (op_ahead (suffix p3)).
    destruct (op_ahead (suffix p3)) eqn:Eo.
    - fstep. intros _ rest r0 Hno H. apply Hu in H; [|done]. congruence.
    - apply p_add_spec; [done|]. intros p4 -> Hs4 Hg4 Hn4. exists (RRepeat r min max). rewrite Hs4.
      split; [by apply Ht|]. split; [by do 2 (etrans; [eassumption|])|]. split; [|split; [done|done]].
      exists (RRepeat r' min max). split; [|by apply RRepeat_equiv]. exists child.
      pose proof (node_is_grows _ _ _ _ Hr' Hg3) as Hr3. pose proof (denotes_height _ _ _ _ Hr3) as [_ Hb].
      split; [exact Hn4|]. split; [done|]. split; [|done]. exact (node_is_grows _ _ _ _ Hr3 Hg4). }
  apply after_ok_then. apply take_char_spec.
  - intros s3 p3 Hs3 Hm3 Hp3. apply Hend.
    + etrans; by apply moved_grows.
    + rewrite Hp3. rewrite Hs3 in Hl. cbn in Hl. lia.
    + intros mn mx Hq' Hle'. rewrite Hp3. rewrite Hs3 in Hq'. by eapply term_lazy.
    + intros rest r0 Hno H. rewrite Hp3. apply Hinv in H as [H | H]; [|congruence|done].
      rewrite <- H, Hs3 in Hno. by vm_compute in Hno.
  - intros Hno3. apply Hend.
    + by apply moved_grows.
    + done.
    + intros mn mx Hq' Hle'. by eapply term_quantified.
    + intros rest r0 Hno H. apply Hinv in H as [H | H]; [done| |done]. by rewrite H in Hno3.
Qed.

Lemma repetition_spec p : length (suffix p) <= size ->
  after_ok (repetition limits alternation) p (reads_term p) (no_term p).
Proof.
  intros Hsz. unfold repetition. eapply after_ok_step; [by apply atom_spec| |].
  { intros e He Hu rest r Hno H. specialize (He Hu). inversion H; subst; by eapply He. }
  intros [child q] p1 (r & Ha & Hg & Hst & Hl & Hu). cbn [fst snd] in *.
  apply after_ok_then. apply peek_spec.
  assert (op_ahead (suffix p1) = false -> after_ok (mok child) p1 (reads_term p) (no_term p)) as Hplain.
  { intros Hno1. fstep. exists r. split; [by econstructor|]. split; [done|]. split; [done|]. split; [done|].
    intros rest r' Hno H. inversion H as [? ? ? ? Hat|? s1 ? ? ? ? Hat Hq _|? s1 ? ? ? ? Hat Hq _]; subst; apply Hu in Hat as [-> _].
    - done.
    - exfalso. inversion Hq; subst; match goal with H : _ = suffix p1 |- _ => rewrite <- H in Hno1 end; by vm_compute in Hno1.
    - exfalso. inversion Hq; subst; match goal with H : _ = suffix p1 |- _ => rewrite <- H in Hno1 end; by vm_compute in Hno1. }
  destruct (suffix p1) as [|op s1] eqn:Es1; cbn [head]; [by apply Hplain|].
  destruct (is_operator op) eqn:Eop; [|by apply Hplain]. clear Hplain.
  assert (forall rest r', op_ahead rest = false -> g_term (suffix p) rest r' -> q = true /\ exists s2 mn mx,
    g_quantifier (op :: s1) s2 (mn, mx) /\ from_option (fun m => mn <= m)%N True mx /\ (s2 = rest \/ s2 = ch "?" :: rest)) as Hinv.
  { intros rest r' Hno H. inversion H as [? ? ? ? Hat|? s2 ? ? ? ? Hat Hq Hle|? s2 ? ? ? ? Hat Hq Hle]; subst; apply Hu in Hat as [-> <-].
    - cbn in Hno. congruence.
    - split; [done|]. eexists _, _, _. split; [exact Hq|]. split; [done|by left].
    - split; [done|]. eexists _, _, _. split; [exact Hq|]. split; [done|by right]. }
  destruct q; cbn [negb].
  2: { fstep. intros _ rest r' Hno H. by apply Hinv in H as [? _]. }
  apply after_ok_then. apply (advance_spec _ p1 op s1); [done|]. intros p2 Hm2 Hp2.
  eapply after_ok_step; [by apply (quantifier_reads p1 op s1 p2)| |]; rewrite Es1.
  { intros e He Hu' rest r' Hno H. apply Hinv in H as (_ & s2 & mn & mx & Hq & _); [|done]. by eapply (He Hu'). }
  intros [mn mx] p3 (Hm3 & Hq & Hqu).
  destruct (from_option (fun maximum => maximum <? mn)%N false mx) eqn:Ele.
  { fstep. intros _ rest r' Hno H. apply Hinv in H as (_ & s2 & mn' & mx' & Hq' & Hle & _); [|done].
    apply Hqu in Hq' as [_ [= -> ->]]. destruct mx as [m|]; [|done]. cbn in Ele, Hle. apply N.ltb_lt in Ele. lia. }
  assert (from_option (fun m => mn <= m)%N True mx) as Hle.
  { destruct mx as [m|]; [|done]. cbn in Ele |- *. by apply N.ltb_ge. }
  destruct ((_ <? _)%N || _); [by fstep|].
  apply (quantified_spec p p1 p3 child mn mx r); rewrite ?Es1; try done.
  - apply quantifier_length in Hq. lia.
  - intros rest r' Hno H. apply Hinv in H as (_ & s2 & mn' & mx' & Hq' & _ & Hs2); [|done].
    apply Hqu in Hq' as [-> _]. done.
Qed.

(** ** Sequences *)
Lemma stops_decides grouped s :
  from_option (fun value : char => negb (value =? ch "|")%N && negb (grouped && (value =? ch ")")%N)) false (head s) = false <->
  stops grouped s.
Proof.
  unfold stops, ends. destruct s as [|c s]; cbn [head from_option]; [naive_solver|].
  rewrite andb_false_iff, !negb_false_iff, andb_true_iff, !N.eqb_eq. naive_solver.
Qed.

Lemma sequence_go_spec grouped fuel : forall p nodes rs, length (suffix p) < fuel -> length (suffix p) <= size ->
  Forall2 (stands_for p) nodes rs ->
  after_ok (sequence_go limits alternation fuel grouped nodes) p
    (fun nodes' p' => exists rs', g_sequence (suffix p) (suffix p') (cat_re rs') /\ grows p p' /\
       Forall2 (stands_for p') nodes' (rs ++ rs') /\ stops grouped (suffix p') /\ length (suffix p') <= length (suffix p) /\
       forall rest r', stops grouped rest -> g_sequence (suffix p) rest r' -> rest = suffix p')
    (no_sequence grouped p).
Proof.
  induction fuel as [|fuel IH]; intros p nodes rs Hf Hsz Hall; [lia|]. cbn [sequence_go].
  apply after_ok_then. apply peek_spec.
  match goal with |- after_ok (if ?t then _ else _) _ _ _ => destruct t eqn:Ego end.
  - assert (~ stops grouped (suffix p)) as Hns by (intros H; apply stops_decides in H; discriminate (eq_trans (eq_sym Ego) H)).
    assert (forall rest r', stops grouped rest -> g_sequence (suffix p) rest r' ->
      exists s1 a b, g_term (suffix p) s1 a /\ g_sequence s1 rest b /\ op_ahead s1 = false) as Hinv.
    { intros rest r' Hst H. destruct H as [|s s1 rest a b Ht Hs]; [done|]. exists s1, a, b. split; [done|]. split; [done|].
      eapply sequence_no_op; [exact Hs|]. by eapply stops_no_op. }
    eapply after_ok_step; [by apply repetition_spec| |].
    { intros e He Hu rest r Hst H. apply Hinv in H as (s1 & a & b & Ht & _ & Hno); [|done]. by eapply (He Hu). }
    intros node p1 (r & Ht & Hg & Hst & Hl & Hu).
    eapply after_ok_mono; [apply (IH p1 (nodes ++ [node]) (rs ++ [r])); [lia|lia|]| |].
    + apply Forall2_app; [|by constructor]. eapply Forall2_impl; [exact Hall|]. intros. by eapply stands_for_grows.
    + intros nodes' p' (rs' & H1 & H2 & H3 & H4 & H5 & H6). exists (r :: rs'). rewrite <- app_assoc in H3.
      split; [by econstructor|]. split; [by etrans|]. split; [done|]. split; [done|]. split; [lia|].
      intros rest r' Hs H. apply Hinv in H as (s1 & a & b & Ht' & Hb & Hno); [|done].
      apply Hu in Ht' as ->; [|done]. by eapply H6.
    + intros e He Hue rest r' Hs H. apply Hinv in H as (s1 & a & b & Ht' & Hb & Hno); [|done].
      apply Hu in Ht' as ->; [|done]. by eapply (He Hue).
  - apply stops_decides in Ego. fstep. exists []. rewrite app_nil_r. split; [constructor|]. split; [done|].
    split; [done|]. split; [done|]. split; [lia|].
    intros rest r' Hs H. destruct H as [|s s1 rest a b Ht _]; [done|]. exfalso.
    apply term_first in Ht as (c & t & -> & Hc). apply Hc.
    unfold stops, ends in Ego. change (chars "|)*+?{") with [ch "|"; ch ")"; ch "*"; ch "+"; ch "?"; ch "{"].
    destruct Ego as [[? | [_ He]] | He]; [done| |]; injection He as ->; set_solver.
Qed.

Lemma sequence_spec grouped p : length (suffix p) <= size ->
  after_ok (sequence limits alternation grouped) p (reads_sequence grouped p) (no_sequence grouped p).
Proof.
  intros Hsz. unfold sequence. fstep.
  eapply after_ok_step; [apply (sequence_go_spec grouped _ p [] []); [apply suffix_fuel|done|constructor]|by intros e|].
  intros nodes p1 (rs & H1 & H2 & H3 & H4 & H5 & H6). cbn [app] in H3.
  eapply after_ok_mono; [by apply (balanced_spec false nodes rs)| |by intros e ->].
  intros index p' (Hs & Hg & r & Hr & Hc). exists (cat_re rs). rewrite Hs. split; [done|]. split; [by etrans|].
  split; [|done]. exists r. split; [done|]. intros text i j. apply Hc.
Qed.

(** ** Branches *)

(** The branches after the first one. *)
Definition g_branches (s rest : list char) : Prop := s = rest \/ exists s1 r, s = ch "|" :: s1 /\ g_alternation s1 rest r.

Lemma ends_not_bar grouped s : ~ ends grouped (ch "|" :: s).
Proof. intros [? | [_ [=]]]. done. Qed.

Lemma alternation_head grouped s rest r : ends grouped rest -> g_alternation s rest r ->
  exists x a, stops grouped x /\ g_sequence s x a.
Proof.
  intros He H. destruct H as [s rest a Hs|s s2 rest a b Hs _].
  - exists rest, a. split; [by left|done].
  - exists (ch "|" :: s2), a. split; [by right|done].
Qed.

(** After the first sequence of an alternation. *)
Lemma alternation_inv grouped s rest r s1 : ends grouped rest -> g_alternation s rest r ->
  (forall rest r', stops grouped rest -> g_sequence s rest r' -> rest = s1) -> g_branches s1 rest.
Proof.
  intros He H Hu. destruct H as [s rest a Hs|s s2 rest a b Hs Hb].
  - apply Hu in Hs as ->; [by left|by left].
  - apply Hu in Hs as <-; [|by right]. right. by exists s2, b.
Qed.

Lemma branches_go_spec grouped fuel : forall p branches rs, length (suffix p) < fuel -> length (suffix p) <= size ->
  stops grouped (suffix p) -> Forall2 (stands_for p) branches rs ->
  after_ok (branches_go limits alternation fuel grouped branches) p
    (fun branches' p' => exists rs', grows p p' /\ Forall2 (stands_for p') branches' (rs ++ rs') /\
       (forall s0 a, g_sequence s0 (suffix p) a -> g_alternation s0 (suffix p') (alt_re a rs')) /\
       ends grouped (suffix p') /\ length (suffix p') <= length (suffix p) /\
       forall rest, ends grouped rest -> g_branches (suffix p) rest -> rest = suffix p')
    (fun e => e = Unsupported -> forall rest, ends grouped rest -> ~ g_branches (suffix p) rest).
Proof.
  induction fuel as [|fuel IH]; intros p branches rs Hf Hsz Hstop Hall; [lia|]. cbn [branches_go].
  apply after_ok_then. apply take_char_spec.
  - intros s p1 Hs Hm Hp1. rewrite Hs in *.
    assert (forall rest, ends grouped rest -> g_branches (ch "|" :: s) rest -> exists r, g_alternation s rest r) as Hinv.
    { intros rest He [<- | (s1 & r & [= <-] & H)]; [by apply ends_not_bar in He|by exists r]. }
    eapply after_ok_step; [apply (sequence_spec grouped p1); rewrite Hp1; cbn in Hsz; lia| |].
    { intros e Hno Hu rest He H. apply Hinv in H as [r H]; [|done]. rewrite <- Hp1 in H.
      apply (alternation_head grouped) in H as (x & a & Hx & H); [|done]. by eapply (Hno Hu). }
    intros branch p2 (r & H1 & H2 & H3 & H4 & H5 & H6). rewrite Hp1 in H1, H5, H6.
    eapply after_ok_mono; [apply (IH p2 (branches ++ [branch]) (rs ++ [r])); [cbn in *; lia..|done|]| |].
    + apply Forall2_app; [|by constructor]. eapply Forall2_impl; [exact Hall|]. intros.
      eapply stands_for_grows; [|exact H2]. eapply stands_for_grows; [done|by apply moved_grows].
    + intros branches' p' (rs' & G1 & G2 & G3 & G4 & G5 & G6). exists (r :: rs'). rewrite <- app_assoc in G2.
      split; [etrans; [by apply moved_grows|by etrans]|]. split; [done|]. split.
      { intros s0 a Ha. cbn [alt_re]. eapply alternation_more; [exact Ha|]. by apply G3. }
      split; [done|]. split; [cbn in *; lia|]. intros rest He H. apply Hinv in H as [r' H]; [|done].
      apply G6; [done|]. by eapply alternation_inv.
    + intros e Hno Hu rest He H. apply Hinv in H as [r' H]; [|done]. eapply (Hno Hu); [exact He|]. by eapply alternation_inv.
  - intros Hno. fstep. exists []. rewrite app_nil_r. split; [done|]. split; [done|].
    split; [intros s0 a Ha; by constructor|]. split; [by destruct Hstop|]. split; [lia|].
    intros rest He [-> | (s1 & r & Hs & _)]; [done|]. by rewrite Hs in Hno.
Qed.

Lemma alt_re_chain a rs text i j : lang text (alt_re a rs) i j <-> chain true (a :: rs) text i j.
Proof.
  revert a. induction rs as [|b rs IH]; intros a; unfold chain in *.
  - rewrite Exists_cons, Exists_nil. cbn. tauto.
  - cbn [alt_re lang]. rewrite IH, (Exists_cons _ a). done.
Qed.

Lemma alternation_body grouped p : length (suffix p) <= size ->
  after_ok
    (let* p := mget in
     let* first := sequence limits alternation grouped in
     let* branches := branches_go limits alternation (source_fuel p) grouped [first] in
     balanced limits branches true) p (reads_alternation grouped p) (no_alternation grouped p).
Proof.
  intros Hsz. fstep. eapply after_ok_step; [by apply (sequence_spec grouped p)| |].
  { intros e Hno Hu rest r He H.
    apply (alternation_head grouped) in H as (x & a & Hx & H); [|done]. by eapply (Hno Hu). }
  intros first p1 (r & H1 & H2 & H3 & H4 & H5 & H6).
  eapply after_ok_step; [apply (branches_go_spec grouped _ p1 [first] [r]); [|lia|done|by constructor]| |].
  { pose proof (suffix_fuel p). lia. }
  { intros e Hno Hu rest r' He H. eapply (Hno Hu); [exact He|]. by eapply alternation_inv. }
  intros branches p2 (rs & G1 & G2 & G3 & G4 & G5 & G6).
  eapply after_ok_mono; [apply (balanced_spec true branches ([r] ++ rs)); [|done]| |by intros e ->].
  { intros _ ->. inversion G2. }
  intros index p' (Hs & Hg & r' & Hr' & Hc). exists (alt_re r rs). rewrite Hs.
  split; [by apply G3|]. split; [by do 2 (etrans; [eassumption|])|]. split.
  - exists r'. split; [done|]. intros text i j. rewrite Hc, alt_re_chain. done.
  - split; [done|]. split; [lia|]. intros rest r0 He H. apply G6; [done|]. by eapply alternation_inv.
Qed.
End Nested.

Lemma alternation_spec fuel : forall grouped p, length (suffix p) < fuel ->
  after_ok (alternation limits fuel grouped) p (reads_alternation grouped p) (no_alternation grouped p).
Proof.
  induction fuel as [|fuel IH]; intros grouped p Hf; [lia|]. cbn [alternation].
  apply (alternation_body (alternation limits fuel) fuel); [|lia]. intros p' Hp'. by apply IH.
Qed.

(** ** Whole patterns *)
Lemma parse_program_spec source : after_ok (parse_program limits) (parser_new source)
  (fun root p => exists r, is_pattern source r /\ stands_for p root r)
  (fun e => e = Unsupported -> forall r, ~ is_pattern source r).
Proof.
  unfold parse_program. fstep. assert (suffix (parser_new source) = source) as Hs by apply drop_0.
  eapply after_ok_step; [apply (alternation_spec _ false (parser_new source)), suffix_fuel| |].
  { intros e Hno Hu r H. eapply (Hno Hu []); [by left|]. by rewrite Hs. }
  intros root p (r & H1 & H2 & H3 & H4 & H5 & H6). rewrite Hs in *. fstep.
  assert (length (suffix p) = length (p_source p) - p_cursor p) as Hl by apply length_drop.
  destruct H4 as [H4 | [? _]]; [|done].
  assert (p_cursor p = length (p_source p)) as ->.
  { destruct H2 as ((H2 & H2') & _). cbn in H2, H2'. rewrite H2 in *. rewrite H4 in Hl. cbn in Hl. lia. }
  rewrite bool_decide_eq_true_2 by done. cbn [negb]. fstep. exists r. unfold is_pattern. rewrite H4 in H1. done.
Qed.
End Limited.
