(* ===== verification/RegexClosure.v ===== *)
(** * One closure of the search ([mcp/schema/pattern.rs])

    [closure] adds to a set of states exactly the states that are reached from a start
    without reading a character, within one step of the budget per instruction. *)
From S2P Require Import Prelude Fallible Schema UnicodeLetter SchemaPattern RegexLang.

(** ** Programs without dangling indices *)
Definition ins_closed (classes : list CharClass) (n : nat) (ins : Instruction) : Prop :=
  i_next ins < n /\ i_alternate ins < n /\ forall k, i_op ins = O_Class k -> k < length classes.
Definition code_closed (classes : list CharClass) (n : nat) (code : list Instruction) : Prop :=
  forall k ins, code !! k = Some ins -> ins_closed classes n ins.
Definition pattern_closed (p : Pattern) : Prop :=
  start p < length (instructions p) /\ code_closed (classes p) (length (instructions p)) (instructions p).

(** ** Budgets

    A search fails only when its budget is smaller than [need]. *)
Definition cap (limit : N) : N := N.min limit USIZE_MAX.
Definition over (limit need : N) (e : PatternError) : Prop := e = PatternLimit /\ (cap limit < need)%N.

Lemma over_mono limit a b e : over limit a e -> (a <= b)%N -> over limit b e.
Proof. intros [-> H] Hle. split; [done|lia]. Qed.

Lemma consume_spec limit steps : after_ok (consume limit) steps (fun _ n => n = steps + 1)%N (over limit (steps + 1)).
Proof.
  unfold consume. do 2 fstep. unfold checked_add.
  destruct (N.leb_spec (steps + 1) U64_MAX) as [H|H]; [|split; [done|unfold cap, USIZE_MAX; lia]].
  fstep. destruct (N.ltb_spec limit (steps + 1)) as [Hl|Hl]; fstep; [split; [done|unfold cap; lia]|done].
Qed.

Lemma counted_spec {St A} (get : St -> N) put (m : M N PatternError A) s Q F :
  after_ok m (get s) (fun a n => Q a (put s n)) F -> after_ok (counted get put m) s Q F.
Proof. unfold after_ok, after, counted. by destruct (m (get s)) as [[[a|e] n]|]. Qed.

Section Closure.
  Context (p : Pattern) (text : list char) (limit : N) (i : nat) (cursor : N).
Let prog := instructions p.
Let n := length prog.
  Context (Hclosed : pattern_closed p).
  Context (Hstart : (cursor =? 0)%N = bool_decide (i = 0)).
  Context (Hend : (cursor =? text_len text)%N = bool_decide (i = length text)).

Definition is_core (op : Op) : bool :=
  match op with O_Epsilon | O_Split | O_Start | O_End => false | _ => true end.
Definition core (k : nat) : Prop := exists ins, prog !! k = Some ins /\ is_core (i_op ins) = true.
(** A step that reads no character, at position [i]. *)
Definition eps_step (s t : nat) : Prop :=
  exists ins, prog !! s = Some ins /\ is_core (i_op ins) = false /\ op_moves (classes p) text (i_op ins) i i /\ targets ins t.

(** The list and the flags of a set of states agree. *)
Definition states_wf (s : States) : Prop :=
  length (present s) = n /\ NoDup (active s) /\ forall k, present s !! k = Some true <-> k ∈ active s.

Lemma states_wf_bound s k : states_wf s -> k ∈ active s -> k < n.
Proof. intros (Hl & _ & H) Hk. apply H in Hk. apply lookup_lt_Some in Hk. lia. Qed.

Lemma states_insert_spec s k : states_wf s -> k < n ->
  exists s', states_insert s k = Some s' /\ states_wf s' /\ forall j, j ∈ active s' <-> j ∈ active s \/ j = k.
Proof.
  intros (Hl & Hnd & Hp) Hk. unfold states_insert.
  destruct (lookup_lt_is_Some_2 (present s) k) as [b Hb]; [lia|]. rewrite Hb. cbn. destruct b.
  - exists s. split; [done|]. split; [done|]. intros j. apply Hp in Hb. naive_solver.
  - eexists. split; [done|].
    assert (k ∉ active s) as Hni by (intros Hin; apply Hp in Hin; congruence). split.
    + split; [cbn; by rewrite length_insert|]. split.
      * apply NoDup_app. split; [done|]. split; [set_solver|apply NoDup_singleton].
      * intros j. cbn. rewrite elem_of_app, list_elem_of_singleton. destruct (decide (j = k)) as [->|Hne].
        -- rewrite list_lookup_insert_eq by lia. naive_solver.
        -- rewrite list_lookup_insert_ne by done. rewrite Hp. naive_solver.
    + intros j. cbn. by rewrite elem_of_app, list_elem_of_singleton.
Qed.

(** ** Marks *)
Definition marks (g : N) (l : list N) : nat := length (filter (fun x => x = g) l).

Lemma marks_insert g l k x : l !! k = Some x -> x <> g -> marks g (<[k := g]> l) = S (marks g l).
Proof.
  revert k. induction l as [|y l IH]; intros [|k] Hk Hx; try done; cbn in Hk.
  - injection Hk as ->. unfold marks. cbn [insert list_insert]. rewrite filter_cons_True by done.
    by rewrite filter_cons_False by done.
  - change (<[S k := g]> (y :: l)) with (y :: <[k := g]> l). specialize (IH k Hk Hx). unfold marks in *.
    destruct (decide (y = g)) as [->|Hy].
    + rewrite !filter_cons_True by done. cbn. by rewrite IH.
    + by rewrite !filter_cons_False by done.
Qed.

Lemma marks_le g l : marks g l <= length l.
Proof. apply length_filter. Qed.

Lemma marks_fresh g l : Forall (fun x => (x < g)%N) l -> marks g l = 0.
Proof.
  intros H. unfold marks. induction H as [|x l Hx _ IH]; [done|]. by rewrite filter_cons_False by lia.
Qed.

Lemma marks_pos g l k : l !! k = Some g -> 1 <= marks g l.
Proof.
  revert k. induction l as [|y l IH]; intros [|k] Hk; try done; cbn in Hk; unfold marks in *.
  - injection Hk as ->. rewrite filter_cons_True by done. cbn. lia.
  - specialize (IH k Hk). destruct (decide (y = g)) as [->|Hy].
    + rewrite filter_cons_True by done. cbn. lia.
    + by rewrite filter_cons_False by done.
Qed.

(** ** The loop *)
Definition vis (w : Closure) (k : nat) : Prop := visited w !! k = Some (generation w).

Record loop_inv (from : nat) (A0 : list nat) (steps0 g : N) (x : States * Closure) : Prop := {
  li_states : states_wf x.1;
  li_visited : length (visited x.2) = n;
  li_generation : generation x.2 = g;
  li_bound : Forall (fun v => (v <= g)%N) (visited x.2);
  li_stack : Forall (fun k => k < n /\ rtc eps_step from k) (stack x.2);
  li_reach : forall k, vis x.2 k -> rtc eps_step from k;
  li_from : vis x.2 from \/ from ∈ stack x.2;
  li_steps_closed : forall k t, vis x.2 k -> eps_step k t -> vis x.2 t \/ t ∈ stack x.2;
  li_active : forall k, k ∈ active x.1 <-> k ∈ A0 \/ vis x.2 k /\ core k;
  li_steps : (steps x.2 = steps0 + N.of_nat (marks g (visited x.2)))%N;
}.

(** What [follow] pushes on the stack and adds to the states. *)
Definition followed (from index : nat) (s : States) (w : Closure) (x : States * Closure) : Prop :=
  exists pushed, x.2 = with_stack w (pushed ++ stack w) /\ length pushed <= 2 /\
    Forall (fun k => k < n /\ rtc eps_step from k) pushed /\
    (forall t, eps_step index t -> t ∈ pushed) /\
    states_wf x.1 /\ forall k, k ∈ active x.1 <-> k ∈ active s \/ k = index /\ core index.

Section Follow.
  Context (from index : nat) (ins : Instruction) (s : States) (w : Closure).
  Context (Hins : prog !! index = Some ins) (Hwf : states_wf s) (Hr : rtc eps_step from index).

Lemma eps_step_inv t : eps_step index t ->
  is_core (i_op ins) = false /\ op_moves (classes p) text (i_op ins) i i /\ targets ins t.
Proof. intros (ins' & Hins' & H). assert (ins' = ins) as -> by congruence. done. Qed.

Lemma followed_none pushed : is_core (i_op ins) = false -> length pushed <= 2 ->
  (forall t, t ∈ pushed -> targets ins t) -> (forall t, eps_step index t -> t ∈ pushed) ->
  (pushed <> [] -> op_moves (classes p) text (i_op ins) i i) ->
  followed from index s w (s, with_stack w (pushed ++ stack w)).
Proof.
  intros Hc Hl Ht Hall Hm. exists pushed. split; [done|]. split; [done|]. split.
  - apply Forall_forall. intros t Hin. destruct Hclosed as [_ Hcode]. destruct (Hcode _ _ Hins) as (Hn & Ha & _).
    specialize (Ht t Hin). split.
    + destruct Ht as [-> | [_ ->]]; done.
    + eapply rtc_r; [exact Hr|]. exists ins. split; [done|]. split; [done|]. split; [|done].
      apply Hm. intros ->. by apply not_elem_of_nil in Hin.
  - split; [done|]. split; [done|]. intros k. split; [by left|].
    intros [? | [_ (ins' & Hi' & Hc')]]; [done|]. congruence.
Qed.

Lemma followed_core : is_core (i_op ins) = true -> after_ok
  (let* (s, w) := mget in let* s := munwrap (states_insert s index) in mset (s, w)) (s, w)
  (fun _ => followed from index s w) (fun _ : PatternError => False).
Proof.
  intros Hc. fstep. destruct (states_insert_spec s index Hwf) as (s' & Hs' & Hwf' & Hact).
  { by apply lookup_lt_Some in Hins. }
  apply after_ok_then. eapply after_ok_unwrap; [exact Hs'|]. fstep. exists []. cbn.
  split; [by destruct w|]. split; [lia|]. split; [by constructor|].
  split; [intros t Ht; apply eps_step_inv in Ht as [? _]; congruence|]. split; [done|]. intros k. rewrite Hact.
  assert (core index) by (by exists ins). naive_solver.
Qed.

Lemma followed_next : is_core (i_op ins) = false -> i_op ins <> O_Split ->
  op_moves (classes p) text (i_op ins) i i ->
  after_ok (push_stack (i_next ins)) (s, w) (fun _ => followed from index s w) (fun _ : PatternError => False).
Proof.
  intros H1 H2 H3. unfold push_stack. do 2 fstep. apply (followed_none [i_next ins]); cbn; try done; try lia.
  - intros t Ht. apply list_elem_of_singleton in Ht as ->. by left.
  - intros t Ht. apply eps_step_inv in Ht as (_ & _ & [-> | [? _]]); [by left|done].
Qed.

Lemma followed_stuck : is_core (i_op ins) = false -> ~ op_moves (classes p) text (i_op ins) i i ->
  after_ok (mok tt) (s, w) (fun _ => followed from index s w) (fun _ : PatternError => False).
Proof.
  intros H1 H2. fstep. replace w with (with_stack w ([] ++ stack w)) at 2 by (by destruct w).
  apply followed_none; cbn; try done; try lia; try set_solver.
  intros t Ht. by apply eps_step_inv in Ht as (_ & ? & _).
Qed.

Lemma follow_spec : after_ok (follow (text_len text) cursor index ins) (s, w)
  (fun _ => followed from index s w) (fun _ : PatternError => False).
Proof.
  unfold follow. pose proof followed_core as Hcore. pose proof followed_next as Hnext. pose proof followed_stuck as Hst.
  destruct (i_op ins) eqn:Eop; try (by apply Hcore).
  - by apply Hnext.
  - unfold push_stack. repeat fstep. apply (followed_none [i_alternate ins; i_next ins]); rewrite ?Eop; cbn; try done.
    + intros t Ht. rewrite elem_of_cons, list_elem_of_singleton in Ht. destruct Ht as [-> | ->]; [by right|by left].
    + intros t Ht. apply eps_step_inv in Ht as (_ & _ & [-> | [_ ->]]); set_solver.
  - rewrite Hstart. destruct (decide (i = 0)) as [He|He].
    + rewrite bool_decide_eq_true_2 by done. by apply Hnext.
    + rewrite bool_decide_eq_false_2 by done. apply Hst; [done|]. intros [? _]. done.
  - rewrite Hend. destruct (decide (i = length text)) as [He|He].
    + rewrite bool_decide_eq_true_2 by done. by apply Hnext.
    + rewrite bool_decide_eq_false_2 by done. apply Hst; [done|]. intros [? _]. done.
Qed.
End Follow.

(** Where the loop ends, the marked states are the reached ones. *)
Lemma loop_inv_done from A0 steps0 g s w : loop_inv from A0 steps0 g (s, w) -> stack w = [] ->
  forall k, k ∈ active s <-> k ∈ A0 \/ core k /\ rtc eps_step from k.
Proof.
  intros H Hs k. rewrite (li_active _ _ _ _ _ H k). cbn [fst snd] in *.
  assert (forall a b, rtc eps_step a b -> vis w a -> vis w b) as Hcl.
  { intros a b Hab. induction Hab as [|a b c Hab _ IH]; [done|]. intros Ha. apply IH.
    destruct (li_steps_closed _ _ _ _ _ H a b Ha Hab) as [? | Hin]; [done|].
    cbn in Hin. rewrite Hs in Hin. by apply not_elem_of_nil in Hin. }
  split.
  - intros [? | [Hv Hc]]; [by left|]. right. split; [done|]. by apply (li_reach _ _ _ _ _ H).
  - intros [? | [Hc Hr]]; [by left|]. right. split; [|done]. eapply Hcl; [exact Hr|].
    destruct (li_from _ _ _ _ _ H) as [? | Hin]; [done|]. cbn in Hin. rewrite Hs in Hin. by apply not_elem_of_nil in Hin.
Qed.

(** The state of the loop after the mark of a new index. *)
Lemma loop_inv_mark from A0 steps0 g s w index rest x : loop_inv from A0 steps0 g (s, w) ->
  stack w = index :: rest -> visited w !! index <> Some g ->
  let w' := with_steps (with_visited (with_stack w rest) (<[index := g]> (visited w))) (steps w + 1) in
  followed from index s w' x -> loop_inv from A0 steps0 g x.
Proof.
  intros H Hs Hv w' (pushed & Hw & Hl & Hp & Hall & Hwf & Hact). destruct x as [s1 w1]. cbn in Hw. subst w1.
  destruct H as [H1 H2 H3 H4 H5 H6 H7 H8 H9 H10]. cbn [fst snd] in *. rewrite Hs in *.
  assert (index < n) as Hlt by (apply Forall_cons in H5 as [[? _] _]; done).
  assert (forall k, vis (with_stack w' (pushed ++ rest)) k <-> vis w k \/ k = index) as Hvis.
  { intros k. unfold vis. cbn. rewrite H3. destruct (decide (k = index)) as [->|Hne].
    - rewrite list_lookup_insert_eq by lia. naive_solver.
    - rewrite list_lookup_insert_ne by done. naive_solver. }
  split; cbn [fst snd with_stack w' with_steps with_visited visited generation stack steps]; try done.
  - by rewrite length_insert.
  - apply Forall_insert; [done|lia].
  - apply Forall_app. split; [done|]. by apply Forall_cons in H5 as [_ ?].
  - intros k Hk. apply Hvis in Hk as [? | ->]; [by apply H6|]. by apply Forall_cons in H5 as [[_ ?] _].
  - rewrite Hvis, elem_of_app. rewrite elem_of_cons in H7. naive_solver.
  - intros k t Hk Ht. rewrite Hvis, elem_of_app. apply Hvis in Hk as [Hk | ->].
    + specialize (H8 k t Hk Ht). rewrite elem_of_cons in H8. naive_solver.
    + right. left. by apply Hall.
  - intros k. rewrite Hact, H9, Hvis. naive_solver.
  - destruct (visited w !! index) as [v|] eqn:Ev; [|apply lookup_ge_None in Ev; lia].
    rewrite (marks_insert g _ _ _ Ev) by congruence. lia.
Qed.

Lemma closure_go_spec from A0 steps0 g fuel s w : loop_inv from A0 steps0 g (s, w) ->
  length (stack w) + 2 * (n - marks g (visited w)) < fuel ->
  after_ok (closure_go p (text_len text) limit fuel cursor) (s, w)
    (fun _ x => loop_inv from A0 steps0 g x /\ stack x.2 = []) (over limit (steps0 + N.of_nat n)).
Proof.
  revert s w. induction fuel as [|fuel IH]; intros s w H Hfuel; [lia|]. cbn [closure_go]. fstep.
  destruct (stack w) as [|index rest] eqn:Es; [by fstep|]. fstep. cbn [fst snd].
  pose proof (li_stack _ _ _ _ _ H) as Hst. cbn [fst snd] in Hst. rewrite Es in Hst.
  apply Forall_cons in Hst as [[Hlt Hri] Hst].
  pose proof (li_visited _ _ _ _ _ H) as Hlv. pose proof (li_generation _ _ _ _ _ H) as Hg. cbn [fst snd] in Hlv, Hg.
  destruct (lookup_lt_is_Some_2 (visited w) index) as [seen Hseen]; [lia|].
  apply after_ok_then. eapply after_ok_unwrap; [exact Hseen|].
  destruct (N.eqb_spec seen (generation w)) as [->|Hne].
  - apply IH; [|cbn [with_stack stack visited]; cbn [length] in Hfuel; lia]. destruct H as [H1 H2 H3 H4 H5 H6 H7 H8 H9 H10]. cbn [fst snd] in *.
    rewrite Es in *. rewrite Hg in *.
    assert (forall k, k ∈ index :: rest -> vis w k \/ k ∈ rest) as Hdrop.
    { intros k Hk. apply elem_of_cons in Hk as [-> | ?]; [|by right]. left. unfold vis. by rewrite Hg. }
    split; cbn [fst snd with_stack visited generation stack steps]; try done.
    + destruct H7 as [? | Hin]; [by left|]. by apply Hdrop.
    + intros k t Hk Ht. destruct (H8 k t Hk Ht) as [? | Hin]; [by left|]. by apply Hdrop.
  - rewrite Hg in Hne. fstep. apply after_ok_then, counted_spec. cbn [with_steps with_visited with_stack steps].
    eapply after_ok_mono; [apply consume_spec| |].
    2: { intros e He. eapply over_mono; [exact He|]. pose proof (li_steps _ _ _ _ _ H) as Hsteps. cbn [fst snd] in Hsteps.
      pose proof (marks_le g (<[index := g]> (visited w))) as Hle.
      rewrite (marks_insert g _ _ _ Hseen), length_insert in Hle by congruence. lia. }
    intros _ nst ->. rewrite Hg.
    destruct (lookup_lt_is_Some_2 prog index) as [ins Hins]; [done|].
    apply after_ok_then. eapply after_ok_unwrap; [exact Hins|].
    eapply after_ok_step; [apply (follow_spec from index ins); [done|by apply (li_states _ _ _ _ _ H)|done]|done|].
    intros _ [s1 w1] Hx. apply IH.
    + eapply loop_inv_mark; [exact H|exact Es|congruence|exact Hx].
    + destruct Hx as (pushed & Hw & Hl & _). cbn [snd] in Hw. subst w1.
      cbn [with_steps with_visited with_stack stack visited]. rewrite length_app.
      rewrite (marks_insert g _ _ _ Hseen) by congruence.
      pose proof (marks_le g (<[index := g]> (visited w))) as Hle.
      rewrite (marks_insert g _ _ _ Hseen), length_insert in Hle by congruence.
      cbn [length] in Hfuel. lia.
Qed.

(** The work of a closure between two closures. *)
Definition work_wf (w : Closure) : Prop :=
  length (visited w) = n /\ Forall (fun v => (v <= generation w)%N) (visited w) /\ (generation w <= steps w)%N.

Lemma closure_spec from s w : from < n -> states_wf s -> work_wf w ->
  after_ok (closure p (text_len text) limit from cursor) (s, w)
    (fun _ x => states_wf x.1 /\ work_wf x.2 /\ (steps x.2 <= steps w + N.of_nat n)%N /\
       forall k, k ∈ active x.1 <-> k ∈ active s \/ core k /\ rtc eps_step from k)
    (over limit (steps w + N.of_nat n)).
Proof.
  intros Hfrom Hs (Hl & Hb & Hgs). unfold closure. fstep. fstep. unfold checked_add.
  destruct (N.leb_spec (generation w + 1) U64_MAX) as [Hg|Hg].
  2: { split; [done|]. unfold cap, USIZE_MAX. lia. }
  fstep. set (g := (generation w + 1)%N) in *.
  assert (Forall (fun v => (v < g)%N) (visited w)) as Hlt by (eapply Forall_impl; [exact Hb|cbn; lia]).
  assert (loop_inv from (active s) (steps w) g (s, with_stack (with_generation w g) [from])) as H.
  { assert (forall k, ~ vis (with_stack (with_generation w g) [from]) k) as Hno.
    { intros k Hk. unfold vis in Hk. cbn in Hk. eapply Forall_lookup_1 in Hlt; [|exact Hk]. cbn in Hlt. lia. }
    split; cbn [fst snd with_stack with_generation visited generation stack steps]; try done.
    - eapply Forall_impl; [exact Hlt|cbn; lia].
    - apply Forall_singleton. split; [done|constructor].
    - intros k Hk. by apply Hno in Hk.
    - right. by left.
    - intros k t Hk. by apply Hno in Hk.
    - intros k. split; [by left|]. intros [? | [Hk _]]; [done|]. by apply Hno in Hk.
    - rewrite (marks_fresh g) by done. lia. }
  eapply after_ok_mono; [apply (closure_go_spec from (active s) (steps w) g); [exact H|]| |auto].
  { cbn [with_stack with_generation stack visited length]. fold prog. fold n. lia. }
  intros _ [s1 w1] [H1 Hst]. cbn [fst snd] in *. pose proof (li_steps _ _ _ _ _ H1) as Hsteps. cbn [fst snd] in Hsteps.
  pose proof (marks_le g (visited w1)) as Hm. pose proof (li_visited _ _ _ _ _ H1) as Hv. cbn [fst snd] in Hv.
  pose proof (li_generation _ _ _ _ _ H1) as Hge. cbn [fst snd] in Hge.
  split; [by apply (li_states _ _ _ _ _ H1)|]. split; [|split; [lia|by eapply loop_inv_done]].
  split; [done|]. rewrite Hge. split; [by apply (li_bound _ _ _ _ _ H1)|].
  assert (1 <= marks g (visited w1)); [|unfold g in *; lia].
  destruct (li_from _ _ _ _ _ H1) as [Hf | Hf]; cbn [fst snd] in Hf.
  - eapply marks_pos. unfold vis in Hf. by rewrite Hge in Hf.
  - rewrite Hst in Hf. by apply not_elem_of_nil in Hf.
Qed.
End Closure.
