(* ===== verification/RegexCompile.v ===== *)
(** * The compiler of patterns is correct ([mcp/schema/pattern/compile.rs])

    Fragments with pending jumps, the effect of [patch], and the specification of
    [compile_node] by induction on the expression of the arena. *)
From S2P Require Import Prelude Fallible Schema UnicodeLetter SchemaPattern RegexLang RegexClosure.

(** An instruction after its pending jumps have been directed to [t]. *)
Definition redirect (pending : list (nat * bool)) (t k : nat) (ins : Instruction) : Instruction := {|
  i_op := i_op ins;
  i_next := if bool_decide ((k, false) ∈ pending) then t else i_next ins;
  i_alternate := if bool_decide ((k, true) ∈ pending) then t else i_alternate ins;
|}.

Definition pending_in (pending : list (nat * bool)) (lo hi : nat) : Prop :=
  forall k b, (k, b) ∈ pending -> lo <= k < hi.

(** [prog] has the instructions of [code] from [lo] on, with the pending jumps to [t]. *)
Definition completes (prog code : list Instruction) (lo : nat) (pending : list (nat * bool)) (t : nat) : Prop :=
  forall k ins, lo <= k -> code !! k = Some ins -> prog !! k = Some (redirect pending t k ins).

Definition frag_ok (classes : list CharClass) (code : list Instruction) (lo : nat) (f : Fragment)
    (L : list char -> Lang) : Prop :=
  pending_in (f_pending f) lo (length code) /\
  forall prog t text, completes prog code lo (f_pending f) t -> runs_as classes text prog (f_start f) t (L text).

Lemma redirect_none pending t k ins : (forall b, (k, b) ∉ pending) -> redirect pending t k ins = ins.
Proof.
  intros H. unfold redirect. rewrite !bool_decide_eq_false_2 by apply H. by destruct ins.
Qed.

Lemma redirect_outside pending lo hi t k ins : pending_in pending lo hi -> ~ lo <= k < hi ->
  redirect pending t k ins = ins.
Proof. intros H Hk. apply redirect_none. intros b Hin. apply Hk. by eapply H. Qed.

Lemma redirect_app_l p q lo hi t k ins : pending_in q lo hi -> ~ lo <= k < hi ->
  redirect (p ++ q) t k ins = redirect p t k ins.
Proof.
  intros H Hk. unfold redirect. f_equal; apply (f_equal (fun b : bool => if b then _ else _));
    apply bool_decide_ext; rewrite elem_of_app; split; auto;
    (intros [? | Hin]; [done|]; exfalso; apply Hk; by eapply H).
Qed.
Lemma redirect_app_r p q lo hi t k ins : pending_in p lo hi -> ~ lo <= k < hi ->
  redirect (p ++ q) t k ins = redirect q t k ins.
Proof.
  intros H Hk. unfold redirect. f_equal; apply (f_equal (fun b : bool => if b then _ else _));
    apply bool_decide_ext; rewrite elem_of_app; split; auto;
    (intros [Hin | ?]; [|done]; exfalso; apply Hk; by eapply H).
Qed.

Lemma redirect_cons index b pending t k ins :
  redirect ((index, b) :: pending) t k ins =
  redirect pending t k (if decide (k = index) then set_target ins b t else ins).
Proof.
  unfold redirect. destruct (decide (k = index)) as [->|Hne].
  - destruct b; cbn [set_target i_op i_next i_alternate]; f_equal; repeat case_bool_decide; try done;
      exfalso; set_solver.
  - f_equal; repeat case_bool_decide; try done; exfalso; set_solver.
Qed.

(** ** [patch] *)
Lemma patch_spec pending t code lo (Q : unit -> list Instruction -> Prop) (F : PatternError -> Prop) :
  pending_in pending lo (length code) ->
  (forall code', length code' = length code ->
    (forall k, code' !! k = redirect pending t k <$> code !! k) -> Q tt code') ->
  after_ok (patch pending t) code Q F.
Proof.
  revert code. induction pending as [|[index b] pending IH]; intros code Hin HQ; cbn [patch].
  - fstep. apply HQ; [done|]. intros k. destruct (code !! k) as [ins|]; [|done]. cbn. f_equal.
    symmetry. apply redirect_none. set_solver.
  - fstep. assert (lo <= index < length code) as Hi by (apply (Hin index b); left).
    destruct (lookup_lt_is_Some_2 code index) as [ins Hins]; [lia|].
    apply after_ok_then. eapply after_ok_unwrap; [exact Hins|]. fstep.
    apply IH; rewrite ?length_insert.
    + intros k b' Hk. apply (Hin k b'). by right.
    + intros code' Hl Hk. apply HQ; [done|]. intros k. rewrite Hk.
      destruct (decide (k = index)) as [->|Hne].
      * rewrite list_lookup_insert_eq by lia. rewrite Hins. cbn. f_equal. rewrite redirect_cons.
        by rewrite decide_True.
      * rewrite list_lookup_insert_ne by done. destruct (code !! k); [|done]. cbn. f_equal.
        rewrite redirect_cons. by rewrite decide_False.
Qed.

Lemma patched_prefix (code base code' : list Instruction) pending t lo :
  base `prefix_of` code -> length base <= lo -> pending_in pending lo (length code) ->
  length code' = length code -> (forall k, code' !! k = redirect pending t k <$> code !! k) -> base `prefix_of` code'.
Proof.
  intros [rest ->] Hlo Hin Hl Hk. exists (drop (length base) code').
  apply list_eq. intros k. destruct (decide (k < length base)) as [Hlt|Hge].
  - rewrite lookup_app_l by lia. rewrite Hk, lookup_app_l by lia. destruct (base !! k); [|done]. cbn. f_equal.
    eapply redirect_outside; [exact Hin|lia].
  - rewrite lookup_app_r by lia. rewrite lookup_drop. f_equal. lia.
Qed.

(** ** Building fragments *)
Section Fragments.
  Context (classes : list CharClass).

Lemma frag_equiv code lo f L L' : frag_ok classes code lo f L -> (forall text i j, L text i j <-> L' text i j) ->
  frag_ok classes code lo f L'.
Proof. intros [Hp H] He. split; [done|]. intros. eapply runs_as_equiv; [by eapply H|]. intros. apply He. Qed.

Lemma frag_single code op : op <> O_Accept -> op <> O_Split ->
  frag_ok classes (code ++ [{| i_op := op; i_next := 0; i_alternate := 0 |}]) (length code)
    {| f_start := length code; f_pending := [(length code, false)] |} (fun text => op_moves classes text op).
Proof.
  intros H1 H2. split.
  - intros k b Hin. apply list_elem_of_singleton in Hin as [= -> ->]. rewrite length_app. cbn. lia.
  - intros prog t text Hc. cbn [f_start f_pending] in *.
    eapply runs_as_single; [|done|done]. erewrite Hc; [|lia|].
    2: { rewrite lookup_app_r by lia. by rewrite Nat.sub_diag. }
    unfold redirect. cbn [i_op i_next i_alternate]. rewrite bool_decide_eq_true_2 by set_solver. reflexivity.
Qed.

Lemma frag_concat code1 code2 code3 lo f g A B :
  frag_ok classes code1 lo f A -> code1 `prefix_of` code2 -> lo <= length code1 ->
  frag_ok classes code2 (length code1) g B ->
  length code3 = length code2 -> (forall k, code3 !! k = redirect (f_pending f) (f_start g) k <$> code2 !! k) ->
  frag_ok classes code3 lo {| f_start := f_start f; f_pending := f_pending g |} (fun text => l_then (A text) (B text)).
Proof.
  intros [Hpf Hf] Hpre Hlo [Hpg Hg] Hl Hk. split.
  - intros k b Hin. cbn in Hin. apply Hpg in Hin. rewrite Hl. lia.
  - intros prog t text Hc. cbn [f_start f_pending] in *. apply runs_as_then with (k := f_start g).
    + apply Hf. intros k ins Hle Hins. pose proof (prefix_lookup_Some _ _ _ _ Hins Hpre) as H2.
      specialize (Hk k). rewrite H2 in Hk. cbn in Hk. specialize (Hc _ _ Hle Hk). rewrite Hc. f_equal.
      eapply redirect_outside; [exact Hpg|]. apply lookup_lt_Some in Hins. lia.
    + apply Hg. intros k ins Hle Hins. specialize (Hk k). rewrite Hins in Hk. cbn in Hk.
      rewrite (redirect_outside _ _ _ _ _ _ Hpf) in Hk by lia. apply Hc; [lia|done].
Qed.

Lemma frag_alternate code0 code1 code2 f g A B :
  frag_ok classes code1 (length code0) f A -> code0 `prefix_of` code1 -> code1 `prefix_of` code2 ->
  frag_ok classes code2 (length code1) g B ->
  frag_ok classes (code2 ++ [{| i_op := O_Split; i_next := f_start f; i_alternate := f_start g |}]) (length code0)
    {| f_start := length code2; f_pending := f_pending f ++ f_pending g |} (fun text i j => A text i j \/ B text i j).
Proof.
  intros [Hpf Hf] Hp0 Hp1 [Hpg Hg].
  pose proof (prefix_length _ _ Hp0) as Hl0. pose proof (prefix_length _ _ Hp1) as Hl1. split.
  - intros k b Hin. cbn in Hin. rewrite length_app. cbn. apply elem_of_app in Hin as [Hin | Hin];
      [apply Hpf in Hin|apply Hpg in Hin]; lia.
  - intros prog t text Hc. cbn [f_start f_pending] in *.
    assert (pending_in (f_pending f ++ f_pending g) (length code0) (length code2)) as Hpa.
    { intros k b Hin. apply elem_of_app in Hin as [Hin | Hin]; [apply Hpf in Hin|apply Hpg in Hin]; lia. }
    eapply runs_as_split with (a := f_start f) (b := f_start g).
    + erewrite Hc; [|lia|rewrite lookup_app_r by lia; by rewrite Nat.sub_diag].
      f_equal. eapply redirect_outside; [exact Hpa|lia].
    + apply Hf. intros k ins Hle Hins. pose proof (lookup_lt_Some _ _ _ Hins).
      erewrite Hc; [|lia|rewrite lookup_app_l by lia; by eapply prefix_lookup_Some].
      f_equal. eapply redirect_app_l; [exact Hpg|lia].
    + apply Hg. intros k ins Hle Hins. pose proof (lookup_lt_Some _ _ _ Hins).
      erewrite Hc; [|lia|rewrite lookup_app_l by lia; exact Hins].
      f_equal. eapply redirect_app_r; [exact Hpf|lia].
Qed.

Lemma frag_opt code0 code1 f A :
  frag_ok classes code1 (length code0) f A -> code0 `prefix_of` code1 ->
  frag_ok classes (code1 ++ [{| i_op := O_Split; i_next := f_start f; i_alternate := 0 |}]) (length code0)
    {| f_start := length code1; f_pending := f_pending f ++ [(length code1, true)] |} (fun text => l_opt (A text)).
Proof.
  intros [Hpf Hf] Hp0. pose proof (prefix_length _ _ Hp0) as Hl0. split.
  - intros k b Hin. cbn in Hin. rewrite length_app. cbn. apply elem_of_app in Hin as [Hin | Hin].
    + apply Hpf in Hin. lia.
    + apply list_elem_of_singleton in Hin as [= -> ->]. lia.
  - intros prog t text Hc. cbn [f_start f_pending] in *.
    apply runs_as_opt with (a := f_start f).
    + erewrite Hc; [|lia|rewrite lookup_app_r by lia; by rewrite Nat.sub_diag].
      f_equal. rewrite (redirect_app_r _ _ _ _ _ _ _ Hpf) by lia. unfold redirect. cbn.
      rewrite bool_decide_eq_false_2 by set_solver. by rewrite bool_decide_eq_true_2 by set_solver.
    + apply Hf. intros k ins Hle Hins. pose proof (lookup_lt_Some _ _ _ Hins).
      erewrite Hc; [|lia|rewrite lookup_app_l by lia; exact Hins].
      f_equal. apply redirect_app_l with (lo := length code1) (hi := S (length code1)); [|lia].
      intros k' b Hin. apply list_elem_of_singleton in Hin as [= -> ->]. lia.
Qed.

Lemma frag_star code0 code1 code2 f A :
  frag_ok classes code1 (length code0) f A -> code0 `prefix_of` code1 ->
  length code2 = S (length code1) ->
  (forall k, code2 !! k = redirect (f_pending f) (length code1) k <$>
     (code1 ++ [{| i_op := O_Split; i_next := f_start f; i_alternate := 0 |}]) !! k) ->
  frag_ok classes code2 (length code0)
    {| f_start := length code1; f_pending := [(length code1, true)] |} (fun text => l_star (A text)).
Proof.
  intros [Hpf Hf] Hp0 Hl2 Hk. pose proof (prefix_length _ _ Hp0) as Hl0. split.
  - intros k b Hin. cbn in Hin. apply list_elem_of_singleton in Hin as [= -> ->]. lia.
  - intros prog t text Hc. cbn [f_start f_pending] in *.
    apply runs_as_star with (a := f_start f).
    + specialize (Hk (length code1)). rewrite lookup_app_r, Nat.sub_diag in Hk by lia. cbn in Hk.
      rewrite (redirect_outside _ _ _ _ _ _ Hpf) in Hk by lia.
      rewrite (Hc _ _ Hl0 Hk). unfold redirect. cbn.
      rewrite bool_decide_eq_false_2 by set_solver. by rewrite bool_decide_eq_true_2 by set_solver.
    + apply Hf. intros k ins Hle Hins. pose proof (lookup_lt_Some _ _ _ Hins). specialize (Hk k).
      rewrite lookup_app_l, Hins in Hk by lia. cbn in Hk. rewrite (Hc _ _ Hle Hk). f_equal.
      apply redirect_none. intros b Hin. apply list_elem_of_singleton in Hin. assert (k = length code1) by congruence. lia.
Qed.
End Fragments.

(** ** The compiler *)
Section Compiler.
  Context (classes : list CharClass) (nodes : list Node) (limit : N).

Notation is_limit := (fun e => e = PatternLimit).

(** [m] adds to the code a fragment that means [A]. *)
Definition emits (m : C Fragment) (A : list char -> Lang) : Prop :=
  forall code, after_ok m code (fun f code' => code `prefix_of` code' /\ frag_ok classes code' (length code) f A) is_limit.

Lemma c_add_spec op next alternate code (Q : nat -> list Instruction -> Prop) :
  ((vec_len code < limit)%N -> Q (length code) (code ++ [{| i_op := op; i_next := next; i_alternate := alternate |}])) ->
  after_ok (c_add limit op next alternate) code Q is_limit.
Proof.
  intros HQ. unfold c_add. fstep. destruct (N.leb_spec limit (vec_len code)); [by fstep|]. do 2 fstep. by apply HQ.
Qed.

Lemma single_emits op : op <> O_Accept -> op <> O_Split -> emits (single limit op) (fun text => op_moves classes text op).
Proof.
  intros H1 H2 code. unfold single. apply after_ok_then. apply c_add_spec. intros Hadd. fstep.
  split; [by apply prefix_app_r|]. by apply frag_single.
Qed.

Lemma concatenate_spec base code1 code2 f g A B :
  base `prefix_of` code1 -> frag_ok classes code1 (length base) f A ->
  code1 `prefix_of` code2 -> frag_ok classes code2 (length code1) g B ->
  after_ok (concatenate f g) code2
    (fun h code' => base `prefix_of` code' /\ frag_ok classes code' (length base) h (fun text => l_then (A text) (B text)))
    is_limit.
Proof.
  intros Hb Hf Hp Hg. pose proof (prefix_length _ _ Hb) as Hlb. pose proof (prefix_length _ _ Hp) as Hlp.
  assert (pending_in (f_pending f) (length base) (length code2)) as Hin.
  { destruct Hf as [Hpf _]. intros k b H. apply Hpf in H. lia. }
  unfold concatenate. apply after_ok_then. eapply patch_spec; [exact Hin|]. intros code3 Hl Hk. fstep. split.
  - eapply patched_prefix; [|reflexivity|exact Hin|exact Hl|exact Hk]. by etrans.
  - by eapply frag_concat.
Qed.

Lemma required_spec child A copies : emits child A -> forall base code result L,
  base `prefix_of` code -> frag_ok classes code (length base) result L ->
  after_ok (required child copies result) code
    (fun f code' => base `prefix_of` code' /\
       frag_ok classes code' (length base) f (fun text => l_then (L text) (power (A text) copies))) is_limit.
Proof.
  intros Hc. induction copies as [|copies IH]; intros base code result L Hb Hr; cbn [required].
  - fstep. split; [done|]. eapply frag_equiv; [exact Hr|]. intros text i j. unfold l_then. cbn [power]. naive_solver.
  - eapply after_ok_step; [apply Hc|done|]. intros next code1 (Hp & Hn).
    eapply after_ok_step; [by apply (concatenate_spec base code code1 result next L A)|done|]. intros f code2 (Hb2 & Hf).
    eapply after_ok_mono; [by apply (IH base code2 f _ Hb2 Hf)| |done]. intros f' code3 (Hb3 & Hf'). split; [done|].
    eapply frag_equiv; [exact Hf'|]. intros text i j. cbn [power]. apply l_then_assoc.
Qed.

Lemma optional_spec child A copies : emits child A -> forall base code result L,
  base `prefix_of` code -> frag_ok classes code (length base) result L ->
  after_ok (optional limit child copies result) code
    (fun f code' => base `prefix_of` code' /\
       frag_ok classes code' (length base) f (fun text => l_then (L text) (power (l_opt (A text)) copies))) is_limit.
Proof.
  intros Hc. induction copies as [|copies IH]; intros base code result L Hb Hr; cbn [optional].
  - fstep. split; [done|]. eapply frag_equiv; [exact Hr|]. intros text i j. unfold l_then. cbn [power]. naive_solver.
  - eapply after_ok_step; [apply Hc|done|]. intros next code1 (Hp & Hn).
    apply after_ok_then. apply c_add_spec. intros Hadd.
    pose proof (frag_opt classes _ _ _ _ Hn Hp) as Ho.
    eapply after_ok_step;
      [eapply (concatenate_spec base code); [exact Hb|exact Hr|by apply prefix_app_r|exact Ho]|done|].
    intros f code2 (Hb2 & Hf).
    eapply after_ok_mono; [by apply (IH base code2 f _ Hb2 Hf)| |done]. intros f' code3 (Hb3 & Hf'). split; [done|].
    eapply frag_equiv; [exact Hf'|]. intros text i j. cbn [power]. apply l_then_assoc.
Qed.

(** The unbounded tail of a repetition. *)
Lemma star_spec child A base code result L : emits child A ->
  base `prefix_of` code -> frag_ok classes code (length base) result L ->
  after_ok (let* next := child in
            let* start := c_add limit O_Split (f_start next) 0 in
            let* _ := patch (f_pending next) start in
            concatenate result {| f_start := start; f_pending := [(start, true)] |}) code
    (fun f code' => base `prefix_of` code' /\
       frag_ok classes code' (length base) f (fun text => l_then (L text) (l_star (A text)))) is_limit.
Proof.
  intros Hc Hb Hr. eapply after_ok_step; [apply Hc|done|]. intros next code1 (Hp & Hn).
  apply after_ok_then. apply c_add_spec. intros Hadd. pose proof (prefix_length _ _ Hp) as Hl.
  assert (pending_in (f_pending next) (length code) (length code1)) as Hpn by apply Hn.
  apply after_ok_then. eapply patch_spec with (lo := length code).
  { intros k b Hin. apply Hpn in Hin. rewrite length_app. cbn. lia. }
  intros code2 Hl2 Hk. rewrite length_app in Hl2. cbn in Hl2.
  eapply (concatenate_spec base code); [exact Hb|exact Hr| |].
  - eapply (patched_prefix (code1 ++ [{| i_op := O_Split; i_next := f_start next; i_alternate := 0 |}]));
      [by apply prefix_app_r|reflexivity| |by rewrite length_app|exact Hk].
    intros k b Hin. apply Hpn in Hin. rewrite length_app. cbn. lia.
  - eapply frag_star; [exact Hn|exact Hp|lia|exact Hk].
Qed.

Lemma compile_node_spec r : forall fuel index, denotes nodes classes index r -> height r < fuel ->
  emits (compile_node nodes limit fuel index) (fun text => lang text r).
Proof.
  induction r as [|c| |cl| | |a IHa b IHb|a IHa b IHb|a IHa min max]; intros fuel index Hd Hfuel;
    (destruct fuel as [|fuel]; [lia|]); cbn [height denotes] in Hd, Hfuel; intros code; cbn [compile_node].
  1, 2, 3, 5, 6: apply after_ok_then; eapply after_ok_unwrap; [exact Hd|]; cbn; by apply single_emits.
  - destruct Hd as (k & Hd & Hk). apply after_ok_then; eapply after_ok_unwrap; [exact Hd|]. cbn.
    eapply after_ok_mono; [by apply single_emits| |done]. intros f code' [Hp Hf]. split; [done|].
    eapply frag_equiv; [exact Hf|]. intros text i j. cbn. naive_solver.
  - destruct Hd as (l & r & Hd & _ & _ & Ha & Hb). apply after_ok_then; eapply after_ok_unwrap; [exact Hd|]. cbn beta iota.
    eapply after_ok_step; [apply (IHa fuel l Ha); lia|done|]. intros f code1 (Hp1 & Hf).
    eapply after_ok_step; [apply (IHb fuel r Hb); lia|done|]. intros g code2 (Hp2 & Hg).
    by apply (concatenate_spec code code1).
  - destruct Hd as (l & r & Hd & _ & _ & Ha & Hb). apply after_ok_then; eapply after_ok_unwrap; [exact Hd|]. cbn beta iota.
    eapply after_ok_step; [apply (IHa fuel l Ha); lia|done|]. intros f code1 (Hp1 & Hf).
    eapply after_ok_step; [apply (IHb fuel r Hb); lia|done|]. intros g code2 (Hp2 & Hg).
    apply after_ok_then. apply c_add_spec. intros Hadd. fstep. split; [by do 2 (etrans; [eassumption|]); apply prefix_app_r|].
    by apply (frag_alternate classes code code1).
  - destruct Hd as (c & Hd & _ & Ha & Hmax). apply after_ok_then; eapply after_ok_unwrap; [exact Hd|]. cbn beta iota.
    assert (emits (compile_node nodes limit fuel c) (fun text => lang text a)) as Hc by (apply IHa; [done|lia]).
    eapply after_ok_step; [by apply single_emits|done|]. intros f code1 (Hp1 & Hf).
    eapply after_ok_step; [by apply (required_spec _ _ _ Hc code code1)|done|]. intros f2 code2 (Hp2 & Hf2).
    destruct max as [maximum|].
    + eapply after_ok_mono; [by apply (optional_spec _ _ _ Hc code code2)| |done]. intros f3 code3 (Hp3 & Hf3).
      split; [done|]. eapply frag_equiv; [exact Hf3|]. intros text i j. cbn in Hmax.
      cbn [lang]. rewrite <- repeat_bounded by exact Hmax. rewrite l_then_assoc. unfold l_then. cbn. naive_solver.
    + eapply after_ok_mono; [by eapply (star_spec _ _ code code2 _ _ Hc)| |done]. intros f3 code3 (Hp3 & Hf3).
      split; [done|]. eapply frag_equiv; [exact Hf3|]. intros text i j.
      cbn [lang]. rewrite <- repeat_unbounded. rewrite l_then_assoc. unfold l_then. cbn. naive_solver.
Qed.

(** Acceptance by a whole program. *)
Definition program_ok (prog : list Instruction) (s : nat) (L : list char -> Lang) : Prop :=
  forall text i, (exists n, accepts classes text prog n s i) <-> exists j, L text i j.

Lemma compile_program_spec root r : denotes nodes classes root r ->
  after_ok (compile_program nodes limit root) []
    (fun s prog => program_ok prog s (fun text => lang text r)) is_limit.
Proof.
  intros Hd. pose proof (denotes_height _ _ _ _ Hd) as Hh. unfold compile_program.
  eapply after_ok_step; [apply (compile_node_spec r); [done|lia]|done|]. intros f code (_ & Hpf & Hf).
  apply after_ok_then. apply c_add_spec. intros Hadd. apply after_ok_then.
  eapply patch_spec with (lo := 0).
  { intros k b Hin. apply Hpf in Hin. rewrite length_app. cbn in *. lia. }
  intros prog Hl Hk. fstep. intros text i.
  assert (runs_as classes text prog (f_start f) (length code) (lang text r)) as [Hfw Hbw].
  { apply Hf. intros k ins _ Hins. rewrite Hk. pose proof (lookup_lt_Some _ _ _ Hins).
    rewrite lookup_app_l by done. by rewrite Hins. }
  assert (prog !! length code = Some {| i_op := O_Accept; i_next := 0; i_alternate := 0 |}) as Hend.
  { rewrite Hk, lookup_app_r, Nat.sub_diag by lia. cbn. f_equal. eapply redirect_outside; [exact Hpf|lia]. }
  split.
  - intros [n Hn]. destruct (Hbw _ _ Hn) as (j & _ & _ & Hl' & _). by exists j.
  - intros [j Hj]. apply (Hfw i j 0 Hj). by eexists.
Qed.
End Compiler.

(** ** Compiled programs are closed *)
Section Closed.
  Context (classes : list CharClass) (nodes : list Node) (limit : N).

Notation is_limit := (fun e => e = PatternLimit).
(** Closed code within the limit. *)
Definition self_closed (code : list Instruction) : Prop :=
  code_closed classes (length code) code /\ (vec_len code <= limit)%N.
(** A fragment whose start and pending jumps are in the code. *)
Definition frag_in (code : list Instruction) (f : Fragment) : Prop :=
  f_start f < length code /\ pending_in (f_pending f) 0 (length code).
Definition closes (m : C Fragment) : Prop :=
  forall code, self_closed code ->
    after_ok m code (fun f code' => self_closed code' /\ length code <= length code' /\ frag_in code' f) is_limit.

Lemma frag_in_mono code code' f : frag_in code f -> length code <= length code' -> frag_in code' f.
Proof. intros [H1 H2] Hl. split; [lia|]. intros k b Hin. apply H2 in Hin. lia. Qed.

Lemma c_add_closed op next alternate code : (vec_len code < limit)%N -> self_closed code -> next <= length code -> alternate <= length code ->
  (forall k, op = O_Class k -> k < length classes) ->
  self_closed (code ++ [{| i_op := op; i_next := next; i_alternate := alternate |}]).
Proof.
  intros Hadd [Hc Hlim] Hn Ha Hop. split; [|unfold vec_len in *; rewrite length_app; cbn; lia].
  intros k ins Hk. rewrite length_app. cbn. apply lookup_app_Some in Hk as [Hk | [_ Hk]].
  - destruct (Hc _ _ Hk) as (? & ? & ?). split; [lia|]. split; [lia|done].
  - destruct (k - length code); [|done]. cbn in Hk. injection Hk as <-. split; [cbn; lia|]. split; [cbn; lia|done].
Qed.

Lemma patch_closed pending t code code' : self_closed code -> t < length code -> length code' = length code ->
  (forall k, code' !! k = redirect pending t k <$> code !! k) -> self_closed code'.
Proof.
  intros [Hc Hlim] Ht Hl Hk. split; [|unfold vec_len in *; by rewrite Hl].
  intros k ins Hins. rewrite Hk in Hins. apply fmap_Some in Hins as (ins0 & Hins & ->).
  destruct (Hc _ _ Hins) as (? & ? & ?). rewrite Hl. unfold redirect.
  split; [cbn; by destruct (bool_decide _)|]. split; [cbn; by destruct (bool_decide _)|done].
Qed.

Lemma single_closes op : (forall k, op = O_Class k -> k < length classes) -> closes (single limit op).
Proof.
  intros Hop code Hc. unfold single. apply after_ok_then. apply c_add_spec. intros Hadd. fstep.
  split; [apply c_add_closed; try done; lia|]. rewrite length_app. cbn. split; [lia|].
  split; [cbn; rewrite length_app; cbn; lia|]. intros k b Hin. cbn in Hin.
  apply list_elem_of_singleton in Hin as [= -> ->]. rewrite length_app. cbn. lia.
Qed.

Lemma concatenate_closed code f g : self_closed code -> frag_in code f -> frag_in code g ->
  after_ok (concatenate f g) code
    (fun h code' => self_closed code' /\ length code <= length code' /\ frag_in code' h) is_limit.
Proof.
  intros Hc [Hf Hpf] [Hg Hpg]. unfold concatenate. apply after_ok_then. eapply patch_spec; [exact Hpf|].
  intros code' Hl Hk. fstep. split; [by eapply patch_closed|]. split; [lia|]. split; cbn; rewrite Hl; done.
Qed.

Lemma required_closed child copies : closes child -> forall code result,
  self_closed code -> frag_in code result -> after_ok (required child copies result) code
    (fun h code' => self_closed code' /\ length code <= length code' /\ frag_in code' h) is_limit.
Proof.
  intros Hch. induction copies as [|copies IH]; intros code result Hc Hr; cbn [required]; [by fstep|].
  eapply after_ok_step; [by apply Hch|done|]. intros next code1 (H1 & H2 & H3).
  eapply after_ok_step; [apply concatenate_closed; [done|by eapply frag_in_mono|done]|done|].
  intros f code2 (G1 & G2 & G3). eapply after_ok_mono; [by apply IH| |done]. intros h code3 (? & ? & ?).
  split; [done|]. split; [lia|done].
Qed.

(** A split after a fragment, with its second jump pending. *)
Lemma split_frag_in code f b pending : frag_in code f -> pending_in pending 0 (length code) ->
  frag_in (code ++ [{| i_op := O_Split; i_next := f_start f; i_alternate := b |}])
    {| f_start := length code; f_pending := pending ++ [(length code, true)] |}.
Proof.
  intros [_ _] Hp. split; cbn; rewrite length_app; cbn; [lia|]. intros k b' Hin. apply elem_of_app in Hin as [Hin | Hin].
  - apply Hp in Hin. lia.
  - apply list_elem_of_singleton in Hin as [= -> ->]. lia.
Qed.

Lemma optional_closed child copies : closes child -> forall code result,
  self_closed code -> frag_in code result -> after_ok (optional limit child copies result) code
    (fun h code' => self_closed code' /\ length code <= length code' /\ frag_in code' h) is_limit.
Proof.
  intros Hch. induction copies as [|copies IH]; intros code result Hc Hr; cbn [optional]; [by fstep|].
  eapply after_ok_step; [by apply Hch|done|]. intros next code1 (H1 & H2 & H3).
  apply after_ok_then. apply c_add_spec. intros Hadd.
  eapply after_ok_step.
  { apply concatenate_closed.
    - apply c_add_closed; try done; [|lia]. destruct H3. lia.
    - eapply frag_in_mono; [exact Hr|]. rewrite length_app. lia.
    - apply split_frag_in; [done|by destruct H3]. }
  { done. }
  intros f code2 (G1 & G2 & G3). rewrite length_app in G2. eapply after_ok_mono; [by apply IH| |done].
  intros h code3 (? & ? & ?). split; [done|]. split; [lia|done].
Qed.

Lemma star_closed child code result : closes child -> self_closed code -> frag_in code result ->
  after_ok (let* next := child in
            let* start := c_add limit O_Split (f_start next) 0 in
            let* _ := patch (f_pending next) start in
            concatenate result {| f_start := start; f_pending := [(start, true)] |}) code
    (fun h code' => self_closed code' /\ length code <= length code' /\ frag_in code' h) is_limit.
Proof.
  intros Hch Hc Hr. eapply after_ok_step; [by apply Hch|done|]. intros next code1 (H1 & H2 & H3).
  apply after_ok_then. apply c_add_spec. intros Hadd. apply after_ok_then.
  pose proof (split_frag_in code1 next 0 [] H3 ltac:(intros ? ? Hin; by apply not_elem_of_nil in Hin)) as Hs.
  destruct H3 as [Hn Hpn]. eapply patch_spec with (lo := 0).
  { intros k b Hin. apply Hpn in Hin. rewrite length_app. lia. }
  intros code2 Hl Hk. rewrite length_app in Hl. cbn in Hl.
  eapply after_ok_mono; [apply concatenate_closed| |done].
  - eapply patch_closed; [apply c_add_closed; [exact Hadd|exact H1| | |]| | |exact Hk]; try done; try lia; rewrite ?length_app; cbn; lia.
  - eapply frag_in_mono; [exact Hr|lia].
  - eapply frag_in_mono; [exact Hs|]. rewrite length_app. cbn. lia.
  - intros h code3 (? & ? & ?). split; [done|]. split; [lia|done].
Qed.

Lemma compile_node_closes r : forall fuel index, denotes nodes classes index r -> height r < fuel ->
  closes (compile_node nodes limit fuel index).
Proof.
  induction r as [|c| |cl| | |a IHa b IHb|a IHa b IHb|a IHa min max]; intros fuel index Hd Hfuel;
    (destruct fuel as [|fuel]; [lia|]); cbn [height denotes] in Hd, Hfuel; intros code Hcode; cbn [compile_node].
  1, 2, 3, 5, 6: apply after_ok_then; eapply after_ok_unwrap; [exact Hd|]; cbn; by apply single_closes.
  - destruct Hd as (k & Hd & Hk). apply after_ok_then; eapply after_ok_unwrap; [exact Hd|]. cbn.
    apply single_closes; [|done]. intros k' [= <-]. by apply lookup_lt_Some in Hk.
  - destruct Hd as (l & r & Hd & _ & _ & Ha & Hb). apply after_ok_then; eapply after_ok_unwrap; [exact Hd|]. cbn beta iota.
    eapply after_ok_step; [apply (IHa fuel l Ha); [lia|done]|done|]. intros f code1 (H1 & H2 & H3).
    eapply after_ok_step; [apply (IHb fuel r Hb); [lia|done]|done|]. intros g code2 (G1 & G2 & G3).
    eapply after_ok_mono; [apply concatenate_closed; [done|by eapply frag_in_mono|done]| |done].
    intros h code3 (? & ? & ?). split; [done|]. split; [lia|done].
  - destruct Hd as (l & r & Hd & _ & _ & Ha & Hb). apply after_ok_then; eapply after_ok_unwrap; [exact Hd|]. cbn beta iota.
    eapply after_ok_step; [apply (IHa fuel l Ha); [lia|done]|done|]. intros f code1 (H1 & H2 & [H3 H4]).
    eapply after_ok_step; [apply (IHb fuel r Hb); [lia|done]|done|]. intros g code2 (G1 & G2 & [G3 G4]).
    apply after_ok_then. apply c_add_spec. intros Hadd. fstep. split; [apply c_add_closed; try done; lia|].
    unfold frag_in. rewrite length_app. cbn. split; [lia|]. split; [lia|].
    intros k b' Hin. apply elem_of_app in Hin as [Hin | Hin]; [apply H4 in Hin|apply G4 in Hin]; lia.
  - destruct Hd as (c & Hd & _ & Ha & Hmax). apply after_ok_then; eapply after_ok_unwrap; [exact Hd|]. cbn beta iota.
    assert (closes (compile_node nodes limit fuel c)) as Hc by (apply IHa; [done|lia]).
    eapply after_ok_step; [by apply single_closes|done|]. intros f code1 (H1 & H2 & H3).
    eapply after_ok_step; [by apply (required_closed _ _ Hc)|done|]. intros f2 code2 (G1 & G2 & G3).
    eapply after_ok_mono with (Q := fun h code' => self_closed code' /\ length code2 <= length code' /\ frag_in code' h);
      [destruct max; [by apply optional_closed|by apply star_closed]| |done].
    intros h code3 (? & ? & ?). split; [done|]. split; [lia|done].
Qed.

Lemma compile_program_closed root r : denotes nodes classes root r ->
  after_ok (compile_program nodes limit root) []
    (fun s prog => pattern_closed (Build_Pattern prog classes s) /\ (vec_len prog <= limit)%N) is_limit.
Proof.
  intros Hd. pose proof (denotes_height _ _ _ _ Hd) as Hh. unfold compile_program.
  eapply after_ok_step; [apply (compile_node_closes r); [done|lia|]|done|].
  { split; [done|unfold vec_len; cbn; lia]. }
  intros f code (H1 & _ & [H3 H4]). apply after_ok_then. apply c_add_spec. intros Hadd. apply after_ok_then.
  eapply patch_spec with (lo := 0).
  { intros k b Hin. apply H4 in Hin. rewrite length_app. lia. }
  intros prog Hl Hk. fstep.
  assert (self_closed prog) as [Hp Hlim].
  { eapply patch_closed; [apply c_add_closed; [exact Hadd|exact H1| | |]| | |exact Hk]; try done; try lia;
      rewrite ?length_app; cbn; lia. }
  split; [|done]. split; [|done]. cbn. rewrite length_app in Hl. lia.
Qed.
End Closed.
