(* ===== verification/RegexSearch.v ===== *)
(** * The search decides ([mcp/schema/pattern.rs])

    The states that the search keeps at a position are those that some run of the program
    has reached; [matches] answers whether one of them accepts, it never panics, and it
    fails only when the budget is smaller than a bound on the work. *)
From S2P Require Import Prelude Fallible Schema UnicodeLetter SchemaPattern RegexLang RegexClosure.

(** ** Classes *)
Lemma ranges_match_spec ranges value limit steps :
  after_ok (ranges_match ranges value limit) steps
    (fun b n => (b = true <-> exists first last, (first, last) ∈ ranges /\ (first <= value <= last)%N) /\
       (steps <= n <= steps + vec_len ranges)%N) (over limit (steps + vec_len ranges)).
Proof.
  revert steps. induction ranges as [|[a b] ranges IH]; intros steps; cbn [ranges_match].
  - fstep. unfold vec_len. cbn. split; [|lia]. split; [done|]. intros (? & ? & Hin & _). by apply not_elem_of_nil in Hin.
  - unfold vec_len in *. cbn [length]. eapply after_ok_step; [apply consume_spec| |].
    { intros e He. eapply over_mono; [exact He|]. lia. }
    intros _ n ->. destruct ((a <=? value)%N && (value <=? b)%N) eqn:Eb.
    + fstep. bool_to_prop. split; [|lia]. split; [|done]. intros _. exists a, b. split; [by left|lia].
    + eapply after_ok_mono; [apply IH| |].
      * intros r n [Hr Hn]. split; [|lia]. rewrite Hr. split; intros (c & d & Hin & Hc).
        -- exists c, d. split; [by right|done].
        -- apply elem_of_cons in Hin as [[= -> ->] | Hin]; [|by exists c, d].
           apply andb_false_iff in Eb as [Eb | Eb]; apply N.leb_gt in Eb; lia.
      * intros e He. eapply over_mono; [exact He|]. lia.
Qed.

(** The flags of a class, without its ranges. *)
Definition flags_have (cl : CharClass) (c : char) : Prop :=
  flag (c_flags cl) 1 = true /\ char_is_digit c = true \/
  flag (c_flags cl) 2 = true /\ (char_is_alphanumeric c = true \/ c = ch "_") \/
  flag (c_flags cl) 4 = true /\ whitespace c = true \/
  flag (c_flags cl) 8 = true /\ whitespace c = false \/
  flag (c_flags cl) 16 = true /\ exists first last, (first, last) ∈ RANGES /\ (first <= c <= last)%N.

Lemma flags_spec cl value (steps : N) :
  after_ok (if flag (c_flags cl) 1 && char_is_digit value
               || flag (c_flags cl) 2 && (char_is_alphanumeric value || (value =? ch "_")%N)
               || flag (c_flags cl) 4 && whitespace value
               || flag (c_flags cl) 8 && negb (whitespace value) then mok true
            else if flag (c_flags cl) 16 then munwrap (letter_contains value) else mok false) steps
    (fun b n => (b = true <-> flags_have cl value) /\ n = steps) (fun _ : PatternError => False).
Proof.
  unfold flags_have. destruct (contains_exact value) as (b & Hb & Hbe).
  set (f16 := flag (c_flags cl) 16). match goal with |- after_ok (if ?t then _ else _) _ _ _ => destruct t eqn:Et end.
  - fstep. split; [|done]. rewrite <- Hbe. split; [intros _|done].
    rewrite !orb_true_iff, !andb_true_iff, orb_true_iff, negb_true_iff, N.eqb_eq in Et. tauto.
  - rewrite !orb_false_iff, !andb_false_iff, orb_false_iff, negb_false_iff, N.eqb_neq in Et.
    destruct Et as [[[E1 E2] E3] E4]. destruct f16.
    + eapply after_ok_unwrap; [exact Hb|]. split; [|done]. rewrite <- Hbe.
      split; [tauto|]. intros [[? ?] | [[? [? | ?]] | [[? ?] | [[? ?] | [? ?]]]]];
        destruct E1, E2 as [? | [? ?]], E3, E4; congruence.
    + fstep. split; [|done]. split; [done|].
      intros [[? ?] | [[? [? | ?]] | [[? ?] | [[? ?] | [? ?]]]]]; destruct E1, E2 as [? | [? ?]], E3, E4; congruence.
Qed.

Lemma class_matches_spec cl value limit steps :
  after_ok (class_matches cl value limit) steps
    (fun b n => (b = true <-> class_has cl value) /\ (steps <= n <= steps + 1 + vec_len (c_ranges cl))%N)
    (over limit (steps + 1 + vec_len (c_ranges cl))).
Proof.
  unfold class_matches. eapply after_ok_step; [apply consume_spec| |].
  { intros e He. eapply over_mono; [exact He|]. lia. }
  intros _ n ->. eapply after_ok_step; [apply flags_spec|done|]. intros b n [Hb ->].
  assert (forall m : bool, (m = true <-> class_member cl value) ->
    (negb (eqb m (c_negated cl)) = true <-> class_has cl value)) as Hneg.
  { intros m Hm. unfold class_has. destruct (c_negated cl), m; cbn; naive_solver. }
  assert (class_member cl value <-> flags_have cl value \/
    exists first last, (first, last) ∈ c_ranges cl /\ (first <= value <= last)%N) as Hmem.
  { unfold class_member, flags_have. tauto. }
  destruct b.
  - do 2 fstep. split; [|lia]. apply Hneg. rewrite Hmem. naive_solver.
  - eapply after_ok_step; [apply ranges_match_spec| |].
    { intros e He. eapply over_mono; [exact He|]. lia. }
    intros b n [Hr Hn]. fstep. split; [|lia]. apply Hneg. rewrite Hmem, Hr.
    assert (~ flags_have cl value) by (intros H; by apply Hb in H). tauto.
Qed.

(** ** Cursors *)
Lemma len_utf8_pos c : (0 < len_utf8 c)%N.
Proof. unfold len_utf8. by repeat destruct (_ <? _)%N. Qed.

Lemma text_len_app a b : text_len (a ++ b) = (text_len a + text_len b)%N.
Proof. induction a as [|c a IH]; cbn; [done|]. rewrite IH. lia. Qed.

Lemma text_len_zero t : text_len t = 0%N -> t = [].
Proof. destruct t as [|c t]; [done|]. cbn. pose proof (len_utf8_pos c). lia. Qed.

(** The byte at which the character of index [i] starts. *)
Definition cursor_of (text : list char) (i : nat) : N := text_len (take i text).

Lemma cursor_start text i : i <= length text -> (cursor_of text i =? 0)%N = bool_decide (i = 0).
Proof.
  intros Hi. unfold cursor_of. case_bool_decide as H.
  - by rewrite H.
  - apply N.eqb_neq. intros Hz. apply text_len_zero in Hz. apply (f_equal length) in Hz.
    rewrite length_take in Hz. cbn in Hz. lia.
Qed.

Lemma cursor_end text i : i <= length text -> (cursor_of text i =? text_len text)%N = bool_decide (i = length text).
Proof.
  intros Hi. unfold cursor_of. case_bool_decide as H.
  - rewrite H, firstn_all. apply N.eqb_refl.
  - apply N.eqb_neq. intros Hz.
    assert (text_len text = text_len (take i text) + text_len (drop i text))%N as Hsum
      by (by rewrite <- text_len_app, take_drop).
    assert (text_len (drop i text) = 0%N) as Hd by lia.
    apply text_len_zero in Hd. apply (f_equal length) in Hd. rewrite length_drop in Hd. cbn in Hd. lia.
Qed.

Lemma str_from_app a b : str_from (a ++ b) (text_len a) = Some b.
Proof.
  induction a as [|c a IH]; cbn [app text_len].
  - by destruct b.
  - cbn [str_from]. pose proof (len_utf8_pos c).
    destruct (N.eqb_spec (len_utf8 c + text_len a) 0) as [?|_]; [lia|].
    destruct (N.ltb_spec (len_utf8 c + text_len a) (len_utf8 c)) as [?|_]; [lia|].
    replace (len_utf8 c + text_len a - len_utf8 c)%N with (text_len a) by lia. done.
Qed.

Lemma str_from_cursor text i : str_from text (cursor_of text i) = Some (drop i text).
Proof. rewrite <- (take_drop i text) at 1. apply str_from_app. Qed.

Lemma cursor_next text i c : text !! i = Some c -> cursor_of text (S i) = (cursor_of text i + len_utf8 c)%N.
Proof.
  intros H. unfold cursor_of. rewrite (take_S_r _ _ c H), text_len_app. cbn. lia.
Qed.

(** ** Runs *)
Section Runs.
  Context (p : Pattern) (text : list char).
  Notation prog := (instructions p).
  Notation E := (edge (classes p) text prog).

Lemma edge_cases s i t j : E (s, i) (t, j) ->
  j = i /\ eps_step p text i s t \/ j = S i /\ core p s.
Proof.
  intros (ins & Hins & Hm & Ht). cbn in *.
  destruct (i_op ins) eqn:Eop; cbn in Hm; try done.
  1, 5, 6, 7: left; (assert (j = i) as -> by (try destruct Hm; congruence)); split; [done|];
    exists ins; rewrite Eop; done.
  all: right; destruct Hm as [_ ->]; split; [done|]; exists ins; by rewrite Eop.
Qed.

Lemma eps_edge s t i : eps_step p text i s t -> E (s, i) (t, i).
Proof. intros (ins & Hins & _ & Hm & Ht). by exists ins. Qed.

Lemma eps_reach_runs s t i : rtc (eps_step p text i) s t -> rtc E (s, i) (t, i).
Proof. induction 1 as [|a b c Hab _ IH]; [done|]. eapply rtc_l; [by apply eps_edge|done]. Qed.

Lemma runs_mono x y : rtc E x y -> x.2 <= y.2.
Proof.
  induction 1 as [|[a i] [b j] [c k] Hab _ IH]; [done|]. cbn in *.
  apply edge_cases in Hab as [[-> _] | [-> _]]; lia.
Qed.

(** A run that reads nothing. *)
Lemma runs_same s t i : rtc E (s, i) (t, i) <-> rtc (eps_step p text i) s t.
Proof.
  split; [|apply eps_reach_runs].
  intros H. remember (s, i) as x eqn:Ex. remember (t, i) as y eqn:Ey. revert s Ex.
  induction H as [x|x [b j] y Hab Hby IH]; intros s ->; [injection Ey as <-; constructor|]. subst y.
  pose proof (runs_mono _ _ Hby) as Hm. cbn in Hm.
  apply edge_cases in Hab as [[-> Hab] | [-> _]]; [|lia]. eapply rtc_l; [exact Hab|]. by apply IH.
Qed.

(** The last character that a run reads. *)
Lemma runs_last s t i0 i : i0 <= i -> rtc E (s, i0) (t, S i) <->
  exists q q', rtc E (s, i0) (q, i) /\ core p q /\ E (q, i) (q', S i) /\ rtc (eps_step p text (S i)) q' t.
Proof.
  intros Hle. split.
  - intros H. enough (forall z, rtc E (s, i0) z -> forall t, z = (t, S i) ->
      exists q q', rtc E (s, i0) (q, i) /\ core p q /\ E (q, i) (q', S i) /\ rtc (eps_step p text (S i)) q' t) by eauto.
    clear t H. apply (rtc_ind_r (fun z => forall t, z = (t, S i) ->
      exists q q', rtc E (s, i0) (q, i) /\ core p q /\ E (q, i) (q', S i) /\ rtc (eps_step p text (S i)) q' t)).
    + intros t [= -> ->]. lia.
    + intros [b j] y Hxb Hby IH t ->. destruct (edge_cases _ _ _ _ Hby) as [[<- Heps] | [[= <-] Hc]].
      * destruct (IH b eq_refl) as (q & q' & H1 & H2 & H3 & H4). exists q, q'.
        split; [done|]. split; [done|]. split; [done|]. eapply rtc_r; [exact H4|done].
      * exists b, t. split; [done|]. split; [done|]. split; [done|constructor].
  - intros (q & q' & H1 & _ & H3 & H4). etrans; [exact H1|]. eapply rtc_l; [exact H3|]. by apply eps_reach_runs.
Qed.

Definition accepting (k : nat) : Prop := exists ins, prog !! k = Some ins /\ i_op ins = O_Accept.

Lemma accepts_runs s i : (exists n, accepts (classes p) text prog n s i) <->
  exists k j, rtc E (s, i) (k, j) /\ accepting k.
Proof.
  split.
  - intros [n Hn]. revert s i Hn. induction n as [|n IH]; intros s i Hn; cbn in Hn.
    + exists s, i. split; [constructor|done].
    + destruct Hn as (t & j & He & Hn). destruct (IH _ _ Hn) as (k & j' & Hr & Ha). exists k, j'. split; [|done].
      by eapply rtc_l.
  - intros (k & j & Hr & Ha). remember (s, i) as x eqn:Ex. remember (k, j) as y eqn:Ey. revert s i Ex.
    induction Hr as [x|x [b jb] y Hab _ IH]; intros s i ->.
    + injection Ey as -> ->. by exists 0.
    + subst y. destruct (IH eq_refl b jb eq_refl) as [n Hn]. exists (S n). by exists b, jb.
Qed.

Lemma runs_bounded s i k j : i <= length text -> rtc E (s, i) (k, j) -> j <= length text.
Proof.
  intros Hi H. remember (s, i) as x eqn:Ex. remember (k, j) as y eqn:Ey. revert s i Hi Ex.
  induction H as [x|x [b jb] y Hab _ IH]; intros s i Hi ->; [by injection Ey as <- <-|]. subst y.
  eapply IH; [done| |done]. destruct Hab as (ins & _ & Hm & _). cbn in Hm.
  destruct (i_op ins); cbn in Hm; try lia; destruct Hm as [Hm ->]; try lia.
  - by apply lookup_lt_Some in Hm.
  - destruct Hm as (c & Hm & _). by apply lookup_lt_Some in Hm.
  - destruct Hm as (c & cl & Hm & _). by apply lookup_lt_Some in Hm.
Qed.
End Runs.

(** ** The loop over the text *)
Section Loop.
  Context (p : Pattern) (text : list char) (limit rmax : N).
  Notation prog := (instructions p).
  Notation n := (length prog).
  Notation E := (edge (classes p) text prog).
  Context (Hclosed : pattern_closed p).
  Context (Hranges : forall cl, cl ∈ classes p -> (vec_len (c_ranges cl) <= rmax)%N).

Lemma with_current_spec {A} (m : Cl A) s Q F :
  after_ok m (m_current s, m_work s)
    (fun a x => Q a {| m_current := x.1; m_next := m_next s; m_work := x.2 |}) F -> after_ok (with_current m) s Q F.
Proof. unfold after_ok, after, with_current. by destruct (m _) as [[[a|e] [c w]]|]. Qed.
Lemma with_next_spec {A} (m : Cl A) s Q F :
  after_ok m (m_next s, m_work s)
    (fun a x => Q a {| m_current := m_current s; m_next := x.1; m_work := x.2 |}) F -> after_ok (with_next m) s Q F.
Proof. unfold after_ok, after, with_next. by destruct (m _) as [[[a|e] [c w]]|]. Qed.

Definition with_matching_steps (s : Matching) (k : N) : Matching :=
  {| m_current := m_current s; m_next := m_next s; m_work := with_steps (m_work s) k |}.

Lemma op_matches_spec index ins value i s : prog !! index = Some ins -> text !! i = Some value ->
  after_ok (op_matches p limit (i_op ins) value) s
    (fun b s' => (b = true <-> op_moves (classes p) text (i_op ins) i (S i)) /\
       exists k, s' = with_matching_steps s k /\ (steps (m_work s) <= k <= steps (m_work s) + 1 + rmax)%N)
    (over limit (steps (m_work s) + 1 + rmax)).
Proof.
  intros Hins Hv. assert (s = with_matching_steps s (steps (m_work s))) as Hs by (by destruct s as [? ? []]).
  assert (forall b : bool, (b = true <-> op_moves (classes p) text (i_op ins) i (S i)) ->
    after_ok (mok b) s
    (fun b s' => (b = true <-> op_moves (classes p) text (i_op ins) i (S i)) /\
       exists k, s' = with_matching_steps s k /\ (steps (m_work s) <= k <= steps (m_work s) + 1 + rmax)%N)
    (over limit (steps (m_work s) + 1 + rmax))) as Hpure.
  { intros b Hb. fstep. split; [done|]. exists (steps (m_work s)). split; [done|lia]. }
  destruct (i_op ins) eqn:Eop; cbn [op_matches]; try (apply Hpure; cbn; naive_solver lia).
  - apply Hpure. cbn. rewrite N.eqb_eq, Hv. naive_solver.
  - apply Hpure. cbn. rewrite negb_true_iff, Hv. naive_solver.
  - destruct Hclosed as [_ Hc]. destruct (Hc _ _ Hins) as (_ & _ & Hcl). specialize (Hcl _ Eop).
    destruct (lookup_lt_is_Some_2 _ _ Hcl) as [cl Hcl'].
    apply after_ok_then. eapply after_ok_unwrap; [exact Hcl'|].
    pose proof (Hranges cl (list_elem_of_lookup_2 _ _ _ Hcl')) as Hr.
    apply counted_spec. eapply after_ok_mono; [apply class_matches_spec| |].
    + intros b k [Hb Hk]. split; [|by exists k; split; [done|lia]]. rewrite Hb. cbn. rewrite Hv. naive_solver.
    + intros e He. eapply over_mono; [exact He|]. lia.
Qed.

Lemma work_wf_steps w k : work_wf p w -> (steps w <= k)%N -> work_wf p (with_steps w k).
Proof. intros (H1 & H2 & H3) Hk. split; [done|]. split; [done|]. cbn. lia. Qed.

(** What one character takes at most, for one state. *)
Definition state_cost : N := rmax + 2 + N.of_nat n.

(** What the states [indices] reach over one character. *)
Definition advances (i : nat) (indices : list nat) (k : nat) : Prop := core p k /\ exists q ins, q ∈ indices /\ prog !! q = Some ins /\
  op_moves (classes p) text (i_op ins) i (S i) /\ rtc (eps_step p text (S i)) (i_next ins) k.
Lemma advances_cons i q ins indices k : prog !! q = Some ins -> advances i (q :: indices) k <->
  core p k /\ op_moves (classes p) text (i_op ins) i (S i) /\ rtc (eps_step p text (S i)) (i_next ins) k \/ advances i indices k.
Proof.
  intros Hins. split.
  - intros (Hc & q' & ins' & Hin & Hi' & Hm & Hr). apply elem_of_cons in Hin as [-> | Hin].
    + left. assert (ins' = ins) as -> by congruence. done.
    + right. split; [done|]. by exists q', ins'.
  - intros [(Hc & Hm & Hr) | (Hc & q' & ins' & Hin & Hrest)].
    + split; [done|]. exists q, ins. split; [by left|done].
    + split; [done|]. exists q', ins'. split; [by right|done].
Qed.

Lemma advance_all_spec value i : text !! i = Some value -> forall indices s,
  Forall (fun k => k < n) indices -> states_wf p (m_next s) -> work_wf p (m_work s) ->
  after_ok (advance_all p (text_len text) limit indices value (cursor_of text (S i))) s
    (fun _ s' => m_current s' = m_current s /\ states_wf p (m_next s') /\ work_wf p (m_work s') /\
       (steps (m_work s') <= steps (m_work s) + vec_len indices * state_cost)%N /\
       forall k, k ∈ active (m_next s') <-> k ∈ active (m_next s) \/ advances i indices k)
    (over limit (steps (m_work s) + vec_len indices * state_cost)).
Proof.
  intros Hv. pose proof (lookup_lt_Some _ _ _ Hv) as Hi.
  induction indices as [|q indices IH]; intros s Hlt Hwf Hw; cbn [advance_all].
  { fstep. split; [done|]. split; [done|]. split; [done|]. split; [lia|]. intros k. split; [by left|].
    intros [? | (_ & q & ins & Hin & _)]; [done|]. by apply not_elem_of_nil in Hin. }
  apply Forall_cons in Hlt as [Hq Hlt]. destruct (lookup_lt_is_Some_2 _ _ Hq) as [ins Hins].
  apply after_ok_then. eapply after_ok_unwrap; [exact Hins|].
  assert (vec_len (q :: indices) * state_cost = state_cost + vec_len indices * state_cost)%N as Hlen.
  { unfold vec_len. cbn [length]. lia. }
  rewrite Hlen. clear Hlen. assert (1 + rmax + 1 + N.of_nat n = state_cost)%N as Hsc by (unfold state_cost; lia).
  eapply after_ok_step; [by apply (op_matches_spec q ins value i)| |].
  { intros e He. eapply over_mono; [exact He|]. lia. }
  intros b s1 (Hb & k1 & -> & Hk1). destruct Hclosed as [_ Hcode]. destruct (Hcode _ _ Hins) as (Hnext & _).
  set (Q := fun (_ : unit) s2 => m_current s2 = m_current s /\ states_wf p (m_next s2) /\ work_wf p (m_work s2) /\
       (steps (m_work s2) <= steps (m_work s) + state_cost)%N /\
       forall k, k ∈ active (m_next s2) <-> k ∈ active (m_next s) \/
         core p k /\ op_moves (classes p) text (i_op ins) i (S i) /\ rtc (eps_step p text (S i)) (i_next ins) k).
  eapply (after_ok_step _ _ _ Q (over limit (steps (m_work s) + state_cost))).
  - destruct b.
    + apply after_ok_then, counted_spec. eapply after_ok_mono; [apply consume_spec| |].
      2: { intros e He. eapply over_mono; [exact He|]. cbn. lia. }
      intros _ k2 ->. apply with_next_spec.
      eapply after_ok_mono; [apply (closure_spec p text limit (S i)); try done| |].
      * apply cursor_start. lia.
      * apply cursor_end. lia.
      * apply work_wf_steps; [|cbn; lia]. apply work_wf_steps; [done|lia].
      * intros ? [s3 w3] (H1 & H2 & H3 & H4). cbn in *. unfold Q. cbn. split; [done|]. split; [done|]. split; [done|].
        split; [lia|]. intros k. rewrite H4.
        assert (op_moves (classes p) text (i_op ins) i (S i)) by (by apply Hb). tauto.
      * intros e He. eapply over_mono; [exact He|]. cbn. lia.
    + fstep. unfold Q. cbn. split; [done|]. split; [done|]. split; [apply work_wf_steps; [done|lia]|].
      split; [lia|]. intros k. split; [by left|]. intros [? | (_ & Hm & _)]; [done|]. by apply Hb in Hm.
  - intros e He. eapply over_mono; [exact He|]. lia.
  - intros _ s2 (H1 & H2 & H3 & H4 & H5). eapply after_ok_mono; [apply (IH s2); done| |].
    + intros _ s3 (G1 & G2 & G3 & G4 & G5). split; [congruence|]. split; [done|]. split; [done|]. split; [lia|].
      intros k. rewrite G5, H5, (advances_cons i q ins indices k Hins). tauto.
    + intros e He. eapply over_mono; [exact He|]. lia.
Qed.

Lemma clear_present_spec indices pres : Forall (fun k => k < length pres) indices ->
  exists pres', clear_present indices pres = Some pres' /\ length pres' = length pres /\
    forall k, pres' !! k = Some true <-> pres !! k = Some true /\ k ∉ indices.
Proof.
  revert pres. induction indices as [|q indices IH]; intros pres Hlt; cbn [clear_present].
  { exists pres. split; [done|]. split; [done|]. set_solver. }
  apply Forall_cons in Hlt as [Hq Hlt]. destruct (lookup_lt_is_Some_2 _ _ Hq) as [b Hb]. rewrite Hb. cbn.
  destruct (IH (<[q := false]> pres)) as (pres' & -> & Hl & Hp).
  { by rewrite length_insert. }
  exists pres'. rewrite length_insert in Hl. split; [done|]. split; [done|]. intros k. rewrite Hp.
  destruct (decide (k = q)) as [->|Hne].
  - rewrite list_lookup_insert_eq by done. set_solver.
  - rewrite list_lookup_insert_ne by done. set_solver.
Qed.

Lemma clear_next_spec s : states_wf p (m_next s) ->
  after_ok clear_next s (fun _ s' => exists st, s' = {| m_current := m_current s; m_next := st; m_work := m_work s |} /\
    states_wf p st /\ active st = []) (fun _ => False).
Proof.
  intros (Hl & Hnd & Hp). unfold clear_next. fstep.
  destruct (clear_present_spec (active (m_next s)) (present (m_next s))) as (pres & Hc & Hlen & Hk).
  { apply Forall_forall. intros k Hin. apply Hp in Hin. by apply lookup_lt_Some in Hin. }
  apply after_ok_then. eapply after_ok_unwrap; [unfold states_clear; rewrite Hc; reflexivity|]. fstep. eexists. split; [done|]. split; [|done].
  split; [cbn; lia|]. split; [constructor|]. intros k. cbn. rewrite Hk, Hp. split; [naive_solver|].
  intros Hin. by apply not_elem_of_nil in Hin.
Qed.

Lemma any_accept_spec indices : Forall (fun k => k < n) indices ->
  exists b, any_accept p indices = Some b /\ (b = true <-> exists k, k ∈ indices /\ accepting p k).
Proof.
  induction indices as [|q indices IH]; intros Hlt; cbn [any_accept].
  { exists false. split; [done|]. split; [done|]. intros (k & Hin & _). by apply not_elem_of_nil in Hin. }
  apply Forall_cons in Hlt as [Hq Hlt]. destruct (lookup_lt_is_Some_2 _ _ Hq) as [ins Hins]. rewrite Hins. cbn.
  destruct (IH Hlt) as (b & Hb & Hbe). destruct (is_accept (i_op ins)) eqn:Ea.
  - exists true. split; [done|]. split; [|done]. intros _. exists q. split; [by left|]. exists ins.
    split; [done|]. by destruct (i_op ins).
  - exists b. split; [done|]. rewrite Hbe. split.
    + intros (k & Hin & Ha). exists k. split; [by right|done].
    + intros (k & Hin & ins' & Hi' & Ha). apply elem_of_cons in Hin as [-> | Hin].
      * assert (ins' = ins) as -> by congruence. by rewrite Ha in Ea.
      * exists k. split; [done|]. by exists ins'.
Qed.

Lemma active_length s : states_wf p s -> length (active s) <= n.
Proof.
  intros Hwf. pose proof (states_wf_bound p s) as Hb. destruct Hwf as (Hl & Hnd & Hp).
  replace n with (length (seq 0 n)) by apply length_seq. apply NoDup_incl_length; [by apply NoDup_ListNoDup|].
  intros k Hk. apply list_elem_of_In in Hk. apply in_seq. assert (k < n); [|lia]. apply (Hb k); [|done]. by split.
Qed.

(** The states of the search at position [i], before the start is added. *)
Definition reached (i : nat) (k : nat) : Prop := core p k /\ exists i0, i0 < i /\ rtc E (start p, i0) (k, i).
(** A match that ends before position [i]. *)
Definition accepted_before (i : nat) : Prop :=
  exists i0 k j, i0 <= j /\ j < i /\ rtc E (start p, i0) (k, j) /\ accepting p k.

Definition position_cost : N := N.of_nat n + N.of_nat n * state_cost.

Lemma reached_step i value (l : list nat) : text !! i = Some value ->
  (forall k, k ∈ l <-> core p k /\ exists i0, i0 <= i /\ rtc E (start p, i0) (k, i)) -> forall k,
  (core p k /\ exists q ins, q ∈ l /\ prog !! q = Some ins /\
     op_moves (classes p) text (i_op ins) i (S i) /\ rtc (eps_step p text (S i)) (i_next ins) k) <-> reached (S i) k.
Proof.
  intros Hv Hl k. split.
  - intros (Hc & q & ins & Hq & Hins & Hm & Hr). split; [done|]. apply Hl in Hq as (Hcq & i0 & Hi0 & Hrq).
    exists i0. split; [lia|]. apply runs_last; [lia|]. exists q, (i_next ins).
    split; [done|]. split; [done|]. split; [|done]. exists ins. split; [done|]. split; [done|by left].
  - intros (Hc & i0 & Hi0 & Hr). split; [done|]. apply runs_last in Hr as (q & q' & H1 & H2 & H3 & H4); [|lia].
    destruct H3 as (ins & Hins & Hm & Ht). cbn in *. exists q, ins. split; [apply Hl; split; [done|]; exists i0; split; [lia|done]|].
    split; [done|]. split; [done|]. destruct Ht as [-> | [Hs _]]; [done|].
    destruct H2 as (ins' & Hins' & Hc'). assert (ins' = ins) as -> by congruence. by rewrite Hs in Hc'.
Qed.

Lemma with_start i (l l' : list nat) : i <= length text -> (forall k, k ∈ l <-> reached i k) ->
  (forall k, k ∈ l' <-> k ∈ l \/ core p k /\ rtc (eps_step p text i) (start p) k) ->
  forall k, k ∈ l' <-> core p k /\ exists i0, i0 <= i /\ rtc E (start p, i0) (k, i).
Proof.
  intros Hi Hl Hl' k. rewrite Hl', Hl. unfold reached. split.
  - intros [(Hc & i0 & ? & ?) | (Hc & Hr)].
    + split; [done|]. exists i0. split; [lia|done].
    + split; [done|]. exists i. split; [lia|]. by apply runs_same.
  - intros (Hc & i0 & Hi0 & Hr). destruct (decide (i0 = i)) as [->|].
    + right. split; [done|]. by apply runs_same in Hr.
    + left. split; [done|]. exists i0. split; [lia|done].
Qed.

(** Whether an accepting instruction was reached at [i]. *)
Definition accepted_at (i : nat) : Prop := exists i0 k, i0 <= i /\ rtc E (start p, i0) (k, i) /\ accepting p k.
Lemma accepted_here i (l : list nat) : (forall k, k ∈ l <-> core p k /\ exists i0, i0 <= i /\ rtc E (start p, i0) (k, i)) ->
  (exists k, k ∈ l /\ accepting p k) <-> accepted_at i.
Proof.
  intros Hall. split.
  - intros (k & Hk & Ha). apply Hall in Hk as (_ & i0 & ? & ?). by exists i0, k.
  - intros (i0 & k & Hi0 & Hr & Ha). exists k. split; [|done]. apply Hall. split; [|by exists i0].
    destruct Ha as (ins & Hins & Ha). exists ins. by rewrite Ha.
Qed.
Lemma not_accepted_next i : ~ accepted_before i -> ~ accepted_at i -> ~ accepted_before (S i).
Proof.
  intros Hno Hat (i0 & k & j & Hij & Hj & Hr & Ha). destruct (decide (j = i)) as [->|].
  - apply Hat. by exists i0, k.
  - apply Hno. exists i0, k, j. split; [done|]. split; [lia|done].
Qed.

Lemma matches_go_spec fuel i s : i <= length text -> length text - i < fuel ->
  states_wf p (m_current s) -> states_wf p (m_next s) -> work_wf p (m_work s) ->
  (forall k, k ∈ active (m_current s) <-> reached i k) -> ~ accepted_before i ->
  after_ok (matches_go p (text_len text) limit fuel text (cursor_of text i)) s
    (fun b _ => b = true <-> accepted_before (S (length text)))
    (over limit (steps (m_work s) + N.of_nat (S (length text - i)) * position_cost)).
Proof.
  revert i s. induction fuel as [|fuel IH]; intros i s Hi Hf Hc Hn Hw Hact Hno; [lia|]. cbn [matches_go].
  set (budget := (steps (m_work s) + N.of_nat (S (length text - i)) * position_cost)%N).
  assert (steps (m_work s) + N.of_nat n <= budget)%N as Hb1.
  { unfold budget. rewrite Nat2N.inj_succ, N.mul_succ_l. generalize (N.of_nat (length text - i) * position_cost)%N.
    unfold position_cost. generalize (N.of_nat n * state_cost)%N. lia. }
  apply after_ok_then, with_current_spec.
  eapply after_ok_mono; [apply (closure_spec p text limit i); [exact Hclosed| | | |exact Hc|exact Hw]| |].
  { by apply cursor_start. }
  { by apply cursor_end. }
  { by destruct Hclosed. }
  2: { intros e He. by eapply over_mono. }
  intros _ [c1 w1] (H1 & H2 & H3 & H4). cbn [fst snd] in *. fstep. cbn [m_current].
  pose proof (with_start i _ _ Hi Hact H4) as Hall.
  assert (vec_len (active c1) * state_cost <= N.of_nat n * state_cost)%N as Hac.
  { apply N.mul_le_mono_r. unfold vec_len. pose proof (active_length c1 H1). lia. }
  assert (Forall (fun k => k < n) (active c1)) as Hlt.
  { apply Forall_forall. intros k Hk. by apply (states_wf_bound p c1). }
  destruct (any_accept_spec _ Hlt) as (b & Hb & Hbe). apply after_ok_then. eapply after_ok_unwrap; [exact Hb|].
  rewrite (accepted_here i _ Hall) in Hbe.
  destruct b.
  { fstep. split; [|done]. intros _. destruct (proj1 Hbe eq_refl) as (i0 & k & Hi0 & Hr & Ha).
    exists i0, k, i. split; [done|]. split; [lia|done]. }
  assert (~ accepted_before (S i)) as Hno' by (apply not_accepted_next; [done|]; intros H; by apply Hbe in H).
  apply after_ok_then. eapply after_ok_unwrap; [apply str_from_cursor|].
  destruct (drop i text) as [|value rest] eqn:Ed.
  { apply (f_equal length) in Ed. rewrite length_drop in Ed. cbn in Ed. fstep. split; [done|]. intros Hacc.
    replace (length text) with i in Hacc by lia. done. }
  assert (text !! i = Some value) as Hv.
  { rewrite <- (Nat.add_0_r i), <- lookup_drop, Ed. done. }
  rewrite <- (cursor_next _ _ _ Hv). pose proof (lookup_lt_Some _ _ _ Hv) as Hlti.
  eapply after_ok_step; [by apply clear_next_spec|done|]. intros _ s2 (st & -> & Hst & Hempty).
  eapply after_ok_step; [apply (advance_all_spec value i Hv (active c1)); [exact Hlt|exact Hst|exact H2]| |].
  { intros e He. eapply over_mono; [exact He|]. cbn [m_work].
    unfold budget. rewrite Nat2N.inj_succ, N.mul_succ_l. generalize (N.of_nat (length text - i) * position_cost)%N.
    unfold position_cost. revert Hac. generalize (N.of_nat n * state_cost)%N (vec_len (active c1) * state_cost)%N. lia. }
  intros _ s3 (G1 & G2 & G3 & G4 & G5). cbn [m_current m_next m_work] in *. unfold swap_states.
  apply after_ok_then. do 2 fstep.
  eapply after_ok_mono; [apply (IH (S i)); cbn [m_current m_next m_work]|done|].
  1,2: lia.
  1,3: done.
  - by rewrite G1.
  - intros k. rewrite G5, Hempty. rewrite <- (reached_step i value _ Hv Hall k).
    split; [intros [H | H]; [by apply not_elem_of_nil in H|exact H]|by right].
  - done.
  - intros e He. eapply over_mono; [exact He|]. cbn [m_work]. unfold budget.
    replace (length text - i) with (S (length text - S i)) by lia. rewrite (Nat2N.inj_succ (S _)), N.mul_succ_l.
    generalize (N.of_nat (S (length text - S i)) * position_cost)%N. unfold position_cost. revert Hac G4.
    generalize (N.of_nat n * state_cost)%N (vec_len (active c1) * state_cost)%N. lia.
Qed.
End Loop.
