(* ===== verification/RegexTheorems.v ===== *)
(** * Patterns of JSON schemas: theorems

    What [Pattern::compile] and [Pattern::matches] of [mcp/schema/pattern.rs] promise
    together: the parser decides its grammar, the compiled program means what the text
    means, and the search answers within a known amount of work. *)
From S2P Require Import Prelude Fallible Schema UnicodeLetter SchemaPattern RegexLang RegexGrammar RegexLex RegexParse RegexClosure RegexCompile RegexSearch.

(** ** The parts together *)
Lemma parse_spec limits source :
  match parse limits source with
  | Some (Ok (nodes, classes, root)) =>
    exists r r', is_pattern source r /\ denotes nodes classes root r' /\ r' ≡ r
  | Some (Err e) => e = Unsupported -> forall r, ~ is_pattern source r
  | None => False
  end.
Proof.
  pose proof (parse_program_spec limits source) as H. unfold after_ok, after in H. unfold parse.
  destruct (parse_program limits (parser_new source)) as [[[root|e] p]|]; [|done|done].
  destruct H as (r & Hr & r' & Hn & He). by exists r, r'.
Qed.

(** A compiled pattern: its grammar, its program and its size. *)
Lemma pattern_compile_spec source limits :
  match pattern_compile source limits with
  | Some (Ok p) => pattern_closed p /\ (states p <= max_pattern_states limits)%N /\
      exists r, is_pattern source r /\ program_ok (classes p) (instructions p) (start p) (fun text => lang text r)
  | Some (Err e) => e = Unsupported -> forall r, ~ is_pattern source r
  | None => False
  end.
Proof.
  pose proof (parse_spec limits source) as H. unfold pattern_compile.
  destruct (parse limits source) as [[[[nodes cls] root]|e]|]; [|done|done].
  destruct H as (r & r' & Hr & Hd & He).
  pose proof (compile_program_spec cls nodes (max_pattern_states limits) root r' Hd) as H1.
  pose proof (compile_program_closed cls nodes (max_pattern_states limits) root r' Hd) as H2.
  unfold after_ok, after in H1, H2.
  destruct (compile_program nodes (max_pattern_states limits) root []) as [[[s|e] prog]|]; [|by subst e|done].
  destruct H2 as [Hc Hl]. split; [done|]. split; [done|]. exists r. split; [done|]. cbn.
  intros text i. rewrite (H1 text i). split; intros [j Hj]; exists j; by apply He.
Qed.

(** The widest class of a pattern. *)
Definition widest (p : Pattern) : N := foldr N.max 0%N ((fun cl => vec_len (c_ranges cl)) <$> classes p).
Lemma widest_le p cl : cl ∈ classes p -> (vec_len (c_ranges cl) <= widest p)%N.
Proof.
  unfold widest. induction (classes p) as [|c l IH]; intros H; [by apply not_elem_of_nil in H|]. cbn.
  apply elem_of_cons in H as [-> | H]; [lia|]. specialize (IH H). lia.
Qed.

(** The steps that a search of [text] may take. *)
Definition search_work (p : Pattern) (text : list char) : N :=
  let n := states p in N.of_nat (S (length text)) * (n + n * (widest p + 2 + n)).

Lemma states_new_wf p : states_wf p (states_new (length (instructions p))).
Proof.
  split; [apply length_replicate|]. split; [constructor|]. intros k. cbn. split.
  - intros H. apply lookup_replicate in H as [? _]. done.
  - intros H. by apply not_elem_of_nil in H.
Qed.

Lemma matches_spec p text steps limit : pattern_closed p ->
  match matches p text steps limit with
  | Some (Ok b, _) => b = true <-> exists i n, i <= length text /\ accepts (classes p) text (instructions p) n (start p) i
  | Some (Err e, _) => over limit (steps + search_work p text) e
  | None => False
  end.
Proof.
  intros Hc. unfold matches.
  set (s := {| m_current := _; m_next := _; m_work := _ |}).
  pose proof (matches_go_spec p text limit (widest p) Hc (widest_le p) (S (length text)) 0 s) as H.
  unfold after_ok, after in H. change (cursor_of text 0) with 0%N in H.
  destruct (matches_go p (text_len text) limit (S (length text)) text 0 s) as [[[b|e] s']|].
  all: assert (states_wf p (m_current s)) as W1 by apply states_new_wf.
  all: assert (work_wf p (m_work s)) as W2
    by (split; [cbn; apply length_replicate|]; split; [cbn; by apply Forall_replicate|cbn; lia]).
  all: assert (forall k, k ∈ active (m_current s) <-> reached p text 0 k) as W3
    by (intros k; cbn; split; [intros Hk; by apply not_elem_of_nil in Hk|intros (_ & i0 & ? & _); lia]).
  all: assert (~ accepted_before p text 0) as W4 by (intros (? & ? & ? & _ & ? & _); lia).
  all: specialize (H ltac:(lia) ltac:(lia) W1 W1 W2 W3 W4).
  - rewrite H. split.
    + intros (i0 & k & j & Hij & Hj & Hr & Ha). destruct (proj2 (accepts_runs p text (start p) i0)) as [n Hn]; [by exists k, j|].
      exists i0, n. split; [lia|done].
    + intros (i & n & Hi & Hn). destruct (proj1 (accepts_runs p text (start p) i)) as (k & j & Hr & Ha); [by exists n|].
      exists i, k, j. pose proof (runs_mono _ _ _ _ Hr). pose proof (runs_bounded _ _ _ _ _ _ Hi Hr). cbn in *.
      split; [lia|]. split; [lia|done].
  - eapply over_mono; [exact H|]. unfold search_work, position_cost, state_cost, states, vec_len.
    rewrite Nat.sub_0_r. cbn [s m_work SchemaPattern.steps]. lia.
  - done.
Qed.

(** ** Theorems *)

(** C4. A compiled pattern has the meaning of its text: the text is in the grammar of
    patterns, and whenever the search of any text returns an answer, the answer is [true]
    exactly when some part of that text is in the language of the pattern. The parser,
    the compiler with its patched jumps and the simulation of the automaton are all
    behind this statement. *)
Theorem pattern_search_exact source limits p :
  pattern_compile source limits = Some (Ok p) ->
  exists r, is_pattern source r /\
    forall text steps limit b n, matches p text steps limit = Some (Ok b, n) -> (b = true <-> found text r).
Proof.
  intros Hc. pose proof (pattern_compile_spec source limits) as H. rewrite Hc in H.
  destruct H as (Hcl & _ & r & Hr & Hp). exists r. split; [done|]. intros text steps limit b n Hm.
  pose proof (matches_spec p text steps limit Hcl) as H. rewrite Hm in H. rewrite H. unfold found. split.
  - intros (i & k & Hi & Hk). destruct (proj1 (Hp text i)) as [j Hj]; [by exists k|]. by exists i, j.
  - intros (i & j & Hi & Hj). destruct (proj2 (Hp text i)) as [k Hk]; [by exists j|]. by exists i, k.
Qed.

(** C13. [Pattern::compile] never panics and always returns. A text that it rejects as
    unsupported is not in the grammar of patterns, and one that it accepts is. *)
Theorem pattern_compile_decides source limits :
  match pattern_compile source limits with
  | Some (Ok _) => exists r, is_pattern source r
  | Some (Err Unsupported) => forall r, ~ is_pattern source r
  | Some (Err PatternLimit) => True
  | None => False
  end.
Proof.
  pose proof (pattern_compile_spec source limits) as H.
  destruct (pattern_compile source limits) as [[p|[]]|]; [|by apply H|done|done].
  destruct H as (_ & _ & r & Hr & _). by exists r.
Qed.

(** C37. A search of a compiled pattern always returns, and with a budget of [search_work] more
    steps it returns an answer: it never fails for any other reason than its budget. *)
Theorem pattern_search_returns source limits p text steps limit :
  pattern_compile source limits = Some (Ok p) ->
  exists r n, matches p text steps limit = Some (r, n) /\
    ((steps + search_work p text <= limit)%N -> (limit <= USIZE_MAX)%N -> exists b, r = Ok b).
Proof.
  intros Hc. pose proof (pattern_compile_spec source limits) as H. rewrite Hc in H. destruct H as (Hcl & _).
  pose proof (matches_spec p text steps limit Hcl) as H.
  destruct (matches p text steps limit) as [[[b|e] n]|]; [| |done].
  - exists (Ok b), n. split; [done|]. intros _ _. by exists b.
  - exists (Err e), n. split; [done|]. intros H1 H2. destruct H as [_ H]. unfold cap in H. lia.
Qed.

(** C38. A compiled pattern is well-formed: its start and every jump are instructions of it,
    every class it names exists, and it has at most as many instructions as the limits
    allow. *)
Theorem pattern_well_formed source limits p :
  pattern_compile source limits = Some (Ok p) ->
  start p < length (instructions p) /\ (states p <= max_pattern_states limits)%N /\
  forall i, i ∈ instructions p -> i_next i < length (instructions p) /\ i_alternate i < length (instructions p) /\
    forall k, i_op i = O_Class k -> k < length (classes p).
Proof.
  intros Hc. pose proof (pattern_compile_spec source limits) as H. rewrite Hc in H.
  destruct H as ([Hs Hcl] & Hl & _). split; [done|]. split; [done|]. intros i Hi.
  apply list_elem_of_lookup in Hi as [k Hk]. by eapply Hcl.
Qed.

(** The binary search in the table of letters never leaves it, and finds a character exactly
    when one of the ranges of the table has it. *)
Theorem letters_exact (value : char) :
  letter_contains value = Some (existsb (fun '(first, last) => (first <=? value)%N && (value <=? last)%N) RANGES).
Proof.
  destruct (contains_exact value) as (b & -> & Hb). f_equal. apply eq_bool_prop_intro. rewrite !Is_true_true, Hb, existsb_exists.
  split.
  - intros (first & last & Hin & H1 & H2). exists (first, last). split; [by apply list_elem_of_In|].
    apply andb_true_iff. split; by apply N.leb_le.
  - intros ([first last] & Hin & H). apply list_elem_of_In in Hin. apply andb_true_iff in H as [H1 H2].
    exists first, last. split; [done|]. split; by apply N.leb_le.
Qed.

(** ** Examples *)
Definition sample_source : list char := chars "^(a|b)*c{2,3}$".
Definition sample_pattern : Pattern :=
  match pattern_compile sample_source default_schema_limits with
  | Some (Ok p) => p
  | _ => {| instructions := []; classes := []; start := 0 |}
  end.

Lemma pattern_search_exact_witness :
  pattern_compile sample_source default_schema_limits = Some (Ok sample_pattern) /\
  matches sample_pattern (chars "abcc") 0 1000 = Some (Ok true, 33%N) /\
  exists r, is_pattern sample_source r /\ found (chars "abcc") r.
Proof.
  assert (pattern_compile sample_source default_schema_limits = Some (Ok sample_pattern)) as Hc by (vm_compute; reflexivity).
  assert (matches sample_pattern (chars "abcc") 0 1000 = Some (Ok true, 33%N)) as Hm by (vm_compute; reflexivity).
  split; [exact Hc|]. split; [exact Hm|].
  destruct (pattern_search_exact sample_source default_schema_limits sample_pattern Hc) as (r & Hr & H).
  exists r. split; [exact Hr|]. exact (proj1 (H _ _ _ _ _ Hm) eq_refl).
Defined.

Lemma pattern_search_returns_witness :
  exists r n, matches sample_pattern (chars "abcd") 0 10000 = Some (r, n) /\ exists b, r = Ok b.
Proof.
  destruct (pattern_search_returns sample_source default_schema_limits sample_pattern (chars "abcd") 0 10000
    ltac:(vm_compute; reflexivity)) as (r & n & Hm & Hb).
  exists r, n. split; [exact Hm|]. apply Hb; vm_compute; discriminate.
Defined.

Lemma pattern_well_formed_witness : start sample_pattern < length (instructions sample_pattern).
Proof.
  exact (proj1 (pattern_well_formed sample_source default_schema_limits sample_pattern ltac:(vm_compute; reflexivity))).
Defined.
