(* ===== verification/Scheduler.v ===== *)
(** * The scheduler of managed runs ([managed/scheduler.rs], [managed/scheduler/state.rs])

    Residents, their runs, the queue of runs that wait for an execution slot and the
    waits of runs for each other. The state is one mutex, so each operation is a
    function of it in the monad of [Fallible]. What must happen after the lock is
    released (wakers to wake or drop, turns to cancel, removed slots) is collected in
    [Effects], as in the source. A turn can be cancelled at any moment, also while the
    lock is held: reads of [is_cancelled] are numbered, and [cancelled_at] says what each
    one sees. Wakers, turns and handles are numbers. *)
From stdpp Require Export gmap.
From S2P Require Import Prelude Fallible.

(** ** Limits and errors *)
Definition MAX_EXECUTIONS : N := 256.
Definition MAX_RESIDENTS : N := 4096.
Definition MAX_WAITERS : N := 4096.

Record SchedulerLimits := { l_executions : positive; l_residents : positive; l_waiters : positive }.

Inductive SchedulerError :=
| InvalidSchedulerLimits | Capacity | Exhausted | Foreign | Stale | Busy | Cancelled_ | DependencyCycle
| Unschedulable | NotSettling.
#[export] Instance SchedulerError_eq_dec : EqDecision SchedulerError.
Proof. solve_decision. Defined.

Definition scheduler_limits_new (executions residents waiters : N) : result SchedulerLimits SchedulerError :=
  fail_if (executions =? 0)%N || (residents =? 0)%N || (waiters =? 0)%N || (residents <? executions)%N
          || (MAX_EXECUTIONS <? executions)%N || (MAX_RESIDENTS <? residents)%N || (MAX_WAITERS <? waiters)%N
    with InvalidSchedulerLimits in
  match executions, residents, waiters with
  | Npos e, Npos r, Npos w => Ok {| l_executions := e; l_residents := r; l_waiters := w |}
  | _, _, _ => Err InvalidSchedulerLimits
  end.

(** ** The state *)
Record RunIdentity := { run_id : N; work_generation : positive; run_turn : N; run_handle : N }.
Record Resident := { r_retired : bool; r_generation : N; r_run : option N }.
Inductive Phase :=
| Registered
| Queued (ticket : N)
| Executing (ticket : N)
| Waiting (ticket target : N)
| Settling.
#[export] Instance Phase_eq_dec : EqDecision Phase.
Proof. solve_decision. Defined.

Definition phase_ticket (p : Phase) : option N :=
  match p with Queued t | Executing t | Waiting t _ => Some t | Registered | Settling => None end.

Record Slot := { s_resident : N; s_phase : Phase; s_turn : N; s_handle : N; s_waker : option N }.
Definition with_phase (s : Slot) (p : Phase) : Slot :=
  {| s_resident := s_resident s; s_phase := p; s_turn := s_turn s; s_handle := s_handle s; s_waker := s_waker s |}.
Definition with_waker (s : Slot) (w : option N) : Slot :=
  {| s_resident := s_resident s; s_phase := s_phase s; s_turn := s_turn s; s_handle := s_handle s; s_waker := w |}.

Record State := {
  next_id : option N;
  residents : gmap N Resident;
  runs : gmap N Slot;
  queue : list (N * N);
  executing : N;
  waiters : N;
}.
Definition state_default : State :=
  {| next_id := Some 1%N; residents := ∅; runs := ∅; queue := []; executing := 0; waiters := 0 |}.
Definition with_next_id (s : State) (n : option N) : State :=
  {| next_id := n; residents := residents s; runs := runs s; queue := queue s; executing := executing s; waiters := waiters s |}.
Definition with_residents (s : State) (m : gmap N Resident) : State :=
  {| next_id := next_id s; residents := m; runs := runs s; queue := queue s; executing := executing s; waiters := waiters s |}.
Definition with_runs (s : State) (m : gmap N Slot) : State :=
  {| next_id := next_id s; residents := residents s; runs := m; queue := queue s; executing := executing s; waiters := waiters s |}.
Definition with_queue (s : State) (q : list (N * N)) : State :=
  {| next_id := next_id s; residents := residents s; runs := runs s; queue := q; executing := executing s; waiters := waiters s |}.
Definition with_executing (s : State) (n : N) : State :=
  {| next_id := next_id s; residents := residents s; runs := runs s; queue := queue s; executing := n; waiters := waiters s |}.
Definition with_waiters (s : State) (n : N) : State :=
  {| next_id := next_id s; residents := residents s; runs := runs s; queue := queue s; executing := executing s; waiters := n |}.

Record Effects := { e_wake : list N; e_discard : list N; e_cancel : list N; e_removed : list Slot }.
Definition effects_default : Effects := {| e_wake := []; e_discard := []; e_cancel := []; e_removed := [] |}.
Definition effects_wake (e : Effects) (w : option N) : Effects :=
  {| e_wake := e_wake e ++ option_list w; e_discard := e_discard e; e_cancel := e_cancel e; e_removed := e_removed e |}.
Definition effects_discard (e : Effects) (w : option N) : Effects :=
  {| e_wake := e_wake e; e_discard := e_discard e ++ option_list w; e_cancel := e_cancel e; e_removed := e_removed e |}.
Definition effects_cancel (e : Effects) (h : N) : Effects :=
  {| e_wake := e_wake e; e_discard := e_discard e; e_cancel := e_cancel e ++ [h]; e_removed := e_removed e |}.
Definition effects_removed (e : Effects) (s : Slot) : Effects :=
  {| e_wake := e_wake e; e_discard := e_discard e; e_cancel := e_cancel e; e_removed := e_removed e ++ [s] |}.

(** What an operation works on: the state under the lock, its effects and the number of
    reads of cancellation so far. *)
Record Work := { w_state : State; w_effects : Effects; w_clock : nat }.
Definition S_ := M Work SchedulerError.
Definition get_state : S_ State := let* w := mget in mok (w_state w).
Definition put_state (s : State) : S_ unit :=
  let* w := mget in mset {| w_state := s; w_effects := w_effects w; w_clock := w_clock w |}.
Definition effect (f : Effects -> Effects) : S_ unit :=
  let* w := mget in mset {| w_state := w_state w; w_effects := f (w_effects w); w_clock := w_clock w |}.

(** The keys of a [BTreeMap] in order. *)
Definition btree_keys {A} (m : gmap N A) : list N := merge_sort N.le (elements (dom m)).

Definition waits_for (id : N) (s : Slot) : bool :=
  match s_phase s with Waiting _ target => (target =? id)%N | _ => false end.

Section Scheduler.
  Context (cancelled_at : nat -> N -> bool) (limits : SchedulerLimits).

(** [handle.is_cancelled()] *)
Definition is_cancelled (handle : N) : S_ bool :=
  let* w := mget in
  let* _ := mset {| w_state := w_state w; w_effects := w_effects w; w_clock := S (w_clock w) |} in
  mok (cancelled_at (w_clock w) handle).

Definition allocate : S_ N :=
  let* s := get_state in
  let* id := mok_or Exhausted (next_id s) in
  let* _ := put_state (with_next_id s (checked_add id 1)) in
  mok id.

(** [for slot in self.runs.values_mut()], in the order of the keys. *)
Definition wake_dependents (id : N) : S_ unit :=
  let* s := get_state in
  let slots := omap (fun k => runs s !! k) (btree_keys (runs s)) in
  let woken := omap s_waker (List.filter (waits_for id) slots) in
  let* _ := put_state (with_runs s ((fun slot => if waits_for id slot then with_waker slot None else slot) <$> runs s)) in
  effect (fun e => foldl (fun e w => effects_wake e (Some w)) e woken).

(** [State::stop] *)
Definition stop_run (id : N) (ticket : option N) (cancel : bool) : S_ unit :=
  let* s := get_state in
  match runs s !! id with
  | None => mok tt
  | Some slot =>
    if bool_decide (ticket <> None) && negb (bool_decide (ticket = phase_ticket (s_phase slot))) then mok tt
    else
      let* s :=
        match s_phase slot with
        | Executing _ => let* n := munwrap (checked_sub (executing s) 1) in mok (with_executing s n)
        | Queued _ | Waiting _ _ => let* n := munwrap (checked_sub (waiters s) 1) in mok (with_waiters s n)
        | Registered | Settling => mok s
        end in
      let* _ := if cancel then effect (fun e => effects_cancel e (s_handle slot)) else mok tt in
      let* _ := effect (fun e => effects_wake e (s_waker slot)) in
      let s := with_runs s (<[id := with_waker (with_phase slot Settling) None]> (runs s)) in
      let* _ := put_state (with_queue s (List.filter (fun '(run, _) => negb (run =? id)%N) (queue s))) in
      wake_dependents id
  end.

Fixpoint drive_go (fuel : nat) : S_ unit :=
  match fuel with
  | O => mpanic
  | S fuel =>
    let* s := get_state in
    if (executing s <? nz_get (l_executions limits))%N then
      match queue s with
      | [] => mok tt
      | (id, ticket) :: rest =>
        let s := with_queue s rest in
        let* _ := put_state s in
        match runs s !! id with
        | None => drive_go fuel
        | Some slot =>
          if negb (bool_decide (s_phase slot = Queued ticket)) then drive_go fuel
          else
            let* cancelled := is_cancelled (s_handle slot) in
            if cancelled : bool then
              let* _ := stop_run id (Some ticket) true in
              drive_go fuel
            else
              let* n := munwrap (checked_sub (waiters s) 1) in
              let s := with_executing (with_waiters s n) (executing s + 1)%N in
              let* _ := put_state (with_runs s (<[id := with_waker (with_phase slot (Executing ticket)) None]> (runs s))) in
              let* _ := effect (fun e => effects_wake e (s_waker slot)) in
              drive_go fuel
        end
      end
    else mok tt
  end.
Definition drive : S_ unit := let* s := get_state in drive_go (S (length (queue s))).

(** ** Operations of [Inner] *)
Definition reserve_resident : S_ N :=
  let* s := get_state in
  mfail_if (N.of_nat (size (residents s)) =? nz_get (l_residents limits))%N with Capacity in
  let* id := allocate in
  let* s := get_state in
  let* _ := put_state (with_residents s (<[id := {| r_retired := false; r_generation := 0; r_run := None |}]> (residents s))) in
  mok id.

Definition retire_resident (id : N) : S_ unit :=
  let* s := get_state in
  match residents s !! id with
  | None => mok tt
  | Some r =>
    let r := {| r_retired := true; r_generation := r_generation r; r_run := r_run r |} in
    put_state (with_residents s (if bool_decide (r_run r = None) then delete id (residents s) else <[id := r]> (residents s)))
  end.

Definition resident_is_idle (id : N) : S_ bool :=
  let* s := get_state in
  mok match residents s !! id with Some r => negb (r_retired r) && bool_decide (r_run r = None) | None => false end.

Definition register_run (resident : N) (generation : positive) (turn handle : N) : S_ RunIdentity :=
  let* s := get_state in
  let* owner := mok_or Stale (residents s !! resident) in
  mfail_if r_retired owner || (nz_get generation <=? r_generation owner)%N with Stale in
  mfail_if bool_decide (r_run owner <> None) with Busy in
  mfail_if existsb (fun slot => s_turn slot =? turn)%N ((map_to_list (runs s)).*2) with Busy in
  let* id := allocate in
  let* s := get_state in
  let* owner := munwrap (residents s !! resident) in
  let owner := {| r_retired := r_retired owner; r_generation := nz_get generation; r_run := Some id |} in
  let s := with_residents s (<[resident := owner]> (residents s)) in
  let slot := {| s_resident := resident; s_phase := Registered; s_turn := turn; s_handle := handle; s_waker := None |} in
  let* _ := put_state (with_runs s (<[id := slot]> (runs s))) in
  mok {| run_id := id; work_generation := generation; run_turn := turn; run_handle := handle |}.

Definition is_executing (id : N) : S_ bool :=
  let* s := get_state in
  match runs s !! id with
  | Some slot =>
    match s_phase slot with
    | Executing _ => let* cancelled := is_cancelled (s_handle slot) in mok (negb cancelled)
    | _ => mok false
    end
  | None => mok false
  end.

Definition is_wait_target (id : N) : S_ bool :=
  let* s := get_state in
  mok match runs s !! id with Some slot => negb (bool_decide (s_phase slot = Registered)) | None => false end.

(** [Inner::stop] *)
Definition inner_stop (id : N) (ticket : option N) (cancel : bool) : S_ unit :=
  let* _ := stop_run id ticket cancel in drive.

Definition complete (id : N) : S_ unit :=
  let* s := get_state in
  let* slot := mok_or Stale (runs s !! id) in
  mfail_if negb (bool_decide (s_phase slot = Settling)) with NotSettling in
  let s := with_runs s (delete id (runs s)) in
  let* r := munwrap (residents s !! s_resident slot) in
  let* _ := put_state (with_residents s
    (if r_retired r then delete (s_resident slot) (residents s)
     else <[s_resident slot := {| r_retired := r_retired r; r_generation := r_generation r; r_run := None |}]> (residents s))) in
  let* _ := effect (fun e => effects_removed e slot) in
  wake_dependents id.

(** [slot.phase == Phase::Executing(ticket)] after a drive. *)
Definition granted (id ticket : N) : S_ bool :=
  let* s := get_state in
  mok match runs s !! id with Some slot => bool_decide (s_phase slot = Executing ticket) | None => false end.

(** Replaces the waker of a run. *)
Definition set_waker (id : N) (slot : Slot) (waker : N) : S_ unit :=
  let* s := get_state in
  let* _ := put_state (with_runs s (<[id := with_waker slot (Some waker)]> (runs s))) in
  effect (fun e => effects_discard e (s_waker slot)).

(** The first poll enqueues; the ticket is the state of the future, before and after. *)
Definition enqueue (id : N) (slot : Slot) : S_ N :=
  let* s := get_state in
  mfail_if negb (bool_decide (s_phase slot = Registered)) with Busy in
  mfail_if (waiters s =? nz_get (l_waiters limits))%N with Capacity in
  let* next := allocate in
  let* s := get_state in
  let s := with_waiters s (waiters s + 1)%N in
  let s := with_runs s (<[id := with_phase slot (Queued next)]> (runs s)) in
  let* _ := put_state (with_queue s (queue s ++ [(id, next)])) in
  mok next.

Definition poll_acquire (id : N) (ticket : option N) (waker : N) : S_ (bool * option N) :=
  let* s := get_state in
  let* slot := mok_or Stale (runs s !! id) in
  let* cancelled := is_cancelled (s_handle slot) in
  mfail_if cancelled || bool_decide (s_phase slot = Settling) with Cancelled_ in
  let* ticket := match ticket with None => enqueue id slot | Some t => mok t end in
  let* s := get_state in
  let* slot := munwrap (runs s !! id) in
  if bool_decide (s_phase slot = Executing ticket) then mok (true, Some ticket)
  else
    mfail_if negb (bool_decide (s_phase slot = Queued ticket)) with Stale in
    let* _ := set_waker id slot waker in
    let* _ := drive in
    let* ready := granted id ticket in
    mok (ready, Some ticket).

(** [for _ in 0..=state.runs.len()]: follows the waits from [cursor] on; true on a cycle. *)
Fixpoint finds (runs : gmap N Slot) (id : N) (fuel : nat) (cursor : N) : bool :=
  match fuel with
  | O => false
  | S fuel =>
    if (cursor =? id)%N then true
    else match s_phase <$> runs !! cursor with
         | Some (Waiting _ target) => finds runs id fuel target
         | _ => false
         end
  end.

Definition is_executing_phase (p : Phase) : bool := match p with Executing _ => true | _ => false end.

Definition begin_wait (id target waker : N) : S_ N :=
  mfail_if (id =? target)%N with DependencyCycle in
  let* s := get_state in
  let* caller := mok_or Stale (runs s !! id) in
  let* cancelled := is_cancelled (s_handle caller) in
  mfail_if cancelled : bool with Cancelled_ in
  mfail_if negb (is_executing_phase (s_phase caller)) with Busy in
  let* target_slot := mok_or Unschedulable (runs s !! target) in
  mfail_if bool_decide (s_phase target_slot = Registered) with Unschedulable in
  mfail_if finds (runs s) id (S (size (runs s))) target with DependencyCycle in
  mfail_if (waiters s =? nz_get (l_waiters limits))%N with Capacity in
  let* ticket := allocate in
  let* _ := set_waker id (with_phase caller (Waiting ticket target)) waker in
  let* s := get_state in
  let* n := munwrap (checked_sub (executing s) 1) in
  let* _ := put_state (with_executing (with_waiters s (waiters s + 1)%N) n) in
  let* _ := drive in
  mok ticket.

Definition refresh_wait (id ticket waker : N) : S_ unit :=
  let* s := get_state in
  match runs s !! id with
  | Some slot =>
    match s_phase slot with
    | Waiting t _ =>
      if (t =? ticket)%N then
        let* cancelled := is_cancelled (s_handle slot) in
        if cancelled : bool then mfail Cancelled_ else set_waker id slot waker
      else mfail Cancelled_
    | _ => mfail Cancelled_
    end
  | None => mfail Cancelled_
  end.

Definition poll_reacquire (id ticket waker : N) : S_ bool :=
  let* s := get_state in
  let* slot := mok_or Stale (runs s !! id) in
  let* cancelled := is_cancelled (s_handle slot) in
  mfail_if cancelled : bool with Cancelled_ in
  match s_phase slot with
  | Executing t => if (t =? ticket)%N then mok true else mfail Cancelled_
  | Waiting t _ =>
    mfail_if negb (t =? ticket)%N with Cancelled_ in
    let* _ := set_waker id (with_phase slot (Queued ticket)) waker in
    let* s := get_state in
    let* _ := put_state (with_queue s (queue s ++ [(id, ticket)])) in
    let* _ := drive in
    granted id ticket
  | Queued t =>
    mfail_if negb (t =? ticket)%N with Cancelled_ in
    let* _ := set_waker id slot waker in
    let* _ := drive in
    granted id ticket
  | _ => mfail Cancelled_
  end.
End Scheduler.
