(* ===== verification/SchedulerRules.v ===== *)
(** * The protocol of the scheduler

    What the operations of [managed/scheduler/state.rs] may do to the state, as a step
    relation: one rule for each change of a run or resident. [Inv] is kept by every
    rule; [SchedulerProofs] shows that every operation is a sequence of these steps. *)
From stdpp Require Export gmap.
From S2P Require Import Prelude Fallible Scheduler.

(** ** Counting runs *)
Definition count (P : Phase -> bool) (m : gmap N Slot) : N :=
  N.of_nat (size (filter (fun kv => P (s_phase kv.2) = true) m)).
Definition is_waiter (p : Phase) : bool := match p with Queued _ | Waiting _ _ => true | _ => false end.
Definition tally (b : bool) : N := if b then 1 else 0.

Lemma count_insert_fresh P m k x : m !! k = None -> count P (<[k := x]> m) = (count P m + tally (P (s_phase x)))%N.
Proof.
  intros H. unfold count. destruct (P (s_phase x)) eqn:E.
  - rewrite map_filter_insert_True by done. rewrite map_size_insert_None; [cbn; lia|].
    apply map_lookup_filter_None. by left.
  - rewrite map_filter_insert_False by (cbn; congruence). rewrite delete_id by done. cbn. lia.
Qed.

Lemma count_insert P m k x y : m !! k = Some x ->
  (count P (<[k := y]> m) + tally (P (s_phase x)) = count P m + tally (P (s_phase y)))%N.
Proof.
  intros H. rewrite <- (insert_delete_id m k x H) at 2. rewrite <- (insert_delete_eq m k y).
  rewrite !count_insert_fresh by apply lookup_delete_eq. lia.
Qed.

Lemma count_delete P m k x : m !! k = Some x -> (count P (delete k m) + tally (P (s_phase x)) = count P m)%N.
Proof.
  intros H. rewrite <- (insert_delete_id m k x H) at 2. by rewrite count_insert_fresh by apply lookup_delete_eq.
Qed.

Lemma count_fmap P f m : (forall x, s_phase (f x) = s_phase x) -> count P (f <$> m) = count P m.
Proof.
  intros Hf. unfold count. f_equal. rewrite map_filter_fmap, map_size_fmap. f_equal.
  apply map_filter_ext. intros k x _. cbn. by rewrite Hf.
Qed.

Lemma count_pos P m k x : m !! k = Some x -> P (s_phase x) = true -> (1 <= count P m)%N.
Proof. intros H Hp. pose proof (count_delete P m k x H) as Hc. rewrite Hp in Hc. cbn in Hc. lia. Qed.

(** ** What slots are, without their wakers *)
Definition same_but_waker (x y : Slot) : Prop :=
  s_resident x = s_resident y /\ s_phase x = s_phase y /\ s_turn x = s_turn y /\ s_handle x = s_handle y.

(** [a] waits for [b]. *)
Definition waits (m : gmap N Slot) (a b : N) : Prop := exists slot t, m !! a = Some slot /\ s_phase slot = Waiting t b.

Lemma waits_insert m id y a b : waits (<[id := y]> m) a b <->
  if decide (a = id) then exists t, s_phase y = Waiting t b else waits m a b.
Proof.
  unfold waits. destruct (decide (a = id)) as [->|Hne].
  - setoid_rewrite lookup_insert_eq. naive_solver.
  - by setoid_rewrite lookup_insert_ne; [|done].
Qed.

Lemma tc_mono (R R' : N -> N -> Prop) x y : (forall a b, R' a b -> R a b) -> tc R' x y -> tc R x y.
Proof. intros H. induction 1; [by constructor; apply H|]. eapply tc_l; [by apply H|done]. Qed.

(** A new edge from a run that waits for nothing. *)
Section NewEdge.
  Context (R R' : N -> N -> Prop) (id target : N).
  Context (HR : forall a b, R' a b -> R a b \/ a = id /\ b = target) (Hno : ~ rtc R target id).

Lemma new_edge_path x y : rtc R' x y -> rtc R x y \/ rtc R x id /\ rtc R target y.
Proof.
  induction 1 as [x|x z y Hxz _ IH]; [by left|]. apply HR in Hxz as [Hxz | [-> ->]].
  - destruct IH as [IH | [IH1 IH2]]; [left|right; split; [|done]]; by eapply rtc_l.
  - destruct IH as [IH | [IH1 IH2]]; [|done]. right. done.
Qed.
Lemma new_edge_acyclic : (forall a, ~ tc R a a) -> forall a, ~ tc R' a a.
Proof.
  intros Hac a Ha. assert (exists b, R' a b /\ rtc R' b a) as (b & Hab & Hba).
  { inversion Ha as [? ? H|? b ? H1 H2]; subst; [exists a; by split|]. exists b. split; [done|]. by apply tc_rtc. }
  apply new_edge_path in Hba. apply HR in Hab as [Hab | [-> ->]].
  - destruct Hba as [Hba | [H1 H2]]; [by apply (Hac a), (tc_rtc_r _ b a); [constructor|]|].
    apply Hno. etrans; [exact H2|]. by eapply rtc_l.
  - by destruct Hba as [? | [_ ?]].
Qed.
End NewEdge.

(** ** The rules *)
Definition new_resident : Resident := {| r_retired := false; r_generation := 0; r_run := None |}.
Definition retired (r : Resident) : Resident := {| r_retired := true; r_generation := r_generation r; r_run := r_run r |}.
Definition released (r : Resident) : Resident := {| r_retired := r_retired r; r_generation := r_generation r; r_run := None |}.

(** A run that stops: it is [Settling] and holds neither a slot nor a place. *)
Definition settled (s : State) (id : N) (slot : Slot) : State :=
  {| next_id := next_id s; residents := residents s; runs := <[id := with_waker (with_phase slot Settling) None]> (runs s);
     queue := List.filter (fun '(run, _) => negb (run =? id)%N) (queue s);
     executing := executing s - tally (is_executing_phase (s_phase slot));
     waiters := waiters s - tally (is_waiter (s_phase slot)) |}.

Section Protocol.
  Context (limits : SchedulerLimits).

Inductive step : State -> State -> Prop :=
| step_wakers s f : (forall x, same_but_waker x (f x)) -> (forall x, s_waker (f x) = s_waker x \/ s_waker (f x) = None) ->
    step s (with_runs s (f <$> runs s))
| step_poll s id slot w : runs s !! id = Some slot -> is_waiter (s_phase slot) = true ->
    step s (with_runs s (<[id := with_waker slot w]> (runs s)))
| step_reserve s id : next_id s = Some id -> N.of_nat (size (residents s)) <> nz_get (l_residents limits) ->
    step s (with_residents (with_next_id s (checked_add id 1)) (<[id := new_resident]> (residents s)))
| step_retire_idle s id r : residents s !! id = Some r -> r_run r = None ->
    step s (with_residents s (delete id (residents s)))
| step_retire_busy s id r : residents s !! id = Some r -> r_run r <> None ->
    step s (with_residents s (<[id := retired r]> (residents s)))
| step_register s id rid r generation slot : next_id s = Some id -> residents s !! rid = Some r ->
    r_retired r = false -> (r_generation r < generation)%N -> r_run r = None ->
    s_resident slot = rid -> s_phase slot = Registered -> s_waker slot = None -> (forall k x, runs s !! k = Some x -> s_turn x <> s_turn slot) ->
    step s (with_runs (with_residents (with_next_id s (checked_add id 1))
      (<[rid := {| r_retired := false; r_generation := generation; r_run := Some id |}]> (residents s)))
      (<[id := slot]> (runs s)))
| step_enqueue s id slot t : runs s !! id = Some slot -> s_phase slot = Registered -> next_id s = Some t ->
    waiters s <> nz_get (l_waiters limits) ->
    step s {| next_id := checked_add t 1; residents := residents s; runs := <[id := with_phase slot (Queued t)]> (runs s);
              queue := queue s ++ [(id, t)]; executing := executing s; waiters := waiters s + 1 |}
| step_requeue s id slot t target w : runs s !! id = Some slot -> s_phase slot = Waiting t target ->
    step s (with_queue (with_runs s (<[id := with_waker (with_phase slot (Queued t)) w]> (runs s))) (queue s ++ [(id, t)]))
| step_grant s id t rest slot : queue s = (id, t) :: rest -> runs s !! id = Some slot -> s_phase slot = Queued t ->
    (executing s < nz_get (l_executions limits))%N ->
    step s {| next_id := next_id s; residents := residents s;
              runs := <[id := with_waker (with_phase slot (Executing t)) None]> (runs s);
              queue := rest; executing := executing s + 1; waiters := waiters s - 1 |}
| step_wait s id slot t0 t target w : runs s !! id = Some slot -> s_phase slot = Executing t0 -> next_id s = Some t ->
    id <> target -> is_Some (runs s !! target) -> ~ rtc (waits (runs s)) target id -> waiters s <> nz_get (l_waiters limits) ->
    step s {| next_id := checked_add t 1; residents := residents s;
              runs := <[id := with_waker (with_phase slot (Waiting t target)) w]> (runs s);
              queue := queue s; executing := executing s - 1; waiters := waiters s + 1 |}
| step_settle s id slot : runs s !! id = Some slot -> step s (settled s id slot)
| step_complete s id slot r : runs s !! id = Some slot -> s_phase slot = Settling ->
    residents s !! s_resident slot = Some r ->
    step s (with_residents (with_runs s (delete id (runs s)))
      (if r_retired r then delete (s_resident slot) (residents s)
       else <[s_resident slot := released r]> (residents s))).

(** ** The invariant *)

(** Numbers that have not been given out. *)
Definition fresh (s : State) (n : N) : Prop :=
  (forall k, is_Some (residents s !! k) -> (k < n)%N) /\ (forall k, is_Some (runs s !! k) -> (k < n)%N) /\
  (forall k slot t, runs s !! k = Some slot -> phase_ticket (s_phase slot) = Some t -> (t < n)%N) /\
  (forall a b, waits (runs s) a b -> (b < n)%N).

Record Inv (s : State) : Prop := {
  i_executing : executing s = count is_executing_phase (runs s);
  i_waiters : waiters s = count is_waiter (runs s);
  i_executing_le : (executing s <= nz_get (l_executions limits))%N;
  i_waiters_le : (waiters s <= nz_get (l_waiters limits))%N;
  i_residents_le : (N.of_nat (size (residents s)) <= nz_get (l_residents limits))%N;
  i_queue : forall id t, (id, t) ∈ queue s <-> exists slot, runs s !! id = Some slot /\ s_phase slot = Queued t;
  i_queue_nodup : NoDup (queue s).*1;
  i_pins : forall id slot, runs s !! id = Some slot ->
    exists r, residents s !! s_resident slot = Some r /\ r_run r = Some id;
  i_pinned : forall rid r id, residents s !! rid = Some r -> r_run r = Some id ->
    exists slot, runs s !! id = Some slot /\ s_resident slot = rid;
  i_retired : forall rid r, residents s !! rid = Some r -> r_retired r = true -> r_run r <> None;
  i_turns : forall a b x y, runs s !! a = Some x -> runs s !! b = Some y -> s_turn x = s_turn y -> a = b;
  i_tickets : forall a b x y t, runs s !! a = Some x -> runs s !! b = Some y ->
    phase_ticket (s_phase x) = Some t -> phase_ticket (s_phase y) = Some t -> a = b;
  i_fresh : forall n, next_id s = Some n -> fresh s n;
  i_acyclic : forall a, ~ tc (waits (runs s)) a a;
  i_wakers : forall id slot, runs s !! id = Some slot -> s_waker slot <> None -> is_waiter (s_phase slot) = true;
}.

(** ** Preservation *)
Lemma inv_default : Inv state_default.
Proof.
  assert (forall a b, ~ waits ∅ a b) as Hno by (intros a b (? & ? & H & _); by rewrite lookup_empty in H).
  split; cbn [next_id residents runs queue executing waiters state_default];
    try (by intros *; rewrite lookup_empty); try lia; try (by vm_compute).
  - intros id t. rewrite lookup_empty. split; [intros H; by apply not_elem_of_nil in H|naive_solver].
  - constructor.
  - intros n _. unfold fresh. cbn [residents runs state_default]. split; [|split; [|split]].
    + intros k [? H]. by rewrite lookup_empty in H.
    + intros k [? H]. by rewrite lookup_empty in H.
    + intros k slot t H. by rewrite lookup_empty in H.
    + intros a b Hab. by apply Hno in Hab.
  - intros a Ha. inversion Ha; subst; by eapply Hno.
Qed.

(** The identifiers after an allocation. *)
Definition next_after (s : State) (n : option N) : Prop :=
  n = next_id s \/ exists t, next_id s = Some t /\ n = checked_add t 1.

Lemma next_after_bound s nx n : next_after s nx -> nx = Some n ->
  exists m, next_id s = Some m /\ (m <= n)%N /\ (nx <> next_id s -> n = m + 1)%N.
Proof.
  intros [-> | (t & Ht & ->)] Hn.
  - exists n. split; [done|]. split; [lia|done].
  - apply checked_add_Some in Hn as [-> _]. exists t. split; [done|]. split; [lia|done].
Qed.

(** One run changes its phase. *)
Section Update.
  Context (s : State) (id : N) (x y : Slot) (nx : option N) (q : list (N * N)) (e w : N).
  Context (HI : Inv s) (Hx : runs s !! id = Some x).
  Context (Hres : s_resident y = s_resident x) (Hturn : s_turn y = s_turn x).
  Context (He : (e + tally (is_executing_phase (s_phase x)) = executing s + tally (is_executing_phase (s_phase y)))%N).
  Context (Hw : (w + tally (is_waiter (s_phase x)) = waiters s + tally (is_waiter (s_phase y)))%N).
  Context (Hel : (e <= nz_get (l_executions limits))%N) (Hwl : (w <= nz_get (l_waiters limits))%N).
  Context (Hq : forall k t, (k, t) ∈ q <-> if decide (k = id) then s_phase y = Queued t else (k, t) ∈ queue s).
  Context (Hnd : NoDup q.*1) (Hnx : next_after s nx).
  Context (Hticket : forall t, phase_ticket (s_phase y) = Some t ->
    phase_ticket (s_phase x) = Some t \/ next_id s = Some t /\ nx = checked_add t 1).
  Context (Hwait : forall t b, s_phase y = Waiting t b ->
    s_phase y = s_phase x \/ (forall t b, s_phase x <> Waiting t b) /\ is_Some (runs s !! b) /\ ~ rtc (waits (runs s)) b id).
  Context (Hwaker : s_waker y <> None -> is_waiter (s_phase y) = true).

Lemma update_fresh n : nx = Some n ->
  fresh {| next_id := nx; residents := residents s; runs := <[id := y]> (runs s); queue := q; executing := e; waiters := w |} n.
Proof.
  intros Hn. destruct (next_after_bound s nx n Hnx Hn) as (m & Hm & Hle & _).
  destruct (i_fresh _ HI m Hm) as (F1 & F2 & F3 & F4). split; [|split; [|split]]; cbn [residents runs].
  - intros k Hk. apply F1 in Hk. lia.
  - intros k Hk. destruct (decide (k = id)) as [->|Hne].
    + assert (id < m)%N by (apply F2; by eexists). lia.
    + rewrite lookup_insert_ne in Hk by done. apply F2 in Hk. lia.
  - intros k slot t Hk Ht. destruct (decide (k = id)) as [->|Hne].
    + rewrite lookup_insert_eq in Hk. injection Hk as <-. destruct (Hticket t Ht) as [H | [H1 H2]].
      * apply (F3 id x t Hx) in H. lia.
      * rewrite Hn in H2. symmetry in H2. apply checked_add_Some in H2 as [-> _]. lia.
    + rewrite lookup_insert_ne in Hk by done. apply (F3 k slot t Hk) in Ht. lia.
  - intros a b Hab. apply waits_insert in Hab. destruct (decide (a = id)) as [->|Hne].
    + destruct Hab as [t Ht]. destruct (Hwait _ _ Ht) as [E | (_ & Hb & _)]; [|apply F2 in Hb; lia].
      rewrite E in Ht. assert (b < m)%N by (apply (F4 id); by exists x, t). lia.
    + apply F4 in Hab. lia.
Qed.

Lemma update_acyclic a : ~ tc (waits (<[id := y]> (runs s))) a a.
Proof.
  assert ((exists t b, s_phase y = Waiting t b) \/ forall t b, s_phase y <> Waiting t b) as [(t & b & Hy) | Hy]
    by (destruct (s_phase y); naive_solver).
  { destruct (Hwait _ _ Hy) as [E | (_ & _ & Hno)].
    { intros Ha. apply (i_acyclic _ HI a). revert Ha. apply tc_mono. intros c d Hcd. apply waits_insert in Hcd.
      destruct (decide (c = id)) as [->|]; [|done]. destruct Hcd as [t' Ht']. exists x, t'. split; [done|congruence]. }
    apply (new_edge_acyclic (waits (runs s)) _ id b); [|done|apply (i_acyclic _ HI)].
    intros c d Hcd. apply waits_insert in Hcd. destruct (decide (c = id)) as [->|]; [|by left].
    right. destruct Hcd as [t' Ht']. rewrite Hy in Ht'. by injection Ht'. }
  intros Ha. apply (i_acyclic _ HI a). revert Ha. apply tc_mono. intros c d Hcd. apply waits_insert in Hcd.
  destruct (decide (c = id)) as [->|]; [|done]. destruct Hcd as [t' Ht']. by apply Hy in Ht'.
Qed.

Lemma update_tickets a b u v t : <[id := y]> (runs s) !! a = Some u -> <[id := y]> (runs s) !! b = Some v ->
  phase_ticket (s_phase u) = Some t -> phase_ticket (s_phase v) = Some t -> a = b.
Proof.
  intros Ha Hb Hu Hv.
  assert (forall k z, <[id := y]> (runs s) !! k = Some z -> phase_ticket (s_phase z) = Some t ->
    (exists z0, runs s !! k = Some z0 /\ phase_ticket (s_phase z0) = Some t) \/ k = id /\ next_id s = Some t) as Hold.
  { intros k z Hk Hz. destruct (decide (k = id)) as [->|Hne].
    - rewrite lookup_insert_eq in Hk. injection Hk as <-. destruct (Hticket t Hz) as [H | [H _]]; [left; by exists x|by right].
    - rewrite lookup_insert_ne in Hk by done. left. by exists z. }
  assert (forall k z0, next_id s = Some t -> runs s !! k = Some z0 -> phase_ticket (s_phase z0) = Some t -> False) as Hnew.
  { intros k z0 Hn Hz0 Ht. destruct (i_fresh _ HI t Hn) as (_ & _ & F & _). apply (F _ _ _ Hz0) in Ht. lia. }
  destruct (Hold a u Ha Hu) as [(u0 & Hu0 & Hut) | [-> Hn]]; destruct (Hold b v Hb Hv) as [(v0 & Hv0 & Hvt) | [-> Hn']].
  - by apply (i_tickets _ HI a b u0 v0 t).
  - exfalso. by eapply Hnew.
  - exfalso. by eapply Hnew.
  - done.
Qed.

Lemma inv_update :
  Inv {| next_id := nx; residents := residents s; runs := <[id := y]> (runs s); queue := q; executing := e; waiters := w |}.
Proof.
  assert (forall k z, <[id := y]> (runs s) !! k = Some z -> exists z0, runs s !! k = Some z0 /\
    s_resident z = s_resident z0 /\ s_turn z = s_turn z0) as Hlook.
  { intros k z Hk. destruct (decide (k = id)) as [->|Hne].
    - rewrite lookup_insert_eq in Hk. injection Hk as <-. by exists x.
    - rewrite lookup_insert_ne in Hk by done. by exists z. }
  split; cbn [next_id residents runs queue executing waiters].
  - pose proof (count_insert is_executing_phase (runs s) id x y Hx). rewrite (i_executing _ HI) in He. lia.
  - pose proof (count_insert is_waiter (runs s) id x y Hx). rewrite (i_waiters _ HI) in Hw. lia.
  - done.
  - done.
  - apply (i_residents_le _ HI).
  - intros k t. rewrite Hq. destruct (decide (k = id)) as [->|Hne].
    + rewrite lookup_insert_eq. naive_solver.
    + rewrite lookup_insert_ne by done. apply (i_queue _ HI).
  - done.
  - intros k z Hk. destruct (Hlook k z Hk) as (z0 & Hz0 & Hr & _). rewrite Hr. by apply (i_pins _ HI).
  - intros rid r k Hr Hk. destruct (i_pinned _ HI _ _ _ Hr Hk) as (z & Hz & Hzr). destruct (decide (k = id)) as [->|Hne].
    + exists y. rewrite lookup_insert_eq. split; [done|]. congruence.
    + exists z. by rewrite lookup_insert_ne.
  - apply (i_retired _ HI).
  - intros a b u v Ha Hb Huv. destruct (Hlook a u Ha) as (u0 & Hu0 & _ & Hu). destruct (Hlook b v Hb) as (v0 & Hv0 & _ & Hv).
    apply (i_turns _ HI a b u0 v0); [done|done|congruence].
  - intros a b u v t. apply update_tickets.
  - apply update_fresh.
  - apply update_acyclic.
  - intros k z Hk Hz. destruct (decide (k = id)) as [->|Hne].
    + rewrite lookup_insert_eq in Hk. injection Hk as <-. by apply Hwaker.
    + rewrite lookup_insert_ne in Hk by done. by apply (i_wakers _ HI k).
Qed.
End Update.

(** The queue with one run taken out. *)
Lemma queue_without (q : list (N * N)) id k t :
  (k, t) ∈ List.filter (fun '(run, _) => negb (run =? id)%N) q <-> k <> id /\ (k, t) ∈ q.
Proof. rewrite !list_elem_of_In, filter_In, negb_true_iff, N.eqb_neq. tauto. Qed.
Lemma queue_without_nodup (q : list (N * N)) id : NoDup q.*1 ->
  NoDup (List.filter (fun '(run, _) => negb (run =? id)%N) q).*1.
Proof.
  induction q as [|[k t] q IH]; [done|]. cbn. intros H. apply NoDup_cons in H as [Hn Hd].
  destruct (negb (k =? id)%N); cbn; [|by apply IH]. apply NoDup_cons. split; [|by apply IH].
  intros Hin. apply Hn. apply list_elem_of_fmap in Hin as ([k' t'] & -> & Hin). apply list_elem_of_fmap.
  exists (k', t'). split; [done|]. by apply queue_without in Hin as [_ ?].
Qed.

(** A run that is not queued is not in the queue. *)
Lemma not_queued s id slot : Inv s -> runs s !! id = Some slot -> (forall t, s_phase slot <> Queued t) -> id ∉ (queue s).*1.
Proof.
  intros HI Hs Hp Hin. apply list_elem_of_fmap in Hin as ([k t] & -> & Hin). apply (i_queue _ HI) in Hin as (slot' & Hs' & Hq).
  cbn in Hs. rewrite Hs in Hs'. injection Hs' as <-. by apply Hp in Hq.
Qed.

Lemma inv_push s id slot y t : Inv s -> runs s !! id = Some slot -> (forall t, s_phase slot <> Queued t) -> s_phase y = Queued t ->
  (forall k t', (k, t') ∈ queue s ++ [(id, t)] <-> if decide (k = id) then s_phase y = Queued t' else (k, t') ∈ queue s) /\
  NoDup (queue s ++ [(id, t)]).*1.
Proof.
  intros HI Hs Hnq Hy. pose proof (not_queued s id slot HI Hs Hnq) as Hni. split.
  - intros k t'. rewrite elem_of_app, list_elem_of_singleton. destruct (decide (k = id)) as [->|Hne].
    + rewrite Hy. split; [intros [Hin | [= ->]]|intros [= ->]; by right]; [|done].
      exfalso. apply Hni. apply list_elem_of_fmap. by exists (id, t').
    + split; [intros [? | [= -> _]]; done|by left].
  - rewrite fmap_app. apply NoDup_app. split; [apply (i_queue_nodup _ HI)|]. split; [|apply NoDup_singleton].
    intros k Hk Hk'. cbn in Hk'. apply list_elem_of_singleton in Hk' as ->. done.
Qed.

(** Where the phase of a run does not queue it, the queue without it fits. *)
Lemma inv_unqueue s id y : Inv s -> (forall t, s_phase y <> Queued t) ->
  forall k t, (k, t) ∈ List.filter (fun '(run, _) => negb (run =? id)%N) (queue s) <->
    if decide (k = id) then s_phase y = Queued t else (k, t) ∈ queue s.
Proof.
  intros HI Hy k t. rewrite queue_without. destruct (decide (k = id)) as [->|Hne]; [|tauto].
  split; [by intros [? _]|]. intros H. by apply Hy in H.
Qed.

Lemma counters_pos s id slot : Inv s -> runs s !! id = Some slot ->
  (tally (is_executing_phase (s_phase slot)) <= executing s)%N /\ (tally (is_waiter (s_phase slot)) <= waiters s)%N.
Proof.
  intros HI Hs. split.
  - rewrite (i_executing _ HI). destruct (is_executing_phase (s_phase slot)) eqn:E; [|cbn; lia]. by eapply count_pos.
  - rewrite (i_waiters _ HI). destruct (is_waiter (s_phase slot)) eqn:E; [|cbn; lia]. by eapply count_pos.
Qed.

Lemma settled_inv s id slot : Inv s -> runs s !! id = Some slot -> Inv (settled s id slot).
Proof.
  intros HI Hs. destruct (counters_pos s id slot HI Hs) as [Hc1 Hc2].
  pose proof (i_executing_le _ HI). pose proof (i_waiters_le _ HI).
  eapply (inv_update s id slot); try done; cbn [s_phase with_waker with_phase is_executing_phase is_waiter tally]; try lia.
  - intros k t. by apply (inv_unqueue s id (with_waker (with_phase slot Settling) None) HI).
  - apply queue_without_nodup, (i_queue_nodup _ HI).
  - by left.
Qed.

Lemma grant_inv s id t rest slot : Inv s -> queue s = (id, t) :: rest -> runs s !! id = Some slot -> s_phase slot = Queued t ->
  (executing s < nz_get (l_executions limits))%N ->
  Inv {| next_id := next_id s; residents := residents s;
         runs := <[id := with_waker (with_phase slot (Executing t)) None]> (runs s);
         queue := rest; executing := executing s + 1; waiters := waiters s - 1 |}.
Proof.
  intros HI Hq Hs Hp Hlt. destruct (counters_pos s id slot HI Hs) as [_ Hc]. pose proof (i_waiters_le _ HI).
  pose proof (i_queue_nodup _ HI) as Hnd. rewrite Hp in Hc. cbn in Hc. rewrite Hq in Hnd. cbn in Hnd. apply NoDup_cons in Hnd as [Hn Hnd].
  eapply (inv_update s id slot); try done; rewrite ?Hp; cbn [s_phase with_waker with_phase is_executing_phase is_waiter tally]; try lia.
  - intros k t'. rewrite Hq. destruct (decide (k = id)) as [->|Hne].
    + split; [|done]. intros Hin. exfalso. apply Hn. apply list_elem_of_fmap. by exists (id, t').
    + rewrite elem_of_cons. split; [by right|]. intros [[= ? _] | ?]; done.
  - by left.
  - intros t' [= <-]. by left.
Qed.

Lemma enqueue_inv s id slot t : Inv s -> runs s !! id = Some slot -> s_phase slot = Registered -> next_id s = Some t ->
  waiters s <> nz_get (l_waiters limits) ->
  Inv {| next_id := checked_add t 1; residents := residents s; runs := <[id := with_phase slot (Queued t)]> (runs s);
         queue := queue s ++ [(id, t)]; executing := executing s; waiters := waiters s + 1 |}.
Proof.
  intros HI Hs Hp Hn Hw. pose proof (i_executing_le _ HI). pose proof (i_waiters_le _ HI).
  destruct (inv_push s id slot (with_phase slot (Queued t)) t HI Hs) as [Hq Hnd]; [congruence|done|].
  eapply (inv_update s id slot); try done; rewrite ?Hp; cbn [s_phase with_waker with_phase is_executing_phase is_waiter tally]; try lia.
  - right. by exists t.
  - intros t' [= <-]. by right.
Qed.

Lemma requeue_inv s id slot t target w : Inv s -> runs s !! id = Some slot -> s_phase slot = Waiting t target ->
  Inv (with_queue (with_runs s (<[id := with_waker (with_phase slot (Queued t)) w]> (runs s))) (queue s ++ [(id, t)])).
Proof.
  intros HI Hs Hp. pose proof (i_executing_le _ HI). pose proof (i_waiters_le _ HI).
  destruct (inv_push s id slot (with_waker (with_phase slot (Queued t)) w) t HI Hs) as [Hq Hnd]; [congruence|done|].
  unfold with_queue, with_runs. cbn [next_id residents runs queue executing waiters].
  eapply (inv_update s id slot); try done; rewrite ?Hp; cbn [s_phase with_waker with_phase is_executing_phase is_waiter tally]; try lia.
  - by left.
  - intros t' [= <-]. by left.
Qed.

Lemma wait_inv s id slot t0 t target w : Inv s -> runs s !! id = Some slot -> s_phase slot = Executing t0 ->
  next_id s = Some t -> is_Some (runs s !! target) -> ~ rtc (waits (runs s)) target id ->
  waiters s <> nz_get (l_waiters limits) ->
  Inv {| next_id := checked_add t 1; residents := residents s;
         runs := <[id := with_waker (with_phase slot (Waiting t target)) w]> (runs s);
         queue := queue s; executing := executing s - 1; waiters := waiters s + 1 |}.
Proof.
  intros HI Hs Hp Hn Htarget Hpath Hw. destruct (counters_pos s id slot HI Hs) as [Hc _]. rewrite Hp in Hc. cbn in Hc.
  pose proof (i_executing_le _ HI). pose proof (i_waiters_le _ HI).
  eapply (inv_update s id slot); try done; rewrite ?Hp; cbn [s_phase with_waker with_phase is_executing_phase is_waiter tally]; try lia.
  - intros k t'. destruct (decide (k = id)) as [->|]; [|done]. rewrite (i_queue _ HI). split; [|done].
    intros (slot' & Hs' & Hq). congruence.
  - apply (i_queue_nodup _ HI).
  - right. by exists t.
  - intros t' [= <-]. by right.
  - intros t' b [= <- <-]. by right.
Qed.

(** Changing residents only. *)
Section Residents.
  Context (s : State) (nx : option N) (m : gmap N Resident) (HI : Inv s) (Hnx : next_after s nx).
  Context (Hsize : (N.of_nat (size m) <= nz_get (l_residents limits))%N).
  Context (Hfresh : forall k n, is_Some (m !! k) -> nx = Some n -> (k < n)%N).
  Context (Hruns : forall k id, (exists r, m !! k = Some r /\ r_run r = Some id) <->
    exists r, residents s !! k = Some r /\ r_run r = Some id).
  Context (Hretired : forall k r, m !! k = Some r -> r_retired r = true -> r_run r <> None).

Lemma inv_residents : Inv (with_residents (with_next_id s nx) m).
Proof.
  destruct HI as [I1 I2 I3 I4 I5 I6 I7 I8 I9 I10 I11 I12 I13 I14 I15].
  split; cbn [next_id residents runs queue executing waiters with_residents with_next_id]; try done.
  - intros id slot Hs. apply Hruns. by apply I8.
  - intros rid r id Hr Hid. destruct (proj1 (Hruns rid id)) as (r' & Hr' & Hid'); [by exists r|]. by apply (I9 rid r').
  - intros n Hn. destruct (next_after_bound s nx n Hnx Hn) as (k & Hk & Hle & _).
    destruct (I13 k Hk) as (F1 & F2 & F3 & F4). split; [|split; [|split]]; cbn [residents runs with_residents with_next_id].
    + intros j Hj. by apply (Hfresh j n).
    + intros j Hj. apply F2 in Hj. lia.
    + intros j slot t Hj Ht. apply (F3 _ _ _ Hj) in Ht. lia.
    + intros a b Hab. apply F4 in Hab. lia.
Qed.
End Residents.

Lemma reserve_inv s id : Inv s -> next_id s = Some id -> N.of_nat (size (residents s)) <> nz_get (l_residents limits) ->
  Inv (with_residents (with_next_id s (checked_add id 1)) (<[id := new_resident]> (residents s))).
Proof.
  intros HI Hn Hsize. pose proof (i_residents_le _ HI). destruct (i_fresh _ HI id Hn) as (F1 & _).
  assert (residents s !! id = None) as Hnone.
  { destruct (residents s !! id) eqn:E; [|done]. assert (id < id)%N by (apply F1; by eexists). lia. }
  apply inv_residents; [done|right; by exists id|..].
  - rewrite map_size_insert_None by done. lia.
  - intros k n Hk Hn'. apply checked_add_Some in Hn' as [-> _]. destruct (decide (k = id)) as [->|]; [lia|].
    rewrite lookup_insert_ne in Hk by done. apply F1 in Hk. lia.
  - intros k j. destruct (decide (k = id)) as [->|]; [|by rewrite lookup_insert_ne].
    rewrite lookup_insert_eq, Hnone. split; [intros (? & [= <-] & ?)|intros (? & ? & _)]; done.
  - intros k r Hk. destruct (decide (k = id)) as [->|]; [rewrite lookup_insert_eq in Hk; by injection Hk as <-|].
    rewrite lookup_insert_ne in Hk by done. by apply (i_retired _ HI k).
Qed.

Lemma with_same_next s m : with_residents (with_next_id s (next_id s)) m = with_residents s m.
Proof. done. Qed.

Lemma retire_idle_inv s id r : Inv s -> residents s !! id = Some r -> r_run r = None ->
  Inv (with_residents s (delete id (residents s))).
Proof.
  intros HI Hr Hidle. rewrite <- with_same_next. pose proof (i_residents_le _ HI).
  apply inv_residents; [done|by left|..].
  - rewrite map_size_delete_Some by eauto. lia.
  - intros k n Hk Hn. destruct (i_fresh _ HI n Hn) as (F1 & _). apply F1. destruct Hk as [r' Hk].
    apply lookup_delete_Some in Hk as [_ Hk]. by exists r'.
  - intros k j. destruct (decide (k = id)) as [->|]; [|by rewrite lookup_delete_ne].
    rewrite lookup_delete_eq, Hr. split; [by intros (? & ? & _)|]. intros (? & [= <-] & ?). congruence.
  - intros k r' Hk. apply lookup_delete_Some in Hk as [_ Hk]. by apply (i_retired _ HI k).
Qed.

Lemma retire_busy_inv s id r : Inv s -> residents s !! id = Some r -> r_run r <> None ->
  Inv (with_residents s (<[id := retired r]> (residents s))).
Proof.
  intros HI Hr Hbusy. rewrite <- with_same_next. pose proof (i_residents_le _ HI).
  apply inv_residents; [done|by left|..].
  - by rewrite map_size_insert_Some.
  - intros k n Hk Hn. destruct (i_fresh _ HI n Hn) as (F1 & _). apply F1.
    destruct (decide (k = id)) as [->|]; [by eexists|]. by rewrite lookup_insert_ne in Hk.
  - intros k j. destruct (decide (k = id)) as [->|]; [|by rewrite lookup_insert_ne].
    rewrite lookup_insert_eq, Hr. split; intros (? & [= <-] & ?); eexists; by split.
  - intros k r' Hk. destruct (decide (k = id)) as [->|]; [rewrite lookup_insert_eq in Hk; by injection Hk as <-|].
    rewrite lookup_insert_ne in Hk by done. by apply (i_retired _ HI k).
Qed.

Lemma wakers_inv s f : (forall x, same_but_waker x (f x)) -> (forall x, s_waker (f x) = s_waker x \/ s_waker (f x) = None) ->
  Inv s -> Inv (with_runs s (f <$> runs s)).
Proof.
  intros Hf Hfw HI. assert (forall x, s_phase (f x) = s_phase x) as Hp by (intros x; by destruct (Hf x) as (_ & -> & _)).
  assert (forall k y, (f <$> runs s) !! k = Some y -> exists x, runs s !! k = Some x /\ s_resident y = s_resident x /\
    s_phase y = s_phase x /\ s_turn y = s_turn x) as Hlook.
  { intros k y Hk. rewrite lookup_fmap in Hk. apply fmap_Some in Hk as (x & Hx & ->). exists x.
    destruct (Hf x) as (? & ? & ? & _). by repeat split. }
  assert (forall a b, waits (f <$> runs s) a b -> waits (runs s) a b) as Hw.
  { intros a b (y & t & Hy & Ht). apply Hlook in Hy as (x & Hx & _ & Hpx & _). exists x, t. split; [done|congruence]. }
  destruct HI as [I1 I2 I3 I4 I5 I6 I7 I8 I9 I10 I11 I12 I13 I14 I15].
  split; cbn [next_id residents runs queue executing waiters with_runs]; rewrite ?count_fmap by done; try done.
  - intros id t. rewrite I6. setoid_rewrite lookup_fmap. setoid_rewrite fmap_Some. split.
    + intros (x & Hx & Ht). exists (f x). rewrite Hp. split; [by exists x|done].
    + intros (y & (x & Hx & ->) & Ht). exists x. rewrite Hp in Ht. done.
  - intros id y Hy. apply Hlook in Hy as (x & Hx & Hr & _). rewrite Hr. by apply I8.
  - intros rid r id Hr Hid. destruct (I9 rid r id Hr Hid) as (x & Hx & Hrx). exists (f x). rewrite lookup_fmap, Hx.
    destruct (Hf x) as (Hfx & _). split; [done|congruence].
  - intros a b y z Hy Hz Ht. apply Hlook in Hy as (y' & Hy' & _ & _ & Hty). apply Hlook in Hz as (z' & Hz' & _ & _ & Htz).
    apply (I11 a b y' z'); [done|done|congruence].
  - intros a b y z t Hy Hz H1 H2. apply Hlook in Hy as (y' & Hy' & _ & Hpy & _). apply Hlook in Hz as (z' & Hz' & _ & Hpz & _).
    apply (I12 a b y' z' t); [done|done|congruence|congruence].
  - intros n Hn. destruct (I13 n Hn) as (F1 & F2 & F3 & F4). split; [done|]. split; [|split]; cbn [runs with_runs].
    + intros k [y Hy]. apply Hlook in Hy as (x & Hx & _). apply F2. by exists x.
    + intros k y t Hy Ht. apply Hlook in Hy as (x & Hx & _ & Hpx & _). apply (F3 k x t Hx). congruence.
    + intros a b Hab. by apply (F4 a b), Hw.
  - intros a Ha. apply (I14 a). revert Ha. by apply tc_mono.
  - intros k y Hk Hy. rewrite lookup_fmap in Hk. apply fmap_Some in Hk as (x & Hx & ->). rewrite Hp. apply (I15 k x Hx).
    destruct (Hfw x); congruence.
Qed.

Lemma poll_inv s id slot w : Inv s -> runs s !! id = Some slot -> is_waiter (s_phase slot) = true ->
  Inv (with_runs s (<[id := with_waker slot w]> (runs s))).
Proof.
  intros HI Hs Hp. pose proof (i_executing_le _ HI). pose proof (i_waiters_le _ HI). unfold with_runs.
  eapply (inv_update s id slot); try done; cbn [s_phase with_waker].
  - intros k t. destruct (decide (k = id)) as [->|]; [|done]. rewrite (i_queue _ HI). naive_solver.
  - apply (i_queue_nodup _ HI).
  - by left.
  - intros t Ht. by left.
  - intros t b _. by left.
Qed.

(** A run that waits for nothing adds no wait. *)
Lemma waits_insert_idle m id y a b : (forall t b, s_phase y <> Waiting t b) -> waits (<[id := y]> m) a b -> waits m a b.
Proof.
  intros Hy Hab. apply waits_insert in Hab. destruct (decide (a = id)); [|done]. destruct Hab as [t Ht]. by apply Hy in Ht.
Qed.

(** A new run of an idle resident. *)
Section Register.
  Context (s : State) (id rid : N) (r : Resident) (generation : N) (slot : Slot) (HI : Inv s).
  Context (Hn : next_id s = Some id) (Hr : residents s !! rid = Some r) (Hidle : r_run r = None).
  Context (Hrid : s_resident slot = rid) (Hp : s_phase slot = Registered) (Hnw : s_waker slot = None).
  Context (Hturn : forall k x, runs s !! k = Some x -> s_turn x <> s_turn slot).
Let owner := {| r_retired := false; r_generation := generation; r_run := Some id |}.
Let s' := with_runs (with_residents (with_next_id s (checked_add id 1)) (<[rid := owner]> (residents s)))
    (<[id := slot]> (runs s)).

Lemma register_new : runs s !! id = None.
Proof.
  destruct (runs s !! id) eqn:E; [|done]. destruct (i_fresh _ HI id Hn) as (_ & F2 & _).
  assert (id < id)%N by (apply F2; by eexists). lia.
Qed.
Lemma register_lookup k x : runs s' !! k = Some x -> k = id /\ x = slot \/ k <> id /\ runs s !! k = Some x.
Proof.
  cbn. destruct (decide (k = id)) as [->|]; [rewrite lookup_insert_eq; intros [= <-]; by left|].
  rewrite lookup_insert_ne by done. by right.
Qed.
Lemma register_fresh n : next_id s' = Some n -> fresh s' n.
Proof.
  destruct (i_fresh _ HI id Hn) as (F1 & F2 & F3 & F4). intros Hn'. cbn in Hn'. apply checked_add_Some in Hn' as [-> _].
  split; [|split; [|split]].
  - intros k Hk. cbn in Hk. assert (is_Some (residents s !! k)) as Hk'; [|apply F1 in Hk'; lia].
    destruct (decide (k = rid)) as [->|]; [by eexists|]. by rewrite lookup_insert_ne in Hk.
  - intros k [x Hk]. apply register_lookup in Hk as [[-> _] | [_ Hk]]; [lia|].
    assert (k < id)%N by (apply F2; by eexists). lia.
  - intros k x t Hk Ht. apply register_lookup in Hk as [[-> ->] | [_ Hk]]; [by rewrite Hp in Ht|].
    apply (F3 k x t Hk) in Ht. lia.
  - intros a b Hab. apply waits_insert_idle in Hab; [|congruence]. apply F4 in Hab. lia.
Qed.
Lemma register_pins k x : runs s' !! k = Some x -> exists r, residents s' !! s_resident x = Some r /\ r_run r = Some k.
Proof.
  intros Hk. apply register_lookup in Hk as [[-> ->] | [Hne Hk]]; cbn.
  - exists owner. rewrite Hrid, lookup_insert_eq. done.
  - destruct (i_pins _ HI k x Hk) as (o & Ho & Hok). exists o. rewrite lookup_insert_ne; [done|]. intros E. congruence.
Qed.
Lemma register_pinned k o j : residents s' !! k = Some o -> r_run o = Some j ->
  exists x, runs s' !! j = Some x /\ s_resident x = k.
Proof.
  cbn. intros Hk Hj. destruct (decide (k = rid)) as [->|Hne].
  - rewrite lookup_insert_eq in Hk. injection Hk as <-. injection Hj as <-. exists slot. by rewrite lookup_insert_eq.
  - rewrite lookup_insert_ne in Hk by done. destruct (i_pinned _ HI k o j Hk Hj) as (x & Hx & Hxk). exists x.
    rewrite lookup_insert_ne; [done|]. intros <-. by rewrite register_new in Hx.
Qed.
Lemma register_inv : Inv s'.
Proof.
  pose proof HI as [I1 I2 I3 I4 I5 I6 I7 I8 I9 I10 I11 I12 I13 I14 I15].
  split; try done; [..|exact register_pins|exact register_pinned| | | |exact register_fresh| |]; cbn.
  - rewrite count_insert_fresh by apply register_new. rewrite Hp. cbn. lia.
  - rewrite count_insert_fresh by apply register_new. rewrite Hp. cbn. lia.
  - by rewrite map_size_insert_Some by eauto.
  - intros k t. rewrite I6. split; intros (x & Hx & Ht); exists x; split; try done.
    + rewrite lookup_insert_ne; [done|]. intros <-. by rewrite register_new in Hx.
    + apply register_lookup in Hx as [[_ ->] | [_ Hx]]; [congruence|done].
  - intros k o Hk Ho. destruct (decide (k = rid)) as [->|]; [rewrite lookup_insert_eq in Hk; by injection Hk as <-|].
    rewrite lookup_insert_ne in Hk by done. by apply (I10 k).
  - intros a b x y Ha Hb Ht. apply register_lookup in Ha as [[-> ->] | [_ Ha]]; apply register_lookup in Hb as [[-> ->] | [_ Hb]];
      [done| | |by apply (I11 a b x y)]; exfalso; [by apply (Hturn b y)|by apply (Hturn a x)].
  - intros a b x y t Ha Hb H1 H2. apply register_lookup in Ha as [[-> ->] | [_ Ha]]; [by rewrite Hp in H1|].
    apply register_lookup in Hb as [[-> ->] | [_ Hb]]; [by rewrite Hp in H2|]. by apply (I12 a b x y t).
  - intros a Ha. apply (I14 a). revert Ha. apply tc_mono. intros c d. apply waits_insert_idle. congruence.
  - intros k x Hk Hx. apply register_lookup in Hk as [[_ ->] | [_ Hk]]; [done|by apply (I15 k)].
Qed.
End Register.

(** A settled run leaves, with its resident where that was retired. *)
Section Complete.
  Context (s : State) (id : N) (slot : Slot) (r : Resident) (HI : Inv s).
  Context (Hs : runs s !! id = Some slot) (Hp : s_phase slot = Settling) (Hr : residents s !! s_resident slot = Some r).
Let m := if r_retired r then delete (s_resident slot) (residents s) else <[s_resident slot := released r]> (residents s).
Let s' := with_residents (with_runs s (delete id (runs s))) m.

Lemma complete_run : r_run r = Some id.
Proof. destruct (i_pins _ HI id slot Hs) as (r' & Hr' & Hid). congruence. Qed.
Lemma complete_resident k o : residents s' !! k = Some o ->
  residents s !! k = Some o /\ k <> s_resident slot \/ k = s_resident slot /\ o = released r /\ r_retired r = false.
Proof.
  cbn. unfold m. destruct (r_retired r) eqn:E; intros H.
  - apply lookup_delete_Some in H as [? ?]. left. split; congruence.
  - apply lookup_insert_Some in H as [[<- <-] | [? ?]]; [by right|]. left. split; congruence.
Qed.
Lemma complete_kept k o : residents s !! k = Some o -> k <> s_resident slot -> residents s' !! k = Some o.
Proof. cbn. unfold m. intros H Hne. destruct (r_retired r); [by rewrite lookup_delete_ne|by rewrite lookup_insert_ne]. Qed.
Lemma complete_lookup k x : runs s' !! k = Some x -> k <> id /\ runs s !! k = Some x.
Proof. cbn. intros H. apply lookup_delete_Some in H as [? ?]. by split. Qed.
Lemma complete_waits a b : waits (runs s') a b -> waits (runs s) a b.
Proof. intros (x & t & Hx & Ht). apply complete_lookup in Hx as [_ Hx]. by exists x, t. Qed.
Lemma complete_fresh n : next_id s' = Some n -> fresh s' n.
Proof.
  intros Hn. destruct (i_fresh _ HI n Hn) as (F1 & F2 & F3 & F4). split; [|split; [|split]].
  - intros k [o Hk]. apply F1. apply complete_resident in Hk as [[Hk _] | (-> & _)]; by eexists.
  - intros k [x Hk]. apply complete_lookup in Hk as [_ Hk]. apply F2. by eexists.
  - intros k x t Hk. apply complete_lookup in Hk as [_ Hk]. by apply (F3 k).
  - intros a b Hab. by apply (F4 a b), complete_waits.
Qed.
Lemma complete_size : (N.of_nat (size m) <= nz_get (l_residents limits))%N.
Proof.
  pose proof (i_residents_le _ HI). unfold m. destruct (r_retired r).
  - rewrite map_size_delete_Some by eauto. lia.
  - by rewrite map_size_insert_Some by eauto.
Qed.
Lemma complete_inv : Inv s'.
Proof.
  pose proof HI as [I1 I2 I3 I4 I5 I6 I7 I8 I9 I10 I11 I12 I13 I14 I15].
  split; try done; [..|exact complete_fresh| |].
  - pose proof (count_delete is_executing_phase _ _ _ Hs) as H. rewrite Hp in H. cbn in *. lia.
  - pose proof (count_delete is_waiter _ _ _ Hs) as H. rewrite Hp in H. cbn in *. lia.
  - exact complete_size.
  - intros k t. cbn. rewrite I6. split; intros (x & Hx & Ht); exists x; split; try done.
    + rewrite lookup_delete_ne; [done|]. intros <-. congruence.
    + by apply complete_lookup in Hx as [_ Hx].
  - intros k x Hk. apply complete_lookup in Hk as [Hne Hk]. destruct (I8 k x Hk) as (o & Ho & Hok). exists o.
    split; [|done]. apply complete_kept; [done|]. intros E. rewrite E, Hr in Ho. injection Ho as <-.
    rewrite complete_run in Hok. congruence.
  - intros k o j Hk Hj. apply complete_resident in Hk as [[Hk Hne] | (-> & -> & _)]; [|done].
    destruct (I9 k o j Hk Hj) as (x & Hx & Hxk). exists x. cbn. rewrite lookup_delete_ne; [done|]. intros <-. congruence.
  - intros k o Hk Ho. apply complete_resident in Hk as [[Hk _] | (-> & -> & Hret)]; [by apply (I10 k)|].
    cbn in Ho. congruence.
  - intros a b x y Ha Hb. apply complete_lookup in Ha as [_ Ha]. apply complete_lookup in Hb as [_ Hb]. by apply I11.
  - intros a b x y t Ha Hb. apply complete_lookup in Ha as [_ Ha]. apply complete_lookup in Hb as [_ Hb]. by apply I12.
  - intros a Ha. apply (I14 a). revert Ha. apply tc_mono. exact complete_waits.
  - intros k x Hk. apply complete_lookup in Hk as [_ Hk]. by apply (I15 k).
Qed.
End Complete.

(** Every rule keeps the invariant. *)
Lemma step_inv s s' : step s s' -> Inv s -> Inv s'.
Proof.
  destruct 1; intros HI; [by apply wakers_inv|by apply poll_inv|by apply reserve_inv|by eapply retire_idle_inv|by eapply retire_busy_inv
    |by eapply register_inv|by eapply enqueue_inv|by eapply requeue_inv|by eapply grant_inv|by eapply wait_inv
    |by apply settled_inv|by apply complete_inv].
Qed.
Lemma steps_inv s s' : rtc step s s' -> Inv s -> Inv s'.
Proof. induction 1; [done|]. intros HI. apply IHrtc. by eapply step_inv. Qed.
End Protocol.
