(* ===== verification/SchedulerOrder.v ===== *)
(** * The order of grants

    How the phases of a run follow each other under the protocol, and that no run gets
    a slot before one that was queued ahead of it. *)
From stdpp Require Export gmap.
From S2P Require Import Prelude Fallible Scheduler SchedulerRules.

(** The life of a run; [next] is the next identifier. *)
Inductive moves (next : option N) : Phase -> Phase -> Prop :=
| moves_stay p : moves next p p
| moves_queue t : next = Some t -> moves next Registered (Queued t)
| moves_grant t : moves next (Queued t) (Executing t)
| moves_wait t0 t target : next = Some t -> moves next (Executing t0) (Waiting t target)
| moves_return t target : moves next (Waiting t target) (Queued t)
| moves_settle p : moves next p Settling.

Section Order.
  Context (limits : SchedulerLimits).
  Notation step := (step limits).
  Notation Inv := (Inv limits).

Lemma step_next s s' : step s s' -> next_after s (next_id s').
Proof. destruct 1; try (by left); right; by eexists. Qed.

(** What one step does to a run. *)
Lemma insert_moves (m : gmap N Slot) next id x y k z : m !! id = Some x -> moves next (s_phase x) (s_phase y) ->
  <[id := y]> m !! k = Some z -> exists x', m !! k = Some x' /\ moves next (s_phase x') (s_phase z).
Proof.
  intros Hx Hm Hk. apply lookup_insert_Some in Hk as [[<- <-] | [Hne Hk]]; [by exists x|].
  exists z. split; [done|constructor].
Qed.
Lemma step_moves s s' k y : step s s' -> runs s' !! k = Some y ->
  (exists x, runs s !! k = Some x /\ moves (next_id s) (s_phase x) (s_phase y)) \/ next_id s = Some k /\ s_phase y = Registered.
Proof.
  destruct 1 as [s f Hf Hfw|s id x w Hx Hw|s id Hn|s id r Hr|s id r Hr|s id rid r g x Hn Hr Hret Hg Hrun Hrid Hp|s id x t Hx Hp Hn
    |s id x t target w Hx Hp|s id t rest x Hq Hx Hp|s id x t0 t target w Hx Hp Hn|s id x Hx|s id x r Hx Hp]; cbn; intros Hk.
  - left. rewrite lookup_fmap in Hk. apply fmap_Some in Hk as (x & Hx & ->). exists x. split; [done|].
    destruct (Hf x) as (_ & <- & _). constructor.
  - left. eapply insert_moves; [exact Hx| |exact Hk]. constructor.
  - left. exists y. split; [done|constructor].
  - left. exists y. split; [done|constructor].
  - left. exists y. split; [done|constructor].
  - apply lookup_insert_Some in Hk as [[<- <-] | [_ Hk]]; [by right|]. left. exists y. split; [done|constructor].
  - left. eapply insert_moves; [exact Hx| |exact Hk]. rewrite Hp. by constructor.
  - left. eapply insert_moves; [exact Hx| |exact Hk]. rewrite Hp. constructor.
  - left. eapply insert_moves; [exact Hx| |exact Hk]. rewrite Hp. constructor.
  - left. eapply insert_moves; [exact Hx| |exact Hk]. rewrite Hp. by constructor.
  - left. eapply insert_moves; [exact Hx| |exact Hk]. constructor.
  - left. apply lookup_delete_Some in Hk as [_ Hk]. exists y. split; [done|constructor].
Qed.

(** ** Tickets that are not used again *)

(** The identifiers of the entry were given out before. *)
Definition issued (s : State) (e : N * N) : Prop := forall n, next_id s = Some n -> (e.1 < n)%N /\ (e.2 < n)%N.
(** The run is not queued under its ticket and never will be. *)
Definition out (s : State) (e : N * N) : Prop := issued s e /\
  forall x, runs s !! e.1 = Some x -> phase_ticket (s_phase x) = Some e.2 -> s_phase x = Executing e.2.
(** The run has nothing under its ticket any more. *)
Definition gone (s : State) (e : N * N) : Prop := issued s e /\
  forall x, runs s !! e.1 = Some x -> phase_ticket (s_phase x) <> Some e.2.

Lemma issued_step s s' e : step s s' -> issued s e -> issued s' e.
Proof.
  intros Hst He n Hn. destruct (next_after_bound s _ n (step_next _ _ Hst) Hn) as (m & Hm & Hle & _). apply He in Hm. lia.
Qed.
Lemma issued_steps s s' e : rtc step s s' -> issued s e -> issued s' e.
Proof. induction 1; [done|]. intros He. apply IHrtc. by eapply issued_step. Qed.
Lemma ticket_issued s k x t : Inv s -> runs s !! k = Some x -> phase_ticket (s_phase x) = Some t -> issued s (k, t).
Proof.
  intros HI Hx Ht n Hn. destruct (i_fresh _ _ HI n Hn) as (_ & F2 & F3 & _). split; [apply F2; by eexists|by apply (F3 k x t)].
Qed.
Lemma queued_issued s e : Inv s -> e ∈ queue s -> issued s e.
Proof.
  intros HI He. destruct e as [k t]. apply (i_queue _ _ HI) in He as (x & Hx & Hp).
  apply (ticket_issued s k x t HI Hx). by rewrite Hp.
Qed.

Lemma out_step s s' e : step s s' -> out s e -> out s' e.
Proof.
  intros Hst [Hi He]. split; [by eapply issued_step|]. intros y Hy Ht.
  destruct (step_moves s s' _ y Hst Hy) as [(x & Hx & Hm) | [Hn Hp]]; [|by rewrite Hp in Ht].
  specialize (He x Hx). generalize dependent (s_phase y). generalize dependent (s_phase x). intros p He q Ht Hm.
  destruct Hm as [p|t Hn|t|t0 t target Hn|t target|p]; [by apply He|..]; cbn in Ht; try injection Ht as ->; try done.
  - apply Hi in Hn. lia.
  - apply Hi in Hn. lia.
  - by specialize (He eq_refl).
Qed.
Lemma gone_step s s' e : step s s' -> gone s e -> gone s' e.
Proof.
  intros Hst [Hi He]. split; [by eapply issued_step|]. intros y Hy Ht.
  destruct (step_moves s s' _ y Hst Hy) as [(x & Hx & Hm) | [Hn Hp]]; [|by rewrite Hp in Ht].
  specialize (He x Hx). generalize dependent (s_phase y). generalize dependent (s_phase x). intros p He q Ht Hm.
  destruct Hm as [p|t Hn|t|t0 t target Hn|t target|p]; [by apply He|..]; cbn in Ht; try injection Ht as ->; try done.
  - apply Hi in Hn. lia.
  - apply Hi in Hn. lia.
Qed.
Lemma gone_steps s s' e : rtc step s s' -> gone s e -> gone s' e.
Proof. induction 1; [done|]. intros He. apply IHrtc. by eapply gone_step. Qed.

(** The run has been stopped. *)
Definition known (s : State) (id : N) : Prop := forall n, next_id s = Some n -> (id < n)%N.
Definition ended (s : State) (id : N) : Prop := known s id /\ forall x, runs s !! id = Some x -> s_phase x = Settling.
Lemma known_step s s' id : step s s' -> known s id -> known s' id.
Proof.
  intros Hst He n Hn. destruct (next_after_bound s _ n (step_next _ _ Hst) Hn) as (m & Hm & Hle & _). apply He in Hm. lia.
Qed.
Lemma known_steps s s' id : rtc step s s' -> known s id -> known s' id.
Proof. induction 1; [done|]. intros He. apply IHrtc. by eapply known_step. Qed.
Lemma ended_step s s' id : step s s' -> ended s id -> ended s' id.
Proof.
  intros Hst [Hk He]. split; [by eapply known_step|]. intros y Hy.
  destruct (step_moves s s' id y Hst Hy) as [(x & Hx & Hm) | [Hn _]]; [|apply Hk in Hn; lia].
  apply He in Hx. rewrite Hx in Hm. by inversion Hm.
Qed.
Lemma ended_steps s s' id : rtc step s s' -> ended s id -> ended s' id.
Proof. induction 1; [done|]. intros He. apply IHrtc. by eapply ended_step. Qed.

(** ** First come, first served *)
Definition before (s : State) (x y : N * N) : Prop := exists l1 l2 l3, queue s = l1 ++ x :: l2 ++ y :: l3.

Lemma before_in s x y : before s x y -> x ∈ queue s /\ y ∈ queue s.
Proof. intros (l1 & l2 & l3 & ->). set_solver. Qed.
Lemma before_filter q (x y : N * N) (P : N * N -> bool) l1 l2 l3 : q = l1 ++ x :: l2 ++ y :: l3 -> P x = true -> P y = true ->
  exists l1 l2 l3, List.filter P q = l1 ++ x :: l2 ++ y :: l3.
Proof.
  intros -> Hx Hy. rewrite List.filter_app. cbn. rewrite Hx, List.filter_app. cbn. rewrite Hy. by eexists _, _, _.
Qed.

Lemma settle_gone s id x t : Inv s -> runs s !! id = Some x -> (id, t) ∈ queue s -> gone (settled s id x) (id, t).
Proof.
  intros HI Hx Hq. split; [exact (queued_issued s (id, t) HI Hq)|]. intros y Hy. cbn in Hy. rewrite lookup_insert_eq in Hy.
  by injection Hy as <-.
Qed.
Lemma gone_out s e : gone s e -> out s e.
Proof. intros [Hi He]. split; [done|]. intros x Hx Ht. by apply He in Hx. Qed.

(** Where two runs are queued, the second cannot overtake the first. *)
Definition ordered (s : State) (x y : N * N) : Prop := before s x y \/ out s x \/ gone s y.

Lemma before_step s s' x y : Inv s -> step s s' -> before s x y -> ordered s' x y.
Proof.
  intros HI Hst Hb. pose proof (before_in s x y Hb) as [Hx Hy]. pose proof (issued_step s s' x Hst (queued_issued s x HI Hx)) as Hi.
  destruct Hst as [| | | | | |s id slot t Hs Hp Hn|s id slot t target w Hs Hp|s id t rest slot Hq Hs Hp| |s id slot Hs|];
    try (by left); destruct Hb as (l1 & l2 & l3 & Hb).
  - left. exists l1, l2, (l3 ++ [(id, t)]). cbn. rewrite Hb. by rewrite <- !app_assoc; cbn; rewrite <- app_assoc.
  - left. exists l1, l2, (l3 ++ [(id, t)]). cbn. rewrite Hb. by rewrite <- !app_assoc; cbn; rewrite <- app_assoc.
  - rewrite Hq in Hb. destruct l1 as [|e l1]; injection Hb as <- ->; [|by left; eexists _, _, _].
    right. left. split; [done|]. intros z Hz _. cbn in Hz. rewrite lookup_insert_eq in Hz. by injection Hz as <-.
  - destruct x as [kx tx], y as [ky ty]. destruct (decide (kx = id)) as [->|Hnx].
    { right. left. apply gone_out. by apply settle_gone. }
    destruct (decide (ky = id)) as [->|Hny]; [right; right; by apply settle_gone|].
    left. eapply before_filter; [exact Hb|..]; by apply negb_true_iff, N.eqb_neq.
Qed.
Lemma ordered_steps s s' x y : Inv s -> rtc step s s' -> ordered s x y -> ordered s' x y.
Proof.
  intros HI Hst. induction Hst as [|s s1 s' Hs _ IH]; [done|]. intros Ho. apply IH; [by eapply step_inv|].
  destruct Ho as [Hb | [Ho | Hg]]; [by eapply before_step|right; left; by eapply out_step|right; right; by eapply gone_step].
Qed.
Lemma ordered_spec s x y z : Inv s -> ordered s x y -> runs s !! y.1 = Some z -> s_phase z = Executing y.2 -> x ∉ queue s.
Proof.
  intros HI Ho Hz Hp Hx. destruct x as [kx tx], y as [ky ty]. destruct Ho as [Hb | [[_ Ho] | [_ Hg]]].
  - apply before_in in Hb as [_ Hy]. apply (i_queue _ _ HI) in Hy as (z' & Hz' & Hp'). cbn in *. congruence.
  - apply (i_queue _ _ HI) in Hx as (z' & Hz' & Hp'). specialize (Ho z' Hz'). rewrite Hp' in Ho. by specialize (Ho eq_refl).
  - apply (Hg z Hz). by rewrite Hp.
Qed.
End Order.
