(* ===== verification/SchedulerProofs.v ===== *)
(** * The operations of the scheduler

    Each operation of [managed/scheduler/state.rs], from any state in which [Inv] holds:
    it returns, takes steps of the protocol only, changes nothing where it fails, and
    keeps or wakes every waker. *)
From stdpp Require Export gmap.
From S2P Require Import Prelude Fallible Scheduler SchedulerRules SchedulerOrder.

(** ** Running the primitives *)
Definition at_state (w : Work) (s : State) : Work := {| w_state := s; w_effects := w_effects w; w_clock := w_clock w |}.
Definition with_effects (w : Work) (f : Effects -> Effects) : Work :=
  {| w_state := w_state w; w_effects := f (w_effects w); w_clock := w_clock w |}.
Definition tick (w : Work) : Work := {| w_state := w_state w; w_effects := w_effects w; w_clock := S (w_clock w) |}.

Section Run.
  Context {A : Type} (w : Work) (Q : result A SchedulerError -> Work -> Prop).

Lemma run_get k : after (k (w_state w)) w Q -> after (mthen get_state k) w Q.
Proof. exact (fun H => H). Qed.
Lemma run_put s k : after (k tt) (at_state w s) Q -> after (mthen (put_state s) k) w Q.
Proof. exact (fun H => H). Qed.
Lemma run_effect f k : after (k tt) (with_effects w f) Q -> after (mthen (effect f) k) w Q.
Proof. exact (fun H => H). Qed.
Lemma run_cancelled cancelled_at h k : after (k (cancelled_at (w_clock w) h)) (tick w) Q ->
  after (mthen (is_cancelled cancelled_at h) k) w Q.
Proof. exact (fun H => H). Qed.
Lemma run_ok {B} (b : B) k : after (k b) w Q -> after (mthen (mok b) k) w Q.
Proof. exact (fun H => H). Qed.
Lemma run_or {B} e (o : option B) k : (o = None -> Q (Err e) w) -> (forall b, o = Some b -> after (k b) w Q) ->
  after (mthen (mok_or e o) k) w Q.
Proof. destruct o; [intros _ H; by apply H|intros H _; by apply H]. Qed.
Lemma run_unwrap {B} (o : option B) b k : o = Some b -> after (k b) w Q -> after (mthen (munwrap o) k) w Q.
Proof. intros ->. exact (fun H => H). Qed.
Lemma run_fail_if (b : bool) e m : (b = true -> Q (Err e) w) -> (b = false -> after m w Q) ->
  after (mfail_if b with e in m) w Q.
Proof. destruct b; [intros H _; by apply H|intros _ H; by apply H]. Qed.
Lemma run_allocate k : (next_id (w_state w) = None -> Q (Err Exhausted) w) ->
  (forall id, next_id (w_state w) = Some id ->
    after (k id) (at_state w (with_next_id (w_state w) (checked_add id 1))) Q) ->
  after (mthen allocate k) w Q.
Proof.
  intros HN HS. destruct (next_id (w_state w)) as [id|] eqn:E.
  - specialize (HS id eq_refl). unfold after, allocate, mthen, get_state, mget, mok_or. cbn. rewrite E. exact HS.
  - specialize (HN eq_refl). unfold after, allocate, mthen, get_state, mget, mok_or. cbn. rewrite E. exact HN.
Qed.
Lemma run_assoc {B C D} (m : S_ B) (m' : S_ C) (m'' : S_ D) (k : D -> S_ A) :
  after (let* d := (let* _ := m in let* _ := m' in m'') in k d) w Q ->
  after (let* _ := m in let* _ := m' in let* d := m'' in k d) w Q.
Proof.
  unfold after, mthen. destruct (m w) as [[[b|] w1]|]; [|done|done]. by destruct (m' w1) as [[[c|] w2]|].
Qed.
Lemma run_call {B} (m : S_ B) k (P : B -> Work -> Prop) :
  after m w (fun r w' => exists b, r = Ok b /\ P b w') -> (forall b w', P b w' -> after (k b) w' Q) -> after (mthen m k) w Q.
Proof.
  intros Hm Hk. apply after_then. eapply after_mono; [exact Hm|]. intros r w' (b & -> & Hb). by apply Hk.
Qed.
End Run.

Ltac srun :=
  cbv zeta;
  lazymatch goal with
  | |- after (mthen get_state _) _ _ => apply run_get
  | |- after (mthen (put_state _) _) _ _ => apply run_put
  | |- after (mthen (effect _) _) _ _ => apply run_effect
  | |- after (mthen (is_cancelled _ _) _) _ _ => apply run_cancelled
  | |- after (mthen (mok _) _) _ _ => apply run_ok
  | |- after (mthen (mok_or _ _) _) _ _ => apply run_or
  | |- after (mthen allocate _) _ _ => apply run_allocate
  | |- after (mfail_if _ with _ in _) _ _ => apply run_fail_if
  end.

(** ** Wakers *)

(** Every waker of [w] is still stored, its run in the same phase, or has been woken;
    that of the run which polls may have been replaced. *)
Record attended (own : option N) (w w' : Work) : Prop := {
  a_wake : e_wake (w_effects w) ⊆ e_wake (w_effects w');
  a_discard : e_discard (w_effects w) ⊆ e_discard (w_effects w');
  a_wakers : forall k slot v, runs (w_state w) !! k = Some slot -> s_waker slot = Some v ->
    (exists slot', runs (w_state w') !! k = Some slot' /\ s_waker slot' = Some v /\ s_phase slot' = s_phase slot) \/
    v ∈ e_wake (w_effects w') \/ own = Some k /\ v ∈ e_discard (w_effects w');
}.

Lemma attended_same own w w' : w_state w' = w_state w -> w_effects w' = w_effects w -> attended own w w'.
Proof. intros Hs He. split; rewrite ?Hs, ?He; [done|done|]. intros k slot v Hk Hv. left. by exists slot. Qed.
Lemma attended_trans own w1 w2 w3 : attended own w1 w2 -> attended own w2 w3 -> attended own w1 w3.
Proof.
  intros [A1 A2 A3] [B1 B2 B3]. split; [by etrans|by etrans|]. intros k slot v Hk Hv.
  destruct (A3 k slot v Hk Hv) as [(slot' & Hk' & Hv' & Hp) | [Hw | [Ho Hd]]].
  - destruct (B3 k slot' v Hk' Hv') as [(slot'' & Hk'' & Hv'' & Hp') | H]; [|by right].
    left. exists slot''. repeat split; [done|done|congruence].
  - right. left. by apply B1.
  - right. right. split; [done|by apply B2].
Qed.
Lemma attended_ext own w w1 w2 : runs (w_state w2) = runs (w_state w1) -> w_effects w2 = w_effects w1 ->
  attended own w w1 -> attended own w w2.
Proof. intros Hr He [A1 A2 A3]. split; rewrite ?He, ?Hr; done. Qed.
Lemma attended_own own w w' : attended None w w' -> attended own w w'.
Proof.
  intros [A1 A2 A3]. split; [done|done|]. intros k slot v Hk Hv.
  destruct (A3 k slot v Hk Hv) as [H | [H | [? _]]]; [by left|by right; left|done].
Qed.

(** ** The keys of a map *)
Lemma btree_keys_spec {A} (m : gmap N A) k : k ∈ btree_keys m <-> is_Some (m !! k).
Proof. unfold btree_keys. rewrite merge_sort_Permutation, elem_of_elements. apply elem_of_dom. Qed.

(** ** Waking dependents *)
Definition unwaked (id : N) (slot : Slot) : Slot := if waits_for id slot then with_waker slot None else slot.
Definition woken (id : N) (m : gmap N Slot) : list N :=
  omap s_waker (List.filter (waits_for id) (omap (fun k => m !! k) (btree_keys m))).
Definition dependents_woken (id : N) (w : Work) : Work :=
  with_effects (at_state w (with_runs (w_state w) (unwaked id <$> runs (w_state w))))
    (fun e => foldl (fun e v => effects_wake e (Some v)) e (woken id (runs (w_state w)))).

Lemma wake_dependents_run id w : wake_dependents id w = Some (Ok tt, dependents_woken id w).
Proof. done. Qed.
Lemma wake_all vs e : let e' := foldl (fun e v => effects_wake e (Some v)) e vs in
  e_wake e' = e_wake e ++ vs /\ e_discard e' = e_discard e /\ e_cancel e' = e_cancel e /\ e_removed e' = e_removed e.
Proof.
  cbn. revert e. induction vs as [|v vs IH]; intros e; [by rewrite app_nil_r|]. cbn.
  destruct (IH (effects_wake e (Some v))) as (-> & -> & -> & ->). cbn. by rewrite <- app_assoc.
Qed.
Lemma woken_spec id m k slot v : m !! k = Some slot -> waits_for id slot = true -> s_waker slot = Some v -> v ∈ woken id m.
Proof.
  intros Hk Hw Hv. unfold woken. apply list_elem_of_omap. exists slot. split; [|done].
  apply list_elem_of_In, filter_In. split; [|done]. apply list_elem_of_In, list_elem_of_omap. exists k.
  split; [|done]. apply btree_keys_spec. by eexists.
Qed.
Lemma unwaked_same id x : same_but_waker x (unwaked id x).
Proof. unfold unwaked. by destruct (waits_for id x). Qed.
Lemma unwaked_waker id x : s_waker (unwaked id x) = s_waker x \/ s_waker (unwaked id x) = None.
Proof. unfold unwaked. destruct (waits_for id x); [by right|by left]. Qed.

Lemma dependents_woken_attended id w : attended None w (dependents_woken id w).
Proof.
  destruct (wake_all (woken id (runs (w_state w))) (w_effects w)) as (Hw & Hd & _).
  split; cbn [w_effects dependents_woken with_effects at_state]; rewrite ?Hw, ?Hd; [set_solver|done|].
  intros k slot v Hk Hv. destruct (waits_for id slot) eqn:E.
  - right. left. rewrite elem_of_app. right. by eapply woken_spec.
  - left. exists slot. cbn. rewrite lookup_fmap, Hk. cbn. unfold unwaked. by rewrite E.
Qed.
(** No run that waits for [id] keeps a waker. *)
Lemma dependents_woken_all id w k slot v : runs (w_state w) !! k = Some slot -> waits_for id slot = true ->
  s_waker slot = Some v -> v ∈ e_wake (w_effects (dependents_woken id w)).
Proof.
  intros Hk Hd Hv. destruct (wake_all (woken id (runs (w_state w))) (w_effects w)) as (Hw & _).
  cbn [w_effects dependents_woken with_effects at_state]. rewrite Hw, elem_of_app. right. by eapply woken_spec.
Qed.

(** ** Stopping a run *)
Definition run_stopped (id : N) (slot : Slot) (cancel : bool) (w : Work) : Work :=
  dependents_woken id (at_state
    (with_effects w (fun e => effects_wake (if cancel then effects_cancel e (s_handle slot) else e) (s_waker slot)))
    (settled (w_state w) id slot)).

Lemma stop_run_here id ticket cancel w slot : runs (w_state w) !! id = Some slot ->
  ticket = None \/ ticket = phase_ticket (s_phase slot) ->
  (tally (is_executing_phase (s_phase slot)) <= executing (w_state w))%N ->
  (tally (is_waiter (s_phase slot)) <= waiters (w_state w))%N ->
  stop_run id ticket cancel w = Some (Ok tt, run_stopped id slot cancel w).
Proof.
  intros Hs Ht He Hw. unfold stop_run.
  assert (bool_decide (ticket <> None) && negb (bool_decide (ticket = phase_ticket (s_phase slot))) = false) as Hg.
  { destruct Ht as [-> | ->]; [done|]. rewrite (bool_decide_true (_ = _)) by done. apply andb_false_r. }
  unfold get_state, mthen, mget, mok. cbn [w_state]. rewrite Hs, Hg. unfold run_stopped, settled, dependents_woken.
  destruct (s_phase slot) eqn:Ep; cbn [tally is_executing_phase is_waiter] in *; rewrite ?N.sub_0_r;
    try (rewrite (proj2 (checked_sub_Some _ _ _)) by (split; [reflexivity|lia])); by destruct cancel.
Qed.

Lemma run_stopped_attended id slot cancel w : runs (w_state w) !! id = Some slot ->
  attended None w (run_stopped id slot cancel w).
Proof.
  intros Hs. unfold run_stopped. eapply attended_trans; [|apply dependents_woken_attended].
  split; cbn [w_effects at_state with_effects effects_wake e_wake e_discard]; [destruct cancel; cbn; set_solver|by destruct cancel|].
  intros k x v Hk Hv. destruct (decide (k = id)) as [->|Hne].
  - rewrite Hs in Hk. injection Hk as <-. right. left. rewrite Hv, elem_of_app. right. cbn. set_solver.
  - left. exists x. cbn. rewrite lookup_insert_ne by done. done.
Qed.
(** Every run that waits for the stopped one is woken. *)
Lemma run_stopped_wakes id slot cancel w k x v : runs (w_state w) !! k = Some x -> k <> id ->
  waits_for id x = true -> s_waker x = Some v -> v ∈ e_wake (w_effects (run_stopped id slot cancel w)).
Proof.
  intros Hk Hne Hw Hv. unfold run_stopped. apply (dependents_woken_all id _ k x v); [|done|done].
  cbn. by rewrite lookup_insert_ne.
Qed.

Section Operations.
  Context (cancelled_at : nat -> N -> bool) (limits : SchedulerLimits).
  Notation step := (step limits).
  Notation Inv := (Inv limits).

Lemma run_stopped_steps id slot cancel w : runs (w_state w) !! id = Some slot ->
  rtc step (w_state w) (w_state (run_stopped id slot cancel w)).
Proof.
  intros Hs. eapply rtc_l; [by apply (step_settle limits _ id slot)|]. apply rtc_once.
  apply (step_wakers limits (settled (w_state w) id slot)); [apply unwaked_same|apply unwaked_waker].
Qed.

(** A slot is free only where no run is queued. *)
Definition conserving (s : State) : Prop := queue s = [] \/ executing s = nz_get (l_executions limits).

(** The effects of [drive]: some steps, no waker lost, all slots in use. *)
Definition driven (w w' : Work) : Prop :=
  rtc step (w_state w) (w_state w') /\ attended None w w' /\ conserving (w_state w').

Lemma driven_l w1 w2 w3 : rtc step (w_state w1) (w_state w2) -> attended None w1 w2 -> driven w2 w3 -> driven w1 w3.
Proof. intros H1 H2 (H3 & H4 & H5). split; [by etrans|]. split; [by eapply attended_trans|done]. Qed.

Lemma settled_pop s id t rest slot : queue s = (id, t) :: rest -> settled (with_queue s rest) id slot = settled s id slot.
Proof. intros Hq. unfold settled. cbn. rewrite Hq. cbn. by rewrite N.eqb_refl. Qed.

(** The first queued run, where it was cancelled. *)
Lemma drive_cancelled w id t rest slot : Inv (w_state w) -> queue (w_state w) = (id, t) :: rest ->
  runs (w_state w) !! id = Some slot -> s_phase slot = Queued t ->
  let w1 := tick (at_state w (with_queue (w_state w) rest)) in
  stop_run id (Some t) true w1 = Some (Ok tt, run_stopped id slot true w1) /\
  w_state (run_stopped id slot true w1) = w_state (run_stopped id slot true w) /\
  w_effects (run_stopped id slot true w1) = w_effects (run_stopped id slot true w).
Proof.
  intros HI Hq Hs Hp w1. destruct (counters_pos limits _ id slot HI Hs) as [Hc1 Hc2]. split; [|].
  - apply stop_run_here; [done|right; by rewrite Hp|done|done].
  - unfold run_stopped, dependents_woken, w1. cbn [w_state at_state with_effects tick w_effects].
    by rewrite (settled_pop _ _ _ _ _ Hq).
Qed.

(** The first queued run, where it gets a slot. *)
Definition run_granted (id t : N) (rest : list (N * N)) (slot : Slot) (w : Work) : Work :=
  let s := w_state w in
  tick (with_effects (at_state w {| next_id := next_id s; residents := residents s;
    runs := <[id := with_waker (with_phase slot (Executing t)) None]> (runs s);
    queue := rest; executing := executing s + 1; waiters := waiters s - 1 |}) (fun e => effects_wake e (s_waker slot))).
Lemma run_granted_attended id t rest slot w : runs (w_state w) !! id = Some slot -> attended None w (run_granted id t rest slot w).
Proof.
  intros Hs. split; cbn; [set_solver|done|]. intros k x v Hk Hv. destruct (decide (k = id)) as [->|Hne].
  - rewrite Hs in Hk. injection Hk as <-. right. left. rewrite Hv, elem_of_app. right. cbn. set_solver.
  - left. exists x. by rewrite lookup_insert_ne.
Qed.

Lemma drive_go_spec fuel w : Inv (w_state w) -> length (queue (w_state w)) < fuel ->
  after (drive_go cancelled_at limits fuel) w (fun r w' => exists u, r = Ok u /\ driven w w').
Proof.
  revert w. induction fuel as [|fuel IH]; intros w HI Hf; [lia|]. cbn [drive_go]. srun.
  pose proof (i_executing_le _ _ HI) as Hle. destruct (N.ltb_spec (executing (w_state w)) (nz_get (l_executions limits))) as [Hlt|Hge].
  2:{ exists tt. split; [done|]. split; [done|]. split; [by apply attended_same|]. right. lia. }
  destruct (queue (w_state w)) as [|[id t] rest] eqn:Hq.
  { exists tt. split; [done|]. split; [done|]. split; [by apply attended_same|]. by left. }
  destruct (proj1 (i_queue _ _ HI id t)) as (slot & Hs & Hp); [rewrite Hq; by left|].
  srun. cbn [runs with_queue]. rewrite Hs, Hp. rewrite bool_decide_true by done. cbn [negb]. srun.
  destruct (cancelled_at _ _).
  - destruct (drive_cancelled w id t rest slot HI Hq Hs Hp) as (Hrun & Hst & Hef).
    set (w1 := tick _) in *. apply after_then. unfold after at 1. change (tick (at_state w (with_queue (w_state w) rest))) with w1.
    rewrite Hrun. pose proof (run_stopped_steps id slot true w Hs) as Hsteps. rewrite <- Hst in Hsteps.
    eapply after_mono; [apply IH|].
    + by eapply steps_inv.
    + cbn. eapply Nat.le_lt_trans; [apply List.filter_length_le|]. cbn in Hf. lia.
    + intros r w' (u & -> & Hd). exists u. split; [done|]. eapply driven_l; [exact Hsteps| |exact Hd].
      eapply attended_trans; [by apply (run_stopped_attended id slot true)|by apply attended_same].
  - destruct (counters_pos limits _ id slot HI Hs) as [_ Hc]. rewrite Hp in Hc. cbn in Hc.
    eapply run_unwrap; [apply checked_sub_Some; split; [reflexivity|cbn; lia]|]. srun. srun.
    assert (step (w_state w) (w_state (run_granted id t rest slot w))) as Hstep by by apply (step_grant limits).
    eapply after_mono; [apply (IH (run_granted id t rest slot w))|].
    + by eapply step_inv.
    + cbn in *. lia.
    + intros r w' (u & -> & Hd). exists u. split; [done|]. eapply driven_l; [by apply rtc_once| |exact Hd].
      by apply run_granted_attended.
Qed.
Lemma drive_spec w : Inv (w_state w) ->
  after (drive cancelled_at limits) w (fun r w' => exists u, r = Ok u /\ driven w w').
Proof. intros HI. unfold drive. srun. apply drive_go_spec; [done|lia]. Qed.

(** ** What every operation does *)
Record performed {A} (own : option N) (w : Work) (r : result A SchedulerError) (w' : Work) : Prop := {
  p_steps : rtc step (w_state w) (w_state w');
  p_attended : attended own w w';
  p_conserving : conserving (w_state w) -> conserving (w_state w');
  p_error : forall e, r = Err e -> w_state w' = w_state w /\ w_effects w' = w_effects w;
}.

Lemma performed_same {A} own w (r : result A SchedulerError) w' :
  w_state w' = w_state w -> w_effects w' = w_effects w -> performed own w r w'.
Proof. intros Hs He. split; [by rewrite Hs|by apply attended_same|by rewrite Hs|done]. Qed.
Hint Resolve performed_same : core.
Ltac sfail := intros; split; [by apply performed_same|done].
Tactic Notation "refused" "by" tactic3(t) := intros; split; [by apply performed_same|cbn; by t].

Lemma performed_driven {A} own w1 w2 w3 (a : A) : rtc step (w_state w1) (w_state w2) -> attended own w1 w2 ->
  driven w2 w3 -> performed own w1 (Ok a) w3.
Proof.
  intros Hs Ha (Hs' & Ha' & Hc). split; [by etrans| |done|done]. eapply attended_trans; [done|]. by apply attended_own.
Qed.

Lemma performed_ok {A B} own w (a : A) (b : B) w' : performed own w (Ok a) w' -> performed own w (Ok b) w'.
Proof. intros [H1 H2 H3 _]. by split. Qed.

(** A run that is not there any more is not waited for by the code that stops it. *)
Lemma stop_run_spec id ticket cancel w : Inv (w_state w) ->
  after (stop_run id ticket cancel) w (fun r w' => exists u, r = Ok u /\
    rtc step (w_state w) (w_state w') /\ attended None w w' /\
    (match runs (w_state w) !! id with
     | Some slot => if bool_decide (ticket = None \/ ticket = phase_ticket (s_phase slot))
                    then w' = run_stopped id slot cancel w else w' = w
     | None => w' = w
     end)).
Proof.
  intros HI. destruct (runs (w_state w) !! id) as [slot|] eqn:Hs.
  2:{ unfold stop_run. srun. rewrite Hs. exists tt. split; [done|]. split; [done|]. split; [by apply attended_same|done]. }
  destruct (counters_pos limits _ id slot HI Hs) as [Hc1 Hc2].
  destruct (bool_decide_reflect (ticket = None \/ ticket = phase_ticket (s_phase slot))) as [Ht|Ht].
  - unfold after. rewrite (stop_run_here id ticket cancel w slot Hs Ht Hc1 Hc2). exists tt. split; [done|].
    split; [by apply run_stopped_steps|]. split; [by apply run_stopped_attended|done].
  - unfold stop_run. srun. rewrite Hs, !bool_decide_true, bool_decide_false by tauto. cbn.
    exists tt. split; [done|]. split; [done|]. split; [by apply attended_same|done].
Qed.

Lemma inner_stop_spec id ticket cancel w : Inv (w_state w) ->
  after (inner_stop cancelled_at limits id ticket cancel) w (fun r w' => performed None w r w' /\
    exists w1, stop_run id ticket cancel w = Some (Ok tt, w1) /\ driven w1 w' /\ r = Ok tt).
Proof.
  intros HI. unfold inner_stop. pose proof (stop_run_spec id ticket cancel w HI) as H. unfold after in H.
  destruct (stop_run id ticket cancel w) as [[r w1]|] eqn:E; [|done]. destruct H as ([] & -> & Hst & Hat & _).
  unfold after, mthen. rewrite E. change (after (drive cancelled_at limits) w1 (fun r w' => performed None w r w' /\
    exists w2, Some (Ok tt, w1) = Some (Ok tt : result unit SchedulerError, w2) /\ driven w2 w' /\ r = Ok tt)).
  eapply after_mono; [apply drive_spec; by eapply steps_inv|]. intros r w' ([] & -> & Hd). split.
  - by eapply performed_driven.
  - by exists w1.
Qed.

(** ** Residents *)
Lemma reserve_resident_spec w : Inv (w_state w) ->
  after (reserve_resident limits) w (fun r w' => performed None w r w' /\
    match r with
    | Ok id => next_id (w_state w) = Some id /\ residents (w_state w') = <[id := new_resident]> (residents (w_state w))
    | Err Capacity => N.of_nat (size (residents (w_state w))) = nz_get (l_residents limits)
    | Err e => e = Exhausted /\ next_id (w_state w) = None
    end).
Proof.
  intros HI. unfold reserve_resident. srun. srun.
  { intros H. apply N.eqb_eq in H. by auto. }
  intros H. apply N.eqb_neq in H. srun; [by auto|]. intros id Hid. srun. srun. split; [|done].
  assert (step (w_state w) (with_residents (with_next_id (w_state w) (checked_add id 1))
    (<[id := new_resident]> (residents (w_state w))))) as Hst by by apply step_reserve.
  split; [by apply rtc_once| |done|done]. split; [done|done|]. intros k x v Hk Hv. left. by exists x.
Qed.

Lemma retire_resident_spec id w : Inv (w_state w) ->
  after (retire_resident id) w (fun r w' => performed None w r w' /\ r = Ok tt /\
    forall r, residents (w_state w') !! id = Some r -> r_retired r = true /\ r_run r <> None).
Proof.
  intros HI. unfold retire_resident. srun. destruct (residents (w_state w) !! id) as [o|] eqn:Ho.
  2:{ split; [by auto|]. split; [done|]. intros r Hr. congruence. }
  cbv zeta. change (put_state ?s) with (mthen (put_state s) mok). srun. cbn [r_run].
  destruct (bool_decide_reflect (r_run o = None)) as [Hi|Hb]; (split; [|split; [done|]]).
  - split; [apply rtc_once; by eapply step_retire_idle| |done|done]. split; [done|done|]. intros k x v Hk Hv. left. by exists x.
  - intros r Hr. cbn in Hr. by rewrite lookup_delete_eq in Hr.
  - split; [apply rtc_once; by eapply step_retire_busy| |done|done]. split; [done|done|]. intros k x v Hk Hv. left. by exists x.
  - intros r Hr. cbn in Hr. rewrite lookup_insert_eq in Hr. by injection Hr as <-.
Qed.

(** ** Registering and completing runs *)
Lemma turn_taken (m : gmap N Slot) turn :
  existsb (fun slot => s_turn slot =? turn)%N ((map_to_list m).*2) = false -> forall k x, m !! k = Some x -> s_turn x <> turn.
Proof.
  intros H k x Hk Ht. apply not_true_iff_false in H. apply H, existsb_exists. exists x. rewrite N.eqb_eq. split; [|done].
  apply list_elem_of_In, list_elem_of_fmap. exists (k, x). split; [done|]. by apply elem_of_map_to_list.
Qed.

Lemma register_run_spec rid generation turn handle w : Inv (w_state w) ->
  after (register_run rid generation turn handle) w (fun r w' => performed None w r w' /\
    forall i, r = Ok i -> next_id (w_state w) = Some (run_id i) /\ work_generation i = generation /\
      runs (w_state w') = <[run_id i := {| s_resident := rid; s_phase := Registered; s_turn := turn;
                                         s_handle := handle; s_waker := None |}]> (runs (w_state w))).
Proof.
  intros HI. unfold register_run. srun. srun; [sfail|]. intros o Ho. srun; [sfail|]. intros Hst.
  apply orb_false_iff in Hst as [Hret Hgen]. apply N.leb_gt in Hgen. srun; [sfail|]. intros Hbusy.
  pose proof (bool_decide_eq_false_1 _ Hbusy) as Hrun. apply dec_stable in Hrun. srun; [sfail|]. intros Hturn. srun; [sfail|].
  intros id Hid. srun. eapply run_unwrap; [exact Ho|]. srun. set (slot := {| s_resident := rid |}).
  assert (step (w_state w) (with_runs (with_residents (with_next_id (w_state w) (checked_add id 1))
    (<[rid := {| r_retired := false; r_generation := nz_get generation; r_run := Some id |}]> (residents (w_state w))))
    (<[id := slot]> (runs (w_state w))))) as Hstep.
  { apply (step_register limits _ id rid o (nz_get generation) slot); try done. by apply turn_taken. }
  destruct (i_fresh _ _ HI id Hid) as (_ & F2 & _).
  rewrite Hret. split; [|by intros i [= <-]]. split; [by apply rtc_once| |by auto|done].
  split; [done|done|]. intros k x v Hk Hv. left. exists x. split; [|done]. cbn. rewrite lookup_insert_ne; [done|].
  intros <-. assert (id < id)%N by (apply F2; by eexists). lia.
Qed.

(** Completion of a settled run. *)
Definition run_completed (id : N) (slot : Slot) (r : Resident) (w : Work) : Work :=
  dependents_woken id (with_effects (at_state w (with_residents (with_runs (w_state w) (delete id (runs (w_state w))))
    (if r_retired r then delete (s_resident slot) (residents (w_state w))
     else <[s_resident slot := released r]> (residents (w_state w))))) (fun e => effects_removed e slot)).

Lemma complete_spec id w : Inv (w_state w) ->
  after (complete id) w (fun r w' => performed None w r w' /\
    match runs (w_state w) !! id with
    | None => r = Err Stale
    | Some slot => if bool_decide (s_phase slot = Settling)
                   then r = Ok tt /\ exists o, residents (w_state w) !! s_resident slot = Some o /\ w' = run_completed id slot o w
                   else r = Err NotSettling
    end).
Proof.
  intros HI. unfold complete. srun. srun; [intros ->; by auto|]. intros slot Hs. rewrite Hs. srun.
  { intros H. apply negb_true_iff in H. rewrite H. by auto. }
  intros H. apply negb_false_iff in H. rewrite H. pose proof (bool_decide_eq_true_1 _ H) as Hp.
  destruct (i_pins _ _ HI id slot Hs) as (o & Ho & _). cbv zeta. eapply run_unwrap; [exact Ho|]. srun. srun.
  unfold after. rewrite wake_dependents_run. split; [|split; [done|by exists o]].
  set (w1 := with_effects _ _). assert (attended None w w1) as Hat.
  { split; [done|done|]. intros k x v Hk Hv. left. exists x. split; [|done]. cbn. rewrite lookup_delete_ne; [done|]. intros <-.
    rewrite Hs in Hk. injection Hk as <-. assert (is_waiter (s_phase slot) = true) as Hw; [|by rewrite Hp in Hw].
    apply (i_wakers _ _ HI id slot Hs). congruence. }
  split; [|eapply attended_trans; [exact Hat|apply dependents_woken_attended]|done|done].
  eapply rtc_l; [by apply (step_complete limits _ id slot o)|]. apply rtc_once.
  apply (step_wakers limits (w_state w1)); [apply unwaked_same|apply unwaked_waker].
Qed.

(** ** Polls *)
Definition polled (id : N) (slot : Slot) (waker : N) (w : Work) : Work :=
  with_effects (at_state w (with_runs (w_state w) (<[id := with_waker slot (Some waker)]> (runs (w_state w)))))
    (fun e => effects_discard e (s_waker slot)).
Lemma run_set_waker {A} id slot waker k w (Q : result A SchedulerError -> Work -> Prop) :
  after (k tt) (polled id slot waker w) Q -> after (mthen (set_waker id slot waker) k) w Q.
Proof. exact (fun H => H). Qed.

(** The polled run holds the slot it asked for. *)
Definition holds (id t : N) (w : Work) : Prop := exists slot, runs (w_state w) !! id = Some slot /\ s_phase slot = Executing t.
(** The polled run waits in phase [p], and [waker] is the one that is woken. *)
Definition parked (id waker : N) (p : Phase) (w : Work) : Prop :=
  waker ∈ e_wake (w_effects w) \/
  exists slot, runs (w_state w) !! id = Some slot /\ s_phase slot = p /\ s_waker slot = Some waker.

Lemma granted_holds id t w : exists b, granted id t w = Some (Ok b, w) /\ (b = true <-> holds id t w).
Proof.
  unfold granted, get_state, mthen, mget, mok, holds. cbn. eexists. split; [reflexivity|].
  destruct (runs (w_state w) !! id) as [slot|]; [|split; [done|by intros (? & ? & _)]].
  rewrite bool_decide_eq_true. split; [eauto|]. by intros (? & [= <-] & ?).
Qed.

Lemma drive_poll id slot t waker w : Inv (w_state w) -> runs (w_state w) !! id = Some slot -> s_phase slot = Queued t ->
  s_waker slot = Some waker ->
  after (let* _ := drive cancelled_at limits in granted id t) w (fun r w' => exists b, r = Ok b /\ driven w w' /\
    (b = true <-> holds id t w') /\ parked id waker (Queued t) w').
Proof.
  intros HI Hs Hp Hw. eapply run_call; [by apply drive_spec|]. intros u w' Hd.
  destruct (granted_holds id t w') as (b & Hb & Hh). unfold after. rewrite Hb. exists b.
  split; [done|]. split; [done|]. split; [done|]. destruct Hd as (_ & [_ _ Ha] & _).
  destruct (Ha id slot waker Hs Hw) as [(slot' & Hs' & Hw' & Hp') | [? | [? _]]]; [right|by left|done].
  exists slot'. split; [done|]. split; [congruence|done].
Qed.

(** A poll replaces the waker of its run alone. *)
Lemma polled_attended id x slot waker w w1 : runs (w_state w) !! id = Some x -> s_waker slot = s_waker x ->
  w_effects w1 = w_effects w -> (forall k, k <> id -> runs (w_state w1) !! k = runs (w_state w) !! k) ->
  attended (Some id) w (polled id slot waker w1).
Proof.
  intros Hs Hw He Hr. split; cbn; rewrite He; [done|set_solver|]. intros k y v Hk Hv. destruct (decide (k = id)) as [->|Hne].
  - right. right. split; [done|]. rewrite Hs in Hk. injection Hk as <-. rewrite Hw, Hv, elem_of_app. right. cbn. set_solver.
  - left. exists y. by rewrite lookup_insert_ne, Hr by done.
Qed.

Definition enqueued (id t : N) (slot : Slot) (w : Work) : Work := at_state w
  {| next_id := checked_add t 1; residents := residents (w_state w);
     runs := <[id := with_phase slot (Queued t)]> (runs (w_state w));
     queue := queue (w_state w) ++ [(id, t)]; executing := executing (w_state w); waiters := waiters (w_state w) + 1 |}.

(** The part of [poll_acquire] that does not fail any more. *)
Lemma poll_queued id x slot t waker w w1 : runs (w_state w) !! id = Some x -> s_waker slot = s_waker x ->
  w_effects w1 = w_effects w -> (forall k, k <> id -> runs (w_state w1) !! k = runs (w_state w) !! k) ->
  rtc step (w_state w) (w_state w1) -> Inv (w_state w1) ->
  runs (w_state w1) !! id = Some slot -> s_phase slot = Queued t ->
  after (let* _ := set_waker id slot waker in let* _ := drive cancelled_at limits in granted id t) w1 (fun r w' =>
    exists b, r = Ok b /\ performed (Some id) w (Ok b) w' /\ (b = true <-> holds id t w') /\ parked id waker (Queued t) w' /\
      issued (w_state w') (id, t)).
Proof.
  intros Hs Hw He Hr Hst HI Hs1 Hp. apply run_set_waker.
  assert (step (w_state w1) (w_state (polled id slot waker w1))) as Hstep by (apply step_poll; [done|by rewrite Hp]).
  eapply after_mono; [eapply (drive_poll id (with_waker slot (Some waker)) t waker)|].
  - by eapply step_inv.
  - cbn. by rewrite lookup_insert_eq.
  - done.
  - done.
  - intros r w' (b & -> & Hd & Hb & Hpk). exists b. split; [done|]. split; [|split; [done|split; [done|]]].
    2:{ destruct Hd as (Hd & _). eapply issued_steps; [by eapply rtc_l|]. apply (ticket_issued limits _ id slot t HI Hs1). by rewrite Hp. }
    eapply performed_driven; [|by apply (polled_attended id x slot waker w w1)|exact Hd].
    eapply rtc_r; [exact Hst|exact Hstep].
Qed.

Lemma poll_acquire_spec id ticket waker w : Inv (w_state w) ->
  after (poll_acquire cancelled_at limits id ticket waker) w (fun r w' => performed (Some id) w r w' /\
    forall b o, r = Ok (b, o) -> exists t, o = Some t /\ (ticket = None \/ ticket = Some t) /\
      (b = true <-> holds id t w') /\ (b = false -> parked id waker (Queued t) w') /\ issued (w_state w') (id, t)).
Proof.
  intros HI. unfold poll_acquire. srun. srun; [sfail|]. intros slot Hs. srun. srun; [sfail|]. intros Hc.
  apply orb_false_iff in Hc as [_ Hc]. apply bool_decide_eq_false_1 in Hc. destruct ticket as [t|].
  - srun. srun. eapply run_unwrap; [exact Hs|].
    destruct (bool_decide_reflect (s_phase slot = Executing t)) as [Hx|Hx].
    { split; [by apply performed_same|]. intros b o [= <- <-]. exists t. split; [done|]. split; [by right|].
      split; [split; [intros _|done]; by exists slot|]. split; [done|].
      apply (ticket_issued limits _ id slot t HI Hs). by rewrite Hx. }
    srun; [sfail|]. intros Hq. apply negb_false_iff in Hq. pose proof (bool_decide_eq_true_1 _ Hq) as Hp.
    apply run_assoc. eapply run_call; [by apply (poll_queued id slot slot t waker w (tick w))|].
    intros b w' (Hperf & Hb & Hpk & Hi). split; [by eapply performed_ok|]. intros b' o [= <- <-]. exists t. by auto.
  - unfold enqueue. apply after_then. srun. srun; [sfail|]. intros Hreg. apply negb_false_iff in Hreg.
    pose proof (bool_decide_eq_true_1 _ Hreg) as Hp. srun; [sfail|]. intros Hcap. apply N.eqb_neq in Hcap.
    srun; [sfail|]. intros t Ht. srun. srun. unfold after at 1, mok at 1. srun.
    eapply run_unwrap; [cbn; apply lookup_insert_eq|]. cbn [s_phase with_phase].
    rewrite bool_decide_false, bool_decide_true by done. cbn [negb].
    assert (step (w_state w) (w_state (enqueued id t slot w))) as Hstep by by apply step_enqueue.
    apply run_assoc. eapply run_call;
      [apply (poll_queued id slot (with_phase slot (Queued t)) t waker w (tick (enqueued id t slot w))); try done|].
    + intros k Hk. cbn. by rewrite lookup_insert_ne.
    + by apply rtc_once.
    + by eapply step_inv.
    + cbn. by rewrite lookup_insert_eq.
    + intros b w' (Hperf & Hb & Hpk & Hi). split; [by eapply performed_ok|]. intros b' o [= <- <-]. exists t. by auto.
Qed.

(** ** Waiting for another run *)

(** The runs on a path of waits are different where no run waits for itself. *)
Lemma waits_path m n a b : (forall a, ~ tc (waits m) a a) -> nsteps (waits m) n a b ->
  exists l : list N, length l = n /\ NoDup l /\ forall c, c ∈ l -> is_Some (m !! c) /\ rtc (waits m) a c.
Proof.
  intros Hac. induction 1 as [a|n a c b Hac' _ (l & Hl & Hnd & Hin)].
  - exists []. split; [done|]. split; [constructor|]. intros c Hc. by apply not_elem_of_nil in Hc.
  - exists (a :: l). split; [cbn; lia|]. split.
    + apply NoDup_cons. split; [|done]. intros Ha. apply Hin in Ha as [_ Ha]. apply (Hac a). by eapply tc_rtc_r; [apply tc_once|].
    + intros d Hd. apply elem_of_cons in Hd as [-> | Hd].
      * split; [|done]. destruct Hac' as (x & t & Hx & _). by eexists.
      * apply Hin in Hd as [? ?]. split; [done|]. by eapply rtc_l.
Qed.
Lemma waits_path_short m n a b : (forall a, ~ tc (waits m) a a) -> nsteps (waits m) n a b -> n <= size m.
Proof.
  intros Hac H. destruct (waits_path m n a b Hac H) as (l & <- & Hnd & Hin).
  rewrite <- size_dom. rewrite <- (size_list_to_set (C := gset N) l Hnd). apply subseteq_size.
  intros c Hc. apply elem_of_list_to_set in Hc. apply Hin in Hc as [Hc _]. by apply elem_of_dom.
Qed.

Lemma finds_sound m id fuel c : finds m id fuel c = true -> rtc (waits m) c id.
Proof.
  revert c. induction fuel as [|fuel IH]; intros c H; [done|]. cbn in H. destruct (N.eqb_spec c id) as [E|_]; [by rewrite E|].
  destruct (m !! c) as [slot|] eqn:Hs; [|done]. cbn in H. destruct (s_phase slot) as [| | |t d|] eqn:Hp; try done.
  eapply rtc_l; [|by apply IH]. by exists slot, t.
Qed.
Lemma finds_complete m id n (c : N) fuel : nsteps (waits m) n c id -> n < fuel -> finds m id fuel c = true.
Proof.
  intros H. revert fuel. induction H as [x|n x d y Hcd _ IH]; intros [|fuel] Hf; try lia; cbn.
  - by rewrite N.eqb_refl.
  - destruct (N.eqb_spec x y); [done|]. destruct Hcd as (slot & t & -> & Hp). cbn. rewrite Hp. apply IH. lia.
Qed.
(** The search of [begin_wait] finds every cycle, its bound notwithstanding. *)
Lemma finds_spec s id target : Inv s -> finds (runs s) id (S (size (runs s))) target = true <-> rtc (waits (runs s)) target id.
Proof.
  intros HI. split; [apply finds_sound|]. intros H. apply rtc_nsteps in H as [n Hn].
  eapply finds_complete; [exact Hn|]. pose proof (waits_path_short _ _ _ _ (i_acyclic _ _ HI) Hn). lia.
Qed.

(** A run that gives up its slot to wait. *)
Definition waiting (id t target waker : N) (slot : Slot) (w : Work) : Work := let s := w_state w in
  with_effects (at_state w {| next_id := checked_add t 1; residents := residents s;
    runs := <[id := with_waker (with_phase slot (Waiting t target)) (Some waker)]> (runs s);
    queue := queue s; executing := executing s - 1; waiters := waiters s + 1 |}) (fun e => effects_discard e (s_waker slot)).

(** Why a wait is refused. *)
Definition wait_refused (id target : N) (w : Work) (e : SchedulerError) : Prop :=
  let s := w_state w in
  match e with
  | DependencyCycle => rtc (waits (runs s)) target id
  | Stale => runs s !! id = None
  | Cancelled_ => exists slot, runs s !! id = Some slot /\ cancelled_at (w_clock w) (s_handle slot) = true
  | Busy => exists slot, runs s !! id = Some slot /\ is_executing_phase (s_phase slot) = false
  | Unschedulable => forall slot, runs s !! target = Some slot -> s_phase slot = Registered
  | Capacity => waiters s = nz_get (l_waiters limits) /\ ~ rtc (waits (runs s)) target id
  | Exhausted => next_id s = None /\ ~ rtc (waits (runs s)) target id
  | InvalidSchedulerLimits | Foreign | NotSettling => False
  end.

Lemma begin_wait_spec id target waker w : Inv (w_state w) ->
  after (begin_wait cancelled_at limits id target waker) w (fun r w' => performed (Some id) w r w' /\
    match r with
    | Err e => wait_refused id target w e
    | Ok t => parked id waker (Waiting t target) w' /\ next_id (w_state w) = Some t /\
        ~ rtc (waits (runs (w_state w))) target id /\ issued (w_state w') (id, t)
    end).
Proof.
  intros HI. unfold begin_wait. srun. { intros H. apply N.eqb_eq in H as ->. split; [by apply performed_same|apply rtc_refl]. }
  intros Hne. apply N.eqb_neq in Hne. srun.
  srun; [refused by done|]. intros slot Hs. srun. srun; [refused by exists slot|]. intros _.
  srun; [refused by (exists slot; split; [done|by apply negb_true_iff])|]. intros Hx. apply negb_false_iff in Hx.
  srun; [refused by congruence|]. intros tslot Ht.
  srun; [intros H; pose proof (bool_decide_eq_true_1 _ H); refused by congruence|]. intros _.
  srun; [intros H; apply finds_sound in H; refused by done|]. intros Hnf.
  assert (~ rtc (waits (runs (w_state w))) target id) as Hno by (rewrite <- finds_spec by done; congruence).
  srun; [intros H; apply N.eqb_eq in H; refused by done|]. intros Hcap. apply N.eqb_neq in Hcap.
  srun; [refused by done|]. intros t Hnext. apply run_set_waker. srun.
  destruct (counters_pos limits _ id slot HI Hs) as [Hc _]. rewrite Hx in Hc. cbn in Hc.
  eapply run_unwrap; [apply checked_sub_Some; split; [reflexivity|cbn; lia]|]. srun.
  destruct (s_phase slot) as [| |t0| |] eqn:Hp; try done.
  set (w1 := tick (waiting id t target waker slot w)).
  assert (step (w_state w) (w_state w1)) as Hstep by by eapply (step_wait limits).
  eapply run_call; [apply (drive_spec w1); by eapply step_inv|]. intros u w' Hd. split.
  - eapply performed_driven; [by apply rtc_once| |exact Hd].
    eapply attended_ext; [| |by apply (polled_attended id slot (with_phase slot (Waiting t target)) waker w (tick w))]; done.
  - pose proof Hd as (Hd1 & [_ _ Ha] & _). split; [|split; [done|split; [done|]]].
    2:{ eapply issued_steps; [exact Hd1|]. eapply (ticket_issued limits _ id); [by eapply step_inv|cbn; apply lookup_insert_eq|done]. }
    destruct (Ha id (with_waker (with_phase slot (Waiting t target)) (Some waker)) waker) as [(x & Hx' & Hw' & Hp') | [? | [? _]]];
      [cbn; by rewrite lookup_insert_eq|done|right|by left|done]. exists x. by split.
Qed.

Lemma refresh_wait_spec id t waker w : Inv (w_state w) ->
  after (refresh_wait cancelled_at id t waker) w (fun r w' => performed (Some id) w r w' /\
    (r = Ok tt -> exists target, parked id waker (Waiting t target) w')).
Proof.
  intros HI. unfold refresh_wait. srun. destruct (runs (w_state w) !! id) as [slot|] eqn:Hs; [|by sfail].
  destruct (s_phase slot) as [| | |t' target|] eqn:Hp; try by sfail. destruct (N.eqb_spec t' t) as [->|]; [|by sfail].
  srun. destruct (cancelled_at _ _); [by sfail|].
  change (set_waker id slot waker) with (mthen (set_waker id slot waker) mok). apply run_set_waker. split.
  - split; [|by apply (polled_attended id slot slot waker w (tick w))|done|done].
    apply rtc_once. by apply step_poll; [|rewrite Hp].
  - intros _. exists target. right. exists (with_waker slot (Some waker)). cbn. by rewrite lookup_insert_eq.
Qed.

Lemma poll_reacquire_spec id t waker w : Inv (w_state w) ->
  after (poll_reacquire cancelled_at limits id t waker) w (fun r w' => performed (Some id) w r w' /\
    forall b, r = Ok b -> (b = true <-> holds id t w') /\ (b = false -> parked id waker (Queued t) w')).
Proof.
  intros HI. unfold poll_reacquire. srun. srun; [sfail|]. intros slot Hs. srun. srun; [sfail|]. intros _.
  destruct (s_phase slot) as [|t'|t'|t' target|] eqn:Hp; try by sfail.
  - srun; [sfail|]. intros Ht. apply negb_false_iff, N.eqb_eq in Ht as ->.
    eapply after_mono; [by apply (poll_queued id slot slot t waker w (tick w))|].
    intros r w' (b & -> & Hperf & Hb & Hpk & _). split; [done|]. intros b' [= <-]. by auto.
  - destruct (N.eqb_spec t' t) as [->|]; [|by sfail]. split; [by apply performed_same|]. intros b [= <-].
    split; [|done]. split; [intros _|done]. by exists slot.
  - srun; [sfail|]. intros Ht. apply negb_false_iff, N.eqb_eq in Ht as ->. apply run_set_waker. srun. srun.
    set (w1 := at_state _ _).
    assert (step (w_state w) (w_state w1)) as Hstep by by apply (step_requeue limits (w_state w) id slot t target (Some waker)).
    eapply after_mono; [apply (drive_poll id (with_waker (with_phase slot (Queued t)) (Some waker)) t waker w1); try done|].
    + by eapply step_inv.
    + cbn. by rewrite lookup_insert_eq.
    + intros r w' (b & -> & Hd & Hb & Hpk). split; [|intros b' [= <-]; by auto].
      eapply performed_driven; [by apply rtc_once| |exact Hd].
      eapply attended_ext; [| |by apply (polled_attended id slot (with_phase slot (Queued t)) waker w (tick w))]; done.
Qed.
End Operations.
