(* ===== verification/SchedulerFutures.v ===== *)
(** * Calls and futures of the scheduler ([managed/scheduler.rs], [managed/scheduler/waiting.rs])

    [Call] is what owners of leases and references may ask of the scheduler, [calls] a
    sequence of them. [Acquire] and [DependencyWait] take the lock several times in one
    poll. Whenever they do not hold it, other tasks, woken tasks and destructors may do
    calls of their own: [others_at]. The other things a poll reads (whether a weak
    reference still upgrades, whether the token of a wait or a turn is cancelled, what
    the observed future returns) are answered per read, so that they may change at any
    moment. An observer of a cancellation is a flag: whether it is still held. *)
From stdpp Require Export gmap.
From S2P Require Import Prelude Scheduler Fallible.

Inductive Poll (A : Type) := Ready (a : A) | Pending.
Arguments Ready {A} a.
Arguments Pending {A}.

(** ** Calls *)
Inductive Call :=
| C_reserve_resident
| C_retire_resident (id : N)
| C_resident_is_idle (id : N)
| C_register_run (resident : N) (generation : positive) (turn handle : N)
| C_is_executing (id : N)
| C_is_wait_target (id : N)
| C_stop (id : N) (ticket : option N) (cancel : bool)
| C_complete (id : N)
| C_poll_acquire (id : N) (ticket : option N) (waker : N)
| C_begin_wait (id target waker : N)
| C_refresh_wait (id ticket waker : N)
| C_poll_reacquire (id ticket waker : N).

(** The run whose waker a call replaces. *)
Definition polls (c : Call) : option N :=
  match c with
  | C_poll_acquire id _ _ | C_begin_wait id _ _ | C_refresh_wait id _ _ | C_poll_reacquire id _ _ => Some id
  | _ => None
  end.

(** The run and the ticket a call names. A ticket is private to the future it was
    issued to. *)
Definition call_ticket (c : Call) : option (N * N) :=
  match c with
  | C_poll_acquire id (Some t) _ | C_refresh_wait id t _ | C_poll_reacquire id t _ => Some (id, t)
  | _ => None
  end.

Record Acquire := { a_run : N; a_handle : N; a_ticket : option N; a_cancellation : bool; a_done : bool }.
Definition acquire_new (run handle : N) : Acquire :=
  {| a_run := run; a_handle := handle; a_ticket := None; a_cancellation := false; a_done := false |}.
Definition acquire_with (a : Acquire) (ticket : option N) (cancellation done : bool) : Acquire :=
  {| a_run := a_run a; a_handle := a_handle a; a_ticket := ticket; a_cancellation := cancellation; a_done := done |}.

Record DependencyWait (O : Type) := {
  d_run : N; d_handle : N; d_target : N; d_foreign : bool;
  d_observation : bool; d_output : option O; d_ticket : option N;
  d_cancelled : bool; d_run_cancelled : bool; d_done : bool }.
Arguments d_run {O}. Arguments d_handle {O}. Arguments d_target {O}. Arguments d_foreign {O}.
Arguments d_observation {O}. Arguments d_output {O}. Arguments d_ticket {O}. Arguments d_cancelled {O}.
Arguments d_run_cancelled {O}. Arguments d_done {O}.

Section Futures.
  Context (cancelled_at : nat -> N -> bool) (limits : SchedulerLimits) (others_at : nat -> list Call).
  Context (upgrade_at : nat -> N -> bool).

Definition discard {A} (m : S_ A) : S_ unit := let* _ := m in mok tt.
Definition perform (c : Call) : S_ unit :=
  match c with
  | C_reserve_resident => discard (reserve_resident limits)
  | C_retire_resident id => retire_resident id
  | C_resident_is_idle id => discard (resident_is_idle id)
  | C_register_run resident generation turn handle => discard (register_run resident generation turn handle)
  | C_is_executing id => discard (is_executing cancelled_at id)
  | C_is_wait_target id => discard (is_wait_target id)
  | C_stop id ticket cancel => inner_stop cancelled_at limits id ticket cancel
  | C_complete id => complete id
  | C_poll_acquire id ticket waker => discard (poll_acquire cancelled_at limits id ticket waker)
  | C_begin_wait id target waker => discard (begin_wait cancelled_at limits id target waker)
  | C_refresh_wait id ticket waker => refresh_wait cancelled_at id ticket waker
  | C_poll_reacquire id ticket waker => discard (poll_reacquire cancelled_at limits id ticket waker)
  end.
(** An error is a value for the one who calls. *)
Definition attempt {A} (m : S_ A) : S_ (result A SchedulerError) := fun w =>
  match m w with Some (r, w') => Some (Ok r, w') | None => None end.
Fixpoint calls (cs : list Call) : S_ unit :=
  match cs with
  | [] => mok tt
  | c :: cs => let* _ := attempt (perform c) in calls cs
  end.

(** ** Reads of a poll *)
Definition read {A} (f : nat -> A) : S_ A :=
  let* w := mget in
  let* _ := mset {| w_state := w_state w; w_effects := w_effects w; w_clock := S (w_clock w) |} in
  mok (f (w_clock w)).
Definition others : S_ unit := let* cs := read others_at in calls cs.
(** An operation under the lock, and what happens after it. *)
Definition locked {A} (m : S_ A) : S_ (result A SchedulerError) :=
  let* r := attempt m in let* _ := others in mok r.
Definition locked_bool (m : S_ bool) : S_ bool :=
  let* r := locked m in mok match r with Ok b => b | Err _ => false end.
(** [a || b] *)
Definition either (a b : S_ bool) : S_ bool := let* x := a in if x : bool then mok true else b.
(** [RunRef::resolve] *)
Definition resolve (run : N) : S_ bool := read (fun n => upgrade_at n run).

(** ** Owners of residents and runs *)

(** [ManagedScheduler::register_run]; [foreign] is the comparison of the schedulers and
    [live] the state of the witness of the turn. *)
Definition managed_register_run (foreign live : bool) (resident : N) (generation : positive) (turn handle : N) : S_ RunIdentity :=
  mfail_if foreign with Foreign in
  mfail_if negb live with Cancelled_ in
  register_run resident generation turn handle.
Definition resident_lease_drop (id : N) : S_ unit := retire_resident id.
Definition run_lease_finish (id : N) : S_ unit := inner_stop cancelled_at limits id None false.
Definition run_lease_drop (id : N) (finished : bool) : S_ unit :=
  if finished then mok tt else inner_stop cancelled_at limits id None true.
Definition run_ref_cancel (id : N) : S_ unit :=
  let* live := resolve id in
  if live : bool then inner_stop cancelled_at limits id None true else mok tt.
Definition settlement_drop (id : N) (completed : bool) : S_ unit :=
  if completed then mok tt else inner_stop cancelled_at limits id None true.
(** [RunSettlement::complete]: the settlement is dropped at its end, completed or not. *)
Definition settlement_complete (id : N) : S_ unit :=
  let* r := attempt (complete id) in
  match r with
  | Ok _ => settlement_drop id true
  | Err e => let* _ := settlement_drop id false in mfail e
  end.

Definition abort (id handle : N) (ticket : option N) : S_ unit :=
  let* _ := locked (inner_stop cancelled_at limits id ticket true) in
  effect (fun e => effects_cancel e handle).

(** ** [Acquire] *)
Definition acquire_abort (a : Acquire) : S_ (Acquire * Poll (result unit SchedulerError)) :=
  let* _ := abort (a_run a) (a_handle a) (a_ticket a) in
  mok (acquire_with a (a_ticket a) false true, Ready (Err Cancelled_)).

Definition acquire_poll (a : Acquire) (waker : N) : S_ (Acquire * Poll (result unit SchedulerError)) :=
  if a_done a then mpanic
  else
    let* live := resolve (a_run a) in
    if negb live then mok (acquire_with a (a_ticket a) false true, Ready (Err Stale))
    else
      let a := acquire_with a (a_ticket a) true false in
      let* cancelled := is_cancelled cancelled_at (a_handle a) in
      if cancelled : bool then acquire_abort a
      else
        let* r := locked (poll_acquire cancelled_at limits (a_run a) (a_ticket a) waker) in
        let ticket := match r with Ok (_, t) => t | Err _ => a_ticket a end in
        let ready := match r with Ok (b, _) => b | Err _ => false end in
        let parked := match r with Ok (b, _) => negb b | Err _ => false end in
        let a := acquire_with a ticket (a_cancellation a && parked) false in
        let* lost := either (is_cancelled cancelled_at (a_handle a))
          (if ready : bool then let* e := locked_bool (is_executing cancelled_at (a_run a)) in mok (negb e) else mok false) in
        if lost : bool then acquire_abort a
        else
          match r with
          | Ok (false, _) => mok (a, Pending)
          | Ok (true, _) => mok (acquire_with a ticket (a_cancellation a) true, Ready (Ok tt))
          | Err e =>
            let* _ := if bool_decide (ticket <> None) then abort (a_run a) (a_handle a) ticket else mok tt in
            mok (acquire_with a ticket (a_cancellation a) true, Ready (Err e))
          end.

Definition acquire_drop (a : Acquire) : S_ unit :=
  if negb (a_done a) && bool_decide (a_ticket a <> None) then
    let* live := resolve (a_run a) in
    if live : bool then abort (a_run a) (a_handle a) (a_ticket a) else mok tt
  else mok tt.

(** ** [DependencyWait] *)
Context {O : Type} (token_at : nat -> bool) (observe_at : nat -> option O).

Definition wait_new (run handle target : N) (foreign : bool) : DependencyWait O :=
  {| d_run := run; d_handle := handle; d_target := target; d_foreign := foreign; d_observation := true; d_output := None;
     d_ticket := None; d_cancelled := true; d_run_cancelled := false; d_done := false |}.
Definition wait_closed (d : DependencyWait O) : DependencyWait O :=
  {| d_run := d_run d; d_handle := d_handle d; d_target := d_target d; d_foreign := d_foreign d; d_observation := false;
     d_output := None; d_ticket := d_ticket d; d_cancelled := false; d_run_cancelled := false; d_done := true |}.
Definition wait_observing (d : DependencyWait O) : DependencyWait O :=
  {| d_run := d_run d; d_handle := d_handle d; d_target := d_target d; d_foreign := d_foreign d;
     d_observation := d_observation d; d_output := d_output d; d_ticket := d_ticket d; d_cancelled := d_cancelled d;
     d_run_cancelled := true; d_done := d_done d |}.
Definition wait_ticket (d : DependencyWait O) (t : N) : DependencyWait O :=
  {| d_run := d_run d; d_handle := d_handle d; d_target := d_target d; d_foreign := d_foreign d;
     d_observation := d_observation d; d_output := d_output d; d_ticket := Some t; d_cancelled := d_cancelled d;
     d_run_cancelled := d_run_cancelled d; d_done := d_done d |}.
Definition wait_output (d : DependencyWait O) (v : O) : DependencyWait O :=
  {| d_run := d_run d; d_handle := d_handle d; d_target := d_target d; d_foreign := d_foreign d;
     d_observation := false; d_output := Some v; d_ticket := d_ticket d; d_cancelled := d_cancelled d;
     d_run_cancelled := d_run_cancelled d; d_done := d_done d |}.

Definition Waited : Type := DependencyWait O * Poll (result O SchedulerError).

Definition wait_cancel (d : DependencyWait O) : S_ Waited :=
  let* _ := abort (d_run d) (d_handle d) (d_ticket d) in
  mok (wait_closed d, Ready (Err Cancelled_)).
Definition wait_reject (d : DependencyWait O) (e : SchedulerError) : Waited := (wait_closed d, Ready (Err e)).
(** [self.cancellation.is_cancelled() || identity.handle.is_cancelled()] *)
Definition wait_cancelled (d : DependencyWait O) : S_ bool :=
  either (read token_at) (is_cancelled cancelled_at (d_handle d)).
Definition wait_reject_live (d : DependencyWait O) (e : SchedulerError) : S_ Waited :=
  let result := wait_reject d e in
  let* _ := others in
  let* lost := either (wait_cancelled d) (let* x := locked_bool (is_executing cancelled_at (d_run d)) in mok (negb x)) in
  if lost : bool then wait_cancel result.1 else mok result.

(** The part of a poll that admits the wait: the wait with its ticket, or what is returned. *)
Definition wait_admit (d : DependencyWait O) (waker : N) : S_ (DependencyWait O + Waited) :=
  match d_ticket d with
  | Some _ => mok (inl d)
  | None =>
    let* live := resolve (d_target d) in
    if negb live then let* r := wait_reject_live d Unschedulable in mok (inr r)
    else if d_foreign d then let* r := wait_reject_live d Foreign in mok (inr r)
    else
      let* r := locked (begin_wait cancelled_at limits (d_run d) (d_target d) waker) in
      match r with
      | Ok t => mok (inl (wait_ticket d t))
      | Err e =>
        let* x := locked_bool (is_executing cancelled_at (d_run d)) in
        let* r := if negb x then wait_cancel d else wait_reject_live d e in
        mok (inr r)
      end
  end.

(** The part that observes the target. *)
Definition wait_observe (d : DependencyWait O) (ticket waker : N) : S_ (DependencyWait O + Waited) :=
  match d_output d with
  | Some _ => mok (inl d)
  | None =>
    let* r := locked (refresh_wait cancelled_at (d_run d) ticket waker) in
    match r with
    | Err _ => let* r := wait_cancel d in mok (inr r)
    | Ok _ =>
      let* c := wait_cancelled d in
      if c : bool then let* r := wait_cancel d in mok (inr r)
      else
        let* _ := munwrap (if d_observation d then Some tt else None) in
        let* value := read observe_at in
        let* _ := others in
        let d := match value with Some v => wait_output d v | None => d end in
        let* c := wait_cancelled d in
        if c : bool then let* r := wait_cancel d in mok (inr r)
        else match d_output d with None => mok (inr (d, Pending)) | Some _ => mok (inl d) end
    end
  end.

(** The part that takes an execution slot again. *)
Definition wait_reacquire (d : DependencyWait O) (ticket waker : N) : S_ Waited :=
  let* r := locked (poll_reacquire cancelled_at limits (d_run d) ticket waker) in
  let ready := match r with Ok b => b | Err _ => false end in
  let* lost := either (wait_cancelled d)
    (if ready : bool then let* x := locked_bool (is_executing cancelled_at (d_run d)) in mok (negb x) else mok false) in
  if lost : bool then wait_cancel d
  else
    match r with
    | Ok false => mok (d, Pending)
    | Ok true => let* v := munwrap (d_output d) in mok (wait_closed d, Ready (Ok v))
    | Err _ => wait_cancel d
    end.

Definition wait_poll (d : DependencyWait O) (waker : N) : S_ Waited :=
  if d_done d then mpanic
  else
    let* live := resolve (d_run d) in
    if negb live then mok (wait_reject d Stale)
    else
      let* _ := munwrap (if d_cancelled d then Some tt else None) in
      let* cancelled := read token_at in
      let d := wait_observing d in
      let* run_cancelled := is_cancelled cancelled_at (d_handle d) in
      if run_cancelled || cancelled then wait_cancel d
      else
        let* admitted := wait_admit d waker in
        match admitted with
        | inr r => mok r
        | inl d =>
          let* ticket := munwrap (d_ticket d) in
          let* observed := wait_observe d ticket waker in
          match observed with
          | inr r => mok r
          | inl d => wait_reacquire d ticket waker
          end
        end.

Definition wait_drop (d : DependencyWait O) : S_ unit :=
  if negb (d_done d) && bool_decide (d_ticket d <> None) then
    let* live := resolve (d_run d) in
    if live : bool then abort (d_run d) (d_handle d) (d_ticket d) else mok tt
  else mok tt.
End Futures.
