(* ===== verification/SchedulerFutureProofs.v ===== *)
(** * Calls and futures of the scheduler, proved

    Sequences of calls keep the protocol; the futures of [managed/scheduler/waiting.rs]
    return from every poll whatever other tasks do meanwhile, and hold nothing under
    their ticket once they have failed or were dropped. *)
From stdpp Require Export gmap.
From S2P Require Import Prelude Fallible Scheduler SchedulerRules SchedulerOrder SchedulerProofs SchedulerFutures.

Section Futures.
  Context (cancelled_at : nat -> N -> bool) (limits : SchedulerLimits).
  Notation step := (step limits).
  Notation Inv := (Inv limits).
  Notation performed := (performed limits).
  Notation conserving := (conserving limits).

(** ** Calls *)
Lemma discard_spec {A} (m : S_ A) own w : after m w (fun r w' => performed own w r w') ->
  after (discard m) w (fun r w' => performed own w r w').
Proof.
  intros H. apply after_then. eapply after_mono; [exact H|]. intros [a|e] w' Hp; [by eapply performed_ok|].
  destruct Hp as [H1 H2 H3 H4]. split; [done|done|done|]. intros e' _. by apply (H4 e).
Qed.
Lemma spec_performed {A} (m : S_ A) own w (Q : result A SchedulerError -> Work -> Prop) :
  after m w (fun r w' => performed own w r w' /\ Q r w') -> after m w (fun r w' => performed own w r w').
Proof. intros H. eapply after_mono; [exact H|]. by intros r w' [? _]. Qed.

Lemma is_executing_spec id w : after (is_executing cancelled_at id) w (fun r w' => performed None w r w' /\
  w_state w' = w_state w /\ exists b, r = Ok b /\ (b = true -> exists t, holds id t w)).
Proof.
  unfold is_executing. srun. destruct (runs (w_state w) !! id) as [slot|] eqn:Hs.
  2:{ split; [by apply performed_same|]. split; [done|]. by exists false. }
  destruct (s_phase slot) as [| |t| |] eqn:Hp; try (split; [by apply performed_same|]; split; [done|]; by exists false).
  srun. split; [by apply performed_same|]. split; [done|]. eexists. split; [done|]. intros _. by exists t, slot.
Qed.

Lemma perform_spec c w : Inv (w_state w) ->
  after (perform cancelled_at limits c) w (fun r w' => performed (polls c) w r w').
Proof.
  intros HI. destruct c; cbn [perform polls].
  - eapply discard_spec, spec_performed, reserve_resident_spec; done.
  - eapply spec_performed, retire_resident_spec; done.
  - apply discard_spec. by apply performed_same.
  - eapply discard_spec, spec_performed, register_run_spec; done.
  - eapply discard_spec, spec_performed, is_executing_spec.
  - apply discard_spec. by apply performed_same.
  - eapply spec_performed, inner_stop_spec; done.
  - eapply spec_performed, complete_spec; done.
  - eapply discard_spec, spec_performed, poll_acquire_spec; done.
  - eapply discard_spec, spec_performed, begin_wait_spec; done.
  - eapply spec_performed, refresh_wait_spec; done.
  - eapply discard_spec, spec_performed, poll_reacquire_spec; done.
Qed.

(** A run that waits under a ticket: a poll of that run that does not name the ticket
    fails and changes nothing. *)
Definition waits_under (p : Phase) (t : N) : Prop := p = Queued t \/ exists target, p = Waiting t target.
Definition unchanged {A} (w : Work) (r : result A SchedulerError) (w' : Work) : Prop :=
  w_state w' = w_state w /\ w_effects w' = w_effects w.
Lemma discard_unchanged {A} (m : S_ A) w : after m w (unchanged w) -> after (discard m) w (unchanged w).
Proof. intros Hm. apply after_then. eapply after_mono; [exact Hm|]. by intros [a|e] w' Hu. Qed.

Lemma foreign_poll c w id slot t : runs (w_state w) !! id = Some slot -> waits_under (s_phase slot) t ->
  polls c = Some id -> call_ticket c <> Some (id, t) -> after (perform cancelled_at limits c) w (unchanged w).
Proof.
  intros Hs Hw Hp Ht. assert (phase_ticket (s_phase slot) = Some t) as Ept by by destruct Hw as [-> | [? ->]].
  assert (s_phase slot <> Registered /\ forall t', s_phase slot <> Executing t') as [Hreg Hex] by by destruct Hw as [-> | [? ->]].
  destruct c; try done; injection Hp as ->; cbn [perform].
  - apply discard_unchanged. unfold poll_acquire. srun. srun; [done|]. rewrite Hs. intros ? [= <-]. srun. srun; [done|]. intros _.
    destruct ticket as [t'|].
    + srun. srun. eapply run_unwrap; [exact Hs|]. rewrite bool_decide_false by done. srun; [done|].
      intros Hq. apply negb_false_iff, bool_decide_eq_true_1 in Hq. rewrite Hq in Ept. injection Ept as ->. by destruct Ht.
    + apply after_then. unfold enqueue. srun. srun; [done|]. by rewrite bool_decide_false by done.
  - apply discard_unchanged. unfold begin_wait. srun; [done|]. intros _. srun. srun; [done|]. rewrite Hs. intros ? [= <-]. srun.
    srun; [done|]. intros _. srun; [done|]. by destruct Hw as [-> | [? ->]].
  - unfold refresh_wait. srun. rewrite Hs. destruct (s_phase slot) as [|t'|t'|t' target|]; try done.
    destruct (N.eqb_spec t' ticket) as [->|_]; [|done]. injection Ept as ->. by destruct Ht.
  - apply discard_unchanged. unfold poll_reacquire. srun. srun; [done|]. rewrite Hs. intros ? [= <-]. srun. srun; [done|]. intros _.
    destruct (s_phase slot) as [|t'|t'|t' target|]; try done; [| |];
      (destruct (N.eqb_spec t' ticket) as [->|_]; [injection Ept as ->; by destruct Ht|done]).
Qed.

(** What a task finds after others have run: steps of the protocol, and, where no other
    task names its ticket ([mine]), its own waker where it left it or woken. *)
Record later (id : N) (mine : N -> Prop) (w w' : Work) : Prop := {
  l_steps : rtc step (w_state w) (w_state w');
  l_conserving : conserving (w_state w) -> conserving (w_state w');
  l_parked : forall waker p t, waits_under p t -> mine t -> parked id waker p w -> parked id waker p w';
}.
#[local] Instance later_preorder id mine : PreOrder (later id mine).
Proof.
  split; [intros w; by split|]. intros w1 w2 w3 [A1 A2 A3] [B1 B2 B3].
  split; [by etrans|by auto|by eauto].
Qed.
Lemma performed_later {A} id mine own w (r : result A SchedulerError) w' :
  performed own w r w' -> own <> Some id -> later id mine w w'.
Proof.
  intros [H1 [Hw _ Ha] H3 _] Hne. split; [done|done|]. intros waker p t _ _ [Hin | (slot & Hs & Hp & Hv)]; [left; by apply Hw|].
  destruct (Ha id slot waker Hs Hv) as [(x & Hx & Hxv & Hxp) | [? | [? _]]]; [right|by left|congruence].
  exists x. split; [done|]. split; [congruence|done].
Qed.

(** A call of another task. *)
Lemma perform_later id (mine : N -> Prop) c w : Inv (w_state w) -> (forall t, mine t -> call_ticket c <> Some (id, t)) ->
  after (perform cancelled_at limits c) w (fun _ w' => later id mine w w').
Proof.
  intros HI Hc. pose proof (perform_spec c w HI) as Hp. unfold after in Hp |- *.
  destruct (perform cancelled_at limits c w) as [[r w']|] eqn:E; [|done].
  destruct (decide (polls c = Some id)) as [Hpoll|Hpoll]; [|by eapply performed_later].
  pose proof Hp as [H1 [Hw _ _] H3 _]. split; [done|done|].
  intros waker p t Ht Hm [Hin | (slot & Hs & <- & Hv)]; [left; by apply Hw|right].
  pose proof (foreign_poll c w id slot t Hs Ht Hpoll (Hc t Hm)) as Hu. unfold after in Hu. rewrite E in Hu.
  destruct Hu as [-> _]. by exists slot.
Qed.

Lemma calls_later id (mine : N -> Prop) cs w : Inv (w_state w) ->
  (forall c t, c ∈ cs -> mine t -> call_ticket c <> Some (id, t)) ->
  after (calls cancelled_at limits cs) w (fun r w' => exists u, r = Ok u /\ later id mine w w').
Proof.
  revert w. induction cs as [|c cs IH]; intros w HI Hcs; [by exists tt|]. cbn [calls].
  pose proof (perform_later id mine c w HI (fun t => Hcs c t ltac:(by left))) as Hc. unfold after in Hc. unfold after, mthen, attempt.
  destruct (perform cancelled_at limits c w) as [[r w1]|] eqn:E; [|done].
  eapply (after_mono (calls cancelled_at limits cs)); [apply IH|].
  - eapply steps_inv; [apply Hc|done].
  - intros c' t Hc'. apply Hcs. by right.
  - intros r' w' (u & -> & Hl'). exists u. split; [done|]. by etrans.
Qed.

(** A sequence of calls, from whomever, follows the protocol. *)
Lemma calls_steps cs w : Inv (w_state w) ->
  after (calls cancelled_at limits cs) w (fun r w' => r = Ok tt /\ rtc step (w_state w) (w_state w') /\
    (conserving (w_state w) -> conserving (w_state w'))).
Proof.
  revert w. induction cs as [|c cs IH]; intros w HI; [done|]. cbn [calls].
  pose proof (perform_spec c w HI) as Hc. unfold after in Hc. unfold after, mthen, attempt.
  destruct (perform cancelled_at limits c w) as [[r w1]|] eqn:E; [|done]. destruct Hc as [H1 _ H3 _].
  eapply (after_mono (calls cancelled_at limits cs)); [apply IH; by eapply steps_inv|].
  intros r' w' (-> & H4 & H5). split; [done|]. split; [by etrans|by auto].
Qed.

(** ** The parts of a poll *)
Section Poll.
  Context (others_at : nat -> list Call) (upgrade_at : nat -> N -> bool) (id : N).
(** No other task names the ticket [t] of the run. *)
Definition mine (t : N) : Prop := forall n c, c ∈ others_at n -> call_ticket c <> Some (id, t).
Notation later := (later id mine).

Lemma run_read {A B} (f : nat -> A) (k : A -> S_ B) w Q : after (k (f (w_clock w))) (tick w) Q -> after (mthen (read f) k) w Q.
Proof. exact (fun H => H). Qed.
Lemma tick_later w : later w (tick w).
Proof. by split. Qed.

Lemma others_spec w : Inv (w_state w) ->
  after (others cancelled_at limits others_at) w (fun r w' => exists u, r = Ok u /\ later w w').
Proof.
  intros HI. unfold others. apply run_read. eapply after_mono; [apply (calls_later id mine); [done|]|].
  { intros c t Hc Hm. by eapply Hm. }
 
  intros r w' (u & -> & Hl). exists u. split; [done|]. etrans; [apply tick_later|done].
Qed.

(** An operation under the lock, then the others. *)
Lemma run_locked {A B} (m : S_ A) (k : result A SchedulerError -> S_ B) own w (P : result A SchedulerError -> Work -> Prop) Q :
  Inv (w_state w) -> after m w (fun r w' => performed own w r w' /\ P r w') ->
  (forall r w1 w', performed own w r w1 -> P r w1 -> later w1 w' -> Inv (w_state w') -> after (k r) w' Q) ->
  after (mthen (locked cancelled_at limits others_at m) k) w Q.
Proof.
  intros HI Hm Hk. apply after_then. unfold locked. apply after_then. unfold after at 1, attempt. unfold after in Hm.
  destruct (m w) as [[r w1]|]; [|done]. destruct Hm as [Hp HP].
  assert (Inv (w_state w1)) as HI1 by (eapply steps_inv; [apply Hp|done]).
  eapply run_call; [by apply others_spec|]. intros u w' Hl. apply (Hk r w1 w'); [done|done|done|].
  eapply steps_inv; [apply Hl|done].
Qed.

(** [run_locked] for the checks of a poll. *)
Lemma run_executing {B} (k : bool -> S_ B) w Q : Inv (w_state w) ->
  (forall b w', later w w' -> Inv (w_state w') -> (b = true -> exists t, holds id t w) -> after (k b) w' Q) ->
  after (mthen (locked_bool cancelled_at limits others_at (is_executing cancelled_at id)) k) w Q.
Proof.
  intros HI Hk. apply after_then. unfold locked_bool. eapply run_locked; [done|apply is_executing_spec|].
  intros r w1 w' Hp (Hs & b & -> & Hb) Hl HI'. apply Hk; [|done|done].
  etrans; [by eapply performed_later|done].
Qed.

(** What is left of a run after its wait or acquisition was aborted. *)
Definition released_ (s : State) (ticket : option N) : Prop :=
  match ticket with Some t => gone s (id, t) | None => ended s id end.
Lemma released_steps s s' ticket : rtc step s s' -> released_ s ticket -> released_ s' ticket.
Proof. destruct ticket; [by apply gone_steps|by apply ended_steps]. Qed.
(** The tickets that a future may hold. *)
Definition holdable (s : State) (ticket : option N) : Prop :=
  known s id /\ forall t, ticket = Some t -> issued s (id, t).
Lemma holdable_steps s s' ticket : rtc step s s' -> holdable s ticket -> holdable s' ticket.
Proof. intros Hs [H1 H2]. split; [by eapply known_steps|]. intros t Ht. eapply issued_steps; [exact Hs|by apply H2]. Qed.
Lemma later_holdable w w' ticket : later w w' -> holdable (w_state w) ticket -> holdable (w_state w') ticket.
Proof. intros Hl. apply holdable_steps, Hl. Qed.

Lemma stop_released ticket cancel w w1 : Inv (w_state w) -> holdable (w_state w) ticket ->
  stop_run id ticket cancel w = Some (Ok tt, w1) -> released_ (w_state w1) ticket.
Proof.
  intros HI [Hk Hi] Hrun. pose proof (stop_run_spec limits id ticket cancel w HI) as H. unfold after in H. rewrite Hrun in H.
  destruct H as (u & _ & Hst & _ & H).
  assert (forall x, runs (w_state w1) !! id = Some x -> s_phase x = Settling \/
    w1 = w /\ runs (w_state w) !! id = Some x /\ ticket <> None /\ ticket <> phase_ticket (s_phase x)) as Hx.
  { destruct (runs (w_state w) !! id) as [slot|] eqn:Hs; [|subst w1; congruence].
    destruct (bool_decide_reflect (ticket = None \/ ticket = phase_ticket (s_phase slot))) as [Ht|Ht]; subst w1; intros x Hx.
    - left. cbn in Hx. rewrite lookup_fmap, lookup_insert_eq in Hx. injection Hx as <-. by unfold unwaked; cbn.
    - right. split; [done|]. rewrite Hs in Hx. injection Hx as <-. tauto. }
  destruct ticket as [t|]; cbn.
  - split; [eapply issued_steps; [exact Hst|by apply Hi]|]. intros x Hx'. destruct (Hx x Hx') as [-> | (_ & _ & _ & Hne)]; [done|cbn; congruence].
  - split; [by eapply known_steps|]. intros x Hx'. by destruct (Hx x Hx') as [? | (_ & _ & ? & _)].
Qed.

Lemma abort_spec handle ticket w : Inv (w_state w) -> holdable (w_state w) ticket ->
  after (abort cancelled_at limits others_at id handle ticket) w (fun r w' => exists u, r = Ok u /\
    later w w' /\ Inv (w_state w') /\ released_ (w_state w') ticket).
Proof.
  intros HI Hh. unfold abort. eapply run_locked; [done|by apply inner_stop_spec|].
  intros r w1 w' Hp (w2 & Hrun & (Hd & _) & _) Hl HI'. exists tt. split; [done|]. split; [|split; [done|]].
  - etrans; [by eapply performed_later|]. etrans; [exact Hl|]. by split.
  - eapply released_steps; [|by eapply (stop_released _ true w w2)]. etrans; [exact Hd|]. apply Hl.
Qed.
Lemma run_abort {B} handle ticket (k : unit -> S_ B) w Q : Inv (w_state w) -> holdable (w_state w) ticket ->
  (forall w', later w w' -> Inv (w_state w') -> released_ (w_state w') ticket -> after (k tt) w' Q) ->
  after (mthen (abort cancelled_at limits others_at id handle ticket) k) w Q.
Proof. intros HI Hh Hk. eapply run_call; [by apply abort_spec|]. intros [] w' (Hl & HI' & Hr). by apply Hk. Qed.

(** The run held a slot at some moment between two states. *)
Definition held (w w' : Work) : Prop :=
  exists w1 t, rtc step (w_state w) (w_state w1) /\ rtc step (w_state w1) (w_state w') /\ holds id t w1.
Lemma held_l w0 w w' : rtc step (w_state w0) (w_state w) -> held w w' -> held w0 w'.
Proof. intros Hs (w1 & t & H1 & H2 & Hh). exists w1, t. split; [by etrans|done]. Qed.

(** A check that only reads. *)
Definition reads (c : S_ bool) : Prop := forall w, exists b n,
  c w = Some (Ok b, {| w_state := w_state w; w_effects := w_effects w; w_clock := n |}).
Lemma reads_cancelled h : reads (is_cancelled cancelled_at h).
Proof. intros w. by eexists _, _. Qed.
Lemma clock_later w n : later w {| w_state := w_state w; w_effects := w_effects w; w_clock := n |}.
Proof. by split. Qed.
Lemma run_reads {B} c (k : bool -> S_ B) w Q : reads c ->
  (forall b n, after (k b) {| w_state := w_state w; w_effects := w_effects w; w_clock := n |} Q) -> after (mthen c k) w Q.
Proof. intros Hc Hk. destruct (Hc w) as (b & n & E). unfold after, mthen. rewrite E. apply Hk. Qed.

(** The check at the end of a poll: cancelled, or the slot was lost again. *)
Lemma run_lost {B} c (ready : bool) (k : bool -> S_ B) w Q : reads c -> Inv (w_state w) ->
  (forall lost w', later w w' -> Inv (w_state w') -> (lost = false -> ready = true -> held w w') -> after (k lost) w' Q) ->
  after (let* lost := either c (if ready then
      let* x := locked_bool cancelled_at limits others_at (is_executing cancelled_at id) in mok (negb x) else mok false) in
    k lost) w Q.
Proof.
  intros Hc HI Hk. apply after_then. unfold either. apply run_reads; [done|]. intros b n. destruct b.
  { by apply (Hk true); [apply clock_later|..]. }
  destruct ready; [|by apply (Hk false); [apply clock_later|..]].
  apply run_executing; [done|]. intros b w' Hl HI' Hb. apply (Hk (negb b)); [|done|].
  - etrans; [apply clock_later|exact Hl].
  - intros Hlost _. apply negb_false_iff in Hlost. destruct (Hb Hlost) as (t & Ht).
    exists {| w_state := w_state w; w_effects := w_effects w; w_clock := n |}, t. split; [done|]. split; [apply Hl|done].
Qed.

(** ** [Acquire] *)

Definition acquire_polled (waker : N) (w : Work) (a : Acquire) (p : Poll (result unit SchedulerError)) (w' : Work) : Prop :=
  a_run a = id /\ rtc step (w_state w) (w_state w') /\ (conserving (w_state w) -> conserving (w_state w')) /\
  holdable (w_state w') (a_ticket a) /\
  match p with
  | Pending => a_done a = false /\ exists t, a_ticket a = Some t /\ (mine t -> parked id waker (Queued t) w')
  | Ready (Ok _) => a_done a = true /\ a_ticket a <> None /\ held w w'
  | Ready (Err _) => a_done a = true /\
      (upgrade_at (w_clock w) id = true -> forall t, a_ticket a = Some t -> gone (w_state w') (id, t))
  end.

(** The rest of a poll once the run may go on: [w0] is where the poll began. *)
Lemma acquire_abort_spec a waker w0 w : Inv (w_state w) -> a_run a = id -> holdable (w_state w) (a_ticket a) ->
  rtc step (w_state w0) (w_state w) -> (conserving (w_state w0) -> conserving (w_state w)) ->
  after (acquire_abort cancelled_at limits others_at a) w (fun r w' =>
    exists a' p, r = Ok (a', p) /\ acquire_polled waker w0 a' p w').
Proof.
  intros HI Hid Hh Hs Hc. unfold acquire_abort. rewrite Hid. apply run_abort; [done|done|]. intros w' Hl HI' Hr.
  eexists _, _. split; [done|]. split; [done|]. split; [etrans; [done|apply Hl]|]. split; [intros; by apply (l_conserving _ _ _ _ Hl), Hc|].
  split; [by eapply later_holdable|]. split; [done|]. intros _ t Ht. cbn in Ht. rewrite Ht in Hr. exact Hr.
Qed.

Lemma acquire_poll_spec a waker w : Inv (w_state w) -> a_run a = id -> a_done a = false -> holdable (w_state w) (a_ticket a) ->
  after (acquire_poll cancelled_at limits others_at upgrade_at a waker) w (fun r w' =>
    exists a' p, r = Ok (a', p) /\ acquire_polled waker w a' p w').
Proof.
  intros HI Hid Hd Hh. unfold acquire_poll. rewrite Hd, Hid. apply run_read. destruct (upgrade_at (w_clock w) id) eqn:Hup; cbn [negb].
  2:{ eexists _, _. split; [done|]. split; [done|]. split; [done|]. split; [done|]. split; [done|]. split; [done|]. congruence. }
  cbv zeta. apply run_cancelled. destruct (cancelled_at _ _).
  { by apply acquire_abort_spec. }
  cbn [a_run a_ticket a_cancellation acquire_with a_handle]. rewrite Hid.
  eapply run_locked; [done|by apply poll_acquire_spec|]. intros r w1 w2 Hp HP Hl HI2. cbn beta in HP.
  assert (rtc step (w_state w) (w_state w2)) as Hs by (etrans; [apply (p_steps _ _ _ _ _ Hp)|apply Hl]).
  assert (conserving (w_state w) -> conserving (w_state w2)) as Hc
    by (intros; by apply (l_conserving _ _ _ _ Hl), (p_conserving _ _ _ _ _ Hp)).
  set (ticket := match r with Ok (_, t) => t | Err _ => a_ticket a end).
  assert (holdable (w_state w2) ticket) as Hh2.
  { destruct r as [[b o]|e]; [|by eapply holdable_steps]. destruct (HP b o eq_refl) as (t & -> & _ & _ & _ & Hi).
    split; [by eapply known_steps; [exact Hs|apply Hh]|]. intros t' [= <-]. eapply issued_steps; [apply Hl|done]. }
  set (ready := match r with Ok (b, _) => b | Err _ => false end).
  apply run_lost; [apply reads_cancelled|done|]. intros lost w3 Hl3 HI3 Hlost.
  assert (rtc step (w_state w) (w_state w3)) as Hs3 by (etrans; [exact Hs|apply Hl3]).
  assert (conserving (w_state w) -> conserving (w_state w3)) as Hc3 by (intros; by apply (l_conserving _ _ _ _ Hl3), Hc).
  pose proof (later_holdable _ _ _ Hl3 Hh2) as Hh3. destruct lost.
  { by apply acquire_abort_spec. }
  destruct r as [[[|] o]|e].
  - destruct (HP true o eq_refl) as (t & -> & _). eexists _, _. split; [done|]. split; [done|]. split; [done|]. split; [done|].
    split; [done|]. split; [done|]. split; [done|]. eapply held_l; [exact Hs|by apply Hlost].
  - destruct (HP false o eq_refl) as (t & -> & _ & _ & Hpk & _). eexists _, _. split; [done|]. split; [done|]. split; [done|].
    split; [done|]. split; [done|]. split; [done|]. exists t. split; [done|].
    intros Hm. assert (waits_under (Queued t) t) by by left. by eapply (l_parked _ _ _ _ Hl3), (l_parked _ _ _ _ Hl), Hpk.
  - cbn [a_run a_ticket acquire_with]. destruct (bool_decide_reflect (ticket <> None)) as [Ht|Ht].
    + apply run_abort; [done|done|]. intros w' Hl' HI' Hr. eexists _, _. split; [done|]. split; [done|].
      split; [etrans; [done|apply Hl']|]. split; [intros; by apply (l_conserving _ _ _ _ Hl'), Hc3|].
      split; [by eapply later_holdable|]. split; [done|]. intros _ t Ht'. cbn in Ht'. rewrite Ht' in Hr. exact Hr.
    + apply run_ok. eexists _, _. split; [done|]. split; [done|]. split; [done|]. split; [done|]. split; [done|]. split; [done|].
      intros _ t Ht'. destruct Ht. cbn in Ht'. by rewrite Ht'.
Qed.

Lemma acquire_drop_spec a w : Inv (w_state w) -> a_run a = id -> holdable (w_state w) (a_ticket a) ->
  after (acquire_drop cancelled_at limits others_at upgrade_at a) w (fun r w' => r = Ok tt /\ later w w' /\
    (a_done a = false -> upgrade_at (w_clock w) id = true -> forall t, a_ticket a = Some t -> gone (w_state w') (id, t))).
Proof.
  intros HI Hid Hh. unfold acquire_drop. destruct (a_done a); [done|]. cbn [negb andb].
  destruct (bool_decide_reflect (a_ticket a <> None)) as [Ht|Ht].
  2:{ split; [done|]. split; [done|]. intros _ _ t Ht'. by destruct Ht; rewrite Ht'. }
  rewrite Hid. apply run_read. destruct (upgrade_at (w_clock w) id); [|by split; [|split; [apply tick_later|]]].
  eapply after_mono; [by apply abort_spec|]. intros r w' ([] & -> & Hl & _ & Hr). split; [done|].
  split; [etrans; [apply tick_later|exact Hl]|]. intros _ _ t Ht'. by rewrite Ht' in Hr.
Qed.

(** ** [DependencyWait] *)
Context {O : Type} (token_at : nat -> bool) (observe_at : nat -> option O).

Record wait_ok (s : State) (d : DependencyWait O) : Prop := {
  k_run : d_run d = id;
  k_done : d_done d = false;
  k_cancelled : d_cancelled d = true;
  k_observation : d_output d = None -> d_observation d = true;
  k_ticket : d_output d <> None -> d_ticket d <> None;
  k_output : forall v, d_output d = Some v -> exists n, observe_at n = Some v;
  k_holdable : holdable s (d_ticket d);
}.
Lemma wait_ok_steps s s' d : rtc step s s' -> wait_ok s d -> wait_ok s' d.
Proof. intros Hs [H1 H2 H3 H4 H5 H6 H7]. split; try done. by eapply holdable_steps. Qed.

Definition goes (w w' : Work) : Prop :=
  rtc step (w_state w) (w_state w') /\ (conserving (w_state w) -> conserving (w_state w')).
#[local] Instance goes_preorder : PreOrder goes.
Proof. split; [by split|]. intros w1 w2 w3 [A1 A2] [B1 B2]. split; [by etrans|by auto]. Qed.
Lemma later_goes w w' : later w w' -> goes w w'.
Proof. intros [H1 H2 _]. by split. Qed.
Lemma locked_goes {A} own w (r : result A SchedulerError) w1 w2 : performed own w r w1 -> later w1 w2 -> goes w w2.
Proof. intros [H1 _ H3 _] Hl. etrans; [by split|by apply later_goes]. Qed.

(** What a poll of a wait promises, begun in [w]. *)
Definition wait_polled (waker : N) (w : Work) (x : Waited (O := O)) (w' : Work) : Prop :=
  let d := x.1 in
  d_run d = id /\ goes w w' /\
  match x.2 with
  | Pending => wait_ok (w_state w') d /\ exists t, d_ticket d = Some t /\
      (mine t -> if d_output d then parked id waker (Queued t) w' else exists target, parked id waker (Waiting t target) w')
  | Ready (Ok v) => d_done d = true /\ held w w' /\ exists n, observe_at n = Some v
  | Ready (Err _) => d_done d = true /\ (upgrade_at (w_clock w) id = true ->
      match d_ticket d with Some t => gone (w_state w') (id, t) | None => ended (w_state w') id \/ held w w' end)
  end.

Lemma wait_cancel_spec d waker w0 w : Inv (w_state w) -> d_run d = id -> holdable (w_state w) (d_ticket d) -> goes w0 w ->
  after (wait_cancel cancelled_at limits others_at d) w (fun r w' => exists x, r = Ok x /\ wait_polled waker w0 x w').
Proof.
  intros HI Hid Hh Hg. unfold wait_cancel. rewrite Hid. apply run_abort; [done|done|]. intros w' Hl HI' Hr.
  eexists. split; [done|]. split; [done|]. split; [etrans; [done|by apply later_goes]|]. split; [done|]. intros _. cbn.
  destruct (d_ticket d); [done|by left].
Qed.
Lemma reads_wait (d : DependencyWait O) : reads (wait_cancelled cancelled_at token_at d).
Proof.
  intros w. unfold wait_cancelled, either, mthen, read, is_cancelled, mget, mset, mok. cbn. destruct (token_at (w_clock w)); by eexists _, _.
Qed.

Lemma wait_reject_live_spec d e waker w0 w : Inv (w_state w) -> d_run d = id -> d_ticket d = None -> known (w_state w) id -> goes w0 w ->
  after (wait_reject_live cancelled_at limits others_at token_at d e) w (fun r w' => exists x, r = Ok x /\ wait_polled waker w0 x w').
Proof.
  intros HI Hid Ht Hk Hg. unfold wait_reject_live. cbv zeta. eapply run_call; [by apply others_spec|]. intros u w1 Hl1.
  assert (Inv (w_state w1)) as HI1 by (eapply steps_inv; [apply Hl1|done]).
  rewrite Hid. apply (run_lost _ true); [apply reads_wait|done|]. intros lost w2 Hl2 HI2 Hlost.
  assert (goes w0 w2) as Hg2 by (etrans; [exact Hg|]; etrans; [exact (later_goes _ _ Hl1)|exact (later_goes _ _ Hl2)]). destruct lost.
  - apply wait_cancel_spec; [done|done| |done]. cbn. rewrite Ht. split; [|done].
    eapply known_steps; [|exact Hk]. etrans; [apply Hl1|apply Hl2].
  - eexists. split; [done|]. split; [done|]. split; [done|]. split; [done|]. intros _. cbn. rewrite Ht. right.
    eapply held_l; [|by apply Hlost]. etrans; [apply Hg|apply Hl1].
Qed.

(** A part of a poll: it goes on with a wait for which [P] holds, or returns. *)
Definition part (waker : N) (w0 : Work) (P : DependencyWait O -> Work -> Prop)
    (r : result (DependencyWait O + Waited (O := O)) SchedulerError) (w : Work) : Prop :=
  exists x, r = Ok x /\
    match x with
    | inl d => goes w0 w /\ wait_ok (w_state w) d /\ Inv (w_state w) /\ P d w
    | inr x => wait_polled waker w0 x w
    end.
Lemma part_return (m : S_ (Waited (O := O))) waker w0 P w :
  after m w (fun r w' => exists x, r = Ok x /\ wait_polled waker w0 x w') -> after (let* x := m in mok (inr x)) w (part waker w0 P).
Proof. intros Hm. eapply run_call; [exact Hm|]. intros x w' Hx. by exists (inr x). Qed.

Lemma wait_admit_spec d waker w0 w : goes w0 w -> wait_ok (w_state w) d -> Inv (w_state w) ->
  after (wait_admit cancelled_at limits others_at upgrade_at token_at d waker) w (part waker w0 (fun d' _ => d_ticket d' <> None)).
Proof.
  intros Hg Hd HI. unfold wait_admit. destruct (d_ticket d) as [t|] eqn:Ht.
  { exists (inl d). split; [done|]. split; [done|]. split; [done|]. split; [done|]. congruence. }
  assert (known (w_state w) id) as Hk by apply Hd. rewrite (k_run _ _ Hd). apply run_read.
  destruct (upgrade_at _ _); cbn [negb]; [|apply part_return; by apply wait_reject_live_spec; [|apply Hd|..]].
  destruct (d_foreign d); [apply part_return; by apply wait_reject_live_spec; [|apply Hd|..]|].
  eapply run_locked; [done|by apply begin_wait_spec|]. intros r w1 w2 Hp HP Hl HI2.
  assert (goes w0 w2) as Hg2 by (etrans; [exact Hg|]; exact (locked_goes _ _ _ _ _ Hp Hl)).
  assert (rtc step (w_state w) (w_state w2)) as Hs by (etrans; [apply (p_steps _ _ _ _ _ Hp)|apply Hl]). destruct r as [t|e].
  - destruct HP as (_ & _ & _ & Hi). exists (inl (wait_ticket d t)). split; [done|]. split; [done|].
    split; [|done]. destruct Hd as [D1 D2 D3 D4 D5 D6 D7]. split; try done.
    split; [by eapply known_steps|]. intros t' [= <-]. eapply issued_steps; [apply Hl|exact Hi].
  - apply run_executing; [done|]. intros b w3 Hl3 HI3 _.
    assert (goes w0 w3) as Hg3 by (etrans; [exact Hg2|exact (later_goes _ _ Hl3)]).
    assert (wait_ok (w_state w3) d) as Hd3 by (eapply wait_ok_steps; [|exact Hd]; etrans; [exact Hs|apply Hl3]).
    apply part_return. destruct b; cbn [negb].
    + apply wait_reject_live_spec; try done; apply Hd3.
    + apply wait_cancel_spec; try done; apply Hd3.
Qed.

Lemma wait_observe_spec d t waker w0 w : goes w0 w -> wait_ok (w_state w) d -> Inv (w_state w) -> d_ticket d = Some t ->
  after (wait_observe cancelled_at limits others_at token_at observe_at d t waker) w
    (part waker w0 (fun d' _ => d_ticket d' = Some t /\ d_output d' <> None)).
Proof.
  intros Hg Hd HI Ht. unfold wait_observe. destruct (d_output d) as [v|] eqn:Ho.
  { exists (inl d). split; [done|]. split; [done|]. split; [done|]. split; [done|]. split; [done|congruence]. }
  rewrite (k_run _ _ Hd). eapply run_locked; [done|by apply refresh_wait_spec|]. intros r w1 w2 Hp HP Hl HI2.
  assert (goes w0 w2) as Hg2 by (etrans; [exact Hg|]; exact (locked_goes _ _ _ _ _ Hp Hl)).
  assert (wait_ok (w_state w2) d) as Hd2 by (eapply wait_ok_steps; [|exact Hd]; etrans; [apply (p_steps _ _ _ _ _ Hp)|apply Hl]).
  destruct r as [[]|e]; [|apply part_return; apply wait_cancel_spec; try done; apply Hd2].
  destruct (HP eq_refl) as (target & Hpk). apply run_reads; [apply reads_wait|]. intros c n. destruct c.
  { apply part_return. apply wait_cancel_spec; try done; apply Hd2. }
  rewrite (k_observation _ _ Hd2 Ho). apply run_ok, run_read. cbn [w_clock]. eapply run_call; [by apply others_spec|].
  intros u w3 Hl3. assert (Inv (w_state w3)) as HI3 by (eapply steps_inv; [apply Hl3|done]).
  assert (goes w0 w3) as Hg3 by (etrans; [exact Hg2|exact (later_goes _ _ Hl3)]).
  set (d' := match observe_at n with Some v => wait_output d v | None => d end).
  assert (wait_ok (w_state w3) d') as Hd3.
  { eapply wait_ok_steps; [apply Hl3|]. unfold d'. destruct (observe_at n) as [v|] eqn:Hv; [|exact Hd2].
    destruct Hd2 as [D1 D2 D3 D4 D5 D6 D7]. split; try done; cbn; [congruence|]. intros v' [= <-]. by exists n. }
  assert (d_ticket d' = Some t) as Ht' by (unfold d'; by destruct (observe_at n)).
  apply run_reads; [apply reads_wait|]. intros c n'. destruct c.
  { apply part_return. apply wait_cancel_spec; try done; apply Hd3. }
  destruct (d_output d') as [v|] eqn:Ho'; [exists (inl d'); by rewrite Ho'|].
  exists (inr (d', Pending)). split; [done|]. split; [apply Hd3|]. split; [done|]. split; [done|]. cbn.
  exists t. split; [done|]. rewrite Ho'. intros Hm. exists target. assert (waits_under (Waiting t target) t) by by right; eexists.
  by eapply (l_parked _ _ _ _ Hl3), (l_parked _ _ _ _ Hl), Hpk.
Qed.

Lemma wait_reacquire_spec d t waker w0 w : goes w0 w -> wait_ok (w_state w) d -> Inv (w_state w) ->
  d_ticket d = Some t -> d_output d <> None ->
  after (wait_reacquire cancelled_at limits others_at token_at d t waker) w (fun r w' => exists x, r = Ok x /\ wait_polled waker w0 x w').
Proof.
  intros Hg Hd HI Ht Ho. unfold wait_reacquire. rewrite (k_run _ _ Hd).
  eapply run_locked; [done|by apply poll_reacquire_spec|]. intros r w1 w2 Hp HP Hl HI2. cbv zeta.
  assert (goes w0 w2) as Hg2 by (etrans; [exact Hg|]; exact (locked_goes _ _ _ _ _ Hp Hl)).
  apply run_lost; [apply reads_wait|done|]. intros lost w3 Hl3 HI3 Hlost.
  assert (goes w0 w3) as Hg3 by (etrans; [exact Hg2|exact (later_goes _ _ Hl3)]).
  assert (wait_ok (w_state w3) d) as Hd3.
  { eapply wait_ok_steps; [|exact Hd]. etrans; [apply (p_steps _ _ _ _ _ Hp)|]. etrans; [apply Hl|apply Hl3]. }
  destruct lost; [apply wait_cancel_spec; try done; apply Hd3|].
  destruct (d_output d) as [v|] eqn:Hv; [|done]. destruct r as [[|]|e].
  - eexists. split; [done|]. split; [apply Hd3|]. split; [done|]. split; [done|].
    split; [|by apply (k_output _ _ Hd3)]. eapply held_l; [apply Hg2|by apply Hlost].
  - eexists. split; [done|]. split; [apply Hd3|]. split; [done|]. split; [done|]. exists t. split; [done|]. cbn. rewrite Hv.
    intros Hm. assert (waits_under (Queued t) t) by by left. eapply (l_parked _ _ _ _ Hl3), (l_parked _ _ _ _ Hl); [done..|].
    by apply (HP false).
  - apply wait_cancel_spec; try done; apply Hd3.
Qed.

Lemma wait_poll_spec d waker w : Inv (w_state w) -> wait_ok (w_state w) d ->
  after (wait_poll cancelled_at limits others_at upgrade_at token_at observe_at d waker) w (fun r w' =>
    exists x, r = Ok x /\ wait_polled waker w x w').
Proof.
  intros HI Hd. unfold wait_poll. rewrite (k_done _ _ Hd), (k_run _ _ Hd). apply run_read.
  destruct (upgrade_at (w_clock w) id) eqn:Hup; cbn [negb].
  2:{ eexists. split; [done|]. split; [apply Hd|]. split; [by split|]. split; [done|]. congruence. }
  rewrite (k_cancelled _ _ Hd). apply run_ok, run_read. cbv zeta. apply run_cancelled.
  assert (wait_ok (w_state w) (wait_observing d)) as Hd' by (by destruct Hd).
  assert (forall n, goes w {| w_state := w_state w; w_effects := w_effects w; w_clock := n |}) as Hg by by split.
  destruct (_ || _). { apply wait_cancel_spec; [done|apply Hd'|apply Hd'|apply Hg]. }
  apply after_then. eapply after_mono; [by apply (wait_admit_spec (wait_observing d) waker w); [apply Hg|..]|].
  intros r w1 ([d1|x] & -> & H1); [|by exists x]. destruct H1 as (Hg1 & Hd1 & HI1 & Ht1).
  destruct (d_ticket d1) as [t|] eqn:Ht; [|done]. apply run_ok. apply after_then.
  eapply after_mono; [by apply (wait_observe_spec d1 t waker w)|].
  intros r w2 ([d2|x] & -> & H2); [|by exists x]. destruct H2 as (Hg2 & Hd2 & HI2 & Ht2 & Ho2). by apply wait_reacquire_spec.
Qed.

Lemma wait_drop_spec (d : DependencyWait O) w : Inv (w_state w) -> d_run d = id -> holdable (w_state w) (d_ticket d) ->
  after (wait_drop cancelled_at limits others_at upgrade_at d) w (fun r w' => r = Ok tt /\ later w w' /\
    (d_done d = false -> upgrade_at (w_clock w) id = true -> forall t, d_ticket d = Some t -> gone (w_state w') (id, t))).
Proof.
  intros HI Hid Hh. apply (acquire_drop_spec {| a_run := d_run d; a_handle := d_handle d; a_ticket := d_ticket d;
    a_cancellation := false; a_done := d_done d |}); done.
Qed.
End Poll.
End Futures.
