(* ===== verification/SchedulerTheorems.v ===== *)
(** * What the scheduler of managed runs promises

    The theorems about [managed/scheduler.rs], [managed/scheduler/state.rs] and
    [managed/scheduler/waiting.rs], for every sequence of calls from an empty
    scheduler and every pattern of cancellations, each with a run on which it is used. *)
From stdpp Require Export gmap.
From S2P Require Import Prelude Fallible Scheduler SchedulerRules SchedulerOrder SchedulerProofs SchedulerFutures SchedulerFutureProofs.

Definition start : Work := {| w_state := state_default; w_effects := effects_default; w_clock := 0 |}.
(** What a scheduler may be after some calls. *)
Definition reachable (cancelled_at : nat -> N -> bool) (limits : SchedulerLimits) (w : Work) : Prop :=
  exists cs, calls cancelled_at limits cs start = Some (Ok tt, w).

Lemma calls_from_start cancelled_at limits cs : exists w, calls cancelled_at limits cs start = Some (Ok tt, w) /\
  rtc (step limits) state_default (w_state w) /\ Inv limits (w_state w) /\ conserving limits (w_state w).
Proof.
  pose proof (calls_steps cancelled_at limits cs start (inv_default limits)) as H. unfold after in H.
  destruct (calls _ _ _ _) as [[r w]|]; [|done]. destruct H as (-> & Hs & Hc). exists w. split; [done|]. split; [done|].
  split; [eapply steps_inv; [exact Hs|apply inv_default]|]. apply Hc. by left.
Qed.
Lemma work_inv cancelled_at limits w : reachable cancelled_at limits w -> Inv limits (w_state w) /\ conserving limits (w_state w).
Proof.
  intros [cs Hcs]. destruct (calls_from_start cancelled_at limits cs) as (w' & Hw & _ & HI & Hc). rewrite Hcs in Hw. by injection Hw as <-.
Qed.
Lemma after_run {A} (m : S_ A) w Q : after m w Q -> exists r w', m w = Some (r, w') /\ Q r w'.
Proof. unfold after. destruct (m w) as [[r w']|]; [|done]. intros H. by exists r, w'. Qed.

Lemma returned_state {A B} (a a' : A) (b b' : B) : Some (a, b) = Some (a', b') -> b = b'.
Proof. by intros [= _ ->]. Qed.

Lemma returned_value {A B C E} (a a' : A) (b b' : B) (c c' : C) :
  Some (Ok (a, b) : result (A * B) E, c) = Some (Ok (a', b'), c') -> a = a' /\ b = b' /\ c = c'.
Proof. by intros [= -> -> ->]. Qed.

(** A scheduler with one slot: run 2 executes, runs 4 and 7 are queued behind it. *)
Definition sample_limits : SchedulerLimits := {| l_executions := 1; l_residents := 8; l_waiters := 8 |}.
Definition never (_ : nat) (_ : N) : bool := false.
Definition sample_calls : list Call :=
  [C_reserve_resident; C_register_run 1 1 11 21; C_reserve_resident; C_register_run 3 1 12 22;
   C_poll_acquire 2 None 31; C_reserve_resident; C_register_run 6 1 13 23; C_poll_acquire 4 None 32; C_poll_acquire 7 None 33].
Definition sample_work : Work :=
  match calls never sample_limits sample_calls start with Some (_, w) => w | None => start end.
Lemma sample_reachable : reachable never sample_limits sample_work.
Proof. exists sample_calls. by vm_compute. Qed.

(** The limits of the source: positive, at most as many slots as residents, each under
    its maximum. *)
Theorem scheduler_limits_exact executions residents waiters :
  (exists l, scheduler_limits_new executions residents waiters = Ok l /\ nz_get (l_executions l) = executions /\
    nz_get (l_residents l) = residents /\ nz_get (l_waiters l) = waiters) <->
  (0 < executions <= residents /\ executions <= 256 /\ residents <= 4096 /\ 0 < waiters <= 4096)%N.
Proof.
  unfold scheduler_limits_new, MAX_EXECUTIONS, MAX_RESIDENTS, MAX_WAITERS. destruct (_ || _) eqn:E.
  - split; [by intros (? & ? & _)|]. rewrite !orb_true_iff, !N.eqb_eq, !N.ltb_lt in E. lia.
  - rewrite !orb_false_iff, !N.eqb_neq, !N.ltb_ge in E. split; [lia|]. intros _.
    destruct executions, residents, waiters; try lia. by eexists.
Qed.

(** C3. Every sequence of calls returns, whoever makes them and whatever is cancelled
    meanwhile, and takes steps of the protocol only: each lock section of the source is
    a sequence of [step]s. *)
Theorem scheduler_follows_protocol cancelled_at limits cs :
  exists w, calls cancelled_at limits cs start = Some (Ok tt, w) /\ rtc (step limits) state_default (w_state w).
Proof. destruct (calls_from_start cancelled_at limits cs) as (w & Hw & Hs & _). by exists w. Qed.

(** C12. Between calls: as many runs execute as are counted, never more than the limit, and
    a slot is free only where no run is queued; the queue holds exactly the queued runs,
    each once; a run belongs to a resident that names it; no run waits for itself,
    directly or through others; a waker is stored only for a run that waits. *)
Theorem scheduler_invariant cancelled_at limits w : reachable cancelled_at limits w ->
  let s := w_state w in
  executing s = count is_executing_phase (runs s) /\ (executing s <= nz_get (l_executions limits))%N /\
  (queue s <> [] -> executing s = nz_get (l_executions limits)) /\
  waiters s = count is_waiter (runs s) /\ (waiters s <= nz_get (l_waiters limits))%N /\
  (N.of_nat (size (residents s)) <= nz_get (l_residents limits))%N /\
  (forall id t, (id, t) ∈ queue s <-> exists slot, runs s !! id = Some slot /\ s_phase slot = Queued t) /\ NoDup (queue s).*1 /\
  (forall id slot, runs s !! id = Some slot -> exists r, residents s !! s_resident slot = Some r /\ r_run r = Some id) /\
  (forall id, ~ tc (waits (runs s)) id id) /\
  (forall id slot, runs s !! id = Some slot -> s_waker slot <> None -> is_waiter (s_phase slot) = true).
Proof.
  intros H s. apply work_inv in H as [[I1 I2 I3 I4 I5 I6 I7 I8 I9 I10 I11 I12 I13 I14 I15] Hc].
  split; [done|]. split; [done|]. split; [by destruct Hc|]. by auto 10.
Qed.
Lemma scheduler_invariant_witness : queue (w_state sample_work) <> [] /\ executing (w_state sample_work) = 1%N.
Proof.
  split; [by vm_compute|]. apply (scheduler_invariant never sample_limits sample_work sample_reachable). by vm_compute.
Defined.

(** C7. First come, first served: where one run is queued ahead of another, the second does
    not get its slot while the first is still queued, whatever calls come in between. *)
Theorem scheduler_fifo cancelled_at limits w cs w' x y slot : reachable cancelled_at limits w ->
  before (w_state w) x y -> calls cancelled_at limits cs w = Some (Ok tt, w') ->
  runs (w_state w') !! y.1 = Some slot -> s_phase slot = Executing y.2 -> x ∉ queue (w_state w').
Proof.
  intros H Hb Hcs Hs Hp. apply work_inv in H as [HI _]. pose proof (calls_steps cancelled_at limits cs w HI) as Hst.
  unfold after in Hst. rewrite Hcs in Hst. destruct Hst as (_ & Hst & _).
  eapply (ordered_spec limits); [by eapply steps_inv| |exact Hs|exact Hp]. eapply ordered_steps; [exact HI|exact Hst|by left].
Qed.
Definition sample_later : Work :=
  match calls never sample_limits [C_stop 2 None false; C_stop 4 None true] sample_work with Some (_, w) => w | None => start end.
Lemma scheduler_fifo_witness : exists x y slot, before (w_state sample_work) x y /\
  runs (w_state sample_later) !! y.1 = Some slot /\ s_phase slot = Executing y.2 /\ x ∉ queue (w_state sample_later).
Proof.
  exists (4, 8)%N, (7, 9)%N, {| s_resident := 6; s_phase := Executing 9; s_turn := 13; s_handle := 23; s_waker := None |}.
  assert (before (w_state sample_work) (4, 8)%N (7, 9)%N) as Hb by (by exists [], [], []).
  assert (runs (w_state sample_later) !! 7%N = Some {| s_resident := 6; s_phase := Executing 9; s_turn := 13; s_handle := 23; s_waker := None |})
    as Hs by by vm_compute.
  split; [exact Hb|]. split; [exact Hs|]. split; [done|].
  apply (scheduler_fifo never sample_limits sample_work [C_stop 2 None false; C_stop 4 None true] sample_later (4, 8)%N (7, 9)%N
    {| s_resident := 6; s_phase := Executing 9; s_turn := 13; s_handle := 23; s_waker := None |} sample_reachable Hb);
    [by vm_compute|exact Hs|reflexivity].
Defined.

(** C17. No wake-up is lost: over a call, every stored waker stays where it is, its run in
    the phase it was in, or it is woken; only the run that polls may replace its own.
    A call that fails changes nothing. *)
Theorem scheduler_wakes cancelled_at limits w c : reachable cancelled_at limits w ->
  exists r w', perform cancelled_at limits c w = Some (r, w') /\
    (forall k slot v, runs (w_state w) !! k = Some slot -> s_waker slot = Some v ->
      (exists slot', runs (w_state w') !! k = Some slot' /\ s_waker slot' = Some v /\ s_phase slot' = s_phase slot) \/
      v ∈ e_wake (w_effects w') \/ polls c = Some k /\ v ∈ e_discard (w_effects w')) /\
    (forall e, r = Err e -> w_state w' = w_state w /\ w_effects w' = w_effects w).
Proof.
  intros H. apply work_inv in H as [HI _]. destruct (after_run _ _ _ (perform_spec cancelled_at limits c w HI)) as (r & w' & Hr & Hp).
  exists r, w'. split; [done|]. destruct Hp as [_ [_ _ Ha] _ He]. by split.
Qed.
Definition sample_stopped : Work :=
  match perform never sample_limits (C_stop 2 None false) sample_work with Some (_, w) => w | None => start end.
Lemma sample_stop : perform never sample_limits (C_stop 2 None false) sample_work = Some (Ok tt, sample_stopped).
Proof. by vm_compute. Qed.
Lemma scheduler_wakes_witness : 32%N ∈ e_wake (w_effects sample_stopped).
Proof.
  destruct (scheduler_wakes never sample_limits sample_work (C_stop 2 None false) sample_reachable) as (r & w' & Hr & Hw & _).
  rewrite sample_stop in Hr. pose proof (returned_state _ _ _ _ Hr) as <-. clear Hr.
  destruct (Hw 4%N {| s_resident := 3; s_phase := Queued 8; s_turn := 12; s_handle := 22; s_waker := Some 32%N |} 32%N)
    as [(x & Hx & Hv & Hp) | [? | [? _]]]; [by vm_compute|done| |done|done].
  exfalso. vm_compute in Hx. injection Hx as <-. done.
Defined.

(** The run is stopped, first thing; the rest of the call only grants slots. *)
Lemma stop_after cancelled_at limits id cancel w : Inv limits (w_state w) -> known (w_state w) id ->
  exists w1 w', inner_stop cancelled_at limits id None cancel w = Some (Ok tt, w') /\ rtc (step limits) (w_state w) (w_state w') /\
    ended (w_state w') id /\ stop_run id None cancel w = Some (Ok tt, w1) /\ driven limits w1 w'.
Proof.
  intros HI Hk.
  destruct (after_run _ _ _ (inner_stop_spec cancelled_at limits id None cancel w HI)) as (r & w' & Hr & Hp & w1 & Hrun & Hd & ->).
  exists w1, w'. split; [done|]. split; [apply Hp|]. split; [|done]. eapply ended_steps; [apply Hd|].
  by eapply (stop_released limits id None).
Qed.
Lemma run_known limits s id slot : Inv limits s -> runs s !! id = Some slot -> known s id.
Proof. intros HI Hs n Hn. destruct (i_fresh _ _ HI n Hn) as (_ & F2 & _). apply F2. by eexists. Qed.

(** Stopping a run: it settles, its slot or place is given up, and every run that waits
    for it is woken. *)
Theorem stop_settles cancelled_at limits w id slot cancel : reachable cancelled_at limits w -> runs (w_state w) !! id = Some slot ->
  exists w', inner_stop cancelled_at limits id None cancel w = Some (Ok tt, w') /\ ended (w_state w') id /\
    (forall k x v, runs (w_state w) !! k = Some x -> k <> id -> waits_for id x = true -> s_waker x = Some v ->
      v ∈ e_wake (w_effects w')).
Proof.
  intros H Hs. apply work_inv in H as [HI _].
  destruct (stop_after cancelled_at limits id cancel w HI (run_known limits _ id slot HI Hs)) as (w1 & w' & Hr & _ & He & Hrun & Hd).
  exists w'. split; [done|]. destruct Hd as (_ & [Hwake _ _] & _). split; [done|].
  intros k x v Hk Hne Hw Hv. apply Hwake. destruct (counters_pos limits _ id slot HI Hs) as [C1 C2].
  rewrite (stop_run_here id None cancel w slot Hs (or_introl eq_refl) C1 C2) in Hrun. injection Hrun as <-.
  by eapply run_stopped_wakes.
Qed.

(** Run 4 executes beside run 2 and waits for it. *)
Definition wait_limits : SchedulerLimits := {| l_executions := 2; l_residents := 8; l_waiters := 8 |}.
Definition wait_calls : list Call :=
  [C_reserve_resident; C_register_run 1 1 11 21; C_reserve_resident; C_register_run 3 1 12 22;
   C_poll_acquire 2 None 31; C_poll_acquire 4 None 32; C_begin_wait 4 2 42].
Definition wait_work : Work := match calls never wait_limits wait_calls start with Some (_, w) => w | None => start end.
Lemma wait_reachable : reachable never wait_limits wait_work.
Proof. exists wait_calls. by vm_compute. Qed.
Definition slot_2 : Slot := {| s_resident := 1; s_phase := Executing 5; s_turn := 11; s_handle := 21; s_waker := None |}.
Definition slot_4 : Slot := {| s_resident := 3; s_phase := Waiting 7 2; s_turn := 12; s_handle := 22; s_waker := Some 42%N |}.
Lemma slots_of_wait : runs (w_state wait_work) !! 2%N = Some slot_2 /\ runs (w_state wait_work) !! 4%N = Some slot_4.
Proof. by split; vm_compute. Qed.

Lemma stop_settles_witness : exists w', inner_stop never wait_limits 2 None false wait_work = Some (Ok tt, w') /\
  ended (w_state w') 2 /\ 42%N ∈ e_wake (w_effects w').
Proof.
  destruct slots_of_wait as [H2 H4].
  destruct (stop_settles never wait_limits wait_work 2%N slot_2 false wait_reachable H2) as (w' & Hr & He & Hw).
  exists w'. split; [exact Hr|]. split; [exact He|]. by apply (Hw 4%N slot_4 42%N).
Defined.

(** C40. Completing the settlement of a run: where it has settled, it leaves, and its resident
    becomes free, or leaves with it when it was retired. Otherwise the call fails, and the
    run is stopped. *)
Theorem settlement_outcome cancelled_at limits w id : reachable cancelled_at limits w -> known (w_state w) id ->
  exists r w', settlement_complete cancelled_at limits id w = Some (r, w') /\ rtc (step limits) (w_state w) (w_state w') /\
    match r with
    | Ok _ => runs (w_state w') = unwaked id <$> delete id (runs (w_state w)) /\
        exists slot o, runs (w_state w) !! id = Some slot /\ s_phase slot = Settling /\
          residents (w_state w) !! s_resident slot = Some o /\
          residents (w_state w') !! s_resident slot = (if r_retired o then None else Some (released o))
    | Err _ => (forall slot, runs (w_state w) !! id = Some slot -> s_phase slot <> Settling) /\
        forall slot, runs (w_state w') !! id = Some slot -> s_phase slot = Settling
    end.
Proof.
  intros H Hk. apply work_inv in H as [HI _].
  destruct (after_run _ _ _ (complete_spec limits id w HI)) as (r & w1 & Hr & Hp & Hc).
  unfold settlement_complete, mthen, attempt. rewrite Hr.
  assert (forall e, r = Err e -> (forall slot, runs (w_state w) !! id = Some slot -> s_phase slot <> Settling) ->
    exists w2, settlement_drop cancelled_at limits id false w1 = Some (Ok tt, w2) /\ rtc (step limits) (w_state w) (w_state w2) /\
      forall slot, runs (w_state w2) !! id = Some slot -> s_phase slot = Settling) as Herr.
  { intros e -> _. destruct (p_error _ _ _ _ _ Hp e eq_refl) as [E _]. rewrite <- E in HI, Hk |- *.
    destruct (stop_after cancelled_at limits id true w1 HI Hk) as (_ & w2 & Hw2 & Hst & He & _). exists w2. by destruct He. }
  destruct (runs (w_state w) !! id) as [slot|] eqn:Hs; [destruct (bool_decide_reflect (s_phase slot = Settling)) as [Hset|Hset]|].
  - destruct Hc as (-> & o & Ho & ->). exists (Ok tt), (run_completed id slot o w). split; [done|]. split; [apply Hp|].
    split; [done|]. exists slot, o. split; [done|]. split; [done|]. split; [done|]. cbn. destruct (r_retired o).
    + apply lookup_delete_eq.
    + apply lookup_insert_eq.
  - subst r. destruct (Herr NotSettling eq_refl) as (w2 & Hw2 & Hst & He); [by intros x [= <-]|].
    exists (Err NotSettling), w2. rewrite Hw2. split; [done|]. split; [done|]. split; [by intros x [= <-]|done].
  - subst r. destruct (Herr Stale eq_refl) as (w2 & Hw2 & Hst & He); [done|].
    exists (Err Stale), w2. rewrite Hw2. by split; [|split; [|split]].
Qed.
Lemma settlement_outcome_witness : exists r w', settlement_complete never sample_limits 2 sample_work = Some (r, w') /\
  forall slot, r <> Ok tt -> runs (w_state w') !! 2%N = Some slot -> s_phase slot = Settling.
Proof.
  destruct (settlement_outcome never sample_limits sample_work 2%N sample_reachable) as (r & w' & Hr & _ & H).
  - intros n Hn. vm_compute in Hn. injection Hn as <-. reflexivity.
  - exists r, w'. split; [exact Hr|]. intros slot Hok. destruct r as [[]|e]; [destruct (Hok eq_refl)|]. apply H.
Defined.

(** C15. Who may wait for whom: where an executing run that is not cancelled asks to wait for
    an admitted run, the wait is refused as a cycle exactly when the target already waits
    for the run, directly or through others. Otherwise, while there is room, the run gives
    up its slot and is parked with its waker. *)
Theorem begin_wait_exact cancelled_at limits w id target waker slot t0 tslot : reachable cancelled_at limits w ->
  runs (w_state w) !! id = Some slot -> s_phase slot = Executing t0 -> cancelled_at (w_clock w) (s_handle slot) = false ->
  runs (w_state w) !! target = Some tslot -> s_phase tslot <> Registered ->
  exists r w', begin_wait cancelled_at limits id target waker w = Some (r, w') /\
    (r = Err DependencyCycle <-> rtc (waits (runs (w_state w))) target id) /\
    (~ rtc (waits (runs (w_state w))) target id -> (waiters (w_state w) < nz_get (l_waiters limits))%N -> next_id (w_state w) <> None ->
      exists t, r = Ok t /\ parked id waker (Waiting t target) w').
Proof.
  intros H Hs Hp Hc Ht Hr. apply work_inv in H as [HI _].
  destruct (after_run _ _ _ (begin_wait_spec cancelled_at limits id target waker w HI)) as (r & w' & Hrun & _ & HP).
  exists r, w'. split; [done|]. destruct r as [t|e].
  - destruct HP as (Hpk & _ & Hno & _). split; [by split|]. intros _ _ _. by exists t.
  - destruct e; cbn in HP; try (by destruct HP as (x & Hx & Hbad); rewrite Hs in Hx; injection Hx as <-; congruence);
      try (by congruence); try done.
    + destruct HP as [Hw Hno]. split; [by split|]. lia.
    + destruct HP as [Hw Hno]. by split.
    + destruct HP as (x & Hx & Hbad). rewrite Hs in Hx. injection Hx as <-. by rewrite Hp in Hbad.
    + by destruct (Hr (HP tslot Ht)).
Qed.
Lemma begin_wait_exact_witness : exists w', begin_wait never wait_limits 2 4 43 wait_work = Some (Err DependencyCycle, w').
Proof.
  destruct slots_of_wait as [H2 H4].
  destruct (begin_wait_exact never wait_limits wait_work 2%N 4%N 43%N slot_2 5%N slot_4 wait_reachable H2 eq_refl eq_refl H4)
    as (r & w' & Hr & Hc & _); [done|]. exists w'. rewrite Hr. f_equal. f_equal. apply Hc. apply rtc_once.
  exists slot_4, 7%N. split; [exact H4|reflexivity].
Defined.

(** C14. A poll of [Acquire] returns whatever other tasks do while it does not hold the lock,
    polls of other futures of the same run included, and takes steps of the protocol only.
    While it is pending it has a ticket, and where no other task names that ticket, which
    is private to the future, its run is queued under it with the waker of this poll, or
    that waker has been woken. It succeeds only where the run was seen executing. Once it
    has failed, nothing is held under its ticket, unless the scheduler itself is gone. *)
Theorem acquire_poll_outcome cancelled_at limits others_at upgrade_at w a waker : reachable cancelled_at limits w ->
  a_done a = false -> holdable (a_run a) (w_state w) (a_ticket a) ->
  exists a' p w', acquire_poll cancelled_at limits others_at upgrade_at a waker w = Some (Ok (a', p), w') /\
    rtc (step limits) (w_state w) (w_state w') /\ holdable (a_run a) (w_state w') (a_ticket a') /\
    match p with
    | Pending => a_done a' = false /\ exists t, a_ticket a' = Some t /\
        (mine others_at (a_run a) t -> parked (a_run a) waker (Queued t) w')
    | Ready (Ok _) => a_done a' = true /\ a_ticket a' <> None /\ held limits (a_run a) w w'
    | Ready (Err _) => a_done a' = true /\
        (upgrade_at (w_clock w) (a_run a) = true -> forall t, a_ticket a' = Some t -> gone (w_state w') (a_run a, t))
    end.
Proof.
  intros H Hd Hh. apply work_inv in H as [HI _].
  destruct (after_run _ _ _ (acquire_poll_spec cancelled_at limits others_at upgrade_at (a_run a) a waker w HI eq_refl Hd Hh))
    as (r & w' & Hr & a' & p & -> & _ & Hs & _ & Hh' & Hp).
  exists a', p, w'. by split.
Qed.

Lemma holdable_new id s n : next_id s = Some n -> (id < n)%N -> holdable id s None.
Proof. intros Hn Hlt. split; [|done]. intros m Hm. congruence. Qed.

(** Polls without other tasks, on the scheduler that keeps its references. *)
Definition alone (_ : nat) : list Call := [].
Definition alive (_ : nat) (_ : N) : bool := true.
(** Another future of run 11, polled at every chance. *)
Definition rival (_ : nat) : list Call := [C_poll_acquire 11 None 99; C_begin_wait 11 2 98; C_is_executing 11].
Lemma rival_tickets t : mine rival 11 t.
Proof.
  intros n c [-> | [-> | [-> | H]%elem_of_cons]%elem_of_cons]%elem_of_cons; [done..|]. by apply not_elem_of_nil in H.
Qed.
Definition third_acquire : Acquire := acquire_new 11 24.
Definition third_calls : list Call := sample_calls ++ [C_reserve_resident; C_register_run 10 1 14 24].
Definition third_work : Work := match calls never sample_limits third_calls start with Some (_, w) => w | None => start end.
Lemma third_reachable : reachable never sample_limits third_work.
Proof. exists third_calls. by vm_compute. Qed.
Definition third_polled : Work :=
  match acquire_poll never sample_limits rival alive third_acquire 34 third_work with Some (_, w) => w | None => start end.
Lemma third_poll : acquire_poll never sample_limits rival alive third_acquire 34 third_work =
  Some (Ok (acquire_with third_acquire (Some 12%N) true false, Pending), third_polled).
Proof. by vm_compute. Qed.
Lemma acquire_poll_outcome_witness : exists t, parked 11 34 (Queued t) third_polled.
Proof.
  destruct (acquire_poll_outcome never sample_limits rival alive third_work third_acquire 34 third_reachable) as (a' & p & w' & Hr & _ & _ & Hp).
  - reflexivity.
  - apply (holdable_new 11 _ 12); [by vm_compute|reflexivity].
  - rewrite third_poll in Hr. destruct (returned_value _ _ _ _ _ _ Hr) as (<- & <- & <-).
    destruct Hp as (_ & t & _ & Hp). exists t. apply Hp. apply rival_tickets.
Defined.

(** C8. A poll of [DependencyWait] returns as well, whatever other tasks do: none of its
    expectations fails. Pending, it has a ticket, and where no other task names that
    ticket it waits for its target or for a slot, with the waker of this poll. What was
    observed is returned only where the run was seen executing again. Once it has
    failed, nothing is held under its ticket; a wait that was refused leaves the run
    executing or ends it. *)
Theorem dependency_wait_outcome {O : Type} cancelled_at limits others_at upgrade_at token_at (observe_at : nat -> option O) w d waker :
  reachable cancelled_at limits w ->
  wait_ok (d_run d) observe_at (w_state w) d ->
  exists d' p w', wait_poll cancelled_at limits others_at upgrade_at token_at observe_at d waker w = Some (Ok (d', p), w') /\
    rtc (step limits) (w_state w) (w_state w') /\
    match p with
    | Pending => wait_ok (d_run d) observe_at (w_state w') d' /\ exists t, d_ticket d' = Some t /\
        (mine others_at (d_run d) t ->
         if d_output d' then parked (d_run d) waker (Queued t) w' else exists target, parked (d_run d) waker (Waiting t target) w')
    | Ready (Ok v) => d_done d' = true /\ held limits (d_run d) w w' /\ exists n, observe_at n = Some v
    | Ready (Err _) => d_done d' = true /\ (upgrade_at (w_clock w) (d_run d) = true ->
        match d_ticket d' with
        | Some t => gone (w_state w') (d_run d, t)
        | None => ended (w_state w') (d_run d) \/ held limits (d_run d) w w'
        end)
    end.
Proof.
  intros H Hd. apply work_inv in H as [HI _].
  destruct (after_run _ _ _ (wait_poll_spec cancelled_at limits others_at upgrade_at (d_run d) token_at observe_at d waker w HI Hd))
    as (r & w' & Hr & [d' p] & -> & _ & [Hs _] & Hp).
  exists d', p, w'. by split.
Qed.
Definition sample_wait : DependencyWait N := wait_new 2 21 4 false.
Definition second (n : nat) : option N := if (n <? 5)%nat then None else Some 77%N.
Definition idle_calls : list Call :=
  [C_reserve_resident; C_register_run 1 1 11 21; C_reserve_resident; C_register_run 3 1 12 22; C_poll_acquire 2 None 31; C_poll_acquire 4 None 32].
Definition idle_work : Work := match calls never wait_limits idle_calls start with Some (_, w) => w | None => start end.
Lemma idle_reachable : reachable never wait_limits idle_work.
Proof. exists idle_calls. by vm_compute. Qed.
Definition wait_polled_once : option (result (Waited (O := N)) SchedulerError * Work) :=
  wait_poll never wait_limits alone alive (fun _ => false) second sample_wait 35 idle_work.
Definition wait_after : Work := match wait_polled_once with Some (_, w) => w | None => start end.
Definition wait_returned : DependencyWait N := match wait_polled_once with Some (Ok (d, _), _) => d | _ => sample_wait end.
Lemma wait_poll_once : wait_poll never wait_limits alone alive (fun _ => false) second sample_wait 35 idle_work =
  Some (Ok (wait_returned, Ready (Ok 77%N)), wait_after).
Proof. by vm_compute. Qed.
Lemma dependency_wait_outcome_witness : held wait_limits 2 idle_work wait_after.
Proof.
  destruct (dependency_wait_outcome never wait_limits alone alive (fun _ => false) second idle_work sample_wait 35 idle_reachable)
    as (d' & p & w' & Hr & _ & Hp).
  - constructor; [reflexivity|reflexivity|reflexivity|reflexivity|intros []; reflexivity|discriminate|].
    apply (holdable_new 2 _ 7); [by vm_compute|reflexivity].
  - rewrite wait_poll_once in Hr. destruct (returned_value _ _ _ _ _ _ Hr) as (<- & <- & <-).
    destruct Hp as (_ & Hp & _). exact Hp.
Defined.

(** C39. Dropping an unfinished future releases what it holds, whatever other tasks do
    meanwhile: neither a slot nor a place stays with its ticket, now or later. *)
Theorem dropped_future_releases {O : Type} cancelled_at limits others_at upgrade_at w cs id ticket handle (d : DependencyWait O) :
  reachable cancelled_at limits w -> issued (w_state w) (id, ticket) ->
  upgrade_at (w_clock w) id = true ->
  d_run d = id -> d_ticket d = Some ticket -> d_done d = false ->
  exists w1 w2, acquire_drop cancelled_at limits others_at upgrade_at (acquire_with (acquire_new id handle) (Some ticket) true false) w = Some (Ok tt, w1) /\
    wait_drop cancelled_at limits others_at upgrade_at d w = Some (Ok tt, w2) /\
    forall w' wi, wi = w1 \/ wi = w2 -> calls cancelled_at limits cs wi = Some (Ok tt, w') -> gone (w_state w') (id, ticket).
Proof.
  intros H Hi Hup Hd Ht Hdone. apply work_inv in H as [HI _].
  assert (forall t, Some ticket = Some t -> holdable id (w_state w) (Some ticket)) as Hh.
  { intros t [= <-]. split; [intros n Hn; by apply (Hi n)|]. by intros t [= <-]. }
  destruct (after_run _ _ _ (acquire_drop_spec cancelled_at limits others_at upgrade_at id
    (acquire_with (acquire_new id handle) (Some ticket) true false) w HI eq_refl (Hh _ eq_refl))) as (r1 & w1 & Hr1 & -> & Hl1 & Hg1).
  rewrite <- Ht in Hh.
  destruct (after_run _ _ _ (wait_drop_spec cancelled_at limits others_at upgrade_at id d w HI Hd (Hh ticket Ht)))
    as (r2 & w2 & Hr2 & -> & Hl2 & Hg2).
  exists w1, w2. split; [done|]. split; [done|]. intros w' wi Hwi Hcs.
  assert (gone (w_state wi) (id, ticket) /\ Inv limits (w_state wi)) as [Hg HI'].
  { destruct Hwi as [-> | ->]; (split; [by auto|]); eapply steps_inv; [apply Hl1|done|apply Hl2|done]. }
  pose proof (calls_steps cancelled_at limits cs wi HI') as Hst. unfold after in Hst. rewrite Hcs in Hst.
  destruct Hst as (_ & Hst & _). by eapply gone_steps.
Qed.

Definition parked_wait : DependencyWait N := wait_ticket (wait_new 4 22 2 false) 8.
Definition sample_dropped : Work :=
  match wait_drop never sample_limits alone alive parked_wait sample_work with Some (_, w) => w | None => start end.
Lemma sample_drop : wait_drop never sample_limits alone alive parked_wait sample_work = Some (Ok tt, sample_dropped).
Proof. by vm_compute. Qed.
Lemma dropped_future_releases_witness : gone (w_state sample_dropped) (4, 8)%N.
Proof.
  destruct (dropped_future_releases never sample_limits alone alive sample_work [] 4%N 8%N 22%N parked_wait sample_reachable)
    as (w1 & w2 & _ & Hr & Hg); try reflexivity.
  - intros n Hn. vm_compute in Hn. injection Hn as <-. split; reflexivity.
  - rewrite sample_drop in Hr. rewrite <- (returned_state _ _ _ _ Hr) in Hg.
    apply (Hg sample_dropped sample_dropped); [right; reflexivity|reflexivity].
Defined.
